(* ===== verification/_CoqProject ===== *)
-Q . S2P
Prelude.v
Cursor.v
Utf.v
Framing.v
Per.v
Ber.v
Mcs.v
Svc.v
DvcPdu.v
Dvc.v
Scheduler.v
Writer.v
Rdp6.v
Diff.v
Display.v
AuthLimit.v
Input.v
Headers.v
ClientInfo.v
Gcc.v
Capability.v
Finalization.v
BitmapSync.v
Fastpath.v
BitmapEncode.v
BitmapPaint.v
NsCodec.v
FramePump.v
Cliprdr.v
RdpdrPdu.v
Rdpdr.v
RdpdrWire.v
DriveSelfTest.v
FusePath.v
FuseBridge.v
FuseFs.v
FuseThreads.v
FuseSafety.v
FuseMount.v
FuseFlow.v
RdpdrSafety.v
Yuv.v
H264Headers.v
GfxPdu.v
Gfx.v
GfxSafety.v
Connector.v
ConnectorSafety.v
ConnectorFlow.v
RdpsndPdu.v
AudioInput.v
Rdpsnd.v
WaveChannel.v
Transport.v
StaticChannel.v
SlowPath.v
Credentials.v
Wire.v
Credssp.v
Handshake.v
Capture.v
DrmCapture.v
DisplayHub.v
ClipboardHost.v
Pointer.v
AudioCapture.v
AcceptLoop.v
SelectRead.v
