(* ===== verification/Prelude.v ===== *)
(** kmsrdp: a DRM/KMS based RDP server, its verification library.

    * The program

    [kmsrdp] shares the screen of a Linux machine over RDP.  [src/kmsrdp] holds the
    parts bound to the machine (KMS capture, PulseAudio, uinput, FUSE, the
    [rdp_server] binary); [src/crates/rdpcore-*] hold a sans-I/O RDP stack:
    [rdpcore-pdu] (codecs), [rdpcore-connector] (connection sequence),
    [rdpcore-transport] (writer and frame scheduler), [rdpcore-dvc], [-rdpsnd],
    [-cliprdr], [-rdpdr], [-rdpegfx], [-rdpeai] (virtual channels) and
    [rdpcore-server] (the session loop that joins them).  A frame that arrives
    passes TPKT, X.224, MCS and the channel chunking ([Framing], [Mcs], [Svc]) to a
    channel's state machine ([Dvc], [Rdpsnd], [Rdpdr], [Cliprdr], and over [Dvc] to
    [Gfx] and [AudioInput]) or to input ([Input]); what a component answers goes
    back through the same layers into the [Scheduler], which the task of the
    connection ([Writer]) empties into the socket.  A connection is accepted
    ([AcceptLoop]), negotiated and authenticated ([Handshake], [Credssp],
    [Connector]) and then served ([SelectRead], [SlowPath], [BitmapSync]); one
    capture loop feeds all sessions ([DisplayHub]).  The client's drives are mounted
    through FUSE: threads of the kernel's requests ([FuseFs], [FuseBridge]) issue
    commands on [Rdpdr] and wait for the answers.

    * How Rust is modelled

    One file per Rust module, one definition per function, with the function's name;
    a method [T::f] whose name is taken elsewhere is [T_f].  A machine integer is a
    [Z] with its wrap-around ([as_u8] ...) or saturation written at the operation; a
    [&[u8]] or [Vec<u8>] is a [bytes] (a list of [Z]) with [bytes_ok] as its type
    invariant; [usize] has 64 bits.  [Result<A, E>] is [res E A], whose third
    outcome [Panic] stands for an index out of range, a failed [expect] or a failed
    [debug_assert]: that code does not panic is always a theorem.  A decoder is a
    [reader]: it threads the [ReadCursor] and may fail.  An operation on [&mut self]
    takes the state and returns it; [while] and recursion that is not structural
    take fuel, and the theorems show that the fuel the definitions pass is enough
    (the results are [Ok] or the loops are proved equal to their unbounded meaning).
    A clock is an argument, read as often as the code reads it.  What a trait leaves
    open (a channel handler, an audio backend, an H.264 encoder) is a type class
    with the operations of the trait; a library object the code relies on (the
    channels, semaphores and broadcast of tokio, the crates sspi, subtle and
    arboard) is a class, with its documented behaviour as laws.  The iteration order
    of a HashMap is a parameter.  Code of several threads ([FuseBridge]) is a
    [proc]: a tree whose nodes are one section under a lock, one reading of the
    clock, or one wait, and whose steps any other thread or the connection may
    interleave with.

    * The files

    - [Prelude]: this file; outcomes, integers, byte lists, [chunks], bit lemmas,
      the tactics [cast_lia] and [len_lia], the rewrite base [len].
    - [Cursor] ([rdpcore-pdu/src/cursor.rs], [lib.rs]): the cursor, the writers
      and three program logics: [reads] (what a decoder returns on encoded
      bytes, used for round trips), [safe] (no panic on any bytes) and [sizes]
      (results bounded by the input), with hint databases and the tactics
      [reads_steps] and [safe_steps] that carry most codec proofs.
    - [Utf] ([utf16.rs]), [Framing] ([tpkt.rs], [tpdu.rs], [x224.rs]), [Per]
      ([per.rs]), [Ber] ([ber.rs]), [Mcs] ([mcs.rs]), [Svc] ([svc.rs]): the
      layers of a slow-path frame.
    - [Rdp6] ([rdp6.rs]): the planar bitmap codec, encoder and decoder.
    - [DvcPdu], [Dvc] ([rdpcore-dvc]): dynamic virtual channels, fragmentation
      and the multiplexer [DvcMux].
    - [RdpsndPdu], [Rdpsnd], [WaveChannel] ([rdpcore-rdpsnd]): audio output, its
      flow control, and the mailbox between capture and session.
    - [Scheduler] ([rdpcore-transport/src/scheduler.rs]): which frame is written
      next; [Writer] ([rdpcore-transport/src/lib.rs]): the task that owns the
      socket, interleaved with the handles that feed it.
    - [Diff] ([rdpcore-server/src/diff.rs]): the changed rectangles of a frame.
    - [Headers], [ClientInfo], [Gcc], [Capability], [Finalization] (the modules
      of the same names, [licensing.rs], [capability_sets.rs]): the PDUs of the
      connection sequence; [Connector] ([rdpcore-connector]): the [Acceptor], in
      a state and error monad of its own; [ConnectorSafety]: its invariant, by a
      weakest-precondition logic; [ConnectorFlow]: complete connections.
    - [Credentials], [Credssp] ([rdpcore-server/src/credentials.rs],
      [credssp.rs]): identities and the exchange of CredSSP; [Wire]: the monad of
      a connection in its handshake, with cancellation, and its program logic;
      [Handshake] ([server/handshake.rs], [mod.rs]): one connection up to its
      session; [AcceptLoop] ([server/mod.rs]): the accept loop and the tasks of
      all connections, interleaved.
    - [Transport] ([rdpcore-server/src/transport.rs]): where frames end;
      [SelectRead]: the same readers as futures that [tokio::select!] drops;
      [StaticChannel]: what the session asks of a channel, and its four
      implementations; [SlowPath] ([slow_path.rs], [input_handler.rs], arms of
      [session_loop.rs]): what a frame of the client does.
    - [Capture], [DrmCapture] ([kmsrdp/src/capture]): frames, their comparison
      and the composition of heads; [DisplayHub] ([display_hub.rs]): one capture
      loop and the sessions that read from it; [ClipboardHost] ([clipboard.rs]):
      the clipboard of the host, shared by the sessions; [AudioCapture]
      ([audio.rs]): the pace of captured sound.
    - [Display] ([display.rs], part of [encode.rs]): views of a frame buffer, the
      catch-up region, a client's screen as a [canvas].
    - [BitmapSync] ([bitmap_sync.rs], arms of [session_loop.rs], the display PDUs
      of [slow_path.rs]): which frame the client is known to show.  The session's
      record has two ghost fields: the client's screen once what was queued is
      delivered, and the notifications still to be read.
    - [Fastpath] ([fastpath.rs], [surface_commands.rs]): fast-path input, updates
      and bitmap rectangles; [BitmapEncode] ([encode.rs]): tiles, strips, batches
      and fragments; [BitmapPaint]: a client that reassembles, decodes and
      paints; [NsCodec] ([nscodec.rs]); [FramePump] ([frame_pump.rs]): the frames
      of one update, and a client that follows their markers; [Pointer]
      ([pointer.rs]).
    - [AuthLimit] ([rdpcore-server/src/auth_limit.rs]): the limiter of failed
      log-ins.
    - [Input] ([rdpcore-server/src/input.rs], [kmsrdp/src/bin/rdp_server.rs],
      [kmsrdp/src/uinput.rs]): keys and buttons of several sessions on one
      device.
    - [GfxPdu], [Gfx] ([rdpcore-rdpegfx/src/pdu.rs], [session.rs]): the graphics
      pipeline over the interface [H264Encoder]; [GfxSafety]: the client's side of
      its protocol; [Yuv] ([encoder.rs]): colour conversion; [H264Headers]
      ([h264_headers.rs]): parameter sets.
    - [RdpdrPdu], [Rdpdr] ([rdpcore-rdpdr/src/pdu.rs], [irp.rs], [lib.rs]): device
      redirection over the interface [DriveConsumer]; [RdpdrSafety]: every
      command is answered; [RdpdrWire]: a client that reads the requests;
      [DriveSelfTest] ([diagnostic.rs]): one consumer.
    - [Cliprdr] ([rdpcore-cliprdr]), [AudioInput] ([rdpcore-rdpeai]): clipboard
      and microphone.
    - [FusePath] ([kmsrdp/src/rdpdr_path.rs]), [FuseBridge], [FuseFs]
      ([rdpdr_fuse/bridge.rs], [fs.rs]): the mounted file system; [FuseThreads]
      ([rdpdr_fuse/mod.rs]): the bridge as a [DriveConsumer], any number of
      threads interleaved with the connection, and one thread alone against a
      client; [FuseSafety], [FuseFlow]: their theorems; [FuseMount]
      ([rdpdr_fuse/mount.rs]): the registry of mounts shared by connections.

    * What the theorems show

    - Display: the rectangles of [Diff] are exactly the changed tiles, disjoint and
      inside the frame, and repainting them gives the new frame; what [Rdp6] encodes
      decodes to the same pixels, and its decoder returns on any bytes, for sizes a
      buffer can have; a client of NSCodec recovers the pixels within a bound when
      the planes are compressed ([NsCodec]).  A client that decodes the frames of
      [BitmapEncode] paints the pixels of the update and nothing else
      ([BitmapPaint]), each update in a frame that begins and ends once under its
      number ([FramePump]); the catch-up region repaints what changed ([Display]);
      and whatever the order of captures, notifications and sends, an undisturbed
      client comes to show the desktop ([BitmapSync]).  The capturer composes the
      heads it read or fails ([DrmCapture]), and every session follows the desktop
      through lag and subscription ([DisplayHub]).
    - Connection: a session is accepted only after its credentials were, in the
      order of the sequence, and a client that follows the protocol is accepted;
      resizing reactivates it; no bytes make the [Acceptor] panic or grow
      ([ConnectorSafety], [ConnectorFlow]).  A connection is let in only with the
      configured identity ([Handshake]); permits and slots bound what is in flight,
      and guesses in parallel ([AcceptLoop]).  No frame of a client ends or panics
      the session ([SlowPath]); frames are read whole unless one is cut while
      another arm completes ([SelectRead]).
    - Transport: the [Scheduler] refines first-in first-out queues per channel,
      prefers latency frames, and serves every bulk channel within one round; the
      [Writer] delivers what it accepted and never sleeps on work.
    - Channels: a message of any length survives chunking, MCS and X.224 framing
      and reassembly ([Svc]), and the same for dynamic channels ([Dvc]); the
      multiplexer and the audio channel keep their invariants and never panic
      whatever a client sends.
    - Audio: the window of unacknowledged blocks is bounded, samples reach the
      client in order and unaltered, sending resumes by itself, no captured wave
      is stranded in the mailbox, and capture keeps pace with the clock
      ([AudioCapture]).
    - Security and input: an address with too many failures is locked out, no
      address is locked out without them, the table is bounded; the device holds
      exactly the keys and buttons that sessions hold, under a stated discipline
      of the clients, and two theorems show how a client outside it breaks that.
    - Framing: round trips of the PDUs both ways.
    - Graphics: the client never gets a message for a surface it does not have,
      frames do not nest and the window of unacknowledged frames is kept, with the
      locks free between the parts of a frame, and no call panics ([GfxSafety]);
      both sample layouts hold the same picture, in range ([Yuv]); a decoder reads
      the picture's size back from the parameter sets ([H264Headers]).
    - Drive: whatever the client sends, each command issued on [Rdpdr] is answered
      at most once and the tables are bounded ([RdpdrSafety]); requests arrive as
      asked ([RdpdrWire]).  Whatever the threads of the mount and the connection do
      in any order, the inode tables stay consistent, no request names a path
      outside the drive and no two threads wait for one answer ([FuseSafety], by a
      rely-guarantee logic: [good] says what a thread keeps while others step).  One
      request at a time, against a client that answers in time, late or never, each
      request returns (a listing ends when the client's does), and a file the client
      opened is closed, known to a handle, or one whose Create was answered too
      late; a rename moves the whole tree of inodes ([FuseFlow], by triples over the
      ledger of open files: [quiet] and [serves]).  A mount is served by a
      connection that shares it and lasts as long as one does ([FuseMount]).
    - Clipboard and microphone: text reaches the backend as it was copied
      ([Cliprdr]), and the host within the configured directions
      ([ClipboardHost]); sound data reach it in order, in the announced format
      ([AudioInput]).
    - Theorems about defects show, in general or on a concrete run, what the code
      does where a comment or the protocol asks for something else.

    * Bounds

    A buffer has less than 2^63 bytes.  The loops of [encode.rs] count in [u16]:
    the painting theorems ask for updates of at most 16383 by 65472 pixels, beyond
    which a strip no longer fits its length field or a tile counter overflows, and
    for a [MaxRequestSize] below 2^28 (the session clamps it to 8 MiB).  A
    directory is enumerated with as much fuel as the client gives answers; the
    work queue of [Rdpdr] takes fuel, and every call returns with enough of it
    for a consumer whose commands after a failure are bounded ([RdpdrSafety]).

    * Not modelled, and why

    In [session_loop.rs]: the wave task, the arms that forward clipboard events and
    drive wake-ups, and the graphics part of a resize; they move values between
    components modelled here.  Outside: the DRM, EGL and NvFBC calls and detiling,
    the H.264 encoders, connecting to PulseAudio and playing the microphone, the
    X11 calls, uinput, the kernel's side of FUSE and TLS, which are calls into the
    system or other libraries; the parsing of configuration and environment, D-Bus,
    systemd, metrics and logging, which are glue. *)
From stdpp Require Export base tactics option list numbers gmap strings.
From Stdlib Require Export ZArith Lia.

(** ** Outcomes of Rust code *)

(** A Rust computation that returns [Result<A, E>] either returns [Ok], returns
    [Err], or panics (an index out of range, an [expect] on [None]).  Panics are
    a third outcome so that "never panics" is a statement of the model. *)
Inductive res (E A : Type) : Type :=
  | Ok (a : A)
  | Err (e : E)
  | Panic.
Arguments Ok {E A} a.
Arguments Err {E A} e.
Arguments Panic {E A}.

Global Instance res_ret E : MRet (res E) := λ A a, Ok a.
Global Instance res_bind E : MBind (res E) := λ A B k m,
  match m with Ok a => k a | Err e => Err e | Panic => Panic end.

Global Instance res_fmap E : FMap (res E) := λ A B f m,
  match m with Ok a => Ok (f a) | Err e => Err e | Panic => Panic end.

Definition res_map_err {E E' A} (f : E → E') (m : res E A) : res E' A :=
  match m with Ok a => Ok a | Err e => Err (f e) | Panic => Panic end.

(** [no_panic m]: the computation returns. *)
Definition no_panic {E A} (m : res E A) : Prop :=
  match m with Panic => False | _ => True end.

Lemma res_bind_Ok {E A B} (m : res E A) (k : A → res E B) b :
  m ≫= k = Ok b ↔ ∃ a, m = Ok a ∧ k a = Ok b.
Proof.
  destruct m as [a| |]; cbn; split.
  - by exists a.
  - by intros (? & [= ->] & ?).
  - done.
  - by intros (? & [=] & _).
  - done.
  - by intros (? & [=] & _).
Qed.

Lemma no_panic_bind {E A B} (m : res E A) (k : A → res E B) :
  no_panic m → (∀ a, m = Ok a → no_panic (k a)) → no_panic (m ≫= k).
Proof. destruct m; cbn; eauto. Qed.

(** ** Machine integers *)

(** Unsigned integers are [Z] with the width written out: [x as u8] is [as_u8 x]
    and a field of type [u8] is a [Z] in the range [u8_ok]. *)
Declare Scope rust_scope.
Delimit Scope rust_scope with rust.
Open Scope Z_scope.

Definition as_u8 (z : Z) : Z := z mod 2 ^ 8.
Definition as_u16 (z : Z) : Z := z mod 2 ^ 16.
Definition as_u32 (z : Z) : Z := z mod 2 ^ 32.
Definition as_u64 (z : Z) : Z := z mod 2 ^ 64.
(** Two's complement reinterpretation, [x as i8], [x as i16], [x as i32]. *)
Definition as_i8 (z : Z) : Z := (z + 2 ^ 7) mod 2 ^ 8 - 2 ^ 7.
Definition as_i16 (z : Z) : Z := (z + 2 ^ 15) mod 2 ^ 16 - 2 ^ 15.
Definition as_i32 (z : Z) : Z := (z + 2 ^ 31) mod 2 ^ 32 - 2 ^ 31.

Abbreviation u8_ok z := (0 ≤ z < 2 ^ 8).
Abbreviation u16_ok z := (0 ≤ z < 2 ^ 16).
Abbreviation u32_ok z := (0 ≤ z < 2 ^ 32).
Abbreviation u64_ok z := (0 ≤ z < 2 ^ 64).

(** [usize] arithmetic on a 64-bit target. *)
Definition USIZE_MAX : Z := 2 ^ 64 - 1.
Definition saturating_add_usize (a b : Z) : Z := Z.min (a + b) USIZE_MAX.
Definition saturating_sub (a b : Z) : Z := Z.max 0 (a - b).
Definition checked_mul_usize (a b : Z) : option Z :=
  if decide (a * b ≤ USIZE_MAX) then Some (a * b) else None.
(** [a.div_ceil(b)]. *)
Definition div_ceil (a b : Z) : Z := (a + b - 1) / b.

(** [flag] is set: [x & flag != 0]. *)
Definition has_bits (x flag : Z) : bool := negb (Z.land x flag =? 0).

(** Unfold the casts and finish with [lia] (divisions included). *)
Ltac cast_lia :=
  unfold as_u8, as_u16, as_u32, as_u64, as_i8, as_i16, as_i32,
    saturating_add_usize, saturating_sub, USIZE_MAX in *;
  Z.to_euclidean_division_equations; lia.

Lemma as_u8_id z : u8_ok z → as_u8 z = z.
Proof. intros; apply Z.mod_small; lia. Qed.
Lemma as_u16_id z : u16_ok z → as_u16 z = z.
Proof. intros; apply Z.mod_small; lia. Qed.
Lemma as_u32_id z : u32_ok z → as_u32 z = z.
Proof. intros; apply Z.mod_small; lia. Qed.
Lemma as_u8_ok z : u8_ok (as_u8 z).
Proof. apply Z.mod_pos_bound; lia. Qed.
Lemma as_u16_ok z : u16_ok (as_u16 z).
Proof. apply Z.mod_pos_bound; lia. Qed.
Lemma as_u32_ok z : u32_ok (as_u32 z).
Proof. apply Z.mod_pos_bound; lia. Qed.

(** ** Bytes *)

(** A [Vec<u8>] or [&[u8]] is a [list Z]; its elements are bytes. *)
Abbreviation bytes := (list Z).
Definition byte_ok (b : Z) : Prop := u8_ok b.
Definition bytes_ok (l : bytes) : Prop := Forall byte_ok l.

(** [l.len()]. *)
Definition len {A} (l : list A) : Z := Z.of_nat (length l).
(** [&l[..n]] and [&l[n..]] with a [usize] index. *)
Definition ztake {A} (n : Z) (l : list A) : list A := take (Z.to_nat n) l.
Definition zdrop {A} (n : Z) (l : list A) : list A := drop (Z.to_nat n) l.
(** [dst[d..d + chunk.len()].copy_from_slice(chunk)] *)
Definition copy_into (dst : bytes) (d : Z) (chunk : bytes) : bytes := list_inserts (Z.to_nat d) chunk dst.
(** Byte [c] of the pixel at [(px, py)] of a buffer with four bytes per pixel. *)
Definition byte_at (stride : Z) (data : bytes) (px py c : Z) : option Z := data !! Z.to_nat (py * stride + (px * 4 + c)).

Lemma len_nonneg {A} (l : list A) : 0 ≤ len l.
Proof. unfold len; lia. Qed.
Lemma len_nil {A} : len (@nil A) = 0.
Proof. done. Qed.
Lemma len_cons {A} (x : A) l : len (x :: l) = 1 + len l.
Proof. unfold len; cbn; lia. Qed.
Lemma len_app {A} (l k : list A) : len (l ++ k) = len l + len k.
Proof. unfold len; rewrite length_app; lia. Qed.
Lemma len_replicate {A} n (x : A) : len (replicate n x) = Z.of_nat n.
Proof. unfold len; by rewrite length_replicate. Qed.
Lemma len_fmap {A B} (f : A → B) l : len (f <$> l) = len l.
Proof. unfold len; by rewrite length_fmap. Qed.
Lemma len_zdrop {A} n (l : list A) : 0 ≤ n ≤ len l → len (zdrop n l) = len l - n.
Proof. unfold len, zdrop; rewrite length_drop; lia. Qed.
Lemma len_ztake {A} n (l : list A) : 0 ≤ n ≤ len l → len (ztake n l) = n.
Proof. unfold len, ztake; rewrite length_take; lia. Qed.
Lemma len_zero_nil {A} (l : list A) : len l = 0 → l = [].
Proof. unfold len; destruct l; [done|cbn; lia]. Qed.
Lemma ztake_zdrop {A} n (l : list A) : ztake n l ++ zdrop n l = l.
Proof. apply take_drop. Qed.
Lemma zdrop_zdrop {A} n m (l : list A) :
  0 ≤ n → 0 ≤ m → zdrop m (zdrop n l) = zdrop (n + m) l.
Proof. intros; unfold zdrop. rewrite drop_drop; f_equal; lia. Qed.
Lemma zdrop_app_len {A} (l k : list A) n : n = len l → zdrop n (l ++ k) = k.
Proof. intros ->; unfold zdrop, len. by rewrite Nat2Z.id, drop_app_length. Qed.
Lemma ztake_app_len {A} (l k : list A) n : n = len l → ztake n (l ++ k) = l.
Proof. intros ->; unfold ztake, len. by rewrite Nat2Z.id, take_app_length. Qed.
Lemma ztake_all {A} n (l : list A) : len l ≤ n → ztake n l = l.
Proof. unfold len, ztake; intros. apply take_ge; lia. Qed.
Lemma zdrop_all {A} n (l : list A) : len l ≤ n → zdrop n l = [].
Proof. unfold len, zdrop; intros. apply drop_ge; lia. Qed.
Lemma zdrop_0 {A} (l : list A) : zdrop 0 l = l.
Proof. done. Qed.
Lemma copy_into_lookup dst d chunk k : 0 ≤ d → d + len chunk ≤ len dst → 0 ≤ k →
  copy_into dst d chunk !! Z.to_nat k
  = if decide (d ≤ k < d + len chunk) then chunk !! Z.to_nat (k - d) else dst !! Z.to_nat k.
Proof.
  unfold copy_into, len. intros Hd Hl Hk. case_decide as Hr.
  - rewrite list_lookup_inserts by lia. f_equal. lia.
  - destruct (decide (k < d)); [rewrite list_lookup_inserts_lt by lia; done|].
    by rewrite list_lookup_inserts_ge by lia.
Qed.

Lemma len_copy_into dst d chunk : len (copy_into dst d chunk) = len dst.
Proof. unfold copy_into, len. by rewrite length_inserts. Qed.

Create Rewrite HintDb len.
#[export] Hint Rewrite @len_nil @len_cons @len_app @len_replicate @len_fmap : len.

(** Push [len] to the leaves and finish with [lia]. *)
Ltac len_lia :=
  autorewrite with len in *;
  repeat match goal with
         | |- context [len ?l] => lazymatch goal with
             | H : 0 ≤ len l |- _ => fail | _ => pose proof (len_nonneg l) end
         | _ : context [len ?l] |- _ => lazymatch goal with
             | H : 0 ≤ len l |- _ => fail | _ => pose proof (len_nonneg l) end
         end; lia.

Lemma bytes_ok_app l k : bytes_ok (l ++ k) ↔ bytes_ok l ∧ bytes_ok k.
Proof. apply Forall_app. Qed.
Lemma bytes_ok_cons b l : bytes_ok (b :: l) ↔ u8_ok b ∧ bytes_ok l.
Proof. unfold bytes_ok. by rewrite Forall_cons. Qed.
Lemma bytes_ok_nil : bytes_ok [].
Proof. constructor. Qed.

(** [z.to_le_bytes()] for an [n]-byte integer, and its inverse
    [from_le_bytes]; the big-endian forms are the reversals. *)
Fixpoint to_le (n : nat) (z : Z) : bytes :=
  match n with
  | O => []
  | S n => z mod 256 :: to_le n (z / 256)
  end.
Fixpoint from_le (l : bytes) : Z :=
  match l with
  | [] => 0
  | b :: l => b + 256 * from_le l
  end.
Definition to_be (n : nat) (z : Z) : bytes := reverse (to_le n z).
Definition from_be (l : bytes) : Z := from_le (reverse l).

Lemma length_to_le n z : length (to_le n z) = n.
Proof. revert z; induction n; intros; cbn; auto. Qed.
Lemma length_to_be n z : length (to_be n z) = n.
Proof. unfold to_be; by rewrite length_reverse, length_to_le. Qed.
Lemma len_to_le n z : len (to_le n z) = Z.of_nat n.
Proof. unfold len; by rewrite length_to_le. Qed.
Lemma len_to_be n z : len (to_be n z) = Z.of_nat n.
Proof. unfold len; by rewrite length_to_be. Qed.
#[export] Hint Rewrite len_to_le len_to_be : len.

Lemma from_to_le n z : from_le (to_le n z) = z mod 2 ^ (8 * Z.of_nat n).
Proof.
  revert z; induction n as [|n IH]; intros z.
  - cbn. by rewrite Z.mod_1_r.
  - cbn [to_le from_le]. rewrite IH.
    replace (8 * Z.of_nat (S n)) with (8 + 8 * Z.of_nat n) by lia.
    rewrite Z.pow_add_r by lia. change (2 ^ 8) with 256.
    rewrite Z.rem_mul_r by lia. lia.
Qed.
Lemma from_to_be n z : from_be (to_be n z) = z mod 2 ^ (8 * Z.of_nat n).
Proof. unfold from_be, to_be. by rewrite reverse_involutive, from_to_le. Qed.

Lemma to_le_bytes_ok n z : bytes_ok (to_le n z).
Proof.
  revert z; induction n; intros; constructor; [|apply IHn].
  apply Z.mod_pos_bound; lia.
Qed.
Lemma to_be_bytes_ok n z : bytes_ok (to_be n z).
Proof. unfold bytes_ok, to_be. apply Forall_reverse, to_le_bytes_ok. Qed.

Lemma from_le_bound l : bytes_ok l → 0 ≤ from_le l < 2 ^ (8 * len l).
Proof.
  induction 1 as [|b l Hb _ IH]; [by vm_compute|].
  cbn [from_le]. rewrite len_cons. unfold byte_ok in Hb.
  rewrite Z.mul_add_distr_l, Z.pow_add_r by (pose proof (len_nonneg l); lia).
  change (2 ^ (8 * 1)) with 256. change (2 ^ 8) with 256 in Hb. nia.
Qed.

Lemma to_from_le l : bytes_ok l → to_le (length l) (from_le l) = l.
Proof.
  induction 1 as [|b l Hb _ IH]; [done|].
  cbn [length to_le from_le]. unfold byte_ok in Hb. change (2 ^ 8) with 256 in Hb.
  rewrite Z.mul_comm, Z.mod_add, Z.mod_small, Z.div_add, Z.div_small by lia.
  by rewrite Z.add_0_l, IH.
Qed.

(** ** [slice::chunks] *)

(** [l.chunks(n)]: consecutive slices of [n] elements, the last one shorter.
    The recursion is on a bound of the number of chunks; [length l] is enough
    because every chunk is nonempty ([n] is a positive constant in the code). *)
Fixpoint chunks_fuel {A} (fuel : nat) (n : Z) (l : list A) : list (list A) :=
  match fuel, l with
  | S fuel, _ :: _ => ztake n l :: chunks_fuel fuel n (zdrop n l)
  | _, _ => []
  end.
Definition chunks {A} (n : Z) (l : list A) : list (list A) :=
  chunks_fuel (length l) n l.

Section chunks.
Context {A : Type} (n : Z) (Hn : 0 < n).
Implicit Types l : list A.

Lemma length_zdrop_lt l : l ≠ [] → (length (zdrop n l) < length l)%nat.
Proof. destruct l; [done|]. intros _. unfold zdrop. rewrite length_drop; cbn; lia. Qed.

Lemma chunks_fuel_enough f g l :
  (length l ≤ f)%nat → (length l ≤ g)%nat → chunks_fuel f n l = chunks_fuel g n l.
Proof.
  revert g l; induction f as [|f IH]; intros g l Hf Hg.
  - destruct l; [by destruct g|cbn [length] in Hf; lia].
  - destruct l as [|x l]; [by destruct g|]. destruct g as [|g]; [cbn [length] in Hg; lia|].
    cbn [chunks_fuel]. f_equal. apply IH;
      pose proof (length_zdrop_lt (x :: l) ltac:(done)); cbn [length] in *; lia.
Qed.

Lemma chunks_nil : chunks n ([] : list A) = [].
Proof. done. Qed.

Lemma chunks_step l : l ≠ [] → chunks n l = ztake n l :: chunks n (zdrop n l).
Proof.
  intros Hl. unfold chunks. destruct l as [|x l]; [done|]. cbn [length chunks_fuel].
  f_equal. apply chunks_fuel_enough; [|lia].
  pose proof (length_zdrop_lt (x :: l) ltac:(done)). cbn [length] in *; lia.
Qed.

(** Induction along the chunks of a list. *)
Lemma chunks_ind (P : list A → Prop) :
  P [] → (∀ l, l ≠ [] → P (zdrop n l) → P l) → ∀ l, P l.
Proof.
  intros H0 HS l. remember (length l) as k eqn:Hk. revert l Hk.
  induction k as [k IH] using lt_wf_ind; intros l ->.
  destruct (decide (l = [])) as [->|Hl]; [done|].
  apply HS; [done|]. by apply (IH (length (zdrop n l))); [apply length_zdrop_lt|].
Qed.

Lemma concat_chunks l : concat (chunks n l) = l.
Proof.
  induction l as [|l Hl IH] using chunks_ind; [done|].
  rewrite chunks_step by done. cbn. by rewrite IH, ztake_zdrop.
Qed.

Lemma chunks_small l : l ≠ [] → len l ≤ n → chunks n l = [l].
Proof.
  intros Hl Hlen. rewrite chunks_step, zdrop_all, ztake_all, chunks_nil by done. done.
Qed.

Lemma chunks_bound l : Forall (λ c, 0 < len c ≤ n) (chunks n l).
Proof.
  induction l as [|l Hl IH] using chunks_ind; [constructor|].
  rewrite chunks_step by done. constructor; [|done].
  destruct l as [|x l]; [done|]. unfold len, ztake. rewrite length_take. cbn [length]. lia.
Qed.

Lemma len_chunks l : len (chunks n l) = div_ceil (len l) n.
Proof.
  induction l as [|l Hl IH] using chunks_ind.
  - unfold div_ceil. rewrite (@len_nil A), Z.div_small by lia. done.
  - rewrite chunks_step, len_cons, IH by done. unfold div_ceil.
    destruct (decide (len l ≤ n)) as [Hle|Hgt].
    + rewrite (zdrop_all n l) by done. rewrite (@len_nil A), Z.div_small by lia.
      assert (0 < len l) by (destruct l; [done|]; rewrite len_cons; len_lia).
      change (1 + 0) with 1. apply Z.div_unique with (len l - 1); lia.
    + rewrite len_zdrop by lia.
      replace (len l + n - 1) with (len l - n + n - 1 + 1 * n) by lia.
      rewrite Z.div_add by lia. lia.
Qed.
End chunks.

(** [l.iter().all(p)] over a list, as a boolean. *)
Definition all_b {A} (p : A → bool) (l : list A) : bool := forallb p l.

(** [iter().position(p)]. *)
Fixpoint position {A} (p : A → bool) (l : list A) : option nat :=
  match l with
  | [] => None
  | x :: l => if p x then Some O else S <$> position p l
  end.

Lemma position_Some {A} (p : A → bool) l i :
  position p l = Some i ↔
  ∃ x, l !! i = Some x ∧ p x = true ∧ ∀ j y, (j < i)%nat → l !! j = Some y → p y = false.
Proof.
  revert i; induction l as [|x l IH]; intros i; cbn.
  - split; [done|]. by intros (? & ? & _).
  - destruct (p x) eqn:Hx.
    + split; [intros [= <-]|].
      * exists x. split_and!; [done|done|lia].
      * intros (y & Hy & Hpy & Hmin). destruct i as [|i]; [done|].
        specialize (Hmin O x ltac:(lia) eq_refl). congruence.
    + destruct i as [|i].
      * split; [by destruct (position p l)|]. intros (y & [= ->] & ? & _). congruence.
      * rewrite fmap_Some. split.
        -- intros (k & Hk & [= ->]). apply IH in Hk as (y & ? & ? & Hmin).
           exists y. split_and!; [done..|]. intros [|j] z ? Hz; cbn in Hz; [congruence|].
           eapply Hmin; [|done]; lia.
        -- intros (y & Hy & Hpy & Hmin). exists i. split; [|done]. apply IH.
           exists y. split_and!; [done..|]. intros j z ? Hz. apply (Hmin (S j) z); [lia|done].
Qed.

Lemma position_None {A} (p : A → bool) l :
  position p l = None ↔ Forall (λ x, p x = false) l.
Proof.
  induction l as [|x l IH]; cbn; [by split; [constructor|]|].
  rewrite Forall_cons. destruct (p x); [naive_solver|].
  rewrite <-IH. destruct (position p l); naive_solver.
Qed.

(** ** Bits *)

(** A statement about all bytes, decided by running it on the 256 values. *)
Definition all_u8 : list Z := Z.of_nat <$> seq 0 256.
Lemma u8_forall (P : Z → bool) : forallb P all_u8 = true → ∀ z, u8_ok z → P z = true.
Proof.
  intros H z Hz. rewrite forallb_forall in H. apply H.
  unfold all_u8. apply list_elem_of_In, list_elem_of_fmap.
  exists (Z.to_nat z). split; [lia|]. apply elem_of_seq. lia.
Qed.

Lemma testbit_small z k n : 0 ≤ z < 2 ^ k → k ≤ n → Z.testbit z n = false.
Proof.
  intros Hz Hn. destruct (decide (0 ≤ k)).
  - rewrite <-(Z.mod_small z (2 ^ k)) by done. apply Z.mod_pow2_bits_high. lia.
  - rewrite Z.pow_neg_r in Hz by lia. lia.
Qed.

Lemma land_pow2_small z k : 0 ≤ k → 0 ≤ z < 2 ^ k → Z.land z (2 ^ k) = 0.
Proof.
  intros Hk Hz. apply Z.bits_inj'. intros n Hn.
  rewrite Z.land_spec, Z.pow2_bits_eqb, Z.bits_0 by done.
  destruct (Z.eqb_spec k n) as [->|]; [|by rewrite andb_false_r].
  by rewrite (testbit_small z n n).
Qed.

(** A flag above the value is added. *)
Lemma lor_pow2_add z k : 0 ≤ k → 0 ≤ z < 2 ^ k → Z.lor z (2 ^ k) = z + 2 ^ k.
Proof. intros Hk Hz. rewrite <-Z.add_lor_land, land_pow2_small by done. lia. Qed.

(** Two fields side by side. *)
Lemma lor_shiftl_add a b k : 0 ≤ k → 0 ≤ b < 2 ^ k → Z.lor (Z.shiftl a k) b = a * 2 ^ k + b.
Proof.
  intros Hk Hb. rewrite <-Z.shiftl_mul_pow2, <-Z.add_lor_land by done.
  enough (Z.land (Z.shiftl a k) b = 0) as -> by lia.
  apply Z.bits_inj'. intros n Hn. rewrite Z.land_spec, Z.shiftl_spec, Z.bits_0 by done.
  destruct (decide (n < k)); [by rewrite Z.testbit_neg_r by lia|].
  rewrite (testbit_small b k n) by lia. apply andb_false_r.
Qed.

Lemma land_ones_mod z k : 0 ≤ k → Z.land z (2 ^ k - 1) = z mod 2 ^ k.
Proof. intros. rewrite <-Z.land_ones by done. by rewrite Z.ones_equiv. Qed.
