(* ===== verification/Cursor.v ===== *)
(** The lowest layer of [rdpcore-pdu]: [cursor.rs] (the bounds-checked
    [ReadCursor] and the append-only [WriteBuf]) and the [DecodeError] of
    [lib.rs], with the two program logics used for every codec: [reads] (what a
    decoder returns on bytes it accepts) and [safe] (on any bytes at all it
    returns, keeps its position inside the buffer and never moves backwards). *)
From S2P Require Import Prelude.

(** ** Errors ([lib.rs]) *)

Record NotEnoughBytes := { nb_needed : Z; nb_remaining : Z }.

Inductive DecodeError :=
  | NotEnough (e : NotEnoughBytes)
  | InvalidValue (field reason : string).

(** ** The cursor *)

Record ReadCursor := { buf : bytes; pos : Z }.

Definition cursor_new (input : bytes) : ReadCursor := {| buf := input; pos := 0 |}.
Definition set_pos (c : ReadCursor) (p : Z) : ReadCursor := {| buf := buf c; pos := p |}.

(** A decoder threads the cursor; an [Err] ends the decoding, so no cursor
    comes with it.  [NotEnoughBytes] errors are injected into [DecodeError] at
    once, as [From<NotEnoughBytes>] does at every [?] of the callers. *)
Definition reader (A : Type) : Type := ReadCursor → res DecodeError (A * ReadCursor).

Global Instance reader_ret : MRet reader := λ A a c, Ok (a, c).
Global Instance reader_bind : MBind reader := λ A B k m c,
  match m c with Ok (a, c') => k a c' | Err e => Err e | Panic => Panic end.

(** [(0..n).map(|_| m(cursor)).collect::<Result<Vec<_>, _>>()]. *)
Fixpoint read_many {A} (n : nat) (m : reader A) : reader (list A) :=
  match n with
  | O => mret []
  | S n => a ← m; l ← read_many n m; mret (a :: l)
  end.

(** [m.ok()] on the cursor: an error of a primitive read leaves the cursor where
    it was. *)
Definition try_read {A} (m : reader A) : reader (option A) := λ c,
  match m c with Ok (a, c') => Ok (Some a, c') | Err _ => Ok (None, c) | Panic => Panic end.

(** Direct access to the cursor. *)
Definition at_cursor {A} (f : ReadCursor → res DecodeError (A * ReadCursor)) : reader A := f.

Definition fail {A} (e : DecodeError) : reader A := λ _, Err e.
Definition invalid {A} (field reason : string) : reader A := fail (InvalidValue field reason).
(** Lift a pure fallible computation. *)
Definition lift_res {A} (m : res DecodeError A) : reader A :=
  λ c, match m with Ok a => Ok (a, c) | Err e => Err e | Panic => Panic end.
(** Run a decoder from the start of [input]; the final position is dropped. *)
Definition run {A} (m : reader A) (input : bytes) : res DecodeError A :=
  match m (cursor_new input) with Ok (a, _) => Ok a | Err e => Err e | Panic => Panic end.

Definition remaining (c : ReadCursor) : Z := len (buf c) - pos c.
Definition get_remaining : reader Z := λ c, Ok (remaining c, c).
Definition get_pos : reader Z := λ c, Ok (pos c, c).

(** [buf[i]] and [&buf[a..b]] panic out of range. *)
Definition index (l : bytes) (i : Z) : res DecodeError Z :=
  match l !! Z.to_nat i with Some b => Ok b | None => Panic end.
Definition slice (l : bytes) (a b : Z) : res DecodeError bytes :=
  if decide (a ≤ b ≤ len l) then Ok (ztake (b - a) (zdrop a l)) else Panic.

Definition ensure (needed : Z) : reader unit := λ c,
  if decide (remaining c < needed)
  then Err (NotEnough {| nb_needed := needed; nb_remaining := remaining c |})
  else Ok (tt, c).

Definition ensure_count (count min_item_bytes : Z) (field : string) : reader unit :=
  match checked_mul_usize count min_item_bytes with
  | None => invalid field "count overflow"
  | Some needed => ensure needed
  end.

Definition advance (n : Z) : reader unit := λ c,
  Ok (tt, set_pos c (Z.min (saturating_add_usize (pos c) n) (len (buf c)))).

(** The body the fixed-width reads share: [n] bytes at the position, by index. *)
Fixpoint index_n (n : nat) (l : bytes) (p : Z) : res DecodeError bytes :=
  match n with
  | O => Ok []
  | S n => b ← index l p; r ← index_n n l (p + 1); Ok (b :: r)
  end.
Definition take_bytes (n : nat) : reader bytes :=
  ensure (Z.of_nat n) ;;
  at_cursor (λ c, match index_n n (buf c) (pos c) with
        | Ok l => Ok (l, set_pos c (pos c + Z.of_nat n))
        | Err e => Err e
        | Panic => Panic
        end).

Definition read_u8 : reader Z :=
  ensure 1 ;;
  at_cursor (λ c, match index (buf c) (pos c) with
        | Ok v => Ok (v, set_pos c (pos c + 1))
        | Err e => Err e
        | Panic => Panic
        end).
Definition read_u16_be : reader Z := l ← take_bytes 2; mret (from_be l).
Definition read_u16_le : reader Z := l ← take_bytes 2; mret (from_le l).
Definition read_u32_le : reader Z := l ← take_bytes 4; mret (from_le l).
Definition read_i32_le : reader Z := v ← read_u32_le; mret (as_i32 v).
Definition read_u64_le : reader Z := l ← take_bytes 8; mret (from_le l).

Definition peek_slice (n : Z) : reader bytes :=
  ensure n ;;
  at_cursor (λ c, match slice (buf c) (pos c) (pos c + n) with
        | Ok l => Ok (l, c) | Err e => Err e | Panic => Panic end).
Definition peek_u16_be : reader Z :=
  ensure 2 ;;
  at_cursor (λ c, match index_n 2 (buf c) (pos c) with
        | Ok l => Ok (from_be l, c) | Err e => Err e | Panic => Panic end).
Definition slice_from_to (start end_ : Z) : reader bytes := λ c,
  Ok (match slice (buf c) start end_ with Ok l => l | _ => [] end, c).
Definition read_slice (n : Z) : reader bytes :=
  ensure n ;;
  at_cursor (λ c, match slice (buf c) (pos c) (pos c + n) with
        | Ok l => Ok (l, set_pos c (pos c + n)) | Err e => Err e | Panic => Panic end).
Definition read_rest : reader bytes := λ c,
  match slice (buf c) (pos c) (len (buf c)) with
  | Ok l => Ok (l, set_pos c (len (buf c))) | Err e => Err e | Panic => Panic end.

(** ** Writing *)

(** Every [write_*] appends to the caller's [Vec]; it denotes the bytes it
    appends, and a sequence of writes is their concatenation. *)
Definition write_u8 (v : Z) : bytes := [v].
Definition write_u16_be (v : Z) : bytes := to_be 2 v.
Definition write_u16_le (v : Z) : bytes := to_le 2 v.
Definition write_u32_le (v : Z) : bytes := to_le 4 v.
Definition write_i32_le (v : Z) : bytes := to_le 4 v.
Definition write_u64_le (v : Z) : bytes := to_le 8 v.
Definition write_slice (s : bytes) : bytes := s.

Lemma len_write_u8 v : len (write_u8 v) = 1.
Proof. done. Qed.
Lemma len_write_u16_be v : len (write_u16_be v) = 2.
Proof. apply len_to_be. Qed.
Lemma len_write_u16_le v : len (write_u16_le v) = 2.
Proof. apply len_to_le. Qed.
Lemma len_write_u32_le v : len (write_u32_le v) = 4.
Proof. apply len_to_le. Qed.
Lemma len_write_i32_le v : len (write_i32_le v) = 4.
Proof. apply len_to_le. Qed.
Lemma len_write_u64_le v : len (write_u64_le v) = 8.
Proof. apply len_to_le. Qed.
Lemma len_write_slice s : len (write_slice s) = len s.
Proof. done. Qed.
#[export] Hint Rewrite len_write_u8 len_write_u16_be len_write_u16_le len_write_u32_le
  len_write_i32_le len_write_u64_le len_write_slice : len.

(** ** The two program logics *)

Definition rest (c : ReadCursor) : bytes := zdrop (pos c) (buf c).
(** The position is inside the buffer, and a Rust slice is shorter than
    [isize::MAX] bytes. *)
Definition cursor_ok (c : ReadCursor) : Prop :=
  0 ≤ pos c ≤ len (buf c) ∧ len (buf c) < 2 ^ 63.

(** On a cursor whose unread bytes are [l], [m] returns [a] and leaves [l']. *)
Definition reads {A} (m : reader A) (l : bytes) (a : A) (l' : bytes) : Prop :=
  ∀ c, cursor_ok c → rest c = l →
  ∃ c', m c = Ok (a, c') ∧ cursor_ok c' ∧ rest c' = l' ∧ buf c' = buf c.

(** On any cursor over bytes [m] returns; a value it returns satisfies [Q], and
    the position stays in the buffer and does not move back. *)
Definition safe {A} (m : reader A) (Q : A → Prop) : Prop :=
  ∀ c, cursor_ok c → bytes_ok (buf c) →
  match m c with
  | Ok (a, c') => cursor_ok c' ∧ buf c' = buf c ∧ pos c ≤ pos c' ∧ Q a
  | Err _ => True
  | Panic => False
  end.

Create HintDb reads discriminated.
Create HintDb safe discriminated.

Section logic.
Context {A B : Type}.

Lemma cursor_new_ok input : len input < 2 ^ 63 → cursor_ok (cursor_new input).
Proof. intros; split; cbn; [pose proof (len_nonneg input); lia|done]. Qed.

Lemma reads_run (m : reader A) input a l' :
  len input < 2 ^ 63 → reads m input a l' → run m input = Ok a.
Proof.
  intros Hlen H. unfold run.
  destruct (H (cursor_new input)) as (c' & -> & _); [by apply cursor_new_ok|done|done].
Qed.

Lemma safe_run (m : reader A) (Q : A → Prop) input :
  safe m Q → bytes_ok input → len input < 2 ^ 63 →
  match run m input with Ok a => Q a | Err _ => True | Panic => False end.
Proof.
  intros H Hb Hlen. unfold run.
  specialize (H (cursor_new input) (cursor_new_ok _ Hlen) Hb).
  destruct (m _) as [[a c']| |]; naive_solver.
Qed.

Lemma safe_run_no_panic (m : reader A) (Q : A → Prop) input :
  safe m Q → bytes_ok input → len input < 2 ^ 63 → no_panic (run m input).
Proof.
  intros H Hb Hl. pose proof (safe_run m Q input H Hb Hl). by destruct (run m input).
Qed.

Lemma reads_ret (a : A) l : reads (mret a) l a l.
Proof. intros c Hc <-. by exists c. Qed.

Lemma reads_bind (m : reader A) (k : A → reader B) l a l1 b l2 :
  reads m l a l1 → reads (k a) l1 b l2 → reads (m ≫= k) l b l2.
Proof.
  intros Hm Hk c Hc Hl. destruct (Hm c Hc Hl) as (c1 & E1 & Hc1 & Hr1 & Hb1).
  destruct (Hk c1 Hc1 Hr1) as (c2 & E2 & Hc2 & Hr2 & Hb2).
  exists c2. unfold mbind, reader_bind. rewrite E1, E2. split_and!; congruence || done.
Qed.

Lemma safe_ret (a : A) (Q : A → Prop) : Q a → safe (mret a) Q.
Proof. intros Ha c Hc Hb. cbn. split_and!; done || lia. Qed.

Lemma safe_fail e (Q : A → Prop) : safe (fail e) Q.
Proof. by intros c Hc Hb. Qed.

Lemma safe_bind (m : reader A) (k : A → reader B) P Q :
  safe m P → (∀ a, P a → safe (k a) Q) → safe (m ≫= k) Q.
Proof.
  intros Hm Hk c Hc Hb. unfold mbind, reader_bind.
  specialize (Hm c Hc Hb). destruct (m c) as [[a c1]| |]; [|done..].
  destruct Hm as (Hc1 & Hb1 & Hp1 & Ha).
  specialize (Hk a Ha c1 Hc1). rewrite Hb1 in Hk. specialize (Hk Hb).
  destruct (k a c1) as [[b c2]| |]; [|done..].
  destruct Hk as (Hc2 & Hb2 & Hp2 & Hq). split_and!; done || lia || congruence.
Qed.

Lemma safe_weaken (m : reader A) (P Q : A → Prop) :
  safe m P → (∀ a, P a → Q a) → safe m Q.
Proof.
  intros H HPQ c Hc Hb. specialize (H c Hc Hb).
  destruct (m c) as [[a c']| |]; naive_solver.
Qed.

Lemma safe_lift_res (m : res DecodeError A) (Q : A → Prop) :
  match m with Ok a => Q a | Err _ => True | Panic => False end → safe (lift_res m) Q.
Proof.
  intros H c Hc Hb. unfold lift_res. destruct m; [|done..].
  split_and!; done || lia.
Qed.
End logic.

Section primitives.
Implicit Types (c : ReadCursor) (l s : bytes).

Lemma rest_len c : cursor_ok c → len (rest c) = remaining c.
Proof. intros [H _]. apply len_zdrop. lia. Qed.

Lemma set_pos_ok c n :
  cursor_ok c → 0 ≤ n ≤ remaining c →
  cursor_ok (set_pos c (pos c + n)) ∧ rest (set_pos c (pos c + n)) = zdrop n (rest c).
Proof.
  intros [H Hl] Hn. unfold remaining in Hn. split; [split; cbn; lia|].
  unfold rest; cbn. rewrite zdrop_zdrop by lia. done.
Qed.

Lemma ensure_reads n l : n ≤ len l → reads (ensure n) l tt l.
Proof.
  intros Hn c Hc <-. rewrite rest_len in Hn by done. exists c. unfold ensure.
  rewrite decide_False by lia. done.
Qed.

Lemma ensure_safe n : safe (ensure n) (λ _, True).
Proof. intros c Hc Hb. unfold ensure. case_decide; [done|]. split_and!; done || lia. Qed.

Lemma slice_to l n : 0 ≤ n ≤ len l → slice l 0 n = Ok (ztake n l).
Proof. intros H. unfold slice. rewrite decide_True, zdrop_0, Z.sub_0_r by lia. done. Qed.
Lemma slice_from l n : 0 ≤ n ≤ len l → slice l n (len l) = Ok (zdrop n l).
Proof.
  intros H. unfold slice. rewrite decide_True by lia. rewrite ztake_all; [done|].
  rewrite len_zdrop; lia.
Qed.


Lemma slice_rest c n :
  cursor_ok c → 0 ≤ n ≤ remaining c → slice (buf c) (pos c) (pos c + n) = Ok (ztake n (rest c)).
Proof.
  intros [H Hl] Hn. unfold slice, remaining in *. rewrite decide_True by lia.
  do 2 f_equal. lia.
Qed.

Lemma rest_cons_index c b l : cursor_ok c → rest c = b :: l → index (buf c) (pos c) = Ok b.
Proof.
  intros _ Hr. unfold index, rest, zdrop in *.
  pose proof (lookup_drop (buf c) (Z.to_nat (pos c)) O) as E.
  rewrite Hr, Nat.add_0_r in E. by rewrite <-E.
Qed.

Lemma index_n_rest n c s l :
  cursor_ok c → length s = n → rest c = s ++ l →
  index_n n (buf c) (pos c) = Ok s.
Proof.
  revert c s; induction n as [|n IH]; intros c s Hc Hs Hr.
  - by apply nil_length_inv in Hs as ->.
  - destruct s as [|b s]; [done|]. cbn in Hs, Hr |- *.
    rewrite (rest_cons_index c b (s ++ l)) by done. cbn.
    destruct (set_pos_ok c 1 Hc) as [Hc1 Hr1].
    { rewrite <-rest_len, Hr, len_cons by done. len_lia. }
    specialize (IH (set_pos c (pos c + 1)) s Hc1 ltac:(lia)).
    rewrite Hr1, Hr in IH. specialize (IH eq_refl). cbn in IH. by rewrite IH.
Qed.

Lemma take_bytes_reads n s l : length s = n → reads (take_bytes n) (s ++ l) s l.
Proof.
  intros Hs. eapply reads_bind.
  { apply ensure_reads. rewrite len_app. unfold len at 1. rewrite Hs. len_lia. }
  intros c Hc Hr. unfold at_cursor.
  rewrite (index_n_rest n c s l) by done.
  destruct (set_pos_ok c (Z.of_nat n) Hc) as [Hc1 Hr1].
  { rewrite <-rest_len, Hr, len_app by done. unfold len at 1. rewrite Hs. len_lia. }
  eexists; split_and!; [done|done| |done].
  rewrite Hr1, Hr. apply zdrop_app_len. unfold len. lia.
Qed.

Lemma read_slice_reads n s l : n = len s → reads (read_slice n) (s ++ l) s l.
Proof.
  intros ->. eapply reads_bind; [apply ensure_reads; len_lia|].
  intros c Hc Hr. unfold at_cursor.
  assert (Hn : 0 ≤ len s ≤ remaining c) by (rewrite <-rest_len, Hr by done; len_lia).
  rewrite slice_rest, Hr, ztake_app_len by done.
  destruct (set_pos_ok c (len s) Hc Hn) as [Hc1 Hr1].
  eexists; split_and!; [done|done| |done]. by rewrite Hr1, Hr, zdrop_app_len.
Qed.

Lemma read_rest_reads l : reads read_rest l l [].
Proof.
  intros c Hc Hr. unfold read_rest.
  pose proof (slice_rest c (remaining c) Hc) as E.
  pose proof (set_pos_ok c (remaining c) Hc) as E'.
  rewrite <-rest_len in E, E' by done.
  specialize (E ltac:(pose proof (len_nonneg (rest c)); lia)).
  specialize (E' ltac:(pose proof (len_nonneg (rest c)); lia)).
  rewrite rest_len in E, E' by done. unfold remaining in E, E'.
  rewrite Zplus_minus in E, E'. rewrite E. destruct E' as [E1 E2].
  eexists; split_and!; [|done| |done].
  - rewrite ztake_all, Hr; [done|]. rewrite rest_len by done. done.
  - rewrite E2. apply zdrop_all. rewrite rest_len by done. done.
Qed.

Lemma advance_eq c n :
  cursor_ok c → 0 ≤ n ≤ remaining c → advance n c = Ok (tt, set_pos c (pos c + n)).
Proof.
  intros [H Hl] Hn. unfold advance. do 3 f_equal.
  unfold saturating_add_usize, USIZE_MAX, remaining in *. lia.
Qed.

Lemma advance_reads n s l : n = len s → reads (advance n) (s ++ l) tt l.
Proof.
  intros -> c Hc Hr.
  assert (Hn : 0 ≤ len s ≤ remaining c) by (rewrite <-rest_len, Hr by done; len_lia).
  rewrite advance_eq by done.
  destruct (set_pos_ok c (len s) Hc Hn) as [Hc1 Hr1].
  eexists; split_and!; [done|done| |done]. by rewrite Hr1, Hr, zdrop_app_len.
Qed.

Lemma peek_slice_reads n s l : n = len s → reads (peek_slice n) (s ++ l) s (s ++ l).
Proof.
  intros ->. eapply reads_bind; [apply ensure_reads; len_lia|].
  intros c Hc Hr. unfold at_cursor.
  assert (Hn : 0 ≤ len s ≤ remaining c) by (rewrite <-rest_len, Hr by done; len_lia).
  rewrite slice_rest, Hr, ztake_app_len by done. by exists c.
Qed.

Lemma get_remaining_reads l : reads get_remaining l (len l) l.
Proof. intros c Hc <-. exists c. unfold get_remaining. by rewrite rest_len. Qed.

Lemma read_u8_reads v l : reads read_u8 (v :: l) v l.
Proof.
  eapply reads_bind; [apply ensure_reads; len_lia|].
  intros c Hc Hr. unfold at_cursor. rewrite (rest_cons_index c v l) by done.
  destruct (set_pos_ok c 1 Hc) as [Hc1 Hr1].
  { rewrite <-rest_len, Hr by done. len_lia. }
  eexists; split_and!; [done|done| |done]. by rewrite Hr1, Hr.
Qed.
End primitives.

(** Early return of an [InvalidValue] error. *)
Definition reject_if (b : bool) (field reason : string) : reader unit :=
  if b then invalid field reason else mret tt.

(** [debug_assert!]: a panic of a debug build. *)
Definition debug_assert (b : bool) : res DecodeError unit := if b then Ok tt else Panic.
Lemma debug_assert_true b : b = true → debug_assert b = Ok tt.
Proof. by intros ->. Qed.

Section decoding.
Implicit Types (l s : bytes).

Lemma reads_ret_eq {A} (a b : A) l : a = b → reads (mret a) l b l.
Proof. intros ->. apply reads_ret. Qed.

Lemma reads_eq {A} (m : reader A) l l0 a b l' :
  reads m l0 a l' → l = l0 → a = b → reads m l b l'.
Proof. by intros ? -> <-. Qed.

Lemma reject_if_reads b f r l : b = false → reads (reject_if b f r) l tt l.
Proof. intros ->. apply reads_ret. Qed.

Lemma read_u8_write v l : reads read_u8 (write_u8 v ++ l) v l.
Proof. apply read_u8_reads. Qed.

Lemma take_bytes_map_reads {A} n (f : bytes → A) s l a :
  length s = n → f s = a → reads (x ← take_bytes n; mret (f x)) (s ++ l) a l.
Proof. intros Hs <-. eapply reads_bind; [by apply take_bytes_reads|apply reads_ret]. Qed.

Lemma read_u16_be_write v l : u16_ok v → reads read_u16_be (write_u16_be v ++ l) v l.
Proof.
  intros Hv. apply take_bytes_map_reads; [apply length_to_be|].
  unfold write_u16_be. rewrite from_to_be. by apply Z.mod_small.
Qed.
Lemma read_u16_le_write v l : u16_ok v → reads read_u16_le (write_u16_le v ++ l) v l.
Proof.
  intros Hv. apply take_bytes_map_reads; [apply length_to_le|].
  unfold write_u16_le. rewrite from_to_le. by apply Z.mod_small.
Qed.
Lemma read_u32_le_write v l : u32_ok v → reads read_u32_le (write_u32_le v ++ l) v l.
Proof.
  intros Hv. apply take_bytes_map_reads; [apply length_to_le|].
  unfold write_u32_le. rewrite from_to_le. by apply Z.mod_small.
Qed.
Lemma read_u64_le_write v l : u64_ok v → reads read_u64_le (write_u64_le v ++ l) v l.
Proof.
  intros Hv. apply take_bytes_map_reads; [apply length_to_le|].
  unfold write_u64_le. rewrite from_to_le. by apply Z.mod_small.
Qed.
Lemma read_i32_le_write v l :
  - 2 ^ 31 ≤ v < 2 ^ 31 → reads read_i32_le (write_i32_le v ++ l) v l.
Proof.
  intros Hv. eapply reads_bind.
  - apply (take_bytes_map_reads _ from_le); [apply length_to_le|reflexivity].
  - apply reads_ret_eq. unfold write_i32_le. rewrite from_to_le.
    change (8 * Z.of_nat 4) with 32. cast_lia.
Qed.
Lemma read_slice_write n s l : n = len s → reads (read_slice n) (write_slice s ++ l) s l.
Proof. apply read_slice_reads. Qed.

Lemma reject_if_safe b f r : safe (reject_if b f r) (λ _, b = false).
Proof. destruct b; [apply safe_fail|by apply safe_ret]. Qed.

Lemma bytes_ok_lookup l i b : bytes_ok l → l !! i = Some b → u8_ok b.
Proof. intros H Hi. exact (Forall_lookup_1 _ _ _ _ H Hi). Qed.

Lemma index_in l i : 0 ≤ i < len l → ∃ b, index l i = Ok b ∧ l !! Z.to_nat i = Some b.
Proof.
  intros Hi. unfold index.
  destruct (lookup_lt_is_Some_2 l (Z.to_nat i)) as [b Hb]; [unfold len in Hi; lia|].
  exists b. by rewrite Hb.
Qed.

Lemma index_n_in n l p :
  bytes_ok l → 0 ≤ p → p + Z.of_nat n ≤ len l →
  ∃ s, index_n n l p = Ok s ∧ length s = n ∧ bytes_ok s.
Proof.
  intros Hl. revert p; induction n as [|n IH]; intros p Hp Hn.
  - exists []. split_and!; [done..|apply bytes_ok_nil].
  - cbn [index_n]. destruct (index_in l p) as (b & -> & Hb); [lia|].
    destruct (IH (p + 1)) as (s & Hs & Hlen & Hok); [lia..|].
    exists (b :: s). cbn. rewrite Hs. split_and!; [done|by rewrite <-Hlen|].
    apply bytes_ok_cons. eauto using bytes_ok_lookup.
Qed.

Lemma take_bytes_safe n : safe (take_bytes n) (λ s, length s = n ∧ bytes_ok s).
Proof.
  intros c Hc Hb. unfold take_bytes, mbind, reader_bind, ensure.
  case_decide as Hn; [done|]. unfold at_cursor.
  destruct (index_n_in n (buf c) (pos c)) as (s & -> & ?); [done| |unfold remaining in Hn; lia|].
  { destruct Hc; lia. }
  destruct (set_pos_ok c (Z.of_nat n) Hc) as [? _]; [lia|]. cbn beta; split_and!; try naive_solver; cbn; lia.
Qed.

Lemma take_bytes_map_safe {A} n (f : bytes → A) (Q : A → Prop) :
  (∀ s, length s = n → bytes_ok s → Q (f s)) → safe (x ← take_bytes n; mret (f x)) Q.
Proof.
  intros H. eapply safe_bind; [apply take_bytes_safe|]. intros s [??].
  apply safe_ret; auto.
Qed.

Lemma from_le_u n l : length l = n → bytes_ok l → 0 ≤ from_le l < 2 ^ (8 * Z.of_nat n).
Proof. intros <- Hl. by apply from_le_bound. Qed.

Lemma read_u8_safe : safe read_u8 (λ v, u8_ok v).
Proof.
  intros c Hc Hb. unfold read_u8, mbind, reader_bind, ensure.
  case_decide as Hn; [done|]. unfold at_cursor.
  destruct (index_in (buf c) (pos c)) as (b & -> & Hl).
  { destruct Hc; unfold remaining in Hn; lia. }
  destruct (set_pos_ok c 1 Hc) as [? _]; [lia|].
  split_and!; try done; [cbn; lia|..]; by eapply bytes_ok_lookup.
Qed.
Lemma read_u16_be_safe : safe read_u16_be (λ v, u16_ok v).
Proof.
  apply take_bytes_map_safe; intros s Hs Hok.
  apply (from_le_u 2); [by rewrite length_reverse|by apply Forall_reverse].
Qed.
Lemma read_u16_le_safe : safe read_u16_le (λ v, u16_ok v).
Proof. apply take_bytes_map_safe; intros s Hs Hok. by apply (from_le_u 2). Qed.
Lemma read_u32_le_safe : safe read_u32_le (λ v, u32_ok v).
Proof. apply take_bytes_map_safe; intros s Hs Hok. by apply (from_le_u 4). Qed.
Lemma read_u64_le_safe : safe read_u64_le (λ v, u64_ok v).
Proof. apply take_bytes_map_safe; intros s Hs Hok. by apply (from_le_u 8). Qed.
Lemma read_i32_le_safe : safe read_i32_le (λ v, - 2 ^ 31 ≤ v < 2 ^ 31).
Proof.
  eapply safe_bind; [apply read_u32_le_safe|]. intros v Hv. apply safe_ret. cast_lia.
Qed.

Lemma rest_bytes_ok c : bytes_ok (buf c) → bytes_ok (rest c).
Proof. intros H. by apply Forall_drop. Qed.

Lemma read_slice_safe n : 0 ≤ n → safe (read_slice n) (λ s, len s = n ∧ bytes_ok s).
Proof.
  intros H0 c Hc Hb. unfold read_slice, mbind, reader_bind, ensure.
  case_decide as Hn; [done|]. unfold at_cursor. rewrite slice_rest by (done || lia).
  destruct (set_pos_ok c n Hc) as [? _]; [lia|]. split_and!; try done; [cbn; lia|..].
  - apply len_ztake. rewrite rest_len by done. lia.
  - by apply Forall_take, rest_bytes_ok.
Qed.
Lemma peek_slice_safe n : 0 ≤ n → safe (peek_slice n) (λ s, len s = n ∧ bytes_ok s).
Proof.
  intros H0 c Hc Hb. unfold peek_slice, mbind, reader_bind, ensure.
  case_decide as Hn; [done|]. unfold at_cursor. rewrite slice_rest by (done || lia).
  split_and!; try done.
  - apply len_ztake. rewrite rest_len by done. lia.
  - by apply Forall_take, rest_bytes_ok.
Qed.
Lemma advance_safe n : 0 ≤ n → safe (advance n) (λ _, True).
Proof.
  intros Hn c [Hc Hl] Hb. cbn. unfold saturating_add_usize, USIZE_MAX.
  split_and!; [split; cbn; lia|done|cbn; lia|done].
Qed.
Lemma read_rest_safe : safe read_rest (λ s, bytes_ok s ∧ len s < 2 ^ 63).
Proof.
  intros c Hc Hb. unfold read_rest, slice. destruct Hc as [Hc Hl].
  rewrite decide_True by lia. cbn beta.
  split_and!; [split; cbn; lia|done|cbn; lia|by apply Forall_take, rest_bytes_ok|].
  rewrite len_ztake; [lia|]. rewrite len_zdrop; lia.
Qed.
Lemma get_remaining_safe : safe get_remaining (λ n, 0 ≤ n).
Proof. intros c [Hc Hl] Hb. cbn. split_and!; try done; unfold remaining; lia. Qed.
Lemma get_pos_safe : safe get_pos (λ n, 0 ≤ n).
Proof. intros c [Hc Hl] Hb. cbn. split_and!; try done; lia. Qed.
Lemma slice_from_to_safe a b : safe (slice_from_to a b) (λ s, bytes_ok s).
Proof.
  intros c Hc Hb. cbn. split_and!; try done.
  unfold slice. case_decide; [by apply Forall_take, Forall_drop|apply bytes_ok_nil].
Qed.
Lemma ensure_count_safe a b f : safe (ensure_count a b f) (λ _, True).
Proof.
  unfold ensure_count. destruct (checked_mul_usize a b); [apply ensure_safe|apply safe_fail].
Qed.
End decoding.

Lemma run_reads_whole {A} (m : reader A) (enc : bytes) a :
  len enc < 2 ^ 63 → reads m (enc ++ []) a [] → run m enc = Ok a.
Proof. intros Hl H. eapply reads_run; [done|]. by rewrite app_nil_r in H. Qed.

(** Running a decoder step by step, where positions matter. *)
Lemma bind_Ok {A B} (m : reader A) (k : A → reader B) c a c' :
  m c = Ok (a, c') → (m ≫= k) c = k a c'.
Proof. intros E. unfold mbind, reader_bind. by rewrite E. Qed.

Lemma pos_rest c : cursor_ok c → pos c = len (buf c) - len (rest c).
Proof. intros Hc. rewrite rest_len by done. unfold remaining. lia. Qed.

(** [reads] in a buffer of [n] bytes, where the position is known. *)
Definition reads_of {A} (n : Z) (m : reader A) (l : bytes) (a : A) (l' : bytes) : Prop :=
  ∀ c, cursor_ok c → len (buf c) = n → rest c = l →
  ∃ c', m c = Ok (a, c') ∧ cursor_ok c' ∧ rest c' = l' ∧ buf c' = buf c.

Section reads_of.
Context {A B : Type}.

Lemma reads_reads_of n (m : reader A) l a l' : reads m l a l' → reads_of n m l a l'.
Proof. intros H c Hc _. by apply H. Qed.

Lemma reads_of_bind n (m : reader A) (k : A → reader B) l a l1 b l2 :
  reads m l a l1 → reads_of n (k a) l1 b l2 → reads_of n (m ≫= k) l b l2.
Proof.
  intros Hm Hk c Hc Hn Hl. destruct (Hm c Hc Hl) as (c1 & E & Hc1 & Hl1 & Hb1).
  destruct (Hk c1 Hc1) as (c2 & E2 & Hc2 & Hl2 & Hb2); [by rewrite Hb1|done|].
  exists c2. rewrite (bind_Ok _ _ _ _ _ E), E2, Hb2. done.
Qed.

Lemma reads_of_pos n (k : Z → reader B) l b l' :
  reads_of n (k (n - len l)) l b l' → reads_of n (get_pos ≫= k) l b l'.
Proof.
  intros Hk c Hc Hn Hl. destruct (Hk c Hc Hn Hl) as (c' & E & H).
  exists c'. rewrite (bind_Ok get_pos _ c (pos c) c) by done.
  by rewrite (pos_rest c Hc), Hn, Hl, E.
Qed.

Lemma run_reads_of (m : reader A) input a l' :
  len input < 2 ^ 63 → reads_of (len input) m input a l' → run m input = Ok a.
Proof.
  intros Hlen H. unfold run.
  destruct (H (cursor_new input)) as (c' & -> & _); [by apply cursor_new_ok|done..].
Qed.
End reads_of.

Section many.
Context {A : Type}.

Lemma ensure_count_reads a b f l :
  0 ≤ a * b ≤ len l → len l < 2 ^ 63 → reads (ensure_count a b f) l tt l.
Proof.
  intros H Hl. unfold ensure_count, checked_mul_usize, USIZE_MAX.
  rewrite decide_True by lia. apply ensure_reads. lia.
Qed.

Lemma read_many_reads (m : reader A) (enc : A → bytes) xs l :
  Forall (λ x, ∀ l, reads m (enc x ++ l) x l) xs →
  reads (read_many (length xs) m) (concat (enc <$> xs) ++ l) xs l.
Proof.
  induction 1 as [|x xs Hx _ IH]; cbn [length read_many]; [by apply reads_ret|].
  rewrite fmap_cons. cbn [concat]. rewrite <-(assoc_L (++)). eapply reads_bind; [apply Hx|].
  eapply reads_bind; [apply IH|]. by apply reads_ret.
Qed.

Lemma try_read_reads (m : reader A) l a l' :
  reads m l a l' → reads (try_read m) l (Some a) l'.
Proof.
  intros Hm c Hc Hl. destruct (Hm c Hc Hl) as (c' & E & H). exists c'.
  unfold try_read. by rewrite E.
Qed.

Lemma try_read_safe (m : reader A) (Q : A → Prop) :
  safe m Q → safe (try_read m) (λ o, match o with Some a => Q a | None => True end).
Proof.
  intros Hm c Hc Hb. specialize (Hm c Hc Hb). unfold try_read.
  destruct (m c) as [[a c']| |]; [done| |done]. split_and!; done || lia.
Qed.

Lemma read_many_safe n (m : reader A) (Q : A → Prop) :
  safe m Q → safe (read_many n m) (λ l, length l = n ∧ Forall Q l).
Proof.
  intros Hm. induction n as [|n IH]; cbn [read_many]; [by apply safe_ret|].
  eapply safe_bind; [exact Hm|]. intros a Ha. eapply safe_bind; [exact IH|].
  intros l [Hl HQ]. apply safe_ret. split; [cbn; congruence|by constructor].
Qed.
End many.

#[export] Hint Resolve read_u8_write read_u16_be_write read_u16_le_write read_u32_le_write
  read_u64_le_write read_i32_le_write read_slice_write read_slice_reads read_u8_reads
  reject_if_reads read_rest_reads get_remaining_reads : reads.
#[export] Hint Resolve read_u8_safe read_u16_be_safe read_u16_le_safe read_u32_le_safe
  read_u64_le_safe read_i32_le_safe reject_if_safe ensure_safe read_rest_safe
  get_remaining_safe get_pos_safe slice_from_to_safe ensure_count_safe : safe.
#[export] Hint Extern 2 (safe (read_slice _) _) => apply read_slice_safe; lia : safe.
#[export] Hint Extern 2 (safe (peek_slice _) _) => apply peek_slice_safe; lia : safe.
#[export] Hint Extern 2 (safe (advance _) _) => apply advance_safe; lia : safe.
#[export] Hint Extern 3 (safe (lift_res _) _) => apply safe_lift_res : safe.
(** Ranges of fields (by [lia]) and of constants (by computation). *)
#[export] Hint Extern 1 (_ ≤ _ < _) =>
  first [lia | solve [vm_compute; split; congruence]] : reads.
#[export] Hint Extern 1 (@eq Z _ _) => len_lia : reads.
#[export] Hint Extern 1 (@eq bool _ _) => reflexivity : reads.

(** One step of a [reads] proof: the next primitive or codec, found in the hint
    database, or the final [mret]. *)
Ltac reads_step :=
  first
    [ eapply reads_bind; [solve [eauto 3 with reads]|cbn beta iota]
    | apply reads_ret_eq ].
Ltac reads_steps := repeat reads_step.

(** One step of a [safe] proof. *)
Ltac safe_step :=
  lazymatch goal with
  | |- safe (mbind _ (if ?b then _ else _)) _ => destruct b eqn:?
  | |- safe (mbind _ (match ?b with _ => _ end)) _ => destruct b eqn:?
  | |- safe (mbind _ _) _ =>
      eapply safe_bind; [solve [eauto 3 with safe]|intros ? ?; cbn beta iota in *]
  | |- safe (mret _) _ => apply safe_ret
  | |- safe (fail _) _ => apply safe_fail
  | |- safe (invalid _ _) _ => apply safe_fail
  | |- safe (if ?b then _ else _) _ => destruct b eqn:?
  | |- safe (match ?b with _ => _ end) _ => destruct b eqn:?
  | |- safe _ _ =>
      first [ solve [eauto 3 with safe]
            | eapply safe_weaken; [solve [eauto 3 with safe]|intros ? ?; cbn beta iota in *] ]
  end.
Ltac safe_steps := repeat safe_step.

(** ** Sizes of results *)

(** On any input of at most [n] bytes, what [m] returns satisfies [Q]; used to
    bound the slices a decoder returns by the size of its input. *)
Definition sizes {A} (n : Z) (m : reader A) (Q : A → Prop) : Prop :=
  ∀ c, cursor_ok c → bytes_ok (buf c) → len (buf c) ≤ n →
  match m c with
  | Ok (a, c') => cursor_ok c' ∧ buf c' = buf c ∧ Q a
  | _ => True
  end.

Section sizes.
Context {A B : Type}.

Lemma sizes_safe n (m : reader A) Q : safe m Q → sizes n m Q.
Proof.
  intros H c Hc Hb _. specialize (H c Hc Hb). destruct (m c) as [[a c']| |]; naive_solver.
Qed.

Lemma sizes_bind n (m : reader A) (k : A → reader B) P Q :
  sizes n m P → (∀ a, P a → sizes n (k a) Q) → sizes n (m ≫= k) Q.
Proof.
  intros Hm Hk c Hc Hb Hn. unfold mbind, reader_bind. specialize (Hm c Hc Hb Hn).
  destruct (m c) as [[a c1]| |]; [|done..]. destruct Hm as (Hc1 & Hb1 & Ha).
  specialize (Hk a Ha c1 Hc1). rewrite Hb1 in Hk. specialize (Hk Hb Hn).
  destruct (k a c1) as [[b c2]| |]; [|done..]. naive_solver congruence.
Qed.

Lemma sizes_run n (m : reader A) Q input a :
  sizes n m Q → bytes_ok input → len input < 2 ^ 63 → len input ≤ n →
  run m input = Ok a → Q a.
Proof.
  intros H Hb Hl Hn. unfold run. specialize (H (cursor_new input) (cursor_new_ok _ Hl) Hb Hn).
  destruct (m _) as [[b c]| |]; [|done..]. intros [= <-]. naive_solver.
Qed.
End sizes.

Lemma read_rest_sizes n : sizes n read_rest (λ s, len s ≤ n).
Proof.
  intros c [Hc Hl] Hb Hn. unfold read_rest, slice. rewrite decide_True by lia. cbn beta.
  split_and!; [split; cbn; lia|done|]. rewrite len_ztake; [lia|]. rewrite len_zdrop; lia.
Qed.

Lemma read_slice_sizes n k : 0 ≤ k → sizes n (read_slice k) (λ s, len s ≤ n).
Proof.
  intros Hk c Hc Hb Hn. pose proof (read_slice_safe k Hk c Hc Hb) as H.
  destruct (read_slice k c) as [[s c']| |] eqn:E; [|done..]. destruct H as (Hc' & Hb' & _ & Hs & _).
  split_and!; [done..|]. unfold read_slice, mbind, reader_bind, ensure in E.
  case_decide as Hd; [done|]. unfold remaining in *. destruct Hc. lia.
Qed.

Lemma read_many_sizes {A} n k (m : reader A) (Q : A → Prop) :
  sizes n m Q → sizes n (read_many k m) (Forall Q).
Proof.
  intros Hm. induction k as [|k IH]; cbn [read_many].
  { apply sizes_safe, safe_ret. constructor. }
  eapply sizes_bind; [exact Hm|]. intros a Ha. eapply sizes_bind; [exact IH|].
  intros l Hl. apply sizes_safe, safe_ret. by constructor.
Qed.

(** ** Progress *)

(** [safe], for cursors with at most [n] unread bytes: the measure of the loops
    that run while bytes remain. *)
Definition safe_n {A} (n : Z) (m : reader A) (Q : A → Prop) : Prop :=
  ∀ c, cursor_ok c → bytes_ok (buf c) → remaining c ≤ n →
  match m c with
  | Ok (a, c') => cursor_ok c' ∧ buf c' = buf c ∧ pos c ≤ pos c' ∧ Q a
  | Err _ => True
  | Panic => False
  end.

(** When it returns, [m] has consumed at least [k] bytes. *)
Definition eats {A} (k : Z) (m : reader A) : Prop :=
  ∀ c, cursor_ok c → bytes_ok (buf c) →
  match m c with Ok (_, c') => pos c + k ≤ pos c' | _ => True end.

Section progress.
Context {A B : Type}.

Lemma safe_n_safe n (m : reader A) Q : safe m Q → safe_n n m Q.
Proof. intros H c Hc Hb _. by apply H. Qed.

Lemma safe_n_bind n k (m : reader A) (f : A → reader B) P Q :
  safe m P → eats k m → (∀ a, P a → safe_n (n - k) (f a) Q) → safe_n n (m ≫= f) Q.
Proof.
  intros Hm He Hf c Hc Hb Hn. unfold mbind, reader_bind.
  specialize (Hm c Hc Hb). specialize (He c Hc Hb). destruct (m c) as [[a c1]| |]; [|done..].
  destruct Hm as (Hc1 & Hb1 & Hp1 & Ha). specialize (Hf a Ha c1 Hc1).
  rewrite Hb1 in Hf. specialize (Hf Hb). unfold remaining in *. rewrite Hb1 in Hf.
  specialize (Hf ltac:(lia)). destruct (f a c1) as [[b c2]| |]; [|done..].
  destruct Hf as (Hc2 & Hb2 & Hp2 & Hq). split_and!; done || lia || congruence.
Qed.

Lemma eats_bind k (m : reader A) (f : A → reader B) P Q :
  safe m P → eats k m → (∀ a, P a → safe (f a) Q) → eats k (m ≫= f).
Proof.
  intros Hm He Hf c Hc Hb. unfold mbind, reader_bind.
  specialize (Hm c Hc Hb). specialize (He c Hc Hb). destruct (m c) as [[a c1]| |]; [|done..].
  destruct Hm as (Hc1 & Hb1 & Hp1 & Ha). specialize (Hf a Ha c1 Hc1). rewrite Hb1 in Hf.
  specialize (Hf Hb). destruct (f a c1) as [[b c2]| |]; [|done..]. lia.
Qed.

Lemma eats_weaken k k' (m : reader A) : k' ≤ k → eats k m → eats k' m.
Proof.
  intros Hk He c Hc Hb. specialize (He c Hc Hb). destruct (m c) as [[a c']| |]; [lia|done..].
Qed.

Lemma eats_safe (m : reader A) P : safe m P → eats 0 m.
Proof.
  intros H c Hc Hb. specialize (H c Hc Hb). destruct (m c) as [[a c']| |]; [lia|done..].
Qed.

(** A step that does not count towards the measure. *)
Lemma safe_n_then n (m : reader A) (f : A → reader B) P Q :
  safe m P → (∀ a, P a → safe_n n (f a) Q) → safe_n n (m ≫= f) Q.
Proof.
  intros Hm Hf. eapply (safe_n_bind n 0); [exact Hm|by eapply eats_safe|].
  intros a Ha. rewrite Z.sub_0_r. by apply Hf.
Qed.

Lemma safe_n_run n (m : reader A) (Q : A → Prop) input :
  safe_n n m Q → bytes_ok input → len input < 2 ^ 63 → len input ≤ n →
  match run m input with Ok a => Q a | Err _ => True | Panic => False end.
Proof.
  intros H Hb Hlen Hn. unfold run.
  specialize (H (cursor_new input) (cursor_new_ok _ Hlen) Hb).
  unfold remaining in H; cbn in H. specialize (H ltac:(lia)).
  destruct (m _) as [[a c']| |]; naive_solver.
Qed.
End progress.

Lemma take_bytes_eats n : eats (Z.of_nat n) (take_bytes n).
Proof.
  intros c Hc Hb. unfold take_bytes, mbind, reader_bind, ensure. case_decide; [done|].
  unfold at_cursor. destruct (index_n n (buf c) (pos c)); [cbn; lia|done..].
Qed.

Lemma read_u8_eats : eats 1 read_u8.
Proof.
  intros c Hc Hb. unfold read_u8, mbind, reader_bind, ensure. case_decide; [done|].
  unfold at_cursor. destruct (index (buf c) (pos c)); [cbn; lia|done..].
Qed.

Lemma read_u16_le_eats : eats 2 read_u16_le.
Proof.
  eapply eats_bind; [apply take_bytes_safe|apply (take_bytes_eats 2)|].
  intros. by apply (safe_ret _ (λ _, True)).
Qed.
