(* ===== verification/Utf.v ===== *)
(** Rust strings and [rdpcore-pdu/src/utf16.rs].  A [String] is the list of its
    Unicode scalar values; its UTF-8 bytes and UTF-16 code units are computed by
    the standard library's encoders, modelled here. *)
From S2P Require Import Prelude Cursor.

(** ** Scalar values and the two encodings *)

Abbreviation rstring := (list Z).
Definition scalar_ok (c : Z) : Prop := 0 ≤ c < 0xD800 ∨ 0xE000 ≤ c < 0x110000.
Definition str_ok (s : rstring) : Prop := Forall scalar_ok s.
(** A Rust string literal (ASCII). *)
Definition lit (s : string) : rstring :=
  (λ a, Z.of_N (Ascii.N_of_ascii a)) <$> String.list_ascii_of_string s.
Definition REPLACEMENT_CHARACTER : Z := 0xFFFD.

(** [char::encode_utf8] and [str::as_bytes]. *)
Definition utf8_char (c : Z) : bytes :=
  if c <? 0x80 then [c]
  else if c <? 0x800 then [0xC0 + c / 64; 0x80 + c mod 64]
  else if c <? 0x10000 then [0xE0 + c / 4096; 0x80 + c / 64 mod 64; 0x80 + c mod 64]
  else [0xF0 + c / 262144; 0x80 + c / 4096 mod 64; 0x80 + c / 64 mod 64; 0x80 + c mod 64].
Definition as_bytes (s : rstring) : bytes := s ≫= utf8_char.

(** [str::from_utf8]: strict decoding (no overlong forms, no surrogates). *)
Definition is_cont (b : Z) : bool := (0x80 <=? b) && (b <? 0xC0).
Definition between (a b x : Z) : bool := (a <=? x) && (x <=? b).
(** The bytes that may follow a leading byte [b0] of a three- or four-byte
    sequence. *)
Definition second3 (b0 b1 : Z) : bool :=
  ((b0 =? 0xE0) && between 0xA0 0xBF b1) || (between 0xE1 0xEC b0 && is_cont b1)
  || ((b0 =? 0xED) && between 0x80 0x9F b1) || (between 0xEE 0xEF b0 && is_cont b1).
Definition second4 (b0 b1 : Z) : bool :=
  ((b0 =? 0xF0) && between 0x90 0xBF b1) || (between 0xF1 0xF3 b0 && is_cont b1)
  || ((b0 =? 0xF4) && between 0x80 0x8F b1).

(** [String::from_utf8_lossy]: every maximal part of a sequence that cannot be
    completed becomes one U+FFFD. *)
Fixpoint from_utf8_lossy (l : bytes) : rstring :=
  match l with
  | [] => []
  | b0 :: l1 =>
    if b0 <? 0x80 then b0 :: from_utf8_lossy l1
    else match l1 with
    | [] => [REPLACEMENT_CHARACTER]
    | b1 :: l2 =>
      if between 0xC2 0xDF b0 && is_cont b1
      then ((b0 - 0xC0) * 64 + (b1 - 0x80)) :: from_utf8_lossy l2
      else if second3 b0 b1 then
        match l2 with
        | [] => [REPLACEMENT_CHARACTER]
        | b2 :: l3 =>
          if is_cont b2
          then ((b0 - 0xE0) * 4096 + (b1 - 0x80) * 64 + (b2 - 0x80)) :: from_utf8_lossy l3
          else REPLACEMENT_CHARACTER :: from_utf8_lossy l2
        end
      else if second4 b0 b1 then
        match l2 with
        | [] => [REPLACEMENT_CHARACTER]
        | b2 :: l3 =>
          if is_cont b2 then
            match l3 with
            | [] => [REPLACEMENT_CHARACTER]
            | b3 :: l4 =>
              if is_cont b3
              then ((b0 - 0xF0) * 262144 + (b1 - 0x80) * 4096 + (b2 - 0x80) * 64
                    + (b3 - 0x80)) :: from_utf8_lossy l4
              else REPLACEMENT_CHARACTER :: from_utf8_lossy l3
            end
          else REPLACEMENT_CHARACTER :: from_utf8_lossy l2
        end
      else REPLACEMENT_CHARACTER :: from_utf8_lossy l1
    end
  end.

Fixpoint from_utf8 (l : bytes) : option rstring :=
  match l with
  | [] => Some []
  | b0 :: l1 =>
    if b0 <? 0x80 then cons b0 <$> from_utf8 l1
    else match l1 with
    | [] => None
    | b1 :: l2 =>
      if between 0xC2 0xDF b0 && is_cont b1
      then cons ((b0 - 0xC0) * 64 + (b1 - 0x80)) <$> from_utf8 l2
      else match l2 with
      | [] => None
      | b2 :: l3 =>
        if (((b0 =? 0xE0) && between 0xA0 0xBF b1)
            || (between 0xE1 0xEC b0 && is_cont b1)
            || ((b0 =? 0xED) && between 0x80 0x9F b1)
            || (between 0xEE 0xEF b0 && is_cont b1)) && is_cont b2
        then cons ((b0 - 0xE0) * 4096 + (b1 - 0x80) * 64 + (b2 - 0x80)) <$> from_utf8 l3
        else match l3 with
        | [] => None
        | b3 :: l4 =>
          if (((b0 =? 0xF0) && between 0x90 0xBF b1)
              || (between 0xF1 0xF3 b0 && is_cont b1)
              || ((b0 =? 0xF4) && between 0x80 0x8F b1)) && is_cont b2 && is_cont b3
          then cons ((b0 - 0xF0) * 262144 + (b1 - 0x80) * 4096 + (b2 - 0x80) * 64
                     + (b3 - 0x80)) <$> from_utf8 l4
          else None
        end
      end
    end
  end.

(** [str::encode_utf16]. *)
Definition utf16_char (c : Z) : list Z :=
  if c <? 0x10000 then [c]
  else [0xD800 + (c - 0x10000) / 1024; 0xDC00 + (c - 0x10000) mod 1024].
Definition encode_utf16 (s : rstring) : list Z := s ≫= utf16_char.

(** [char::decode_utf16] with every error replaced by U+FFFD. *)
Fixpoint decode_utf16_lossy (l : list Z) : rstring :=
  match l with
  | [] => []
  | u :: l1 =>
    if negb (between 0xD800 0xDFFF u) then u :: decode_utf16_lossy l1
    else if 0xDC00 <=? u then REPLACEMENT_CHARACTER :: decode_utf16_lossy l1
    else match l1 with
    | [] => [REPLACEMENT_CHARACTER]
    | u2 :: l2 =>
      if between 0xDC00 0xDFFF u2
      then ((u - 0xD800) * 1024 + (u2 - 0xDC00) + 0x10000) :: decode_utf16_lossy l2
      else REPLACEMENT_CHARACTER :: decode_utf16_lossy l1
    end
  end.

(** ** [utf16.rs] *)

Definition write_units (units : list Z) : bytes := units ≫= write_u16_le.

Definition write_fixed (s : rstring) (byte_len : Z) : bytes :=
  let max_units := byte_len / 2 in
  let units := ztake (saturating_sub max_units 1) (encode_utf16 s) in
  write_units units ++ write_units (replicate (Z.to_nat (max_units - len units)) 0).

(** [bytes.chunks_exact(2).map(u16::from_le_bytes)]: a trailing odd byte is
    dropped. *)
Fixpoint le_units (l : bytes) : list Z :=
  match l with
  | b0 :: b1 :: l => from_le [b0; b1] :: le_units l
  | _ => []
  end.
Fixpoint take_while {A} (p : A → bool) (l : list A) : list A :=
  match l with
  | [] => []
  | x :: l => if p x then x :: take_while p l else []
  end.

Definition read_fixed (l : bytes) : rstring :=
  decode_utf16_lossy (take_while (λ u, negb (u =? 0)) (le_units l)).
Definition encode_units (s : rstring) : bytes := write_units (encode_utf16 s).
Definition decode_units (l : bytes) : rstring := decode_utf16_lossy (le_units l).

(** ** Round trips *)

(** Decide the boolean tests of the decoders from arithmetic facts. *)
Ltac bool_lia :=
  repeat match goal with
  | |- context [?a <? ?b] =>
      first [ rewrite (proj2 (Z.ltb_lt a b)) by lia | rewrite (proj2 (Z.ltb_ge a b)) by lia ]
  | |- context [?a <=? ?b] =>
      first [ rewrite (proj2 (Z.leb_le a b)) by lia | rewrite (proj2 (Z.leb_gt a b)) by lia ]
  | |- context [?a =? ?b] =>
      first [ rewrite (proj2 (Z.eqb_eq a b)) by lia | rewrite (proj2 (Z.eqb_neq a b)) by lia ]
  end; cbn [andb orb negb].

Lemma from_utf8_char c l :
  scalar_ok c → from_utf8 (utf8_char c ++ l) = cons c <$> from_utf8 l.
Proof.
  intros Hc. unfold utf8_char, scalar_ok in *.
  destruct (Z.ltb_spec c 0x80); [|destruct (Z.ltb_spec c 0x800);
    [|destruct (Z.ltb_spec c 0x10000)]]; cbn [app from_utf8].
  - by bool_lia.
  - unfold between, is_cont.
    assert (2 ≤ c / 64 < 32 ∧ 0 ≤ c mod 64 < 64 ∧ c = 64 * (c / 64) + c mod 64)
      by (Z.to_euclidean_division_equations; lia).
    bool_lia. do 2 f_equal; lia.
  - unfold between, is_cont.
    set (a := c / 4096) in *; set (b := c / 64 mod 64) in *; set (d := c mod 64) in *.
    assert (0 ≤ a < 16 ∧ 0 ≤ b < 64 ∧ 0 ≤ d < 64 ∧ c = a * 4096 + b * 64 + d)
      by (subst a b d; Z.to_euclidean_division_equations; lia).
    clearbody a b d. replace (0x80 + d <? 0xC0) with true by lia.
    replace (0x80 <=? 0x80 + d) with true by lia.
    destruct (decide (a = 0)) as [->|]; [|destruct (decide (a = 13)) as [->|];
      [|destruct (decide (a < 13))]]; bool_lia; do 2 f_equal; lia.
  - unfold between, is_cont.
    set (a := c / 262144) in *; set (b := c / 4096 mod 64) in *;
    set (d := c / 64 mod 64) in *; set (e := c mod 64) in *.
    assert (0 ≤ a < 5 ∧ 0 ≤ b < 64 ∧ 0 ≤ d < 64 ∧ 0 ≤ e < 64
            ∧ c = a * 262144 + b * 4096 + d * 64 + e)
      by (subst a b d e; Z.to_euclidean_division_equations; lia).
    clearbody a b d e.
    destruct (decide (a = 0)) as [->|]; [|destruct (decide (a = 4)) as [->|]];
      bool_lia; do 2 f_equal; lia.
Qed.

Lemma from_utf8_as_bytes s : str_ok s → from_utf8 (as_bytes s) = Some s.
Proof.
  induction 1 as [|c s Hc _ IH]; [done|].
  unfold as_bytes in *. cbn. rewrite from_utf8_char by done. by rewrite IH.
Qed.

Lemma decode_utf16_char c l :
  scalar_ok c → decode_utf16_lossy (utf16_char c ++ l) = c :: decode_utf16_lossy l.
Proof.
  intros Hc. unfold utf16_char, scalar_ok in *.
  destruct (Z.ltb_spec c 0x10000); cbn [app decode_utf16_lossy]; unfold between.
  - by destruct Hc; bool_lia.
  - set (a := (c - 0x10000) / 1024) in *; set (b := (c - 0x10000) mod 1024) in *.
    assert (0 ≤ a < 1024 ∧ 0 ≤ b < 1024 ∧ c = a * 1024 + b + 0x10000)
      by (subst a b; Z.to_euclidean_division_equations; lia).
    clearbody a b. bool_lia. f_equal; lia.
Qed.

Lemma decode_encode_utf16 s : str_ok s → decode_utf16_lossy (encode_utf16 s) = s.
Proof.
  induction 1 as [|c s Hc _ IH]; [done|].
  unfold encode_utf16 in *. cbn. rewrite decode_utf16_char by done. by rewrite IH.
Qed.

Lemma encode_utf16_u16 s : str_ok s → Forall (λ u, u16_ok u) (encode_utf16 s).
Proof.
  induction 1 as [|c s Hc _ IH]; [constructor|].
  unfold encode_utf16 in *. cbn. apply Forall_app. split; [|done].
  unfold utf16_char, scalar_ok in *. destruct (Z.ltb_spec c 0x10000); [repeat constructor; lia|].
  repeat constructor; Z.to_euclidean_division_equations; lia.
Qed.

Lemma le_units_cons u l : u16_ok u → le_units (write_u16_le u ++ l) = u :: le_units l.
Proof.
  intros Hu. change (from_le (to_le 2 u) :: le_units l = u :: le_units l).
  rewrite from_to_le. f_equal. by apply Z.mod_small.
Qed.

Lemma le_units_write_units us l :
  Forall (λ u, u16_ok u) us → le_units (write_units us ++ l) = us ++ le_units l.
Proof.
  induction 1 as [|u us Hu _ IH]; [done|].
  change (write_units (u :: us)) with (write_u16_le u ++ write_units us).
  by rewrite <-app_assoc, le_units_cons, IH.
Qed.

Lemma len_write_units us : len (write_units us) = 2 * len us.
Proof.
  induction us as [|u us IH]; [done|].
  change (write_units (u :: us)) with (write_u16_le u ++ write_units us).
  rewrite len_app, IH, len_cons. unfold write_u16_le. rewrite len_to_le. lia.
Qed.

Lemma write_units_bytes_ok us : bytes_ok (write_units us).
Proof.
  induction us as [|u us IH]; [constructor|]. apply bytes_ok_app.
  split; [apply to_le_bytes_ok|done].
Qed.

Lemma decode_units_encode_units s : str_ok s → decode_units (encode_units s) = s.
Proof.
  intros Hs. unfold decode_units, encode_units.
  rewrite <-(app_nil_r (write_units _)), le_units_write_units by by apply encode_utf16_u16.
  by rewrite app_nil_r, decode_encode_utf16.
Qed.

Lemma take_while_stop {A} (p : A → bool) l x k :
  Forall (λ y, p y = true) l → p x = false → take_while p (l ++ x :: k) = l.
Proof. induction 1 as [|y l Hy _ IH]; intros Hx; cbn; [by rewrite Hx|]. by rewrite Hy, IH. Qed.
Lemma take_while_all {A} (p : A → bool) l :
  Forall (λ y, p y = true) l → take_while p l = l.
Proof. induction 1 as [|y l Hy _ IH]; cbn; [done|]. by rewrite Hy, IH. Qed.

(** The length of a fixed field never depends on the string. *)
Lemma len_write_fixed s n : 0 ≤ n → len (write_fixed s n) = 2 * (n / 2).
Proof.
  intros Hn. unfold write_fixed. rewrite len_app, !len_write_units, len_replicate.
  assert (0 ≤ n / 2) by (Z.to_euclidean_division_equations; lia).
  set (u := ztake _ _). assert (len u ≤ n / 2); [|len_lia].
  unfold u, ztake, len. rewrite length_take. unfold saturating_sub. lia.
Qed.

Lemma encode_utf16_nonzero s :
  str_ok s → Forall (λ c, c ≠ 0) s → Forall (λ u, negb (u =? 0) = true) (encode_utf16 s).
Proof.
  induction 1 as [|c s Hc _ IH]; [constructor|]. rewrite Forall_cons. intros [Hc0 Hs].
  unfold encode_utf16 in *. cbn. apply Forall_app. split; [|auto].
  unfold utf16_char, scalar_ok in *. destruct (Z.ltb_spec c 0x10000).
  - repeat constructor. bool_lia. done.
  - repeat constructor; bool_lia; try done.
    all: rewrite (proj2 (Z.eqb_neq _ 0)); [done|Z.to_euclidean_division_equations; lia].
Qed.

(** A string without NUL whose UTF-16 form leaves room for the terminator is
    read back from the fixed field. *)
Lemma read_fixed_write_fixed s n l :
  str_ok s → Forall (λ c, c ≠ 0) s → 0 ≤ n → len (encode_utf16 s) < n / 2 →
  read_fixed (write_fixed s n ++ l) = s.
Proof.
  intros Hs Hnz Hn Hlen. unfold read_fixed, write_fixed.
  rewrite ztake_all by (unfold saturating_sub; lia).
  rewrite <-!app_assoc, le_units_write_units by by apply encode_utf16_u16.
  destruct (Z.to_nat (n / 2 - len (encode_utf16 s))) as [|k] eqn:Hk; [lia|].
  cbn [replicate]. change (write_units (0 :: ?us)) with (write_u16_le 0 ++ write_units us).
  rewrite <-!app_assoc, le_units_cons by done.
  rewrite take_while_stop; [by apply decode_encode_utf16|by apply encode_utf16_nonzero|done].
Qed.

Lemma from_utf8_lossy_ascii s : Forall (λ b, 0 ≤ b < 0x80) s → from_utf8_lossy s = s.
Proof. induction 1 as [|b s Hb _ IH]; [done|]. cbn [from_utf8_lossy]. bool_lia. by rewrite IH. Qed.

Lemma as_bytes_ascii s : Forall (λ b, 0 ≤ b < 0x80) s → as_bytes s = s.
Proof.
  induction 1 as [|b s Hb _ IH]; [done|]. unfold as_bytes in *. cbn. unfold utf8_char at 1.
  bool_lia. cbn. by rewrite IH.
Qed.
