(* ===== verification/Framing.v ===== *)
(** The outermost framing of every slow-path PDU: TPKT ([tpkt.rs]), the X.224
    TPDU header ([tpdu.rs]), and Connection Request / Confirm and Data TPDUs
    ([x224.rs]). *)
From S2P Require Import Prelude Cursor Utf.

(** ** TPKT *)

Definition TPKT_VERSION : Z := 3.
Definition TPKT_HEADER_SIZE : Z := 4.

Record TpktHeader := { packet_length : Z }.

Definition TpktHeader_write (h : TpktHeader) : bytes :=
  write_u8 TPKT_VERSION ++ write_u8 0 ++ write_u16_be (packet_length h).

Definition TpktHeader_decode : reader TpktHeader :=
  ensure TPKT_HEADER_SIZE ;;
  version ← read_u8;
  reject_if (negb (version =? TPKT_VERSION)) "tpkt.version" "unsupported TPKT version" ;;
  advance 1 ;;
  l ← read_u16_be;
  mret {| packet_length := l |}.

(** ** TPDU *)

(** [TpduCode(u8)]. *)
Definition CONNECTION_REQUEST : Z := 0xE0.
Definition CONNECTION_CONFIRM : Z := 0xD0.
Definition DATA : Z := 0xF0.

Definition header_fixed_part_size (code : Z) : Z := if code =? DATA then 3 else 7.

Record TpduHeader := { li : Z; code : Z }.

Definition TpduHeader_for_pdu (code : Z) (variable_part_len : Z) : TpduHeader :=
  {| li := as_u8 (header_fixed_part_size code - 1 + variable_part_len); code := code |}.

Definition variable_part_size (h : TpduHeader) : Z :=
  saturating_sub (li h + 1) (header_fixed_part_size (code h)).

Definition TpduHeader_write (h : TpduHeader) : bytes :=
  write_u8 (li h) ++ write_u8 (code h) ++
  (if code h =? DATA then write_u8 0x80
   else write_u16_be 0 ++ write_u16_be 0 ++ write_u8 0).

Definition TpduHeader_decode (expected : Z) : reader TpduHeader :=
  ensure 2 ;;
  li ← read_u8;
  code ← read_u8;
  reject_if (negb (code =? expected)) "tpdu.code" "unexpected TPDU code" ;;
  reject_if (li =? 0xFF) "tpdu.li" "0xFF is reserved for X.224 extensions, unsupported" ;;
  reject_if (li + 1 <? header_fixed_part_size code) "tpdu.li"
    "too small to hold this TPDU code's fixed header part" ;;
  ensure (header_fixed_part_size code - 2) ;;
  (if code =? DATA then advance 1 else advance 5) ;;
  mret {| li := li; code := code |}.

(** ** X.224 Connection Request / Confirm *)

Definition COOKIE_PREFIX : bytes := as_bytes (lit "Cookie: mstshash=").
Definition CRLF : Z := 0x0A0D.
Definition NEGO_REQUEST : Z := 0x01.
Definition NEGO_RESPONSE : Z := 0x02.
Definition NEGO_FAILURE : Z := 0x03.
Definition NEGO_BODY_SIZE : Z := 8.

(** [SecurityProtocol(u32)]. *)
Definition PROTOCOL_RDP : Z := 0.
Definition PROTOCOL_SSL : Z := 1.
Definition PROTOCOL_HYBRID : Z := 2.
Definition PROTOCOL_RDSTLS : Z := 4.
Definition PROTOCOL_HYBRID_EX : Z := 8.
Definition protocol_contains (p flag : Z) : bool := Z.land p flag =? flag.

(** [FailureCode(u32)]. *)
Definition SSL_REQUIRED_BY_SERVER : Z := 1.
Definition HYBRID_REQUIRED_BY_SERVER : Z := 5.

Record ConnectionRequest := {
  cr_cookie : option rstring; cr_flags : Z; cr_protocol : Z }.

Definition encode_x224 (code : Z) (body : bytes) : bytes :=
  let tpdu := TpduHeader_for_pdu code (len body) in
  let packet_length := TPKT_HEADER_SIZE + li tpdu + 1 in
  TpktHeader_write {| packet_length := as_u16 packet_length |}
  ++ TpduHeader_write tpdu ++ write_slice body.

Definition decode_x224_header (expected : Z) : reader (TpktHeader * TpduHeader) :=
  tpkt ← TpktHeader_decode;
  tpdu ← TpduHeader_decode expected;
  mret (tpkt, tpdu).

Definition ConnectionRequest_encode (r : ConnectionRequest) : bytes :=
  encode_x224 CONNECTION_REQUEST
    (match cr_cookie r with
     | Some cookie => write_slice COOKIE_PREFIX ++ write_slice (as_bytes cookie) ++ write_u16_le CRLF
     | None => []
     end
     ++ write_u8 NEGO_REQUEST ++ write_u8 (cr_flags r)
     ++ write_u16_le NEGO_BODY_SIZE ++ write_u32_le (cr_protocol r)).

(** [rest.windows(2).position(|w| w == [0x0D, 0x0A])]. *)
Fixpoint crlf_position (l : bytes) : option Z :=
  match l with
  | a :: (b :: _) as l1 =>
    if (a =? 0x0D) && (b =? 0x0A) then Some 0 else (λ i, 1 + i) <$> crlf_position l1
  | _ => None
  end.

Definition read_cookie : reader (option rstring) :=
  rem ← get_remaining;
  if rem <? len COOKIE_PREFIX + 2 then mret None else
  prefix ← peek_slice (len COOKIE_PREFIX);
  if bool_decide (prefix ≠ COOKIE_PREFIX) then mret None else
  advance (len COOKIE_PREFIX) ;;
  value_start ← get_pos;
  rem ← get_remaining;
  rest ← peek_slice rem;
  match crlf_position rest with
  | None => fail (NotEnough {| nb_needed := len rest + 1; nb_remaining := len rest |})
  | Some crlf_offset =>
    advance crlf_offset ;;
    value_end ← get_pos;
    advance 2 ;;
    raw ← slice_from_to value_start value_end;
    match from_utf8 raw with
    | None => invalid "x224.cookie" "not valid UTF-8"
    | Some value => mret (Some value)
    end
  end.

Definition ConnectionRequest_decode (input : bytes) : res DecodeError ConnectionRequest :=
  run ('(_, tpdu) ← decode_x224_header CONNECTION_REQUEST;
       ensure (variable_part_size tpdu) ;;
       cookie ← read_cookie;
       ty ← read_u8;
       reject_if (negb (ty =? NEGO_REQUEST)) "x224.nego_request.type"
         "expected RDP_NEG_REQ type byte" ;;
       flags ← read_u8;
       _ ← read_u16_le;
       protocol ← read_u32_le;
       mret {| cr_cookie := cookie; cr_flags := flags; cr_protocol := protocol |}) input.

Inductive ConnectionConfirm :=
  | ConfirmResponse (flags protocol : Z)
  | ConfirmFailure (code : Z).

Definition ConnectionConfirm_encode (c : ConnectionConfirm) : bytes :=
  encode_x224 CONNECTION_CONFIRM
    (match c with
     | ConfirmResponse flags protocol =>
       write_u8 NEGO_RESPONSE ++ write_u8 flags ++ write_u16_le NEGO_BODY_SIZE
       ++ write_u32_le protocol
     | ConfirmFailure code =>
       write_u8 NEGO_FAILURE ++ write_u8 0 ++ write_u16_le NEGO_BODY_SIZE ++ write_u32_le code
     end).

Definition ConnectionConfirm_decode (input : bytes) : res DecodeError ConnectionConfirm :=
  run ('(_, tpdu) ← decode_x224_header CONNECTION_CONFIRM;
       ensure (variable_part_size tpdu) ;;
       reject_if (variable_part_size tpdu <? NEGO_BODY_SIZE) "x224.connection_confirm"
         "missing RDP_NEG_RSP/RDP_NEG_FAILURE body" ;;
       ty ← read_u8;
       if ty =? NEGO_RESPONSE then
         flags ← read_u8; _ ← read_u16_le; protocol ← read_u32_le;
         mret (ConfirmResponse flags protocol)
       else if ty =? NEGO_FAILURE then
         _ ← read_u8; _ ← read_u16_le; code ← read_u32_le;
         mret (ConfirmFailure code)
       else invalid "x224.connection_confirm.type"
              "expected RDP_NEG_RSP or RDP_NEG_FAILURE type byte") input.

(** ** Data TPDUs *)

Definition wrap_data (payload : bytes) : bytes :=
  let tpdu := {| li := as_u8 (3 - 1); code := DATA |} in
  let packet_length := Z.min (TPKT_HEADER_SIZE + 3 + len payload) 65535 in
  TpktHeader_write {| packet_length := as_u16 packet_length |}
  ++ TpduHeader_write tpdu ++ write_slice payload.

Definition unwrap_data (input : bytes) : res DecodeError bytes :=
  run (_ ← decode_x224_header DATA; read_rest) input.

(** ** Every decoder returns on every input *)

Lemma TpktHeader_decode_safe : safe TpktHeader_decode (λ h, u16_ok (packet_length h)).
Proof. unfold TpktHeader_decode, TPKT_HEADER_SIZE. safe_steps. done. Qed.

(** What a decoded TPDU header satisfies: the fixed part fits [li]. *)
Definition TpduHeader_ok (h : TpduHeader) : Prop :=
  0 ≤ li h < 255 ∧ header_fixed_part_size (code h) ≤ li h + 1.

Lemma TpduHeader_decode_safe expected :
  safe (TpduHeader_decode expected) (λ h, TpduHeader_ok h ∧ code h = expected).
Proof.
  unfold TpduHeader_decode. safe_steps; unfold TpduHeader_ok; cbn;
    rewrite ?negb_false_iff, ?Z.eqb_eq, ?Z.eqb_neq, ?Z.ltb_ge in *; lia.
Qed.
#[export] Hint Resolve TpktHeader_decode_safe TpduHeader_decode_safe : safe.

Lemma decode_x224_header_safe expected :
  safe (decode_x224_header expected) (λ p, TpduHeader_ok p.2 ∧ code p.2 = expected).
Proof. unfold decode_x224_header. safe_steps. done. Qed.
#[export] Hint Resolve decode_x224_header_safe : safe.

Lemma crlf_position_bound l i : crlf_position l = Some i → 0 ≤ i ∧ i + 2 ≤ len l.
Proof.
  revert i; induction l as [|a [|b l] IH]; intros i; [done..|].
  cbn [crlf_position]. case_match.
  - intros [= <-]. rewrite !len_cons. pose proof (len_nonneg l). lia.
  - intros (j & Hj & ->)%fmap_Some. apply IH in Hj. rewrite len_cons. lia.
Qed.

Lemma read_cookie_safe : safe read_cookie (λ _, True).
Proof.
  unfold read_cookie. change (len COOKIE_PREFIX) with 17. safe_steps; try done.
  apply crlf_position_bound in Heqo. safe_steps; done.
Qed.
#[export] Hint Resolve read_cookie_safe : safe.

Lemma unwrap_data_no_panic input :
  bytes_ok input → len input < 2 ^ 63 → no_panic (unwrap_data input).
Proof.
  apply safe_run_no_panic with (Q := λ s, bytes_ok s). safe_steps. tauto.
Qed.

(** ** Round trips *)

Lemma TpktHeader_reads n l :
  u16_ok n → reads TpktHeader_decode (TpktHeader_write {| packet_length := n |} ++ l)
                   {| packet_length := n |} l.
Proof.
  intros Hn. unfold TpktHeader_decode, TpktHeader_write. cbn [packet_length].
  rewrite <-!app_assoc.
  eapply reads_bind; [apply ensure_reads; unfold TPKT_HEADER_SIZE; len_lia|].
  reads_step. reads_step.
  eapply reads_bind; [by apply (advance_reads 1 [0])|]. reads_steps. done.
Qed.

Lemma TpduHeader_reads h expected l :
  TpduHeader_ok h → code h = expected →
  reads (TpduHeader_decode expected) (TpduHeader_write h ++ l) h l.
Proof.
  intros [Hli Hfix] Hc. unfold TpduHeader_decode, TpduHeader_write.
  rewrite <-!app_assoc.
  eapply reads_bind; [apply ensure_reads; len_lia|].
  reads_step. reads_step.
  eapply reads_bind; [apply reject_if_reads; rewrite Hc, Z.eqb_refl; done|].
  eapply reads_bind; [apply reject_if_reads; apply Z.eqb_neq; lia|].
  eapply reads_bind; [apply reject_if_reads; apply Z.ltb_ge; lia|].
  unfold header_fixed_part_size. destruct (code h =? DATA) eqn:Hd; rewrite ?Hd.
  - eapply reads_bind; [apply ensure_reads; len_lia|].
    eapply reads_bind; [by apply (advance_reads 1 [0x80])|].
    apply reads_ret_eq. by destruct h.
  - rewrite <-!app_assoc.
    eapply reads_bind; [apply ensure_reads; len_lia|].
    eapply reads_bind; [by apply (advance_reads 5 [0; 0; 0; 0; 0])|].
    apply reads_ret_eq. by destruct h.
Qed.

(** The header [for_pdu] builds, for a body that fits the length indicator. *)
Lemma for_pdu_ok code n :
  0 ≤ n ≤ 254 - 6 → TpduHeader_ok (TpduHeader_for_pdu code n)
  ∧ li (TpduHeader_for_pdu code n) = header_fixed_part_size code - 1 + n
  ∧ variable_part_size (TpduHeader_for_pdu code n) = n.
Proof.
  intros Hn. unfold TpduHeader_ok, variable_part_size, saturating_sub. cbn.
  unfold header_fixed_part_size. destruct (code =? DATA); rewrite as_u8_id by lia; lia.
Qed.

Lemma decode_x224_header_reads (pkt : Z) h l :
  u16_ok pkt → TpduHeader_ok h →
  reads (decode_x224_header (code h))
    (TpktHeader_write {| packet_length := pkt |} ++ TpduHeader_write h ++ l)
    ({| packet_length := pkt |}, h) l.
Proof.
  intros Hp Hh. unfold decode_x224_header.
  eapply reads_bind; [by apply TpktHeader_reads|].
  eapply reads_bind; [by apply TpduHeader_reads|]. by apply reads_ret_eq.
Qed.

(** The length field written by [encode_x224] is the length of the packet. *)
Lemma len_encode_x224 c body :
  len body ≤ 248 → c ≠ DATA →
  len (encode_x224 c body) = TPKT_HEADER_SIZE + li (TpduHeader_for_pdu c (len body)) + 1.
Proof.
  intros Hb Hc. pose proof (len_nonneg body).
  destruct (for_pdu_ok c (len body)) as (_ & Hli & _); [lia|]. rewrite Hli.
  unfold encode_x224, TpktHeader_write, TpduHeader_write. cbn [code TpduHeader_for_pdu].
  unfold header_fixed_part_size, TPKT_HEADER_SIZE.
  rewrite (proj2 (Z.eqb_neq c DATA)) by done. len_lia.
Qed.

Lemma encode_x224_reads c body l :
  len body ≤ 248 →
  reads (decode_x224_header c) (encode_x224 c body ++ l)
    ({| packet_length := TPKT_HEADER_SIZE + li (TpduHeader_for_pdu c (len body)) + 1 |},
     TpduHeader_for_pdu c (len body)) (body ++ l).
Proof.
  intros Hb. pose proof (len_nonneg body).
  destruct (for_pdu_ok c (len body)) as (Hok & Hli & _); [lia|].
  unfold encode_x224, write_slice. rewrite <-!app_assoc.
  assert (0 ≤ TPKT_HEADER_SIZE + li (TpduHeader_for_pdu c (len body)) + 1 < 2 ^ 16) as Hr.
  { destruct Hok. unfold TPKT_HEADER_SIZE. lia. }
  rewrite as_u16_id by done.
  by apply (decode_x224_header_reads _ (TpduHeader_for_pdu c (len body))).
Qed.

Lemma crlf_position_cons2 a b l :
  crlf_position (a :: b :: l) =
    if (a =? 0x0D) && (b =? 0x0A) then Some 0 else (λ i, 1 + i) <$> crlf_position (b :: l).
Proof. done. Qed.

Lemma crlf_position_app v l :
  crlf_position (v ++ [0x0D]) = None → crlf_position (v ++ 0x0D :: 0x0A :: l) = Some (len v).
Proof.
  induction v as [|a v IH]; [done|]. destruct v as [|b v]; cbn [app] in *.
  - intros _. rewrite crlf_position_cons2, andb_false_r. done.
  - rewrite !crlf_position_cons2. destruct ((a =? 13) && (b =? 10)); [done|].
    intros H%fmap_None. rewrite IH by done. cbn [fmap option_fmap option_map].
    rewrite !len_cons. done.
Qed.

(** The cookie value: the bytes between the prefix and the first CRLF. *)
Lemma read_cookie_value v l s c :
  crlf_position (v ++ [0x0D]) = None → from_utf8 v = Some s →
  cursor_ok c → rest c = v ++ 0x0D :: 0x0A :: l →
  ∃ c', (value_start ← get_pos;
         rem ← get_remaining;
         rest ← peek_slice rem;
         match crlf_position rest with
         | None => fail (NotEnough {| nb_needed := len rest + 1; nb_remaining := len rest |})
         | Some crlf_offset =>
           advance crlf_offset ;;
           value_end ← get_pos;
           advance 2 ;;
           raw ← slice_from_to value_start value_end;
           match from_utf8 raw with
           | None => invalid "x224.cookie" "not valid UTF-8"
           | Some value => mret (Some value)
           end
         end) c = Ok (Some s, c') ∧ cursor_ok c' ∧ rest c' = l ∧ buf c' = buf c.
Proof.
  intros Hcr Hv Hc Hr.
  assert (Hlen : remaining c = len v + 2 + len l) by (rewrite <-rest_len, Hr by done; len_lia).
  pose proof (len_nonneg v); pose proof (len_nonneg l).
  unfold mbind, reader_bind, get_pos, get_remaining.
  destruct (peek_slice_reads (remaining c) (rest c) [] ltac:(by rewrite rest_len) c Hc)
    as (c0 & E0 & _ & _ & _); [by rewrite app_nil_r|].
  assert (c0 = c) as ->.
  { revert E0. unfold peek_slice, mbind, reader_bind, ensure. case_decide; [done|].
    unfold at_cursor. case_match; [|done..]. by intros [= _ ->]. }
  rewrite E0, Hr, crlf_position_app by done.
  rewrite advance_eq by (done || lia).
  destruct (set_pos_ok c (len v) Hc) as [Hc1 Hr1]; [lia|].
  rewrite advance_eq by (done || unfold remaining in *; cbn; lia).
  destruct (set_pos_ok _ 2 Hc1) as [Hc2 Hr2]; [unfold remaining in *; cbn; lia|].
  unfold slice_from_to. cbn [pos buf set_pos] in *.
  rewrite slice_rest, Hr, ztake_app_len, Hv by (done || lia).
  eexists. split_and!; [done|done| |done].
  rewrite Hr2, Hr1, Hr, zdrop_app_len by done. done.
Qed.

Lemma read_cookie_reads v s l :
  crlf_position (v ++ [0x0D]) = None → from_utf8 v = Some s →
  reads read_cookie (COOKIE_PREFIX ++ v ++ write_u16_le CRLF ++ l) (Some s) l.
Proof.
  intros Hcr Hv. unfold read_cookie. change (len COOKIE_PREFIX) with 17.
  assert (len COOKIE_PREFIX = 17) as HP by done.
  reads_step. rewrite (proj2 (Z.ltb_ge _ _)) by len_lia.
  eapply reads_bind; [by apply (peek_slice_reads _ COOKIE_PREFIX)|]. cbn beta.
  rewrite bool_decide_eq_false_2 by naive_solver.
  eapply reads_bind; [by apply (advance_reads _ COOKIE_PREFIX)|]. cbn beta.
  intros c Hc Hr. by apply (read_cookie_value v).
Qed.

Lemma read_cookie_absent l : len l < 19 → reads read_cookie l None l.
Proof.
  intros Hl. unfold read_cookie. change (len COOKIE_PREFIX) with 17.
  reads_step. rewrite (proj2 (Z.ltb_lt _ _)) by lia. by apply reads_ret_eq.
Qed.

(** ** The packets of the connection phase *)

(** What [ConnectionRequest] can carry: the fields are in range and a cookie is
    a string without CRLF that leaves room for the 254-byte length indicator. *)
Definition ConnectionRequest_ok (r : ConnectionRequest) : Prop :=
  u8_ok (cr_flags r) ∧ u32_ok (cr_protocol r) ∧
  match cr_cookie r with
  | Some s => str_ok s ∧ crlf_position (as_bytes s ++ [0x0D]) = None ∧ len (as_bytes s) ≤ 221
  | None => True
  end.

Definition ConnectionConfirm_ok (c : ConnectionConfirm) : Prop :=
  match c with
  | ConfirmResponse flags protocol => u8_ok flags ∧ u32_ok protocol
  | ConfirmFailure code => u32_ok code
  end.

(** A run of [encode_x224]: the header is consumed, then the body. *)
Lemma run_x224 {A} c body (k : TpktHeader * TpduHeader → reader A) a l' :
  len body ≤ 248 →
  (∀ pkt h, variable_part_size h = len body → reads (k (pkt, h)) body a l') →
  run (decode_x224_header c ≫= k) (encode_x224 c body) = Ok a.
Proof.
  intros Hb Hk. pose proof (len_nonneg body).
  destruct (for_pdu_ok c (len body)) as (Hok & Hli & Hv); [lia|].
  apply (reads_run _ _ _ l').
  - unfold encode_x224, TpktHeader_write, TpduHeader_write.
    destruct (code _ =? DATA); autorewrite with len; lia.
  - rewrite <-(app_nil_r (encode_x224 c body)).
    eapply reads_bind; [by apply encode_x224_reads|]. rewrite app_nil_r. by apply Hk.
Qed.

(** The TPKT length field of a connection packet counts exactly its bytes. *)
Lemma x224_packet_length c body :
  len body ≤ 248 → c ≠ DATA →
  (packet_length <$> run TpktHeader_decode (encode_x224 c body)) = Ok (len (encode_x224 c body)).
Proof.
  intros Hb Hc. pose proof (len_nonneg body) as H0. rewrite len_encode_x224 by done.
  destruct (for_pdu_ok c (len body)) as ([Hok _] & _ & _); [lia|].
  unfold encode_x224. unfold TPKT_HEADER_SIZE. rewrite as_u16_id by lia.
  eassert (run TpktHeader_decode _
           = Ok {| packet_length := 4 + li (TpduHeader_for_pdu c (len body)) + 1 |}) as ->; [|done].
  eapply reads_run; [|apply TpktHeader_reads; lia].
  unfold TpktHeader_write, TpduHeader_write. destruct (code _ =? DATA); autorewrite with len; lia.
Qed.

Lemma ConnectionRequest_decode_encode r :
  ConnectionRequest_ok r → ConnectionRequest_decode (ConnectionRequest_encode r) = Ok r.
Proof.
  intros (Hf & Hp & Hc). unfold ConnectionRequest_decode, ConnectionRequest_encode.
  assert (len COOKIE_PREFIX = 17) as HP by done.
  destruct r as [[s|] flags protocol]; cbn [cr_flags cr_protocol cr_cookie] in *;
    try destruct Hc as (Hs & Hcr & Hlen);
    (eapply run_x224; [len_lia|]); intros pkt h ->; cbn beta iota;
    (eapply reads_bind; [apply ensure_reads; lia|]).
  - unfold write_slice. rewrite <-!app_assoc.
    eapply reads_bind; [apply read_cookie_reads; [done|by apply from_utf8_as_bytes]|].
    rewrite <-(app_nil_r (write_u32_le _)). reads_steps. done.
  - cbn [app]. eapply reads_bind; [apply read_cookie_absent; len_lia|].
    rewrite <-(app_nil_r (write_u32_le _)). reads_steps. done.
Qed.

(** Connection Request (MS-RDPBCGR 2.2.1.1): the server decodes exactly the
    request a client encoded, cookie, flags and protocols, and the TPKT length
    field counts exactly the bytes of the packet. *)
Theorem connection_request_roundtrip (r : ConnectionRequest) :
  ConnectionRequest_ok r →
  ConnectionRequest_decode (ConnectionRequest_encode r) = Ok r
  ∧ (packet_length <$> run TpktHeader_decode (ConnectionRequest_encode r))
    = Ok (len (ConnectionRequest_encode r)).
Proof.
  intros Hr. split; [by apply ConnectionRequest_decode_encode|]. destruct Hr as (_ & _ & Hc).
  unfold ConnectionRequest_encode. assert (len COOKIE_PREFIX = 17) as HP by done.
  apply x224_packet_length; [|done].
  destruct r as [[s|] flags protocol]; cbn [cr_flags cr_protocol cr_cookie] in *; len_lia.
Qed.

Definition sample_request : ConnectionRequest :=
  {| cr_cookie := Some (lit "alice"); cr_flags := 0; cr_protocol := 3 |}.

Lemma connection_request_roundtrip_witness :
  ConnectionRequest_ok sample_request
  ∧ ConnectionRequest_decode (ConnectionRequest_encode sample_request) = Ok sample_request.
Proof.
  assert (H : ConnectionRequest_ok sample_request).
  { split_and!; [done..|]. split_and!; [|done..]. repeat constructor; unfold scalar_ok; cbn; lia. }
  split; [exact H|]. exact (proj1 (connection_request_roundtrip _ H)).
Defined.

Lemma connection_confirm_roundtrip (c : ConnectionConfirm) :
  ConnectionConfirm_ok c → ConnectionConfirm_decode (ConnectionConfirm_encode c) = Ok c.
Proof.
  intros Hc. unfold ConnectionConfirm_decode, ConnectionConfirm_encode.
  destruct c as [flags protocol|code]; cbn [ConnectionConfirm_ok] in Hc;
    try destruct Hc as [Hf Hp];
    (eapply run_x224; [len_lia|]); intros pkt h Hv; cbn beta iota;
    (eapply reads_bind; [apply ensure_reads; lia|]); cbn beta; rewrite Hv;
    (eapply reads_bind;
      [apply reject_if_reads; autorewrite with len; done|]); cbn beta;
    rewrite <-(app_nil_r (write_u32_le _)); reads_step; cbn [Z.eqb NEGO_RESPONSE NEGO_FAILURE Pos.eqb];
    reads_steps; done.
Qed.

Lemma ConnectionRequest_decode_no_panic input :
  bytes_ok input → len input < 2 ^ 63 → no_panic (ConnectionRequest_decode input).
Proof. apply safe_run_no_panic with (Q := λ _, True). safe_steps; done. Qed.

Lemma ConnectionConfirm_decode_no_panic input :
  bytes_ok input → len input < 2 ^ 63 → no_panic (ConnectionConfirm_decode input).
Proof. apply safe_run_no_panic with (Q := λ _, True). safe_steps; done. Qed.

Lemma len_wrap_data payload : len (wrap_data payload) = 7 + len payload.
Proof.
  unfold wrap_data, TpktHeader_write, TpduHeader_write, write_slice. cbn [code li].
  rewrite Z.eqb_refl. autorewrite with len. lia.
Qed.

Lemma wrap_data_header_reads payload :
  len payload < 2 ^ 62 →
  reads (decode_x224_header DATA) (wrap_data payload)
    ({| packet_length := Z.min (7 + len payload) 65535 |}, {| li := 2; code := DATA |}) payload.
Proof.
  intros Hlen. pose proof (len_nonneg payload). unfold wrap_data, write_slice.
  unfold TPKT_HEADER_SIZE. replace (4 + 3 + len payload) with (7 + len payload) by lia.
  rewrite as_u16_id by lia. change (as_u8 (3 - 1)) with 2.
  rewrite <-(app_nil_r payload) at 2 4.
  apply (decode_x224_header_reads _ {| li := 2; code := DATA |}); [lia|].
  unfold TpduHeader_ok; cbn; lia.
Qed.

Lemma unwrap_wrap_data payload : len payload < 2 ^ 62 → unwrap_data (wrap_data payload) = Ok payload.
Proof.
  intros Hlen. unfold unwrap_data. eapply reads_run; [rewrite len_wrap_data; lia|].
  eapply reads_bind; [by apply wrap_data_header_reads|]. apply read_rest_reads.
Qed.

(** X.224 Data TPDUs: for any payload, of any length, [unwrap_data] returns
    the payload [wrap_data] framed; the length indicator is 2, and the 16-bit
    TPKT length is the packet's length when it fits and 65535 otherwise. *)
Theorem wrap_data_roundtrip (payload : bytes) :
  len payload < 2 ^ 62 →
  unwrap_data (wrap_data payload) = Ok payload
  ∧ run (decode_x224_header DATA) (wrap_data payload)
    = Ok ({| packet_length := Z.min (len (wrap_data payload)) 65535 |},
          {| li := 2; code := DATA |}).
Proof.
  intros Hlen. split; [by apply unwrap_wrap_data|].
  eapply reads_run; rewrite len_wrap_data; [lia|by apply wrap_data_header_reads].
Qed.

Lemma wrap_data_roundtrip_witness :
  len [1; 2; 3] < 2 ^ 62 ∧ unwrap_data (wrap_data [1; 2; 3]) = Ok [1; 2; 3].
Proof.
  assert (H : len [1; 2; 3] < 2 ^ 62) by done.
  split; [exact H|]. exact (proj1 (wrap_data_roundtrip _ H)).
Defined.
