(* ===== verification/Per.v ===== *)
(** [rdpcore-pdu/src/per.rs]: the PER subset of T.125/T.124 used by every MCS
    domain PDU and by GCC's wrapper. *)
From S2P Require Import Prelude Cursor Utf.

(** ** Operations *)

Definition write_length (length : Z) : bytes :=
  if length <=? 0x7F then write_u8 (as_u8 length)
  else write_u16_be (Z.lor (as_u16 length) 0x8000).

Definition read_length : reader Z :=
  s ← peek_slice 1;
  first ← lift_res (index s 0);
  if Z.land first 0x80 =? 0 then read_u8
  else v ← read_u16_be; mret (Z.land v 0x7FFF).

Definition write_choice (choice : Z) : bytes := write_u8 choice.
Definition read_choice : reader Z := read_u8.
Definition write_selection (selection : Z) : bytes := write_u8 selection.
Definition read_selection : reader Z := read_u8.
Definition write_number_of_sets (count : Z) : bytes := write_u8 count.
Definition read_number_of_sets : reader Z := read_u8.
Definition write_enum (value : Z) : bytes := write_u8 value.
Definition read_enum : reader Z := read_u8.

Definition write_u32 (value : Z) : bytes :=
  if value <=? 0xFF then write_length 1 ++ write_u8 (as_u8 value)
  else if value <=? 0xFFFF then write_length 2 ++ write_u16_be (as_u16 value)
  else write_length 4 ++ write_u16_be (as_u16 (Z.shiftr value 16)) ++ write_u16_be (as_u16 value).

Definition read_u32 : reader Z :=
  length ← read_length;
  s ← read_slice length;
  mret (foldl (λ value b, Z.lor (as_u32 (Z.shiftl value 8)) b) 0 s).

Definition write_u16 (value min : Z) : bytes := write_u16_be (as_u16 (value - min)).
Definition read_u16 (min : Z) : reader Z := v ← read_u16_be; mret (as_u16 (v + min)).

(** [id : [u8; 6]] as a list; the index panics cannot happen on six elements. *)
Definition write_object_id (id : bytes) : bytes :=
  write_u8 5 ++ write_u8 (as_u8 (id !!! 0%nat * 40 + id !!! 1%nat))
  ++ write_slice (take 4 (drop 2 id)).
Definition read_object_id : reader bytes :=
  length ← read_u8;
  reject_if (negb (length =? 5)) "per.object_id" "expected a 5-byte packed OID body" ;;
  packed ← read_u8;
  rest ← read_slice 4;
  r0 ← lift_res (index rest 0); r1 ← lift_res (index rest 1);
  r2 ← lift_res (index rest 2); r3 ← lift_res (index rest 3);
  mret [packed / 40; packed mod 40; r0; r1; r2; r3].

Definition write_octet_string (s : bytes) (min : Z) : bytes :=
  write_length (saturating_sub (len s) min) ++ write_slice s.
Definition read_octet_string (min : Z) : reader bytes :=
  excess ← read_length;
  read_slice (excess + min).

Definition write_padding (n : nat) : bytes := replicate n 0.
Definition read_padding (n : Z) : reader unit := ensure n ;; advance n.

(** [b'0'] is 48; [value] is given by its bytes, [value.bytes()]. *)
Definition write_numeric_string (value : bytes) (min : Z) : bytes :=
  let digits := (λ c, as_u8 (c - 48) mod 10) <$> value in
  write_length (saturating_sub (len value) min)
  ++ (chunks 2 digits ≫= λ pair,
        write_u8 (Z.lor (as_u8 (Z.shiftl (pair !!! 0%nat) 4)) (default 0 (pair !! 1%nat)))).
(** The loop of [read_numeric_string]: two characters per byte, as long as
    digits are still due; [i] is the byte's index. *)
Fixpoint numeric_chars (digit_count i : Z) (l : bytes) : rstring :=
  match l with
  | [] => []
  | b :: l =>
    (if i * 2 <? digit_count then [48 + Z.shiftr b 4] else [])
    ++ (if i * 2 + 1 <? digit_count then [48 + Z.land b 0x0F] else [])
    ++ numeric_chars digit_count (i + 1) l
  end.
Definition read_numeric_string (min : Z) : reader rstring :=
  excess ← read_length;
  let digit_count := excess + min in
  s ← read_slice (div_ceil digit_count 2);
  mret (numeric_chars digit_count 0 s).

(** ** Safety *)

Lemma index_safe s i n : len s = n → 0 ≤ i < n → bytes_ok s → safe (lift_res (index s i)) (λ b, u8_ok b).
Proof.
  intros Hs Hi Hok. apply safe_lift_res.
  destruct (index_in s i) as (b & -> & Hb); [lia|]. by eapply bytes_ok_lookup.
Qed.
#[export] Hint Extern 2 (safe (lift_res (index _ _)) _) =>
  (eapply index_safe; [solve [intuition eauto]|lia|solve [intuition eauto]]) : safe.

Lemma land_bound_r a b : 0 ≤ b → 0 ≤ Z.land a b ≤ b.
Proof.
  intros Hb. split; [by apply Z.land_nonneg; right|].
  destruct (decide (b = 0)) as [->|]; [by rewrite Z.land_0_r|].
  apply Z.ldiff_le; [done|]. apply Z.bits_inj'. intros i Hi.
  rewrite Z.ldiff_spec, Z.land_spec, Z.bits_0. by destruct (Z.testbit a i), (Z.testbit b i).
Qed.

Lemma per_read_length_safe : safe read_length (λ n, 0 ≤ n < 2 ^ 15).
Proof.
  unfold read_length. safe_steps.
  - cbn in *; lia.
  - pose proof (land_bound_r a1 0x7FFF ltac:(lia)). lia.
Qed.
#[export] Hint Resolve per_read_length_safe : safe.

Lemma read_choice_safe : safe read_choice (λ v, u8_ok v).
Proof. apply read_u8_safe. Qed.
Lemma read_selection_safe : safe read_selection (λ v, u8_ok v).
Proof. apply read_u8_safe. Qed.
Lemma read_number_of_sets_safe : safe read_number_of_sets (λ v, u8_ok v).
Proof. apply read_u8_safe. Qed.
Lemma read_enum_safe : safe read_enum (λ v, u8_ok v).
Proof. apply read_u8_safe. Qed.

Lemma lor_bound a b k : 0 ≤ k → 0 ≤ a < 2 ^ k → 0 ≤ b < 2 ^ k → 0 ≤ Z.lor a b < 2 ^ k.
Proof.
  intros Hk Ha Hb. rewrite <-(Z.mod_small a (2 ^ k)), <-(Z.mod_small b (2 ^ k)) by done.
  rewrite <-!Z.land_ones, <-Z.land_lor_distr_l, Z.land_ones by done.
  apply Z.mod_pos_bound. lia.
Qed.

Lemma foldl_u32_ok s v : bytes_ok s → u32_ok v →
  u32_ok (foldl (λ value b, Z.lor (as_u32 (Z.shiftl value 8)) b) v s).
Proof.
  intros Hs. revert v. induction Hs as [|b s Hb _ IH]; intros v Hv; [done|].
  cbn [foldl]. apply IH. apply lor_bound; [lia|apply as_u32_ok|].
  unfold byte_ok in Hb. lia.
Qed.

Lemma read_u32_safe : safe read_u32 (λ v, u32_ok v).
Proof. unfold read_u32. safe_steps. apply foldl_u32_ok; [tauto|lia]. Qed.
Lemma read_u16_safe min : safe (read_u16 min) (λ v, u16_ok v).
Proof. unfold read_u16. safe_steps. apply as_u16_ok. Qed.
Lemma read_object_id_safe : safe read_object_id (λ id, length id = 6%nat).
Proof. unfold read_object_id. safe_steps. done. Qed.
Lemma per_read_octet_string_safe min :
  0 ≤ min → safe (read_octet_string min) (λ s, bytes_ok s ∧ min ≤ len s < 2 ^ 15 + min).
Proof. intros Hm. unfold read_octet_string. safe_steps. split; [tauto|lia]. Qed.
Lemma read_padding_safe n : 0 ≤ n → safe (read_padding n) (λ _, True).
Proof. intros Hn. unfold read_padding. safe_steps. Qed.
Lemma read_numeric_string_safe min :
  0 ≤ min → safe (read_numeric_string min) (λ _, True).
Proof.
  intros Hm. unfold read_numeric_string. safe_step.
  assert (0 ≤ div_ceil (a + min) 2) by (unfold div_ceil; Z.to_euclidean_division_equations; lia).
  safe_steps. done.
Qed.
#[export] Hint Resolve read_choice_safe read_selection_safe read_number_of_sets_safe
  read_enum_safe read_u32_safe read_u16_safe read_object_id_safe : safe.
#[export] Hint Extern 2 (safe (read_octet_string _) _) => apply per_read_octet_string_safe; lia : safe.
#[export] Hint Extern 2 (safe (read_padding _) _) => apply read_padding_safe; lia : safe.
#[export] Hint Extern 2 (safe (read_numeric_string _) _) =>
  apply read_numeric_string_safe; lia : safe.

(** ** Round trips *)

Lemma u8_high_bit : ∀ b, u8_ok b → Bool.eqb (Z.land b 0x80 =? 0) (b <? 128) = true.
Proof. apply u8_forall. by vm_compute. Qed.

Lemma to_be_2 v : u16_ok v → to_be 2 v = [v / 256; v mod 256].
Proof.
  intros Hv. unfold to_be. cbn [to_le]. rewrite (Z.mod_small (v / 256)); [done|].
  Z.to_euclidean_division_equations; lia.
Qed.

Lemma per_read_length_reads n l :
  0 ≤ n < 2 ^ 15 → reads read_length (write_length n ++ l) n l.
Proof.
  intros Hn. unfold read_length, write_length. destruct (Z.leb_spec n 0x7F).
  - rewrite as_u8_id by lia.
    eapply reads_bind; [by apply (peek_slice_reads 1 [n])|]. cbn beta.
    eapply reads_bind; [apply reads_ret|]. cbn beta.
    pose proof (u8_high_bit n ltac:(lia)) as E%eqb_prop.
    rewrite E, (proj2 (Z.ltb_lt _ _)) by lia. apply read_u8_write.
  - change 0x8000 with (2 ^ 15). rewrite as_u16_id, (lor_pow2_add n 15) by lia.
    unfold write_u16_be. rewrite to_be_2 by lia.
    eapply reads_bind; [by apply (peek_slice_reads 1 [(n + 2 ^ 15) / 256])|]. cbn beta.
    eapply reads_bind; [apply reads_ret|]. cbn beta.
    pose proof (u8_high_bit ((n + 2 ^ 15) / 256)) as E.
    assert (128 ≤ (n + 2 ^ 15) / 256 < 2 ^ 8) by (Z.to_euclidean_division_equations; lia).
    apply eqb_prop in E; [|lia]. rewrite E, (proj2 (Z.ltb_ge _ _)) by lia.
    match goal with |- reads ?m _ ?a ?l' =>
      change (reads m ([(n + 2 ^ 15) / 256; (n + 2 ^ 15) mod 256] ++ l) a l') end.
    rewrite <-to_be_2 by lia.
    eapply reads_bind; [apply read_u16_be_write; lia|]. apply reads_ret_eq.
    change 0x7FFF with (2 ^ 15 - 1). rewrite land_ones_mod by lia.
    Z.to_euclidean_division_equations; lia.
Qed.
#[export] Hint Extern 1 (reads read_length _ _ _) => (apply per_read_length_reads; lia) : reads.

Lemma per_len_write_length n : len (write_length n) = if n <=? 0x7F then 1 else 2.
Proof. unfold write_length. by destruct (n <=? 0x7F). Qed.

Lemma read_choice_reads v l : reads read_choice (write_choice v ++ l) v l.
Proof. apply read_u8_write. Qed.
Lemma read_selection_reads v l : reads read_selection (write_selection v ++ l) v l.
Proof. apply read_u8_write. Qed.
Lemma read_number_of_sets_reads v l : reads read_number_of_sets (write_number_of_sets v ++ l) v l.
Proof. apply read_u8_write. Qed.
Lemma read_enum_reads v l : reads read_enum (write_enum v ++ l) v l.
Proof. apply read_u8_write. Qed.

Lemma read_u16_reads v min l :
  u16_ok v → u16_ok min → reads (read_u16 min) (write_u16 v min ++ l) v l.
Proof.
  intros Hv Hm. unfold read_u16, write_u16.
  eapply reads_bind; [apply read_u16_be_write, as_u16_ok|].
  apply reads_ret_eq. cast_lia.
Qed.

(** Big-endian accumulation in a [k]-bit register, as [read_u32] and BER's
    [read_integer] do it: the value, when it fits. *)
Lemma from_be_cons b s : from_be (b :: s) = b * 2 ^ (8 * len s) + from_be s.
Proof.
  unfold from_be. rewrite reverse_cons.
  assert (∀ k, from_le (k ++ [b]) = from_le k + 2 ^ (8 * len k) * b) as E.
  { induction k as [|x k IHk]; cbn [app from_le].
    - rewrite (@len_nil Z). change (2 ^ (8 * 0)) with 1. lia.
    - rewrite IHk, len_cons. replace (8 * (1 + len k)) with (8 + 8 * len k) by lia.
      rewrite Z.pow_add_r by (pose proof (len_nonneg k); lia). change (2 ^ 8) with 256. lia. }
  rewrite E. unfold len. rewrite length_reverse. lia.
Qed.
Lemma from_be_nonneg s : bytes_ok s → 0 ≤ from_be s.
Proof.
  intros Hs. unfold from_be. destruct (from_le_bound (reverse s)); [by apply Forall_reverse|done].
Qed.
Lemma foldl_be k s v :
  0 ≤ k → bytes_ok s → 0 ≤ v → v * 2 ^ (8 * len s) + from_be s < 2 ^ k →
  foldl (λ value b, Z.lor (Z.shiftl value 8 mod 2 ^ k) b) v s = v * 2 ^ (8 * len s) + from_be s.
Proof.
  intros Hk Hs. revert v. induction Hs as [|b s Hb Hs IH]; intros v Hv Hall.
  - cbn [foldl]. change (from_be []) with 0. rewrite (@len_nil Z). change (2 ^ (8 * 0)) with 1. lia.
  - cbn [foldl]. pose proof (len_nonneg s). pose proof (from_be_nonneg s Hs).
    rewrite from_be_cons, len_cons in *.
    replace (8 * (1 + len s)) with (8 + 8 * len s) in * by lia.
    rewrite Z.pow_add_r in * by lia.
    unfold byte_ok in Hb.
    assert (1 ≤ 2 ^ (8 * len s)) by (apply Z.lt_pred_le; cbn; apply Z.pow_pos_nonneg; lia).
    assert (Hl : Z.lor (Z.shiftl v 8 mod 2 ^ k) b = v * 256 + b).
    { rewrite Z.mod_small; [by rewrite lor_shiftl_add by lia|].
      rewrite Z.shiftl_mul_pow2 by lia. change (2 ^ 8) with 256 in *. nia. }
    rewrite Hl, IH; change (2 ^ 8) with 256 in *; nia.
Qed.

Lemma read_u32_chunk n s v l :
  n = len s → bytes_ok s → 0 < len s ≤ 4 → from_be s = v → v < 2 ^ 32 →
  reads read_u32 (write_length n ++ s ++ l) v l.
Proof.
  intros -> Hs Hlen <- Hv. unfold read_u32.
  eapply reads_bind; [apply per_read_length_reads; lia|]. cbn beta.
  eapply reads_bind; [by apply read_slice_reads|]. apply reads_ret_eq.
  etransitivity; [apply (foldl_be 32)|]; done || lia.
Qed.

Lemma from_be_2 v : u16_ok v → from_be (to_be 2 v) = v.
Proof. intros. rewrite from_to_be. by apply Z.mod_small. Qed.

Lemma read_u32_reads v l : u32_ok v → reads read_u32 (write_u32 v ++ l) v l.
Proof.
  intros Hv. unfold write_u32.
  destruct (Z.leb_spec v 0xFF); [|destruct (Z.leb_spec v 0xFFFF)]; rewrite <-!app_assoc.
  - rewrite as_u8_id by lia.
    apply read_u32_chunk; [done|by apply bytes_ok_cons; split; [lia|apply bytes_ok_nil]|len_lia| |lia].
    change (v + 256 * 0 = v). lia.
  - rewrite as_u16_id by lia. unfold write_u16_be.
    apply read_u32_chunk; [done|apply to_be_bytes_ok|len_lia|apply from_be_2; lia|lia].
  - rewrite app_assoc with (l := write_u16_be _).
    rewrite Z.shiftr_div_pow2 by lia.
    assert (u16_ok (v / 2 ^ 16)) by (Z.to_euclidean_division_equations; lia).
    rewrite (as_u16_id (v / 2 ^ 16)) by done. unfold write_u16_be.
    rewrite to_be_2 by done. rewrite to_be_2 by apply as_u16_ok.
    assert (u16_ok (as_u16 v)) by apply as_u16_ok.
    apply read_u32_chunk; [done| |cbn [app]; len_lia| |lia].
    + cbn [app]. rewrite !bytes_ok_cons. split_and!; try apply bytes_ok_nil;
        Z.to_euclidean_division_equations; lia.
    + change (as_u16 v mod 256 + 256 * (as_u16 v / 256
        + 256 * ((v / 2 ^ 16) mod 256 + 256 * (v / 2 ^ 16 / 256 + 256 * 0))) = v).
      unfold as_u16. Z.to_euclidean_division_equations; lia.
Qed.

Lemma per_read_octet_string_reads s min l :
  0 ≤ min ≤ len s → len s - min < 2 ^ 15 →
  reads (read_octet_string min) (write_octet_string s min ++ l) s l.
Proof.
  intros Hmin Hlen. unfold read_octet_string, write_octet_string, write_slice.
  rewrite <-app_assoc. unfold saturating_sub. rewrite Z.max_r by lia.
  eapply reads_bind; [apply per_read_length_reads; lia|]. cbn beta.
  apply read_slice_reads. lia.
Qed.

(** An object identifier as GCC writes it: six elements, the first two small
    enough for the packed byte. *)
Lemma read_object_id_reads i0 i1 i2 i3 i4 i5 l :
  0 ≤ i0 → 0 ≤ i1 < 40 → i0 * 40 + i1 < 256 →
  reads read_object_id (write_object_id [i0; i1; i2; i3; i4; i5] ++ l) [i0; i1; i2; i3; i4; i5] l.
Proof.
  intros H0 H1 H01. unfold read_object_id, write_object_id, write_slice.
  rewrite <-!app_assoc. cbn [take drop lookup_total list_lookup_total].
  reads_step. eapply reads_bind; [by apply reject_if_reads|]. cbn beta.
  reads_step. eapply reads_bind; [by apply (read_slice_reads 4 [i2; i3; i4; i5])|]. cbn beta.
  do 4 (eapply reads_bind; [apply reads_ret|]; cbn beta). apply reads_ret_eq.
  rewrite as_u8_id by lia.
  repeat f_equal; Z.to_euclidean_division_equations; lia.
Qed.

Lemma read_padding_reads n l : reads (read_padding (Z.of_nat n)) (write_padding n ++ l) tt l.
Proof.
  unfold read_padding, write_padding.
  eapply reads_bind; [apply ensure_reads; len_lia|]. cbn beta.
  apply advance_reads. by rewrite len_replicate.
Qed.
#[export] Hint Resolve read_choice_reads read_selection_reads read_number_of_sets_reads
  read_enum_reads read_u16_reads read_u32_reads read_padding_reads : reads.
