(* ===== verification/Ber.v ===== *)
(** [rdpcore-pdu/src/ber.rs]: the definite-length BER subset of MCS
    Connect-Initial and Connect-Response. *)
From S2P Require Import Prelude Cursor Per.

(** ** Operations *)

Definition TAG_BOOLEAN : Z := 0x01.
Definition TAG_INTEGER : Z := 0x02.
Definition TAG_ENUMERATED : Z := 0x0A.
Definition TAG_OCTET_STRING : Z := 0x04.
Definition TAG_SEQUENCE : Z := 0x30.

Definition write_length (length : Z) : bytes :=
  if length <=? 0x7F then write_u8 (as_u8 length)
  else if length <=? 0xFF then write_u8 0x81 ++ write_u8 (as_u8 length)
  else write_u8 0x82 ++ write_u16_be (as_u16 length).

Definition read_length : reader Z :=
  first ← read_u8;
  if first <=? 0x7F then mret first
  else if first =? 0x81 then read_u8
  else if first =? 0x82 then read_u16_be
  else invalid "ber.length" "unsupported BER length-of-length form".

Definition expect_tag (expected : Z) (field : string) : reader unit :=
  tag ← read_u8;
  reject_if (negb (tag =? expected)) field "unexpected BER tag byte".

Definition write_application_tag (tag_number body_length : Z) : bytes :=
  write_u8 0x7F ++ write_u8 tag_number ++ write_length body_length.
Definition read_application_tag (expected_tag_number : Z) : reader Z :=
  marker ← read_u8;
  reject_if (negb (marker =? 0x7F)) "ber.application_tag"
    "expected the 2-byte [APPLICATION n] tag form" ;;
  tag_number ← read_u8;
  reject_if (negb (tag_number =? expected_tag_number)) "ber.application_tag"
    "unexpected application tag number" ;;
  read_length.

Definition write_sequence_tag (body_length : Z) : bytes :=
  write_u8 TAG_SEQUENCE ++ write_length body_length.
Definition read_sequence_tag : reader Z :=
  expect_tag TAG_SEQUENCE "ber.sequence" ;; read_length.

Definition write_integer (value : Z) : bytes :=
  write_u8 TAG_INTEGER ++
  (if value <? 0x80 then write_length 1 ++ write_u8 (as_u8 value)
   else if value <? 0x8000 then write_length 2 ++ write_u16_be (as_u16 value)
   else if value <? 0x800000 then
     write_length 3 ++ write_u8 (as_u8 (Z.shiftr value 16)) ++ write_u16_be (as_u16 value)
   else if value <? 0x80000000 then
     write_length 4 ++ write_u16_be (as_u16 (Z.shiftr value 16)) ++ write_u16_be (as_u16 value)
   else
     write_length 5 ++ write_u8 0x00
     ++ write_u16_be (as_u16 (Z.shiftr value 16)) ++ write_u16_be (as_u16 value)).

Definition read_integer : reader Z :=
  expect_tag TAG_INTEGER "ber.integer" ;;
  length ← read_length;
  s ← read_slice length;
  reject_if ((len s =? 0) || (len s >? 5) || ((len s =? 5) && negb (s !!! 0%nat =? 0)))
    "ber.integer" "unsupported INTEGER length (expected 1-4 bytes or 5 bytes with 0x00 pad)" ;;
  let value := foldl (λ value b, Z.lor (as_u64 (Z.shiftl value 8)) b) 0 s in
  if value <=? 0xFFFFFFFF then mret value
  else invalid "ber.integer" "integer value exceeds u32".

Definition write_boolean (value : bool) : bytes :=
  write_u8 TAG_BOOLEAN ++ write_length 1 ++ write_u8 (if value then 0xFF else 0x00).
Definition read_boolean : reader bool :=
  expect_tag TAG_BOOLEAN "ber.boolean" ;;
  length ← read_length;
  s ← read_slice length;
  mret (match s with b :: _ => negb (b =? 0) | [] => false end).

Definition write_enumerated (value : Z) : bytes :=
  write_u8 TAG_ENUMERATED ++ write_length 1 ++ write_u8 value.
Definition read_enumerated : reader Z :=
  expect_tag TAG_ENUMERATED "ber.enumerated" ;;
  length ← read_length;
  s ← read_slice length;
  match s with
  | b :: _ => mret b
  | [] => invalid "ber.enumerated" "empty ENUMERATED value"
  end.

Definition write_octet_string (s : bytes) : bytes :=
  write_u8 TAG_OCTET_STRING ++ write_length (len s) ++ write_slice s.
Definition read_octet_string : reader bytes :=
  expect_tag TAG_OCTET_STRING "ber.octet_string" ;;
  length ← read_length;
  read_slice length.

(** ** Safety *)

Lemma ber_read_length_safe : safe read_length (λ n, 0 ≤ n < 2 ^ 16).
Proof.
  unfold read_length. safe_steps; [rewrite ?Z.leb_le in *; lia|lia].
Qed.
Lemma expect_tag_safe e f : safe (expect_tag e f) (λ _, True).
Proof. unfold expect_tag. safe_steps. done. Qed.
#[export] Hint Resolve ber_read_length_safe expect_tag_safe : safe.
Lemma read_application_tag_safe n : safe (read_application_tag n) (λ n, 0 ≤ n < 2 ^ 16).
Proof. unfold read_application_tag. safe_steps. Qed.
Lemma read_sequence_tag_safe : safe read_sequence_tag (λ n, 0 ≤ n < 2 ^ 16).
Proof. unfold read_sequence_tag. safe_steps. Qed.
Lemma foldl_u64_nonneg s v : bytes_ok s → 0 ≤ v →
  0 ≤ foldl (λ value b, Z.lor (as_u64 (Z.shiftl value 8)) b) v s.
Proof.
  intros Hs. revert v. induction Hs as [|b s Hb _ IH]; intros v Hv; [done|].
  cbn [foldl]. apply IH, Z.lor_nonneg. unfold byte_ok in Hb. split; [|lia].
  apply Z.mod_pos_bound. lia.
Qed.
Lemma read_integer_safe : safe read_integer (λ v, u32_ok v).
Proof.
  unfold read_integer. safe_steps. rewrite Z.leb_le in *.
  pose proof (foldl_u64_nonneg a1 0 ltac:(tauto) ltac:(lia)). lia.
Qed.
Lemma read_boolean_safe : safe read_boolean (λ _, True).
Proof. unfold read_boolean. safe_steps. done. Qed.
Lemma read_enumerated_safe : safe read_enumerated (λ v, u8_ok v).
Proof. unfold read_enumerated. safe_steps. subst. destruct H1 as [_ H1%bytes_ok_cons]. tauto. Qed.
Lemma ber_read_octet_string_safe : safe read_octet_string (λ s, bytes_ok s ∧ len s < 2 ^ 16).
Proof. unfold read_octet_string. safe_steps. split; [tauto|lia]. Qed.
#[export] Hint Resolve read_application_tag_safe read_sequence_tag_safe read_integer_safe
  read_boolean_safe read_enumerated_safe ber_read_octet_string_safe : safe.

(** ** Round trips *)

Lemma ber_read_length_reads n l : 0 ≤ n < 2 ^ 16 → reads read_length (write_length n ++ l) n l.
Proof.
  intros Hn. unfold read_length, write_length.
  destruct (Z.leb_spec n 0x7F); [|destruct (Z.leb_spec n 0xFF)]; rewrite <-?app_assoc.
  - rewrite as_u8_id by lia. reads_step. rewrite (proj2 (Z.leb_le _ _)) by lia. by apply reads_ret_eq.
  - rewrite as_u8_id by lia. reads_step. cbn [Z.leb Z.compare Pos.compare Pos.compare_cont Z.eqb Pos.eqb].
    apply read_u8_write.
  - rewrite as_u16_id by lia. reads_step. cbn [Z.leb Z.compare Pos.compare Pos.compare_cont Z.eqb Pos.eqb].
    apply read_u16_be_write. lia.
Qed.
#[export] Hint Extern 1 (reads read_length _ _ _) => (apply ber_read_length_reads; lia) : reads.

Lemma expect_tag_reads e f l : reads (expect_tag e f) (write_u8 e ++ l) tt l.
Proof.
  unfold expect_tag. reads_step. apply reject_if_reads. by rewrite Z.eqb_refl.
Qed.
#[export] Hint Resolve expect_tag_reads : reads.

Lemma read_application_tag_reads t n l :
  0 ≤ n < 2 ^ 16 → reads (read_application_tag t) (write_application_tag t n ++ l) n l.
Proof.
  intros Hn. unfold read_application_tag, write_application_tag. rewrite <-!app_assoc.
  reads_step. reads_step. reads_step.
  eapply reads_bind; [apply reject_if_reads; by rewrite Z.eqb_refl|]. by apply ber_read_length_reads.
Qed.
Lemma read_sequence_tag_reads n l :
  0 ≤ n < 2 ^ 16 → reads read_sequence_tag (write_sequence_tag n ++ l) n l.
Proof.
  intros Hn. unfold read_sequence_tag, write_sequence_tag. rewrite <-app_assoc.
  reads_step. by apply ber_read_length_reads.
Qed.
Lemma ber_read_octet_string_reads s l :
  len s < 2 ^ 16 → reads read_octet_string (write_octet_string s ++ l) s l.
Proof.
  intros Hs. unfold read_octet_string, write_octet_string, write_slice. rewrite <-!app_assoc.
  pose proof (len_nonneg s). reads_step. reads_step. by apply read_slice_reads.
Qed.
Lemma read_boolean_reads b l : reads read_boolean (write_boolean b ++ l) b l.
Proof.
  unfold read_boolean, write_boolean. rewrite <-!app_assoc. reads_step. reads_step.
  eapply reads_bind; [by apply (read_slice_reads 1 [if b then 0xFF else 0])|].
  apply reads_ret_eq. by destruct b.
Qed.
Lemma read_enumerated_reads v l : reads read_enumerated (write_enumerated v ++ l) v l.
Proof.
  unfold read_enumerated, write_enumerated. rewrite <-!app_assoc. reads_step. reads_step.
  eapply reads_bind; [by apply (read_slice_reads 1 [v])|]. by apply reads_ret_eq.
Qed.

(** One form of [write_integer]: a length byte and that many big-endian bytes. *)
Lemma read_integer_form n s v l :
  n = len s → bytes_ok s → 0 < len s ≤ 5 → (len s = 5 → s !!! 0%nat = 0) →
  from_be s = v → v < 2 ^ 32 →
  reads read_integer (write_u8 TAG_INTEGER ++ write_length n ++ s ++ l) v l.
Proof.
  intros -> Hs Hlen H5 <- Hv. unfold read_integer.
  reads_step. reads_step. eapply reads_bind; [by apply read_slice_reads|]. cbn beta.
  eapply reads_bind.
  { apply reject_if_reads. destruct (Z.eqb_spec (len s) 5) as [E|].
    - rewrite H5 by done. rewrite E. done.
    - rewrite (proj2 (Z.eqb_neq (len s) 0)) by lia. rewrite Z.gtb_ltb.
      by rewrite (proj2 (Z.ltb_ge _ _)) by lia. }
  cbn beta. pose proof (from_be_nonneg s Hs).
  assert (E : foldl (λ value b, Z.lor (as_u64 (Z.shiftl value 8)) b) 0 s = from_be s).
  { etransitivity; [apply (foldl_be 64)|]; done || lia. }
  rewrite E. rewrite (proj2 (Z.leb_le _ _)) by lia. by apply reads_ret_eq.
Qed.

Lemma from_be_app s t : from_be (s ++ t) = from_be s * 2 ^ (8 * len t) + from_be t.
Proof.
  induction s as [|b s IH]; [done|]. cbn [app]. rewrite !from_be_cons, IH, len_app.
  replace (8 * (len s + len t)) with (8 * len s + 8 * len t) by lia.
  rewrite Z.pow_add_r by (pose proof (len_nonneg s); pose proof (len_nonneg t); lia). lia.
Qed.
Lemma from_be_u16 v : from_be (write_u16_be v) = v mod 2 ^ 16.
Proof. apply from_to_be. Qed.
Lemma from_be_u8 v : from_be (write_u8 v) = v.
Proof. change (v + 256 * 0 = v). lia. Qed.
Lemma write_u8_bytes_ok v : u8_ok v → bytes_ok (write_u8 v).
Proof. intros. apply bytes_ok_cons; split; [done|apply bytes_ok_nil]. Qed.

(** Every 32-bit value written by [write_integer], in whichever of the five
    lengths, is read back by [read_integer], which stops at its end. *)
Lemma read_integer_write (v : Z) (l : bytes) :
  u32_ok v → reads read_integer (write_integer v ++ l) v l.
Proof.
  intros Hv. unfold write_integer. rewrite Z.shiftr_div_pow2 by lia.
  assert (0 ≤ v / 2 ^ 16 < 2 ^ 16) by (Z.to_euclidean_division_equations; lia).
  repeat case_match; rewrite ?Z.ltb_lt, ?Z.ltb_ge in *;
    rewrite <-(app_assoc (write_u8 TAG_INTEGER)), <-(app_assoc (write_length _));
    rewrite ?(as_u16_id (v / 2 ^ 16)) by done;
    (apply read_integer_form; [len_lia| |len_lia|len_lia || done| |lia];
     [rewrite ?bytes_ok_app; split_and?;
      try apply to_be_bytes_ok; try (apply write_u8_bytes_ok; apply as_u8_ok || lia)
     |rewrite ?from_be_app; autorewrite with len;
      rewrite ?from_be_u16, ?from_be_u8; unfold as_u8, as_u16;
      Z.to_euclidean_division_equations; lia]).
Qed.


(** ** Sizes *)

Lemma ber_len_write_length n : 1 ≤ len (write_length n) ≤ 3.
Proof. unfold write_length. repeat case_match; autorewrite with len; lia. Qed.
Lemma len_write_octet_string s : len s ≤ len (write_octet_string s) ≤ 4 + len s.
Proof.
  unfold write_octet_string, write_slice. autorewrite with len.
  pose proof (ber_len_write_length (len s)). lia.
Qed.
Lemma len_write_application_tag t n : 3 ≤ len (write_application_tag t n) ≤ 5.
Proof.
  unfold write_application_tag. autorewrite with len. pose proof (ber_len_write_length n). lia.
Qed.
