(* ===== verification/Mcs.v ===== *)
(** [rdpcore-pdu/src/mcs.rs]: T.125 Connect-Initial / Connect-Response (BER) and
    the domain PDUs (PER), including Send Data, which carries everything else. *)
From S2P Require Import Prelude Cursor Per Ber.

Definition BASE_CHANNEL_ID : Z := 1001.
Definition MCS_TYPE_CONNECT_INITIAL : Z := 0x65.
Definition MCS_TYPE_CONNECT_RESPONSE : Z := 0x66.

(** ** Connect-Initial / Connect-Response *)

Record DomainParameters := {
  max_channel_ids : Z; max_user_ids : Z; max_token_ids : Z; num_priorities : Z;
  min_throughput : Z; max_height : Z; max_mcs_pdu_size : Z; protocol_version : Z }.

Definition DomainParameters_target : DomainParameters :=
  {| max_channel_ids := 34; max_user_ids := 2; max_token_ids := 0; num_priorities := 1;
     min_throughput := 0; max_height := 1; max_mcs_pdu_size := 65535; protocol_version := 2 |}.
Definition DomainParameters_min : DomainParameters :=
  {| max_channel_ids := 1; max_user_ids := 1; max_token_ids := 1; num_priorities := 1;
     min_throughput := 0; max_height := 1; max_mcs_pdu_size := 1056; protocol_version := 2 |}.
Definition DomainParameters_max : DomainParameters :=
  {| max_channel_ids := 65535; max_user_ids := 64535; max_token_ids := 65535;
     num_priorities := 1; min_throughput := 0; max_height := 1; max_mcs_pdu_size := 65535;
     protocol_version := 2 |}.

Definition DomainParameters_body (p : DomainParameters) : bytes :=
  Ber.write_integer (max_channel_ids p) ++ Ber.write_integer (max_user_ids p)
  ++ Ber.write_integer (max_token_ids p) ++ Ber.write_integer (num_priorities p)
  ++ Ber.write_integer (min_throughput p) ++ Ber.write_integer (max_height p)
  ++ Ber.write_integer (max_mcs_pdu_size p) ++ Ber.write_integer (protocol_version p).
Definition DomainParameters_write (p : DomainParameters) : bytes :=
  Ber.write_sequence_tag (len (DomainParameters_body p)) ++ write_slice (DomainParameters_body p).
Definition DomainParameters_decode : reader DomainParameters :=
  _ ← Ber.read_sequence_tag;
  a ← Ber.read_integer; b ← Ber.read_integer; c ← Ber.read_integer; d ← Ber.read_integer;
  e ← Ber.read_integer; f ← Ber.read_integer; g ← Ber.read_integer; h ← Ber.read_integer;
  mret {| max_channel_ids := a; max_user_ids := b; max_token_ids := c; num_priorities := d;
          min_throughput := e; max_height := f; max_mcs_pdu_size := g; protocol_version := h |}.

Record ConnectInitial := {
  target_parameters : DomainParameters; min_parameters : DomainParameters;
  max_parameters : DomainParameters; ci_user_data : bytes }.

Definition ConnectInitial_body (p : ConnectInitial) : bytes :=
  Ber.write_octet_string [0x01] ++ Ber.write_octet_string [0x01] ++ Ber.write_boolean true
  ++ DomainParameters_write (target_parameters p)
  ++ DomainParameters_write (min_parameters p)
  ++ DomainParameters_write (max_parameters p)
  ++ Ber.write_octet_string (ci_user_data p).
Definition ConnectInitial_encode (p : ConnectInitial) : bytes :=
  let body := ConnectInitial_body p in
  Ber.write_application_tag MCS_TYPE_CONNECT_INITIAL (len body) ++ write_slice body.
Definition ConnectInitial_decode (input : bytes) : res DecodeError ConnectInitial :=
  run (_ ← Ber.read_application_tag MCS_TYPE_CONNECT_INITIAL;
       _ ← Ber.read_octet_string; _ ← Ber.read_octet_string; _ ← Ber.read_boolean;
       t ← DomainParameters_decode; mn ← DomainParameters_decode; mx ← DomainParameters_decode;
       user_data ← Ber.read_octet_string;
       mret {| target_parameters := t; min_parameters := mn; max_parameters := mx;
               ci_user_data := user_data |}) input.

Record ConnectResponse := {
  called_connect_id : Z; domain_parameters : DomainParameters; cresp_user_data : bytes }.

Definition ConnectResponse_body (p : ConnectResponse) : bytes :=
  Ber.write_enumerated 0 ++ Ber.write_integer (called_connect_id p)
  ++ DomainParameters_write (domain_parameters p)
  ++ Ber.write_octet_string (cresp_user_data p).
Definition ConnectResponse_encode (p : ConnectResponse) : bytes :=
  let body := ConnectResponse_body p in
  Ber.write_application_tag MCS_TYPE_CONNECT_RESPONSE (len body) ++ write_slice body.
Definition ConnectResponse_decode (input : bytes) : res DecodeError ConnectResponse :=
  run (_ ← Ber.read_application_tag MCS_TYPE_CONNECT_RESPONSE;
       _ ← Ber.read_enumerated;
       id ← Ber.read_integer; dp ← DomainParameters_decode;
       user_data ← Ber.read_octet_string;
       mret {| called_connect_id := id; domain_parameters := dp; cresp_user_data := user_data |})
      input.

(** ** Domain PDUs *)

Inductive DomainMcsPdu :=
  | PduErectDomainRequest | PduDisconnectProviderUltimatum | PduAttachUserRequest
  | PduAttachUserConfirm | PduChannelJoinRequest | PduChannelJoinConfirm
  | PduSendDataRequest | PduSendDataIndication.
Global Instance DomainMcsPdu_eq_dec : EqDecision DomainMcsPdu.
Proof. solve_decision. Defined.

Definition DomainMcsPdu_as_u8 (p : DomainMcsPdu) : Z :=
  match p with
  | PduErectDomainRequest => 1 | PduDisconnectProviderUltimatum => 8
  | PduAttachUserRequest => 10 | PduAttachUserConfirm => 11
  | PduChannelJoinRequest => 14 | PduChannelJoinConfirm => 15
  | PduSendDataRequest => 25 | PduSendDataIndication => 26
  end.
Definition DomainMcsPdu_from_u8 (value : Z) : option DomainMcsPdu :=
  match value with
  | 1 => Some PduErectDomainRequest | 8 => Some PduDisconnectProviderUltimatum
  | 10 => Some PduAttachUserRequest | 11 => Some PduAttachUserConfirm
  | 14 => Some PduChannelJoinRequest | 15 => Some PduChannelJoinConfirm
  | 25 => Some PduSendDataRequest | 26 => Some PduSendDataIndication
  | _ => None
  end.

Definition write_choice_byte (pdu : DomainMcsPdu) (options : Z) : bytes :=
  Per.write_choice (Z.lor (as_u8 (Z.shiftl (DomainMcsPdu_as_u8 pdu) 2)) options).
Definition read_choice_byte (expected : DomainMcsPdu) : reader Z :=
  byte ← Per.read_choice;
  reject_if (bool_decide (DomainMcsPdu_from_u8 (Z.shiftr byte 2) ≠ Some expected))
    "mcs.domain_pdu.choice" "unexpected domain PDU choice byte" ;;
  mret (Z.land byte 0x3).
Definition skip_optional_non_standard (options : Z) : reader unit :=
  if has_bits options 0x2 then ensure 2 ;; advance 2 else mret tt.

Record ErectDomainRequest := { sub_height : Z; sub_interval : Z }.
Definition ErectDomainRequest_encode (p : ErectDomainRequest) : bytes :=
  write_choice_byte PduErectDomainRequest 0
  ++ Per.write_u32 (sub_height p) ++ Per.write_u32 (sub_interval p).
Definition ErectDomainRequest_decode_from_cursor : reader ErectDomainRequest :=
  options ← read_choice_byte PduErectDomainRequest;
  h ← Per.read_u32; i ← Per.read_u32;
  skip_optional_non_standard options ;;
  mret {| sub_height := h; sub_interval := i |}.
Definition ErectDomainRequest_decode (input : bytes) := run ErectDomainRequest_decode_from_cursor input.

Definition AttachUserRequest_encode : bytes := write_choice_byte PduAttachUserRequest 0.
Definition AttachUserRequest_decode_from_cursor : reader unit :=
  options ← read_choice_byte PduAttachUserRequest;
  skip_optional_non_standard options.
Definition AttachUserRequest_decode (input : bytes) := run AttachUserRequest_decode_from_cursor input.

Record AttachUserConfirm := { auc_result : Z; auc_initiator : Z }.
Definition AttachUserConfirm_encode (p : AttachUserConfirm) : bytes :=
  write_choice_byte PduAttachUserConfirm 2
  ++ Per.write_enum (auc_result p) ++ Per.write_u16 (auc_initiator p) BASE_CHANNEL_ID.
Definition AttachUserConfirm_decode (input : bytes) : res DecodeError AttachUserConfirm :=
  run (_ ← read_choice_byte PduAttachUserConfirm;
       r ← Per.read_enum; i ← Per.read_u16 BASE_CHANNEL_ID;
       mret {| auc_result := r; auc_initiator := i |}) input.

Record ChannelJoinRequest := { cjr_initiator : Z; cjr_channel_id : Z }.
Definition ChannelJoinRequest_encode (p : ChannelJoinRequest) : bytes :=
  write_choice_byte PduChannelJoinRequest 0
  ++ Per.write_u16 (cjr_initiator p) BASE_CHANNEL_ID ++ Per.write_u16 (cjr_channel_id p) 0.
Definition ChannelJoinRequest_decode_from_cursor : reader ChannelJoinRequest :=
  _ ← read_choice_byte PduChannelJoinRequest;
  i ← Per.read_u16 BASE_CHANNEL_ID; c ← Per.read_u16 0;
  mret {| cjr_initiator := i; cjr_channel_id := c |}.
Definition ChannelJoinRequest_decode (input : bytes) := run ChannelJoinRequest_decode_from_cursor input.

Record ChannelJoinConfirm := {
  cjc_result : Z; cjc_initiator : Z; cjc_requested_channel_id : Z; cjc_channel_id : Z }.
Definition ChannelJoinConfirm_encode (p : ChannelJoinConfirm) : bytes :=
  write_choice_byte PduChannelJoinConfirm 2
  ++ Per.write_enum (cjc_result p) ++ Per.write_u16 (cjc_initiator p) BASE_CHANNEL_ID
  ++ Per.write_u16 (cjc_requested_channel_id p) 0 ++ Per.write_u16 (cjc_channel_id p) 0.
Definition ChannelJoinConfirm_decode (input : bytes) : res DecodeError ChannelJoinConfirm :=
  run (_ ← read_choice_byte PduChannelJoinConfirm;
       r ← Per.read_enum; i ← Per.read_u16 BASE_CHANNEL_ID;
       q ← Per.read_u16 0; c ← Per.read_u16 0;
       mret {| cjc_result := r; cjc_initiator := i; cjc_requested_channel_id := q;
               cjc_channel_id := c |}) input.

Definition SEND_DATA_PRIORITY_AND_SEGMENTATION : Z := 0x70.
Definition SEND_DATA_SEG_END : Z := 0x10.

Record SendData := {
  sd_initiator : Z; sd_channel_id : Z; sd_data : bytes; sd_complete : bool }.

Definition SendData_encode (p : SendData) (pdu : DomainMcsPdu) : bytes :=
  write_choice_byte pdu 0
  ++ Per.write_u16 (sd_initiator p) BASE_CHANNEL_ID ++ Per.write_u16 (sd_channel_id p) 0
  ++ write_u8 SEND_DATA_PRIORITY_AND_SEGMENTATION
  ++ Per.write_length (len (sd_data p)) ++ write_slice (sd_data p).
Definition SendData_decode_from_cursor (pdu : DomainMcsPdu) : reader SendData :=
  _ ← read_choice_byte pdu;
  initiator ← Per.read_u16 BASE_CHANNEL_ID;
  channel_id ← Per.read_u16 0;
  priority_and_segmentation ← read_u8;
  length ← Per.read_length;
  data ← read_slice length;
  mret {| sd_initiator := initiator; sd_channel_id := channel_id; sd_data := data;
          sd_complete := has_bits priority_and_segmentation SEND_DATA_SEG_END |}.
Definition SendData_decode (input : bytes) (pdu : DomainMcsPdu) : res DecodeError SendData :=
  run (SendData_decode_from_cursor pdu) input.
Definition encode_request (p : SendData) : bytes := SendData_encode p PduSendDataRequest.
Definition decode_request (input : bytes) := SendData_decode input PduSendDataRequest.
Definition decode_request_from_cursor : reader SendData :=
  SendData_decode_from_cursor PduSendDataRequest.
Definition encode_indication (p : SendData) : bytes := SendData_encode p PduSendDataIndication.
Definition decode_indication (input : bytes) := SendData_decode input PduSendDataIndication.

(** The [reason] of a Disconnect Provider Ultimatum. *)
Definition DisconnectProviderUltimatum_encode (reason : Z) : bytes :=
  [ Z.lor (as_u8 (Z.shiftl (DomainMcsPdu_as_u8 PduDisconnectProviderUltimatum) 2))
      (Z.land (Z.shiftr reason 1) 0x03);
    as_u8 (Z.land (as_u16 (Z.shiftl reason 7)) 0xFF) ].
Definition DisconnectProviderUltimatum_decode (input : bytes) : res DecodeError Z :=
  run (byte1 ← read_u8;
       byte2 ← read_u8;
       reject_if (bool_decide (DomainMcsPdu_from_u8 (Z.shiftr byte1 2)
                               ≠ Some PduDisconnectProviderUltimatum))
         "mcs.disconnect_provider_ultimatum.choice" "unexpected choice byte" ;;
       mret (Z.lor (as_u8 (Z.shiftl (Z.land byte1 0x03) 1)) (Z.shiftr byte2 7))) input.

(** ** Safety *)

Lemma DomainParameters_decode_safe : safe DomainParameters_decode (λ _, True).
Proof. unfold DomainParameters_decode. safe_steps. done. Qed.
Lemma read_choice_byte_safe e : safe (read_choice_byte e) (λ o, 0 ≤ o < 4).
Proof.
  unfold read_choice_byte. safe_steps. pose proof (land_bound_r a 0x3 ltac:(lia)). lia.
Qed.
Lemma skip_optional_non_standard_safe o : safe (skip_optional_non_standard o) (λ _, True).
Proof. unfold skip_optional_non_standard. safe_steps. done. Qed.
#[export] Hint Resolve DomainParameters_decode_safe read_choice_byte_safe
  skip_optional_non_standard_safe : safe.

Lemma ErectDomainRequest_decode_safe : safe ErectDomainRequest_decode_from_cursor (λ _, True).
Proof. unfold ErectDomainRequest_decode_from_cursor. safe_steps. done. Qed.
Lemma AttachUserRequest_decode_safe : safe AttachUserRequest_decode_from_cursor (λ _, True).
Proof. unfold AttachUserRequest_decode_from_cursor. safe_steps. Qed.
Lemma ChannelJoinRequest_decode_safe : safe ChannelJoinRequest_decode_from_cursor (λ _, True).
Proof. unfold ChannelJoinRequest_decode_from_cursor. safe_steps. done. Qed.
Lemma SendData_decode_safe pdu :
  safe (SendData_decode_from_cursor pdu)
    (λ d, u16_ok (sd_initiator d) ∧ u16_ok (sd_channel_id d) ∧ bytes_ok (sd_data d)
          ∧ len (sd_data d) < 2 ^ 15).
Proof.
  unfold SendData_decode_from_cursor. safe_steps. cbn. destruct H4. split_and!; done || lia.
Qed.
#[export] Hint Resolve ErectDomainRequest_decode_safe AttachUserRequest_decode_safe
  ChannelJoinRequest_decode_safe SendData_decode_safe : safe.

(** ** Round trips *)

Lemma choice_byte_reads pdu options l :
  0 ≤ options < 4 → reads (read_choice_byte pdu) (write_choice_byte pdu options ++ l) options l.
Proof.
  intros Ho. unfold read_choice_byte, write_choice_byte.
  set (b := Z.lor _ options).
  assert (DomainMcsPdu_from_u8 (Z.shiftr b 2) = Some pdu ∧ Z.land b 3 = options) as [E1 E2].
  { assert (options = 0 ∨ options = 1 ∨ options = 2 ∨ options = 3) as Hcase by lia.
    subst b. destruct Hcase as [->|[->|[->| ->]]], pdu; by vm_compute. }
  eapply reads_bind; [apply read_choice_reads|]. cbn beta.
  eapply reads_bind; [apply reject_if_reads, bool_decide_eq_false_2; naive_solver|].
  by apply reads_ret_eq.
Qed.
#[export] Hint Extern 1 (reads (read_choice_byte _) _ _ _) =>
  (apply choice_byte_reads; lia) : reads.
#[export] Hint Extern 1 (reads (Per.read_u16 _) _ _ _) =>
  (apply read_u16_reads; [lia|vm_compute; split; congruence]) : reads.
#[export] Hint Extern 1 (reads Ber.read_integer _ _ _) =>
  (apply read_integer_write; lia) : reads.

(** Every parameter is a 32-bit value. *)
Definition params_ok (p : DomainParameters) : Prop :=
  u32_ok (max_channel_ids p) ∧ u32_ok (max_user_ids p) ∧ u32_ok (max_token_ids p)
  ∧ u32_ok (num_priorities p) ∧ u32_ok (min_throughput p) ∧ u32_ok (max_height p)
  ∧ u32_ok (max_mcs_pdu_size p) ∧ u32_ok (protocol_version p).

Lemma len_write_integer v : 2 ≤ len (Ber.write_integer v) ≤ 7.
Proof.
  unfold Ber.write_integer, Ber.write_length.
  repeat case_match; autorewrite with len; try lia; cbn in *; discriminate.
Qed.
Lemma len_DomainParameters_body p : 0 ≤ len (DomainParameters_body p) ≤ 56.
Proof.
  unfold DomainParameters_body. rewrite !len_app.
  repeat match goal with |- context [len (Ber.write_integer ?v)] =>
    pose proof (len_write_integer v); generalize dependent (len (Ber.write_integer v)); intros end.
  lia.
Qed.
Lemma len_DomainParameters_write p : 0 ≤ len (DomainParameters_write p) ≤ 58.
Proof.
  unfold DomainParameters_write, Ber.write_sequence_tag, Ber.write_length, write_slice.
  pose proof (len_DomainParameters_body p).
  rewrite (proj2 (Z.leb_le _ 0x7F)) by lia. autorewrite with len. lia.
Qed.

Lemma DomainParameters_reads p l :
  params_ok p → reads DomainParameters_decode (DomainParameters_write p ++ l) p l.
Proof.
  intros Hp. destruct p; destruct Hp as (?&?&?&?&?&?&?&?).
  unfold DomainParameters_decode, DomainParameters_write, write_slice.
  match goal with |- context [DomainParameters_body ?p] =>
    pose proof (len_DomainParameters_body p) end.
  rewrite <-app_assoc. eapply reads_bind; [apply read_sequence_tag_reads; lia|]. cbn beta.
  unfold DomainParameters_body. cbn [max_channel_ids max_user_ids max_token_ids
    num_priorities min_throughput max_height max_mcs_pdu_size protocol_version] in *.
  rewrite <-!app_assoc. reads_steps. done.
Qed.
#[export] Hint Resolve DomainParameters_reads : reads.
#[export] Hint Extern 1 (reads Ber.read_octet_string _ _ _) =>
  (apply ber_read_octet_string_reads; len_lia) : reads.
#[export] Hint Resolve Ber.read_boolean_reads Ber.read_enumerated_reads : reads.

Lemma len_ConnectInitial_body p :
  len (ci_user_data p) ≤ 65000 → 0 ≤ len (ConnectInitial_body p) < 65500.
Proof.
  intros Hl. unfold ConnectInitial_body. rewrite !len_app.
  pose proof (len_DomainParameters_write (target_parameters p)).
  pose proof (len_DomainParameters_write (min_parameters p)).
  pose proof (len_DomainParameters_write (max_parameters p)).
  pose proof (Ber.len_write_octet_string (ci_user_data p)).
  pose proof (Ber.len_write_octet_string [1]).
  change (len [1]) with 1 in *. change (len (Ber.write_boolean true)) with 3.
  pose proof (len_nonneg (ci_user_data p)). lia.
Qed.
Lemma len_ConnectResponse_body p :
  len (cresp_user_data p) ≤ 65000 → 0 ≤ len (ConnectResponse_body p) < 65500.
Proof.
  intros Hl. unfold ConnectResponse_body. rewrite !len_app.
  pose proof (len_DomainParameters_write (domain_parameters p)).
  pose proof (Ber.len_write_octet_string (cresp_user_data p)).
  pose proof (len_write_integer (called_connect_id p)).
  change (len (Ber.write_enumerated 0)) with 3.
  pose proof (len_nonneg (cresp_user_data p)). lia.
Qed.
Lemma len_application t (body : bytes) :
  len body < 65500 → len (Ber.write_application_tag t (len body) ++ write_slice body) < 2 ^ 63.
Proof.
  intros Hb. rewrite len_app, len_write_slice.
  pose proof (Ber.len_write_application_tag t (len body)). lia.
Qed.

Lemma ConnectInitial_decode_encode p :
  params_ok (target_parameters p) → params_ok (min_parameters p) → params_ok (max_parameters p) →
  len (ci_user_data p) ≤ 65000 → ConnectInitial_decode (ConnectInitial_encode p) = Ok p.
Proof.
  intros Ht Hmn Hmx Hl. pose proof (len_ConnectInitial_body p Hl) as Hb.
  eapply (reads_run _ _ _ []); [apply len_application; lia|].
  unfold ConnectInitial_encode, write_slice.
  eapply reads_bind; [apply read_application_tag_reads; lia|]. cbn beta.
  rewrite <-(app_nil_r (ConnectInitial_body p)). unfold ConnectInitial_body.
  rewrite <-!app_assoc. reads_steps. by destruct p.
Qed.

(** Connect-Initial and Connect-Response: both directions of the T.125
    connect exchange decode to what was encoded, for any parameters and any GCC
    user data that keeps the packet below the 64 KiB a BER length can express. *)
Theorem mcs_connect_roundtrip :
  (∀ p, params_ok (target_parameters p) → params_ok (min_parameters p) →
        params_ok (max_parameters p) → len (ci_user_data p) ≤ 65000 →
        ConnectInitial_decode (ConnectInitial_encode p) = Ok p)
  ∧ (∀ p, u32_ok (called_connect_id p) → params_ok (domain_parameters p) →
        len (cresp_user_data p) ≤ 65000 →
        ConnectResponse_decode (ConnectResponse_encode p) = Ok p).
Proof.
  split.
  - apply ConnectInitial_decode_encode.
  - intros p Hi Hd Hl. pose proof (len_ConnectResponse_body p Hl) as Hb.
    eapply (reads_run _ _ _ []); [apply len_application; lia|].
    unfold ConnectResponse_encode, write_slice.
    eapply reads_bind; [apply read_application_tag_reads; lia|]. cbn beta.
    rewrite <-(app_nil_r (ConnectResponse_body p)). unfold ConnectResponse_body.
    rewrite <-!app_assoc. reads_steps. by destruct p.
Qed.

(** What Send Data can carry: a PER length has 15 bits. *)
Definition SendData_ok (d : SendData) : Prop :=
  u16_ok (sd_initiator d) ∧ u16_ok (sd_channel_id d) ∧ len (sd_data d) < 2 ^ 15.

Lemma SendData_reads pdu d l :
  SendData_ok d → sd_complete d = true →
  reads (SendData_decode_from_cursor pdu) (SendData_encode d pdu ++ l) d l.
Proof.
  intros (Hi & Hc & Hl) Hcomp. unfold SendData_decode_from_cursor, SendData_encode, write_slice.
  pose proof (len_nonneg (sd_data d)).
  rewrite <-!app_assoc. reads_steps. destruct d; cbn in *. by subst.
Qed.

Lemma len_SendData_encode pdu d : 7 ≤ len (SendData_encode d pdu) ≤ 8 + len (sd_data d).
Proof.
  unfold SendData_encode, write_choice_byte, Per.write_choice, Per.write_u16, write_slice.
  autorewrite with len. rewrite per_len_write_length. pose proof (len_nonneg (sd_data d)).
  case_match; lia.
Qed.

Lemma decode_indication_encode d :
  SendData_ok d → sd_complete d = true → decode_indication (encode_indication d) = Ok d.
Proof.
  intros Hd Hc. eapply (reads_run _ _ _ []).
  - pose proof (len_SendData_encode PduSendDataIndication d). unfold encode_indication.
    destruct Hd as (_ & _ & Hl). lia.
  - rewrite <-(app_nil_r (encode_indication d)). by apply SendData_reads.
Qed.

Lemma ErectDomainRequest_reads p l :
  u32_ok (sub_height p) → u32_ok (sub_interval p) →
  reads ErectDomainRequest_decode_from_cursor (ErectDomainRequest_encode p ++ l) p l.
Proof.
  destruct p as [h i]. intros Hh Hi. unfold ErectDomainRequest_decode_from_cursor,
    ErectDomainRequest_encode. cbn [sub_height sub_interval] in *. rewrite <-!app_assoc.
  reads_step. reads_step. reads_step.
  eapply reads_bind; [apply reads_ret|]. by apply reads_ret_eq.
Qed.
Lemma AttachUserRequest_reads l :
  reads AttachUserRequest_decode_from_cursor (AttachUserRequest_encode ++ l) tt l.
Proof.
  unfold AttachUserRequest_decode_from_cursor, AttachUserRequest_encode.
  reads_step. apply reads_ret.
Qed.
Lemma ChannelJoinRequest_reads p l :
  u16_ok (cjr_initiator p) → u16_ok (cjr_channel_id p) →
  reads ChannelJoinRequest_decode_from_cursor (ChannelJoinRequest_encode p ++ l) p l.
Proof.
  destruct p as [i c]. intros Hi Hc. unfold ChannelJoinRequest_decode_from_cursor,
    ChannelJoinRequest_encode. cbn [cjr_initiator cjr_channel_id] in *.
  rewrite <-!app_assoc. reads_steps. done.
Qed.

(** Domain PDUs: each of the domain PDUs decodes to what was encoded and the
    decoders that work on a shared cursor consume exactly their own bytes, so
    PDUs packed one after another into one X.224 payload are peeled off one by
    one.  A Send Data PDU is decoded with its data and marked complete. *)
Theorem domain_pdus_roundtrip (l : bytes) :
  (∀ p, u32_ok (sub_height p) → u32_ok (sub_interval p) →
    reads ErectDomainRequest_decode_from_cursor (ErectDomainRequest_encode p ++ l) p l)
  ∧ reads AttachUserRequest_decode_from_cursor (AttachUserRequest_encode ++ l) tt l
  ∧ (∀ p, u16_ok (cjr_initiator p) → u16_ok (cjr_channel_id p) →
    reads ChannelJoinRequest_decode_from_cursor (ChannelJoinRequest_encode p ++ l) p l)
  ∧ (∀ pdu d, SendData_ok d → sd_complete d = true →
    reads (SendData_decode_from_cursor pdu) (SendData_encode d pdu ++ l) d l)
  ∧ (∀ p, u8_ok (auc_result p) → u16_ok (auc_initiator p) →
    AttachUserConfirm_decode (AttachUserConfirm_encode p) = Ok p)
  ∧ (∀ p, u8_ok (cjc_result p) → u16_ok (cjc_initiator p) →
    u16_ok (cjc_requested_channel_id p) → u16_ok (cjc_channel_id p) →
    ChannelJoinConfirm_decode (ChannelJoinConfirm_encode p) = Ok p)
  ∧ (∀ reason, 0 ≤ reason < 8 →
    DisconnectProviderUltimatum_decode (DisconnectProviderUltimatum_encode reason) = Ok reason).
Proof.
  split_and!.
  - intros. by apply ErectDomainRequest_reads.
  - apply AttachUserRequest_reads.
  - intros. by apply ChannelJoinRequest_reads.
  - intros. by apply SendData_reads.
  - intros [r i] Hr Hi. unfold AttachUserConfirm_decode, AttachUserConfirm_encode.
    eapply (reads_run _ _ _ []); [done|]. cbn [auc_result auc_initiator] in *.
    rewrite <-(app_nil_r (Per.write_u16 _ _)). reads_steps. done.
  - intros [r i q c] Hr Hi Hq Hc.
    unfold ChannelJoinConfirm_decode, ChannelJoinConfirm_encode.
    eapply (reads_run _ _ _ []); [done|].
    cbn [cjc_result cjc_initiator cjc_requested_channel_id cjc_channel_id] in *.
    rewrite <-(app_nil_r (Per.write_u16 c 0)). reads_steps. done.
  - intros reason Hr.
    assert (reason ∈ [0; 1; 2; 3; 4; 5; 6; 7]) as Hin.
    { assert (reason = Z.of_nat (Z.to_nat reason)) as -> by lia.
      assert (Z.to_nat reason < 8)%nat as Hn by lia. revert Hn. generalize (Z.to_nat reason).
      intros n Hn. do 8 (destruct n as [|n]; [cbn; set_solver|]). lia. }
    clear Hr. revert reason Hin. apply Forall_forall. repeat constructor; by vm_compute.
Qed.

Lemma mcs_connect_roundtrip_witness :
  let p := {| target_parameters := DomainParameters_target; min_parameters := DomainParameters_min;
              max_parameters := DomainParameters_max; ci_user_data := [1; 2; 3] |} in
  params_ok (target_parameters p) ∧ ConnectInitial_decode (ConnectInitial_encode p) = Ok p.
Proof.
  intros p. assert (H : params_ok (target_parameters p)) by (split_and!; done).
  split; [exact H|]. apply (proj1 mcs_connect_roundtrip p H); [split_and!; done..|done].
Defined.

Lemma domain_pdus_roundtrip_witness :
  u32_ok 1 ∧ reads ErectDomainRequest_decode_from_cursor
    (ErectDomainRequest_encode {| sub_height := 1; sub_interval := 70000 |} ++ [40])
    {| sub_height := 1; sub_interval := 70000 |} [40].
Proof.
  assert (H : u32_ok 1) by lia. split; [exact H|].
  apply (proj1 (domain_pdus_roundtrip [40])); [exact H|cbn; lia].
Defined.
