(* ===== verification/Svc.v ===== *)
(** [rdpcore-pdu/src/svc.rs]: static virtual channel chunking, reassembly, and
    the full framing of one channel message (SVC chunks, MCS Send Data
    Indication, X.224 Data). *)
From S2P Require Import Prelude Cursor Framing Per Mcs.

Definition CHANNEL_FLAG_FIRST : Z := 1.
Definition CHANNEL_FLAG_LAST : Z := 2.
Definition DEFAULT_CHUNK_LENGTH : Z := 1600.

(** ** Operations *)

(** One chunk with its Channel PDU Header; [count] is the number of chunks. *)
Definition chunk_pdu (total_length count : Z) (i : nat) (chunk : bytes) : bytes :=
  let flags := Z.lor (if decide (i = 0%nat) then CHANNEL_FLAG_FIRST else 0)
                     (if Z.of_nat i =? count - 1 then CHANNEL_FLAG_LAST else 0) in
  write_u32_le total_length ++ write_u32_le flags ++ write_slice chunk.

Definition chunkify (data : bytes) : list bytes :=
  let total_length := as_u32 (len data) in
  if bool_decide (data = []) then
    [write_u32_le total_length ++ write_u32_le (Z.lor CHANNEL_FLAG_FIRST CHANNEL_FLAG_LAST)]
  else
    let count := div_ceil (len data) DEFAULT_CHUNK_LENGTH in
    imap (chunk_pdu total_length count) (chunks DEFAULT_CHUNK_LENGTH data).

Definition dechunkify (input : bytes) : res DecodeError (Z * Z * bytes) :=
  run (total_length ← read_u32_le;
       flags ← read_u32_le;
       body ← read_rest;
       mret (total_length, flags, body)) input.

(** [buffer] is the caller's [&mut Vec<u8>]: its new contents come with the
    result, errors included. *)
Definition reassemble (buffer payload : bytes) (max_size : Z) (field : string)
  : bytes * res DecodeError (option bytes) :=
  match dechunkify payload with
  | Err e => (buffer, Err e)
  | Panic => (buffer, Panic)
  | Ok (_, flags, chunk) =>
    let orphan := negb (has_bits flags CHANNEL_FLAG_FIRST) && bool_decide (buffer = []) in
    if orphan then (buffer, Ok None) else
    let buffer := if has_bits flags CHANNEL_FLAG_FIRST then [] else buffer in
    if saturating_add_usize (len buffer) (len chunk) >? max_size then
      ([], Err (InvalidValue field "reassembled SVC message exceeded maximum allowed size"))
    else
    let buffer := buffer ++ chunk in
    if has_bits flags CHANNEL_FLAG_LAST then ([], Ok (Some buffer)) else (buffer, Ok None)
  end.

Definition wrap_indication (initiator channel_id : Z) (data : bytes) : list bytes :=
  (λ chunk, wrap_data (encode_indication
     {| sd_initiator := initiator; sd_channel_id := channel_id; sd_data := chunk;
        sd_complete := true |})) <$> chunkify data.

(** ** The receiver *)

(** A receiver feeds payloads to [reassemble] one after another. *)
Fixpoint feed (buffer : bytes) (payloads : list bytes) (max_size : Z) (field : string)
  : bytes * list (res DecodeError (option bytes)) :=
  match payloads with
  | [] => (buffer, [])
  | p :: payloads =>
    let '(buffer, r) := reassemble buffer p max_size field in
    let '(buffer, rs) := feed buffer payloads max_size field in
    (buffer, r :: rs)
  end.

(** The payload a frame carries to the channel layer, if it is well framed. *)
Definition frame_payload (frame : bytes) : res DecodeError SendData :=
  unwrap_data frame ≫= decode_indication.

(** ** Lemmas *)

Lemma dechunkify_no_panic input :
  bytes_ok input → len input < 2 ^ 63 → no_panic (dechunkify input).
Proof. apply safe_run_no_panic with (Q := λ _, True). safe_steps; try done. Qed.

Lemma dechunkify_spec input :
  bytes_ok input → len input < 2 ^ 63 →
  match dechunkify input with
  | Ok (t, f, c) => u32_ok t ∧ u32_ok f ∧ bytes_ok c ∧ len c < 2 ^ 63
  | Err _ => True | Panic => False end.
Proof.
  intros Hb Hl.
  pose proof (safe_run (total_length ← read_u32_le; flags ← read_u32_le; body ← read_rest;
     mret (total_length, flags, body))
     (λ x, u32_ok x.1.1 ∧ u32_ok x.1.2 ∧ bytes_ok x.2 ∧ len x.2 < 2 ^ 63) input) as H.
  specialize (H ltac:(safe_steps; naive_solver) Hb Hl). unfold dechunkify.
  by destruct (run _ input) as [[[t f] c]| |].
Qed.

Lemma dechunkify_header t f chunk :
  u32_ok t → u32_ok f → len chunk < 2 ^ 62 →
  dechunkify (write_u32_le t ++ write_u32_le f ++ write_slice chunk) = Ok (t, f, chunk).
Proof.
  intros Ht Hf Hc. eapply (reads_run _ _ _ []); [autorewrite with len; lia|].
  unfold write_slice. reads_steps. done.
Qed.

Lemma reassemble_no_panic buffer payload max field :
  bytes_ok payload → len payload < 2 ^ 63 → no_panic (reassemble buffer payload max field).2.
Proof.
  intros Hb Hl. unfold reassemble.
  pose proof (dechunkify_no_panic payload Hb Hl). destruct (dechunkify payload) as [[[??]?]| |];
    [|done..]. repeat case_match; done.
Qed.

(** The buffer never grows beyond the limit and neither does a message. *)
Lemma reassemble_spec buffer payload max field :
  bytes_ok payload → len payload < 2 ^ 63 → 0 ≤ max < 2 ^ 63 →
  len buffer ≤ max → bytes_ok buffer →
  match reassemble buffer payload max field with
  | (buffer', Ok (Some m)) => buffer' = [] ∧ len m ≤ max ∧ bytes_ok m
  | (buffer', Ok None) => len buffer' ≤ max ∧ bytes_ok buffer'
  | (buffer', Err _) => buffer' = [] ∨ buffer' = buffer
  | (_, Panic) => False
  end.
Proof.
  intros Hb Hl Hmax Hbuf Hbok. unfold reassemble. pose proof (dechunkify_spec payload Hb Hl) as Hd.
  destruct (dechunkify payload) as [[[t f] chunk]| |]; [|by right|done].
  destruct Hd as (_ & _ & Hcok & Hc). pose proof (len_nonneg chunk).
  destruct (negb _ && _); [done|].
  set (b := if has_bits f CHANNEL_FLAG_FIRST then [] else buffer).
  assert (0 ≤ len b ≤ max ∧ bytes_ok b) as [Hlb Hbb].
  { subst b. destruct (has_bits f CHANNEL_FLAG_FIRST).
    - rewrite (@len_nil Z). split; [lia|apply bytes_ok_nil].
    - pose proof (len_nonneg buffer). split; [lia|done]. }
  assert (bytes_ok (b ++ chunk)) by (by apply bytes_ok_app).
  unfold saturating_add_usize, USIZE_MAX.
  destruct (Z.gtb_spec (Z.min (len b + len chunk) (2 ^ 64 - 1)) max); [by left|].
  destruct (has_bits f CHANNEL_FLAG_LAST); rewrite len_app; split_and!; done || lia.
Qed.

Lemma chunk_flags_range i count :
  u32_ok (Z.lor (if decide (i = 0%nat) then CHANNEL_FLAG_FIRST else 0)
                (if Z.of_nat i =? count - 1 then CHANNEL_FLAG_LAST else 0)).
Proof. case_decide; destruct (_ =? _); vm_compute; split; congruence. Qed.

(** One step of the receiver on a chunk the sender made. *)
Lemma reassemble_chunk_pdu buffer t count i chunk max field :
  u32_ok t → len chunk < 2 ^ 62 → i = 0%nat ∨ buffer ≠ [] →
  let b := if decide (i = 0%nat) then [] else buffer in
  len b + len chunk ≤ max → max < 2 ^ 63 →
  reassemble buffer (chunk_pdu t count i chunk) max field =
    if Z.of_nat i =? count - 1 then ([], Ok (Some (b ++ chunk))) else (b ++ chunk, Ok None).
Proof.
  intros Ht Hc Hi b Hmax Hmax'. unfold reassemble, chunk_pdu.
  rewrite dechunkify_header by (done || apply chunk_flags_range).
  assert (has_bits (Z.lor (if decide (i = 0%nat) then CHANNEL_FLAG_FIRST else 0)
    (if Z.of_nat i =? count - 1 then CHANNEL_FLAG_LAST else 0)) CHANNEL_FLAG_FIRST
    = bool_decide (i = 0%nat)) as ->.
  { rewrite (bool_decide_decide (i = 0%nat)). destruct (decide (i = 0%nat)), (_ =? _); done. }
  assert (has_bits (Z.lor (if decide (i = 0%nat) then CHANNEL_FLAG_FIRST else 0)
    (if Z.of_nat i =? count - 1 then CHANNEL_FLAG_LAST else 0)) CHANNEL_FLAG_LAST
    = (Z.of_nat i =? count - 1)) as ->.
  { destruct (decide (i = 0%nat)), (_ =? _); done. }
  assert (negb (bool_decide (i = 0%nat)) && bool_decide (buffer = []) = false) as ->.
  { destruct Hi as [->|Hne]; [done|]. rewrite (bool_decide_eq_false_2 (buffer = [])) by done.
    apply andb_false_r. }
  assert ((if bool_decide (i = 0%nat) then [] else buffer) = b) as ->.
  { subst b. rewrite bool_decide_decide. by destruct (decide _). }
  unfold saturating_add_usize, USIZE_MAX.
  destruct (Z.gtb_spec (Z.min (len b + len chunk) (2 ^ 64 - 1)) max); [lia|]. done.
Qed.

(** ** Chunking, then reassembling *)

Lemma len_chunk_pdu t count i chunk : len (chunk_pdu t count i chunk) = 8 + len chunk.
Proof. unfold chunk_pdu, write_slice. autorewrite with len. lia. Qed.

(** The receiver in the middle of a message, [i] chunks in. *)
Lemma feed_chunks t count max field rest :
  u32_ok t → max < 2 ^ 63 →
  ∀ i buffer,
  rest ≠ [] → Forall (λ c, 0 < len c ≤ DEFAULT_CHUNK_LENGTH) rest →
  i = 0%nat ∨ buffer ≠ [] →
  let b := if decide (i = 0%nat) then [] else buffer in
  len b + len (concat rest) ≤ max →
  count = Z.of_nat i + len rest →
  feed buffer (imap (λ j, chunk_pdu t count (i + j)) rest) max field =
    ([], replicate (pred (length rest)) (Ok None) ++ [Ok (Some (b ++ concat rest))]).
Proof.
  intros Ht Hmax. induction rest as [|c rest IH]; [done|].
  intros i buffer _ [Hc Hrest]%Forall_cons Hi b Hlen Hcount.
  cbn [imap feed concat] in *. rewrite len_app, len_cons in *. rewrite Nat.add_0_r.
  unfold DEFAULT_CHUNK_LENGTH in Hc. pose proof (len_nonneg (concat rest)).
  rewrite reassemble_chunk_pdu; [|done|lia|done|fold b; lia|done]. fold b.
  destruct rest as [|c' rest].
  - assert (Z.of_nat i =? count - 1 = true) as -> by (rewrite Hcount, (@len_nil bytes); lia).
    cbn. by rewrite app_nil_r.
  - assert (Z.of_nat i =? count - 1 = false) as ->.
    { rewrite Hcount, len_cons. pose proof (len_nonneg rest). lia. }
    assert (Hne : b ++ c ≠ []).
    { intros E%(f_equal len). rewrite len_app, (@len_nil Z) in E. pose proof (len_nonneg b). lia. }
    assert (imap ((λ j, chunk_pdu t count (i + j)) ∘ S) (c' :: rest)
            = imap (λ j, chunk_pdu t count (S i + j)) (c' :: rest)) as ->.
    { apply imap_ext. intros j x _. cbn. by rewrite Nat.add_succ_r. }
    specialize (IH (S i) (b ++ c)). cbn zeta in IH.
    rewrite decide_False in IH by lia. rewrite IH; clear IH.
    + cbn. by rewrite <-!app_assoc.
    + done.
    + done.
    + by right.
    + rewrite len_app. lia.
    + lia.
Qed.

Lemma chunkify_nonempty data : chunkify data ≠ [].
Proof.
  unfold chunkify. case_bool_decide as H; [done|].
  unfold DEFAULT_CHUNK_LENGTH. rewrite chunks_step by (done || lia). done.
Qed.

Lemma feed_chunkify buffer data max field :
  len data < 2 ^ 62 → len data ≤ max → max < 2 ^ 63 →
  feed buffer (chunkify data) max field =
    ([], replicate (pred (length (chunkify data))) (Ok None) ++ [Ok (Some data)]).
Proof.
  intros Hl Hmax Hmax'. pose proof (as_u32_ok (len data)) as Ht.
  unfold chunkify. case_bool_decide as Hd.
  - subst. rewrite (@len_nil Z) in *. cbn [length pred replicate feed app].
    assert (write_u32_le (as_u32 0) ++ write_u32_le (Z.lor CHANNEL_FLAG_FIRST CHANNEL_FLAG_LAST)
      = chunk_pdu 0 1 0 []) as -> by reflexivity.
    rewrite reassemble_chunk_pdu; rewrite ?(@len_nil Z); first [done|lia|by left|idtac].
  - pose proof (feed_chunks (as_u32 (len data)) (div_ceil (len data) DEFAULT_CHUNK_LENGTH)
      max field (chunks DEFAULT_CHUNK_LENGTH data) Ht Hmax' 0 buffer) as H.
    rewrite length_imap. cbn zeta in H. rewrite decide_True in H by done.
    assert (0 < DEFAULT_CHUNK_LENGTH) as Hpos by done.
    rewrite concat_chunks, (@len_nil Z) in H by done. apply H; clear H.
    + rewrite chunks_step by done. done.
    + by apply chunks_bound.
    + by left.
    + lia.
    + by rewrite len_chunks by done.
Qed.

(** A message of at most one chunk is delivered at once. *)
Lemma reassemble_single buffer data max field :
  len data ≤ DEFAULT_CHUNK_LENGTH → len data ≤ max → max < 2 ^ 63 →
  ∃ p, chunkify data = [p] ∧ reassemble buffer p max field = ([], Ok (Some data)).
Proof.
  intros Hs Hmax Hmax'.
  assert (∃ p, chunkify data = [p]) as [p Hp].
  { unfold chunkify. case_bool_decide; [by eexists|]. unfold DEFAULT_CHUNK_LENGTH in *.
    rewrite chunks_small by (done || lia). cbn. by eexists. }
  exists p. split; [done|]. unfold DEFAULT_CHUNK_LENGTH in Hs.
  pose proof (feed_chunkify buffer data max field ltac:(lia) Hmax Hmax') as H.
  rewrite Hp in H. cbn in H. destruct (reassemble buffer p max field). by simplify_eq.
Qed.

Lemma chunkify_len data : Forall (λ c, len c ≤ DEFAULT_CHUNK_LENGTH + 8) (chunkify data).
Proof.
  unfold chunkify. case_bool_decide; [repeat constructor; by vm_compute|].
  apply Forall_lookup. intros i c Hc. apply list_lookup_imap_Some in Hc as (x & Hx & ->).
  rewrite len_chunk_pdu.
  pose proof (Forall_lookup_1 _ _ _ _ (chunks_bound DEFAULT_CHUNK_LENGTH eq_refl data) Hx).
  cbn beta in *. lia.
Qed.

Lemma frame_payload_wrap initiator channel_id chunk :
  u16_ok initiator → u16_ok channel_id → len chunk < 2 ^ 15 →
  frame_payload (wrap_data (encode_indication
     {| sd_initiator := initiator; sd_channel_id := channel_id; sd_data := chunk;
        sd_complete := true |}))
  = Ok {| sd_initiator := initiator; sd_channel_id := channel_id; sd_data := chunk;
          sd_complete := true |}.
Proof.
  intros Hi Hc Hl. unfold frame_payload. set (d := Build_SendData _ _ _ _).
  pose proof (len_SendData_encode PduSendDataIndication d) as Hd.
  rewrite unwrap_wrap_data by (unfold encode_indication; subst d; cbn [sd_data] in *; lia).
  by apply decode_indication_encode.
Qed.

(** Static virtual channels, end to end: a message of any length up to the
    receiver's limit, cut into 1600-byte chunks and framed as MCS Send Data
    Indications in X.224 Data TPDUs, is recovered exactly: every frame decodes
    to the channel's id and one chunk, and the receiver, whatever a previous
    unfinished message left in its buffer, answers "not yet" to every chunk but
    the last and the original message to the last, leaving its buffer empty. *)
Theorem svc_roundtrip initiator channel_id data buffer max field :
  u16_ok initiator → u16_ok channel_id →
  len data < 2 ^ 62 → len data ≤ max → max < 2 ^ 63 →
  mapM frame_payload (wrap_indication initiator channel_id data)
    = Ok ((λ chunk, {| sd_initiator := initiator; sd_channel_id := channel_id;
                       sd_data := chunk; sd_complete := true |}) <$> chunkify data)
  ∧ feed buffer (chunkify data) max field
    = ([], replicate (pred (length (chunkify data))) (Ok None) ++ [Ok (Some data)]).
Proof.
  intros Hi Hc Hl Hmax Hmax'. split; [|by apply feed_chunkify].
  unfold wrap_indication. pose proof (chunkify_len data) as H.
  induction H as [|c cs Hc' _ IH]; [done|]. unfold DEFAULT_CHUNK_LENGTH in Hc'.
  rewrite !fmap_cons. cbn [mapM]. rewrite frame_payload_wrap by (done || lia).
  rewrite IH. done.
Qed.

Lemma svc_roundtrip_witness :
  snd (feed [7] (chunkify (replicate 2000 1)) 5000 "f")
    = [Ok None; Ok (Some (replicate 2000 1))].
Proof.
  assert (H1 : u16_ok 1001) by (split; [by vm_compute|reflexivity]).
  assert (H2 : len (replicate 2000 1) < 2 ^ 62) by (vm_compute; reflexivity).
  assert (H3 : len (replicate 2000 1) ≤ 5000) by (vm_compute; congruence).
  assert (H4 : 5000 < 2 ^ 63) by (vm_compute; reflexivity).
  rewrite (proj2 (svc_roundtrip 1001 1001 (replicate 2000 1) [7] 5000 "f" H1 H1 H2 H3 H4)).
  reflexivity.
Defined.
