(* ===== verification/DvcPdu.v ===== *)
(** [rdpcore-dvc/src/pdu.rs]: the wire format of dynamic virtual channels
    (MS-RDPEDYC), with its own Data/DataFirst fragmentation inside the chunking
    of the static channel. *)
From S2P Require Import Prelude Cursor Utf Svc.

Definition CMD_CREATE : Z := 1.
Definition CMD_DATA_FIRST : Z := 2.
Definition CMD_DATA : Z := 3.
Definition CMD_CLOSE : Z := 4.
Definition CMD_CAPABILITY : Z := 5.
Definition MAX_DATA_SIZE : Z := 1590.

(** ** Operations *)

(** The selector and the byte width it stands for. *)
Definition field_size_for (value : Z) : Z * Z :=
  if value <=? 0xFF then (0, 1) else if value <=? 0xFFFF then (1, 2) else (2, 4).

(** The [unreachable!] arm is a panic. *)
Definition write_variable (value size : Z) : res DecodeError bytes :=
  if size =? 1 then Ok (write_u8 (as_u8 value))
  else if size =? 2 then Ok (write_u16_le (as_u16 value))
  else if size =? 4 then Ok (write_u32_le value)
  else Panic.

Definition read_variable (selector : Z) : reader Z :=
  if selector =? 0 then read_u8
  else if selector =? 1 then read_u16_le
  else if selector =? 2 then read_u32_le
  else invalid "dvc.field_selector" "selector value 3 is reserved/unused".

Definition encode_capability_request : bytes :=
  write_u8 (as_u8 (Z.shiftl CMD_CAPABILITY 4)) ++ write_u8 0 ++ write_u16_le 2
  ++ write_u16_le 0 ++ write_u16_le 0 ++ write_u16_le 0 ++ write_u16_le 0.

Definition encode_create_request (channel_id : Z) (channel_name : rstring)
  : res DecodeError bytes :=
  let '(cb_sel, cb_size) := field_size_for channel_id in
  v ← write_variable channel_id cb_size;
  Ok (write_u8 (Z.lor (as_u8 (Z.shiftl CMD_CREATE 4)) cb_sel) ++ v
      ++ write_slice (as_bytes channel_name) ++ write_u8 0).

Definition encode_close (channel_id : Z) : res DecodeError bytes :=
  let '(cb_sel, cb_size) := field_size_for channel_id in
  v ← write_variable channel_id cb_size;
  Ok (write_u8 (Z.lor (as_u8 (Z.shiftl CMD_CLOSE 4)) cb_sel) ++ v).

Definition encode_data (channel_id : Z) (data : bytes) : res DecodeError bytes :=
  let '(cb_sel, cb_size) := field_size_for channel_id in
  v ← write_variable channel_id cb_size;
  Ok (write_u8 (Z.lor (as_u8 (Z.shiftl CMD_DATA 4)) cb_sel) ++ v ++ write_slice data).

Definition encode_data_first (channel_id total_length : Z) (first_chunk : bytes)
  : res DecodeError bytes :=
  let '(cb_sel, cb_size) := field_size_for channel_id in
  let '(len_sel, len_size) := field_size_for total_length in
  v ← write_variable channel_id cb_size;
  t ← write_variable total_length len_size;
  Ok (write_u8 (Z.lor (Z.lor (as_u8 (Z.shiftl CMD_DATA_FIRST 4)) (as_u8 (Z.shiftl len_sel 2)))
                      cb_sel)
      ++ v ++ t ++ write_slice first_chunk).

(** The [expect] on the first chunk is a panic. *)
Definition encode_channel_payload (channel_id : Z) (payload : bytes)
  : res DecodeError (list bytes) :=
  if len payload <=? MAX_DATA_SIZE then p ← encode_data channel_id payload; Ok [p]
  else
    match chunks MAX_DATA_SIZE payload with
    | [] => Panic
    | first :: chunks =>
      f ← encode_data_first channel_id (as_u32 (len payload)) first;
      fs ← mapM (encode_data channel_id) chunks;
      Ok (f :: fs)
    end.

Record CreateResponse := { cr_channel_id : Z; cr_creation_status : Z }.
Definition CreateResponse_is_ok (r : CreateResponse) : bool := cr_creation_status r =? 0.

Inductive ClientMessage :=
  | CapabilityResponse (version : Z)
  | CreateResponseMsg (r : CreateResponse)
  | Data (channel_id : Z) (data : bytes)
  | DataFirst (channel_id total_length : Z) (data : bytes)
  | Close (channel_id : Z)
  | Other.

Definition decode_client_message_from : reader ClientMessage :=
  header ← read_u8;
  let cmd := Z.shiftr header 4 in
  let sp := Z.land (Z.shiftr header 2) 0x03 in
  let cb_id := Z.land header 0x03 in
  if cmd =? CMD_CAPABILITY then
    _pad ← read_u8;
    version ← read_u16_le;
    mret (CapabilityResponse version)
  else if cmd =? CMD_CREATE then
    channel_id ← read_variable cb_id;
    creation_status ← read_u32_le;
    mret (CreateResponseMsg {| cr_channel_id := channel_id; cr_creation_status := creation_status |})
  else if cmd =? CMD_DATA then
    channel_id ← read_variable cb_id;
    data ← read_rest;
    mret (Data channel_id data)
  else if cmd =? CMD_DATA_FIRST then
    channel_id ← read_variable cb_id;
    total_length ← read_variable sp;
    data ← read_rest;
    mret (DataFirst channel_id total_length data)
  else if cmd =? CMD_CLOSE then
    channel_id ← read_variable cb_id;
    mret (Close channel_id)
  else mret Other.
Definition decode_client_message (input : bytes) : res DecodeError ClientMessage :=
  run decode_client_message_from input.

(** ** Safety *)

Definition ClientMessage_ok (m : ClientMessage) : Prop :=
  match m with
  | CapabilityResponse v => u16_ok v
  | CreateResponseMsg r => u32_ok (cr_channel_id r) ∧ u32_ok (cr_creation_status r)
  | Data id data => u32_ok id ∧ bytes_ok data
  | DataFirst id t data => u32_ok id ∧ u32_ok t ∧ bytes_ok data
  | Close id => u32_ok id
  | Other => True
  end.

Lemma read_variable_safe s : safe (read_variable s) (λ v, u32_ok v).
Proof. unfold read_variable. safe_steps; lia. Qed.
#[export] Hint Resolve read_variable_safe : safe.

Lemma decode_client_message_safe : safe decode_client_message_from ClientMessage_ok.
Proof. unfold decode_client_message_from. safe_steps; cbn; tauto. Qed.

Lemma decode_client_message_spec input :
  bytes_ok input → len input < 2 ^ 63 →
  match decode_client_message input with
  | Ok m => ClientMessage_ok m | Err _ => True | Panic => False end.
Proof.
  intros Hb Hl. pose proof (safe_run _ _ _ decode_client_message_safe Hb Hl) as H.
  unfold decode_client_message. by destruct (run _ input).
Qed.

(** The data of a message is part of the message. *)
Definition message_size (m : ClientMessage) : Z :=
  match m with Data _ d | DataFirst _ _ d => len d | _ => 0 end.

Lemma decode_client_message_size input m :
  bytes_ok input → len input < 2 ^ 63 → decode_client_message input = Ok m →
  message_size m ≤ len input.
Proof.
  intros Hb Hl. pose proof (len_nonneg input).
  eapply (sizes_run (len input) _ (λ m, message_size m ≤ len input)); [|done..|lia].
  unfold decode_client_message_from.
  assert (Hdone : ∀ m0 : reader ClientMessage,
    safe m0 (λ m, message_size m = 0) →
    sizes (len input) m0 (λ m, message_size m ≤ len input)).
  { intros m0 H0. apply sizes_safe. eapply safe_weaken; [exact H0|]. intros ? ->. done. }
  eapply sizes_bind; [apply sizes_safe, read_u8_safe|]. intros h _. cbn zeta.
  repeat case_match; try solve [apply Hdone; safe_steps; done].
  all: repeat (eapply sizes_bind; [apply sizes_safe, read_variable_safe|intros ? _]).
  all: eapply sizes_bind; [apply read_rest_sizes|]; intros d Hd.
  all: apply sizes_safe, safe_ret; exact Hd.
Qed.

(** ** Round trips *)

Lemma field_size_cases v :
  u32_ok v →
  (field_size_for v = (0, 1) ∧ u8_ok v) ∨ (field_size_for v = (1, 2) ∧ u16_ok v)
  ∨ field_size_for v = (2, 4).
Proof.
  intros Hv. unfold field_size_for.
  destruct (Z.leb_spec v 0xFF); [left; split; [done|lia]|].
  destruct (Z.leb_spec v 0xFFFF); [right; left; split; [done|lia]|]. by right; right.
Qed.

(** The selector that goes into the header and the bytes it announces. *)
Lemma write_variable_field v :
  u32_ok v →
  ∃ s w out, field_size_for v = (s, w) ∧ 0 ≤ s < 3 ∧ write_variable v w = Ok out ∧ len out ≤ 4
    ∧ ∀ l, reads (read_variable s) (out ++ l) v l.
Proof.
  intros Hv. destruct (field_size_cases v Hv) as [[E H]|[[E H]|E]]; rewrite E;
    (eexists _, _, _; split_and!; [done|lia|lia|reflexivity| |intros l; unfold read_variable; cbn]).
  - by vm_compute.
  - rewrite as_u8_id by done. apply read_u8_write.
  - autorewrite with len. lia.
  - rewrite as_u16_id by done. by apply read_u16_le_write.
  - autorewrite with len. lia.
  - by apply read_u32_le_write.
Qed.

(** The three fields packed in the header byte. *)
Lemma header_fields cmd sp cb :
  0 ≤ cmd < 16 → 0 ≤ sp < 4 → 0 ≤ cb < 4 →
  let h := Z.lor (Z.lor (as_u8 (Z.shiftl cmd 4)) (as_u8 (Z.shiftl sp 2))) cb in
  u8_ok h ∧ Z.shiftr h 4 = cmd ∧ Z.land (Z.shiftr h 2) 0x03 = sp ∧ Z.land h 0x03 = cb.
Proof.
  intros Hc Hs Hb.
  set (P := λ z, let h := Z.lor (Z.lor (as_u8 (Z.shiftl (z / 16) 4)) (as_u8 (Z.shiftl (z / 4 mod 4) 2)))
                            (z mod 4) in
    bool_decide (u8_ok h) && (Z.shiftr h 4 =? z / 16)
    && (Z.land (Z.shiftr h 2) 0x03 =? z / 4 mod 4) && (Z.land h 0x03 =? z mod 4)).
  pose proof (u8_forall P ltac:(vm_compute; reflexivity) (cmd * 16 + sp * 4 + cb) ltac:(lia)) as H.
  unfold P in H.
  replace ((cmd * 16 + sp * 4 + cb) / 16) with cmd in H by (Z.to_euclidean_division_equations; lia).
  replace ((cmd * 16 + sp * 4 + cb) / 4 mod 4) with sp in H
    by (Z.to_euclidean_division_equations; lia).
  replace ((cmd * 16 + sp * 4 + cb) mod 4) with cb in H by (Z.to_euclidean_division_equations; lia).
  rewrite !andb_true_iff, bool_decide_eq_true, !Z.eqb_eq in H. cbn zeta. tauto.
Qed.

Lemma header_fields_nosp cmd cb :
  0 ≤ cmd < 16 → 0 ≤ cb < 4 →
  let h := Z.lor (as_u8 (Z.shiftl cmd 4)) cb in
  u8_ok h ∧ Z.shiftr h 4 = cmd ∧ Z.land h 0x03 = cb.
Proof.
  intros Hc Hb. pose proof (header_fields cmd 0 cb Hc ltac:(lia) Hb) as H. cbn zeta in *.
  change (as_u8 (Z.shiftl 0 2)) with 0 in H. rewrite Z.lor_0_r in H. tauto.
Qed.

Lemma encode_data_decode id data :
  u32_ok id → len data < 2 ^ 62 →
  ∃ p, encode_data id data = Ok p ∧ len p ≤ 5 + len data
    ∧ decode_client_message p = Ok (Data id data).
Proof.
  intros Hid Hd. destruct (write_variable_field id Hid) as (s & w & out & Hf & Hs & Hw & Ho & Hr).
  unfold encode_data. rewrite Hf, Hw. eexists; split_and!; [reflexivity| |].
  { unfold write_slice. autorewrite with len. lia. }
  destruct (header_fields_nosp CMD_DATA s) as (Hh & E1 & E2); [done|lia|].
  eapply (reads_run _ _ _ []); [unfold write_slice; autorewrite with len; lia|].
  unfold decode_client_message_from. eapply reads_bind; [apply read_u8_write|].
  cbn zeta. rewrite E1, E2. cbn [Z.eqb CMD_DATA CMD_CAPABILITY CMD_CREATE Pos.eqb].
  eapply reads_bind; [apply Hr|]. eapply reads_bind; [apply read_rest_reads|]. by apply reads_ret.
Qed.

Lemma encode_data_first_decode id total data :
  u32_ok id → u32_ok total → len data < 2 ^ 62 →
  ∃ p, encode_data_first id total data = Ok p ∧ len p ≤ 9 + len data
    ∧ decode_client_message p = Ok (DataFirst id total data).
Proof.
  intros Hid Ht Hd. destruct (write_variable_field id Hid) as (s & w & out & Hf & Hs & Hw & Ho & Hr).
  destruct (write_variable_field total Ht) as (s' & w' & out' & Hf' & Hs' & Hw' & Ho' & Hr').
  unfold encode_data_first. rewrite Hf, Hf'. cbn. rewrite Hw, Hw'.
  eexists; split_and!; [reflexivity| |].
  { unfold write_slice. autorewrite with len. lia. }
  destruct (header_fields CMD_DATA_FIRST s' s) as (Hh & E1 & E2 & E3); [done|lia..|].
  eapply (reads_run _ _ _ []); [unfold write_slice; autorewrite with len; lia|].
  unfold decode_client_message_from. eapply reads_bind; [apply read_u8_write|].
  cbn zeta. rewrite E1, E2, E3.
  cbn [Z.eqb CMD_DATA CMD_CAPABILITY CMD_CREATE CMD_DATA_FIRST Pos.eqb].
  eapply reads_bind; [apply Hr|]. eapply reads_bind; [apply Hr'|].
  eapply reads_bind; [apply read_rest_reads|]. by apply reads_ret.
Qed.

Lemma encode_close_decode id :
  u32_ok id → ∃ p, encode_close id = Ok p ∧ decode_client_message p = Ok (Close id).
Proof.
  intros Hid. destruct (write_variable_field id Hid) as (s & w & out & Hf & Hs & Hw & Ho & Hr).
  unfold encode_close. rewrite Hf. cbn. rewrite Hw. eexists; split; [reflexivity|].
  destruct (header_fields_nosp CMD_CLOSE s) as (Hh & E1 & E2); [done|lia|].
  eapply (reads_run _ _ _ []); [autorewrite with len; lia|].
  unfold decode_client_message_from. eapply reads_bind; [apply read_u8_write|].
  cbn zeta. rewrite E1, E2. cbn [Z.eqb CMD_DATA CMD_CAPABILITY CMD_CREATE CMD_DATA_FIRST CMD_CLOSE Pos.eqb].
  rewrite <-(app_nil_r out). eapply reads_bind; [apply Hr|]. by apply reads_ret.
Qed.

(** The create request carries the id and the NUL-terminated name. *)
Lemma encode_create_request_ok id name :
  u32_ok id → ∃ p, encode_create_request id name = Ok p.
Proof.
  intros Hid. destruct (write_variable_field id Hid) as (s & w & out & Hf & Hs & Hw & Ho & Hr).
  unfold encode_create_request. rewrite Hf. cbn. rewrite Hw. by eexists.
Qed.

(** What the PDUs of [encode_channel_payload] decode to. *)
Definition fragments (id : Z) (payload : bytes) : list ClientMessage :=
  if len payload <=? MAX_DATA_SIZE then [Data id payload]
  else match chunks MAX_DATA_SIZE payload with
       | [] => []
       | first :: rest => DataFirst id (len payload) first :: (Data id <$> rest)
       end.

Lemma encode_datas_decode id cs :
  u32_ok id → Forall (λ c, 0 < len c ≤ MAX_DATA_SIZE) cs →
  ∃ ps, mapM (encode_data id) cs = Ok ps
    ∧ Forall2 (λ p c, len p ≤ DEFAULT_CHUNK_LENGTH ∧ decode_client_message p = Ok (Data id c)) ps cs.
Proof.
  intros Hid H. induction H as [|c cs Hc _ IH]; [by exists []|].
  unfold MAX_DATA_SIZE in Hc.
  destruct (encode_data_decode id c Hid) as (p & E & Hp & Hdec); [lia|].
  destruct IH as (ps & Eps & Hps). exists (p :: ps). split.
  - cbn [mapM]. rewrite E. cbn. cbn in Eps. by rewrite Eps.
  - constructor; [|done]. split; [unfold DEFAULT_CHUNK_LENGTH; lia|done].
Qed.

(** Every PDU fits one chunk of the static channel, as the comment on
    [MAX_DATA_SIZE] promises, and decodes to its fragment. *)
Lemma encode_channel_payload_decode id payload :
  u32_ok id → len payload < 2 ^ 32 →
  ∃ ps, encode_channel_payload id payload = Ok ps
    ∧ Forall2 (λ p m, len p ≤ DEFAULT_CHUNK_LENGTH ∧ decode_client_message p = Ok m)
        ps (fragments id payload).
Proof.
  intros Hid Hl. unfold encode_channel_payload, fragments. pose proof (len_nonneg payload).
  destruct (Z.leb_spec (len payload) MAX_DATA_SIZE) as [Hs|Hs]; unfold MAX_DATA_SIZE in *.
  - destruct (encode_data_decode id payload Hid) as (p & -> & Hp & Hdec); [lia|].
    exists [p]. split; [done|]. constructor; [|constructor].
    split; [unfold DEFAULT_CHUNK_LENGTH; lia|done].
  - pose proof (chunks_bound 1590 ltac:(lia) payload) as Hb.
    assert (chunks 1590 payload ≠ []) as Hne.
    { rewrite chunks_step; [done|lia|]. by intros ->. }
    destruct (chunks 1590 payload) as [|c cs]; [done|]. apply Forall_cons in Hb as [Hc Hcs].
    rewrite as_u32_id by lia.
    destruct (encode_data_first_decode id (len payload) c Hid) as (p & -> & Hp & Hdec); [lia..|].
    destruct (encode_datas_decode id cs Hid Hcs) as (ps & Eps & Hps).
    exists (p :: ps). split; [cbn; cbn in Eps; by rewrite Eps|].
    constructor; [split; [unfold DEFAULT_CHUNK_LENGTH; lia|done]|].
    clear -Hps. induction Hps; [constructor|]. by constructor.
Qed.

(** Encoding never panics: [field_size_for] only returns widths that
    [write_variable] handles and a long payload has a first chunk. *)
Lemma encode_data_total id data : u32_ok id → ∃ p, encode_data id data = Ok p.
Proof.
  intros Hid. destruct (write_variable_field id Hid) as (s & w & out & Hf & _ & Hw & _).
  unfold encode_data. rewrite Hf. cbn. rewrite Hw. by eexists.
Qed.

Lemma encode_data_first_total id t data :
  u32_ok id → u32_ok t → ∃ p, encode_data_first id t data = Ok p.
Proof.
  intros Hid Ht. destruct (write_variable_field id Hid) as (s & w & out & Hf & _ & Hw & _).
  destruct (write_variable_field t Ht) as (s' & w' & out' & Hf' & _ & Hw' & _).
  unfold encode_data_first. rewrite Hf, Hf'. cbn. rewrite Hw, Hw'. by eexists.
Qed.

Lemma mapM_total {A B} (f : A → res DecodeError B) l :
  (∀ a, ∃ b, f a = Ok b) → ∃ bs, mapM f l = Ok bs.
Proof.
  intros Hf. induction l as [|a l [bs IH]]; [by exists []|]. destruct (Hf a) as [b Hb].
  exists (b :: bs). cbn [mapM]. rewrite Hb. cbn. cbn in IH. by rewrite IH.
Qed.

Lemma encode_channel_payload_total id payload :
  u32_ok id → ∃ ps, encode_channel_payload id payload = Ok ps.
Proof.
  intros Hid. unfold encode_channel_payload. destruct (Z.leb_spec (len payload) MAX_DATA_SIZE).
  - destruct (encode_data_total id payload Hid) as [p ->]. by eexists.
  - assert (chunks MAX_DATA_SIZE payload ≠ []) as Hne.
    { rewrite chunks_step; [done|done|]. intros ->. done. }
    destruct (chunks MAX_DATA_SIZE payload) as [|c cs]; [done|].
    destruct (encode_data_first_total id (as_u32 (len payload)) c Hid) as [p ->];
      [apply as_u32_ok|].
    destruct (mapM_total (encode_data id) cs) as [ps Hps]; [intros; by apply encode_data_total|].
    cbn. cbn in Hps. rewrite Hps. by eexists.
Qed.
