(* ===== verification/Dvc.v ===== *)
(** [rdpcore-dvc/src/lib.rs]: [DvcMux], the multiplexer of dynamic virtual
    channels over the ["drdynvc"] static channel.  The handlers of the channels
    are the interface [DvcHandler]; every theorem is proved against it. *)
From S2P Require Import Prelude Cursor Utf Svc DvcPdu.

(** [trait DvcHandler]: a handler may change its own state and answers with
    payloads. *)
Class DvcHandler (H : Type) := {
  channel_name : H → rstring;
  on_open : H → H * list bytes;
  on_data : H → bytes → H * list bytes
}.

Definition MAX_DVC_MESSAGE_SIZE : Z := 16 * 1024 * 1024.

Section DvcMux.
Context {H : Type} `{DvcHandler H}.

(** ** State *)

(** [reassembly] is [Some (total_length, accumulated)] between a [DataFirst] and
    the end of its message. *)
Record ChannelSlot := {
  slot_id : Z;
  handler : H;
  reassembly : option (Z * bytes)
}.

Record DvcMux := {
  channel_id : Z;
  user_channel_id : Z;
  svc_incoming : bytes;
  next_dynamic_id : Z;
  capability_negotiated : bool;
  pending : list H;
  channels : list ChannelSlot
}.

Definition set_svc_incoming (m : DvcMux) (b : bytes) : DvcMux :=
  {| channel_id := channel_id m; user_channel_id := user_channel_id m; svc_incoming := b;
     next_dynamic_id := next_dynamic_id m; capability_negotiated := capability_negotiated m;
     pending := pending m; channels := channels m |}.
Definition set_channels (m : DvcMux) (cs : list ChannelSlot) : DvcMux :=
  {| channel_id := channel_id m; user_channel_id := user_channel_id m;
     svc_incoming := svc_incoming m;
     next_dynamic_id := next_dynamic_id m; capability_negotiated := capability_negotiated m;
     pending := pending m; channels := cs |}.
Definition set_pending (m : DvcMux) (negotiated : bool) (p : list H) : DvcMux :=
  {| channel_id := channel_id m; user_channel_id := user_channel_id m;
     svc_incoming := svc_incoming m;
     next_dynamic_id := next_dynamic_id m; capability_negotiated := negotiated;
     pending := p; channels := channels m |}.

(** ** Operations: each returns the new state with its result, because a method
    that returns an error has already changed the mux. *)

Abbreviation frames := (list bytes).

Definition DvcMux_new (channel user : Z) : DvcMux * frames :=
  ({| channel_id := channel; user_channel_id := user; svc_incoming := [];
      next_dynamic_id := 1; capability_negotiated := false; pending := []; channels := [] |},
   wrap_indication user channel encode_capability_request).

Definition open_channel (m : DvcMux) (h : H) : DvcMux * res DecodeError frames :=
  let id := next_dynamic_id m in
  let name := channel_name h in
  ({| channel_id := channel_id m; user_channel_id := user_channel_id m;
      svc_incoming := svc_incoming m; next_dynamic_id := as_u32 (id + 1);
      capability_negotiated := capability_negotiated m; pending := pending m;
      channels := channels m ++ [{| slot_id := id; handler := h; reassembly := None |}] |},
   p ← encode_create_request id name;
   Ok (wrap_indication (user_channel_id m) (channel_id m) p)).

Definition register_channel (m : DvcMux) (h : H) : DvcMux * res DecodeError frames :=
  if capability_negotiated m then open_channel m h
  else (set_pending m false (pending m ++ [h]), Ok []).

(** The loop over the pending handlers. *)
Fixpoint open_pending (m : DvcMux) (hs : list H) (acc : frames) : DvcMux * res DecodeError frames :=
  match hs with
  | [] => (m, Ok acc)
  | h :: hs =>
    match open_channel m h with
    | (m, Ok fs) => open_pending m hs (acc ++ fs)
    | (m, Err e) => (m, Err e)
    | (m, Panic) => (m, Panic)
    end
  end.

Definition encode_payloads (m : DvcMux) (id : Z) (payloads : list bytes)
  : res DecodeError frames :=
  pdus ← mapM (encode_channel_payload id) payloads;
  Ok (mjoin (wrap_indication (user_channel_id m) (channel_id m) <$> mjoin pdus)).

(** [iter_mut().find(|slot| slot.id == id)] and a change of the slot found. *)
Fixpoint with_slot {R} (id : Z) (f : ChannelSlot → ChannelSlot * R) (cs : list ChannelSlot)
  : option (list ChannelSlot * R) :=
  match cs with
  | [] => None
  | c :: cs =>
    if slot_id c =? id then let '(c, r) := f c in Some (c :: cs, r)
    else '(cs, r) ← with_slot id f cs; Some (c :: cs, r)
  end.

Definition set_reassembly (s : ChannelSlot) (r : option (Z * bytes)) : ChannelSlot :=
  {| slot_id := slot_id s; handler := handler s; reassembly := r |}.

(** The [complete] of [handle_incoming_data]: the message, if it is complete. *)
Definition reassemble_slot (slot : ChannelSlot) (data : bytes) (starts_new : option Z)
  : ChannelSlot * res DecodeError (option bytes) :=
  match starts_new with
  | Some total_length =>
    if total_length >? MAX_DVC_MESSAGE_SIZE then
      (slot, Err (InvalidValue "dvc.data_first.total_length"
               "DataFirst declared total length exceeds maximum allowed size"))
    else if as_u32 (len data) >=? total_length then (slot, Ok (Some (ztake total_length data)))
    else (set_reassembly slot (Some (total_length, data)), Ok None)
  | None =>
    match reassembly slot with
    | Some (total_length, buffered) =>
      let slot := set_reassembly slot None in
      if saturating_add_usize (len buffered) (len data) >? MAX_DVC_MESSAGE_SIZE then
        (slot, Err (InvalidValue "dvc.data.buffered"
                 "accumulated dynamic channel data exceeded maximum allowed size"))
      else
        let buffered := buffered ++ data in
        if as_u32 (len buffered) >=? total_length then
          (slot, Ok (Some (ztake total_length buffered)))
        else (set_reassembly slot (Some (total_length, buffered)), Ok None)
    | None => (slot, Ok (Some data))
    end
  end.

Definition set_handler (s : ChannelSlot) (h : H) : ChannelSlot :=
  {| slot_id := slot_id s; handler := h; reassembly := reassembly s |}.

(** Reassembly, then the handler on a complete message: its answer, or [None]
    when the method returns early with no frames. *)
Definition slot_data (data : bytes) (starts_new : option Z) (slot : ChannelSlot)
  : ChannelSlot * res DecodeError (option (list bytes)) :=
  match reassemble_slot slot data starts_new with
  | (slot, Ok (Some complete)) =>
    let '(h, payloads) := on_data (handler slot) complete in
    (set_handler slot h, Ok (Some payloads))
  | (slot, Ok None) => (slot, Ok None)
  | (slot, Err e) => (slot, Err e)
  | (slot, Panic) => (slot, Panic)
  end.

Definition handle_incoming_data (m : DvcMux) (id : Z) (data : bytes) (starts_new : option Z)
  : DvcMux * res DecodeError frames :=
  match with_slot id (slot_data data starts_new) (channels m) with
  | None => (m, Ok [])
  | Some (cs, r) =>
    let m := set_channels m cs in
    (m, o ← r; match o with Some payloads => encode_payloads m id payloads | None => Ok [] end)
  end.

(** The [match] of [on_channel_data] on a complete message. *)
Definition on_client_message (m : DvcMux) (msg : ClientMessage) : DvcMux * res DecodeError frames :=
  match msg with
  | CapabilityResponse _ =>
    let handlers := pending m in
    open_pending (set_pending m true []) handlers []
  | CreateResponseMsg r =>
    if negb (CreateResponse_is_ok r) then
      (set_channels m (filter (λ s, slot_id s ≠ cr_channel_id r) (channels m)), Ok [])
    else
      match with_slot (cr_channel_id r)
              (λ s, let '(h, ps) := on_open (handler s) in (set_handler s h, ps)) (channels m) with
      | None => (m, Ok [])
      | Some (cs, payloads) =>
        let m := set_channels m cs in
        (m, encode_payloads m (cr_channel_id r) payloads)
      end
  | Data id data => handle_incoming_data m id data None
  | DataFirst id total_length data => handle_incoming_data m id data (Some total_length)
  | Close id => (set_channels m (filter (λ s, slot_id s ≠ id) (channels m)), Ok [])
  | Other => (m, Ok [])
  end.

Definition on_channel_data (m : DvcMux) (payload : bytes) : DvcMux * res DecodeError frames :=
  let '(buffer, r) :=
    reassemble (svc_incoming m) payload MAX_DVC_MESSAGE_SIZE "dvc.svc_incoming" in
  let m := set_svc_incoming m buffer in
  match r with
  | Err e => (m, Err e)
  | Panic => (m, Panic)
  | Ok None => (m, Ok [])
  | Ok (Some message) =>
    match decode_client_message message with
    | Err e => (m, Err e)
    | Panic => (m, Panic)
    | Ok msg => on_client_message m msg
    end
  end.

(** [str] equality on the names. *)
Definition channel_id_for_name (m : DvcMux) (name : rstring) : option Z :=
  slot_id <$> head (filter (λ s, channel_name (handler s) = name) (channels m)).

Definition wrap_channel_payloads (m : DvcMux) (id : Z) (payloads : list bytes)
  : res DecodeError frames := encode_payloads m id payloads.

(** ** The invariant *)

(** What the server and the client do to a mux. *)
Inductive event :=
  | Register (h : H)
  | Receive (payload : bytes).

Definition step (m : DvcMux) (e : event) : DvcMux * res DecodeError frames :=
  match e with
  | Register h => register_channel m h
  | Receive payload => on_channel_data m payload
  end.

Fixpoint run_events (m : DvcMux) (es : list event) : DvcMux * list (res DecodeError frames) :=
  match es with
  | [] => (m, [])
  | e :: es =>
    let '(m, r) := step m e in
    let '(m, rs) := run_events m es in
    (m, r :: rs)
  end.

Fixpoint registrations (es : list event) : Z :=
  match es with
  | [] => 0
  | Register _ :: es => 1 + registrations es
  | Receive _ :: es => registrations es
  end.

Context (I : H → Prop).

Definition event_ok (e : event) : Prop :=
  match e with
  | Register h => I h
  | Receive payload => bytes_ok payload ∧ len payload < 2 ^ 62
  end.

Definition slot_ok (next : Z) (s : ChannelSlot) : Prop :=
  1 ≤ slot_id s < next ∧ I (handler s)
  ∧ match reassembly s with
    | Some (total_length, buffered) => len buffered < total_length ≤ MAX_DVC_MESSAGE_SIZE
    | None => True
    end.

(** [n] channels have been registered so far. *)
Record mux_ok (n : Z) (m : DvcMux) : Prop := {
  ok_svc : len (svc_incoming m) ≤ MAX_DVC_MESSAGE_SIZE;
  ok_svc_bytes : bytes_ok (svc_incoming m);
  ok_pending : capability_negotiated m = true → pending m = [];
  ok_closed : capability_negotiated m = false → channels m = [];
  ok_handlers : Forall I (pending m);
  ok_ids : NoDup (slot_id <$> channels m);
  ok_slots : Forall (slot_ok (next_dynamic_id m)) (channels m);
  ok_next : 1 ≤ next_dynamic_id m;
  ok_count : next_dynamic_id m + len (pending m) = 1 + n
}.

Hypothesis I_open : ∀ h, I h → I (on_open h).1.
Hypothesis I_data : ∀ h data, I h → len data ≤ MAX_DVC_MESSAGE_SIZE → I (on_data h data).1.

Lemma DvcMux_new_ok channel user : mux_ok 0 (DvcMux_new channel user).1.
Proof. split; cbn; try done; try constructor. Qed.

Lemma encode_payloads_total m id ps : u32_ok id → ∃ fs, encode_payloads m id ps = Ok fs.
Proof.
  intros Hid. unfold encode_payloads.
  destruct (mapM_total (encode_channel_payload id) ps) as [pdus E].
  { intros; by apply encode_channel_payload_total. }
  rewrite E. by eexists.
Qed.

Lemma slot_ok_mono next next' s : next ≤ next' → slot_ok next s → slot_ok next' s.
Proof. intros ? (?&?&?). split; [lia|done]. Qed.

Lemma open_channel_ok n m h :
  mux_ok n m → capability_negotiated m = true → I h → n < 2 ^ 32 - 2 →
  mux_ok (n + 1) (open_channel m h).1 ∧ (∃ fs, (open_channel m h).2 = Ok fs)
  ∧ capability_negotiated (open_channel m h).1 = true.
Proof.
  intros [] Hneg Hh Hn. rewrite (ok_pending0 Hneg) in *. rewrite (@len_nil H) in *.
  split_and!; [|cbn|done].
  - split; cbn -[fmap list_fmap]; try done.
    + by rewrite Hneg.
    + by rewrite (ok_pending0 Hneg).
    + rewrite fmap_app. apply NoDup_app. split_and!; [done| |apply NoDup_singleton].
      intros i Hi Hi'%list_elem_of_singleton. cbn in Hi'. subst i.
      apply list_elem_of_fmap in Hi as (s & Hs & Hin).
      pose proof (proj1 (Forall_forall _ _) ok_slots0 s Hin) as (Hlt & _). lia.
    + rewrite as_u32_id by lia. apply Forall_app. split.
      * eapply Forall_impl; [done|]. intros s. apply slot_ok_mono. lia.
      * constructor; [|constructor]. split_and!; cbn; done || lia.
    + rewrite as_u32_id by lia. lia.
    + rewrite as_u32_id by lia. rewrite (ok_pending0 Hneg), (@len_nil H). lia.
  - destruct (encode_create_request_ok (next_dynamic_id m) (channel_name h)) as [p ->]; [lia|].
    by eexists.
Qed.

Lemma register_channel_ok n m h :
  mux_ok n m → I h → n < 2 ^ 32 - 2 →
  mux_ok (n + 1) (register_channel m h).1 ∧ ∃ fs, (register_channel m h).2 = Ok fs.
Proof.
  intros Hm Hh Hn. unfold register_channel. destruct (capability_negotiated m) eqn:Hneg.
  - destruct (open_channel_ok n m h) as (? & ? & _); done.
  - split; [|by eexists]. destruct Hm. split; cbn; try done.
    + intros _. by apply ok_closed0.
    + apply Forall_app; split; [done|]. by constructor.
    + rewrite len_app, len_cons, (@len_nil H). lia.
Qed.

Lemma open_pending_ok hs : ∀ n m acc,
  mux_ok n m → capability_negotiated m = true → Forall I hs → n + len hs < 2 ^ 32 - 1 →
  mux_ok (n + len hs) (open_pending m hs acc).1 ∧ ∃ fs, (open_pending m hs acc).2 = Ok fs.
Proof.
  induction hs as [|h hs IH]; intros n m acc Hm Hneg Hhs Hn.
  - rewrite (@len_nil H), Z.add_0_r. split; [done|by eexists].
  - rewrite len_cons in *. apply Forall_cons in Hhs as [Hh Hhs]. pose proof (len_nonneg hs).
    destruct (open_channel_ok n m h) as (Hm1 & [fs E] & Hneg1); [done..|lia|].
    cbn [open_pending]. destruct (open_channel m h) as [m1 r]. cbn in *. subst r.
    replace (n + (1 + len hs)) with (n + 1 + len hs) by lia. apply IH; done || lia.
Qed.

(** A change of one slot that keeps its id and its invariant. *)
Lemma with_slot_ok {R} n m id (f : ChannelSlot → ChannelSlot * R) cs r :
  mux_ok n m →
  (∀ s, slot_ok (next_dynamic_id m) s → slot_id (f s).1 = slot_id s ∧ slot_ok (next_dynamic_id m) (f s).1) →
  with_slot id f (channels m) = Some (cs, r) → mux_ok n (set_channels m cs).
Proof.
  intros [] Hf Hw.
  assert (slot_id <$> cs = slot_id <$> channels m ∧ Forall (slot_ok (next_dynamic_id m)) cs)
    as [Hids Hslots].
  { clear -Hf Hw ok_slots0. revert cs Hw. induction ok_slots0 as [|s l Hs Hl IH]; intros cs Hw; [done|].
    cbn in Hw. destruct (Hf s Hs) as [Hid Hok]. destruct (slot_id s =? id).
    - destruct (f s) as [s' r']. injection Hw as <- <-. cbn in *. rewrite Hid.
      split; [done|]. by constructor.
    - destruct (with_slot id f l) as [[l' r']|]; [|done]. cbn in Hw. injection Hw as <- <-.
      destruct (IH l' eq_refl) as [E ?]. cbn. rewrite E. split; [done|]. by constructor. }
  split; cbn; try done.
  - intros Hneg. rewrite (ok_closed0 Hneg) in Hids. by apply fmap_nil_inv in Hids.
  - by rewrite Hids.
Qed.

Lemma retain_ok n m (P : ChannelSlot → Prop) `{∀ s, Decision (P s)} :
  mux_ok n m → mux_ok n (set_channels m (filter P (channels m))).
Proof.
  intros []. split; cbn; try done.
  - intros Hneg. by rewrite (ok_closed0 Hneg).
  - eapply sublist_NoDup; [exact ok_ids0|]. apply fmap_sublist. apply sublist_filter.
  - apply Forall_forall. intros s [_ Hs]%list_elem_of_filter.
    by apply (proj1 (Forall_forall _ _) ok_slots0).
Qed.

Lemma reassemble_slot_ok next s data starts_new :
  slot_ok next s → len data ≤ MAX_DVC_MESSAGE_SIZE →
  match starts_new with Some t => 0 ≤ t | None => True end →
  match reassemble_slot s data starts_new with
  | (s', r) => slot_ok next s' ∧ slot_id s' = slot_id s ∧ handler s' = handler s
    ∧ match r with Ok (Some c) => len c ≤ MAX_DVC_MESSAGE_SIZE | Panic => False | _ => True end
  end.
Proof.
  intros Hs Hd Ht. pose proof Hs as (Hid & Hi & Hr). pose proof (len_nonneg data).
  unfold reassemble_slot.
  unfold MAX_DVC_MESSAGE_SIZE in *.
  destruct starts_new as [t|].
  - destruct (Z.gtb_spec t (16 * 1024 * 1024)); [done|]. rewrite as_u32_id by lia.
    rewrite Z.geb_leb. destruct (Z.leb_spec t (len data)).
    + split_and!; try done. rewrite len_ztake; lia.
    + split_and!; try done; cbn; split_and?; try done; unfold MAX_DVC_MESSAGE_SIZE; lia.
  - destruct (reassembly s) as [[t b]|] eqn:Es; [|done]. rewrite ?Es in Hr. cbn beta iota in Hr. pose proof (len_nonneg b).
    unfold saturating_add_usize, USIZE_MAX.
    destruct (Z.gtb_spec (Z.min (len b + len data) (2 ^ 64 - 1)) (16 * 1024 * 1024)); [done|].
    rewrite as_u32_id, Z.geb_leb, len_app by (rewrite len_app; lia).
    destruct (Z.leb_spec t (len b + len data)).
    + split_and!; try done. rewrite len_ztake; rewrite ?len_app; lia.
    + unfold slot_ok, set_reassembly, MAX_DVC_MESSAGE_SIZE; cbn [slot_id handler reassembly].
      rewrite len_app. split_and!; try done; lia.
Qed.

Lemma slot_data_ok next s data starts_new :
  slot_ok next s → len data ≤ MAX_DVC_MESSAGE_SIZE →
  match starts_new with Some t => 0 ≤ t | None => True end →
  slot_id (slot_data data starts_new s).1 = slot_id s
  ∧ slot_ok next (slot_data data starts_new s).1 ∧ no_panic (slot_data data starts_new s).2.
Proof.
  intros Hs Hd Ht. pose proof (reassemble_slot_ok next s data starts_new Hs Hd Ht) as Hr.
  unfold slot_data. destruct (reassemble_slot s data starts_new) as [s' r].
  destruct Hr as (Hok & Hid & Hh & Hc). destruct r as [[c|]| |]; [|done..].
  pose proof (I_data (handler s') c) as HI.
  destruct (on_data (handler s') c) as [h ps]. cbn in *.
  destruct Hok as (?&?&?). split; [done|split; [|done]].
  unfold slot_ok. cbn [slot_id handler reassembly set_handler]. split_and!; try done; try lia.
  by apply HI.
Qed.

Lemma with_slot_Some {R} id (f : ChannelSlot → ChannelSlot * R) l cs r :
  with_slot id f l = Some (cs, r) → ∃ s, s ∈ l ∧ slot_id s = id ∧ r = (f s).2.
Proof.
  revert cs. induction l as [|s l IH]; intros cs; [done|]. cbn.
  destruct (Z.eqb_spec (slot_id s) id).
  - destruct (f s) as [s' r'] eqn:E. intros [= <- <-]. exists s. rewrite E. split_and!; [by left|done..].
  - destruct (with_slot id f l) as [[l' r']|]; [|done]. cbn. intros [= <- <-].
    destruct (IH _ eq_refl) as (s' & ? & ? & ?). exists s'. split_and!; [by right|done..].
Qed.

Lemma slots_u32 n m s : mux_ok n m → n < 2 ^ 32 - 1 → s ∈ channels m → u32_ok (slot_id s).
Proof.
  intros [] Hn Hs. pose proof (proj1 (Forall_forall _ _) ok_slots0 s Hs) as (? & _).
  pose proof (len_nonneg (pending m)). lia.
Qed.

Lemma handle_incoming_data_ok n m id data starts_new :
  mux_ok n m → n < 2 ^ 32 - 1 → len data ≤ MAX_DVC_MESSAGE_SIZE →
  match starts_new with Some t => 0 ≤ t | None => True end →
  mux_ok n (handle_incoming_data m id data starts_new).1
  ∧ no_panic (handle_incoming_data m id data starts_new).2.
Proof.
  intros Hm Hn Hd Ht. unfold handle_incoming_data.
  destruct (with_slot id _ (channels m)) as [[cs r]|] eqn:Hw; [|done].
  split.
  - eapply with_slot_ok; [done| |exact Hw]. intros s Hs.
    destruct (slot_data_ok _ s data starts_new Hs Hd Ht) as (? & ? & _). done.
  - apply with_slot_Some in Hw as (s & Hin & Hid & ->).
    pose proof (slots_u32 n m s Hm Hn Hin) as Hu. rewrite Hid in Hu.
    assert (Hs : slot_ok (next_dynamic_id m) s).
    { destruct Hm. by apply (proj1 (Forall_forall _ _) ok_slots0). }
    destruct (slot_data_ok _ s data starts_new Hs Hd Ht) as (_ & _ & Hp).
    cbn. apply no_panic_bind; [done|]. intros [ps|] _; [|done].
    by destruct (encode_payloads_total (set_channels m cs) id ps Hu) as [fs ->].
Qed.

Lemma on_client_message_ok n m msg :
  mux_ok n m → n < 2 ^ 32 - 1 → ClientMessage_ok msg → message_size msg ≤ MAX_DVC_MESSAGE_SIZE →
  mux_ok n (on_client_message m msg).1 ∧ no_panic (on_client_message m msg).2.
Proof.
  intros Hm Hn Hok Hsize.
  destruct msg as [v|r|id d|id t d|id|]; cbn [on_client_message message_size ClientMessage_ok] in *.
  - assert (Hm' : mux_ok (n - len (pending m)) (set_pending m true [])).
    { destruct Hm. split; cbn; try done; try constructor. rewrite (@len_nil H). lia. }
    destruct (open_pending_ok (pending m) _ _ [] Hm') as [H1 [fs E]];
      [done|by destruct Hm|lia|]. rewrite E. split; [|done].
    by replace (n - len (pending m) + len (pending m)) with n in H1 by lia.
  - destruct (CreateResponse_is_ok r); cbn [negb]; [|split; [by apply retain_ok|done]].
    destruct (with_slot _ _ (channels m)) as [[cs ps]|] eqn:Hw; [|done]. split.
    + eapply with_slot_ok; [done| |exact Hw]. intros s (? & Hi & ?).
      pose proof (I_open (handler s) Hi). destruct (on_open (handler s)). cbn in *. done.
    + apply with_slot_Some in Hw as (s & Hin & Hid & _). destruct Hok as [Hu _].
      by destruct (encode_payloads_total (set_channels m cs) (cr_channel_id r) ps Hu) as [fs ->].
  - by apply handle_incoming_data_ok.
  - apply handle_incoming_data_ok; try done. lia.
  - split; [by apply retain_ok|done].
  - done.
Qed.

Lemma set_svc_incoming_ok n m b :
  mux_ok n m → len b ≤ MAX_DVC_MESSAGE_SIZE → bytes_ok b → mux_ok n (set_svc_incoming m b).
Proof. intros [] ??. by split. Qed.

Lemma on_channel_data_ok n m payload :
  mux_ok n m → n < 2 ^ 32 - 1 → bytes_ok payload → len payload < 2 ^ 62 →
  mux_ok n (on_channel_data m payload).1 ∧ no_panic (on_channel_data m payload).2.
Proof.
  intros Hm Hn Hb Hl. unfold on_channel_data.
  pose proof (reassemble_spec (svc_incoming m) payload MAX_DVC_MESSAGE_SIZE "dvc.svc_incoming"
    Hb ltac:(lia) ltac:(by vm_compute) (ok_svc _ _ Hm) (ok_svc_bytes _ _ Hm)) as Hr.
  destruct (reassemble _ _ _ _) as [b [[msg|]|e|]]; [..|done].
  - destruct Hr as (-> & Hlen & Hmsg).
    assert (Hm' : mux_ok n (set_svc_incoming m [])) by (apply set_svc_incoming_ok; done || constructor).
    assert (len msg < 2 ^ 63) by (unfold MAX_DVC_MESSAGE_SIZE in *; lia).
    pose proof (decode_client_message_spec msg Hmsg ltac:(done)) as Hd.
    pose proof (decode_client_message_size msg) as Hs.
    destruct (decode_client_message msg) as [cm| |]; [|done..].
    specialize (Hs cm Hmsg ltac:(done) eq_refl). apply on_client_message_ok; done || lia.
  - split; [|done]. destruct Hr. by apply set_svc_incoming_ok.
  - split; [|done]. destruct Hr as [-> | ->]; apply set_svc_incoming_ok; try done;
      try constructor; by destruct Hm.
Qed.

Lemma mux_run_ok es : ∀ n m,
  mux_ok n m → Forall event_ok es → n + registrations es < 2 ^ 32 - 1 →
  mux_ok (n + registrations es) (run_events m es).1 ∧ Forall no_panic (run_events m es).2.
Proof.
  assert (Hpos : ∀ es, 0 ≤ registrations es).
  { induction es0 as [|[]]; cbn; lia. }
  induction es as [|e es IH]; intros n m Hm Hes Hn.
  - cbn. rewrite Z.add_0_r. split; [done|constructor].
  - apply Forall_cons in Hes as [He Hes]. pose proof (Hpos es). destruct e as [h|p]; cbn in *.
    + destruct (register_channel_ok n m h) as [Hm' [fs E]]; [done..|lia|].
      destruct (register_channel m h) as [m' r]. cbn in *. subst r.
      destruct (IH (n + 1) m') as [Hm2 Hp]; [done..|lia|].
      destruct (run_events m' es) as [m2 rs]. cbn in *. rewrite Z.add_assoc.
      split; [done|]. by constructor.
    + destruct He as [Hb Hl].
      destruct (on_channel_data_ok n m p) as [Hm' Hp']; [done|lia|done..|].
      destruct (on_channel_data m p) as [m' r]. cbn in *.
      destruct (IH n m') as [Hm2 Hp]; [done..|].
      destruct (run_events m' es) as [m2 rs]. cbn in *. split; [done|]. by constructor.
Qed.

End DvcMux.
Arguments ChannelSlot : clear implicits.
Arguments DvcMux : clear implicits.

(** ** Delivery of a payload *)

Section delivery.
Context {H : Type} `{DvcHandler H}.
Implicit Types (m : DvcMux H) (s : ChannelSlot H).

Lemma with_slot_app {R} id (f : ChannelSlot H → ChannelSlot H * R) l1 s l2 :
  Forall (λ s, slot_id s ≠ id) l1 → slot_id s = id →
  with_slot id f (l1 ++ s :: l2) = Some (l1 ++ (f s).1 :: l2, (f s).2).
Proof.
  intros Hl1 Hs. induction Hl1 as [|s1 l1 Hne _ IH]; cbn.
  - rewrite Hs, Z.eqb_refl. by destruct (f s).
  - apply Z.eqb_neq in Hne as ->. rewrite IH. done.
Qed.

Lemma run_events_app m es1 es2 :
  run_events m (es1 ++ es2)
  = let '(m, rs1) := run_events m es1 in
    let '(m, rs2) := run_events m es2 in (m, rs1 ++ rs2).
Proof.
  revert m; induction es1 as [|e es1 IH]; intros m; cbn [run_events app].
  - by destruct (run_events m es2).
  - destruct (step m e) as [m1 r]. rewrite IH.
    destruct (run_events m1 es1) as [m2 rs1]. by destruct (run_events m2 es2).
Qed.

(** A PDU that fits one static-channel chunk is handled when the chunk arrives. *)
Lemma receive_pdu m pdu msg :
  len pdu ≤ DEFAULT_CHUNK_LENGTH → decode_client_message pdu = Ok msg →
  run_events m (Receive <$> chunkify pdu)
  = let '(m, r) := on_client_message (set_svc_incoming m []) msg in (m, [r]).
Proof.
  intros Hl Hd.
  destruct (reassemble_single (svc_incoming m) pdu MAX_DVC_MESSAGE_SIZE "dvc.svc_incoming")
    as (p & -> & Hr); [done|unfold DEFAULT_CHUNK_LENGTH, MAX_DVC_MESSAGE_SIZE in *; lia|done|].
  cbn [fmap list_fmap run_events step]. unfold on_channel_data. rewrite Hr, Hd.
  by destruct (on_client_message _ msg).
Qed.

Definition put_slot m (l1 : list (ChannelSlot H)) s l2 : DvcMux H :=
  set_svc_incoming (set_channels m (l1 ++ s :: l2)) [].

Lemma receive_data m l1 s l2 id data starts s' o :
  Forall (λ s, slot_id s ≠ id) l1 → slot_id s = id → channels m = l1 ++ s :: l2 →
  slot_data data starts s = (s', Ok o) →
  handle_incoming_data (set_svc_incoming m []) id data starts
  = (put_slot m l1 s' l2,
     match o with Some ps => encode_payloads m id ps | None => Ok [] end).
Proof.
  intros Hl1 Hs Hm Hd. unfold handle_incoming_data. cbn [channels set_svc_incoming].
  rewrite Hm, with_slot_app, Hd by done. done.
Qed.

(** The continuation PDUs, from a slot in the middle of its message. *)
Lemma receive_continuations l1 l2 id h t cs ps : ∀ m s b,
  Forall2 (λ p c, len p ≤ DEFAULT_CHUNK_LENGTH ∧ decode_client_message p = Ok (Data id c)) ps cs →
  Forall (λ s, slot_id s ≠ id) l1 → channels m = l1 ++ s :: l2 →
  s = {| slot_id := id; handler := h; reassembly := Some (t, b) |} →
  cs ≠ [] → Forall (λ c, 0 < len c) cs → t = len b + len (concat cs) → t ≤ MAX_DVC_MESSAGE_SIZE →
  run_events m (mjoin ((λ p, Receive <$> chunkify p) <$> ps))
  = (put_slot m l1 {| slot_id := id; handler := (on_data h (b ++ concat cs)).1; reassembly := None |} l2,
     replicate (pred (length ps)) (Ok []) ++ [encode_payloads m id (on_data h (b ++ concat cs)).2]).
Proof.
  intros m s b Hps. revert m s b. induction Hps as [|p c ps cs [Hp Hdec] Hps IH]; [done|].
  intros m s b Hl1 Hm Hs _ [Hc Hcs]%Forall_cons Ht Hmax.
  rewrite fmap_cons. cbn [mjoin list_join concat] in *. rewrite run_events_app.
  rewrite (receive_pdu m p _ Hp Hdec). cbn [on_client_message].
  rewrite len_app in Ht. pose proof (len_nonneg (concat cs)). pose proof (len_nonneg b).
  unfold MAX_DVC_MESSAGE_SIZE in *.
  assert (Hcont : reassemble_slot s c None
    = if t <=? len (b ++ c) then (set_reassembly s None, Ok (Some (ztake t (b ++ c))))
      else (set_reassembly s (Some (t, b ++ c)), Ok None)).
  { unfold reassemble_slot. rewrite Hs. cbn [reassembly].
    unfold saturating_add_usize, USIZE_MAX, MAX_DVC_MESSAGE_SIZE.
    destruct (Z.gtb_spec (Z.min (len b + len c) (2 ^ 64 - 1)) (16 * 1024 * 1024)); [lia|].
    rewrite as_u32_id, Z.geb_leb by (rewrite len_app; lia). done. }
  destruct Hps as [|p' c' ps cs Hp' Hps].
  - cbn [concat] in *. rewrite (@len_nil Z) in Ht.
    rewrite (receive_data m l1 s l2 id c None
      {| slot_id := id; handler := (on_data h (b ++ c)).1; reassembly := None |}
      (Some (on_data h (b ++ c)).2)); [|done|by rewrite Hs|done|].
    + cbn. by rewrite app_nil_r.
    + unfold slot_data. rewrite Hcont, len_app.
      assert (t <=? len b + len c = true) as -> by lia.
      rewrite ztake_all by (rewrite len_app; lia). rewrite Hs. cbn.
      by destruct (on_data h (b ++ c)).
  - assert (Hc' : 0 < len (concat (c' :: cs))).
    { apply Forall_cons in Hcs as [? _]. cbn. rewrite len_app. pose proof (len_nonneg (concat cs)). lia. }
    rewrite (receive_data m l1 s l2 id c None
      {| slot_id := id; handler := h; reassembly := Some (t, b ++ c) |} None);
      [|done|by rewrite Hs|done|].
    + rewrite (IH _ {| slot_id := id; handler := h; reassembly := Some (t, b ++ c) |} (b ++ c));
        [|done..|rewrite len_app; lia|done].
      rewrite <-app_assoc. done.
    + unfold slot_data. rewrite Hcont, len_app.
      assert (t <=? len b + len c = false) as -> by lia. by rewrite Hs.
Qed.
End delivery.

(** C29. Dynamic channels, end to end: a payload of any length up to the 16 MiB
    limit, fragmented into Data and DataFirst PDUs and chunked for the static
    channel, reaches the handler of its channel exactly once and unchanged,
    whatever an abandoned static-channel message left in the mux; no frame is
    sent before the last fragment, the frames then sent are the handler's
    answer, and the slot is ready for the next message.  Each PDU is one static
    chunk. *)
Theorem dvc_payload_delivered {H} `{DvcHandler H} (m : DvcMux H) l1 s l2 payload :
  channels m = l1 ++ s :: l2 → Forall (λ s', slot_id s' ≠ slot_id s) l1 → u32_ok (slot_id s) →
  reassembly s = None → len payload ≤ MAX_DVC_MESSAGE_SIZE →
  ∃ pdus, encode_channel_payload (slot_id s) payload = Ok pdus
  ∧ Forall (λ p, length (chunkify p) = 1%nat) pdus
  ∧ run_events m (mjoin ((λ p, Receive <$> chunkify p) <$> pdus))
    = (put_slot m l1 {| slot_id := slot_id s; handler := (on_data (handler s) payload).1;
                        reassembly := None |} l2,
       replicate (pred (length pdus)) (Ok [])
       ++ [encode_payloads m (slot_id s) (on_data (handler s) payload).2]).
Proof.
  intros Hm Hl1 Hid Hr Hlen. pose proof (len_nonneg payload).
  unfold MAX_DVC_MESSAGE_SIZE in Hlen.
  destruct (encode_channel_payload_decode (slot_id s) payload Hid ltac:(lia)) as (pdus & E & Hp).
  exists pdus. split_and!; [done| |].
  { clear -Hp. induction Hp as [|p msg ps ms [Hp _] _ IH]; constructor; [|done].
    destruct (reassemble_single [] p 2000 "") as (q & -> & _);
      [done|unfold DEFAULT_CHUNK_LENGTH in Hp; lia|done|done]. }
  destruct s as [id h r]. cbn [slot_id handler reassembly] in *. subst r.
  unfold fragments in Hp. destruct (Z.leb_spec (len payload) MAX_DATA_SIZE) as [Hs|Hs].
  - apply Forall2_cons_inv_r in Hp as (p & ps & [Hp Hdec] & ->%Forall2_nil_inv_r & ->).
    cbn [fmap list_fmap mjoin list_join]. rewrite app_nil_r.
    rewrite (receive_pdu m p _ Hp Hdec). cbn [on_client_message].
    rewrite (receive_data m l1 {| slot_id := id; handler := h; reassembly := None |} l2 id payload None
      {| slot_id := id; handler := (on_data h payload).1; reassembly := None |}
      (Some (on_data h payload).2)); try done.
    unfold slot_data. cbn. by destruct (on_data h payload).
  - pose proof (concat_chunks MAX_DATA_SIZE ltac:(done) payload) as Hcat.
    pose proof (chunks_bound MAX_DATA_SIZE ltac:(done) payload) as Hb.
    destruct (chunks MAX_DATA_SIZE payload) as [|c cs]; [cbn in Hcat; by subst|].
    apply Forall_cons in Hb as [Hc Hcs]. cbn [concat] in Hcat.
    apply Forall2_cons_inv_r in Hp as (p & ps & [Hp Hdec] & Hps & ->).
    rewrite Forall2_fmap_r in Hps. unfold MAX_DATA_SIZE in *.
    assert (Hl : len payload = len c + len (concat cs)) by (by rewrite <-Hcat, len_app).
    rewrite fmap_cons. cbn [mjoin list_join]. rewrite run_events_app.
    rewrite (receive_pdu m p _ Hp Hdec). cbn [on_client_message].
    rewrite (receive_data m l1 {| slot_id := id; handler := h; reassembly := None |} l2 id c (Some (len payload))
      {| slot_id := id; handler := h; reassembly := Some (len payload, c) |} None); try done.
    + rewrite (receive_continuations l1 l2 id h (len payload) cs ps _
        {| slot_id := id; handler := h; reassembly := Some (len payload, c) |} c); try done.
      * rewrite Hcat. destruct Hps; [|done]. cbn in Hl. rewrite (@len_nil Z) in Hl. lia.
      * intros ->. cbn in Hl. rewrite (@len_nil Z) in Hl. lia.
      * eapply Forall_impl; [exact Hcs|]. cbn. lia.
    + unfold slot_data, reassemble_slot, MAX_DVC_MESSAGE_SIZE.
      destruct (Z.gtb_spec (len payload) (16 * 1024 * 1024)); [lia|].
      rewrite as_u32_id, Z.geb_leb by lia.
      by assert (len payload <=? len c = false) as -> by lia.
Qed.

(** C30. The mux invariant, over any sequence of registrations and of payloads
    from the client, well formed or not, from a new mux: no step panics;
    channel ids are pairwise distinct and below the next one to be assigned; no
    channel is opened before the capabilities are negotiated and no handler
    stays queued afterwards; every partially received message is shorter than
    its declared length, which is at most 16 MiB, as is the static channel's
    buffer; and any property of handlers that opening and messages of at most
    16 MiB preserve holds of every handler. *)
Theorem dvc_mux_safe {H} `{DvcHandler H} (I : H → Prop) channel user es :
  (∀ h, I h → I (on_open h).1) →
  (∀ h data, I h → len data ≤ MAX_DVC_MESSAGE_SIZE → I (on_data h data).1) →
  Forall (event_ok I) es → registrations es < 2 ^ 32 - 1 →
  mux_ok I (registrations es) (run_events (DvcMux_new channel user).1 es).1
  ∧ Forall no_panic (run_events (DvcMux_new channel user).1 es).2.
Proof.
  intros Ho Hd Hes Hn.
  exact (mux_run_ok I Ho Hd es 0 _ (DvcMux_new_ok I channel user) Hes Hn).
Qed.

(** An echo channel that remembers what it received, for the examples. *)
#[local] Instance echo_handler : DvcHandler (list bytes) := {
  channel_name := λ _, lit "ECHO";
  on_open := λ h, (h, [[1]]);
  on_data := λ h data, (h ++ [data], [data])
}.

Lemma dvc_payload_delivered_witness :
  let s := {| slot_id := 3; handler := [[7]]; reassembly := None |} in
  let m := {| channel_id := 1004; user_channel_id := 1002; svc_incoming := [1; 2];
              next_dynamic_id := 4; capability_negotiated := true; pending := [];
              channels := [s] |} in
  ∃ pdus, encode_channel_payload 3 (replicate 2000 5) = Ok pdus ∧ length pdus = 2%nat.
Proof.
  intros s m.
  destruct (dvc_payload_delivered m [] s [] (replicate 2000 5)) as (pdus & E & _).
  - reflexivity.
  - constructor.
  - split; [by vm_compute|reflexivity].
  - reflexivity.
  - vm_compute. congruence.
  - exists pdus. split; [exact E|]. clear -E. vm_compute in E. by injection E as <-.
Defined.

Lemma dvc_mux_safe_witness :
  let es := [Register ([] : list bytes); Receive [4; 0; 0; 0; 3; 0; 0; 0; 80; 0; 2; 0]] in
  channel_id_for_name (run_events (DvcMux_new 1004 1002).1 es).1 (lit "ECHO") = Some 1
  ∧ NoDup (slot_id <$> channels (run_events (DvcMux_new 1004 1002).1 es).1).
Proof.
  intros es. split; [by vm_compute|].
  destruct (dvc_mux_safe (λ h, Forall (λ d, len d ≤ MAX_DVC_MESSAGE_SIZE) h) 1004 1002 es)
    as [Hok _].
  - intros h Hh. exact Hh.
  - intros h d Hh Hd. cbn. apply Forall_app. split; [exact Hh|]. constructor; [exact Hd|constructor].
  - constructor; [constructor|]. constructor; [|constructor]. split; [|by vm_compute].
    repeat constructor; vm_compute; congruence.
  - by vm_compute.
  - by destruct Hok.
Defined.
