(* ===== verification/Scheduler.v ===== *)
(** [rdpcore-transport/src/scheduler.rs]: the scheduling policy of a
    connection's writer, latency queues first and bulk queues round-robin. *)
From S2P Require Import Prelude.

(** ** State *)

Inductive ChannelKey := Io | Static (id : Z).
Inductive Priority := Latency | Bulk.

#[global] Instance ChannelKey_eq_dec : EqDecision ChannelKey.
Proof. solve_decision. Defined.
#[global] Instance Priority_eq_dec : EqDecision Priority.
Proof. solve_decision. Defined.

Record Frame := {
  channel : ChannelKey;
  priority : Priority;
  frame_bytes : bytes
}.

Record ChannelQueue := {
  q_key : ChannelKey;
  q_priority : Priority;
  q_pending : list bytes
}.

Record Scheduler := {
  queues : list ChannelQueue;
  bulk_order : list nat;
  next_bulk_channel : nat
}.

(** ** Operations *)

Definition Scheduler_new : Scheduler :=
  {| queues := []; bulk_order := []; next_bulk_channel := 0 |}.

Definition set_queue_pending (q : ChannelQueue) (p : list bytes) : ChannelQueue :=
  {| q_key := q_key q; q_priority := q_priority q; q_pending := p |}.

(** [self.queues[idx].pending.push_back(bytes)] *)
Definition push_back (idx : nat) (b : bytes) (qs : list ChannelQueue) : list ChannelQueue :=
  alter (λ q, set_queue_pending q (q_pending q ++ [b])) idx qs.

Definition queue_of (frame : Frame) (q : ChannelQueue) : bool :=
  bool_decide (q_key q = channel frame) && bool_decide (q_priority q = priority frame).

Definition enqueue (s : Scheduler) (frame : Frame) : Scheduler :=
  match position (queue_of frame) (queues s) with
  | Some idx =>
    {| queues := push_back idx (frame_bytes frame) (queues s); bulk_order := bulk_order s;
       next_bulk_channel := next_bulk_channel s |}
  | None =>
    let qs := queues s ++ [{| q_key := channel frame; q_priority := priority frame;
                              q_pending := [] |}] in
    let idx := (length qs - 1)%nat in
    {| queues := push_back idx (frame_bytes frame) qs;
       bulk_order := if decide (priority frame = Bulk) then bulk_order s ++ [idx] else bulk_order s;
       next_bulk_channel := next_bulk_channel s |}
  end.

Definition has_pending (s : Scheduler) : bool :=
  existsb (λ q, negb (bool_decide (q_pending q = []))) (queues s).

(** [queues[idx].pending.pop_front()]: an index out of range panics. *)
Definition pop_front (idx : nat) (qs : list ChannelQueue)
  : res Empty_set (option (bytes * list ChannelQueue)) :=
  match qs !! idx with
  | None => Panic
  | Some q =>
    match q_pending q with
    | [] => Ok None
    | b :: p => Ok (Some (b, <[idx := set_queue_pending q p]> qs))
    end
  end.

(** The first loop of [pop_next], over the latency queues. *)
Fixpoint pop_latency (qs : list ChannelQueue) : option (bytes * list ChannelQueue) :=
  match qs with
  | [] => None
  | q :: qs =>
    match decide (q_priority q = Latency), q_pending q with
    | left _, b :: p => Some (b, set_queue_pending q p :: qs)
    | _, _ => '(b, qs) ← pop_latency qs; Some (b, q :: qs)
    end
  end.

(** The second loop, from [offset] for [n] more turns. *)
Fixpoint pop_bulk (s : Scheduler) (offset n : nat) : res Empty_set (Scheduler * option bytes) :=
  match n with
  | O => Ok (s, None)
  | S n =>
    let m := length (bulk_order s) in
    match bulk_order s !! ((next_bulk_channel s + offset) mod m)%nat with
    | None => Panic
    | Some idx =>
      r ← pop_front idx (queues s);
      match r with
      | Some (b, qs) =>
        Ok ({| queues := qs; bulk_order := bulk_order s;
               next_bulk_channel := ((next_bulk_channel s + offset + 1) mod m)%nat |}, Some b)
      | None => pop_bulk s (S offset) n
      end
    end
  end.

Definition pop_next (s : Scheduler) : res Empty_set (Scheduler * option bytes) :=
  match pop_latency (queues s) with
  | Some (b, qs) =>
    Ok ({| queues := qs; bulk_order := bulk_order s; next_bulk_channel := next_bulk_channel s |},
        Some b)
  | None =>
    if decide (bulk_order s = []) then Ok (s, None)
    else pop_bulk s 0 (length (bulk_order s))
  end.

(** ** The abstract view: one FIFO per channel and priority *)

Definition queue_id (q : ChannelQueue) : ChannelKey * Priority := (q_key q, q_priority q).

(** What is queued for a channel at a priority. *)
Definition contents (s : Scheduler) (id : ChannelKey * Priority) : list bytes :=
  match position (λ q, bool_decide (queue_id q = id)) (queues s) with
  | Some i => match queues s !! i with Some q => q_pending q | None => [] end
  | None => []
  end.

Definition is_bulk (q : ChannelQueue) : bool := bool_decide (q_priority q = Bulk).

(** The indices of the bulk queues, in order. *)
Definition bulk_indices (qs : list ChannelQueue) : list nat :=
  fst <$> filter (λ iq, is_bulk iq.2 = true) (imap pair qs).

Record sched_ok (s : Scheduler) : Prop := {
  ok_distinct : NoDup (queue_id <$> queues s);
  ok_bulk : bulk_order s = bulk_indices (queues s);
  ok_turn : (next_bulk_channel s < length (bulk_order s) ∨ next_bulk_channel s = 0)%nat
}.

(** ** The queues by index *)

Lemma bulk_indices_lookup qs i :
  i ∈ bulk_indices qs ↔ ∃ q, qs !! i = Some q ∧ q_priority q = Bulk.
Proof.
  unfold bulk_indices. rewrite list_elem_of_fmap. split.
  - intros ([j q] & -> & [Hb Hin]%list_elem_of_filter).
    apply list_elem_of_lookup in Hin as [k Hk]. apply list_lookup_imap_Some in Hk as (q' & Hq & [= -> ->]).
    exists q'. split; [done|]. unfold is_bulk in Hb. by apply bool_decide_eq_true in Hb.
  - intros (q & Hq & Hb). exists (i, q). split; [done|]. apply list_elem_of_filter.
    split; [by apply bool_decide_eq_true|].
    apply list_elem_of_lookup. exists i. apply list_lookup_imap_Some. by exists q.
Qed.

Lemma bulk_indices_app qs q :
  bulk_indices (qs ++ [q])
  = bulk_indices qs ++ (if decide (q_priority q = Bulk) then [length qs] else []).
Proof.
  unfold bulk_indices. rewrite imap_app. cbn. rewrite filter_app, fmap_app. f_equal.
  rewrite filter_cons. cbn. unfold is_bulk.
  destruct (decide (q_priority q = Bulk)) as [E|E].
  - rewrite E. cbn. by rewrite Nat.add_0_r.
  - rewrite bool_decide_eq_false_2 by done. done.
Qed.

Lemma bulk_indices_ext qs qs' :
  q_priority <$> qs = q_priority <$> qs' → bulk_indices qs = bulk_indices qs'.
Proof.
  revert qs'. induction qs as [|q qs IH] using rev_ind; intros qs' E.
  - by destruct qs'.
  - destruct qs' as [|q' qs' _] using rev_ind; [by destruct qs|].
    rewrite !fmap_app in E. apply app_inj_2 in E as [E1 E2]; [|done]. injection E2 as E2.
    rewrite !bulk_indices_app, (IH qs') by done. rewrite E2.
    by rewrite <-(length_fmap q_priority qs), E1, length_fmap.
Qed.

(** ** What a pop does *)

Definition idle (q : ChannelQueue) : Prop := q_pending q = [].

(** Queue [i], holding [b], is the one the policy serves in [s]: the first
    nonempty latency queue, or, when all of those are empty, the first nonempty
    bulk queue from the turn on, [o] queues further. *)
Definition serves (s : Scheduler) (i : nat) (b : bytes) (s' : Scheduler) : Prop :=
  ∃ q p, queues s !! i = Some q ∧ q_pending q = b :: p
  ∧ queues s' = <[i := set_queue_pending q p]> (queues s) ∧ bulk_order s' = bulk_order s
  ∧ ((q_priority q = Latency ∧ next_bulk_channel s' = next_bulk_channel s
      ∧ ∀ j q', (j < i)%nat → queues s !! j = Some q' → q_priority q' = Latency → idle q')
     ∨ (q_priority q = Bulk
        ∧ (∀ j q', queues s !! j = Some q' → q_priority q' = Latency → idle q')
        ∧ ∃ o, (o < length (bulk_order s))%nat
          ∧ bulk_order s !! ((next_bulk_channel s + o) mod length (bulk_order s))%nat = Some i
          ∧ next_bulk_channel s' = ((next_bulk_channel s + o + 1) mod length (bulk_order s))%nat
          ∧ ∀ o' i' q', (o' < o)%nat →
              bulk_order s !! ((next_bulk_channel s + o') mod length (bulk_order s))%nat = Some i' →
              queues s !! i' = Some q' → idle q')).

Lemma pop_latency_spec qs :
  match pop_latency qs with
  | Some (b, qs') => ∃ i q p, qs !! i = Some q ∧ q_pending q = b :: p ∧ q_priority q = Latency
      ∧ qs' = <[i := set_queue_pending q p]> qs
      ∧ ∀ j q', (j < i)%nat → qs !! j = Some q' → q_priority q' = Latency → idle q'
  | None => ∀ j q', qs !! j = Some q' → q_priority q' = Latency → idle q'
  end.
Proof.
  induction qs as [|q qs IH]; cbn; [by intros|].
  assert (Hskip : (q_priority q = Latency → idle q) →
    match '(b, qs) ← pop_latency qs; Some (b, q :: qs) with
    | Some (b, qs') => ∃ i q0 p, (q :: qs) !! i = Some q0 ∧ q_pending q0 = b :: p
        ∧ q_priority q0 = Latency ∧ qs' = <[i := set_queue_pending q0 p]> (q :: qs)
        ∧ ∀ j q', (j < i)%nat → (q :: qs) !! j = Some q' → q_priority q' = Latency → idle q'
    | None => ∀ j q', (q :: qs) !! j = Some q' → q_priority q' = Latency → idle q'
    end).
  { intros Hq. destruct (pop_latency qs) as [[b qs']|]; cbn.
    - destruct IH as (i & q0 & p & Hi & Hp & Hl & -> & Hmin). exists (S i), q0, p.
      split_and!; try done. intros [|j] q' Hj Hq' Hl'; cbn in Hq'; [|by eapply (Hmin j); [lia|..]].
      injection Hq' as <-. auto.
    - intros [|j] q' Hq' Hl'; cbn in Hq'; [|by eapply IH]. injection Hq' as <-. auto. }
  destruct (decide (q_priority q = Latency)) as [Hl|Hl]; [|by apply Hskip].
  destruct (q_pending q) as [|b p] eqn:Hp; [by apply Hskip|].
  exists O, q, p. split_and!; try done. lia.
Qed.

Lemma has_pending_false s :
  has_pending s = false ↔ ∀ j q, queues s !! j = Some q → idle q.
Proof.
  unfold has_pending, idle. rewrite <-not_true_iff_false, existsb_exists. split.
  - intros Hn j q Hq. destruct (decide (q_pending q = [])) as [|Hne]; [done|]. exfalso. apply Hn.
    exists q. split; [by apply list_elem_of_In, (list_elem_of_lookup_2 _ j)|].
    by rewrite bool_decide_eq_false_2.
  - intros Hi (q & Hin & Hne). apply list_elem_of_In, list_elem_of_lookup in Hin as [j Hj].
    rewrite bool_decide_eq_true_2 in Hne; [done|]. by eapply Hi.
Qed.

Lemma pop_bulk_spec s n : ∀ offset,
  sched_ok s → bulk_order s ≠ [] →
  (∀ j q', queues s !! j = Some q' → q_priority q' = Latency → idle q') →
  (offset + n = length (bulk_order s))%nat →
  (∀ o' i' q', (o' < offset)%nat →
     bulk_order s !! ((next_bulk_channel s + o') mod length (bulk_order s))%nat = Some i' →
     queues s !! i' = Some q' → idle q') →
  match pop_bulk s offset n with
  | Ok (s', Some b) => ∃ i, serves s i b s'
  | Ok (s', None) => s' = s ∧ ∀ o' i' q', (o' < length (bulk_order s))%nat →
     bulk_order s !! ((next_bulk_channel s + o') mod length (bulk_order s))%nat = Some i' →
     queues s !! i' = Some q' → idle q'
  | _ => False
  end.
Proof.
  induction n as [|n IH]; intros offset Hok Hne Hlat Hn Hbefore; cbn [pop_bulk].
  - split; [done|]. intros o' i' q' Ho. apply Hbefore. lia.
  - set (m := length (bulk_order s)) in *.
    assert (m ≠ 0%nat) by (subst m; by destruct (bulk_order s)).
    destruct (lookup_lt_is_Some_2 (bulk_order s) ((next_bulk_channel s + offset) mod m)) as [i Hi].
    { apply Nat.mod_upper_bound. done. }
    rewrite Hi. pose proof (list_elem_of_lookup_2 _ _ _ Hi) as Hin.
    rewrite (ok_bulk _ Hok) in Hin. apply bulk_indices_lookup in Hin as (q & Hq & Hb).
    unfold pop_front. rewrite Hq. destruct (q_pending q) as [|b p] eqn:Hp; cbn.
    + apply IH; try done; [lia|]. intros o' i' q' Ho Hi' Hq'.
      destruct (decide (o' = offset)) as [->|]; [|eapply Hbefore; [|done..]; lia].
      rewrite Hi in Hi'. injection Hi' as <-. rewrite Hq in Hq'. by injection Hq' as <-.
    + exists i, q, p. split_and!; try done. right. split_and!; try done.
      exists offset. split_and!; try done. unfold m. lia.
Qed.

Lemma pop_next_spec s :
  sched_ok s →
  match pop_next s with
  | Ok (s', Some b) => ∃ i, serves s i b s'
  | Ok (s', None) => s' = s ∧ has_pending s = false
  | _ => False
  end.
Proof.
  intros Hok. unfold pop_next. pose proof (pop_latency_spec (queues s)) as Hl.
  destruct (pop_latency (queues s)) as [[b qs]|].
  - destruct Hl as (i & q & p & Hi & Hp & Hlat & -> & Hmin). exists i, q, p.
    split_and!; try done. by left.
  - case_decide as Hb.
    + split; [done|]. apply has_pending_false. intros j q Hq.
      destruct (q_priority q) eqn:Hpr; [by eapply Hl|]. exfalso.
      assert (j ∈ bulk_order s) as Hin.
      { rewrite (ok_bulk _ Hok). apply bulk_indices_lookup. by exists q. }
      rewrite Hb in Hin. by apply elem_of_nil in Hin.
    + pose proof (pop_bulk_spec s (length (bulk_order s)) 0 Hok Hb Hl eq_refl) as H.
      destruct (pop_bulk s 0 _) as [[s' [b|]]| |]; [apply H; lia| |apply H; lia..].
      destruct H as [-> Hidle]; [lia|]. split; [done|].
      apply has_pending_false. intros j q Hq.
      destruct (q_priority q) eqn:Hpr; [by eapply Hl|].
      assert (j ∈ bulk_order s) as Hin.
      { rewrite (ok_bulk _ Hok). apply bulk_indices_lookup. by exists q. }
      apply list_elem_of_lookup in Hin as [k Hk]. pose proof (lookup_lt_Some _ _ _ Hk) as Hlt.
      set (m := length (bulk_order s)) in *. set (t := next_bulk_channel s).
      (* the offset at which the turn reaches position k *)
      assert (Ht : (t < m)%nat) by (destruct (ok_turn _ Hok); subst t; lia).
      apply (Hidle (if decide (t ≤ k)%nat then k - t else m - t + k)%nat j q); [|fold t|done].
      { case_decide; lia. }
      rewrite <-Hk. f_equal. case_decide.
      * replace (t + (k - t))%nat with k by lia. by apply Nat.mod_small.
      * replace (t + (m - t + k))%nat with (k + 1 * m)%nat by lia.
        rewrite Nat.Div0.mod_add. by apply Nat.mod_small.
Qed.

(** ** The contents of the queues *)

Abbreviation queue_key := (ChannelKey * Priority)%type.
Implicit Types id : queue_key.

Lemma contents_lookup s i q :
  sched_ok s → queues s !! i = Some q → contents s (queue_id q) = q_pending q.
Proof.
  intros Hok Hi. unfold contents.
  assert (position (λ q', bool_decide (queue_id q' = queue_id q)) (queues s) = Some i) as ->.
  { apply position_Some. exists q. split_and!; [done|by apply bool_decide_eq_true|].
    intros j q' Hj Hq'. apply bool_decide_eq_false. intros E.
    assert (i = j); [|lia].
    eapply NoDup_lookup; [exact (ok_distinct _ Hok)|by rewrite list_lookup_fmap, Hi|].
    rewrite list_lookup_fmap, Hq'. cbn. by rewrite E. }
  by rewrite Hi.
Qed.

Lemma contents_absent s id : id ∉ (queue_id <$> queues s) → contents s id = [].
Proof.
  intros Hid. unfold contents.
  destruct (position _ _) as [i|] eqn:E; [|done].
  apply position_Some in E as (q & Hq & Hb & _). apply bool_decide_eq_true in Hb. exfalso.
  apply Hid. rewrite <-Hb. apply list_elem_of_fmap_2. by eapply list_elem_of_lookup_2.
Qed.

Lemma contents_case s id :
  sched_ok s →
  (∃ i q, queues s !! i = Some q ∧ queue_id q = id ∧ contents s id = q_pending q)
  ∨ (id ∉ (queue_id <$> queues s) ∧ contents s id = []).
Proof.
  intros Hok. destruct (decide (id ∈ (queue_id <$> queues s))) as [Hin|Hin].
  - left. apply list_elem_of_fmap in Hin as (q & -> & Hq). apply list_elem_of_lookup in Hq as [i Hi].
    exists i, q. split_and!; try done. by eapply contents_lookup.
  - right. split; [done|]. by apply contents_absent.
Qed.

(** Replacing the pending frames of one queue: ids, bulk order and the contents
    of the others stay. *)
Lemma set_pending_ids (qs : list ChannelQueue) (i : nat) q p :
  qs !! i = Some q → queue_id <$> <[i := set_queue_pending q p]> qs = queue_id <$> qs.
Proof.
  intros Hi. rewrite list_fmap_insert. apply list_insert_id. by rewrite list_lookup_fmap, Hi.
Qed.

Lemma bulk_indices_ids (qs qs' : list ChannelQueue) :
  queue_id <$> qs = queue_id <$> qs' → bulk_indices qs = bulk_indices qs'.
Proof.
  intros E. apply bulk_indices_ext. apply (f_equal (fmap snd)) in E.
  by rewrite <-!list_fmap_compose in E.
Qed.

Lemma update_queue s s' i q p :
  sched_ok s → queues s !! i = Some q → queues s' = <[i := set_queue_pending q p]> (queues s) →
  bulk_order s' = bulk_order s →
  (next_bulk_channel s' < length (bulk_order s) ∨ next_bulk_channel s' = 0)%nat →
  sched_ok s' ∧ contents s' (queue_id q) = p
  ∧ ∀ id, id ≠ queue_id q → contents s' id = contents s id.
Proof.
  intros Hok Hi Hqs Hbo Ht.
  assert (Hids : queue_id <$> queues s' = queue_id <$> queues s)
    by (rewrite Hqs; by apply set_pending_ids).
  assert (Hok' : sched_ok s').
  { split.
    - rewrite Hids. apply Hok.
    - rewrite Hbo, (ok_bulk _ Hok). by apply bulk_indices_ids.
    - by rewrite Hbo. }
  pose proof (lookup_lt_Some _ _ _ Hi) as Hlt.
  assert (Hi' : queues s' !! i = Some (set_queue_pending q p))
    by (rewrite Hqs; by apply list_lookup_insert_eq).
  split_and!; [done|exact (contents_lookup s' i _ Hok' Hi')|].
  intros id Hid. destruct (contents_case s id Hok) as [(j & q' & Hj & <- & ->)|[Hn ->]].
  - assert (Hj' : queues s' !! j = Some q').
    { rewrite Hqs, list_lookup_insert_ne; [done|]. intros ->. apply Hid. rewrite Hi in Hj.
      by injection Hj as <-. }
    by apply (contents_lookup s' j).
  - apply contents_absent. by rewrite Hids.
Qed.

Definition frame_id (f : Frame) : queue_key := (channel f, priority f).

Lemma queue_of_spec f q : queue_of f q = true ↔ queue_id q = frame_id f.
Proof.
  unfold queue_of, queue_id, frame_id. rewrite andb_true_iff, !bool_decide_eq_true.
  split; [intros [-> ->]; done|by intros [= -> ->]].
Qed.

Lemma push_back_insert i b qs q :
  qs !! i = Some q → push_back i b qs = <[i := set_queue_pending q (q_pending q ++ [b])]> qs.
Proof.
  unfold push_back. revert i. induction qs as [|q0 qs IH]; intros [|i] Hi; try done.
  - by injection Hi as ->.
  - cbn in *. f_equal. by apply IH.
Qed.

Lemma Scheduler_new_ok : sched_ok Scheduler_new.
Proof. split; [constructor|done|by right]. Qed.

(** A queue created empty. *)
Lemma add_queue_ok s f :
  sched_ok s → frame_id f ∉ (queue_id <$> queues s) →
  let s' := {| queues := queues s ++ [{| q_key := channel f; q_priority := priority f;
                                          q_pending := [] |}];
               bulk_order := if decide (priority f = Bulk) then bulk_order s ++ [length (queues s)]
                             else bulk_order s;
               next_bulk_channel := next_bulk_channel s |} in
  sched_ok s' ∧ ∀ id, contents s' id = contents s id.
Proof.
  intros Hok Hid s'.
  assert (Hok' : sched_ok s').
  { split; unfold s'; cbn [queues bulk_order next_bulk_channel].
    - rewrite fmap_app. apply NoDup_app. split_and!; [apply Hok| |apply NoDup_singleton].
      intros x Hx ->%list_elem_of_singleton. done.
    - rewrite bulk_indices_app, <-(ok_bulk _ Hok). cbn [q_priority].
      case_decide; [done|by rewrite app_nil_r].
    - destruct (ok_turn _ Hok); [left|by right]. case_decide; rewrite ?length_app; lia. }
  split; [done|]. intros id.
  destruct (contents_case s id Hok) as [(i & q & Hi & <- & ->)|[Hn ->]].
  - apply (contents_lookup s' i q Hok'). unfold s'. cbn [queues].
    apply lookup_app_l_Some. done.
  - destruct (decide (id = frame_id f)) as [->|Hne].
    + set (q0 := {| q_key := channel f; q_priority := priority f; q_pending := [] |}).
      apply (contents_lookup s' (length (queues s)) q0 Hok'). unfold s'. cbn [queues].
      by rewrite lookup_app_r, Nat.sub_diag by lia.
    + apply contents_absent. unfold s'. cbn [queues]. rewrite fmap_app, elem_of_app.
      intros [?|Hin%list_elem_of_singleton]; [done|]. by apply Hne.
Qed.

Lemma enqueue_spec s f :
  sched_ok s →
  sched_ok (enqueue s f)
  ∧ contents (enqueue s f) (frame_id f) = contents s (frame_id f) ++ [frame_bytes f]
  ∧ ∀ id, id ≠ frame_id f → contents (enqueue s f) id = contents s id.
Proof.
  intros Hok. unfold enqueue. destruct (position (queue_of f) (queues s)) as [i|] eqn:E.
  - apply position_Some in E as (q & Hi & Hq%queue_of_spec & _).
    rewrite (push_back_insert i _ _ q Hi). set (s' := Build_Scheduler _ _ _).
    destruct (update_queue s s' i q (q_pending q ++ [frame_bytes f]) Hok Hi eq_refl eq_refl)
      as (? & Hc & Hothers); [apply Hok|].
    rewrite <-Hq, Hc, (contents_lookup s i q) by done. split_and!; try done.
  - assert (Hid : frame_id f ∉ (queue_id <$> queues s)).
    { intros (q & Hq & Hin)%list_elem_of_fmap. apply position_None in E.
      apply (proj1 (Forall_forall _ _) E) in Hin. symmetry in Hq. apply queue_of_spec in Hq.
      congruence. }
    destruct (add_queue_ok s f Hok Hid) as [Hok1 Hc1]. set (s1 := Build_Scheduler _ _ _) in *.
    rewrite length_app. cbn [length]. replace (length (queues s) + 1 - 1)%nat with (length (queues s)) by lia.
    assert (Hi : queues s1 !! length (queues s)
      = Some {| q_key := channel f; q_priority := priority f; q_pending := [] |}).
    { unfold s1. cbn [queues]. by rewrite lookup_app_r, Nat.sub_diag by lia. }
    rewrite (push_back_insert (length (queues s)) _ _ _ Hi). set (s' := Build_Scheduler _ _ _).
    destruct (update_queue s1 s' _ _ ([] ++ [frame_bytes f]) Hok1 Hi eq_refl eq_refl)
      as (? & Hc & Hothers); [apply Hok1|].
    split_and!; [done| |].
    + pose proof (contents_lookup s1 _ _ Hok1 Hi : contents s1 (frame_id f) = []) as E1.
      rewrite <-Hc1, E1. exact Hc.
    + intros id Hne. by rewrite Hothers, Hc1.
Qed.

Lemma serves_spec s i b s' :
  sched_ok s → serves s i b s' →
  sched_ok s' ∧ ∃ id, contents s id = b :: contents s' id
    ∧ ∀ id', id' ≠ id → contents s' id' = contents s id'.
Proof.
  intros Hok (q & p & Hi & Hp & Hqs & Hbo & Hcase).
  destruct (update_queue s s' i q p Hok Hi Hqs Hbo) as (Hok' & Hc & Hothers).
  { destruct Hcase as [(_ & -> & _)|(_ & _ & o & Ho & _ & -> & _)].
    - apply Hok.
    - left. apply Nat.mod_upper_bound. lia. }
  split; [done|]. exists (queue_id q). rewrite Hc, (contents_lookup s i q), Hp by done.
  by split.
Qed.

(** ** Runs *)

Inductive op := Enqueue (f : Frame) | Pop.

Fixpoint run_ops (s : Scheduler) (ops : list op) : res Empty_set (Scheduler * list bytes) :=
  match ops with
  | [] => Ok (s, [])
  | Enqueue f :: ops => run_ops (enqueue s f) ops
  | Pop :: ops =>
    '(s, b) ← pop_next s;
    '(s, out) ← run_ops s ops;
    Ok (s, option_list b ++ out)
  end.

(** The frames enqueued for a channel at a priority, in order. *)
Fixpoint enqueued (id : queue_key) (ops : list op) : list bytes :=
  match ops with
  | [] => []
  | Enqueue f :: ops =>
    (if decide (frame_id f = id) then [frame_bytes f] else []) ++ enqueued id ops
  | Pop :: ops => enqueued id ops
  end.

(** The frames of [tagged] that belong to a queue. *)
Definition popped (id : queue_key) (tagged : list (queue_key * bytes)) : list bytes :=
  snd <$> filter (λ t, t.1 = id) tagged.

Lemma run_ops_fifo ops : ∀ s, sched_ok s →
  ∃ s' out, run_ops s ops = Ok (s', out) ∧ sched_ok s'
  ∧ ∃ tagged, out = snd <$> tagged
    ∧ ∀ id, contents s id ++ enqueued id ops = popped id tagged ++ contents s' id.
Proof.
  induction ops as [|[f|] ops IH]; intros s Hok; cbn [run_ops enqueued].
  - exists s, []. split_and!; try done. exists []. split; [done|]. intros id. by rewrite app_nil_r.
  - destruct (enqueue_spec s f Hok) as (Hok1 & Hc & Hothers).
    destruct (IH _ Hok1) as (s' & out & -> & Hok' & tagged & -> & Heq).
    eexists _, _. split_and!; [done..|]. exists tagged. split; [done|]. intros id.
    rewrite <-Heq. case_decide as Hid.
    + subst id. by rewrite Hc, <-app_assoc.
    + by rewrite Hothers by done.
  - pose proof (pop_next_spec s Hok) as Hp.
    destruct (pop_next s) as [[s1 [b|]]| |]; [| |done..].
    + destruct Hp as [i Hs]. destruct (serves_spec s i b s1 Hok Hs) as (Hok1 & id0 & Hc & Hothers).
      destruct (IH _ Hok1) as (s' & out & E & Hok' & tagged & -> & Heq).
      cbn. rewrite E. cbn. eexists _, _. split_and!; [done..|]. exists ((id0, b) :: tagged).
      split; [done|]. intros id. unfold popped. rewrite filter_cons. cbn [fst].
      destruct (decide (id0 = id)) as [->|Hne].
      * rewrite fmap_cons, Hc. cbn. f_equal. apply Heq.
      * rewrite <-(Hothers id) by done. apply Heq.
    + destruct Hp as [-> _]. destruct (IH _ Hok) as (s' & out & E & Hok' & tagged & -> & Heq).
      cbn. rewrite E. cbn. eexists _, _. split_and!; [done..|]. by exists tagged.
Qed.

(** ** Fairness *)

(** How many bulk queues the turn has to pass before position [k]. *)
Definition turn_distance (s : Scheduler) (k : nat) : nat :=
  let m := length (bulk_order s) in
  if decide (next_bulk_channel s ≤ k)%nat then (k - next_bulk_channel s)%nat
  else (m - next_bulk_channel s + k)%nat.

(** The position the turn reaches after [o] steps, without the modulus. *)
Lemma turn_position t o m :
  (t < m)%nat → (o < m)%nat →
  ((t + o) mod m)%nat = if decide (t + o < m)%nat then (t + o)%nat else (t + o - m)%nat.
Proof.
  intros Ht Ho. case_decide.
  - by apply Nat.mod_small.
  - replace (t + o)%nat with (t + o - m + 1 * m)%nat at 1 by lia.
    rewrite Nat.Div0.mod_add. apply Nat.mod_small. lia.
Qed.

Lemma bulk_indices_NoDup qs : NoDup (bulk_indices qs).
Proof.
  induction qs as [|q qs IH] using rev_ind; [constructor|]. rewrite bulk_indices_app.
  case_decide; [|by rewrite app_nil_r]. apply NoDup_app. split_and!; [done| |apply NoDup_singleton].
  intros i Hi ->%list_elem_of_singleton. apply bulk_indices_lookup in Hi as (q' & Hq' & _).
  apply lookup_lt_Some in Hq'. lia.
Qed.

(** A bulk queue that waits with frames is served or comes nearer to its turn. *)
Lemma serves_distance s j b s' k i q :
  sched_ok s → serves s j b s' → bulk_order s !! k = Some i → queues s !! i = Some q →
  q_pending q ≠ [] → (∀ l q', queues s !! l = Some q' → q_priority q' = Latency → idle q') →
  j = i ∨ (turn_distance s' k < turn_distance s k)%nat.
Proof.
  intros Hok (q0 & p & Hj & Hp & Hqs & Hbo & Hcase) Hk Hi Hne Hlat.
  destruct Hcase as [(Hl & _)|(_ & _ & o & Ho & Hoi & Hturn & Hbefore)].
  { exfalso. specialize (Hlat _ _ Hj Hl). unfold idle in Hlat. congruence. }
  pose proof (lookup_lt_Some _ _ _ Hk) as Hkm. set (m := length (bulk_order s)) in *.
  assert (Ht : (next_bulk_channel s < m)%nat) by (destruct (ok_turn _ Hok); subst m; lia).
  set (t := next_bulk_channel s) in *.
  assert (Hd : (turn_distance s k < m)%nat) by (unfold turn_distance; fold m t; case_decide; lia).
  assert (Hpos : ((t + turn_distance s k) mod m)%nat = k).
  { rewrite turn_position by done. unfold turn_distance. fold m t. repeat case_decide; lia. }
  destruct (decide (turn_distance s k < o)%nat) as [Hlt|Hge].
  { exfalso. apply Hne. eapply (Hbefore (turn_distance s k)); [done| |exact Hi]. by rewrite Hpos. }
  destruct (decide (turn_distance s k = o)) as [<-|Hne'].
  { left. rewrite Hpos, Hk in Hoi. congruence. }
  right. unfold turn_distance at 1. rewrite Hbo, Hturn. fold m.
  replace (t + o + 1)%nat with (t + (o + 1))%nat by lia. rewrite turn_position by lia.
  unfold turn_distance in *. fold m t in Hd, Hpos, Hge, Hne' |- *. repeat case_decide; lia.
Qed.

(** Bulk frames of channels that have a queue already, and pops. *)
Definition bulk_op (ids : list queue_key) (o : op) : Prop :=
  match o with Enqueue f => frame_id f ∈ ids ∧ priority f = Bulk | Pop => True end.

Fixpoint pops (ops : list op) : nat :=
  match ops with [] => 0 | Pop :: ops => S (pops ops) | Enqueue _ :: ops => pops ops end.

Lemma enqueue_existing s f :
  sched_ok s → frame_id f ∈ (queue_id <$> queues s) →
  queue_id <$> queues (enqueue s f) = queue_id <$> queues s
  ∧ bulk_order (enqueue s f) = bulk_order s
  ∧ next_bulk_channel (enqueue s f) = next_bulk_channel s.
Proof.
  intros Hok (q & Hid & Hin)%list_elem_of_fmap. unfold enqueue.
  destruct (position (queue_of f) (queues s)) as [i|] eqn:E.
  - apply position_Some in E as (q' & Hi & _). split_and!; [|done..]. cbn [queues].
    rewrite (push_back_insert i _ _ q' Hi). by apply set_pending_ids.
  - exfalso. apply position_None in E. apply (proj1 (Forall_forall _ _) E) in Hin.
    symmetry in Hid. apply queue_of_spec in Hid. congruence.
Qed.

(** Bulk queue [i], at position [k] of the turn, waits with [b] at its head, and
    no latency frame is pending. *)
Record waiting (s : Scheduler) (k i : nat) (id : queue_key) (b : bytes) : Prop := {
  wait_ok : sched_ok s;
  wait_turn : bulk_order s !! k = Some i;
  wait_id : (queue_id <$> queues s) !! i = Some id;
  wait_head : ∃ p, contents s id = b :: p;
  wait_latency : ∀ id', id'.2 = Latency → contents s id' = []
}.

Lemma waiting_queue s k i id b :
  waiting s k i id b → ∃ q, queues s !! i = Some q ∧ q_pending q ≠ [].
Proof.
  intros [Hok _ Hid [p Hp] _]. rewrite list_lookup_fmap in Hid.
  destruct (queues s !! i) as [q|] eqn:Hi; [|done]. cbn in Hid. exists q. split; [done|].
  rewrite <-(contents_lookup s i q Hok Hi). injection Hid as ->. by rewrite Hp.
Qed.

Lemma waiting_idle s k i id b l q :
  waiting s k i id b → queues s !! l = Some q → q_priority q = Latency → idle q.
Proof.
  intros Hw Hl Hq. unfold idle. rewrite <-(contents_lookup s l q); [|apply Hw|done].
  by apply (wait_latency _ _ _ _ _ Hw).
Qed.

Lemma run_ops_fair ops : ∀ s k i id b d,
  waiting s k i id b → (turn_distance s k ≤ d)%nat → (d < pops ops)%nat →
  Forall (bulk_op (queue_id <$> queues s)) ops →
  ∃ s' tagged, run_ops s ops = Ok (s', snd <$> tagged)
  ∧ (∀ id, contents s id ++ enqueued id ops = popped id tagged ++ contents s' id)
  ∧ (id, b) ∈ take (S d) tagged.
Proof.
  induction ops as [|[f|] ops IH]; intros s k i id b d Hw Hd Hp Hops; cbn [pops] in *; [lia| |].
  - apply Forall_cons in Hops as [[Hin Hb] Hops]. pose proof Hw as [Hok Hk Hid [p Hc] Hlat].
    destruct (enqueue_spec s f Hok) as (Hok1 & Hc1 & Hothers).
    destruct (enqueue_existing s f Hok Hin) as (Hids & Hbo & Ht).
    destruct (IH (enqueue s f) k i id b d) as (s' & tagged & E & Hfifo & Hin').
    + split; [done|by rewrite Hbo|by rewrite Hids| |].
      * destruct (decide (id = frame_id f)) as [->|Hne].
        -- rewrite Hc1, Hc. by eexists.
        -- rewrite Hothers by done. by eexists.
      * intros id' Hl. rewrite Hothers; [by apply Hlat|]. intros ->. cbn in Hl. congruence.
    + unfold turn_distance. rewrite Hbo, Ht. exact Hd.
    + done.
    + by rewrite Hids.
    + exists s', tagged. split_and!; [done| |done]. intros id'. rewrite <-Hfifo. cbn [enqueued].
      destruct (decide (frame_id f = id')) as [<-|Hne].
      * by rewrite Hc1, <-app_assoc.
      * rewrite Hothers by done. done.
  - apply Forall_cons in Hops as [_ Hops]. pose proof (wait_ok _ _ _ _ _ Hw) as Hok.
    destruct (waiting_queue _ _ _ _ _ Hw) as (q & Hi & Hne).
    pose proof (pop_next_spec s Hok) as Hpop. cbn [run_ops enqueued].
    destruct (pop_next s) as [[s1 [b1|]]| |]; [| |done..].
    2:{ destruct Hpop as [_ Hnone]. rewrite has_pending_false in Hnone. by apply Hnone in Hi. }
    destruct Hpop as [j Hs]. pose proof Hs as (qj & pj & Hj & Hpj & Hqs & Hbo & _).
    destruct (update_queue s s1 j qj pj Hok Hj Hqs Hbo) as (Hok1 & Hcj & Hothers).
    { destruct (serves_spec s j b1 s1 Hok Hs) as [[_ _ Ht1] _]. by rewrite Hbo in Ht1. }
    assert (Hids : queue_id <$> queues s1 = queue_id <$> queues s)
      by (rewrite Hqs; by apply set_pending_ids).
    pose proof (contents_lookup s j qj Hok Hj) as Hcs. rewrite Hpj in Hcs.
    destruct (decide (j = i)) as [->|Hji].
    + destruct (run_ops_fifo ops s1 Hok1) as (s' & out & E & _ & tagged & -> & Hfifo).
      assert (queue_id qj = id ∧ b1 = b) as [Hqid ->].
      { destruct Hw as [_ _ Hid [p Hc] _]. rewrite list_lookup_fmap, Hj in Hid. injection Hid as <-.
        split; [done|]. congruence. }
      exists s', ((id, b) :: tagged). split_and!; [cbn; by rewrite E| |by left].
      intros id'. unfold popped. rewrite filter_cons. cbn [fst].
      destruct (decide (id = id')) as [->|Hne'].
      * rewrite fmap_cons, <-Hqid, Hcs, <-Hcj. cbn. f_equal. apply Hfifo.
      * rewrite <-Hothers by congruence. apply Hfifo.
    + destruct (serves_distance s j b1 s1 k i q Hok Hs (wait_turn _ _ _ _ _ Hw) Hi Hne) as [|Hlt];
        [by intros; eapply waiting_idle|done|].
      destruct d as [|d]; [lia|].
      assert (Hneq : queue_id qj ≠ id).
      { intros E. apply Hji. destruct Hw as [_ _ Hid _ _]. eapply NoDup_lookup; [apply Hok| |exact Hid].
        rewrite list_lookup_fmap, Hj. cbn. by rewrite E. }
      destruct (IH s1 k i id b d) as (s' & tagged & E & Hfifo & Hin).
      * destruct Hw as [_ Hk Hid [p Hc] Hlat]. split; [done|by rewrite Hbo|by rewrite Hids| |].
        -- exists p. by rewrite Hothers.
        -- intros id' Hl. destruct (decide (id' = queue_id qj)) as [->|]; [|by rewrite Hothers, Hlat].
           exfalso. specialize (Hlat _ Hl). congruence.
      * lia.
      * lia.
      * by rewrite Hids.
      * exists s', ((queue_id qj, b1) :: tagged). split_and!; [cbn; by rewrite E| |by right].
        intros id'. unfold popped. rewrite filter_cons. cbn [fst].
        destruct (decide (queue_id qj = id')) as [<-|Hne'].
        -- rewrite fmap_cons, Hcs, <-Hcj. cbn. f_equal. apply Hfifo.
        -- rewrite <-Hothers by congruence. apply Hfifo.
Qed.

(** ** Properties *)

(** C28. FIFO and conservation: over any interleaving of enqueues and pops from
    a new scheduler, no operation panics, and for every channel and priority
    the frames enqueued are exactly those popped for it, in the same order,
    followed by those still queued: none is lost, duplicated or reordered. *)
Theorem scheduler_fifo ops :
  ∃ s tagged, run_ops Scheduler_new ops = Ok (s, snd <$> tagged)
  ∧ ∀ id, enqueued id ops = popped id tagged ++ contents s id.
Proof.
  destruct (run_ops_fifo ops Scheduler_new Scheduler_new_ok) as (s & out & E & _ & tagged & -> & Hf).
  exists s, tagged. split; [exact E|]. intros id. by rewrite <-Hf.
Qed.

Lemma run_ops_ok ops s out : run_ops Scheduler_new ops = Ok (s, out) → sched_ok s.
Proof.
  destruct (run_ops_fifo ops Scheduler_new Scheduler_new_ok) as (s' & out' & E & Hok & _).
  rewrite E. by intros [= <- <-].
Qed.

Lemma idle_contents s :
  sched_ok s → (∀ j q, queues s !! j = Some q → idle q) ↔ ∀ id, contents s id = [].
Proof.
  intros Hok. split.
  - intros Hi id. destruct (contents_case s id Hok) as [(i & q & Hq & _ & ->)|[_ ?]]; [|done].
    by eapply Hi.
  - intros Hc j q Hq. unfold idle. by rewrite <-(contents_lookup s j q Hok Hq).
Qed.

(** The scheduling policy, in every state the scheduler can reach: a pop
    takes the head of one queue and leaves the others alone; it takes a bulk
    frame only when no latency frame of any channel is pending; and it returns
    nothing only when nothing is queued, which is what [has_pending] says. *)
Theorem scheduler_policy ops s out :
  run_ops Scheduler_new ops = Ok (s, out) →
  match pop_next s with
  | Ok (s', Some b) => ∃ id, contents s id = b :: contents s' id
      ∧ (∀ id', id' ≠ id → contents s' id' = contents s id')
      ∧ (id.2 = Bulk → ∀ id', id'.2 = Latency → contents s id' = [])
  | Ok (s', None) => s' = s ∧ ∀ id, contents s id = []
  | _ => False
  end
  ∧ (has_pending s = false ↔ ∀ id, contents s id = []).
Proof.
  intros Hrun. pose proof (run_ops_ok _ _ _ Hrun) as Hok. split.
  - pose proof (pop_next_spec s Hok) as Hp. destruct (pop_next s) as [[s' [b|]]| |]; [| |done..].
    + destruct Hp as [i (q & p & Hi & Hqp & Hqs & Hbo & Hcase)].
      destruct (update_queue s s' i q p Hok Hi Hqs Hbo) as (_ & Hc & Hothers).
      { destruct Hcase as [(_ & -> & _)|(_ & _ & o & Ho & _ & -> & _)]; [apply Hok|].
        left. apply Nat.mod_upper_bound. lia. }
      exists (queue_id q). rewrite Hc, (contents_lookup s i q), Hqp by done. split_and!; [done..|].
      intros Hb id' Hl. destruct Hcase as [(Hl' & _)|(_ & Hlat & _)]; [cbn in Hb; congruence|].
      destruct (contents_case s id' Hok) as [(j & q' & Hj & <- & ->)|[_ ?]]; [|done].
      by eapply Hlat.
    + destruct Hp as [-> Hn]. split; [done|]. by apply idle_contents, has_pending_false.
  - rewrite has_pending_false. by apply idle_contents.
Qed.

(** C27. No starvation: while no latency frame is pending, a waiting bulk
    channel has its next frame written among the next [n] frames, [n] the
    number of bulk channels, however many frames the other bulk channels keep
    enqueueing meanwhile. *)
Theorem scheduler_no_starvation ops s out id b p more :
  run_ops Scheduler_new ops = Ok (s, out) →
  id.2 = Bulk → contents s id = b :: p →
  (∀ id', id'.2 = Latency → contents s id' = []) →
  Forall (bulk_op (queue_id <$> queues s)) more → (length (bulk_order s) ≤ pops more)%nat →
  ∃ s' tagged, run_ops s more = Ok (s', snd <$> tagged)
  ∧ (id, b) ∈ take (length (bulk_order s)) tagged.
Proof.
  intros Hrun Hb Hc Hlat Hmore Hn. pose proof (run_ops_ok _ _ _ Hrun) as Hok.
  destruct (contents_case s id Hok) as [(i & q & Hi & Hid & Hcq)|[_ ?]]; [|congruence].
  assert (Hin : i ∈ bulk_order s).
  { rewrite (ok_bulk _ Hok). apply bulk_indices_lookup. exists q. split; [done|].
    rewrite <-Hid in Hb. exact Hb. }
  apply list_elem_of_lookup in Hin as [k Hk]. pose proof (lookup_lt_Some _ _ _ Hk) as Hkm.
  assert (Hd : (turn_distance s k < length (bulk_order s))%nat).
  { destruct (ok_turn _ Hok); unfold turn_distance; case_decide; lia. }
  destruct (run_ops_fair more s k i id b (turn_distance s k)) as (s' & tagged & E & _ & Hin).
  - split; [done..| | |done].
    + rewrite list_lookup_fmap, Hi. cbn. by rewrite Hid.
    + by exists p.
  - done.
  - lia.
  - done.
  - exists s', tagged. split; [done|].
    apply list_elem_of_lookup in Hin as [j [Hj Hlt]%lookup_take_Some].
    apply (list_elem_of_lookup_2 _ j), lookup_take_Some. split; [done|lia].
Qed.

Definition three_channels : list op :=
  [Enqueue {| channel := Io; priority := Bulk; frame_bytes := [1] |};
   Enqueue {| channel := Io; priority := Bulk; frame_bytes := [2] |};
   Enqueue {| channel := Static 1004; priority := Bulk; frame_bytes := [3] |}].

Lemma scheduler_policy_witness :
  ∃ s, run_ops Scheduler_new (three_channels
         ++ [Enqueue {| channel := Io; priority := Latency; frame_bytes := [9] |}; Pop]) = Ok (s, [[9]])
  ∧ (has_pending s = false ↔ ∀ id, contents s id = []).
Proof.
  eexists. split; [vm_compute; reflexivity|].
  apply (scheduler_policy (three_channels
    ++ [Enqueue {| channel := Io; priority := Latency; frame_bytes := [9] |}; Pop]) _ [[9]]).
  vm_compute. reflexivity.
Defined.

Lemma scheduler_no_starvation_witness :
  ∃ s, run_ops Scheduler_new three_channels = Ok (s, [])
  ∧ ∃ s' tagged, run_ops s [Pop; Pop] = Ok (s', snd <$> tagged)
    ∧ ((Static 1004, Bulk), [3]) ∈ take (length (bulk_order s)) tagged.
Proof.
  eexists. split; [vm_compute; reflexivity|].
  refine (scheduler_no_starvation three_channels _ [] (Static 1004, Bulk) [3] [] [Pop; Pop]
    _ _ _ _ _ _).
  - vm_compute. reflexivity.
  - reflexivity.
  - vm_compute. reflexivity.
  - intros [key prio] Hl. cbn in Hl. subst prio. apply contents_absent. cbn. intros Hin.
    repeat (apply elem_of_cons in Hin as [Hin|Hin]; [discriminate Hin|]).
    by apply elem_of_nil in Hin.
  - repeat constructor.
  - vm_compute. lia.
Defined.
