(* ===== verification/Writer.v ===== *)
(** [rdpcore-transport/src/lib.rs]: the task that owns a connection's socket, the handles that
    feed it, and their interleavings at the granularity of atomic actions. *)
From S2P Require Import Prelude Scheduler.

Definition LATENCY_QUEUE_CAP : nat := 64.
Definition BULK_QUEUE_CAP : nat := 256.

(** ** tokio's bounded channel *)

Inductive TrySendError := Full | Closed.

(** What [recv] finds when it is polled; [try_recv] tells the same cases apart. *)
Inductive Recv (A : Type) := Received (x : A) | Empty | Disconnected.
Arguments Received {A} x.
Arguments Empty {A}.
Arguments Disconnected {A}.

(** [tokio::sync::mpsc], as its documentation describes it: a queue of bounded capacity that reports
    [Full], and [Closed] once the receiver is gone, which drops what is queued; [recv] empties the queue
    before it reports that every sender is gone. *)
Class Mpsc (Q : Type → Type) := {
  mpsc_channel {A} : nat → Q A;
  mpsc_try_send {A} : Q A → A → option TrySendError * Q A;
  mpsc_recv {A} : Q A → Recv A * Q A;
  mpsc_drop_senders {A} : Q A → Q A;
  mpsc_drop_receiver {A} : Q A → Q A;
  queued {A} : Q A → list A;
  capacity {A} : Q A → nat;
  senders_gone {A} : Q A → bool;
  receiver_gone {A} : Q A → bool;
  channel_new {A} n : (0 < n)%nat → let c : Q A := mpsc_channel n in
    queued c = [] ∧ capacity c = n ∧ senders_gone c = false ∧ receiver_gone c = false;
  try_send_law {A} (c : Q A) x : let '(r, c') := mpsc_try_send c x in
    capacity c' = capacity c ∧ senders_gone c' = senders_gone c ∧ receiver_gone c' = receiver_gone c
    ∧ if receiver_gone c then r = Some Closed ∧ queued c' = queued c
      else if decide (length (queued c) < capacity c)%nat then r = None ∧ queued c' = queued c ++ [x]
      else r = Some Full ∧ queued c' = queued c;
  recv_law {A} (c : Q A) : let '(r, c') := mpsc_recv c in
    capacity c' = capacity c ∧ senders_gone c' = senders_gone c ∧ receiver_gone c' = receiver_gone c
    ∧ queued c' = tail (queued c)
    ∧ r = match queued c with
          | x :: _ => Received x
          | [] => if senders_gone c then Disconnected else Empty
          end;
  drop_senders_law {A} (c : Q A) : let c' := mpsc_drop_senders c in
    queued c' = queued c ∧ capacity c' = capacity c ∧ senders_gone c' = true
    ∧ receiver_gone c' = receiver_gone c;
  drop_receiver_law {A} (c : Q A) : let c' := mpsc_drop_receiver c in
    queued c' = [] ∧ capacity c' = capacity c ∧ senders_gone c' = senders_gone c
    ∧ receiver_gone c' = true;
}.

(** ** State *)

(** What the task wrote: a frame popped from the scheduler, or all the frames of a live wave. *)
Inductive Write := Scheduled (b : bytes) | Live (frames : list Frame).

(** Where [run] is: the head of its loop, the [for] over a live wave with what it wrote and what is
    left of it, the two [while let], [pop_next], the write of a frame, the three polls of [select!],
    the wait until one of its branches is ready, the final flush, returned. *)
Inductive Pc :=
  | Top | WritingLive (written rest : list Frame) | DrainLatency | DrainBulk | Popping
  | WritingFrame (b : bytes)
  | PollNotify | PollLatency | PollBulk | Parked | Flushing | Returned (ok : bool).

(** What [ConnectionWriter] and its [FrameSender]s share. *)
Record Shared (Q : Type → Type) := {
  latency : Q Frame; bulk : Q Frame; live : option (list Frame); live_notify : Q unit }.
Arguments latency {Q} _.
Arguments bulk {Q} _.
Arguments live {Q} _.
Arguments live_notify {Q} _.

(** The task's own fields; [sink] holds the bytes of each [write_all]. *)
Record Task := {
  sink : list bytes; scheduler : Scheduler;
  latency_open : bool; bulk_open : bool; live_open : bool; pc : Pc }.

(** Who is there, and what happened: [senders] handles, of which [posting] are in [send_live]
    between the slot and the wake-up; the frames [send] and [send_all] accepted, the waves
    [send_live] stored, and what was written, oldest first. *)
Record History := {
  senders : nat; posting : nat; accepted : list Frame; posted : list (list Frame);
  log : list Write }.

Record Connection (Q : Type → Type) := { shared : Shared Q; task : Task; history : History }.
Arguments shared {Q} _.
Arguments task {Q} _.
Arguments history {Q} _.

Section writer.
Context {Q : Type → Type} `{!Mpsc Q}.
Implicit Types (sh : Shared Q) (t : Task) (h : History) (c : Connection Q).

Definition ConnectionWriter_new : Connection Q :=
  {| shared := {| latency := mpsc_channel LATENCY_QUEUE_CAP; bulk := mpsc_channel BULK_QUEUE_CAP;
                  live := None; live_notify := mpsc_channel 1 |};
     task := {| sink := []; scheduler := Scheduler_new; latency_open := true; bulk_open := true;
                live_open := true; pc := Top |};
     history := {| senders := 1; posting := 0; accepted := []; posted := []; log := [] |} |}.

(** ** The handles *)

Definition with_latency sh q := {| latency := q; bulk := bulk sh; live := live sh; live_notify := live_notify sh |}.
Definition with_bulk sh q := {| latency := latency sh; bulk := q; live := live sh; live_notify := live_notify sh |}.
Definition with_live sh l := {| latency := latency sh; bulk := bulk sh; live := l; live_notify := live_notify sh |}.
Definition with_notify sh q := {| latency := latency sh; bulk := bulk sh; live := live sh; live_notify := q |}.

(** [FrameSender::send]: [Err] gives the frame back. *)
Definition send (frame : Frame) sh : bool * Shared Q :=
  let '(r, sh) := match priority frame with
    | Latency => let '(r, q) := mpsc_try_send (latency sh) frame in (r, with_latency sh q)
    | Bulk => let '(r, q) := mpsc_try_send (bulk sh) frame in (r, with_bulk sh q)
    end in
  (match r with None => true | Some _ => false end, sh).

(** [FrameSender::send_all]: [None] while it waits for space. *)
Definition send_all (frame : Frame) sh : option (bool * Shared Q) :=
  let '(r, sh') := match priority frame with
    | Latency => let '(r, q) := mpsc_try_send (latency sh) frame in (r, with_latency sh q)
    | Bulk => let '(r, q) := mpsc_try_send (bulk sh) frame in (r, with_bulk sh q)
    end in
  match r with None => Some (true, sh') | Some Closed => Some (false, sh') | Some Full => None end.

(** [FrameSender::send_live]: the slot, then the wake-up. *)
Definition send_live_store (frames : list Frame) sh : Shared Q := with_live sh (Some frames).

Definition send_live_notify sh : bool * Shared Q :=
  let '(r, q) := mpsc_try_send (live_notify sh) () in
  (match r with None | Some Full => true | Some Closed => false end, with_notify sh q).

(** ** The task *)

Definition with_pc t p := {| sink := sink t; scheduler := scheduler t; latency_open := latency_open t;
  bulk_open := bulk_open t; live_open := live_open t; pc := p |}.
Definition with_scheduler t s := {| sink := sink t; scheduler := s; latency_open := latency_open t;
  bulk_open := bulk_open t; live_open := live_open t; pc := pc t |}.
Definition with_opens t l b v := {| sink := sink t; scheduler := scheduler t; latency_open := l;
  bulk_open := b; live_open := v; pc := pc t |}.
(** [self.sink.write_all(..).await?] *)
Definition write_all (b : bytes) t := {| sink := sink t ++ [b]; scheduler := scheduler t;
  latency_open := latency_open t; bulk_open := bulk_open t; live_open := live_open t; pc := pc t |}.

Definition take_live sh : option (list Frame) * Shared Q := (live sh, with_live sh None).

Definition logged h w := {| senders := senders h; posting := posting h; accepted := accepted h;
  posted := posted h; log := log h ++ [w] |}.

Definition mk sh t h : Connection Q := {| shared := sh; task := t; history := h |}.

(** One pass of [while let Ok(frame) = queue.try_recv()]. *)
Definition drain (r : Recv Frame) t (next : Pc) : Task :=
  match r with
  | Received f => with_scheduler t (enqueue (scheduler t) f)
  | Empty | Disconnected => with_pc t next
  end.

Definition any_open t : bool := latency_open t || bulk_open t || live_open t.

(** A branch of [select!] whose precondition holds is ready when its channel has something. *)
Definition ready {A} (open : bool) (q : Q A) : bool :=
  open && match fst (mpsc_recv q) with Empty => false | _ => true end.

Definition wakes sh t : bool :=
  ready (live_open t) (live_notify sh) || ready (latency_open t) (latency sh)
  || ready (bulk_open t) (bulk sh).

(** [run] returns, and the receivers are dropped with the task. *)
Definition returned (ok : bool) sh t h : Connection Q :=
  mk {| latency := mpsc_drop_receiver (latency sh); bulk := mpsc_drop_receiver (bulk sh);
        live := live sh; live_notify := mpsc_drop_receiver (live_notify sh) |}
    (with_pc t (Returned ok)) h.

(** One action of [run]: [None] when it waits or has returned. *)
Definition run_step c : res Empty_set (option (Connection Q)) :=
  let sh := shared c in let t := task c in let h := history c in
  match pc t with
  | Top =>
    match take_live sh with
    | (Some frames, sh) => Ok (Some (mk sh (with_pc t (WritingLive [] frames)) h))
    | (None, sh) => Ok (Some (mk sh (with_pc t DrainLatency) h))
    end
  | WritingLive written [] => Ok (Some (mk sh (with_pc t Top) (logged h (Live written))))
  | WritingLive written (f :: rest) =>
    Ok (Some (mk sh (write_all (frame_bytes f) (with_pc t (WritingLive (written ++ [f]) rest))) h))
  | DrainLatency =>
    let '(r, q) := mpsc_recv (latency sh) in
    Ok (Some (mk (with_latency sh q) (drain r t DrainBulk) h))
  | DrainBulk =>
    let '(r, q) := mpsc_recv (bulk sh) in
    Ok (Some (mk (with_bulk sh q) (drain r t Popping) h))
  | Popping =>
    '(s, b) ← pop_next (scheduler t);
    match b with
    | Some b =>
      Ok (Some (mk sh (with_pc (with_scheduler t s) (WritingFrame b)) h))
    | None =>
      Ok (Some (mk sh (with_pc (with_scheduler t s) (if any_open t then PollNotify else Flushing)) h))
    end
  | WritingFrame b => Ok (Some (mk sh (write_all b (with_pc t Top)) (logged h (Scheduled b))))
  | PollNotify =>
    if negb (live_open t) then Ok (Some (mk sh (with_pc t PollLatency) h)) else
    let '(r, q) := mpsc_recv (live_notify sh) in
    let sh := with_notify sh q in
    match r with
    | Received _ => Ok (Some (mk sh (with_pc t Top) h))
    | Disconnected =>
      Ok (Some (mk sh (with_pc (with_opens t (latency_open t) (bulk_open t) false) Top) h))
    | Empty => Ok (Some (mk sh (with_pc t PollLatency) h))
    end
  | PollLatency =>
    if negb (latency_open t) then Ok (Some (mk sh (with_pc t PollBulk) h)) else
    let '(r, q) := mpsc_recv (latency sh) in
    let sh := with_latency sh q in
    match r with
    | Received f => Ok (Some (mk sh (with_pc (with_scheduler t (enqueue (scheduler t) f)) Top) h))
    | Disconnected =>
      Ok (Some (mk sh (with_pc (with_opens t false (bulk_open t) (live_open t)) Top) h))
    | Empty => Ok (Some (mk sh (with_pc t PollBulk) h))
    end
  | PollBulk =>
    if negb (bulk_open t)
    then if any_open t then Ok (Some (mk sh (with_pc t Parked) h)) else Panic
    else
    let '(r, q) := mpsc_recv (bulk sh) in
    let sh := with_bulk sh q in
    match r with
    | Received f => Ok (Some (mk sh (with_pc (with_scheduler t (enqueue (scheduler t) f)) Top) h))
    | Disconnected =>
      Ok (Some (mk sh (with_pc (with_opens t (latency_open t) false (live_open t)) Top) h))
    | Empty => Ok (Some (mk sh (with_pc t Parked) h))
    end
  | Parked => Ok (if wakes sh t then Some (mk sh (with_pc t PollNotify) h) else None)
  | Flushing => Ok (Some (returned true sh t h))
  | Returned _ => Ok None
  end.

(** Where a failing write or flush ends [run]. *)
Definition may_fail (p : Pc) : bool :=
  match p with WritingLive _ (_ :: _) | WritingFrame _ | Flushing => true | _ => false end.

(** ** The interleavings *)

Definition with_shared c sh : Connection Q := mk sh (task c) (history c).
Definition with_senders h n := {| senders := n; posting := posting h; accepted := accepted h;
  posted := posted h; log := log h |}.
Definition with_posting h n := {| senders := senders h; posting := n; accepted := accepted h;
  posted := posted h; log := log h |}.
Definition sent (ok : bool) (f : Frame) h := {| senders := senders h; posting := posting h;
  accepted := if ok then accepted h ++ [f] else accepted h; posted := posted h; log := log h |}.
Definition stored (frames : list Frame) h := {| senders := senders h; posting := S (posting h);
  accepted := accepted h; posted := posted h ++ [frames]; log := log h |}.

(** Any number of handles, used from any thread, against the task.  The senders inside the last
    handle are dropped one after the other. *)
Inductive conn_step : Connection Q → Connection Q → Prop :=
  | step_send f ok sh c : senders (history c) ≠ 0%nat → send f (shared c) = (ok, sh) →
      conn_step c (mk sh (task c) (sent ok f (history c)))
  | step_send_all f ok sh c : senders (history c) ≠ 0%nat → send_all f (shared c) = Some (ok, sh) →
      conn_step c (mk sh (task c) (sent ok f (history c)))
  | step_store frames c : senders (history c) ≠ 0%nat →
      conn_step c (mk (send_live_store frames (shared c)) (task c) (stored frames (history c)))
  | step_notify n c : posting (history c) = S n →
      conn_step c (mk (snd (send_live_notify (shared c))) (task c) (with_posting (history c) n))
  | step_clone c : senders (history c) ≠ 0%nat →
      conn_step c (mk (shared c) (task c) (with_senders (history c) (S (senders (history c)))))
  | step_drop n c : senders (history c) = S n → n ≠ 0%nat ∨ posting (history c) = 0%nat →
      conn_step c (mk (shared c) (task c) (with_senders (history c) n))
  | step_drop_latency c : senders (history c) = 0%nat →
      conn_step c (with_shared c (with_latency (shared c) (mpsc_drop_senders (latency (shared c)))))
  | step_drop_bulk c : senders (history c) = 0%nat →
      conn_step c (with_shared c (with_bulk (shared c) (mpsc_drop_senders (bulk (shared c)))))
  | step_drop_notify c : senders (history c) = 0%nat →
      conn_step c (with_shared c (with_notify (shared c) (mpsc_drop_senders (live_notify (shared c)))))
  | step_run c c' : run_step c = Ok (Some c') → conn_step c c'
  | step_error c : may_fail (pc (task c)) = true →
      conn_step c (returned false (shared c) (task c) (history c)).

(** ** What was written *)

Definition write_bytes (w : Write) : list bytes :=
  match w with Scheduled b => [b] | Live frames => frame_bytes <$> frames end.
Definition scheduled (l : list Write) : list bytes :=
  l ≫= λ w, match w with Scheduled b => [b] | Live _ => [] end.
Definition waves (l : list Write) : list (list Frame) :=
  l ≫= λ w, match w with Scheduled _ => [] | Live frames => [frames] end.

(** The part of a live wave that is written while the rest is not. *)
Definition partial (p : Pc) : list bytes :=
  match p with WritingLive written _ => frame_bytes <$> written | _ => [] end.
Definition in_hand (p : Pc) : list bytes := match p with WritingFrame b => [b] | _ => [] end.
Definition wave_in_hand (p : Pc) : list (list Frame) :=
  match p with WritingLive written rest => [written ++ rest] | _ => [] end.

(** The frames of [fs] for a channel at a priority, in order. *)
Definition frames_of (id : queue_key) (fs : list Frame) : list bytes :=
  frame_bytes <$> filter (λ f, frame_id f = id) fs.

(** Nothing that was handed over is left behind: frames reached the socket per channel and priority
    in the order they were accepted, and the newest live wave was written. *)
Definition all_written c : Prop :=
  (∃ pops, pops.*2 = scheduled (log (history c))
    ∧ ∀ id, frames_of id (accepted (history c)) = popped id pops)
  ∧ (posting (history c) = 0%nat → last (waves (log (history c))) = last (posted (history c))).

(** ** Invariant *)

Definition is_returned (p : Pc) : bool := match p with Returned _ => true | _ => false end.

(** One inbox: its bound, what its closing says about the handles. *)
Record inbox_ok {A} (q : Q A) (cap : nat) (open : bool) (over : bool) (n : nat) : Prop := {
  inbox_cap : capacity q = cap;
  inbox_bound : (length (queued q) ≤ cap)%nat;
  inbox_receiver : receiver_gone q = over;
  inbox_senders : senders_gone q = true → n = 0%nat;
  inbox_closed : open = false → n = 0%nat ∧ queued q = []
}.

Record inboxes_ok c : Prop := {
  ok_latency : inbox_ok (latency (shared c)) LATENCY_QUEUE_CAP (latency_open (task c))
    (is_returned (pc (task c))) (senders (history c));
  ok_bulk_inbox : inbox_ok (bulk (shared c)) BULK_QUEUE_CAP (bulk_open (task c))
    (is_returned (pc (task c))) (senders (history c));
  ok_notify : inbox_ok (live_notify (shared c)) 1 (live_open (task c))
    (is_returned (pc (task c))) (senders (history c));
  ok_latency_frames : Forall (λ f, priority f = Latency) (queued (latency (shared c)));
  ok_bulk_frames : Forall (λ f, priority f = Bulk) (queued (bulk (shared c)));
  ok_posting : senders (history c) = 0%nat → posting (history c) = 0%nat
}.

(** The frames handed over, from the socket back to the inboxes; a failed write loses some. *)
Record frames_ok c : Prop := {
  ok_scheduler : sched_ok (scheduler (task c));
  ok_sink : pc (task c) ≠ Returned false →
    sink (task c) = (log (history c) ≫= write_bytes) ++ partial (pc (task c));
  ok_frames : ∃ pops, pops.*2 = scheduled (log (history c)) ++ in_hand (pc (task c))
    ∧ ∀ id, ∃ rest, frames_of id (accepted (history c)) = popped id pops ++ rest
      ∧ (pc (task c) ≠ Returned false → rest = contents (scheduler (task c)) id
           ++ frames_of id (queued (latency (shared c)) ++ queued (bulk (shared c))))
}.

(** The live slot: what it holds is newer than what was taken, and the task will look at it. *)
Record live_ok c : Prop := {
  ok_waves : let taken := waves (log (history c)) ++ wave_in_hand (pc (task c)) in
    match live (shared c) with
    | Some w => ∃ older, posted (history c) = older ++ [w] ∧ taken `sublist_of` older
    | None => taken `sublist_of` posted (history c)
        ∧ (pc (task c) ≠ Returned false → last taken = last (posted (history c)))
    end;
  ok_wakeup : is_Some (live (shared c)) → pc (task c) ≠ Returned false →
    pc (task c) = Top ∨ posting (history c) ≠ 0%nat ∨ queued (live_notify (shared c)) ≠ []
}.

(** What the task knows where it is. *)
Definition pc_ok c : Prop :=
  let t := task c in
  match pc t with
  | PollNotify | PollLatency | PollBulk | Parked =>
    any_open t = true ∧ ∀ id, contents (scheduler t) id = []
  | Flushing | Returned true => any_open t = false ∧ ∀ id, contents (scheduler t) id = []
  | _ => True
  end.

Record conn_ok c : Prop := {
  conn_inboxes : inboxes_ok c; conn_frames : frames_ok c; conn_live : live_ok c; conn_pc : pc_ok c }.

(** ** The inboxes *)

Lemma inbox_try_send {A} (q : Q A) cap open over n x :
  inbox_ok q cap open over n → n ≠ 0%nat →
  let '(r, q') := mpsc_try_send q x in
  inbox_ok q' cap open over n
  ∧ queued q' = match r with None => queued q ++ [x] | Some _ => queued q end
  ∧ (r = None → over = false) ∧ (r = Some Closed → over = true)
  ∧ (r = Some Full → length (queued q) = cap).
Proof.
  intros [Hc Hb Hr Hs Ho] Hn. pose proof (try_send_law q x) as H.
  destruct (mpsc_try_send q x) as [r q']. destruct H as (Hc' & Hs' & Hr' & H).
  assert (open = true) as -> by (destruct open; [done|]; destruct Ho; [done|lia]).
  rewrite Hr, Hc in H. destruct over; [|case_decide]; destruct H as [-> Hq].
  all: split; [constructor; rewrite ?Hc', ?Hs', ?Hr', ?Hq; auto; try done; rewrite ?length_app; cbn; lia|].
  all: split; [done|]; split; [done|]; split; [done|intros E; done || lia].
Qed.

Lemma inbox_recv {A} (q : Q A) cap open over n :
  inbox_ok q cap open over n →
  let '(r, q') := mpsc_recv q in
  inbox_ok q' cap open over n ∧ queued q = match r with Received x => x :: queued q' | _ => [] end
  ∧ match r with
    | Received _ => True
    | Empty => queued q' = [] ∧ senders_gone q = false
    | Disconnected => queued q' = [] ∧ n = 0%nat ∧ inbox_ok q' cap false over n
    end.
Proof.
  intros [Hc Hb Hr Hs Ho]. pose proof (recv_law q) as H. destruct (mpsc_recv q) as [r q'].
  destruct H as (Hc' & Hs' & Hr' & Hq & Hre).
  assert (∀ o, (o = false → n = 0%nat ∧ queued q = []) → inbox_ok q' cap o over n) as Hok.
  { intros o Ho'. constructor; rewrite ?Hc', ?Hs', ?Hr', ?Hq; auto.
    - destruct (queued q); cbn in *; lia.
    - intros E. destruct (Ho' E) as [? ->]. done. }
  split; [by apply Hok|]. destruct (queued q) as [|x l] eqn:El; cbn in Hq; subst r.
  - destruct (senders_gone q) eqn:Eg; [|by rewrite Hq]. rewrite Hq. auto 7.
  - by rewrite Hq.
Qed.

Lemma inbox_drop_senders {A} (q : Q A) cap open over :
  inbox_ok q cap open over 0 → inbox_ok (mpsc_drop_senders q) cap open over 0
  ∧ queued (mpsc_drop_senders q) = queued q.
Proof.
  intros [Hc Hb Hr Hs Ho]. destruct (drop_senders_law q) as (Hq & Hc' & Hs' & Hr').
  split; [|done]. constructor; rewrite ?Hc', ?Hs', ?Hr', ?Hq; auto.
Qed.

Lemma inbox_drop_receiver {A} (q : Q A) cap open over n :
  inbox_ok q cap open over n → inbox_ok (mpsc_drop_receiver q) cap open true n
  ∧ queued (mpsc_drop_receiver q) = [].
Proof.
  intros [Hc Hb Hr Hs Ho]. destruct (drop_receiver_law q) as (Hq & Hc' & Hs' & Hr').
  split; [|done]. constructor; rewrite ?Hc', ?Hs', ?Hr', ?Hq; auto; [cbn; lia|].
  intros E. by destruct (Ho E).
Qed.

Lemma inbox_senders_le {A} (q : Q A) cap open over n m :
  inbox_ok q cap open over n → (n = 0%nat → m = 0%nat) → inbox_ok q cap open over m.
Proof. intros [Hc Hb Hr Hs Ho] Hm. constructor; auto. intros E. destruct (Ho E). auto. Qed.

Lemma inbox_new {A} n : (0 < n)%nat → inbox_ok (mpsc_channel n : Q A) n true false 1.
Proof.
  intros Hn. destruct (channel_new (A:=A) n Hn) as (Hq & Hc & Hs & Hr).
  constructor; rewrite ?Hq, ?Hc, ?Hs, ?Hr; cbn; [done|lia|done..].
Qed.

(** ** The handles keep the invariant *)

Lemma frames_of_app id fs gs : frames_of id (fs ++ gs) = frames_of id fs ++ frames_of id gs.
Proof. unfold frames_of. by rewrite filter_app, fmap_app. Qed.

Lemma frames_of_same f : frames_of (frame_id f) [f] = [frame_bytes f].
Proof. unfold frames_of. by rewrite filter_cons_True by done. Qed.

Lemma frames_of_other id f : id ≠ frame_id f → frames_of id [f] = [].
Proof. intros Hne. unfold frames_of. by rewrite filter_cons_False by congruence. Qed.

Lemma frames_of_priority id p fs : Forall (λ f, priority f = p) fs → id.2 ≠ p → frames_of id fs = [].
Proof.
  intros Hp Hid. unfold frames_of. induction Hp as [|f fs Hf _ IH]; [done|].
  rewrite filter_cons_False; [done|]. intros <-. by apply Hid.
Qed.

(** A frame joins its inbox behind the others of its channel and priority. *)
Lemma frames_of_enqueued f (lat blk lat' blk' : list Frame) :
  Forall (λ g, priority g = Bulk) blk →
  lat' = lat ++ (if decide (priority f = Latency) then [f] else []) →
  blk' = blk ++ (if decide (priority f = Latency) then [] else [f]) →
  ∀ id, frames_of id (lat' ++ blk') = frames_of id (lat ++ blk) ++ frames_of id [f].
Proof.
  intros Hb -> -> id. case_decide as Hp; rewrite !frames_of_app; cbn [app].
  - destruct (decide (id = frame_id f)) as [->|Hne].
    + rewrite (frames_of_priority _ Bulk blk) by (done || (cbn; congruence)). by rewrite !app_nil_r.
    + by rewrite (frames_of_other id f), !app_nil_r.
  - by rewrite app_nil_r, app_assoc.
Qed.

Lemma send_all_send f sh ok sh' : send_all f sh = Some (ok, sh') → send f sh = (ok, sh').
Proof.
  unfold send_all, send. destruct (priority f).
  - destruct (mpsc_try_send (latency sh) f) as [[[]|] q]; by intros [= <- <-].
  - destruct (mpsc_try_send (bulk sh) f) as [[[]|] q]; by intros [= <- <-].
Qed.

Lemma send_inboxes c f ok sh :
  inboxes_ok c → senders (history c) ≠ 0%nat → send f (shared c) = (ok, sh) →
  inboxes_ok (mk sh (task c) (sent ok f (history c)))
  ∧ live sh = live (shared c) ∧ live_notify sh = live_notify (shared c)
  ∧ if ok then is_returned (pc (task c)) = false
      ∧ ∀ id, frames_of id (queued (latency sh) ++ queued (bulk sh))
          = frames_of id (queued (latency (shared c)) ++ queued (bulk (shared c))) ++ frames_of id [f]
    else queued (latency sh) = queued (latency (shared c)) ∧ queued (bulk sh) = queued (bulk (shared c)).
Proof.
  intros [Hl Hb Hn Hlf Hbf Hp] Hs. unfold send. destruct (priority f) eqn:Hf.
  - pose proof (inbox_try_send _ _ _ _ _ f Hl Hs) as H. destruct (mpsc_try_send _ _) as [r q].
    destruct H as (Hq & Eq & Hr & _). intros [= <- <-].
    split; [constructor; cbn; auto; rewrite Eq; destruct r; [done|by apply Forall_app_2; [|constructor]]|].
    split; [done|]. split; [done|]. destruct r; [done|]. split; [auto|].
    apply frames_of_enqueued; cbn; [done|..]; (rewrite decide_True by done); [done|by rewrite app_nil_r].
  - pose proof (inbox_try_send _ _ _ _ _ f Hb Hs) as H. destruct (mpsc_try_send _ _) as [r q].
    destruct H as (Hq & Eq & Hr & _). intros [= <- <-].
    split; [constructor; cbn; auto; rewrite Eq; destruct r; [done|by apply Forall_app_2; [|constructor]]|].
    split; [done|]. split; [done|]. destruct r; [done|]. split; [auto|].
    apply frames_of_enqueued; cbn; [done|..]; (rewrite decide_False by congruence); [by rewrite app_nil_r|done].
Qed.

Lemma send_keeps c f ok sh :
  conn_ok c → senders (history c) ≠ 0%nat → send f (shared c) = (ok, sh) →
  conn_ok (mk sh (task c) (sent ok f (history c))).
Proof.
  intros [Hi [Hsch Hsink (pops & Hpops & Hfr)] [Hw Hk] Hpc] Hs E.
  destruct (send_inboxes _ _ _ _ Hi Hs E) as (Hi' & El & En & Hok).
  constructor; [done| | |exact Hpc].
  - constructor; [done|done|]. exists pops. split; [done|]. intros id. cbn [history shared task mk sent accepted].
    destruct (Hfr id) as (rest & Hacc & Hrest). destruct ok.
    + destruct Hok as [Hret Hq]. exists (rest ++ frames_of id [f]).
      rewrite frames_of_app, Hacc, <-app_assoc. split; [done|]. intros Hne.
      by rewrite Hq, (Hrest Hne), <-app_assoc.
    + destruct Hok as [El' Eb']. exists rest. rewrite El', Eb'. auto.
  - constructor; cbn; rewrite El; [done|]. by rewrite En.
Qed.

Lemma store_keeps c frames :
  conn_ok c → senders (history c) ≠ 0%nat →
  conn_ok (mk (send_live_store frames (shared c)) (task c) (stored frames (history c))).
Proof.
  intros [[? ? ? ? ? Hp] Hfr [Hw Hk] Hpc] Hs. constructor; [|by destruct Hfr| |done].
  - by constructor.
  - constructor; cbn; [|intros _ _; by right; left].
    exists (posted (history c)). split; [done|]. destruct (live (shared c)) as [w|].
    + destruct Hw as (older & E & Hsub). rewrite E. by apply sublist_inserts_r.
    + by destruct Hw.
Qed.

Lemma notify_keeps c n :
  conn_ok c → posting (history c) = S n →
  conn_ok (mk (snd (send_live_notify (shared c))) (task c) (with_posting (history c) n)).
Proof.
  intros [[Hl Hb Hn Hlf Hbf Hp] Hfr [Hw Hk] Hpc] Ep.
  assert (senders (history c) ≠ 0%nat) as Hs by (intros E; specialize (Hp E); lia).
  pose proof (inbox_try_send _ _ _ _ _ () Hn Hs) as H. unfold send_live_notify.
  destruct (mpsc_try_send _ _) as [r q]. cbn [snd]. destruct H as (Hq & Eq & Hr & Hcl & Hf).
  constructor; [by constructor; cbn; auto; lia|by destruct Hfr| |done].
  constructor; cbn; [done|]. intros _ Hret. right. right. rewrite Eq. destruct r as [[]|].
  - intros E. specialize (Hf eq_refl). rewrite E in Hf. done.
  - exfalso. specialize (Hcl eq_refl). unfold pc_ok, any_open in Hpc.
    destruct (pc (task c)) as [| | | | | | | | | | |[]]; try done. destruct Hpc as [[[Ho _]%orb_false_elim _]%orb_false_elim _].
    by destruct (inbox_closed _ _ _ _ _ Hl Ho).
  - by destruct (queued (live_notify (shared c))).
Qed.

Lemma senders_keep c n :
  conn_ok c → (senders (history c) = 0%nat → n = 0%nat) → (n = 0%nat → posting (history c) = 0%nat) →
  conn_ok (mk (shared c) (task c) (with_senders (history c) n)).
Proof.
  intros [[Hl Hb Hn Hlf Hbf Hp] Hfr Hlv Hpc] Hz Hpost. constructor; [|by destruct Hfr|by destruct Hlv|done].
  constructor; cbn; auto; by eapply inbox_senders_le.
Qed.

Lemma drop_latency_keeps c :
  conn_ok c → senders (history c) = 0%nat →
  conn_ok (with_shared c (with_latency (shared c) (mpsc_drop_senders (latency (shared c))))).
Proof.
  intros [[Hl Hb Hn Hlf Hbf Hp] [? ? Hfr] Hlv Hpc] Hs. rewrite Hs in *.
  destruct (inbox_drop_senders _ _ _ _ Hl) as [Hl' E].
  constructor; [|constructor; cbn; rewrite ?E; done|by destruct Hlv|done].
  constructor; cbn; rewrite ?Hs, ?E; auto.
Qed.

Lemma drop_bulk_keeps c :
  conn_ok c → senders (history c) = 0%nat →
  conn_ok (with_shared c (with_bulk (shared c) (mpsc_drop_senders (bulk (shared c))))).
Proof.
  intros [[Hl Hb Hn Hlf Hbf Hp] [? ? Hfr] Hlv Hpc] Hs. rewrite Hs in *.
  destruct (inbox_drop_senders _ _ _ _ Hb) as [Hb' E].
  constructor; [|constructor; cbn; rewrite ?E; done|by destruct Hlv|done].
  constructor; cbn; rewrite ?Hs, ?E; auto.
Qed.

Lemma drop_notify_keeps c :
  conn_ok c → senders (history c) = 0%nat →
  conn_ok (with_shared c (with_notify (shared c) (mpsc_drop_senders (live_notify (shared c))))).
Proof.
  intros [[Hl Hb Hn Hlf Hbf Hp] Hfr [Hw Hk] Hpc] Hs. rewrite Hs in *.
  destruct (inbox_drop_senders _ _ _ _ Hn) as [Hn' E].
  constructor; [|by destruct Hfr|constructor; cbn; rewrite ?E; done|done].
  constructor; cbn; rewrite ?Hs, ?E; auto.
Qed.

(** ** The task keeps it *)

(** A step of the task that touches no queue and writes nothing. *)
Lemma goto_keeps c p :
  conn_ok c → is_returned (pc (task c)) = false → is_returned p = false →
  partial p = partial (pc (task c)) → in_hand p = in_hand (pc (task c)) →
  wave_in_hand p = wave_in_hand (pc (task c)) → (pc (task c) = Top → live (shared c) = None) →
  pc_ok (mk (shared c) (with_pc (task c) p) (history c)) →
  conn_ok (mk (shared c) (with_pc (task c) p) (history c)).
Proof.
  intros [[Hl Hb Hn Hlf Hbf Hp] [Hsch Hsink (pops & Hpops & Hfr)] [Hw Hk] _] Hr Hr' E1 E2 E3 Htop Hpc.
  assert (pc (task c) ≠ Returned false) as Hne by (intros E; by rewrite E in Hr).
  rewrite Hr in *. constructor; [|constructor|constructor|exact Hpc]; cbn; rewrite ?Hr', ?E1, ?E2, ?E3; auto.
  - constructor; cbn; rewrite ?Hr'; auto.
  - exists pops. split; [done|]. intros id. destruct (Hfr id) as (rest & ? & ?). exists rest. auto.
  - destruct (live (shared c)); [done|]. destruct Hw. auto.
  - intros Hlive _. destruct (Hk Hlive ltac:(done)) as [E|?]; [|auto]. rewrite (Htop E) in Hlive.
    by apply is_Some_None in Hlive.
Qed.

(** A queue whose contents stay, a branch of [select!] that may close. *)
Lemma swap_latency_keeps c q o :
  conn_ok c → queued q = queued (latency (shared c)) →
  inbox_ok q LATENCY_QUEUE_CAP o (is_returned (pc (task c))) (senders (history c)) →
  (o = latency_open (task c) ∨ pc (task c) = Top) →
  conn_ok (mk (with_latency (shared c) q) (with_opens (task c) o (bulk_open (task c)) (live_open (task c))) (history c)).
Proof.
  intros [[Hl Hb Hn Hlf Hbf Hp] [? ? Hfr] Hlv Hpc] Hq Hok Ho.
  constructor; [|constructor; cbn; rewrite ?Hq; done|by destruct Hlv|].
  - constructor; cbn; rewrite ?Hq; auto.
  - destruct Ho as [->|E]; [done|]. unfold pc_ok. cbn. by rewrite E.
Qed.

Lemma swap_bulk_keeps c q o :
  conn_ok c → queued q = queued (bulk (shared c)) →
  inbox_ok q BULK_QUEUE_CAP o (is_returned (pc (task c))) (senders (history c)) →
  (o = bulk_open (task c) ∨ pc (task c) = Top) →
  conn_ok (mk (with_bulk (shared c) q) (with_opens (task c) (latency_open (task c)) o (live_open (task c))) (history c)).
Proof.
  intros [[Hl Hb Hn Hlf Hbf Hp] [? ? Hfr] Hlv Hpc] Hq Hok Ho.
  constructor; [|constructor; cbn; rewrite ?Hq; done|by destruct Hlv|].
  - constructor; cbn; rewrite ?Hq; auto.
  - destruct Ho as [->|E]; [done|]. unfold pc_ok. cbn. by rewrite E.
Qed.

Lemma swap_notify_keeps c q o :
  conn_ok c → (queued q = queued (live_notify (shared c)) ∨ pc (task c) = Top) →
  inbox_ok q 1 o (is_returned (pc (task c))) (senders (history c)) →
  (o = live_open (task c) ∨ pc (task c) = Top) →
  conn_ok (mk (with_notify (shared c) q) (with_opens (task c) (latency_open (task c)) (bulk_open (task c)) o) (history c)).
Proof.
  intros [[Hl Hb Hn Hlf Hbf Hp] [? ? Hfr] [Hw Hk] Hpc] Hq Hok Ho.
  constructor; [by constructor|by constructor|constructor; cbn; [done|]|].
  - intros Hlive Hr. destruct Hq as [->|E]; [auto|by left].
  - destruct Ho as [->|E]; [done|]. unfold pc_ok. cbn. by rewrite E.
Qed.

(** A frame moves from its inbox to the scheduler. *)
Lemma contents_enqueue s f id :
  sched_ok s → contents (enqueue s f) id = contents s id ++ frames_of id [f].
Proof.
  intros Hs. destruct (enqueue_spec s f Hs) as (_ & E & Ho). destruct (decide (id = frame_id f)) as [->|Hne].
  - by rewrite E, frames_of_same.
  - by rewrite Ho, frames_of_other, app_nil_r.
Qed.

Definition plain (p : Pc) : Prop := p = Top ∨ p = DrainLatency ∨ p = DrainBulk ∨ p = Popping.

Lemma received_keeps c sh f p :
  conn_ok c → is_returned (pc (task c)) = false → plain p → (pc (task c) = Top → p = Top) →
  partial (pc (task c)) = [] → in_hand (pc (task c)) = [] → wave_in_hand (pc (task c)) = [] →
  inboxes_ok (mk sh (task c) (history c)) → live sh = live (shared c) → live_notify sh = live_notify (shared c) →
  (∀ id, frames_of id (queued (latency (shared c)) ++ queued (bulk (shared c)))
     = frames_of id [f] ++ frames_of id (queued (latency sh) ++ queued (bulk sh))) →
  conn_ok (mk sh (with_pc (with_scheduler (task c) (enqueue (scheduler (task c)) f)) p) (history c)).
Proof.
  intros [_ [Hsch Hsink (pops & Hpops & Hfr)] [Hw Hk] _] Hr Hp Htop E1 E2 E3 [Hl Hb Hn Hlf Hbf Hpo] Elive En Hq.
  assert (pc (task c) ≠ Returned false) as Hne by (intros E; by rewrite E in Hr).
  cbn in Hl, Hb, Hn. rewrite Hr in *.
  assert (is_returned p = false ∧ partial p = [] ∧ in_hand p = [] ∧ wave_in_hand p = []) as (Hr' & P1 & P2 & P3)
    by (destruct Hp as [->|[->|[->| ->]]]; done).
  constructor; [constructor; cbn; rewrite ?Hr'; auto|constructor|constructor|].
  - apply enqueue_spec, Hsch.
  - intros _. cbn. rewrite P1, <-E1. auto.
  - exists pops. cbn. rewrite P2, <-E2. split; [done|]. intros id. destruct (Hfr id) as (rest & Hacc & Hrest).
    exists rest. split; [done|]. intros _. by rewrite (Hrest Hne), Hq, contents_enqueue, <-app_assoc.
  - cbn. rewrite P3, Elive. rewrite E3 in Hw. destruct (live (shared c)); [done|]. destruct Hw. auto.
  - cbn. rewrite Elive, En. intros Hlive _. destruct (Hk Hlive ltac:(done)) as [E|?]; [left; auto|auto].
  - destruct Hp as [->|[->|[->| ->]]]; done.
Qed.

Lemma frames_of_bulk_received f (lat blk : list Frame) id :
  Forall (λ g, priority g = Latency) lat → priority f = Bulk →
  frames_of id (lat ++ f :: blk) = frames_of id [f] ++ frames_of id (lat ++ blk).
Proof.
  intros Hl Hf. change (f :: blk) with ([f] ++ blk). rewrite !frames_of_app.
  destruct (decide (id = frame_id f)) as [->|Hne].
  - by rewrite (frames_of_priority _ Latency lat) by (done || (cbn; congruence)).
  - by rewrite (frames_of_other id f).
Qed.

(** *** Writing *)

Lemma take_wave_keeps c frames :
  conn_ok c → pc (task c) = Top → live (shared c) = Some frames →
  conn_ok (mk (with_live (shared c) None) (with_pc (task c) (WritingLive [] frames)) (history c)).
Proof.
  intros [[Hl Hb Hn Hlf Hbf Hp] [Hsch Hsink (pops & Hpops & Hfr)] [Hw Hk] _] Hpc El. rewrite Hpc, El in *.
  constructor; [by constructor|constructor; [done|..]|constructor|done].
  - intros _. cbn. by rewrite Hsink.
  - exists pops. split; [done|]. intros id. destruct (Hfr id) as (rest & ? & ?). exists rest. auto.
  - destruct Hw as (older & E & Hsub). cbn in *. rewrite E. rewrite app_nil_r in Hsub.
    split; [by apply sublist_app|]. intros _. by rewrite !last_snoc.
  - by intros []%is_Some_None.
Qed.

Lemma write_live_keeps c written f rest :
  conn_ok c → pc (task c) = WritingLive written (f :: rest) →
  conn_ok (mk (shared c) (write_all (frame_bytes f) (with_pc (task c) (WritingLive (written ++ [f]) rest))) (history c)).
Proof.
  intros [[Hl Hb Hn Hlf Hbf Hp] [Hsch Hsink (pops & Hpops & Hfr)] [Hw Hk] _] Hpc. rewrite Hpc in *.
  constructor; [by constructor|constructor; [done|..]|constructor|done].
  - cbn. intros _. rewrite Hsink by done. cbn. by rewrite fmap_app, app_assoc.
  - exists pops. split; [done|]. intros id. destruct (Hfr id) as (r & ? & ?). exists r. auto.
  - cbn in *. rewrite <-app_assoc. cbn [app]. destruct (live (shared c)); [done|]. destruct Hw. auto.
  - intros Hlive _. destruct (Hk Hlive ltac:(done)); [done|auto].
Qed.

Lemma end_live_keeps c written :
  conn_ok c → pc (task c) = WritingLive written [] →
  conn_ok (mk (shared c) (with_pc (task c) Top) (logged (history c) (Live written))).
Proof.
  intros [[Hl Hb Hn Hlf Hbf Hp] [Hsch Hsink (pops & Hpops & Hfr)] [Hw Hk] _] Hpc. rewrite Hpc in *.
  constructor; [by constructor|constructor; [done|..]|constructor; [|by left]|done].
  - cbn. intros _. rewrite Hsink by done. cbn. rewrite bind_app. cbn. by rewrite !app_nil_r.
  - exists pops. unfold scheduled. cbn. rewrite bind_app. cbn. rewrite app_nil_r. split; [done|].
    intros id. destruct (Hfr id) as (r & ? & ?). exists r. auto.
  - unfold waves. cbn. rewrite bind_app. cbn in *. rewrite app_nil_r in *.
    destruct (live (shared c)); [done|]. destruct Hw. auto.
Qed.

Lemma write_frame_keeps c b :
  conn_ok c → pc (task c) = WritingFrame b →
  conn_ok (mk (shared c) (write_all b (with_pc (task c) Top)) (logged (history c) (Scheduled b))).
Proof.
  intros [[Hl Hb Hn Hlf Hbf Hp] [Hsch Hsink (pops & Hpops & Hfr)] [Hw Hk] _] Hpc. rewrite Hpc in *.
  constructor; [by constructor|constructor; [done|..]|constructor; [|by left]|done].
  - cbn. intros _. rewrite Hsink by done. rewrite bind_app. cbn. by rewrite !app_nil_r.
  - exists pops. unfold scheduled. cbn. rewrite bind_app. cbn in *. rewrite app_nil_r. split; [done|].
    intros id. destruct (Hfr id) as (r & ? & ?). exists r. auto.
  - unfold waves. cbn. rewrite bind_app. cbn in *. rewrite !app_nil_r in *.
    destruct (live (shared c)); [done|]. destruct Hw. auto.
Qed.

Lemma popped_snoc id pops id' b :
  popped id (pops ++ [(id', b)]) = popped id pops ++ (if decide (id' = id) then [b] else []).
Proof.
  unfold popped. rewrite filter_app, fmap_app. f_equal. rewrite filter_cons. cbn [fst]. by case_decide.
Qed.

Lemma pop_keeps c i b s :
  conn_ok c → pc (task c) = Popping → serves (scheduler (task c)) i b s →
  conn_ok (mk (shared c) (with_pc (with_scheduler (task c) s) (WritingFrame b)) (history c)).
Proof.
  intros [[Hl Hb Hn Hlf Hbf Hp] [Hsch Hsink (pops & Hpops & Hfr)] [Hw Hk] _] Hpc Hs. rewrite Hpc in *.
  destruct (serves_spec _ _ _ _ Hsch Hs) as (Hsch' & id & Eid & Hothers).
  constructor; [by constructor|constructor; [done|..]|constructor|done].
  - cbn. intros _. by rewrite Hsink.
  - exists (pops ++ [(id, b)]). rewrite fmap_app, Hpops. cbn. rewrite app_nil_r. split; [done|].
    intros id'. destruct (Hfr id') as (r & Hacc & Hr). specialize (Hr ltac:(done)). subst r.
    eexists. split; [|by intros _]. cbn. rewrite popped_snoc, <-app_assoc, Hacc. f_equal.
    case_decide as Hid; [subst id'; by rewrite Eid|]. by rewrite Hothers.
  - cbn in *. rewrite !app_nil_r in *. destruct (live (shared c)); [done|]. destruct Hw. auto.
  - intros Hlive _. destruct (Hk Hlive ltac:(done)); [done|auto].
Qed.

(** *** Returning *)

Lemma returned_keeps c ok :
  conn_ok c → is_returned (pc (task c)) = false → (ok = true → pc (task c) = Flushing) →
  conn_ok (returned ok (shared c) (task c) (history c)).
Proof.
  intros [[Hl Hb Hn Hlf Hbf Hp] [Hsch Hsink (pops & Hpops & Hfr)] [Hw Hk] Hpc] Hr Hok.
  destruct (inbox_drop_receiver _ _ _ _ _ Hl) as [Hl' El], (inbox_drop_receiver _ _ _ _ _ Hb) as [Hb' Eb].
  destruct (inbox_drop_receiver _ _ _ _ _ Hn) as [Hn' En].
  constructor; [constructor; cbn; rewrite ?El, ?Eb; auto|constructor; [done|..]|constructor|].
  - destruct ok; [|done]. intros _. cbn. specialize (Hok eq_refl). rewrite Hok in Hsink. by apply Hsink.
  - destruct ok.
    + rewrite Hok in * by done. exists pops. split; [done|]. intros id. destruct (Hfr id) as (r & ? & Hr').
      exists r. split; [done|]. intros _. rewrite Hr' by done. cbn. rewrite El, Eb.
      unfold pc_ok, any_open in Hpc. rewrite Hok in Hpc by done. destruct Hpc as [Hopen _].
      apply orb_false_elim in Hopen as [[Ho1 Ho2]%orb_false_elim _].
      destruct (inbox_closed _ _ _ _ _ Hl Ho1) as [_ ->], (inbox_closed _ _ _ _ _ Hb Ho2) as [_ ->]. done.
    + exists (take (length (scheduled (log (history c)))) pops). cbn. rewrite app_nil_r. split.
      { by rewrite fmap_take, Hpops, take_app_length. }
      intros id. destruct (Hfr id) as (r & Hacc & _).
      exists (popped id (drop (length (scheduled (log (history c)))) pops) ++ r). split; [|done].
      rewrite Hacc, app_assoc. f_equal. unfold popped. by rewrite <-fmap_app, <-filter_app, take_drop.
  - cbn. rewrite app_nil_r. destruct ok.
    + rewrite Hok in * by done. cbn in *. rewrite app_nil_r in *.
      destruct (live (shared c)); [done|]. destruct Hw as [? Hlast]. split; [done|]. intros _. by apply Hlast.
    + destruct (live (shared c)) as [w|].
      * destruct Hw as (older & E & Hsub). exists older. split; [done|]. etrans; [|exact Hsub]. by apply sublist_inserts_r.
      * destruct Hw as [Hsub _]. split; [|done]. etrans; [|exact Hsub]. by apply sublist_inserts_r.
  - cbn. intros Hlive Hne. destruct ok; [|done]. specialize (Hok eq_refl). rewrite Hok in Hk.
    destruct (Hk Hlive ltac:(done)) as [?|[?|Hq]]; [done|auto|]. exfalso. apply Hq.
    unfold pc_ok, any_open in Hpc. rewrite Hok in Hpc. destruct Hpc as [[_ Ho]%orb_false_elim _].
    apply (inbox_closed _ _ _ _ _ Hn Ho).
  - unfold pc_ok. cbn. destruct ok; [|done]. unfold pc_ok in Hpc. rewrite Hok in Hpc by done. done.
Qed.

(** *** Reading the inboxes *)

Lemma with_opens_id t : with_opens t (latency_open t) (bulk_open t) (live_open t) = t.
Proof. by destruct t. Qed.

(** What a state must satisfy where [run] goes on without having touched it. *)
Definition steps_ok (r : res Empty_set (option (Connection Q))) : Prop :=
  match r with Ok (Some c) => conn_ok c | Ok None => True | _ => False end.

Lemma swap_latency_same c q :
  conn_ok c → queued q = queued (latency (shared c)) →
  inbox_ok q LATENCY_QUEUE_CAP (latency_open (task c)) (is_returned (pc (task c))) (senders (history c)) →
  conn_ok (mk (with_latency (shared c) q) (task c) (history c)).
Proof.
  intros Hc Hq Hok. pose proof (swap_latency_keeps c q _ Hc Hq Hok (or_introl eq_refl)) as H.
  by rewrite with_opens_id in H.
Qed.

Lemma swap_bulk_same c q :
  conn_ok c → queued q = queued (bulk (shared c)) →
  inbox_ok q BULK_QUEUE_CAP (bulk_open (task c)) (is_returned (pc (task c))) (senders (history c)) →
  conn_ok (mk (with_bulk (shared c) q) (task c) (history c)).
Proof.
  intros Hc Hq Hok. pose proof (swap_bulk_keeps c q _ Hc Hq Hok (or_introl eq_refl)) as H.
  by rewrite with_opens_id in H.
Qed.

Lemma swap_notify_same c q :
  conn_ok c → queued q = queued (live_notify (shared c)) ∨ pc (task c) = Top →
  inbox_ok q 1 (live_open (task c)) (is_returned (pc (task c))) (senders (history c)) →
  conn_ok (mk (with_notify (shared c) q) (task c) (history c)).
Proof.
  intros Hc Hq Hok. pose proof (swap_notify_keeps c q _ Hc Hq Hok (or_introl eq_refl)) as H.
  by rewrite with_opens_id in H.
Qed.

(** The places where the task looks for work. *)
Definition looking (p : Pc) : bool :=
  match p with DrainLatency | DrainBulk | Popping | PollNotify | PollLatency | PollBulk | Parked => true | _ => false end.

Lemma looking_goto c p :
  conn_ok c → looking (pc (task c)) = true → looking p = true ∨ p = Top ∨ p = Flushing →
  pc_ok (mk (shared c) (with_pc (task c) p) (history c)) →
  conn_ok (mk (shared c) (with_pc (task c) p) (history c)).
Proof.
  intros Hc Hl Hp Hpc. apply goto_keeps; try done.
  all: destruct (pc (task c)); try done; destruct Hp as [Hp|[->| ->]]; try done; by destruct p.
Qed.

Lemma latency_received c q f p :
  conn_ok c → looking (pc (task c)) = true → plain p →
  mpsc_recv (latency (shared c)) = (Received f, q) →
  conn_ok (mk (with_latency (shared c) q) (with_pc (with_scheduler (task c) (enqueue (scheduler (task c)) f)) p) (history c)).
Proof.
  intros Hc Hl Hp E. pose proof (conn_inboxes _ Hc) as [Hlat Hblk Hn Hlf Hbf Hpo].
  pose proof (inbox_recv _ _ _ _ _ Hlat) as H. rewrite E in H. destruct H as (Hq & Eq & _). rewrite Eq in Hlf.
  apply received_keeps; try done; try (by destruct (pc (task c))).
  - constructor; cbn; auto. by apply Forall_cons in Hlf as [_ ?].
  - intros id. cbn. rewrite Eq. change (f :: queued q) with ([f] ++ queued q).
    by rewrite <-app_assoc, frames_of_app.
Qed.

Lemma bulk_received c q f p :
  conn_ok c → looking (pc (task c)) = true → plain p →
  mpsc_recv (bulk (shared c)) = (Received f, q) →
  conn_ok (mk (with_bulk (shared c) q) (with_pc (with_scheduler (task c) (enqueue (scheduler (task c)) f)) p) (history c)).
Proof.
  intros Hc Hl Hp E. pose proof (conn_inboxes _ Hc) as [Hlat Hblk Hn Hlf Hbf Hpo].
  pose proof (inbox_recv _ _ _ _ _ Hblk) as H. rewrite E in H. destruct H as (Hq & Eq & _). rewrite Eq in Hbf.
  apply Forall_cons in Hbf as [Hf Hbf].
  apply received_keeps; try done; try (by destruct (pc (task c))).
  intros id. cbn. rewrite Eq. by apply frames_of_bulk_received.
Qed.

Lemma latency_drained c q r : conn_ok c → mpsc_recv (latency (shared c)) = (r, q) →
  (∀ f, r ≠ Received f) → conn_ok (mk (with_latency (shared c) q) (task c) (history c))
  ∧ (r = Disconnected → inbox_ok q LATENCY_QUEUE_CAP false (is_returned (pc (task c))) (senders (history c))
     ∧ queued q = queued (latency (shared c))).
Proof.
  intros Hc E Hr. pose proof (ok_latency _ (conn_inboxes _ Hc)) as Hl.
  pose proof (inbox_recv _ _ _ _ _ Hl) as H. rewrite E in H. destruct H as (Hq & Eq & H).
  destruct r as [f| |]; [by destruct (Hr f)|destruct H as [E' _]|destruct H as (E' & _ & Hcl)];
    (split; [apply swap_latency_same; [done|by rewrite Eq, E'|done]|]); [done|].
  intros _. split; [done|]. by rewrite Eq, E'.
Qed.

Lemma bulk_drained c q r : conn_ok c → mpsc_recv (bulk (shared c)) = (r, q) →
  (∀ f, r ≠ Received f) → conn_ok (mk (with_bulk (shared c) q) (task c) (history c))
  ∧ (r = Disconnected → inbox_ok q BULK_QUEUE_CAP false (is_returned (pc (task c))) (senders (history c))
     ∧ queued q = queued (bulk (shared c))).
Proof.
  intros Hc E Hr. pose proof (ok_bulk_inbox _ (conn_inboxes _ Hc)) as Hl.
  pose proof (inbox_recv _ _ _ _ _ Hl) as H. rewrite E in H. destruct H as (Hq & Eq & H).
  destruct r as [f| |]; [by destruct (Hr f)|destruct H as [E' _]|destruct H as (E' & _ & Hcl)];
    (split; [apply swap_bulk_same; [done|by rewrite Eq, E'|done]|]); [done|].
  intros _. split; [done|]. by rewrite Eq, E'.
Qed.

(** *** Every action *)

Lemma with_pc_id t s p : pc t = p → with_pc (with_scheduler t s) p = with_scheduler t s.
Proof. by intros <-. Qed.

Lemma drain_latency_ok c : conn_ok c → pc (task c) = DrainLatency → steps_ok (run_step c).
Proof.
  intros Hc Hpc. unfold run_step. rewrite Hpc. destruct (mpsc_recv _) as [r q] eqn:E. destruct r as [f| |].
  - cbn [drain steps_ok]. rewrite <-(with_pc_id (task c) _ DrainLatency) by done.
    apply latency_received; rewrite ?Hpc; try done. by right; left.
  - destruct (latency_drained c q _ Hc E) as [H _]; [done|].
    apply (looking_goto _ DrainBulk H); [by cbn; rewrite Hpc|by left|done].
  - destruct (latency_drained c q _ Hc E) as [H _]; [done|].
    apply (looking_goto _ DrainBulk H); [by cbn; rewrite Hpc|by left|done].
Qed.

Lemma drain_bulk_ok c : conn_ok c → pc (task c) = DrainBulk → steps_ok (run_step c).
Proof.
  intros Hc Hpc. unfold run_step. rewrite Hpc. destruct (mpsc_recv _) as [r q] eqn:E. destruct r as [f| |].
  - cbn [drain steps_ok]. rewrite <-(with_pc_id (task c) _ DrainBulk) by done.
    apply bulk_received; rewrite ?Hpc; try done. by right; right; left.
  - destruct (bulk_drained c q _ Hc E) as [H _]; [done|].
    apply (looking_goto _ Popping H); [by cbn; rewrite Hpc|by left|done].
  - destruct (bulk_drained c q _ Hc E) as [H _]; [done|].
    apply (looking_goto _ Popping H); [by cbn; rewrite Hpc|by left|done].
Qed.

Lemma popping_ok c : conn_ok c → pc (task c) = Popping → steps_ok (run_step c).
Proof.
  intros Hc Hpc. unfold run_step. rewrite Hpc. pose proof (ok_scheduler _ (conn_frames _ Hc)) as Hs.
  pose proof (pop_next_spec _ Hs) as Hp. destruct (pop_next (scheduler (task c))) as [[s [b|]]| |]; [..|done|done].
  - destruct Hp as [i Hp]. by apply (pop_keeps c i).
  - destruct Hp as [-> Hidle]. cbn. rewrite has_pending_false in Hidle.
    assert (with_scheduler (task c) (scheduler (task c)) = task c) as -> by by destruct (task c).
    assert (∀ id, contents (scheduler (task c)) id = []) as Hempty by by apply idle_contents.
    destruct (any_open (task c)) eqn:Ho; apply looking_goto; rewrite ?Hpc; try done; auto.
Qed.

Lemma poll_notify_ok c : conn_ok c → pc (task c) = PollNotify → steps_ok (run_step c).
Proof.
  intros Hc Hpc. unfold run_step. rewrite Hpc. pose proof (conn_pc _ Hc) as Hp. unfold pc_ok in Hp. rewrite Hpc in Hp.
  destruct (live_open (task c)) eqn:Ho; cbn [negb].
  2: { apply looking_goto; rewrite ?Hpc; try done; auto. }
  pose proof (ok_notify _ (conn_inboxes _ Hc)) as Hn. pose proof (inbox_recv _ _ _ _ _ Hn) as H.
  destruct (mpsc_recv _) as [r q] eqn:E. destruct H as (Hq & Eq & H).
  assert (conn_ok (mk (shared c) (with_pc (task c) Top) (history c))) as Htop
    by (apply looking_goto; rewrite ?Hpc; try done; auto).
  rewrite Hpc in *. destruct r as [[]| |].
  - by apply (swap_notify_same _ q Htop); [right|].
  - apply (looking_goto (mk (with_notify (shared c) q) (task c) (history c)));
      [|by cbn; rewrite Hpc|by left|done].
    apply swap_notify_same; [done|left|by rewrite Hpc]. destruct H as [-> _]. done.
  - destruct H as (E' & _ & Hcl). apply (swap_notify_keeps _ q false Htop); [by right|done|by right].
Qed.

Lemma poll_latency_ok c : conn_ok c → pc (task c) = PollLatency → steps_ok (run_step c).
Proof.
  intros Hc Hpc. unfold run_step. rewrite Hpc. pose proof (conn_pc _ Hc) as Hp. unfold pc_ok in Hp. rewrite Hpc in Hp.
  destruct (latency_open (task c)) eqn:Ho; cbn [negb].
  2: { apply looking_goto; rewrite ?Hpc; try done; auto. }
  destruct (mpsc_recv _) as [r q] eqn:E. destruct r as [f| |].
  - apply latency_received; rewrite ?Hpc; try done. by left.
  - destruct (latency_drained c q _ Hc E) as [H _]; [done|].
    apply (looking_goto _ PollBulk H); [by cbn; rewrite Hpc|by left|done].
  - destruct (latency_drained c q _ Hc E) as [_ H]; [done|]. destruct H as [Hcl Hq]; [done|]. rewrite Hpc in Hcl.
    refine (swap_latency_keeps (mk (shared c) (with_pc (task c) Top) (history c)) q false _ Hq Hcl (or_intror eq_refl)).
    apply looking_goto; rewrite ?Hpc; try done; auto.
Qed.

Lemma poll_bulk_ok c : conn_ok c → pc (task c) = PollBulk → steps_ok (run_step c).
Proof.
  intros Hc Hpc. unfold run_step. rewrite Hpc. pose proof (conn_pc _ Hc) as Hp. unfold pc_ok in Hp. rewrite Hpc in Hp.
  destruct (bulk_open (task c)) eqn:Ho; cbn [negb].
  2: { destruct Hp as [Hany Hs]. rewrite Hany. apply looking_goto; rewrite ?Hpc; try done; auto. }
  destruct (mpsc_recv _) as [r q] eqn:E. destruct r as [f| |].
  - apply bulk_received; rewrite ?Hpc; try done. by left.
  - destruct (bulk_drained c q _ Hc E) as [H _]; [done|].
    apply (looking_goto _ Parked H); [by cbn; rewrite Hpc|by left|done].
  - destruct (bulk_drained c q _ Hc E) as [_ H]; [done|]. destruct H as [Hcl Hq]; [done|]. rewrite Hpc in Hcl.
    refine (swap_bulk_keeps (mk (shared c) (with_pc (task c) Top) (history c)) q false _ Hq Hcl (or_intror eq_refl)).
    apply looking_goto; rewrite ?Hpc; try done; auto.
Qed.

Lemma run_step_ok c : conn_ok c → steps_ok (run_step c).
Proof.
  intros Hc. destruct (pc (task c)) eqn:Hpc;
    [|..|by apply drain_latency_ok|by apply drain_bulk_ok|by apply popping_ok| |by apply poll_notify_ok
     |by apply poll_latency_ok|by apply poll_bulk_ok| | |].
  all: unfold run_step; rewrite Hpc.
  - unfold take_live. destruct (live (shared c)) as [w|] eqn:El; [by apply take_wave_keeps|]. cbn.
    assert (with_live (shared c) None = shared c) as -> by (destruct (shared c); cbn in *; by rewrite El).
    apply goto_keeps; by rewrite ?Hpc.
  - destruct rest as [|f rest]; [by apply end_live_keeps|by apply write_live_keeps].
  - by apply write_frame_keeps.
  - destruct (wakes (shared c) (task c)); [|done]. pose proof (conn_pc _ Hc) as Hp. unfold pc_ok in Hp. rewrite Hpc in Hp.
    apply looking_goto; rewrite ?Hpc; try done; auto.
  - apply returned_keeps; rewrite ?Hpc; done.
  - done.
Qed.

Lemma ConnectionWriter_new_ok : conn_ok ConnectionWriter_new.
Proof.
  assert (∀ A n, (0 < n)%nat → queued (mpsc_channel n : Q A) = []) as Hq by (intros A n Hn; apply (channel_new (A:=A) n Hn)).
  assert (0 < LATENCY_QUEUE_CAP)%nat as H1 by (unfold LATENCY_QUEUE_CAP; lia).
  assert (0 < BULK_QUEUE_CAP)%nat as H2 by (unfold BULK_QUEUE_CAP; lia).
  constructor; [|constructor; [apply Scheduler_new_ok|done|]|constructor; [by split|by intros []%is_Some_None]|done].
  - constructor; cbn; [by apply inbox_new|by apply inbox_new|apply inbox_new; lia|by rewrite Hq|by rewrite Hq|done].
  - exists []. split; [done|]. intros id. exists []. split; [done|]. intros _. cbn. by rewrite !Hq.
Qed.

Lemma conn_step_ok c c' : conn_step c c' → conn_ok c → conn_ok c'.
Proof.
  intros Hs Hc. destruct Hs as [f ok sh c Hn E|f ok sh c Hn E|frames c Hn|n c Hn|c Hn|n c Hn Hd|c Hn|c Hn|c Hn|c c' E|c Hf].
  - by apply send_keeps.
  - apply send_keeps; [done..|]. by apply send_all_send.
  - by apply store_keeps.
  - by apply notify_keeps.
  - by apply senders_keep.
  - apply senders_keep; [done|intros; lia|]. intros ->. destruct Hd; [done|done].
  - by apply drop_latency_keeps.
  - by apply drop_bulk_keeps.
  - by apply drop_notify_keeps.
  - pose proof (run_step_ok c Hc) as H. by rewrite E in H.
  - apply returned_keeps; [done| |done]. by destruct (pc (task c)).
Qed.

Lemma reachable_conn_ok c : rtc conn_step ConnectionWriter_new c → conn_ok c.
Proof.
  intros H. pose proof ConnectionWriter_new_ok as Hi. revert Hi.
  induction H as [|c1 c2 c3 Hs _ IH]; [done|]. intros Hc. by eapply IH, conn_step_ok.
Qed.

(** ** The task alone comes to rest *)

(** How many frames the scheduler holds. *)
Definition pending_total (s : Scheduler) : nat := sum_list_with (λ q, length (q_pending q)) (queues s).

Lemma pending_insert (qs : list ChannelQueue) i q p :
  qs !! i = Some q →
  (sum_list_with (λ q, length (q_pending q)) (<[i := set_queue_pending q p]> qs) + length (q_pending q)
   = sum_list_with (λ q, length (q_pending q)) qs + length p)%nat.
Proof.
  revert i. induction qs as [|q' qs IH]; intros [|i] Hi; [done..| |].
  - injection Hi as ->. cbn. lia.
  - specialize (IH i Hi).
    change (<[S i := set_queue_pending q p]> (q' :: qs)) with (q' :: <[i := set_queue_pending q p]> qs).
    cbn [sum_list_with]. lia.
Qed.

Lemma pending_serves s i b s' : serves s i b s' → pending_total s = S (pending_total s').
Proof.
  intros (q & p & Hi & Hp & Hqs & _). unfold pending_total. rewrite Hqs.
  pose proof (pending_insert (queues s) i q p Hi) as H. rewrite Hp in H. cbn [length] in H. lia.
Qed.

Lemma pending_enqueue s f : pending_total (enqueue s f) = S (pending_total s).
Proof.
  unfold enqueue, pending_total. destruct (position (queue_of f) (queues s)) as [i|] eqn:E; cbn [queues].
  - apply position_Some in E as (q & Hi & _). rewrite (push_back_insert i _ _ q Hi).
    pose proof (pending_insert (queues s) i q (q_pending q ++ [frame_bytes f]) Hi) as H.
    rewrite length_app in H. cbn in H. lia.
  - set (q := {| q_key := channel f; q_priority := priority f; q_pending := [] |}).
    assert (Hi : (queues s ++ [q]) !! (length (queues s ++ [q]) - 1)%nat = Some q).
    { rewrite length_app. cbn. by rewrite lookup_app_r, Nat.add_sub, Nat.sub_diag by lia. }
    rewrite (push_back_insert _ _ _ q Hi).
    pose proof (pending_insert _ _ q (q_pending q ++ [frame_bytes f]) Hi) as H.
    rewrite sum_list_with_app in H. unfold q in *. cbn [q_pending length sum_list_with app] in H |- *. lia.
Qed.

(** How far the task is from rest: the work that is left, then its place in the loop. *)
Definition place c : nat :=
  let sh := shared c in let t := task c in
  match pc t with
  | WritingLive _ rest => 15 + length rest
  | WritingFrame _ => 15
  | Top => 14 | DrainLatency => 13 | DrainBulk => 12 | Popping => 11
  | PollNotify => if wakes sh t then 6 else 10
  | PollLatency => if ready (latency_open t) (latency sh) || ready (bulk_open t) (bulk sh) then 5 else 9
  | PollBulk => if ready (bulk_open t) (bulk sh) then 4 else 8
  | Parked => 7
  | Flushing => 1
  | Returned _ => 0
  end.

Definition opens t : nat := Nat.b2n (latency_open t) + Nat.b2n (bulk_open t) + Nat.b2n (live_open t).

Definition work c : nat :=
  let sh := shared c in let t := task c in
  2 * length (queued (latency sh)) + 2 * length (queued (bulk sh)) + length (queued (live_notify sh))
  + opens t + pending_total (scheduler t) + match live sh with Some w => 1 + length w | None => 0 end.

Definition distance c : nat := 20 * work c + place c.

Lemma recv_queued {A} (q : Q A) : let '(r, q') := mpsc_recv q in
  queued q = match r with Received x => x :: queued q' | _ => queued q' end.
Proof.
  pose proof (recv_law q) as H. destruct (mpsc_recv q) as [r q']. destruct H as (_ & _ & _ & -> & ->).
  destruct (queued q); [by destruct (senders_gone q)|done].
Qed.

Lemma ready_recv {A} (q : Q A) r q' : mpsc_recv q = (r, q') →
  ready true q = match r with Empty => false | _ => true end.
Proof. intros E. unfold ready. by rewrite E. Qed.

Definition nearer c (r : res Empty_set (option (Connection Q))) : Prop :=
  match r with Ok (Some c') => (distance c' < distance c)%nat | _ => True end.

Lemma nearer_place c c' : work c' = work c → (place c' < place c)%nat → (distance c' < distance c)%nat.
Proof. unfold distance. lia. Qed.

Lemma nearer_work c c' : (work c' < work c)%nat → (place c' ≤ 15)%nat → (distance c' < distance c)%nat.
Proof. unfold distance. lia. Qed.

Lemma place_le c p : (∀ w rest, p ≠ WritingLive w rest) → pc (task c) = p → (place c ≤ 15)%nat.
Proof.
  intros Hp E. unfold place. rewrite E. destruct p; try lia.
  - by destruct (Hp written rest).
  - destruct (wakes _ _); lia.
  - destruct (_ || _); lia.
  - case_match; lia.
Qed.

Ltac by_work p := apply nearer_work; [unfold work, opens; cbn|by apply (place_le _ p)].
Ltac by_place := apply nearer_place; [unfold work, opens; cbn|unfold place; cbn].

Lemma write_nearer c : conn_ok c → looking (pc (task c)) = false → nearer c (run_step c).
Proof.
  intros Hc. unfold nearer, run_step. destruct (pc (task c)) as [|w rest| | | |b| | | | | |ok] eqn:Hpc; intros Hl; try done.
  - unfold take_live. destruct (live (shared c)) as [wv|] eqn:El; [|by_place; rewrite ?El, ?Hpc; lia].
    unfold distance, work, place, opens. cbn. rewrite Hpc, El. lia.
  - destruct rest; by_place; rewrite ?Hpc; cbn; lia.
  - by_place; rewrite ?Hpc; lia.
  - unfold distance, work, place, opens. cbn. rewrite Hpc, !(proj1 (drop_receiver_law _)). cbn. lia.
Qed.

Lemma drain_nearer c : conn_ok c → pc (task c) = DrainLatency ∨ pc (task c) = DrainBulk ∨ pc (task c) = Popping →
  nearer c (run_step c).
Proof.
  intros Hc Hp. unfold nearer, run_step. destruct Hp as [Hpc|[Hpc|Hpc]]; rewrite Hpc.
  - pose proof (recv_queued (latency (shared c))) as Hq. destruct (mpsc_recv _) as [[f| |] q].
    + by_work DrainLatency. rewrite Hq, pending_enqueue. cbn. lia.
    + by_place; rewrite ?Hq, ?Hpc; lia.
    + by_place; rewrite ?Hq, ?Hpc; lia.
  - pose proof (recv_queued (bulk (shared c))) as Hq. destruct (mpsc_recv _) as [[f| |] q].
    + by_work DrainBulk. rewrite Hq, pending_enqueue. cbn. lia.
    + by_place; rewrite ?Hq, ?Hpc; lia.
    + by_place; rewrite ?Hq, ?Hpc; lia.
  - pose proof (pop_next_spec _ (ok_scheduler _ (conn_frames _ Hc))) as Hp.
    destruct (pop_next (scheduler (task c))) as [[s [b|]]| |]; [..|done|done]; cbn [mbind res_bind].
    + destruct Hp as [i Hp%pending_serves]. by_work (WritingFrame b). lia.
    + destruct Hp as [-> _]. by_place; [lia|]. rewrite Hpc. destruct (any_open (task c)); [destruct (wakes _ _)|]; lia.
Qed.

Lemma poll_notify_nearer c : pc (task c) = PollNotify → nearer c (run_step c).
Proof.
  intros Hpc. unfold nearer, run_step. rewrite Hpc. destruct (live_open (task c)) eqn:Ho; cbn [negb].
  2: { by_place; [lia|]. rewrite Hpc. unfold wakes. rewrite Ho. cbn. destruct (_ || _); lia. }
  pose proof (recv_queued (live_notify (shared c))) as Hq.
  destruct (mpsc_recv _) as [r q] eqn:E. pose proof (ready_recv _ _ _ E) as Hr. destruct r as [[]| |].
  - by_work Top. rewrite Hq. cbn. lia.
  - by_place; [rewrite Hq; lia|]. rewrite Hpc. unfold wakes. rewrite Ho, Hr. cbn. destruct (_ || _); lia.
  - by_work Top. rewrite Hq, Ho. cbn. lia.
Qed.

Lemma poll_latency_nearer c : pc (task c) = PollLatency → nearer c (run_step c).
Proof.
  intros Hpc. unfold nearer, run_step. rewrite Hpc. destruct (latency_open (task c)) eqn:Ho; cbn [negb].
  2: { by_place; [lia|]. rewrite Hpc, Ho. cbn. case_match; lia. }
  pose proof (recv_queued (latency (shared c))) as Hq.
  destruct (mpsc_recv _) as [r q] eqn:E. pose proof (ready_recv _ _ _ E) as Hr. destruct r as [f| |].
  - by_work Top. rewrite Hq, pending_enqueue. cbn. lia.
  - by_place; [rewrite Hq; lia|]. rewrite Hpc, Ho, Hr. cbn. case_match; lia.
  - by_work Top. rewrite Hq, Ho. cbn. lia.
Qed.

Lemma poll_bulk_nearer c : pc (task c) = PollBulk → nearer c (run_step c).
Proof.
  intros Hpc. unfold nearer, run_step. rewrite Hpc. destruct (bulk_open (task c)) eqn:Ho; cbn [negb].
  2: { destruct (any_open _); [|done]. by_place; [lia|]. rewrite Hpc, Ho. cbn. lia. }
  pose proof (recv_queued (bulk (shared c))) as Hq.
  destruct (mpsc_recv _) as [r q] eqn:E. pose proof (ready_recv _ _ _ E) as Hr. destruct r as [f| |].
  - by_work Top. rewrite Hq, pending_enqueue. cbn. lia.
  - by_place; [rewrite Hq; lia|]. rewrite Hpc, Ho, Hr. cbn. lia.
  - by_work Top. rewrite Hq, Ho. cbn. lia.
Qed.

Lemma run_step_nearer c : conn_ok c → nearer c (run_step c).
Proof.
  intros Hc. destruct (looking (pc (task c))) eqn:Hl; [|by apply write_nearer].
  destruct (pc (task c)) eqn:Hpc; try done; [apply drain_nearer; auto..| | | |].
  - by apply poll_notify_nearer.
  - by apply poll_latency_nearer.
  - by apply poll_bulk_nearer.
  - unfold nearer, run_step. rewrite Hpc. destruct (wakes _ _) eqn:Hw; [|done].
    by_place; [lia|]. change (wakes _ (with_pc _ _)) with (wakes (shared c) (task c)). rewrite Hpc, Hw. lia.
Qed.

(** The task alone, [n] actions at most. *)
Fixpoint run_for (n : nat) c : res Empty_set (Connection Q) :=
  match n with
  | O => Ok c
  | S n =>
    match run_step c with
    | Ok (Some c) => run_for n c
    | Ok None => Ok c
    | Err e => Err e
    | Panic => Panic
    end
  end.

Lemma run_for_rests n c : conn_ok c → (distance c < n)%nat →
  ∃ c', run_for n c = Ok c' ∧ rtc conn_step c c' ∧ run_step c' = Ok None.
Proof.
  revert c. induction n as [|n IH]; intros c Hc Hn; [lia|]. cbn [run_for].
  pose proof (run_step_ok c Hc) as Hok. pose proof (run_step_nearer c Hc) as Hd.
  destruct (run_step c) as [[c1|]| |] eqn:E; [..|done|done].
  - destruct (IH c1) as (c' & E' & Hr & Hrest); [done|unfold nearer in Hd; lia|]. exists c'. split; [done|]. split; [|done].
    eapply rtc_l; [by apply step_run|done].
  - exists c. auto using rtc_refl.
Qed.

(** At rest no branch of [select!] is ready: what it polls is empty. *)
Lemma rest_empty {A} (q : Q A) cap open over n :
  inbox_ok q cap open over n → ready open q = false → queued q = [].
Proof.
  intros Hq Hr. destruct open; [|by destruct (inbox_closed _ _ _ _ _ Hq)].
  pose proof (recv_law q) as H. unfold ready in Hr. destruct (mpsc_recv q) as [r q'].
  destruct H as (_ & _ & _ & _ & ->). by destruct (queued q).
Qed.

Lemma conn_rest c : run_step c = Ok None → pc (task c) ≠ Returned false → pc_ok c →
  ready (latency_open (task c)) (latency (shared c)) = false
  ∧ ready (bulk_open (task c)) (bulk (shared c)) = false
  ∧ ready (live_open (task c)) (live_notify (shared c)) = false
  ∧ in_hand (pc (task c)) = [] ∧ wave_in_hand (pc (task c)) = []
  ∧ ∀ id, contents (scheduler (task c)) id = [].
Proof.
  intros E Hne Hpc. unfold pc_ok in Hpc. unfold run_step in E.
  destruct (pc (task c)) as [|w [|]| | | |b| | | | | |ok]; try done.
  - by destruct (take_live (shared c)) as [[] ?].
  - by destruct (mpsc_recv _) as [[] ?].
  - by destruct (mpsc_recv _) as [[] ?].
  - destruct (pop_next _) as [[s [|]]| |]; done.
  - destruct (live_open _); [|done]. by destruct (mpsc_recv _) as [[] ?].
  - destruct (latency_open _); [|done]. by destruct (mpsc_recv _) as [[] ?].
  - destruct (bulk_open _); [by destruct (mpsc_recv _) as [[] ?]|]. by destruct (any_open _).
  - destruct (wakes _ _) eqn:Hw; [done|]. unfold wakes in Hw.
    apply orb_false_elim in Hw as [[? ?]%orb_false_elim ?]. by destruct Hpc.
  - destruct ok; [|done]. destruct Hpc as [Ho Hs]. unfold any_open in Ho.
    apply orb_false_elim in Ho as [[-> ->]%orb_false_elim ->]. done.
Qed.
(** Where the task waits or has returned, everything is written. *)
Lemma rest_all_written c :
  conn_ok c → run_step c = Ok None → pc (task c) ≠ Returned false → all_written c.
Proof.
  intros [[Hl Hb Hn Hlf Hbf Hp] [Hsch Hsink (pops & Hpops & Hfr)] [Hw Hk] Hpc] E Hne.
  assert (queued (latency (shared c)) = [] ∧ queued (bulk (shared c)) = [] ∧ in_hand (pc (task c)) = []
    ∧ wave_in_hand (pc (task c)) = [] ∧ (∀ id, contents (scheduler (task c)) id = [])
    ∧ (posting (history c) = 0%nat → live (shared c) = None)) as (El & Eb & Eh & Ew & Hs & Hlive).
  { pose proof (conn_rest _ E Hne Hpc) as (Ho1 & Ho2 & Ho3 & ? & ? & ?). split_and!; try done.
    - by apply (rest_empty _ _ _ _ _ Hl).
    - by apply (rest_empty _ _ _ _ _ Hb).
    - intros Hpost. destruct (live (shared c)) eqn:El; [|done]. exfalso.
      rewrite (rest_empty _ _ _ _ _ Hn Ho3) in Hk. destruct Hk as [Et|[?|?]]; [by eexists|done|..|done|done].
      unfold run_step in E. rewrite Et in E. by destruct (take_live _) as [[] ?]. }
  split.
  - exists pops. rewrite Hpops, Eh, app_nil_r. split; [done|]. intros id. destruct (Hfr id) as (rest & -> & Hr).
    by rewrite (Hr Hne), Hs, El, Eb, app_nil_r.
  - intros Hpost. rewrite (Hlive Hpost), Ew, app_nil_r in Hw. by apply Hw.
Qed.

(** What the task cannot change: who has a handle, and what was handed over. *)
Definition outside c := (senders (history c), posting (history c), accepted (history c), posted (history c),
  (senders_gone (latency (shared c)), senders_gone (bulk (shared c)), senders_gone (live_notify (shared c)))).

Lemma recv_senders {A} (q : Q A) r q' : mpsc_recv q = (r, q') → senders_gone q' = senders_gone q.
Proof. intros E. pose proof (recv_law q) as H. rewrite E in H. by destruct H as (_ & ? & _). Qed.

Lemma run_step_outside c c' : run_step c = Ok (Some c') →
  outside c' = outside c ∧ pc (task c') ≠ Returned false.
Proof.
  unfold run_step, outside. destruct (pc (task c)) as [|w [|f rest]| | | |b| | | | | |ok] eqn:Hpc.
  - by destruct (take_live (shared c)) as [[w|] sh] eqn:E; unfold take_live in E; injection E as _ <-; intros [= <-].
  - by intros [= <-].
  - by intros [= <-].
  - destruct (mpsc_recv _) as [[f| |] q] eqn:E; intros [= <-]; cbn; rewrite ?Hpc, (recv_senders _ _ _ E); done.
  - destruct (mpsc_recv _) as [[f| |] q] eqn:E; intros [= <-]; cbn; rewrite ?Hpc, (recv_senders _ _ _ E); done.
  - destruct (pop_next _) as [[s [b|]]| |]; try done; intros [= <-]; [done|]. cbn. by destruct (any_open _).
  - by intros [= <-].
  - destruct (live_open _); [|by intros [= <-]].
    destruct (mpsc_recv _) as [[f| |] q] eqn:E; intros [= <-]; cbn; rewrite (recv_senders _ _ _ E); done.
  - destruct (latency_open _); [|by intros [= <-]].
    destruct (mpsc_recv _) as [[f| |] q] eqn:E; intros [= <-]; cbn; rewrite (recv_senders _ _ _ E); done.
  - destruct (bulk_open _); [|by destruct (any_open _); [intros [= <-]|]].
    destruct (mpsc_recv _) as [[f| |] q] eqn:E; intros [= <-]; cbn; rewrite (recv_senders _ _ _ E); done.
  - by destruct (wakes _ _); [intros [= <-]|].
  - intros [= <-]. cbn. split; [|done].
    destruct (drop_receiver_law (latency (shared c))) as (_ & _ & -> & _), (drop_receiver_law (bulk (shared c))) as (_ & _ & -> & _).
    by destruct (drop_receiver_law (live_notify (shared c))) as (_ & _ & -> & _).
  - done.
Qed.

Lemma run_for_outside n c c' : run_for n c = Ok c' → pc (task c) ≠ Returned false →
  outside c' = outside c ∧ pc (task c') ≠ Returned false.
Proof.
  revert c. induction n as [|n IH]; intros c; cbn [run_for]; [by intros [= <-]|].
  destruct (run_step c) as [[c1|]| |] eqn:E; try done; [|by intros [= <-]].
  intros Hr _. destruct (run_step_outside _ _ E) as [<- Hne]. by apply IH.
Qed.

(** At rest with every sender gone, the task has returned. *)
Lemma rest_returned c : run_step c = Ok None → pc (task c) ≠ Returned false → pc_ok c →
  senders_gone (latency (shared c)) = true → senders_gone (bulk (shared c)) = true →
  senders_gone (live_notify (shared c)) = true → pc (task c) = Returned true.
Proof.
  intros E Hne Hpc H1 H2 H3. destruct (conn_rest c E Hne Hpc) as (R1 & R2 & R3 & _).
  assert (∀ A (q : Q A) open, senders_gone q = true → ready open q = false → open = false) as Hclosed.
  { intros A q [] Hs Hr; [|done]. pose proof (recv_law q) as H. unfold ready in Hr. destruct (mpsc_recv q) as [r q'].
    destruct H as (_ & _ & _ & _ & ->). rewrite Hs in Hr. by destruct (queued q). }
  apply Hclosed in R1, R2, R3; [|done..].
  assert (any_open (task c) = false) as Ho by (unfold any_open; by rewrite R1, R2, R3).
  unfold run_step in E. unfold pc_ok in Hpc.
  destruct (pc (task c)) as [|w [|]| | | |b| | | | | |[]]; try done; rewrite ?Ho in *; try (by destruct Hpc).
  - by destruct (take_live (shared c)) as [[] ?].
  - by destruct (mpsc_recv _) as [[] ?].
  - by destruct (mpsc_recv _) as [[] ?].
  - destruct (pop_next _) as [[s [|]]| |]; done.
Qed.

(** ** Properties *)

(** C25. What the writer puts on the socket.  However the handles of a connection and the task that
    owns its socket interleave, the task never panics and the inboxes stay within their capacity.
    While no write fails, the socket has received exactly the writes of the log and the finished part
    of one live wave: a wave is never interleaved with other frames.  The frames taken for each
    channel and priority are the first of those [send] and [send_all] accepted for it, in order; the
    live waves are some of those posted, in order. *)
Theorem writer_delivers c : rtc conn_step ConnectionWriter_new c →
  run_step c ≠ Panic
  ∧ (length (queued (latency (shared c))) ≤ LATENCY_QUEUE_CAP)%nat
  ∧ (length (queued (bulk (shared c))) ≤ BULK_QUEUE_CAP)%nat
  ∧ (pc (task c) ≠ Returned false →
     sink (task c) = (log (history c) ≫= write_bytes) ++ partial (pc (task c)))
  ∧ (∃ pops, pops.*2 = scheduled (log (history c)) ++ in_hand (pc (task c))
     ∧ ∀ id, popped id pops `prefix_of` frames_of id (accepted (history c)))
  ∧ waves (log (history c)) `sublist_of` posted (history c).
Proof.
  intros Hc%reachable_conn_ok. pose proof (run_step_ok c Hc) as Hok.
  destruct Hc as [[Hl Hb _ _ _ _] [_ Hsink (pops & Hpops & Hfr)] [Hw _] _].
  split; [by destruct (run_step c)|]. split; [apply Hl|]. split; [apply Hb|]. split; [done|]. split.
  - exists pops. split; [done|]. intros id. destruct (Hfr id) as (rest & -> & _). by eexists.
  - destruct (live (shared c)); [destruct Hw as (older & -> & Hw)|destruct Hw as [Hw _]];
      (etrans; [by apply sublist_inserts_r|]); [by apply sublist_inserts_r|done].
Qed.

(** C26. The writer leaves nothing behind.  From any state a connection can reach in which no write
    failed, the task left alone comes to rest after finitely many actions, and then every frame
    [send] and [send_all] accepted and the newest live wave are written: no wake-up is lost, also
    not when the last handle is dropped.  If every handle is gone, the rest is the return of
    [run]. *)
Theorem writer_drains c : rtc conn_step ConnectionWriter_new c → pc (task c) ≠ Returned false →
  ∃ n c', run_for n c = Ok c' ∧ run_step c' = Ok None ∧ outside c' = outside c ∧ all_written c'
  ∧ (senders_gone (latency (shared c)) = true → senders_gone (bulk (shared c)) = true →
     senders_gone (live_notify (shared c)) = true → pc (task c') = Returned true).
Proof.
  intros Hr Hne. pose proof (reachable_conn_ok c Hr) as Hc.
  destruct (run_for_rests (S (distance c)) c Hc) as (c' & E & Hr' & Hrest); [lia|].
  exists (S (distance c)), c'. destruct (run_for_outside _ _ _ E Hne) as [Ho Hne'].
  assert (conn_ok c') as Hc' by (apply reachable_conn_ok; by etrans).
  split; [done|]. split; [done|]. split; [done|]. split; [by apply rest_all_written|].
  unfold outside in Ho. injection Ho as _ _ _ _ E1 E2 E3. rewrite <-E1, <-E2, <-E3.
  apply rest_returned; [done..|apply Hc'].
Qed.
End writer.
Arguments conn_step {Q _}.

(** ** A concrete channel *)

Record list_channel (A : Type) := { items : list A; room : nat; s_gone : bool; r_gone : bool }.
Arguments items {A} _.
Arguments room {A} _.
Arguments s_gone {A} _.
Arguments r_gone {A} _.

#[local] Instance list_mpsc : Mpsc list_channel.
Proof.
  refine {|
    mpsc_channel A n := {| items := []; room := n; s_gone := false; r_gone := false |};
    mpsc_try_send A c x :=
      if r_gone c then (Some Closed, c)
      else if decide (length (items c) < room c)%nat
      then (None, {| items := items c ++ [x]; room := room c; s_gone := s_gone c; r_gone := r_gone c |})
      else (Some Full, c);
    mpsc_recv A c :=
      match items c with
      | x :: l => (Received x, {| items := l; room := room c; s_gone := s_gone c; r_gone := r_gone c |})
      | [] => (if s_gone c then Disconnected else Empty, c)
      end;
    mpsc_drop_senders A c := {| items := items c; room := room c; s_gone := true; r_gone := r_gone c |};
    mpsc_drop_receiver A c := {| items := []; room := room c; s_gone := s_gone c; r_gone := true |};
    queued A := items; capacity A := room; senders_gone A := s_gone; receiver_gone A := r_gone |}; try done.
  - intros A [l n s r] x. cbn. destruct r; [done|]. by case_decide.
  - intros A [l n s r]. cbn. by destruct l.
Defined.

Section sample.
Implicit Types c : Connection list_channel.

Definition do_send (f : Frame) c : Connection list_channel :=
  mk (snd (send f (shared c))) (task c) (sent (fst (send f (shared c))) f (history c)).
Definition do_send_live (frames : list Frame) c : Connection list_channel :=
  let c := mk (send_live_store frames (shared c)) (task c) (stored frames (history c)) in
  mk (snd (send_live_notify (shared c))) (task c) (with_posting (history c) (pred (posting (history c)))).

Definition sample_frame (ch : ChannelKey) (p : Priority) (b : Z) : Frame :=
  {| channel := ch; priority := p; frame_bytes := [b] |}.

(** Graphics, sound control, a wave overwritten by a newer one of two chunks. *)
Definition sample_sent : Connection list_channel :=
  do_send_live [sample_frame (Static 1004) Latency 4; sample_frame (Static 1004) Latency 5]
    (do_send_live [sample_frame (Static 1004) Latency 3]
      (do_send (sample_frame (Static 1004) Latency 2)
        (do_send (sample_frame Io Bulk 1) ConnectionWriter_new))).

(** The handle is dropped. *)
Definition sample_closed : Connection list_channel :=
  let c := mk (shared sample_sent) (task sample_sent) (with_senders (history sample_sent) 0) in
  let c := with_shared c (with_latency (shared c) (mpsc_drop_senders (latency (shared c)))) in
  let c := with_shared c (with_bulk (shared c) (mpsc_drop_senders (bulk (shared c)))) in
  with_shared c (with_notify (shared c) (mpsc_drop_senders (live_notify (shared c)))).

Lemma do_send_step f c : senders (history c) ≠ 0%nat → rtc conn_step c (do_send f c).
Proof. intros Hs. apply rtc_once, step_send; [done|]. by destruct (send f (shared c)). Qed.

Lemma do_send_live_step frames c : senders (history c) ≠ 0%nat → rtc conn_step c (do_send_live frames c).
Proof.
  intros Hs. eapply rtc_l; [by apply (step_store frames)|]. apply rtc_once.
  by apply (step_notify (posting (history c))).
Qed.

Lemma sample_sent_reachable : rtc conn_step ConnectionWriter_new sample_sent.
Proof.
  unfold sample_sent. etrans; [by apply (do_send_step (sample_frame Io Bulk 1))|].
  etrans; [by apply (do_send_step (sample_frame (Static 1004) Latency 2))|].
  etrans; [by apply (do_send_live_step [sample_frame (Static 1004) Latency 3])|]. by apply do_send_live_step.
Qed.

Lemma sample_closed_reachable : rtc conn_step ConnectionWriter_new sample_closed.
Proof.
  etrans; [exact sample_sent_reachable|]. unfold sample_closed.
  eapply rtc_l; [apply (step_drop 0); [done|by right]|].
  eapply rtc_l; [by apply step_drop_latency|]. eapply rtc_l; [by apply step_drop_bulk|].
  apply rtc_once. by apply step_drop_notify.
Qed.

(** The newest wave, whole, before the latency frame, before the graphics; the older wave is gone. *)
Example sample_output : (λ c, (sink (task c), pc (task c))) <$> run_for 60 sample_closed
  = Ok ([[4]; [5]; [2]; [1]], Returned true).
Proof. vm_compute. reflexivity. Qed.

Lemma writer_delivers_witness :
  run_step sample_sent ≠ Panic
  ∧ (length (queued (latency (shared sample_sent))) ≤ LATENCY_QUEUE_CAP)%nat
  ∧ (length (queued (bulk (shared sample_sent))) ≤ BULK_QUEUE_CAP)%nat
  ∧ (pc (task sample_sent) ≠ Returned false →
     sink (task sample_sent) = (log (history sample_sent) ≫= write_bytes) ++ partial (pc (task sample_sent)))
  ∧ (∃ pops, pops.*2 = scheduled (log (history sample_sent)) ++ in_hand (pc (task sample_sent))
     ∧ ∀ id, popped id pops `prefix_of` frames_of id (accepted (history sample_sent)))
  ∧ waves (log (history sample_sent)) `sublist_of` posted (history sample_sent).
Proof. exact (writer_delivers sample_sent sample_sent_reachable). Defined.

Lemma writer_drains_witness :
  ∃ n c', run_for n sample_closed = Ok c' ∧ run_step c' = Ok None ∧ outside c' = outside sample_closed
  ∧ all_written c' ∧ pc (task c') = Returned true.
Proof.
  destruct (writer_drains sample_closed sample_closed_reachable) as (n & c' & E & Hr & Ho & Hw & Hret);
    [vm_compute; done|].
  exists n, c'. split; [exact E|]. split; [exact Hr|]. split; [exact Ho|]. split; [exact Hw|].
  apply Hret; vm_compute; reflexivity.
Defined.
End sample.
