(* ===== verification/Rdp6.v ===== *)
(** [rdpcore-pdu/src/rdp6.rs]: RDP 6.0 planar bitmap compression, per-plane
    vertical deltas packed as zigzag bytes, then a run-length code per
    scanline. *)
From S2P Require Import Prelude Cursor.

Definition FORMAT_HEADER_RLE_NO_ALPHA_ARGB : Z := 0x30.
Definition MAX_STACK_PIXELS : nat := 4096.

(** ** The delta filter *)

Definition wrapping_sub_u8 (a b : Z) : Z := as_u8 (a - b).
Definition wrapping_add_u8 (a b : Z) : Z := as_u8 (a + b).

(** [signed] is the [i8] value; the shifts are arithmetic, on [i16]. *)
Definition zigzag_encode (raw_delta : Z) : Z :=
  let signed := as_i8 raw_delta in
  as_u8 (Z.lxor (as_i16 (Z.shiftl signed 1)) (Z.shiftr signed 15)).

Definition zigzag_decode (encoded : Z) : Z :=
  let half := Z.shiftr encoded 1 in
  let mask := as_i16 (- Z.land encoded 1) in
  as_u8 (Z.lxor half mask).

(** ** Run-length encoding of a scanline *)

(** [LiteralBuf]: the initialised part [buf[..len]] of the 15-byte array.  The
    functions return the new buffer and the bytes they append to [out]. *)
Definition LiteralBuf := bytes.

Definition LiteralBuf_flush (lb : LiteralBuf) : LiteralBuf * bytes :=
  if (0 <? len lb) then ([], [as_u8 (Z.shiftl (as_u8 (len lb)) 4)] ++ lb) else (lb, []).

Definition LiteralBuf_push (lb : LiteralBuf) (byte : Z) : LiteralBuf * bytes :=
  let lb := lb ++ [byte] in
  if len lb =? 15 then LiteralBuf_flush lb else (lb, []).

Fixpoint push_n (n : nat) (lb : LiteralBuf) (byte : Z) : LiteralBuf * bytes :=
  match n with
  | O => (lb, [])
  | S n =>
    let '(lb, o) := LiteralBuf_push lb byte in
    let '(lb, o') := push_n n lb byte in
    (lb, o ++ o')
  end.

(** The [while] loop of [emit_run]; [remaining] turns are enough. *)
Fixpoint emit_rest (fuel : nat) (byte : Z) (remaining : nat) : bytes :=
  match fuel with
  | O => []
  | S fuel =>
    if decide (remaining = 0%nat) then []
    else if decide (3 ≤ remaining)%nat then
      let chunk := (remaining `min` 15)%nat in
      [as_u8 (Z.of_nat chunk)] ++ emit_rest fuel byte (remaining - chunk)
    else
      [as_u8 (Z.shiftl (as_u8 (Z.of_nat remaining)) 4)] ++ replicate remaining byte
  end.

Definition emit_run (byte : Z) (count : nat) : bytes :=
  let remaining := (count - 1)%nat in
  let first_run := (remaining `min` 15)%nat in
  [Z.lor (Z.shiftl 1 4) (as_u8 (Z.of_nat first_run)); byte]
  ++ emit_rest (remaining - first_run) byte (remaining - first_run).

(** How many bytes at the start of [l] equal [byte]: the inner [while]. *)
Fixpoint run_length (byte : Z) (l : bytes) : nat :=
  match l with
  | [] => 0
  | b :: l => if decide (b = byte) then S (run_length byte l) else 0
  end.

(** The outer loop from position [i]: [l] is [scanline[i..]]. *)
Fixpoint encode_scanline_loop (fuel : nat) (pending : LiteralBuf) (l : bytes) : bytes :=
  match fuel, l with
  | S fuel, byte :: rest =>
    let count := S (run_length byte rest) in
    if decide (count < 4)%nat then
      let '(pending, o) := push_n count pending byte in
      o ++ encode_scanline_loop fuel pending (drop count l)
    else
      let '(pending, o) := LiteralBuf_flush pending in
      o ++ emit_run byte count ++ encode_scanline_loop fuel pending (drop count l)
  | _, _ => (LiteralBuf_flush pending).2
  end.

Definition encode_scanline_rle (scanline : bytes) : bytes :=
  encode_scanline_loop (length scanline) [] scanline.

(** ** Planes *)

(** [plane[a..b]] for positions counted in [nat]. *)
Definition rows_slice (plane : bytes) (a b : nat) : res DecodeError bytes :=
  slice plane (Z.of_nat a) (Z.of_nat b).

Definition delta_row (plane : bytes) (width row : nat) : res DecodeError bytes :=
  if decide (row = 0%nat) then rows_slice plane 0 width
  else
    both ← rows_slice plane ((row - 1) * width) ((row + 1) * width);
    let above_row := take width both in
    let curr_row := drop width both in
    Ok (zip_with (λ curr above, zigzag_encode (wrapping_sub_u8 curr above)) curr_row above_row).

(** [size] is the length of the [delta] array: [MAX_STACK_PIXELS] on the stack,
    [width * height] on the heap.  Its rows are filled in order. *)
Definition encode_plane (size : nat) (plane : bytes) (width height : nat)
  : res DecodeError bytes :=
  first ← rows_slice plane 0 width;
  rows ← mapM (delta_row plane width) (seq 1 (height - 1));
  let filled := first ++ mjoin rows in
  let delta := filled ++ replicate (size - length filled) 0 in
  out ← mapM (λ row, r ← rows_slice delta (row * width) ((row + 1) * width);
                     Ok (encode_scanline_rle r)) (seq 0 height);
  Ok (mjoin out).

Definition encode_plane_stack := encode_plane MAX_STACK_PIXELS.
Definition encode_plane_heap (plane : bytes) (width height : nat) :=
  encode_plane (width * height) plane width height.

(** [chunks_exact(4)] *)
Fixpoint chunks_exact4 (l : bytes) : list (Z * Z * Z * Z) :=
  match l with
  | b0 :: b1 :: b2 :: b3 :: l => (b0, b1, b2, b3) :: chunks_exact4 l
  | _ => []
  end.

(** One colour of the pixels in an array of [n] zeros: the loop over the zip
    stops at the shorter side. *)
Definition fill_plane (colour : Z * Z * Z * Z → Z) (bgrx : bytes) (n : nat) : bytes :=
  let px := take n (colour <$> chunks_exact4 bgrx) in
  px ++ replicate (n - length px) 0.

Definition blue (p : Z * Z * Z * Z) : Z := p.1.1.1.
Definition green (p : Z * Z * Z * Z) : Z := p.1.1.2.
Definition red (p : Z * Z * Z * Z) : Z := p.1.2.

Definition encode_to (bgrx : bytes) (width height : nat) : res DecodeError bytes :=
  let pixel_count := (width * height)%nat in
  if decide (pixel_count = 0%nat) then Ok [FORMAT_HEADER_RLE_NO_ALPHA_ARGB]
  else
    let r := fill_plane red bgrx pixel_count in
    let g := fill_plane green bgrx pixel_count in
    let b := fill_plane blue bgrx pixel_count in
    if decide (pixel_count ≤ MAX_STACK_PIXELS)%nat then
      ro ← encode_plane_stack r width height;
      go ← encode_plane_stack g width height;
      bo ← encode_plane_stack b width height;
      Ok ([FORMAT_HEADER_RLE_NO_ALPHA_ARGB] ++ ro ++ go ++ bo)
    else
      ro ← encode_plane_heap r width height;
      go ← encode_plane_heap g width height;
      bo ← encode_plane_heap b width height;
      Ok ([FORMAT_HEADER_RLE_NO_ALPHA_ARGB] ++ ro ++ go ++ bo).

Definition encode (bgrx : bytes) (width height : nat) : res DecodeError bytes :=
  encode_to bgrx width height.

(** ** Decoding *)

(** The loop over the literals: [acc] is [scanline[..pos]]. *)
Fixpoint read_literals (w n : nat) (last : Z) (acc : bytes) : reader (Z * bytes) :=
  match n with
  | O => mret (last, acc)
  | S n =>
    if decide (w ≤ length acc)%nat then
      invalid "rdp6.rle.scanline" "segment overruns the scanline"
    else
      byte ← read_u8;
      read_literals w n byte (acc ++ [byte])
  end.

(** The loop over the repeats. *)
Fixpoint repeat_last (w n : nat) (last : Z) (acc : bytes) : reader bytes :=
  match n with
  | O => mret acc
  | S n =>
    if decide (w ≤ length acc)%nat then
      invalid "rdp6.rle.scanline" "segment overruns the scanline"
    else repeat_last w n last (acc ++ [last])
  end.

Definition decode_segment (w : nat) (last : Z) (acc : bytes) : reader (Z * bytes) :=
  control ← read_u8;
  if control =? 0 then invalid "rdp6.rle.control" "0x00 control byte is invalid"
  else
    let upper := Z.shiftr control 4 in
    let rle_field := Z.land control 0x0F in
    let '(run_length, literal_count) :=
      if rle_field =? 1 then (16 + upper, 0)
      else if rle_field =? 2 then (32 + upper, 0)
      else (rle_field, upper) in
    '(last, acc) ← read_literals w (Z.to_nat literal_count) last acc;
    acc ← repeat_last w (Z.to_nat run_length) last acc;
    mret (last, acc).

(** [while pos < scanline.len()]; running out of fuel counts as a panic, and
    [decode_scanline_rle_safe] shows that [w] turns are enough. *)
Fixpoint decode_scanline_loop (w fuel : nat) (last : Z) (acc : bytes) : reader bytes :=
  if decide (w ≤ length acc)%nat then mret acc
  else
    match fuel with
    | O => λ _, Panic
    | S fuel =>
      '(last, acc) ← decode_segment w last acc;
      decode_scanline_loop w fuel last acc
    end.

Definition decode_scanline_rle (w : nat) : reader bytes := decode_scanline_loop w w 0 [].

Fixpoint decode_rows (w n : nat) : reader bytes :=
  match n with
  | O => mret []
  | S n =>
    row ← decode_scanline_rle w;
    rows ← decode_rows w n;
    mret (row ++ rows)
  end.

(** [plane[idx] = plane[idx - width] + zigzag_decode(delta[idx])], in row-major
    order: [acc] is [plane[..idx]]. *)
Definition undelta_step (w : nat) (acc : bytes) (d : Z) : bytes :=
  acc ++ [wrapping_add_u8 (nth (length acc - w) acc 0) (zigzag_decode d)].

(** [vec![0u8; n]] panics above [isize::MAX] bytes, and before that the product of [usize]s which [n]
    is, when it overflows. *)
Definition alloc_zeroed (n : nat) : reader unit :=
  lift_res (if decide (Z.of_nat n < 2 ^ 63) then Ok tt else Panic).

Definition decode_plane (width height : nat) : reader bytes :=
  if decide (width = 0%nat ∨ height = 0%nat) then mret []
  else
    alloc_zeroed (width * height);;
    delta ← decode_rows width height;
    alloc_zeroed (width * height);;
    mret (foldl (undelta_step width) (take width delta) (drop width delta)).

Fixpoint interleave (r g b : bytes) : bytes :=
  match r, g, b with
  | r0 :: r, g0 :: g, b0 :: b => [b0; g0; r0; 0] ++ interleave r g b
  | _, _, _ => []
  end.

(** The zip over [bgrx.chunks_exact_mut(4)] stops at the shortest plane and
    leaves zeros behind. *)
Definition decode_from (width height : nat) : reader bytes :=
  header ← read_u8;
  reject_if (negb (header =? FORMAT_HEADER_RLE_NO_ALPHA_ARGB)) "rdp6.format_header"
    "only RLE + no-alpha + ARGB (0x30) is supported";;
  r ← decode_plane width height;
  g ← decode_plane width height;
  b ← decode_plane width height;
  alloc_zeroed (width * height * 4);;
  let px := take (width * height * 4) (interleave r g b) in
  mret (px ++ replicate (width * height * 4 - length px) 0).
Definition decode (data : bytes) (width height : nat) : res DecodeError bytes :=
  run (decode_from width height) data.

(** ** The delta filter is invertible *)

Lemma zigzag_roundtrip x : u8_ok x → zigzag_decode (zigzag_encode x) = x.
Proof.
  intros Hx. apply Z.eqb_eq. revert x Hx. apply u8_forall. vm_compute. reflexivity.
Qed.

Lemma zigzag_encode_u8 x : u8_ok (zigzag_encode x).
Proof. apply as_u8_ok. Qed.

Lemma undelta curr above :
  u8_ok curr → wrapping_add_u8 above (zigzag_decode (zigzag_encode (wrapping_sub_u8 curr above))) = curr.
Proof.
  intros Hc. rewrite zigzag_roundtrip by apply as_u8_ok.
  unfold wrapping_add_u8, wrapping_sub_u8. cast_lia.
Qed.

(** ** The run-length code of a scanline *)

(** The two fields of a control byte. *)
Lemma control_fields n r :
  0 ≤ n < 16 → 0 ≤ r < 16 → Z.shiftr (16 * n + r) 4 = n ∧ Z.land (16 * n + r) 0x0F = r.
Proof.
  intros Hn Hr. split.
  - rewrite Z.shiftr_div_pow2 by lia. change (2 ^ 4) with 16.
    Z.to_euclidean_division_equations; lia.
  - change 0x0F with (Z.ones 4). rewrite Z.land_ones by lia. change (2 ^ 4) with 16.
    Z.to_euclidean_division_equations; lia.
Qed.

Lemma control_literal n : 0 ≤ n < 16 → as_u8 (Z.shiftl (as_u8 n) 4) = 16 * n + 0.
Proof.
  intros Hn. rewrite (as_u8_id n) by lia. rewrite Z.shiftl_mul_pow2 by lia. change (2 ^ 4) with 16.
  rewrite as_u8_id; lia.
Qed.

Lemma last_cons_default (x : Z) s d d' : List.last (x :: s) d = List.last (x :: s) d'.
Proof. revert x. induction s as [|y s IH]; intros x; [done|]. exact (IH y). Qed.

Lemma read_literals_reads w n last acc s l :
  length s = n → (length acc + n ≤ w)%nat →
  reads (read_literals w n last acc) (s ++ l) (List.last s last, acc ++ s) l.
Proof.
  revert last acc s. induction n as [|n IH]; intros last acc s Hs Hw; cbn [read_literals].
  - destruct s; [|done]. apply reads_ret_eq. by rewrite app_nil_r.
  - destruct s as [|b s]; [done|]. rewrite decide_False by lia.
    eapply reads_bind; [apply read_u8_reads|].
    eapply reads_eq; [apply (IH b (acc ++ [b]) s)|done|].
    + by injection Hs.
    + rewrite length_app; cbn; lia.
    + rewrite <-app_assoc. f_equal. destruct s as [|b' s]; [done|].
      apply (last_cons_default b' s).
Qed.

Lemma repeat_last_reads w n last acc l :
  (length acc + n ≤ w)%nat → reads (repeat_last w n last acc) l (acc ++ replicate n last) l.
Proof.
  revert acc. induction n as [|n IH]; intros acc Hw; cbn [repeat_last].
  - apply reads_ret_eq. by rewrite app_nil_r.
  - rewrite decide_False by lia. eapply reads_eq; [apply IH|done|].
    + rewrite length_app; cbn; lia.
    + by rewrite <-app_assoc.
Qed.

(** A segment without the extended forms: [s] literals, then [r] repeats. *)
Lemma decode_segment_reads w last acc s r l :
  (length s < 16)%nat → (r < 16)%nat → r ≠ 1%nat → r ≠ 2%nat → (0 < length s + r)%nat →
  (length acc + length s + r ≤ w)%nat →
  reads (decode_segment w last acc) ((16 * len s + Z.of_nat r) :: s ++ l)
    (List.last s last, acc ++ s ++ replicate r (List.last s last)) l.
Proof.
  intros Hs Hr H1 H2 Hpos Hw. eapply reads_bind; [apply read_u8_reads|]. cbn beta zeta.
  destruct (control_fields (len s) (Z.of_nat r)) as [E1 E2]; [unfold len; lia|lia|].
  assert (16 * len s + Z.of_nat r =? 0 = false) as -> by (unfold len; lia).
  rewrite E1, E2.
  assert (Z.of_nat r =? 1 = false) as -> by lia. assert (Z.of_nat r =? 2 = false) as -> by lia.
  cbn beta iota zeta. unfold len. rewrite !Nat2Z.id.
  eapply reads_bind; [by apply read_literals_reads; [|lia]|]. cbn beta iota.
  eapply reads_bind; [apply repeat_last_reads; rewrite length_app; lia|].
  apply reads_ret_eq. by rewrite <-app_assoc.
Qed.

(** Reading the segments [s] takes the decoder from one state of the scanline to
    another, whatever follows. *)
Definition consumes (w : nat) (last : Z) (acc s : bytes) (last' : Z) (acc' : bytes) : Prop :=
  (length acc ≤ length acc')%nat
  ∧ ∀ fuel r l l', (w - length acc ≤ fuel)%nat →
      (∀ fuel', (w - length acc' ≤ fuel')%nat →
         reads (decode_scanline_loop w fuel' last' acc') l r l') →
      reads (decode_scanline_loop w fuel last acc) (s ++ l) r l'.

Lemma consumes_nil w last acc : consumes w last acc [] last acc.
Proof. split; [done|]. intros fuel r l l' Hf H. by apply H. Qed.

Lemma consumes_trans w last1 acc1 s1 last2 acc2 s2 last3 acc3 :
  consumes w last1 acc1 s1 last2 acc2 → consumes w last2 acc2 s2 last3 acc3 →
  consumes w last1 acc1 (s1 ++ s2) last3 acc3.
Proof.
  intros [Ha H1] [Hb H2]. split; [lia|]. intros fuel r l l' Hf H. rewrite <-app_assoc.
  apply H1; [done|]. intros fuel' Hf'. by apply H2.
Qed.

Lemma consumes_segment w last acc s r :
  (length s < 16)%nat → (r < 16)%nat → r ≠ 1%nat → r ≠ 2%nat → (0 < length s + r)%nat →
  (length acc + length s + r ≤ w)%nat →
  consumes w last acc ((16 * len s + Z.of_nat r) :: s) (List.last s last)
    (acc ++ s ++ replicate r (List.last s last)).
Proof.
  intros Hs Hr H1 H2 Hpos Hw. split; [rewrite !length_app; lia|].
  intros fuel res l l' Hf H. cbn [app].
  destruct fuel as [|fuel]; cbn [decode_scanline_loop].
  - lia.
  - rewrite decide_False by lia. eapply reads_bind; [by apply decode_segment_reads|].
    cbn beta iota. apply H. rewrite !length_app, length_replicate. lia.
Qed.

Lemma flush_consumes w last acc pb :
  (length pb < 16)%nat → (length acc + length pb ≤ w)%nat →
  ∃ last', consumes w last acc (LiteralBuf_flush pb).2 last' (acc ++ pb).
Proof.
  intros Hp Hw. unfold LiteralBuf_flush. destruct (Z.ltb_spec 0 (len pb)) as [Hpos|Hz]; cbn [snd].
  - exists (List.last pb last). rewrite control_literal by (unfold len; lia). cbn [app].
    pose proof (consumes_segment w last acc pb 0) as H. cbn [replicate Z.of_nat] in H.
    rewrite app_nil_r in H. apply H; unfold len in Hpos; lia.
  - exists last. rewrite (len_zero_nil pb) by (pose proof (len_nonneg pb); lia).
    rewrite app_nil_r. apply consumes_nil.
Qed.

Lemma flush_empty pb : (LiteralBuf_flush pb).1 = [].
Proof.
  unfold LiteralBuf_flush. destruct (Z.ltb_spec 0 (len pb)) as [|Hz]; [done|]. cbn.
  apply len_zero_nil. pose proof (len_nonneg pb). lia.
Qed.

(** The array index of [push] stays below 15. *)
Lemma push_n_consumes w n : ∀ last acc pb byte,
  (length pb < 15)%nat → (length acc + length pb + n ≤ w)%nat →
  ∃ last' acc', consumes w last acc (push_n n pb byte).2 last' acc'
  ∧ acc' ++ (push_n n pb byte).1 = acc ++ pb ++ replicate n byte
  ∧ (length (push_n n pb byte).1 < 15)%nat.
Proof.
  induction n as [|n IH]; intros last acc pb byte Hp Hw; cbn [push_n].
  - exists last, acc. rewrite app_nil_r. split_and!; [apply consumes_nil|done..].
  - unfold LiteralBuf_push. set (pb1 := pb ++ [byte]).
    assert (Hl1 : length pb1 = S (length pb)) by (subst pb1; rewrite length_app; cbn; lia).
    destruct (Z.eqb_spec (len pb1) 15) as [H15|H15].
    + destruct (flush_consumes w last acc pb1) as [last1 Hc1]; [lia..|].
      pose proof (flush_empty pb1) as He. destruct (LiteralBuf_flush pb1) as [pb2 o1]. cbn in He, Hc1.
      subst pb2. destruct (IH last1 (acc ++ pb1) [] byte) as (last' & acc' & Hc & Heq & Hl);
        [cbn; lia|rewrite length_app; cbn; lia|].
      destruct (push_n n [] byte) as [pb3 o2]. cbn in *. exists last', acc'.
      split_and!; [by eapply consumes_trans| |done].
      rewrite Heq. subst pb1. by rewrite <-!app_assoc.
    + destruct (IH last acc pb1 byte) as (last' & acc' & Hc & Heq & Hl); [unfold len in H15; lia|lia|].
      destruct (push_n n pb1 byte) as [pb3 o2]. cbn in *. exists last', acc'.
      split_and!; [done| |done]. rewrite Heq. subst pb1. by rewrite <-!app_assoc.
Qed.

Lemma emit_rest_consumes w fuel : ∀ acc byte remaining,
  (remaining ≤ fuel)%nat → (length acc + remaining ≤ w)%nat →
  consumes w byte acc (emit_rest fuel byte remaining) byte (acc ++ replicate remaining byte).
Proof.
  induction fuel as [|fuel IH]; intros acc byte remaining Hf Hw; cbn [emit_rest].
  - replace remaining with 0%nat by lia. rewrite app_nil_r. apply consumes_nil.
  - destruct (decide (remaining = 0%nat)) as [->|H0].
    { rewrite app_nil_r. apply consumes_nil. }
    destruct (decide (3 ≤ remaining)%nat) as [H3|H3].
    + set (chunk := (remaining `min` 15)%nat).
      rewrite as_u8_id by lia.
      pose proof (consumes_segment w byte acc [] chunk) as Hs. cbn [List.last app] in Hs.
      rewrite (@len_nil Z), Z.mul_0_r, Z.add_0_l in Hs.
      eapply consumes_trans; [apply Hs; cbn; lia|].
      replace (replicate remaining byte) with (replicate chunk byte ++ replicate (remaining - chunk) byte)
        by (rewrite <-replicate_add; f_equal; lia).
      rewrite app_assoc. apply IH; [lia|]. rewrite length_app, length_replicate. lia.
    + rewrite control_literal by lia. cbn [app].
      pose proof (consumes_segment w byte acc (replicate remaining byte) 0) as Hs.
      cbn [replicate Z.of_nat] in Hs. rewrite app_nil_r, len_replicate in Hs.
      assert (List.last (replicate remaining byte) byte = byte) as El.
      { clear. induction remaining as [|[|n] IHn]; done. }
      rewrite El in Hs. apply Hs; rewrite ?length_replicate; lia.
Qed.

Lemma emit_run_consumes w last acc byte count :
  (4 ≤ count)%nat → (length acc + count ≤ w)%nat →
  consumes w last acc (emit_run byte count) byte (acc ++ replicate count byte).
Proof.
  intros Hc Hw. unfold emit_run. set (first_run := ((count - 1) `min` 15)%nat).
  rewrite as_u8_id by lia.
  assert (Z.lor (Z.shiftl 1 4) (Z.of_nat first_run) = 16 * len [byte] + Z.of_nat first_run) as ->.
  { change (Z.shiftl 1 4) with (2 ^ 4). rewrite Z.lor_comm, lor_pow2_add by lia. change (len [byte]) with 1. lia. }
  pose proof (consumes_segment w last acc [byte] first_run) as Hs. cbn [List.last] in Hs.
  eapply (consumes_trans w last acc (_ :: [byte]) byte); [apply Hs; cbn [length]; lia|].
  assert (acc ++ replicate count byte
    = (acc ++ [byte] ++ replicate first_run byte) ++ replicate (count - 1 - first_run) byte) as ->.
  { rewrite <-!app_assoc. f_equal. change [byte] with (replicate 1 byte).
    rewrite <-!replicate_add. f_equal. lia. }
  apply emit_rest_consumes; [done|]. rewrite !length_app, length_replicate. cbn [length]. lia.
Qed.

Lemma run_length_spec byte l :
  (run_length byte l ≤ length l)%nat
  ∧ take (run_length byte l) l = replicate (run_length byte l) byte.
Proof.
  induction l as [|b l [IH1 IH2]]; cbn; [done|]. destruct (decide (b = byte)) as [->|]; [|split; [lia|done]].
  cbn. rewrite IH2. split; [lia|done].
Qed.

Lemma encode_scanline_loop_consumes w fuel : ∀ last acc pb l,
  (length l ≤ fuel)%nat → (length pb < 15)%nat → (length acc + length pb + length l ≤ w)%nat →
  ∃ last', consumes w last acc (encode_scanline_loop fuel pb l) last' (acc ++ pb ++ l).
Proof.
  induction fuel as [|fuel IH]; intros last acc pb l Hf Hp Hw.
  - assert (l = []) as -> by (apply nil_length_inv; lia). rewrite app_nil_r.
    apply flush_consumes; cbn in *; lia.
  - cbn [encode_scanline_loop]. destruct l as [|byte rest].
    { rewrite app_nil_r. apply flush_consumes; cbn in *; lia. }
    set (count := S (run_length byte rest)).
    destruct (run_length_spec byte rest) as [Hle Htake]. cbn [length] in Hf, Hw.
    assert (Hsplit : byte :: rest = replicate count byte ++ drop count (byte :: rest)).
    { rewrite <-(take_drop count (byte :: rest)) at 1. f_equal. cbn. by rewrite Htake. }
    assert (Hdrop : length (drop count (byte :: rest)) = (S (length rest) - count)%nat)
      by (rewrite length_drop; done).
    destruct (decide (count < 4)%nat) as [Hc|Hc].
    + destruct (push_n_consumes w count last acc pb byte) as (last1 & acc1 & H1 & Heq & Hl1);
        [done|lia|].
      destruct (push_n count pb byte) as [pb1 o]. cbn [fst snd] in *.
      apply (f_equal length) in Heq as Hlen. rewrite !length_app, length_replicate in Hlen.
      destruct (IH last1 acc1 pb1 (drop count (byte :: rest))) as [last2 H2]; [lia|done|lia|].
      exists last2.
      assert (acc ++ pb ++ byte :: rest = acc1 ++ pb1 ++ drop count (byte :: rest)) as ->.
      { rewrite Hsplit at 1. rewrite (app_assoc acc1), Heq. by rewrite <-!app_assoc. }
      by eapply consumes_trans.
    + destruct (flush_consumes w last acc pb) as [last1 H1]; [lia..|].
      pose proof (flush_empty pb) as He. destruct (LiteralBuf_flush pb) as [pb1 o]. cbn in He, H1.
      subst pb1.
      pose proof (emit_run_consumes w last1 (acc ++ pb) byte count) as H2.
      rewrite length_app in H2.
      destruct (IH byte ((acc ++ pb) ++ replicate count byte) [] (drop count (byte :: rest)))
        as [last3 H3]; [lia|cbn; lia|rewrite !length_app, length_replicate; cbn [length]; lia|].
      exists last3.
      assert (acc ++ pb ++ byte :: rest
        = ((acc ++ pb) ++ replicate count byte) ++ [] ++ drop count (byte :: rest)) as ->.
      { rewrite Hsplit at 1. by rewrite <-!app_assoc. }
      eapply consumes_trans; [exact H1|]. eapply consumes_trans; [apply H2; lia|]. exact H3.
Qed.

(** A scanline of any length decodes to itself and the decoder stops exactly at
    its end. *)
Lemma scanline_reads row l :
  reads (decode_scanline_rle (length row)) (encode_scanline_rle row ++ l) row l.
Proof.
  destruct (encode_scanline_loop_consumes (length row) (length row) 0 [] [] row)
    as [last' [_ H]]; [done|cbn; lia|cbn; lia|].
  apply H; [cbn; lia|]. intros fuel' _. cbn [app].
  destruct fuel'; cbn [decode_scanline_loop]; rewrite decide_True by done; apply reads_ret.
Qed.

Lemma decode_rows_reads w rows l :
  Forall (λ r, length r = w) rows →
  reads (decode_rows w (length rows)) (mjoin (encode_scanline_rle <$> rows) ++ l) (mjoin rows) l.
Proof.
  intros H. induction H as [|row rows Hr _ IH]; [apply reads_ret|].
  cbn [length decode_rows fmap list_fmap mjoin list_join]. rewrite <-app_assoc.
  eapply reads_bind; [rewrite <-Hr; apply scanline_reads|]. cbn beta.
  eapply reads_bind; [exact IH|]. apply reads_ret.
Qed.

(** ** Planes *)

Definition delta_of (curr above : Z) : Z := zigzag_encode (wrapping_sub_u8 curr above).

(** The whole delta array of a plane. *)
Definition deltas (w : nat) (plane : bytes) : bytes :=
  take w plane ++ zip_with delta_of (drop w plane) plane.

Lemma length_deltas w plane : length (deltas w plane) = length plane.
Proof.
  unfold deltas. rewrite length_app, length_zip_with, length_take, length_drop. lia.
Qed.

Lemma undelta_deltas w plane :
  (0 < w)%nat → bytes_ok plane →
  foldl (undelta_step w) (take w (deltas w plane)) (drop w (deltas w plane)) = plane.
Proof.
  intros Hw Hb. unfold deltas.
  destruct (decide (length plane ≤ w)%nat) as [Hle|Hgt].
  { rewrite (take_ge plane), (drop_ge plane) by done. cbn. rewrite app_nil_r.
    rewrite take_ge, drop_ge by done. done. }
  rewrite take_app_length', drop_app_length' by (rewrite length_take; lia).
  assert (∀ suf pre, plane = pre ++ suf → (w ≤ length pre)%nat →
    foldl (undelta_step w) pre (zip_with delta_of suf (drop (length pre - w) plane)) = plane) as H.
  { induction suf as [|c suf IH]; intros pre Hp Hl.
    - cbn. by rewrite app_nil_r in Hp.
    - destruct (lookup_lt_is_Some_2 pre (length pre - w)) as [a Ha]; [lia|].
      assert (Hd : drop (length pre - w) plane = a :: drop (S (length pre - w)) plane).
      { apply drop_S. rewrite Hp. by apply lookup_app_l_Some. }
      rewrite Hd. cbn [zip_with foldl].
      assert (undelta_step w pre (delta_of c a) = pre ++ [c]) as ->.
      { unfold undelta_step, delta_of. rewrite (nth_lookup_Some _ _ _ _ Ha), undelta; [done|].
        rewrite Hp in Hb. apply bytes_ok_app in Hb as [_ Hb]. by apply bytes_ok_cons in Hb as [? _]. }
      specialize (IH (pre ++ [c])). rewrite length_app in IH. cbn [length] in IH.
      replace (length pre + 1 - w)%nat with (S (length pre - w)) in IH by lia.
      apply IH; [by rewrite <-app_assoc|lia]. }
  specialize (H (drop w plane) (take w plane)). rewrite length_take_le, Nat.sub_diag in H by lia.
  apply H; [by rewrite take_drop|lia].
Qed.

Lemma rows_slice_Ok l a b :
  (a ≤ b ≤ length l)%nat → rows_slice l a b = Ok (take (b - a) (drop a l)).
Proof.
  intros H. unfold rows_slice, slice, ztake, zdrop, len. rewrite decide_True by lia.
  do 3 f_equal; lia.
Qed.

Lemma mapM_Ok {E A B} (f : A → res E B) g l :
  (∀ x, x ∈ l → f x = Ok (g x)) → mapM f l = Ok (g <$> l).
Proof.
  intros H. induction l as [|x l IH]; [done|]. cbn [mapM]. rewrite (H x) by left.
  cbn. rewrite IH; [done|]. intros y Hy. apply H. by right.
Qed.

Lemma mjoin_slices w n (l : bytes) :
  mjoin ((λ r, take w (drop (r * w) l)) <$> seq 0 n) = take (n * w) l.
Proof.
  revert l. induction n as [|n IH]; intros l; [done|].
  cbn [seq]. rewrite fmap_cons, <-fmap_S_seq, <-list_fmap_compose. cbn [mjoin list_join].
  change (0 * w)%nat with 0%nat. rewrite drop_0.
  replace (S n * w)%nat with (w + n * w)%nat by lia.
  rewrite <-take_take_drop, <-IH. f_equal. f_equal. apply list_fmap_ext. intros i r _.
  cbn. by rewrite drop_drop.
Qed.

(** Each row of the delta array, as the code computes it. *)
Lemma delta_row_Ok plane w r h :
  length plane = (w * h)%nat → (r < h)%nat →
  delta_row plane w r = Ok (take w (drop (r * w) (deltas w plane))).
Proof.
  intros Hl Hr. unfold delta_row. destruct (decide (r = 0%nat)) as [->|H0].
  - rewrite rows_slice_Ok by nia. change (0 * w)%nat with 0%nat. rewrite !drop_0, Nat.sub_0_r.
    unfold deltas. rewrite take_app_length'; [done|]. rewrite length_take. nia.
  - rewrite rows_slice_Ok by nia. cbn. f_equal. unfold deltas.
    destruct r as [|r]; [done|]. replace (S r - 1)%nat with r by lia.
    replace (S r * w)%nat with (w + r * w)%nat by lia.
    replace ((S r + 1) * w - r * w)%nat with (w + w)%nat by lia.
    rewrite <-drop_drop. rewrite drop_app_length' by (rewrite length_take; nia).
    rewrite zip_with_drop, zip_with_take. unfold delta_of. f_equal.
    + rewrite <-take_take_drop, drop_app_length'; [by rewrite !drop_drop, (Nat.add_comm (r * w))|].
      rewrite length_take, length_drop. nia.
    + rewrite take_take. f_equal. lia.
Qed.

Lemma encode_plane_Ok size plane w h :
  length plane = (w * h)%nat → (w * h ≤ size)%nat → (0 < h)%nat →
  encode_plane size plane w h
  = Ok (mjoin (encode_scanline_rle <$> ((λ r, take w (drop (r * w) (deltas w plane))) <$> seq 0 h))).
Proof.
  intros Hl Hsize Hh. unfold encode_plane.
  set (row r := take w (drop (r * w) (deltas w plane))).
  assert (rows_slice plane 0 w = Ok (row 0%nat)) as ->.
  { apply (delta_row_Ok plane w 0 h Hl Hh). }
  cbn [mbind res_bind]. rewrite (mapM_Ok _ row).
  2:{ intros r Hr%elem_of_seq. apply (delta_row_Ok plane w r h Hl). lia. }
  cbn [mbind res_bind].
  assert (row 0%nat ++ mjoin (row <$> seq 1 (h - 1)) = deltas w plane) as ->.
  { change (mjoin (row <$> 0%nat :: seq 1 (h - 1)) = deltas w plane).
    change (0%nat :: seq 1 (h - 1)) with (seq 0 (S (h - 1))). unfold row. rewrite mjoin_slices.
    apply take_ge. rewrite length_deltas, Hl. nia. }
  rewrite (mapM_Ok _ (λ r, encode_scanline_rle (row r))).
  - cbn [mbind res_bind]. by rewrite <-list_fmap_compose.
  - intros r Hr%elem_of_seq. rewrite rows_slice_Ok.
    + cbn. do 2 f_equal. unfold row. replace (r * w + w - r * w)%nat with w by lia.
      replace ((r + 1) * w - r * w)%nat with w by lia.
      rewrite (drop_app_le (deltas w plane)) by (rewrite length_deltas, Hl; nia).
      apply take_app_le. rewrite length_drop, length_deltas, Hl. nia.
    + rewrite length_app, length_replicate, length_deltas, Hl. nia.
Qed.

(** The plane on the stack and the plane on the heap encode alike. *)
Lemma encode_plane_stack_heap plane w h :
  length plane = (w * h)%nat → (w * h ≤ MAX_STACK_PIXELS)%nat → (0 < h)%nat →
  encode_plane_stack plane w h = encode_plane_heap plane w h.
Proof.
  intros. unfold encode_plane_stack, encode_plane_heap. by rewrite !encode_plane_Ok.
Qed.

Lemma alloc_zeroed_reads n l : Z.of_nat n < 2 ^ 63 → reads (alloc_zeroed n) l tt l.
Proof. intros H c Hc Hr. exists c. unfold alloc_zeroed. by rewrite decide_True. Qed.
Lemma alloc_zeroed_safe n : Z.of_nat n < 2 ^ 63 → safe (alloc_zeroed n) (λ _, True).
Proof. intros H. apply safe_lift_res. by rewrite decide_True. Qed.

Lemma decode_plane_reads plane w h l :
  length plane = (w * h)%nat → (0 < w)%nat → (0 < h)%nat → Z.of_nat (w * h) < 2 ^ 63 → bytes_ok plane →
  ∃ out, encode_plane_heap plane w h = Ok out ∧ reads (decode_plane w h) (out ++ l) plane l.
Proof.
  intros Hl Hw Hh Hn Hb. unfold encode_plane_heap. rewrite encode_plane_Ok by done.
  eexists; split; [reflexivity|]. unfold decode_plane. rewrite decide_False by lia.
  eapply reads_bind; [by apply alloc_zeroed_reads|cbn beta].
  set (rows := (λ r, take w (drop (r * w) (deltas w plane))) <$> seq 0 h).
  assert (Hrows : length rows = h) by (subst rows; by rewrite length_fmap, length_seq).
  rewrite <-Hrows at 1. eapply reads_bind.
  { apply (decode_rows_reads w rows). apply Forall_fmap, Forall_forall.
    intros r Hr%elem_of_seq. cbn. rewrite length_take, length_drop, length_deltas, Hl. nia. }
  assert (mjoin rows = deltas w plane) as ->.
  { subst rows. rewrite mjoin_slices. apply take_ge. rewrite length_deltas, Hl. nia. }
  eapply reads_bind; [by apply alloc_zeroed_reads|cbn beta]. apply reads_ret_eq. by apply undelta_deltas.
Qed.

(** ** Sizes *)

Lemma len_flush pb : len (LiteralBuf_flush pb).2 ≤ 2 * len pb.
Proof.
  unfold LiteralBuf_flush. pose proof (len_nonneg pb).
  destruct (Z.ltb_spec 0 (len pb)); cbn [snd]; rewrite ?len_app, ?len_cons, ?(@len_nil Z); lia.
Qed.

Lemma len_push_n n pb byte :
  len (push_n n pb byte).2 + 2 * len (push_n n pb byte).1 ≤ 2 * (len pb + Z.of_nat n).
Proof.
  revert pb. induction n as [|n IH]; intros pb; cbn [push_n].
  - cbn [fst snd]. rewrite (@len_nil Z). lia.
  - unfold LiteralBuf_push. destruct (len (pb ++ [byte]) =? 15).
    + pose proof (len_flush (pb ++ [byte])) as Hf. pose proof (flush_empty (pb ++ [byte])) as He.
      destruct (LiteralBuf_flush (pb ++ [byte])) as [pb1 o]. cbn in Hf, He. subst pb1.
      specialize (IH []). destruct (push_n n [] byte). cbn [fst snd] in *.
      autorewrite with len in *. lia.
    + specialize (IH (pb ++ [byte])). destruct (push_n n (pb ++ [byte]) byte). cbn [fst snd] in *.
      autorewrite with len in *. lia.
Qed.

Lemma len_emit_rest fuel byte remaining :
  len (emit_rest fuel byte remaining) ≤ 2 * Z.of_nat remaining.
Proof.
  revert remaining. induction fuel as [|fuel IH]; intros remaining; cbn [emit_rest].
  - rewrite (@len_nil Z). lia.
  - destruct (decide (remaining = 0%nat)); [rewrite (@len_nil Z); lia|].
    destruct (decide (3 ≤ remaining)%nat); autorewrite with len; [|lia].
    specialize (IH (remaining - remaining `min` 15)%nat). lia.
Qed.

Lemma len_encode_scanline_loop fuel pb l :
  len (encode_scanline_loop fuel pb l) ≤ 2 * (len pb + len l).
Proof.
  revert pb l. induction fuel as [|fuel IH]; intros pb l.
  - pose proof (len_flush pb). pose proof (len_nonneg l). cbn. lia.
  - cbn [encode_scanline_loop]. destruct l as [|byte rest].
    { pose proof (len_flush pb). pose proof (len_nonneg (@nil Z)). lia. }
    set (count := S (run_length byte rest)).
    destruct (run_length_spec byte rest) as [Hle _].
    assert (Hdrop : len (drop count (byte :: rest)) = len (byte :: rest) - Z.of_nat count).
    { unfold len. rewrite length_drop. cbn [length]. lia. }
    destruct (decide (count < 4)%nat).
    + pose proof (len_push_n count pb byte) as Hp. destruct (push_n count pb byte) as [pb1 o].
      cbn [fst snd] in *. specialize (IH pb1 (drop count (byte :: rest))). rewrite len_app. lia.
    + pose proof (len_flush pb) as Hp. pose proof (flush_empty pb) as He.
      destruct (LiteralBuf_flush pb) as [pb1 o]. cbn [fst snd] in *. subst pb1.
      specialize (IH [] (drop count (byte :: rest))). rewrite (@len_nil Z) in IH.
      rewrite len_cons in Hdrop. unfold emit_run. rewrite !len_app, !len_cons, (@len_nil Z).
      pose proof (len_emit_rest (count - 1 - (count - 1) `min` 15) byte (count - 1 - (count - 1) `min` 15)).
      lia.
Qed.

Lemma len_encode_rows (w : nat) rows :
  Forall (λ r : bytes, (length r ≤ w)%nat) rows →
  len (mjoin (encode_scanline_rle <$> rows)) ≤ 2 * Z.of_nat w * len rows.
Proof.
  induction 1 as [|row rows Hr _ IH]; [cbn; unfold len; cbn; lia|].
  change (len (encode_scanline_rle row ++ mjoin (encode_scanline_rle <$> rows))
    ≤ 2 * Z.of_nat w * len (row :: rows)). rewrite len_app, len_cons.
  assert (len (encode_scanline_rle row) ≤ 2 * len row).
  { pose proof (len_encode_scanline_loop (length row) [] row) as H.
    rewrite (@len_nil Z) in H. exact H. }
  unfold len in *. nia.
Qed.

Lemma len_encode_plane plane w h out :
  length plane = (w * h)%nat → (0 < h)%nat → encode_plane_heap plane w h = Ok out →
  len out ≤ 2 * Z.of_nat (w * h).
Proof.
  intros Hl Hh. unfold encode_plane_heap. rewrite encode_plane_Ok by done. intros [= <-].
  etrans; [apply (len_encode_rows w)|].
  - apply Forall_fmap, Forall_forall. intros r _. cbn. rewrite length_take. lia.
  - rewrite len_fmap. unfold len. rewrite length_seq. lia.
Qed.

(** ** Tiles *)

Definition pixel_bytes (p : Z * Z * Z * Z) : bytes := [p.1.1.1; p.1.1.2; p.1.2; p.2].
Definition clear_x (p : Z * Z * Z * Z) : Z * Z * Z * Z := (p.1, 0).
Definition pixel_ok (p : Z * Z * Z * Z) : Prop := bytes_ok (pixel_bytes p).

Lemma chunks_exact4_pixels px : chunks_exact4 (mjoin (pixel_bytes <$> px)) = px.
Proof. induction px as [|[[[b g] r] x] px IH]; [done|]. cbn. f_equal. exact IH. Qed.

Lemma fill_plane_pixels colour px :
  fill_plane colour (mjoin (pixel_bytes <$> px)) (length px) = colour <$> px.
Proof.
  unfold fill_plane. rewrite chunks_exact4_pixels, take_ge by (by rewrite length_fmap).
  rewrite length_fmap, Nat.sub_diag. apply app_nil_r.
Qed.

Lemma interleave_pixels px :
  interleave (red <$> px) (green <$> px) (blue <$> px) = mjoin (pixel_bytes <$> (clear_x <$> px)).
Proof. induction px as [|[[[b g] r] x] px IH]; [done|]. cbn. by rewrite IH. Qed.

Lemma length_pixels px : length (mjoin (pixel_bytes <$> px)) = (length px * 4)%nat.
Proof.
  induction px as [|p px IH]; [done|].
  change (length (pixel_bytes p ++ mjoin (pixel_bytes <$> px)) = (length (p :: px) * 4)%nat).
  rewrite length_app, IH. cbn. lia.
Qed.

Lemma plane_bytes_ok px :
  Forall pixel_ok px →
  bytes_ok (red <$> px) ∧ bytes_ok (green <$> px) ∧ bytes_ok (blue <$> px).
Proof.
  intros H. unfold bytes_ok. rewrite !Forall_fmap.
  split_and!; (eapply Forall_impl; [exact H|]); intros p Hp; unfold pixel_ok, pixel_bytes in Hp;
    rewrite !bytes_ok_cons in Hp; unfold compose, byte_ok, red, green, blue; tauto.
Qed.

Lemma rdp6_decode_encode px width height :
  Forall pixel_ok px → length px = (width * height)%nat → Z.of_nat (width * height) < 2 ^ 58 →
  ∃ out, encode (mjoin (pixel_bytes <$> px)) width height = Ok out
  ∧ decode out width height = Ok (mjoin (pixel_bytes <$> (clear_x <$> px)))
  ∧ len out ≤ 1 + 6 * Z.of_nat (width * height).
Proof.
  intros Hpx Hl Hsize. unfold encode, encode_to. destruct (decide (width * height = 0)%nat) as [H0|H0].
  - assert (px = []) as -> by (apply nil_length_inv; lia). eexists; split; [done|].
    split; [|rewrite len_cons, (@len_nil Z); lia].
    unfold decode. eapply (reads_run _ _ _ []); [done|]. unfold decode_from.
    assert (width = 0%nat ∨ height = 0%nat) by lia.
    eapply reads_bind; [apply read_u8_reads|]. cbn beta.
    eapply reads_bind; [by apply reject_if_reads|]. unfold decode_plane.
    rewrite !decide_True by done. repeat (eapply reads_bind; [apply reads_ret|]).
    eapply reads_bind; [apply alloc_zeroed_reads; lia|]. apply reads_ret_eq. cbn. rewrite H0. done.
  - rewrite <-Hl, !fill_plane_pixels. rewrite Hl.
    destruct (plane_bytes_ok px Hpx) as (Hr & Hg & Hb).
    assert (Hlp : ∀ f : Z * Z * Z * Z → Z, length (f <$> px) = (width * height)%nat)
      by (intros f; by rewrite length_fmap).
    assert (0 < width ∧ 0 < height)%nat as [Hw Hh] by lia.
    assert (Z.of_nat (width * height) < 2 ^ 63) as Hn by lia.
    destruct (decode_plane_reads (blue <$> px) width height [] (Hlp _) Hw Hh Hn Hb) as (bo & Eb & Rb).
    destruct (decode_plane_reads (green <$> px) width height (bo ++ []) (Hlp _) Hw Hh Hn Hg)
      as (go & Eg & Rg).
    destruct (decode_plane_reads (red <$> px) width height (go ++ bo ++ []) (Hlp _) Hw Hh Hn Hr)
      as (ro & Er & Rr).
    exists ([FORMAT_HEADER_RLE_NO_ALPHA_ARGB] ++ ro ++ go ++ bo).
    pose proof (len_encode_plane _ _ _ _ (Hlp red) Hh Er).
    pose proof (len_encode_plane _ _ _ _ (Hlp green) Hh Eg).
    pose proof (len_encode_plane _ _ _ _ (Hlp blue) Hh Eb).
    assert (Hlen : len ([FORMAT_HEADER_RLE_NO_ALPHA_ARGB] ++ ro ++ go ++ bo)
      ≤ 1 + 6 * Z.of_nat (width * height)).
    { rewrite !len_app, len_cons, (@len_nil Z). lia. }
    split_and!; [| |done].
    + destruct (decide (width * height ≤ MAX_STACK_PIXELS)%nat).
      * rewrite !encode_plane_stack_heap by done. by rewrite Er, Eg, Eb.
      * by rewrite Er, Eg, Eb.
    + unfold decode. eapply reads_run; [lia|]. unfold decode_from.
      eapply reads_bind; [apply read_u8_reads|]. cbn beta.
      eapply reads_bind; [by apply reject_if_reads|].
      rewrite <-(app_nil_r bo).
      eapply reads_bind; [exact Rr|]. eapply reads_bind; [exact Rg|].
      eapply reads_bind; [exact Rb|].
      eapply reads_bind; [apply alloc_zeroed_reads; lia|]. apply reads_ret_eq.
      rewrite interleave_pixels, take_ge.
      * rewrite length_pixels, length_fmap, Hl, Nat.sub_diag. apply app_nil_r.
      * rewrite length_pixels, length_fmap. lia.
Qed.

(** C18. RDP 6.0 planar compression: every tile of any width and height, with the
    planes on the stack or on the heap, decodes to the pixels that were encoded
    with the unused fourth byte of each pixel cleared; encoding never panics,
    and the stream is at most one header byte and twice the colour data. *)
Theorem rdp6_roundtrip px width height :
  Forall pixel_ok px → length px = (width * height)%nat → Z.of_nat (width * height) < 2 ^ 58 →
  ∃ out, encode (mjoin (pixel_bytes <$> px)) width height = Ok out
  ∧ decode out width height = Ok (mjoin (pixel_bytes <$> (clear_x <$> px)))
  ∧ len out ≤ 1 + 6 * Z.of_nat (width * height).
Proof. apply rdp6_decode_encode. Qed.

Lemma rdp6_roundtrip_witness :
  ∃ out, encode (mjoin (pixel_bytes <$> replicate 12 (10, 20, 30, 40))) 6 2 = Ok out
  ∧ decode out 6 2 = Ok (mjoin (replicate 12 [10; 20; 30; 0])).
Proof.
  destruct (rdp6_roundtrip (replicate 12 (10, 20, 30, 40)) 6 2) as (out & E & D & _).
  - apply Forall_replicate. repeat constructor; vm_compute; congruence.
  - reflexivity.
  - vm_compute. reflexivity.
  - exists out. split; [exact E|]. rewrite D. reflexivity.
Defined.

(** ** Decoding hostile streams *)

Lemma read_literals_safe w n last acc :
  (length acc ≤ w)%nat →
  safe (read_literals w n last acc) (λ p, length p.2 = (length acc + n)%nat ∧ (length p.2 ≤ w)%nat).
Proof.
  revert last acc. induction n as [|n IH]; intros last acc Hw; cbn [read_literals].
  - apply safe_ret. cbn. lia.
  - case_decide; [apply safe_fail|]. eapply safe_bind; [apply read_u8_safe|]. intros b _.
    eapply safe_weaken; [apply IH; rewrite length_app; cbn; lia|].
    intros p. rewrite length_app. cbn. lia.
Qed.

Lemma repeat_last_safe w n last acc :
  (length acc ≤ w)%nat →
  safe (repeat_last w n last acc) (λ r, length r = (length acc + n)%nat ∧ (length r ≤ w)%nat).
Proof.
  revert acc. induction n as [|n IH]; intros acc Hw; cbn [repeat_last].
  - apply safe_ret. lia.
  - case_decide; [apply safe_fail|].
    eapply safe_weaken; [apply IH; rewrite length_app; cbn; lia|].
    intros r. rewrite length_app. cbn. lia.
Qed.

Lemma segment_progress control :
  u8_ok control → control ≠ 0 →
  let upper := Z.shiftr control 4 in
  let rle_field := Z.land control 0x0F in
  0 ≤ upper ∧ 0 ≤ rle_field ∧ 0 < upper + rle_field.
Proof.
  intros Hc H0 upper rle_field.
  assert (control = 16 * upper + rle_field ∧ 0 ≤ rle_field < 16) as [E Hr].
  { subst upper rle_field. rewrite Z.shiftr_div_pow2 by lia. change 0x0F with (Z.ones 4).
    rewrite Z.land_ones by lia. change (2 ^ 4) with 16. Z.to_euclidean_division_equations; lia. }
  lia.
Qed.

Lemma decode_segment_safe w last acc :
  (length acc < w)%nat →
  safe (decode_segment w last acc) (λ p, (length acc < length p.2)%nat ∧ (length p.2 ≤ w)%nat).
Proof.
  intros Hw. eapply safe_bind; [apply read_u8_safe|]. intros control Hc. cbn beta zeta.
  destruct (Z.eqb_spec control 0) as [|H0]; [apply safe_fail|].
  destruct (segment_progress control Hc H0) as (Hu & Hr & Hp).
  set (upper := Z.shiftr control 4) in *. set (rle_field := Z.land control 0x0F) in *.
  set (counts := if rle_field =? 1 then (16 + upper, 0) else if rle_field =? 2 then (32 + upper, 0)
                 else (rle_field, upper)).
  assert (0 ≤ counts.1 ∧ 0 ≤ counts.2 ∧ 0 < counts.1 + counts.2) as (H1 & H2 & H12).
  { subst counts. repeat case_match; cbn; lia. }
  destruct counts as [run_length literal_count]. cbn [fst snd] in *.
  eapply safe_bind; [apply read_literals_safe; lia|]. intros [last' acc'] [Hl Hl']. cbn [snd] in *.
  eapply safe_bind; [by apply repeat_last_safe|]. intros r [Hr1 Hr2]. apply safe_ret. cbn. lia.
Qed.

(** The loop ends within [w] turns. *)
Lemma decode_scanline_loop_safe w fuel : ∀ last acc,
  (length acc ≤ w)%nat → (w - length acc ≤ fuel)%nat →
  safe (decode_scanline_loop w fuel last acc) (λ r, length r = w).
Proof.
  induction fuel as [|fuel IH]; intros last acc Hw Hf; cbn [decode_scanline_loop];
    (case_decide; [apply safe_ret; lia|]); [lia|].
  eapply safe_bind; [apply decode_segment_safe; lia|]. intros [last' acc'] [H1 H2]. cbn [snd] in *.
  apply IH; lia.
Qed.

Lemma decode_scanline_rle_safe w : safe (decode_scanline_rle w) (λ r, length r = w).
Proof. apply decode_scanline_loop_safe; cbn; lia. Qed.

Lemma decode_rows_safe w n : safe (decode_rows w n) (λ r, length r = (n * w)%nat).
Proof.
  induction n as [|n IH]; [by apply safe_ret|]. eapply safe_bind; [apply decode_scanline_rle_safe|].
  intros row Hrow. eapply safe_bind; [exact IH|]. intros rows Hrows. apply safe_ret.
  by rewrite length_app, Hrow, Hrows.
Qed.

Lemma length_undelta w l acc : length (foldl (undelta_step w) acc l) = (length acc + length l)%nat.
Proof.
  revert acc. induction l as [|d l IH]; intros acc; cbn [foldl]; [cbn; lia|].
  rewrite IH. unfold undelta_step. rewrite length_app. cbn. lia.
Qed.

Lemma decode_plane_safe w h : Z.of_nat (w * h) < 2 ^ 63 → safe (decode_plane w h) (λ r, length r = (w * h)%nat).
Proof.
  intros Hn. unfold decode_plane. case_decide; [apply safe_ret; cbn; lia|].
  eapply safe_bind; [by apply alloc_zeroed_safe|]. intros _ _.
  eapply safe_bind; [apply decode_rows_safe|]. intros delta Hd.
  eapply safe_bind; [by apply alloc_zeroed_safe|]. intros _ _. apply safe_ret.
  cbn beta in Hd. rewrite length_undelta, length_take, length_drop. rewrite (Nat.mul_comm w h). assert (w ≤ h * w)%nat by nia. lia.
Qed.

(** C33. The planar decoder on arbitrary bytes, for any width and height whose tile has less than
    2^63 bytes (all that a rectangle of 16-bit sides can have, and what a [Vec] can hold): it ends,
    never panics, never writes outside a scanline, and whatever it accepts is a tile of exactly
    [width * height] four-byte pixels. *)
Theorem rdp6_decode_safe data width height :
  bytes_ok data → len data < 2 ^ 63 → Z.of_nat (width * height * 4) < 2 ^ 63 →
  match decode data width height with
  | Ok tile => length tile = (width * height * 4)%nat
  | Err _ => True
  | Panic => False
  end.
Proof.
  intros Hd Hlen Hn. revert Hd Hlen. apply safe_run. eapply safe_bind; [apply read_u8_safe|]. intros header _.
  eapply safe_bind; [apply reject_if_safe|]. intros _ _.
  eapply safe_bind; [apply decode_plane_safe; lia|]. intros r Hr.
  eapply safe_bind; [apply decode_plane_safe; lia|]. intros g Hg.
  eapply safe_bind; [apply decode_plane_safe; lia|]. intros b Hb.
  eapply safe_bind; [by apply alloc_zeroed_safe|]. intros _ _.
  apply safe_ret. rewrite length_app, length_replicate, length_take. lia.
Qed.

Lemma rdp6_decode_safe_witness :
  bytes_ok [0x30; 0x13; 7; 0]
  ∧ match decode [0x30; 0x13; 7; 0] 4 1 with
    | Ok tile => length tile = (4 * 1 * 4)%nat | Err _ => True | Panic => False end.
Proof.
  assert (Hb : bytes_ok [0x30; 0x13; 7; 0]) by (repeat constructor; vm_compute; congruence).
  split; [exact Hb|]. exact (rdp6_decode_safe [0x30; 0x13; 7; 0] 4 1 Hb eq_refl eq_refl).
Defined.

(** A tile of 2^63 pixels or more panics at its first plane. *)
Lemma decode_plane_overflows (w h : nat) c :
  2 ^ 63 ≤ Z.of_nat (w * h) → decode_plane w h c = Panic.
Proof.
  intros H. unfold decode_plane. rewrite decide_False by lia. unfold alloc_zeroed.
  by rewrite decide_False by lia.
Qed.
