(* ===== verification/Diff.v ===== *)
(** [rdpcore-server/src/diff.rs]: the changed regions between two frames, found
    by comparing 64x64 tiles and merging dirty tiles into rectangles. *)
From S2P Require Import Prelude.

Definition TILE_SIZE : Z := 64.

(** ** Data *)

Record Rect := { rect_x : Z; rect_y : Z; rect_width : Z; rect_height : Z }.

Definition Rect_new (x y width height : Z) : Rect :=
  {| rect_x := x; rect_y := y; rect_width := width; rect_height := height |}.

Definition saturating_mul (a b : Z) : Z := Z.min (a * b) USIZE_MAX.

(** [slice.get(a..b)] *)
Definition get_range (l : bytes) (a b : Z) : option bytes :=
  if decide (0 ≤ a ≤ b ∧ b ≤ len l) then Some (ztake (b - a) (zdrop a l)) else None.

(** [range.all(p)] and [range.any(p)] over [a..a + n]. *)
Fixpoint range_all (n : nat) (a : Z) (p : Z → bool) : bool :=
  match n with O => true | S n => p a && range_all n (a + 1) p end.
Fixpoint range_any (n : nat) (a : Z) (p : Z → bool) : bool :=
  match n with O => false | S n => p a || range_any n (a + 1) p end.

(** ** Comparisons *)

Definition visible_pixels_equal (image1 : bytes) (stride1 : Z) (image2 : bytes) (stride2 : Z)
    (width height bpp : Z) : bool :=
  let row_bytes := saturating_mul width bpp in
  if row_bytes =? 0 then true
  else if (stride1 =? stride2) && (stride1 =? row_bytes) then
    let needed := saturating_mul height row_bytes in
    (needed <=? len image1) && (needed <=? len image2)
    && bool_decide (ztake needed image1 = ztake needed image2)
  else
    range_all (Z.to_nat height) 0 (λ row,
      let start1 := saturating_mul row stride1 in
      let start2 := saturating_mul row stride2 in
      match get_range image1 start1 (saturating_add_usize start1 row_bytes),
            get_range image2 start2 (saturating_add_usize start2 row_bytes) with
      | Some a, Some b => bool_decide (a = b)
      | _, _ => false
      end).

Definition tile_differs (image1 : bytes) (stride1 : Z) (image2 : bytes) (stride2 : Z)
    (bpp : Z) (tile : Rect) : bool :=
  range_any (Z.to_nat (rect_height tile)) (rect_y tile) (λ row,
    let start1 := row * stride1 + rect_x tile * bpp in
    let end1 := start1 + rect_width tile * bpp in
    let start2 := row * stride2 + rect_x tile * bpp in
    let end2 := start2 + rect_width tile * bpp in
    match get_range image1 start1 end1, get_range image2 start2 end2 with
    | Some a, Some b => negb (bool_decide (a = b))
    | _, _ => true
    end).

(** ** The bit set *)

Record SmallBitSet := { inline : list Z; heap : list Z }.

Definition SmallBitSet_new (n : Z) : SmallBitSet :=
  let words := div_ceil n 64 in
  if words <=? 128 then {| inline := replicate 128 0; heap := [] |}
  else {| inline := replicate 128 0; heap := replicate (Z.to_nat words) 0 |}.

Abbreviation outcome := (res Empty_set).

(** [words[i]] *)
Definition word_at (ws : list Z) (i : Z) : outcome Z :=
  match ws !! Z.to_nat i with Some w => Ok w | None => Panic end.

Definition SmallBitSet_get (b : SmallBitSet) (idx : Z) : outcome bool :=
  let word_idx := idx / 64 in
  let bit_idx := idx mod 64 in
  w ← word_at (if bool_decide (heap b = []) then inline b else heap b) word_idx;
  Ok (negb (Z.land w (Z.shiftl 1 bit_idx) =? 0)).

(** [!x] on a [u64] is [2^64 - 1 - x]. *)
Definition set_bit (w bit_idx : Z) (v : bool) : Z :=
  if v then Z.lor w (Z.shiftl 1 bit_idx)
  else Z.land w (2 ^ 64 - 1 - Z.shiftl 1 bit_idx).

Definition SmallBitSet_set (b : SmallBitSet) (idx : Z) (v : bool) : outcome SmallBitSet :=
  let word_idx := idx / 64 in
  let bit_idx := idx mod 64 in
  if bool_decide (heap b = []) then
    w ← word_at (inline b) word_idx;
    Ok {| inline := <[Z.to_nat word_idx := set_bit w bit_idx v]> (inline b); heap := heap b |}
  else
    w ← word_at (heap b) word_idx;
    Ok {| inline := inline b; heap := <[Z.to_nat word_idx := set_bit w bit_idx v]> (heap b) |}.

(** ** The search *)

(** [for i in a..a + n { s = f(i, s) }] *)
Fixpoint for_range {S} (n : nat) (a : Z) (f : Z → S → outcome S) (s : S) : outcome S :=
  match n with
  | O => Ok s
  | Datatypes.S n => s ← f a s; for_range n (a + 1) f s
  end.

Section find.
Context (image1 : bytes) (stride1 : Z) (image2 : bytes) (stride2 : Z) (width height bpp : Z).

Definition tiles_x : Z := div_ceil width TILE_SIZE.
Definition tiles_y : Z := div_ceil height TILE_SIZE.
Definition total : Z := tiles_x * tiles_y.

Definition tile_at (tx ty : Z) : Rect :=
  Rect_new (tx * TILE_SIZE) (ty * TILE_SIZE)
    (Z.min TILE_SIZE (width - tx * TILE_SIZE)) (Z.min TILE_SIZE (height - ty * TILE_SIZE)).

(** The two nested loops that fill [dirty]. *)
Definition fill_dirty (dirty : SmallBitSet) : outcome SmallBitSet :=
  for_range (Z.to_nat tiles_y) 0 (λ ty dirty,
    for_range (Z.to_nat tiles_x) 0 (λ tx dirty,
      SmallBitSet_set dirty (ty * tiles_x + tx)
        (tile_differs image1 stride1 image2 stride2 bpp (tile_at tx ty))) dirty) dirty.

(** [while start_x + run_width < tiles_x && dirty.get(idx + run_width)] *)
Fixpoint grow_width (fuel : nat) (dirty : SmallBitSet) (idx start_x run_width : Z) : outcome Z :=
  match fuel with
  | O => Panic
  | S fuel =>
    if start_x + run_width <? tiles_x then
      d ← SmallBitSet_get dirty (idx + run_width);
      if (d : bool) then grow_width fuel dirty idx start_x (run_width + 1) else Ok run_width
    else Ok run_width
  end.

(** The inner [for x in 0..run_width] of ['grow]: is the whole row dirty? *)
Fixpoint row_dirty (n : nat) (dirty : SmallBitSet) (first x : Z) : outcome bool :=
  match n with
  | O => Ok true
  | S n =>
    d ← SmallBitSet_get dirty (first + x);
    if (d : bool) then row_dirty n dirty first (x + 1) else Ok false
  end.

Fixpoint grow_height (fuel : nat) (dirty : SmallBitSet) (start_x start_y run_width run_height : Z)
  : outcome Z :=
  match fuel with
  | O => Panic
  | S fuel =>
    if start_y + run_height <? tiles_y then
      d ← row_dirty (Z.to_nat run_width) dirty ((start_y + run_height) * tiles_x + start_x) 0;
      if (d : bool) then grow_height fuel dirty start_x start_y run_width (run_height + 1)
      else Ok run_height
    else Ok run_height
  end.

Definition pixel_width (start_x run_width : Z) : Z :=
  let mod_width := width mod TILE_SIZE in
  if (start_x + run_width =? tiles_x) && (0 <? mod_width) then
    (run_width - 1) * TILE_SIZE + mod_width
  else run_width * TILE_SIZE.
Definition pixel_height (start_y run_height : Z) : Z :=
  let mod_height := height mod TILE_SIZE in
  if (start_y + run_height =? tiles_y) && (0 <? mod_height) then
    (run_height - 1) * TILE_SIZE + mod_height
  else run_height * TILE_SIZE.

(** Clearing the tiles of a rectangle. *)
Definition clear_tiles (dirty : SmallBitSet) (start_x start_y run_width run_height : Z)
  : outcome SmallBitSet :=
  for_range (Z.to_nat run_height) 0 (λ y dirty,
    for_range (Z.to_nat run_width) 0 (λ x dirty,
      SmallBitSet_set dirty ((start_y + y) * tiles_x + start_x + x) false) dirty) dirty.

(** [while idx < total]: every turn advances [idx], so [total] turns are enough;
    running out of fuel counts as a panic. *)
Fixpoint find_loop (fuel : nat) (dirty : SmallBitSet) (rects : list Rect) (idx : Z)
  : outcome (list Rect) :=
  if total <=? idx then Ok rects
  else match fuel with
  | O => Panic
  | S fuel =>
    d ← SmallBitSet_get dirty idx;
    if negb d then find_loop fuel dirty rects (idx + 1)
    else
      let start_y := idx / tiles_x in
      let start_x := idx mod tiles_x in
      run_width ← grow_width (Z.to_nat tiles_x) dirty idx start_x 1;
      run_height ← grow_height (Z.to_nat tiles_y) dirty start_x start_y run_width 1;
      let rects := rects ++ [Rect_new (start_x * TILE_SIZE) (start_y * TILE_SIZE)
                               (pixel_width start_x run_width) (pixel_height start_y run_height)] in
      dirty ← clear_tiles dirty start_x start_y run_width run_height;
      find_loop fuel dirty rects (idx + run_width)
  end.

Definition find_dirty_rects : outcome (list Rect) :=
  if (width =? 0) || (height =? 0) then Ok []
  else if visible_pixels_equal image1 stride1 image2 stride2 width height bpp then Ok []
  else
    dirty ← fill_dirty (SmallBitSet_new total);
    find_loop (Z.to_nat total) dirty [] 0.
End find.

(** ** The bit set as a set *)

Definition words (b : SmallBitSet) : list Z :=
  if bool_decide (heap b = []) then inline b else heap b.

Definition bits (b : SmallBitSet) (i : Z) : bool :=
  match words b !! Z.to_nat (i / 64) with Some w => Z.testbit w (i mod 64) | None => false end.

(** Every index below [n] has a word. *)
Definition bs_ok (n : Z) (b : SmallBitSet) : Prop := n ≤ 64 * len (words b).

Lemma word_lookup n b i :
  bs_ok n b → 0 ≤ i < n → ∃ w, words b !! Z.to_nat (i / 64) = Some w.
Proof.
  intros Hok Hi. apply lookup_lt_is_Some_2. unfold bs_ok, len in Hok.
  assert (i / 64 < Z.of_nat (length (words b))) by (Z.to_euclidean_division_equations; lia).
  lia.
Qed.

Lemma mod64_range i : 0 ≤ i mod 64 < 64.
Proof. apply Z.mod_pos_bound. lia. Qed.

Lemma testbit_land_bit w k : 0 ≤ k → negb (Z.land w (Z.shiftl 1 k) =? 0) = Z.testbit w k.
Proof.
  intros Hk. rewrite Z.shiftl_1_l. destruct (Z.eqb_spec (Z.land w (2 ^ k)) 0) as [E|E]; cbn.
  - apply (f_equal (λ z, Z.testbit z k)) in E.
    rewrite Z.land_spec, Z.pow2_bits_true, andb_true_r, Z.bits_0 in E by done. done.
  - symmetry. apply not_false_iff_true. intros Hf. apply E. apply Z.bits_inj'. intros j Hj.
    rewrite Z.land_spec, Z.bits_0, Z.pow2_bits_eqb by done.
    destruct (Z.eqb_spec k j) as [->|]; [by rewrite Hf|apply andb_false_r].
Qed.

Lemma SmallBitSet_get_spec n b i :
  bs_ok n b → 0 ≤ i < n → SmallBitSet_get b i = Ok (bits b i).
Proof.
  intros Hok Hi. destruct (word_lookup n b i Hok Hi) as [w Hw].
  unfold SmallBitSet_get, word_at, bits. fold (words b). rewrite Hw. cbn. f_equal.
  apply testbit_land_bit. apply mod64_range.
Qed.

Lemma set_bit_spec w k v j :
  0 ≤ k < 64 → 0 ≤ j < 64 →
  Z.testbit (set_bit w k v) j = if decide (j = k) then v else Z.testbit w j.
Proof.
  intros Hk Hj. unfold set_bit. rewrite Z.shiftl_1_l. destruct v.
  - rewrite Z.lor_spec, Z.pow2_bits_eqb by lia. case_decide as E.
    + subst. by rewrite Z.eqb_refl, orb_true_r.
    + assert (k =? j = false) as -> by lia. apply orb_false_r.
  - change (2 ^ 64 - 1) with (Z.ones 64).
    replace (Z.ones 64 - 2 ^ k) with (Z.ldiff (Z.ones 64) (2 ^ k)).
    + rewrite Z.land_spec, Z.ldiff_spec, Z.ones_spec_low, Z.pow2_bits_eqb by lia. case_decide as E.
      * subst. by rewrite Z.eqb_refl, andb_false_r.
      * assert (k =? j = false) as -> by lia. apply andb_true_r.
    + symmetry. apply Z.sub_nocarry_ldiff. apply Z.bits_inj'. intros i Hi.
      rewrite Z.ldiff_spec, Z.bits_0, Z.pow2_bits_eqb by lia.
      destruct (Z.eqb_spec k i) as [->|]; [|done]. by rewrite Z.ones_spec_low by lia.
Qed.

Lemma index_word i j :
  0 ≤ i → 0 ≤ j → Z.to_nat (i / 64) = Z.to_nat (j / 64) → i mod 64 = j mod 64 → i = j.
Proof. intros Hi Hj Hd Hm. Z.to_euclidean_division_equations; lia. Qed.

Lemma SmallBitSet_set_spec n b i v :
  bs_ok n b → 0 ≤ i < n →
  ∃ b', SmallBitSet_set b i v = Ok b' ∧ bs_ok n b'
  ∧ ∀ j, 0 ≤ j → bits b' j = if decide (j = i) then v else bits b j.
Proof.
  intros Hok Hi. destruct (word_lookup n b i Hok Hi) as [w Hw].
  assert (∃ b', SmallBitSet_set b i v = Ok b'
    ∧ words b' = <[Z.to_nat (i / 64) := set_bit w (i mod 64) v]> (words b)) as (b' & E & Hb').
  { unfold SmallBitSet_set, word_at, words in *. case_bool_decide as Hh; rewrite Hw; cbn.
    - eexists; split; [done|]. cbn. by rewrite bool_decide_eq_true_2.
    - eexists; split; [done|]. cbn. rewrite bool_decide_eq_false_2; [done|].
      intros E%(f_equal length). rewrite length_insert in E. by destruct (heap b). }
  exists b'. split_and!; [done| |].
  - unfold bs_ok. rewrite Hb'. unfold len. rewrite length_insert. exact Hok.
  - intros j Hj. unfold bits. rewrite Hb'.
    destruct (decide (Z.to_nat (i / 64) = Z.to_nat (j / 64))) as [Eq|Ne].
    + rewrite <-Eq, list_lookup_insert_eq by (by eapply lookup_lt_Some). rewrite Hw.
      rewrite set_bit_spec by apply mod64_range. case_decide as E1; case_decide as E2; try done.
      * exfalso. apply E2. apply index_word; done || lia.
      * subst. done.
    + rewrite list_lookup_insert_ne by done. case_decide as E2; [|done]. by subst.
Qed.

Lemma SmallBitSet_new_spec n :
  0 ≤ n → bs_ok n (SmallBitSet_new n) ∧ ∀ j, bits (SmallBitSet_new n) j = false.
Proof.
  intros Hn.
  assert (∃ m, words (SmallBitSet_new n) = replicate m 0 ∧ n ≤ 64 * Z.of_nat m) as (m & E & Hm).
  { unfold SmallBitSet_new, div_ceil. destruct (Z.leb_spec ((n + 64 - 1) / 64) 128) as [Hs|Hb].
    - exists 128%nat. split; [done|]. Z.to_euclidean_division_equations; lia.
    - exists (Z.to_nat ((n + 64 - 1) / 64)). unfold words. cbn [heap inline]. split.
      + rewrite bool_decide_eq_false_2; [done|]. intros E%(f_equal length).
        rewrite length_replicate in E. cbn in E. lia.
      + rewrite Z2Nat.id by lia. Z.to_euclidean_division_equations; lia. }
  split.
  - unfold bs_ok. rewrite E, len_replicate. done.
  - intros j. unfold bits. rewrite E. destruct (_ !! _) as [w|] eqn:Hw; [|done].
    apply lookup_replicate in Hw as [-> _]. apply Z.bits_0.
Qed.

(** ** Loops *)

Lemma for_range_ind {S} (P : Z → S → Prop) n a f s :
  P a s → (∀ i s, a ≤ i < a + Z.of_nat n → P i s → ∃ s', f i s = Ok s' ∧ P (i + 1) s') →
  ∃ s', for_range n a f s = Ok s' ∧ P (a + Z.of_nat n) s'.
Proof.
  revert a s. induction n as [|n IH]; intros a s Hs Hstep.
  - exists s. split; [done|]. by rewrite Z.add_0_r.
  - destruct (Hstep a s) as (s1 & E & Hs1); [lia|done|]. cbn. rewrite E. cbn.
    replace (a + Z.of_nat (Datatypes.S n)) with (a + 1 + Z.of_nat n) by lia.
    apply IH; [done|]. intros i s2 Hi. apply Hstep. lia.
Qed.

(** ** The search, on tiles *)

Section find_proofs.
Context (image1 : bytes) (stride1 : Z) (image2 : bytes) (stride2 : Z) (width height bpp : Z).
Hypotheses (Hwidth : 0 < width) (Hheight : 0 < height).

Abbreviation T := (tiles_x width).
Abbreviation N := (tiles_y height).
Abbreviation total := (total width height).

Lemma tiles_x_pos : 0 < T.
Proof. unfold tiles_x, div_ceil, TILE_SIZE. Z.to_euclidean_division_equations; lia. Qed.
Lemma tiles_y_pos : 0 < N.
Proof. unfold tiles_y, div_ceil, TILE_SIZE. Z.to_euclidean_division_equations; lia. Qed.

(** Tile [(tx, ty)] has index [ty * T + tx]. *)
Lemma index_range tx ty : 0 ≤ tx < T → 0 ≤ ty < N → 0 ≤ ty * T + tx < total.
Proof. intros. unfold total. nia. Qed.

Lemma index_inv i : 0 ≤ i < total → 0 ≤ i mod T < T ∧ 0 ≤ i / T < N ∧ i = i / T * T + i mod T.
Proof.
  pose proof tiles_x_pos. intros Hi. unfold total in Hi.
  split_and!; try (apply Z.mod_pos_bound; lia).
  - apply Z.div_pos; lia.
  - apply Z.div_lt_upper_bound; lia.
  - rewrite (Z.mul_comm (i / T)). apply Z.div_mod. lia.
Qed.

Lemma index_div tx ty : 0 ≤ tx < T → (ty * T + tx) / T = ty ∧ (ty * T + tx) mod T = tx.
Proof.
  intros Htx. split.
  - rewrite Z.add_comm, Z.div_add, Z.div_small by lia. lia.
  - rewrite Z.add_comm, Z.mod_add, Z.mod_small by lia. lia.
Qed.

(** The tile of index [i] differs. *)
Definition differs (i : Z) : bool :=
  tile_differs image1 stride1 image2 stride2 bpp (tile_at width height (i mod T) (i / T)).

Lemma fill_dirty_spec :
  ∃ d, fill_dirty image1 stride1 image2 stride2 width height bpp (SmallBitSet_new total) = Ok d
  ∧ bs_ok total d ∧ ∀ i, 0 ≤ i < total → bits d i = differs i.
Proof.
  pose proof tiles_x_pos. pose proof tiles_y_pos.
  assert (0 ≤ total) as Ht by (unfold total; nia).
  destruct (SmallBitSet_new_spec total Ht) as [Hok0 Hb0].
  set (P n d := bs_ok total d
    ∧ ∀ i, 0 ≤ i < total → bits d i = if decide (i < n) then differs i else false).
  destruct (for_range_ind (λ ty d, P (ty * T) d) (Z.to_nat N) 0
    (λ ty dirty, for_range (Z.to_nat T) 0 (λ tx dirty,
      SmallBitSet_set dirty (ty * T + tx)
        (tile_differs image1 stride1 image2 stride2 bpp (tile_at width height tx ty))) dirty)
    (SmallBitSet_new total)) as (d & E & Hok & Hd).
  - split; [done|]. intros i Hi. rewrite Hb0. case_decide; [lia|done].
  - rewrite Z2Nat.id by lia. intros ty d Hty Hd.
    destruct (for_range_ind (λ tx d, P (ty * T + tx) d) (Z.to_nat T) 0
      (λ tx dirty, SmallBitSet_set dirty (ty * T + tx)
        (tile_differs image1 stride1 image2 stride2 bpp (tile_at width height tx ty))) d)
      as (d' & E & Hd').
    + by rewrite Z.add_0_r.
    + rewrite Z2Nat.id by lia. intros tx d1 Htx [Hok1 Hb1].
      destruct (SmallBitSet_set_spec total d1 (ty * T + tx)
        (tile_differs image1 stride1 image2 stride2 bpp (tile_at width height tx ty)))
        as (d2 & E2 & Hok2 & Hb2); [done|apply (index_range tx ty); lia|].
      exists d2. split; [done|]. split; [done|]. intros i Hi. rewrite Hb2 by lia. case_decide as Ei.
      * subst i. rewrite decide_True by lia. unfold differs.
        destruct (index_div tx ty) as [-> ->]; [lia|done].
      * rewrite Hb1 by done. repeat case_decide; done || lia.
    + exists d'. split; [done|]. rewrite Z2Nat.id in Hd' by lia.
      by replace ((ty + 1) * T) with (ty * T + (0 + T)) by lia.
  - exists d. split_and!; [exact E|done|]. intros i Hi. rewrite Hd by done.
    rewrite Z2Nat.id by lia. rewrite decide_True; [done|]. unfold total in Hi. lia.
Qed.

Lemma grow_width_spec fuel d idx sx rw :
  bs_ok total d → 0 ≤ sx → 1 ≤ rw → sx + rw ≤ T → (T - (sx + rw) < Z.of_nat fuel) →
  0 ≤ idx → idx + (T - sx) ≤ total →
  (∀ k, 0 ≤ k < rw → bits d (idx + k) = true) →
  ∃ rw', grow_width width fuel d idx sx rw = Ok rw' ∧ 1 ≤ rw' ∧ sx + rw' ≤ T
  ∧ ∀ k, 0 ≤ k < rw' → bits d (idx + k) = true.
Proof.
  intros Hok Hsx. revert rw. induction fuel as [|fuel IH]; intros rw Hrw Hle Hf Hidx Htot Hall; [lia|].
  cbn [grow_width]. destruct (Z.ltb_spec (sx + rw) T); [|by exists rw].
  rewrite (SmallBitSet_get_spec total) by (done || lia). cbn.
  destruct (bits d (idx + rw)) eqn:Hb; [|by exists rw].
  apply IH; try done; try lia. intros k Hk. destruct (decide (k = rw)) as [->|]; [done|].
  apply Hall. lia.
Qed.

Lemma row_dirty_spec n d first x :
  bs_ok total d → 0 ≤ first + x → first + x + Z.of_nat n ≤ total →
  ∃ b, row_dirty n d first x = Ok b
  ∧ (b = true → ∀ k, x ≤ k < x + Z.of_nat n → bits d (first + k) = true).
Proof.
  intros Hok. revert x. induction n as [|n IH]; intros x Hx Hn; cbn [row_dirty].
  - exists true. split; [done|]. lia.
  - rewrite (SmallBitSet_get_spec total) by (done || lia). cbn.
    destruct (bits d (first + x)) eqn:Hb; [|by exists false].
    destruct (IH (x + 1)) as (b & E & Hall); [lia..|]. exists b. split; [done|].
    intros Hbt k Hk. destruct (decide (k = x)) as [->|]; [done|]. apply Hall; [done|lia].
Qed.

Lemma grow_height_spec fuel d sx sy rw rh :
  bs_ok total d → 0 ≤ sx → 1 ≤ rw → sx + rw ≤ T → 0 ≤ sy → 1 ≤ rh → sy + rh ≤ N →
  (N - (sy + rh) < Z.of_nat fuel) →
  (∀ y k, 0 ≤ y < rh → 0 ≤ k < rw → bits d ((sy + y) * T + sx + k) = true) →
  ∃ rh', grow_height width height fuel d sx sy rw rh = Ok rh' ∧ 1 ≤ rh' ∧ sy + rh' ≤ N
  ∧ ∀ y k, 0 ≤ y < rh' → 0 ≤ k < rw → bits d ((sy + y) * T + sx + k) = true.
Proof.
  intros Hok Hsx Hrw Hw Hsy. revert rh. pose proof tiles_x_pos.
  induction fuel as [|fuel IH]; intros rh Hrh Hle Hf Hall; [lia|].
  cbn [grow_height]. destruct (Z.ltb_spec (sy + rh) N); [|by exists rh].
  pose proof (index_range sx (sy + rh) ltac:(lia) ltac:(lia)).
  pose proof (index_range (sx + rw - 1) (sy + rh) ltac:(lia) ltac:(lia)).
  destruct (row_dirty_spec (Z.to_nat rw) d ((sy + rh) * T + sx) 0) as (b & -> & Hb);
    [done|lia|rewrite Z2Nat.id by lia; lia|].
  cbn. destruct b; [|by exists rh]. apply IH; try lia. intros y k Hy Hk.
  destruct (decide (y = rh)) as [->|]; [apply Hb; lia|apply Hall; lia].
Qed.

(** A rectangle of tiles. *)
Record tile_rect := { t_x : Z; t_y : Z; t_w : Z; t_h : Z }.
Definition in_tiles (r : tile_rect) (tx ty : Z) : bool :=
  (t_x r <=? tx) && (tx <? t_x r + t_w r) && (t_y r <=? ty) && (ty <? t_y r + t_h r).
Definition covers (r : tile_rect) (i : Z) : bool := in_tiles r (i mod T) (i / T).
Definition tile_rect_ok (r : tile_rect) : Prop :=
  0 ≤ t_x r ∧ 1 ≤ t_w r ∧ t_x r + t_w r ≤ T ∧ 0 ≤ t_y r ∧ 1 ≤ t_h r ∧ t_y r + t_h r ≤ N.

Lemma in_tiles_spec r tx ty :
  in_tiles r tx ty = true ↔ t_x r ≤ tx < t_x r + t_w r ∧ t_y r ≤ ty < t_y r + t_h r.
Proof. unfold in_tiles. rewrite !andb_true_iff, !Z.leb_le, !Z.ltb_lt. tauto. Qed.

Lemma clear_tiles_spec d r :
  bs_ok total d → tile_rect_ok r →
  ∃ d', clear_tiles width d (t_x r) (t_y r) (t_w r) (t_h r) = Ok d' ∧ bs_ok total d'
  ∧ ∀ i, 0 ≤ i < total → bits d' i = bits d i && negb (covers r i).
Proof.
  intros Hok (Hx & Hw & HxT & Hy & Hh & HyN). pose proof tiles_x_pos.
  set (P (y x : Z) d' := bs_ok total d' ∧ ∀ i, 0 ≤ i < total →
    bits d' i = bits d i
      && negb (covers {| t_x := t_x r; t_y := t_y r; t_w := t_w r; t_h := y |} i)
      && negb (covers {| t_x := t_x r; t_y := t_y r + y; t_w := x; t_h := 1 |} i)).
  destruct (for_range_ind (λ y d', P y 0 d') (Z.to_nat (t_h r)) 0
    (λ y dirty, for_range (Z.to_nat (t_w r)) 0 (λ x dirty,
      SmallBitSet_set dirty ((t_y r + y) * T + t_x r + x) false) dirty) d) as (d' & E & Hok' & Hd').
  - split; [done|]. intros i Hi. unfold covers, in_tiles; cbn.
    destruct (bits d i); cbn; [|done]. symmetry. rewrite !andb_true_iff, !negb_true_iff.
    rewrite !andb_false_iff, !Z.ltb_ge, !Z.leb_gt. split; lia.
  - rewrite Z2Nat.id by lia. intros y d1 Hyr Hd1.
    destruct (for_range_ind (λ x d', P y x d') (Z.to_nat (t_w r)) 0
      (λ x dirty, SmallBitSet_set dirty ((t_y r + y) * T + t_x r + x) false) d1)
      as (d2 & E & Hok2 & Hd2); [done| |].
    + rewrite Z2Nat.id by lia. intros x d3 Hxr [Hok3 Hd3].
      destruct (SmallBitSet_set_spec total d3 ((t_y r + y) * T + (t_x r + x)) false)
        as (d4 & E4 & Hok4 & Hd4); [done|apply (index_range (t_x r + x) (t_y r + y)); lia|].
      rewrite <-Z.add_assoc. exists d4. split; [done|]. split; [done|]. intros i Hi.
      rewrite Hd4, Hd3 by lia. case_decide as Ei.
      * destruct (index_div (t_x r + x) (t_y r + y)) as [Ed Em]; [lia|]. rewrite <-Ei in Ed, Em.
        symmetry. rewrite !andb_false_iff, !negb_false_iff. right.
        apply in_tiles_spec. cbn. lia.
      * destruct (bits d i); cbn; [|done]. destruct (covers _ i); cbn; [done|]. f_equal.
        apply eq_true_iff_eq. unfold covers. rewrite !in_tiles_spec. cbn.
        destruct (index_inv i Hi) as (? & ? & Ei'). split; [lia|]. intros [Ha Hb]. split; [|done].
        assert (i mod T ≠ t_x r + x); [|lia]. intros Em. apply Ei. rewrite Ei' at 1. nia.
    + exists d2. split; [done|]. split; [done|]. intros i Hi. rewrite Hd2 by done.
      rewrite Z2Nat.id by lia. destruct (bits d i); cbn; [|done].
      apply eq_true_iff_eq. rewrite !andb_true_iff, !negb_true_iff, <-!not_true_iff_false.
      unfold covers. rewrite !in_tiles_spec. cbn. lia.
  - exists d'. split_and!; [exact E|done|]. intros i Hi. rewrite Hd' by done.
    rewrite Z2Nat.id by lia. destruct (bits d i); cbn; [|done].
    apply eq_true_iff_eq. rewrite !andb_true_iff, !negb_true_iff, <-!not_true_iff_false.
    unfold covers. rewrite !in_tiles_spec. cbn. lia.
Qed.

Definition rect_of (r : tile_rect) : Rect :=
  Rect_new (t_x r * TILE_SIZE) (t_y r * TILE_SIZE)
    (pixel_width width (t_x r) (t_w r)) (pixel_height height (t_y r) (t_h r)).

Definition covered (tr : list tile_rect) (i : Z) : bool := existsb (λ r, covers r i) tr.
Definition tiles_disjoint (r1 r2 : tile_rect) : Prop :=
  ∀ tx ty, ¬ (in_tiles r1 tx ty = true ∧ in_tiles r2 tx ty = true).

(** The state of the loop at [idx] with the rectangles [tr] found. *)
Record loop_inv (d : SmallBitSet) (tr : list tile_rect) (idx : Z) : Prop := {
  inv_idx : 0 ≤ idx;
  inv_bs : bs_ok total d;
  inv_done : ∀ i, 0 ≤ i < total → i < idx → bits d i = false;
  inv_cover : ∀ i, 0 ≤ i < total → differs i = bits d i || covered tr i;
  inv_fresh : ∀ i, 0 ≤ i < total → bits d i = true → covered tr i = false;
  inv_ok : Forall tile_rect_ok tr;
  inv_disjoint : ForallOrdPairs tiles_disjoint tr
}.

Lemma covered_app tr r i : covered (tr ++ [r]) i = covered tr i || covers r i.
Proof. unfold covered. rewrite existsb_app. cbn. by rewrite orb_false_r. Qed.

Lemma ForallOrdPairs_snoc {A} (R : A → A → Prop) l x :
  ForallOrdPairs R l → Forall (λ y, R y x) l → ForallOrdPairs R (l ++ [x]).
Proof.
  intros Hl. induction Hl as [|y l Hy _ IH]; intros Hx; cbn.
  - repeat constructor.
  - apply Forall_cons in Hx as [Hyx Hx]. constructor; [|by apply IH].
    apply Forall_app. split; [done|]. by constructor.
Qed.

(** One rectangle more. *)
Lemma loop_step d tr idx r d' :
  loop_inv d tr idx → idx < total → tile_rect_ok r → idx = t_y r * T + t_x r →
  (∀ i, 0 ≤ i < total → covers r i = true → bits d i = true) → bs_ok total d' →
  (∀ i, 0 ≤ i < total → bits d' i = bits d i && negb (covers r i)) →
  loop_inv d' (tr ++ [r]) (idx + t_w r).
Proof.
  intros [] Hidx Hr Eidx Hall Hok' Hd'. pose proof tiles_x_pos. pose proof Hr as (Hx & Hw & HxT & Hy & Hh & HyN).
  split; try done.
  - lia.
  - intros i Hi Hlt. rewrite Hd' by done.
    destruct (decide (i < idx)); [by rewrite inv_done0|].
    assert (covers r i = true) as ->; [|by rewrite andb_false_r].
    replace i with (t_y r * T + (t_x r + (i - idx))) by lia.
    destruct (index_div (t_x r + (i - idx)) (t_y r)) as [E1 E2]; [lia|].
    unfold covers. rewrite E1, E2. apply in_tiles_spec. lia.
  - intros i Hi. rewrite covered_app, inv_cover0, Hd' by done. specialize (Hall i Hi).
    destruct (covers r i); [rewrite Hall by done; by rewrite orb_true_r|].
    rewrite andb_true_r, orb_false_r. done.
  - intros i Hi. rewrite covered_app, Hd' by done. rewrite andb_true_iff, negb_true_iff.
    intros [Hb ->]. by rewrite inv_fresh0.
  - apply Forall_app. split; [done|]. by constructor.
  - apply ForallOrdPairs_snoc; [done|]. apply Forall_forall. intros r' Hin tx ty [H1 H2].
    pose proof (proj1 (Forall_forall _ _) inv_ok0 r' Hin) as (? & ? & ? & ? & ? & ?).
    pose proof (proj1 (in_tiles_spec r tx ty) H2) as [Htx Hty].
    destruct (index_div tx ty) as [E1 E2]; [lia|].
    pose proof (index_range tx ty ltac:(lia) ltac:(lia)) as Hi.
    assert (Hc : covers r (ty * T + tx) = true) by (unfold covers; by rewrite E1, E2).
    specialize (inv_fresh0 _ Hi (Hall _ Hi Hc)).
    assert (covered tr (ty * T + tx) = true); [|congruence].
    apply existsb_exists. exists r'. split; [by apply list_elem_of_In|].
    unfold covers. by rewrite E1, E2.
Qed.

Lemma find_loop_spec fuel : ∀ d tr idx,
  loop_inv d tr idx → total - idx ≤ Z.of_nat fuel →
  ∃ tr', find_loop width height fuel d (rect_of <$> tr) idx = Ok (rect_of <$> tr')
  ∧ (∀ i, 0 ≤ i < total → covered tr' i = differs i)
  ∧ Forall tile_rect_ok tr' ∧ ForallOrdPairs tiles_disjoint tr'.
Proof.
  pose proof tiles_x_pos. pose proof tiles_y_pos.
  induction fuel as [|fuel IH]; intros d tr idx Hinv Hf; cbn [find_loop];
    destruct (Z.leb_spec total idx) as [Hend|Hidx]; try lia.
  1,2: exists tr; destruct Hinv; split_and!; try done; intros i Hi; rewrite inv_cover0, inv_done0 by (done || lia); done.
  pose proof Hinv as [Hi0 Hbs _ _ _ _ _].
  rewrite (SmallBitSet_get_spec total) by (done || lia). cbn [mbind res_bind].
  destruct (bits d idx) eqn:Hb; cbn [negb].
  - destruct (index_inv idx) as (Hsx & Hsy & Eidx); [lia|].
    set (sx := idx mod T) in *. set (sy := idx / T) in *.
    destruct (grow_width_spec (Z.to_nat T) d idx sx 1) as (rw & -> & Hrw & HrwT & Hrow);
      try done; try lia.
    { unfold Diff.total. nia. }
    { intros k Hk. by replace (idx + k) with idx by lia. }
    cbn [mbind res_bind].
    destruct (grow_height_spec (Z.to_nat N) d sx sy rw 1) as (rh & -> & Hrh & HrhN & Hrect);
      try done; try lia.
    { intros y k Hy Hk. replace ((sy + y) * T + sx + k) with (idx + k) by nia. by apply Hrow. }
    cbn [mbind res_bind].
    set (r := {| t_x := sx; t_y := sy; t_w := rw; t_h := rh |}).
    assert (Hr : tile_rect_ok r) by (unfold tile_rect_ok; cbn; lia).
    destruct (clear_tiles_spec d r Hbs Hr) as (d' & E & Hok' & Hd'). cbn [t_x t_y t_w t_h r] in E.
    rewrite E. cbn [mbind res_bind].
    change (rect_of <$> tr ++ [r]) with (rect_of <$> (tr ++ [r])).
    assert ((rect_of <$> tr) ++ [Rect_new (sx * TILE_SIZE) (sy * TILE_SIZE)
      (pixel_width width sx rw) (pixel_height height sy rh)] = rect_of <$> (tr ++ [r])) as ->
      by (by rewrite fmap_app).
    apply IH; [|cbn; lia]. apply (loop_step d tr idx r d'); try done; try (cbn; lia).
    intros i Hi Hc. unfold covers in Hc. apply in_tiles_spec in Hc. cbn in Hc.
    destruct (index_inv i Hi) as (_ & _ & Ei).
    specialize (Hrect (i / T - sy) (i mod T - sx) ltac:(lia) ltac:(lia)).
    by replace ((sy + (i / T - sy)) * T + sx + (i mod T - sx)) with i in Hrect by lia.
  - apply IH; [|lia]. destruct Hinv. split; try done; [lia|]. intros i Hi Hlt.
    destruct (decide (i = idx)) as [->|]; [done|]. apply inv_done0; [done|lia].
Qed.

(** ** Tiles and pixels *)

Definition in_rect (r : Rect) (px py : Z) : Prop :=
  rect_x r ≤ px < rect_x r + rect_width r ∧ rect_y r ≤ py < rect_y r + rect_height r.

Lemma pixel_width_spec sx rw :
  0 ≤ sx → 1 ≤ rw → sx + rw ≤ T →
  pixel_width width sx rw = Z.min ((sx + rw) * 64) width - sx * 64.
Proof.
  intros Hsx Hrw Hle. unfold pixel_width, tiles_x, div_ceil, TILE_SIZE in *.
  destruct (Z.eqb_spec (sx + rw) ((width + 64 - 1) / 64)), (Z.ltb_spec 0 (width mod 64)); cbn [andb];
    Z.to_euclidean_division_equations; lia.
Qed.

Lemma pixel_height_spec sy rh :
  0 ≤ sy → 1 ≤ rh → sy + rh ≤ N →
  pixel_height height sy rh = Z.min ((sy + rh) * 64) height - sy * 64.
Proof.
  intros Hsx Hrw Hle. unfold pixel_height, tiles_y, div_ceil, TILE_SIZE in *.
  destruct (Z.eqb_spec (sy + rh) ((height + 64 - 1) / 64)), (Z.ltb_spec 0 (height mod 64)); cbn [andb];
    Z.to_euclidean_division_equations; lia.
Qed.

Lemma in_rect_tiles r px py :
  tile_rect_ok r → 0 ≤ px < width → 0 ≤ py < height →
  in_rect (rect_of r) px py ↔ in_tiles r (px / 64) (py / 64) = true.
Proof.
  intros (Hx & Hw & HxT & Hy & Hh & HyN) Hpx Hpy. rewrite in_tiles_spec. unfold in_rect, rect_of.
  cbn [rect_x rect_y rect_width rect_height Rect_new].
  rewrite pixel_width_spec, pixel_height_spec by lia. unfold TILE_SIZE.
  Z.to_euclidean_division_equations; lia.
Qed.

Lemma rect_of_bounds r :
  tile_rect_ok r →
  let q := rect_of r in
  0 ≤ rect_x q ∧ 0 < rect_width q ∧ rect_x q + rect_width q ≤ width
  ∧ 0 ≤ rect_y q ∧ 0 < rect_height q ∧ rect_y q + rect_height q ≤ height
  ∧ rect_x q mod 64 = 0 ∧ rect_y q mod 64 = 0.
Proof.
  intros (Hx & Hw & HxT & Hy & Hh & HyN) q. subst q. unfold rect_of.
  cbn [rect_x rect_y rect_width rect_height Rect_new].
  rewrite pixel_width_spec, pixel_height_spec by lia. unfold TILE_SIZE.
  rewrite !Z.mod_mul by lia.
  assert (t_x r * 64 < width ∧ t_y r * 64 < height) as [? ?].
  { unfold tiles_x, tiles_y, div_ceil, TILE_SIZE in *. Z.to_euclidean_division_equations; lia. }
  lia.
Qed.

Lemma tile_index px py :
  0 ≤ px < width → 0 ≤ py < height →
  0 ≤ px / 64 < T ∧ 0 ≤ py / 64 < N.
Proof.
  intros. unfold tiles_x, tiles_y, div_ceil, TILE_SIZE. Z.to_euclidean_division_equations; lia.
Qed.
End find_proofs.

(** ** Ranges of bytes *)

Lemma range_all_spec n a p :
  range_all n a p = true ↔ ∀ i, a ≤ i < a + Z.of_nat n → p i = true.
Proof.
  revert a. induction n as [|n IH]; intros a; cbn [range_all].
  - split; [intros _ i Hi; lia|done].
  - rewrite andb_true_iff, IH. split.
    + intros [Ha Hall] i Hi. destruct (decide (i = a)) as [->|]; [done|]. apply Hall. lia.
    + intros Hall. split; [apply Hall; lia|]. intros i Hi. apply Hall. lia.
Qed.

Lemma range_any_false n a p :
  range_any n a p = false ↔ ∀ i, a ≤ i < a + Z.of_nat n → p i = false.
Proof.
  revert a. induction n as [|n IH]; intros a; cbn [range_any].
  - split; [intros _ i Hi; lia|done].
  - rewrite orb_false_iff, IH. split.
    + intros [Ha Hall] i Hi. destruct (decide (i = a)) as [->|]; [done|]. apply Hall. lia.
    + intros Hall. split; [apply Hall; lia|]. intros i Hi. apply Hall. lia.
Qed.

Lemma get_range_Some l a b s :
  get_range l a b = Some s ↔ 0 ≤ a ≤ b ∧ b ≤ len l ∧ s = ztake (b - a) (zdrop a l).
Proof. unfold get_range. case_decide; naive_solver. Qed.

Lemma get_range_sub l a b s a' b' :
  get_range l a b = Some s → a ≤ a' ≤ b' → b' ≤ b →
  get_range l a' b' = Some (ztake (b' - a') (zdrop (a' - a) s)).
Proof.
  intros (Ha & Hb & ->)%get_range_Some Ha' Hb'. apply get_range_Some. split_and!; [lia..|].
  unfold ztake, zdrop.
  rewrite skipn_firstn_comm, drop_drop, take_take. f_equal; [lia|]. f_equal. lia.
Qed.

Lemma get_range_lookup l a b s k :
  get_range l a b = Some s → 0 ≤ k < b - a → s !! Z.to_nat k = l !! Z.to_nat (a + k).
Proof.
  intros (Ha & Hb & ->)%get_range_Some Hk. unfold ztake, zdrop.
  rewrite lookup_take_lt, lookup_drop by lia. f_equal. lia.
Qed.

Lemma get_range_prefix l k a b :
  0 ≤ a ≤ b → b ≤ k → get_range (ztake k l) a b = get_range l a b ∨ len l < k.
Proof.
  intros Ha Hb. destruct (decide (len l < k)); [by right|left].
  unfold get_range. rewrite len_ztake by lia. rewrite !decide_True by lia. f_equal. unfold ztake, zdrop. rewrite skipn_firstn_comm, take_take. f_equal. lia.
Qed.

Section pixels.
Context (image1 : bytes) (stride1 : Z) (image2 : bytes) (stride2 : Z) (width height bpp : Z).

(** The sizes of a frame: a row fits its stride, and nothing overflows [usize]. *)
Record frame_sizes : Prop := {
  size_width : 0 ≤ width;
  size_height : 0 ≤ height;
  size_bpp : 0 < bpp;
  size_stride1 : width * bpp ≤ stride1;
  size_stride2 : width * bpp ≤ stride2;
  size_usize1 : (height + 1) * stride1 < 2 ^ 63;
  size_usize2 : (height + 1) * stride2 < 2 ^ 63
}.

(** Row [row] is in both images and the same in both. *)
Definition row_equal (row : Z) : Prop :=
  ∃ s, get_range image1 (row * stride1) (row * stride1 + width * bpp) = Some s
     ∧ get_range image2 (row * stride2) (row * stride2 + width * bpp) = Some s.

Lemma visible_rows :
  frame_sizes → 0 < width →
  visible_pixels_equal image1 stride1 image2 stride2 width height bpp = true →
  ∀ row, 0 ≤ row < height → row_equal row.
Proof.
  intros [] Hw Hv row Hrow. unfold visible_pixels_equal, saturating_mul, USIZE_MAX in Hv.
  assert (0 < width * bpp < 2 ^ 63) as Hrb by nia.
  rewrite (Z.min_l (width * bpp)) in Hv by lia.
  assert (width * bpp =? 0 = false) as E by lia. rewrite E in Hv.
  assert (row * stride1 + width * bpp ≤ (height + 1) * stride1 ∧ 0 ≤ row * stride1) as [B1 P1] by nia.
  assert (row * stride2 + width * bpp ≤ (height + 1) * stride2 ∧ 0 ≤ row * stride2) as [B2 P2] by nia.
  destruct ((stride1 =? stride2) && (stride1 =? width * bpp)) eqn:Es.
  - apply andb_true_iff in Es as [E1%Z.eqb_eq E2%Z.eqb_eq].
    rewrite !andb_true_iff, !Z.leb_le in Hv. destruct Hv as [[L1 L2] Heq%bool_decide_eq_true].
    assert (height * (width * bpp) ≤ (height + 1) * stride1) by nia.
    rewrite Z.min_l in L1, L2, Heq by lia. set (needed := height * (width * bpp)) in *.
    assert (row * stride1 + width * bpp ≤ needed) by (subst needed; nia).
    unfold row_equal. rewrite <-E1.
    destruct (get_range_prefix image1 needed (row * stride1) (row * stride1 + width * bpp)) as [<-|];
      [lia..| |lia].
    destruct (get_range_prefix image2 needed (row * stride1) (row * stride1 + width * bpp)) as [<-|];
      [lia..| |lia].
    rewrite Heq. unfold get_range. rewrite decide_True; [by eexists|].
    rewrite len_ztake by lia. lia.
  - rewrite range_all_spec in Hv. specialize (Hv row ltac:(lia)). cbn beta zeta in Hv.
    unfold saturating_add_usize, USIZE_MAX in Hv.
    rewrite (Z.min_l (row * stride1)), (Z.min_l (row * stride2)) in Hv by lia.
    rewrite !Z.min_l in Hv by lia.
    destruct (get_range image1 _ _) as [a|] eqn:G1; [|done].
    destruct (get_range image2 _ _) as [b|] eqn:G2; [|done].
    apply bool_decide_eq_true in Hv as ->. by exists b.
Qed.

Lemma tile_at_bounds tx ty :
  0 ≤ tx < tiles_x width → 0 ≤ ty < tiles_y height →
  let t := tile_at width height tx ty in
  0 ≤ rect_x t ∧ 0 < rect_width t ∧ rect_x t + rect_width t ≤ width
  ∧ 0 ≤ rect_y t ∧ 0 < rect_height t ∧ rect_y t + rect_height t ≤ height.
Proof.
  intros Hx Hy t. subst t. unfold tile_at, tiles_x, tiles_y, div_ceil, TILE_SIZE in *.
  cbn [rect_x rect_y rect_width rect_height Rect_new]. Z.to_euclidean_division_equations; lia.
Qed.

Lemma visible_equal_tiles tx ty :
  frame_sizes → 0 < width →
  visible_pixels_equal image1 stride1 image2 stride2 width height bpp = true →
  0 ≤ tx < tiles_x width → 0 ≤ ty < tiles_y height →
  tile_differs image1 stride1 image2 stride2 bpp (tile_at width height tx ty) = false.
Proof.
  intros Hs Hw Hv Hx Hy. pose proof (visible_rows Hs Hw Hv) as Hrows.
  destruct (tile_at_bounds tx ty Hx Hy) as (Bx & Bw & Bxw & By & Bh & Byh). destruct Hs.
  apply range_any_false. intros row Hrow. rewrite Z2Nat.id in Hrow by lia.
  set (t := tile_at width height tx ty) in *.
  destruct (Hrows row ltac:(lia)) as (s & G1 & G2).
  assert (rect_x t * bpp + rect_width t * bpp ≤ width * bpp ∧ 0 ≤ rect_x t * bpp
    ∧ 0 ≤ rect_width t * bpp) as (C1 & C2 & C3) by nia.
  pose proof (get_range_sub _ _ _ _ (row * stride1 + rect_x t * bpp)
    (row * stride1 + rect_x t * bpp + rect_width t * bpp) G1 ltac:(lia) ltac:(lia)) as E1.
  pose proof (get_range_sub _ _ _ _ (row * stride2 + rect_x t * bpp)
    (row * stride2 + rect_x t * bpp + rect_width t * bpp) G2 ltac:(lia) ltac:(lia)) as E2.
  cbn beta zeta. rewrite E1, E2. apply negb_false_iff, bool_decide_eq_true. f_equal; [lia|]. f_equal. lia.
Qed.

(** In a tile that does not differ every byte is the same in both images. *)
Lemma tile_same_bytes px py c :
  0 ≤ px < width → 0 ≤ py < height → 0 < bpp → px * bpp ≤ c < (px + 1) * bpp →
  tile_differs image1 stride1 image2 stride2 bpp (tile_at width height (px / 64) (py / 64)) = false →
  image1 !! Z.to_nat (py * stride1 + c) = image2 !! Z.to_nat (py * stride2 + c).
Proof.
  intros Hpx Hpy Hbpp Hc Hsame. set (t := tile_at width height (px / 64) (py / 64)) in *.
  assert (rect_x t ≤ px < rect_x t + rect_width t ∧ rect_y t ≤ py < rect_y t + rect_height t
    ∧ 0 ≤ rect_height t ∧ 0 ≤ rect_x t) as (Bx & By & Bh & Bx0).
  { subst t. unfold tile_at, TILE_SIZE. cbn [rect_x rect_y rect_width rect_height Rect_new].
    Z.to_euclidean_division_equations; lia. }
  unfold tile_differs in Hsame. rewrite range_any_false in Hsame.
  specialize (Hsame py ltac:(rewrite Z2Nat.id by lia; lia)). cbn beta zeta in Hsame.
  destruct (get_range image1 _ _) as [a|] eqn:G1; [|done].
  destruct (get_range image2 _ _) as [b|] eqn:G2; [|done].
  apply negb_false_iff, bool_decide_eq_true in Hsame as ->.
  assert (rect_x t * bpp ≤ c < rect_x t * bpp + rect_width t * bpp) as Hc' by nia.
  pose proof (get_range_lookup _ _ _ _ (c - rect_x t * bpp) G1 ltac:(lia)) as L1.
  pose proof (get_range_lookup _ _ _ _ (c - rect_x t * bpp) G2 ltac:(lia)) as L2.
  replace (py * stride1 + c) with (py * stride1 + rect_x t * bpp + (c - rect_x t * bpp)) by lia.
  replace (py * stride2 + c) with (py * stride2 + rect_x t * bpp + (c - rect_x t * bpp)) by lia.
  by rewrite <-L1, <-L2.
Qed.

(** The rectangles cover the tiles that differ, and nothing else. *)
Lemma find_dirty_rects_tiles :
  frame_sizes →
  ∃ rects, find_dirty_rects image1 stride1 image2 stride2 width height bpp = Ok rects
  ∧ Forall (λ q, 0 ≤ rect_x q ∧ 0 < rect_width q ∧ rect_x q + rect_width q ≤ width
      ∧ 0 ≤ rect_y q ∧ 0 < rect_height q ∧ rect_y q + rect_height q ≤ height
      ∧ rect_x q mod 64 = 0 ∧ rect_y q mod 64 = 0) rects
  ∧ (∀ px py, 0 ≤ px < width → 0 ≤ py < height →
      ((∃ q, q ∈ rects ∧ in_rect q px py)
       ↔ tile_differs image1 stride1 image2 stride2 bpp (tile_at width height (px / 64) (py / 64)) = true))
  ∧ ForallOrdPairs (λ q1 q2, ∀ px py, ¬ (in_rect q1 px py ∧ in_rect q2 px py)) rects.
Proof.
  intros Hs. pose proof Hs as [Hw0 Hh0 _ _ _ _ _]. unfold find_dirty_rects.
  destruct (Z.eqb_spec width 0) as [Ew|Ew]; cbn [orb].
  { exists []. split; [done|split; [constructor|split; [|constructor]]]. lia. }
  destruct (Z.eqb_spec height 0) as [Eh|Eh].
  { exists []. split; [done|split; [constructor|split; [|constructor]]]. lia. }
  assert (0 < width) as Hw by lia. assert (0 < height) as Hh by lia.
  destruct (visible_pixels_equal _ _ _ _ _ _ _) eqn:Hv.
  { exists []. split; [done|split; [constructor|split; [|constructor]]]. intros px py Hpx Hpy.
    destruct (tile_index width height px py Hpx Hpy).
    rewrite visible_equal_tiles by done. split; [|done]. intros (q & Hin & _). by apply elem_of_nil in Hin. }
  destruct (fill_dirty_spec image1 stride1 image2 stride2 width height bpp Hw Hh) as (d & E & Hok & Hd).
  rewrite E. cbn [mbind res_bind].
  destruct (find_loop_spec image1 stride1 image2 stride2 width height bpp Hw Hh
    (Z.to_nat (total width height)) d [] 0) as (tr & El & Hcov & Htr & Hdis).
  { split; try done; try lia; try constructor. intros i Hi. by rewrite Hd, orb_false_r. }
  { lia. }
  assert (Hin : ∀ q r, q = rect_of width height r → tile_rect_ok width height r → ∀ px py,
    in_rect q px py → 0 ≤ px < width ∧ 0 ≤ py < height).
  { intros q r -> Hr px py [H1 H2]. destruct (rect_of_bounds width height r Hr) as (?&?&?&?&?&?&?&?).
    lia. }
  exists (rect_of width height <$> tr). split_and!; [exact El| | |].
  - apply Forall_fmap. eapply Forall_impl; [exact Htr|]. intros r Hr. by apply rect_of_bounds.
  - intros px py Hpx Hpy. destruct (tile_index width height px py Hpx Hpy) as [Tx Ty].
    pose proof (index_range width height (px / 64) (py / 64) Tx Ty) as Hi.
    specialize (Hcov _ Hi). unfold differs in Hcov.
    destruct (index_div width (px / 64) (py / 64) Tx) as [Ed Em]. rewrite Ed, Em in Hcov.
    rewrite <-Hcov. unfold covered. rewrite existsb_exists. unfold covers. rewrite Ed, Em. split.
    + intros (q & (r & -> & Hr)%list_elem_of_fmap & Hq).
      pose proof (proj1 (Forall_forall _ _) Htr r Hr) as Hrok.
      exists r. split; [by apply list_elem_of_In|]. by apply in_rect_tiles in Hq.
    + intros (r & Hr%list_elem_of_In & Hc). pose proof (proj1 (Forall_forall _ _) Htr r Hr) as Hrok.
      exists (rect_of width height r). split; [by apply list_elem_of_fmap_2|]. by apply in_rect_tiles.
  - clear Hcov El. induction Hdis as [|r tr Hr _ IH]; [constructor|].
    apply Forall_cons in Htr as [Hrok Htr]. cbn. constructor; [|by apply IH].
    apply Forall_fmap, Forall_forall. intros r' Hr' px py [H1 H2].
    pose proof (proj1 (Forall_forall _ _) Htr r' Hr') as Hrok'.
    destruct (Hin _ r eq_refl Hrok px py H1) as [Hpx Hpy].
    apply (proj1 (Forall_forall _ _) Hr r' Hr' (px / 64) (py / 64)).
    split; [by apply (in_rect_tiles width height)|by apply (in_rect_tiles width height)].
Qed.
End pixels.

(** C17. Dirty rectangles are exact: for frames of any size and strides (padding
    allowed), the search ends without a panic; each rectangle lies in the frame,
    starts on the tile grid and is not empty; no two overlap; and a pixel is in
    one of them exactly when the 64x64 tile it lies in differs between the two
    frames. *)
Theorem find_dirty_rects_exact image1 stride1 image2 stride2 width height bpp :
  frame_sizes stride1 stride2 width height bpp →
  ∃ rects, find_dirty_rects image1 stride1 image2 stride2 width height bpp = Ok rects
  ∧ Forall (λ q, 0 ≤ rect_x q ∧ 0 < rect_width q ∧ rect_x q + rect_width q ≤ width
      ∧ 0 ≤ rect_y q ∧ 0 < rect_height q ∧ rect_y q + rect_height q ≤ height
      ∧ rect_x q mod 64 = 0 ∧ rect_y q mod 64 = 0) rects
  ∧ (∀ px py, 0 ≤ px < width → 0 ≤ py < height →
      ((∃ q, q ∈ rects ∧ in_rect q px py)
       ↔ tile_differs image1 stride1 image2 stride2 bpp (tile_at width height (px / 64) (py / 64)) = true))
  ∧ ForallOrdPairs (λ q1 q2, ∀ px py, ¬ (in_rect q1 px py ∧ in_rect q2 px py)) rects.
Proof. apply find_dirty_rects_tiles. Qed.

(** Repainting the dirty rectangles is enough: every visible byte in which
    the two frames differ belongs to a pixel of some rectangle, so a client
    that shows the first frame and receives the rectangles of the second shows
    the second. *)
Theorem find_dirty_rects_repaint image1 stride1 image2 stride2 width height bpp rects px py c :
  frame_sizes stride1 stride2 width height bpp →
  find_dirty_rects image1 stride1 image2 stride2 width height bpp = Ok rects →
  0 ≤ px < width → 0 ≤ py < height → px * bpp ≤ c < (px + 1) * bpp →
  image1 !! Z.to_nat (py * stride1 + c) ≠ image2 !! Z.to_nat (py * stride2 + c) →
  ∃ q, q ∈ rects ∧ in_rect q px py.
Proof.
  intros Hs Hfind Hpx Hpy Hc Hne.
  destruct (find_dirty_rects_tiles image1 stride1 image2 stride2 width height bpp Hs)
    as (rects' & E & _ & Hcov & _).
  rewrite Hfind in E. injection E as <-. apply Hcov; [done..|].
  destruct (tile_differs _ _ _ _ _ _) eqn:Ht; [done|]. exfalso. apply Hne.
  apply (tile_same_bytes image1 stride1 image2 stride2 width height bpp px py); try done.
  by destruct Hs.
Qed.

Definition frame_a : bytes := replicate 1040 0.
Definition frame_b : bytes := <[700%nat := 1]> frame_a.

Lemma small_frames : frame_sizes 520 520 130 2 4.
Proof. split; try lia; by vm_compute. Qed.

Lemma find_dirty_rects_exact_witness :
  find_dirty_rects frame_a 520 frame_b 520 130 2 4 = Ok [Rect_new 0 0 64 2]
  ∧ tile_differs frame_a 520 frame_b 520 4 (tile_at 130 2 0 0) = true.
Proof.
  assert (E : find_dirty_rects frame_a 520 frame_b 520 130 2 4 = Ok [Rect_new 0 0 64 2])
    by (vm_compute; reflexivity).
  split; [exact E|].
  destruct (find_dirty_rects_exact frame_a 520 frame_b 520 130 2 4 small_frames)
    as (rects & E' & _ & Hcov & _).
  rewrite E in E'. injection E' as <-.
  apply (proj1 (Hcov 45 1 ltac:(lia) ltac:(lia))).
  exists (Rect_new 0 0 64 2). split; [by left|]. unfold in_rect. cbn. lia.
Defined.

Lemma find_dirty_rects_repaint_witness :
  frame_a !! 700%nat ≠ frame_b !! 700%nat
  ∧ ∃ q, q ∈ [Rect_new 0 0 64 2] ∧ in_rect q 45 1.
Proof.
  assert (Hne : frame_a !! Z.to_nat (1 * 520 + 180) ≠ frame_b !! Z.to_nat (1 * 520 + 180))
    by (vm_compute; congruence).
  split; [exact Hne|].
  apply (find_dirty_rects_repaint frame_a 520 frame_b 520 130 2 4 [Rect_new 0 0 64 2] 45 1 180);
    [exact small_frames|vm_compute; reflexivity|lia|lia|lia|exact Hne].
Defined.
