(* ===== verification/Display.v ===== *)
(** [rdpcore-server/src/display.rs] and the catch-up of [encode.rs]: views of a shared
    frame buffer, and the region a client that shows one frame must be sent to show
    another. *)
From S2P Require Import Prelude Diff.

Inductive PixelFormat := BgrX32.
Global Instance PixelFormat_eq_dec : EqDecision PixelFormat.
Proof. solve_decision. Defined.

(** [width] and [height] are [NonZeroU16], [stride] a [NonZeroUsize]. *)
Record BitmapUpdate := {
  bm_x : Z; bm_y : Z; bm_width : Z; bm_height : Z; format : PixelFormat;
  bm_data : bytes; bm_stride : Z; src_x : Z; src_y : Z }.

Definition BYTES_PER_PIXEL : Z := 4.

(** [NonZeroU16::new(n as u16)] *)
Definition non_zero_u16 (n : Z) : option Z := if as_u16 n =? 0 then None else Some (as_u16 n).
Definition checked_add_u16 (a b : Z) : option Z := if a + b <? 2 ^ 16 then Some (a + b) else None.

Definition src_byte_offset (u : BitmapUpdate) (x y : Z) : Z :=
  saturating_add_usize (saturating_mul (src_y u + y) (bm_stride u))
    (saturating_mul (src_x u + x) BYTES_PER_PIXEL).

Definition sub (u : BitmapUpdate) (x y width height : Z) : option BitmapUpdate :=
  if (bm_width u <? x + width) || (bm_height u <? y + height) then None
  else
    src_x' ← checked_add_u16 (src_x u) x;
    src_y' ← checked_add_u16 (src_y u) y;
    let last := saturating_add_usize
                  (saturating_mul (src_y' + saturating_sub height 1) (bm_stride u))
                  (saturating_mul (src_x' + width) BYTES_PER_PIXEL) in
    if len (bm_data u) <? last then None
    else
      x' ← checked_add_u16 (bm_x u) x;
      y' ← checked_add_u16 (bm_y u) y;
      Some {| bm_x := x'; bm_y := y'; bm_width := width; bm_height := height; format := format u;
              bm_data := bm_data u; bm_stride := bm_stride u; src_x := src_x'; src_y := src_y' |}.

Definition union (self newer : BitmapUpdate) : BitmapUpdate :=
  if negb (bm_stride self =? bm_stride newer) || bool_decide (format self ≠ format newer) then newer
  else
    let x := Z.min (bm_x self) (bm_x newer) in
    let y := Z.min (bm_y self) (bm_y newer) in
    let right := Z.max (bm_x self + bm_width self) (bm_x newer + bm_width newer) in
    let bottom := Z.max (bm_y self + bm_height self) (bm_y newer + bm_height newer) in
    match non_zero_u16 (right - x), non_zero_u16 (bottom - y) with
    | Some width, Some height =>
      let last := saturating_add_usize
                    (saturating_mul (y + saturating_sub height 1) (bm_stride newer))
                    (saturating_mul (x + width) BYTES_PER_PIXEL) in
      if len (bm_data newer) <? last then newer
      else {| bm_x := x; bm_y := y; bm_width := width; bm_height := height; format := format newer;
              bm_data := bm_data newer; bm_stride := bm_stride newer; src_x := x; src_y := y |}
    | _, _ => newer
    end.

Definition covers_desktop (u : BitmapUpdate) (width height : Z) : bool :=
  (bm_x u =? 0) && (bm_y u =? 0) && (bm_width u =? width) && (bm_height u =? height).

Definition retain_bitmap_during_resize (pending : option BitmapUpdate) (bitmap : BitmapUpdate)
    (desktop_width desktop_height : Z) (merge_partials : bool) : option BitmapUpdate :=
  let have_full := match pending with
                   | Some p => covers_desktop p desktop_width desktop_height | None => false end in
  let incoming_full := covers_desktop bitmap desktop_width desktop_height in
  if negb merge_partials then
    if incoming_full || negb have_full then Some bitmap else pending
  else
    Some (match pending, have_full, incoming_full with
          | Some prev, true, false => prev
          | Some prev, _, _ => union prev bitmap
          | None, _, _ => bitmap
          end).

(** The [fold] of [resync_bitmap] on one rectangle. *)
Definition merge_rect (current_full : BitmapUpdate) (merged : option BitmapUpdate) (rect : Rect)
  : option BitmapUpdate :=
  match non_zero_u16 (rect_width rect), non_zero_u16 (rect_height rect) with
  | Some w, Some h =>
    match sub current_full (as_u16 (rect_x rect)) (as_u16 (rect_y rect)) w h with
    | None => merged
    | Some sub => Some match merged with Some m => union m sub | None => sub end
    end
  | _, _ => merged
  end.

Definition resync_bitmap (last_synced_full : option BitmapUpdate) (current_full : BitmapUpdate)
  : outcome (option BitmapUpdate) :=
  match last_synced_full with
  | Some prev =>
    if (bm_stride prev =? bm_stride current_full) && (bm_width prev =? bm_width current_full)
       && (bm_height prev =? bm_height current_full)
    then
      rects ← find_dirty_rects (bm_data prev) (bm_stride prev) (bm_data current_full)
                (bm_stride current_full) (bm_width current_full) (bm_height current_full) 4;
      Ok (foldl (merge_rect current_full) None rects)
    else Ok (Some current_full)
  | None => Ok (Some current_full)
  end.

(** ** What a client shows *)

(** A byte of the pixel of [u] at desktop position [(px, py)]. *)
Definition pixel_byte (u : BitmapUpdate) (px py c : Z) : option Z :=
  bm_data u !! Z.to_nat (src_byte_offset u (px - bm_x u) (py - bm_y u) + c).

Definition in_update (u : BitmapUpdate) (px py : Z) : Prop :=
  bm_x u ≤ px < bm_x u + bm_width u ∧ bm_y u ≤ py < bm_y u + bm_height u.
Global Instance in_update_dec u px py : Decision (in_update u px py).
Proof. unfold in_update. apply _. Defined.

(** The bytes of a client's screen, by position. *)
Definition canvas : Type := Z → Z → Z → option Z.
Definition paint (cv : canvas) (u : BitmapUpdate) : canvas :=
  λ px py c, if decide (in_update u px py) then pixel_byte u px py c else cv px py c.

(** The screen shows the frame [u]. *)
Definition shows (cv : canvas) (u : BitmapUpdate) : Prop :=
  ∀ px py c, in_update u px py → 0 ≤ c < 4 → cv px py c = pixel_byte u px py c.

(** A frame of a [w]x[h] desktop, as the capture side publishes it: the view of the
    whole of a buffer that holds all of its rows. *)
Record full_frame (w h : Z) (u : BitmapUpdate) : Prop := {
  full_x : bm_x u = 0; full_y : bm_y u = 0; full_src_x : src_x u = 0; full_src_y : src_y u = 0;
  full_width : bm_width u = w; full_height : bm_height u = h;
  full_w : 0 < w < 2 ^ 16; full_h : 0 < h < 2 ^ 16;
  full_stride : w * 4 ≤ bm_stride u < 2 ^ 40;
  full_data : (h - 1) * bm_stride u + w * 4 ≤ len (bm_data u) < 2 ^ 63 }.

(** A view of the frame [u]: the same buffer, at the same position. *)
Record view_of (u v : BitmapUpdate) : Prop := {
  view_data : bm_data v = bm_data u; view_stride : bm_stride v = bm_stride u;
  view_format : format v = format u;
  view_x : 0 ≤ bm_x v ∧ src_x v = bm_x v; view_y : 0 ≤ bm_y v ∧ src_y v = bm_y v;
  view_width : 0 < bm_width v ∧ bm_x v + bm_width v ≤ bm_width u;
  view_height : 0 < bm_height v ∧ bm_y v + bm_height v ≤ bm_height u }.

Lemma saturating_small a : a ≤ USIZE_MAX → Z.min a USIZE_MAX = a.
Proof. lia. Qed.

Section frames.
Context (w h : Z) (u : BitmapUpdate) (Hu : full_frame w h u).

Lemma last_byte x y :
  0 ≤ x ≤ w → 0 ≤ y < h →
  saturating_add_usize (saturating_mul y (bm_stride u)) (saturating_mul x BYTES_PER_PIXEL)
  = y * bm_stride u + x * 4 ∧ y * bm_stride u + x * 4 ≤ len (bm_data u).
Proof.
  intros Hx Hy. destruct Hu. unfold saturating_add_usize, saturating_mul, BYTES_PER_PIXEL, USIZE_MAX.
  assert (0 ≤ y * bm_stride u ≤ (h - 1) * bm_stride u) by nia.
  assert ((h - 1) * bm_stride u ≤ 2 ^ 16 * 2 ^ 40) by nia.
  rewrite !Z.min_l by lia. lia.
Qed.

Lemma sub_full x y width height :
  0 ≤ x → 0 ≤ y → 0 < width → 0 < height → x + width ≤ w → y + height ≤ h →
  ∃ v, sub u x y width height = Some v ∧ view_of u v
    ∧ bm_x v = x ∧ bm_y v = y ∧ bm_width v = width ∧ bm_height v = height.
Proof.
  intros Hx Hy Hw Hh Hxw Hyh. unfold sub.
  destruct (last_byte (x + width) (y + height - 1)) as [E Hl]; [lia..|].
  destruct Hu as [E1 E2 E3 E4 E5 E6 ? ? ? ?]. rewrite E1, E2, E3, E4, E5, E6.
  rewrite !(proj2 (Z.ltb_ge _ _)) by lia. cbn [orb]. unfold checked_add_u16.
  rewrite !(proj2 (Z.ltb_lt _ _)) by lia. cbn [mbind option_bind].
  replace (0 + y + saturating_sub height 1) with (y + height - 1) by (unfold saturating_sub; lia).
  replace (0 + x + width) with (x + width) by lia.
  rewrite E, (proj2 (Z.ltb_ge _ _)) by lia.
  eexists. split; [done|]. split; [|cbn; lia]. split; cbn; done || lia.
Qed.

Lemma union_views v1 v2 :
  view_of u v1 → view_of u v2 →
  view_of u (union v1 v2)
  ∧ ∀ px py, in_update v1 px py ∨ in_update v2 px py → in_update (union v1 v2) px py.
Proof.
  intros [D1 S1 F1 X1 Y1 W1 H1] [D2 S2 F2 X2 Y2 W2 H2]. unfold union.
  set (x := Z.min (bm_x v1) (bm_x v2)). set (y := Z.min (bm_y v1) (bm_y v2)).
  set (r := Z.max (bm_x v1 + bm_width v1) (bm_x v2 + bm_width v2)).
  set (b := Z.max (bm_y v1 + bm_height v1) (bm_y v2 + bm_height v2)).
  pose proof Hu as [? ? ? ? Ew Eh ? ? ? ?]. rewrite Ew, Eh in *.
  rewrite S1, S2, Z.eqb_refl, F1, F2, bool_decide_eq_false_2 by tauto. cbn [negb orb].
  unfold non_zero_u16. rewrite !as_u16_id by lia.
  rewrite !(proj2 (Z.eqb_neq _ _)) by lia.
  destruct (last_byte (x + (r - x)) (y + (b - y) - 1)) as [E Hl]; [lia..|].
  replace (y + saturating_sub (b - y) 1) with (y + (b - y) - 1) by (unfold saturating_sub; lia).
  rewrite E, D2, (proj2 (Z.ltb_ge _ _)) by lia. split.
  - split; cbn; rewrite ?Ew, ?Eh; done || lia.
  - unfold in_update. cbn. lia.
Qed.

Lemma view_pixel v px py c :
  view_of u v → in_update v px py → pixel_byte v px py c = pixel_byte u px py c.
Proof.
  intros [D S _ X Y _ _] _. destruct Hu as [E1 E2 E3 E4 _ _ _ _ _ _].
  unfold pixel_byte, src_byte_offset. rewrite D, S, E1, E2, E3, E4.
  replace (src_y v + (py - bm_y v)) with (0 + (py - 0)) by lia.
  by replace (src_x v + (px - bm_x v)) with (0 + (px - 0)) by lia.
Qed.
End frames.

(** ** The catch-up region *)

Section resync.
Context (w h : Z) (u : BitmapUpdate) (Hu : full_frame w h u).

Definition rect_in (q : Rect) : Prop :=
  0 ≤ rect_x q ∧ 0 < rect_width q ∧ rect_x q + rect_width q ≤ w
  ∧ 0 ≤ rect_y q ∧ 0 < rect_height q ∧ rect_y q + rect_height q ≤ h.

Lemma merge_rect_spec m q :
  (∀ v, m = Some v → view_of u v) → rect_in q →
  ∃ v, merge_rect u m q = Some v ∧ view_of u v
    ∧ ∀ px py, in_rect q px py ∨ (∃ v0, m = Some v0 ∧ in_update v0 px py) → in_update v px py.
Proof.
  intros Hm (Hx & Hw & Hxw & Hy & Hh & Hyh). unfold merge_rect, non_zero_u16.
  pose proof (full_w _ _ _ Hu). pose proof (full_h _ _ _ Hu).
  rewrite !as_u16_id by lia. rewrite !(proj2 (Z.eqb_neq _ _)) by lia.
  destruct (sub_full w h u Hu (rect_x q) (rect_y q) (rect_width q) (rect_height q))
    as (v & -> & Hv & Ex & Ey & Ew & Eh); [lia..|].
  assert (∀ px py, in_rect q px py → in_update v px py) as Hin.
  { intros px py. unfold in_rect, in_update. lia. }
  destruct m as [v0|].
  - destruct (union_views w h u Hu v0 v (Hm _ eq_refl) Hv) as [Hun Hcov].
    eexists. split; [done|]. split; [done|]. intros px py [Hq|(v1 & [= <-] & H1)]; apply Hcov; auto.
  - eexists. split; [done|]. split; [done|]. intros px py [Hq|(v1 & ? & _)]; [by apply Hin|done].
Qed.

Lemma merge_rects_spec rects m :
  (∀ v, m = Some v → view_of u v) → Forall rect_in rects →
  (∀ v, foldl (merge_rect u) m rects = Some v → view_of u v
     ∧ ∀ px py, (∃ q, q ∈ rects ∧ in_rect q px py) ∨ (∃ v0, m = Some v0 ∧ in_update v0 px py) →
         in_update v px py)
  ∧ (foldl (merge_rect u) m rects = None → rects = [] ∧ m = None).
Proof.
  intros Hm Hr. revert m Hm. induction Hr as [|q rects Hq _ IH]; intros m Hm; cbn [foldl].
  { split; [|done]. intros v Hv. split; [by apply Hm|].
    intros px py [(q & Hq & _)|(v0 & E & H0)]; [by apply elem_of_nil in Hq|].
    rewrite Hv in E. by injection E as ->. }
  destruct (merge_rect_spec m q Hm Hq) as (v1 & -> & Hv1 & Hcov).
  destruct (IH (Some v1)) as [H1 H2]; [by intros v [= <-]|]. split.
  - intros v Hv. destruct (H1 v Hv) as [Hview Hc]. split; [done|].
    intros px py H. apply Hc. destruct H as [(q' & Hin & Hq')|H].
    + apply elem_of_cons in Hin as [->|Hin]; [|by left; exists q'].
      right. exists v1. split; [done|]. apply Hcov. by left.
    + right. exists v1. split; [done|]. apply Hcov. by right.
  - intros E. by destruct (H2 E).
Qed.
End resync.

Lemma full_frame_sizes w h u1 u2 :
  full_frame w h u1 → full_frame w h u2 → frame_sizes (bm_stride u1) (bm_stride u2) w h 4.
Proof. intros [] []. split; nia || lia. Qed.

(** A visible byte of a frame, by its place in the buffer. *)
Lemma full_pixel w h u px py c :
  full_frame w h u → 0 ≤ px < w → 0 ≤ py < h → 0 ≤ c < 4 →
  pixel_byte u px py c = bm_data u !! Z.to_nat (py * bm_stride u + (px * 4 + c)).
Proof.
  intros Hu Hpx Hpy Hc. destruct (last_byte w h u Hu px py) as [E _]; [lia..|].
  destruct Hu as [E1 E2 E3 E4 _ _ _ _ _ _]. unfold pixel_byte, src_byte_offset.
  rewrite E1, E2, E3, E4. replace (0 + (py - 0)) with py by lia. replace (0 + (px - 0)) with px by lia.
  rewrite E. do 2 f_equal. lia.
Qed.

Lemma full_in_update w h u px py : full_frame w h u → (in_update u px py ↔ 0 ≤ px < w ∧ 0 ≤ py < h).
Proof. intros [E1 E2 _ _ E5 E6 _ _ _ _]. unfold in_update. rewrite E1, E2, E5, E6. lia. Qed.

(** A client that shows the baseline and paints the region shows the frame. *)
Lemma resync_repaints w h base u cv :
  full_frame w h u → (∀ f, base = Some f → full_frame w h f ∧ shows cv f) →
  match resync_bitmap base u with
  | Ok (Some m) => view_of u m ∧ shows (paint cv m) u
  | Ok None => shows cv u
  | _ => False
  end.
Proof.
  intros Hu Hbase.
  assert (view_of u u ∧ shows (paint cv u) u) as Hwhole.
  { split.
    - destruct Hu as [E1 E2 E3 E4 E5 E6 ? ? ? ?]. split; try done; rewrite ?E1, ?E2, ?E3, ?E4, ?E5, ?E6; lia.
    - intros px py c Hin _. unfold paint. by rewrite decide_True. }
  unfold resync_bitmap. destruct base as [f|]; [|exact Hwhole].
  destruct (Hbase f eq_refl) as [Hf Hcv]. destruct (_ && _) eqn:E; [|exact Hwhole].
  apply andb_true_iff in E as [[Es%Z.eqb_eq Ew%Z.eqb_eq]%andb_true_iff Eh%Z.eqb_eq].
  rewrite (full_width _ _ _ Hu), (full_height _ _ _ Hu).
  pose proof (full_frame_sizes _ _ _ _ Hf Hu) as Hs.
  destruct (find_dirty_rects_tiles (bm_data f) (bm_stride f) (bm_data u) (bm_stride u) w h 4 Hs)
    as (rects & -> & Hin & Hcov & _). cbn [mbind res_bind].
  destruct (merge_rects_spec w h u Hu rects None) as [Hsome Hnone]; [done| |].
  { eapply Forall_impl; [exact Hin|]. unfold rect_in. intros q H. cbn beta in H. tauto. }
  assert (∀ px py c, 0 ≤ px < w → 0 ≤ py < h → 0 ≤ c < 4 →
    ¬ (∃ q, q ∈ rects ∧ in_rect q px py) → cv px py c = pixel_byte u px py c) as Hclean.
  { intros px py c Hpx Hpy Hc Hno. rewrite Hcv by (done || by eapply full_in_update).
    rewrite (full_pixel w h f), (full_pixel w h u) by done.
    apply (tile_same_bytes _ _ _ _ w h 4 px py); [done..|lia|].
    rewrite (Hcov px py Hpx Hpy) in Hno. by apply not_true_is_false. }
  destruct (foldl (merge_rect u) None rects) as [m|] eqn:Em.
  - destruct (Hsome m eq_refl) as [Hview Hm]. split; [done|]. intros px py c Hp Hc. unfold paint.
    case_decide as Hd; [by apply (view_pixel w h)|].
    apply (full_in_update w h) in Hp as [Hpx Hpy]; [|done].
    apply Hclean; [done..|]. intros Hq. apply Hd, Hm. by left.
  - destruct (Hnone eq_refl) as [-> _]. intros px py c Hp Hc.
    apply (full_in_update w h) in Hp as [Hpx Hpy]; [|done].
    apply Hclean; [done..|]. intros (q & Hq & _). by apply elem_of_nil in Hq.
Qed.

(** ** Properties *)

(** Catch-up repaints what changed.  For frames of the desktop, and a client that
    shows the baseline (or any client, when there is none), the region is a view of the
    current frame and painting it makes the client show the current frame; when there
    is no region, the client shows the current frame already.  Finding the region never
    fails. *)
Theorem resync_bitmap_repaints w h base u cv :
  full_frame w h u → (∀ f, base = Some f → full_frame w h f ∧ shows cv f) →
  ∃ m, resync_bitmap base u = Ok m
  ∧ (∀ v, m = Some v → view_of u v ∧ shows (paint cv v) u) ∧ (m = None → shows cv u).
Proof.
  intros Hu Hb. pose proof (resync_repaints w h base u cv Hu Hb) as H.
  destruct (resync_bitmap base u) as [m| |]; [|done|done]. exists m. split; [done|].
  destruct m as [v|]; split; try done. by intros v' [= <-].
Qed.

(** Three pixels in a row. *)
Definition three_pixels (a b c : Z) : BitmapUpdate :=
  {| bm_x := 0; bm_y := 0; bm_width := 3; bm_height := 1; format := BgrX32;
     bm_data := [a; a; a; 0; b; b; b; 0; c; c; c; 0]; bm_stride := 12; src_x := 0; src_y := 0 |}.
Lemma three_pixels_full a b c : full_frame 3 1 (three_pixels a b c).
Proof. by split. Qed.

Lemma resync_bitmap_repaints_witness :
  ∃ m, resync_bitmap (Some (three_pixels 1 2 3)) (three_pixels 1 5 3) = Ok (Some m)
  ∧ shows (paint (λ px py c, pixel_byte (three_pixels 1 2 3) px py c) m) (three_pixels 1 5 3).
Proof.
  destruct (resync_bitmap_repaints 3 1 (Some (three_pixels 1 2 3)) (three_pixels 1 5 3)
    (λ px py c, pixel_byte (three_pixels 1 2 3) px py c)) as (m & E & Hm & _).
  - apply three_pixels_full.
  - intros f [= <-]. split; [apply three_pixels_full|]. by intros px py c _ _.
  - destruct m as [v|]; [|vm_compute in E; discriminate E].
    exists v. split; [done|]. by apply Hm.
Defined.
