(* ===== verification/AuthLimit.v ===== *)
(** [rdpcore-server/src/auth_limit.rs]: the per-address limiter of failed
    authentications.  Instants and durations are nanoseconds; the caller's clock
    is an argument of each operation. *)
From stdpp Require Import gmap fin_maps.
From S2P Require Import Prelude.

Definition MAX_FAILURES : Z := 5.
Definition WINDOW : Z := 60 * 10 ^ 9.
Definition LOCKOUT : Z := 300 * 10 ^ 9.
Definition MAX_TRACKED : nat := 4096.

(** ** State *)

Record FailureState := {
  count : Z;
  first : Z;
  locked_until : option Z
}.

#[global] Instance FailureState_eq_dec : EqDecision FailureState.
Proof. solve_decision. Defined.

Section AuthLimiter.
(** The address type, and the order in which a [HashMap] is iterated, which is
    unspecified: any enumeration of the map. *)
Context {IpAddr : Type} `{Countable IpAddr}.
Abbreviation limiter := (gmap IpAddr FailureState).
Context (iter : limiter → list (IpAddr * FailureState)).
Hypothesis iter_perm : ∀ m, iter m ≡ₚ map_to_list m.

(** ** Operations *)

(** [now.duration_since(t)], zero when [t] is in the future. *)
Definition duration_since (now t : Z) : Z := Z.max 0 (now - t).

Definition entry_live (state : FailureState) (now : Z) : bool :=
  match locked_until state with
  | Some until => now <? until
  | None => duration_since now (first state) <=? WINDOW
  end.

Definition gc (m : limiter) (now : Z) : limiter :=
  filter (λ e, entry_live e.2 now = true) m.

(** The key [(s.locked_until.is_some(), s.first)], ordered with [false] first. *)
Definition evict_key_lt (a b : FailureState) : bool :=
  match locked_until a, locked_until b with
  | None, Some _ => true
  | Some _, None => false
  | _, _ => first a <? first b
  end.

(** [min_by_key]: the first of the smallest elements. *)
Fixpoint min_by_key (l : list (IpAddr * FailureState)) : option (IpAddr * FailureState) :=
  match l with
  | [] => None
  | e :: l =>
    match min_by_key l with
    | Some e' => if evict_key_lt e'.2 e.2 then Some e' else Some e
    | None => Some e
    end
  end.

Definition evict_if_full (m : limiter) (incoming : IpAddr) : limiter :=
  if decide (size m < MAX_TRACKED)%nat then m
  else match m !! incoming with
  | Some _ => m
  | None =>
    match min_by_key (filter (λ e, e.1 ≠ incoming) (iter m)) with
    | Some victim => delete victim.1 m
    | None => m
    end
  end.

Definition is_blocked (m : limiter) (ip : IpAddr) (now : Z) : limiter * bool :=
  let m := gc m now in
  (m, match m !! ip with
      | None => false
      | Some state => match locked_until state with Some until => now <? until | None => false end
      end).

Definition record_success (m : limiter) (ip : IpAddr) : limiter := delete ip m.

Definition saturating_add_u32 (a b : Z) : Z := Z.min (a + b) (2 ^ 32 - 1).

(** The part of [record_failure] that works on the entry, old or new. *)
Definition fail_state (state : FailureState) (now : Z) : FailureState :=
  let locked := match locked_until state with Some until => now <? until | None => false end in
  if locked then state
  else
    let state := if duration_since now (first state) >? WINDOW
                 then {| count := 0; first := now; locked_until := None |} else state in
    let n := saturating_add_u32 (count state) 1 in
    {| count := n; first := first state;
       locked_until := if n >=? MAX_FAILURES then Some (now + LOCKOUT) else locked_until state |}.

Definition record_failure (m : limiter) (ip : IpAddr) (now : Z) : limiter :=
  let m := gc m now in
  let m := evict_if_full m ip in
  let state := default {| count := 0; first := now; locked_until := None |} (m !! ip) in
  <[ip := fail_state state now]> m.

(** ** Runs *)

Inductive event :=
  | Failure (ip : IpAddr)
  | Success (ip : IpAddr)
  | Query (ip : IpAddr).

Definition step (m : limiter) (now : Z) (e : event) : limiter :=
  match e with
  | Failure ip => record_failure m ip now
  | Success ip => record_success m ip
  | Query ip => (is_blocked m ip now).1
  end.

Fixpoint run_events (m : limiter) (es : list (Z * event)) : limiter :=
  match es with
  | [] => m
  | (now, e) :: es => run_events (step m now e) es
  end.

(** The clock does not run backwards: times from [t0] on, up to [t1]. *)
Fixpoint times_ok (t0 : Z) (es : list (Z * event)) (t1 : Z) : Prop :=
  match es with
  | [] => t0 ≤ t1
  | (now, _) :: es => t0 ≤ now ∧ times_ok now es t1
  end.

(** ** The bound on the table *)

Lemma size_gc m now : (size (gc m now) ≤ size m)%nat.
Proof. unfold gc. apply map_size_filter. Qed.

Lemma min_by_key_Some l : l ≠ [] → ∃ e, min_by_key l = Some e ∧ e ∈ l.
Proof.
  induction l as [|e l IH]; [done|]. intros _. cbn. destruct l as [|e' l].
  - exists e. split; [done|by left].
  - destruct IH as (x & -> & Hx); [done|]. destruct (evict_key_lt x.2 e.2).
    + exists x. split; [done|by right].
    + exists e. split; [done|by left].
Qed.

Lemma iter_lookup m ip s : (ip, s) ∈ iter m ↔ m !! ip = Some s.
Proof. rewrite iter_perm. apply elem_of_map_to_list. Qed.

(** The victim is another address that is in the table. *)
Lemma evict_victim m incoming :
  m ≠ ∅ → m !! incoming = None →
  ∃ e, min_by_key (filter (λ e, e.1 ≠ incoming) (iter m)) = Some e ∧ m !! e.1 = Some e.2 ∧ e.1 ≠ incoming.
Proof.
  intros Hm Hin. destruct (map_choose m Hm) as (ip & s & Hip).
  destruct (min_by_key_Some (filter (λ e, e.1 ≠ incoming) (iter m))) as (e & He & Hel).
  - intros E. assert (Hf : (ip, s) ∈ filter (λ e, e.1 ≠ incoming) (iter m)).
    { apply list_elem_of_filter. split; [cbn; congruence|by apply iter_lookup]. }
    rewrite E in Hf. by apply elem_of_nil in Hf.
  - exists e. split; [done|]. apply list_elem_of_filter in Hel as [Hne Hel]. split; [|done].
    destruct e. by apply iter_lookup in Hel.
Qed.

Lemma limiter_insert_le (m : limiter) ip st : (size (<[ip := st]> m) ≤ S (size m))%nat.
Proof. rewrite map_size_insert. destruct (m !! ip); cbn; lia. Qed.

(** After [evict_if_full] the new entry still fits. *)
Lemma evict_if_full_size m ip st :
  (size m ≤ MAX_TRACKED)%nat → (size (<[ip := st]> (evict_if_full m ip)) ≤ MAX_TRACKED)%nat.
Proof.
  intros Hs. unfold evict_if_full. case_decide as Hlt.
  - pose proof (limiter_insert_le m ip st). lia.
  - destruct (m !! ip) as [s|] eqn:Hip.
    + rewrite map_size_insert_Some by done. done.
    + assert (m ≠ ∅) as Hne.
      { intros ->. rewrite map_size_empty in Hlt. unfold MAX_TRACKED in Hlt. lia. }
      destruct (evict_victim m ip Hne Hip) as (e & -> & He & _).
      pose proof (limiter_insert_le (delete e.1 m) ip st).
      rewrite map_size_delete_Some in * by done. unfold MAX_TRACKED in *. lia.
Qed.

(** ** Entries *)

(** An entry at time [now]: it counts between one and five failures and is
    locked exactly from the fifth on, for at most [LOCKOUT]. *)
Definition entry_ok (now : Z) (s : FailureState) : Prop :=
  1 ≤ count s ∧ first s ≤ now
  ∧ match locked_until s with
    | Some until => count s = MAX_FAILURES ∧ until ≤ now + LOCKOUT
    | None => count s < MAX_FAILURES
    end.

Definition limiter_ok (now : Z) (m : limiter) : Prop :=
  (size m ≤ MAX_TRACKED)%nat ∧ map_Forall (λ _, entry_ok now) m.

Lemma entry_ok_mono now now' s : now ≤ now' → entry_ok now s → entry_ok now' s.
Proof. intros ? (?&?&Hl). split_and!; [done|lia|]. destruct (locked_until s); lia. Qed.

Lemma limiter_ok_empty now : limiter_ok now ∅.
Proof. split; [rewrite map_size_empty; lia|apply map_Forall_empty]. Qed.

Lemma gc_ok now m : limiter_ok now m → limiter_ok now (gc m now).
Proof.
  intros [Hs Hf]. split; [pose proof (size_gc m now); lia|].
  intros ip s Hip. unfold gc in Hip. apply map_lookup_filter_Some in Hip as [Hip _]. by apply (Hf ip).
Qed.

(** A live unlocked entry is in its window, so the window branch of
    [record_failure] is never taken after [gc]. *)
Lemma fail_state_ok now s :
  entry_ok now s ∨ s = {| count := 0; first := now; locked_until := None |} →
  entry_live s now = true → entry_ok now (fail_state s now).
Proof.
  intros Hs Hlive. unfold fail_state, entry_live, entry_ok, saturating_add_u32, LOCKOUT, MAX_FAILURES in *.
  assert (first s ≤ now ∧ 0 ≤ count s) as [Hf Hc] by (destruct Hs as [(?&?&_) | ->]; cbn; lia).
  destruct (locked_until s) as [u|] eqn:Hu.
  - rewrite Hlive. destruct Hs as [(?&?&?) | ->]; [|done]. rewrite Hu. unfold MAX_FAILURES in *. lia.
  - destruct (Z.gtb_spec (duration_since now (first s)) WINDOW) as [Hw|_]; [apply Z.leb_le in Hlive; lia|].
    assert (count s < 5).
    { destruct Hs as [(_&_&Hl) | ->]; [rewrite ?Hu in Hl; exact Hl|done]. }
    cbn. rewrite Hu, Z.min_l by lia. destruct (Z.geb_spec (count s + 1) 5); lia.
Qed.

Lemma evict_subseteq m ip : evict_if_full m ip ⊆ m.
Proof.
  unfold evict_if_full. repeat case_match; try done. apply delete_subseteq.
Qed.

Lemma evict_lookup m ip : evict_if_full m ip !! ip = m !! ip.
Proof.
  unfold evict_if_full. case_decide; [done|]. destruct (m !! ip) as [s|] eqn:Hip; [done|].
  destruct (min_by_key _) as [e|]; [|done]. by apply lookup_delete_None; right.
Qed.

Lemma gc_live m now ip s : gc m now !! ip = Some s → entry_live s now = true.
Proof. intros Hip. unfold gc in Hip. by apply map_lookup_filter_Some in Hip as [_ ?]. Qed.

Lemma record_failure_ok now m ip : limiter_ok now m → limiter_ok now (record_failure m ip now).
Proof.
  intros Hm. apply gc_ok in Hm as Hg. destruct Hg as [Hs Hf]. unfold record_failure. cbn zeta.
  split; [by apply evict_if_full_size|].
  apply map_Forall_insert_2.
  - rewrite evict_lookup. destruct (gc m now !! ip) as [s|] eqn:Hip; cbn [default].
    + apply fail_state_ok; [left; by apply (Hf ip)|by eapply gc_live].
    + apply fail_state_ok; [by right|]. unfold entry_live, duration_since. cbn.
      apply Z.leb_le. unfold WINDOW. lia.
  - intros ip' s Hip'. apply (Hf ip'). eapply lookup_weaken; [done|apply evict_subseteq].
Qed.

Lemma step_ok now m e : limiter_ok now m → limiter_ok now (step m now e).
Proof.
  intros Hm. destruct e as [ip|ip|ip]; cbn.
  - by apply record_failure_ok.
  - destruct Hm as [Hs Hf]. unfold record_success. split; [|by apply map_Forall_delete].
    rewrite map_size_delete. destruct (m !! ip); cbn; lia.
  - by apply gc_ok.
Qed.

Lemma limiter_run_ok es : ∀ m t0 t1,
  limiter_ok t0 m → times_ok t0 es t1 → limiter_ok t1 (run_events m es).
Proof.
  induction es as [|[now e] es IH]; intros m t0 t1 [Hs Hf] Ht; cbn in *.
  - split; [done|]. intros ip s Hip. eapply entry_ok_mono; [done|by apply (Hf ip)].
  - destruct Ht as [Hle Ht]. eapply IH; [|done]. apply step_ok. split; [done|].
    intros ip s Hip. eapply entry_ok_mono; [done|by apply (Hf ip)].
Qed.

(** ** One address among the others *)

(** The failures of [ip] since its last success. *)
Fixpoint failures (ip : IpAddr) (n : Z) (es : list (Z * event)) : Z :=
  match es with
  | [] => n
  | (_, Failure ip') :: es => failures ip (if decide (ip' = ip) then n + 1 else n) es
  | (_, Success ip') :: es => failures ip (if decide (ip' = ip) then 0 else n) es
  | (_, Query _) :: es => failures ip n es
  end.

Lemma fail_state_count s now :
  0 ≤ count s → count (fail_state s now) ≤ count s + 1.
Proof.
  intros Hc. unfold fail_state, saturating_add_u32.
  destruct (match locked_until s with Some u => now <? u | None => false end); [lia|].
  destruct (duration_since now (first s) >? WINDOW); cbn; lia.
Qed.

Lemma gc_lookup_Some m now ip s : gc m now !! ip = Some s → m !! ip = Some s.
Proof. intros Hip. unfold gc in Hip. by apply map_lookup_filter_Some in Hip as [? _]. Qed.

Definition counted (m : limiter) (ip : IpAddr) (n : Z) : Prop :=
  0 ≤ n ∧ ∀ s, m !! ip = Some s → 0 ≤ count s ≤ n.

Lemma step_counted m now e ip n :
  counted m ip n →
  counted (step m now e) ip
    (match e with
     | Failure ip' => if decide (ip' = ip) then n + 1 else n
     | Success ip' => if decide (ip' = ip) then 0 else n
     | Query _ => n end).
Proof.
  intros [Hn Hc]. destruct e as [ip'|ip'|ip']; cbn [step].
  - unfold record_failure. case_decide as E.
    + subst ip'. split; [lia|]. intros s. rewrite lookup_insert_eq. intros [= <-].
      rewrite evict_lookup. destruct (gc m now !! ip) as [s|] eqn:Hip; cbn [default].
      * specialize (Hc s (gc_lookup_Some _ _ _ _ Hip)).
        pose proof (fail_state_count s now ltac:(lia)). split; [|cbn; lia].
        cbn. unfold fail_state, saturating_add_u32. repeat case_match; cbn; lia.
      * pose proof (fail_state_count {| count := 0; first := now; locked_until := None |} now ltac:(cbn; lia)) as Hf.
        cbn [count] in Hf. split; [|cbn in *; lia].
        cbn. unfold fail_state, saturating_add_u32. repeat case_match; cbn; lia.
    + split; [done|]. intros s. rewrite lookup_insert_ne by done. intros Hs.
      apply Hc. eapply gc_lookup_Some, lookup_weaken; [exact Hs|apply evict_subseteq].
  - unfold record_success. case_decide as E.
    + subst ip'. split; [done|]. intros s. by rewrite lookup_delete_eq.
    + split; [done|]. intros s. rewrite lookup_delete_ne by done. apply Hc.
  - split; [done|]. intros s Hs. apply Hc. exact (gc_lookup_Some m now ip s Hs).
Qed.

Lemma run_events_counted es : ∀ m ip n,
  counted m ip n → counted (run_events m es) ip (failures ip n es).
Proof.
  induction es as [|[now e] es IH]; intros m ip n Hc; [done|].
  apply (step_counted m now e) in Hc. cbn [run_events failures]. destruct e; by apply IH.
Qed.

(** The entry of [ip], that had none at [t0], after [n] failures within the
    window. *)
Definition tracked (t0 now n : Z) (o : option FailureState) : Prop :=
  if decide (n = 0) then o = None
  else ∃ s, o = Some s ∧
    if decide (n < MAX_FAILURES) then count s = n ∧ t0 ≤ first s ≤ now ∧ locked_until s = None
    else ∃ until, locked_until s = Some until ∧ t0 + LOCKOUT ≤ until.

Lemma tracked_live t0 now n s :
  0 ≤ n → tracked t0 now n (Some s) → t0 ≤ now ≤ t0 + WINDOW → entry_live s now = true.
Proof.
  unfold tracked, entry_live, duration_since, WINDOW, LOCKOUT. intros Hn.
  case_decide; [done|]. intros (s' & [= <-] & Hs) Hnow. case_decide.
  - destruct Hs as (_ & Hf & ->). apply Z.leb_le. lia.
  - destruct Hs as (u & -> & Hu). apply Z.ltb_lt. lia.
Qed.

Lemma gc_tracked t0 now n m ip :
  0 ≤ n → tracked t0 now n (m !! ip) → t0 ≤ now ≤ t0 + WINDOW → gc m now !! ip = m !! ip.
Proof.
  intros Hn Ht Hnow. destruct (m !! ip) as [s|] eqn:Hip.
  - apply map_lookup_filter_Some. split; [done|]. by eapply tracked_live.
  - apply map_lookup_filter_None. by left.
Qed.

Lemma tracked_mono t0 now now' n o : now ≤ now' → tracked t0 now n o → tracked t0 now' n o.
Proof.
  unfold tracked. intros Hle. case_decide; [done|]. intros (s & -> & Hs). exists s. split; [done|].
  case_decide; [|done]. destruct Hs as (?&?&?). split_and!; try done; lia.
Qed.

Lemma fail_state_tracked t0 now n o :
  0 ≤ n → tracked t0 now n o → t0 ≤ now ≤ t0 + WINDOW →
  tracked t0 now (n + 1)
    (Some (fail_state (default {| count := 0; first := now; locked_until := None |} o) now)).
Proof.
  intros Hn Ht Hnow. unfold tracked. rewrite decide_False by lia.
  eexists; split; [reflexivity|]. unfold tracked, MAX_FAILURES, WINDOW, LOCKOUT in *.
  assert (∀ s, count s = n → t0 ≤ first s ≤ now → locked_until s = None → n < 5 →
    if decide (n + 1 < 5) then count (fail_state s now) = n + 1
      ∧ t0 ≤ first (fail_state s now) ≤ now ∧ locked_until (fail_state s now) = None
    else ∃ until, locked_until (fail_state s now) = Some until ∧ t0 + 300 * 10 ^ 9 ≤ until) as Hfree.
  { intros s Hc Hf Hl Hlt. unfold fail_state, saturating_add_u32, duration_since, WINDOW, MAX_FAILURES, LOCKOUT.
    rewrite Hl. destruct (Z.gtb_spec (Z.max 0 (now - first s)) (60 * 10 ^ 9)); [lia|].
    cbn [count first locked_until]. rewrite Hc, Z.min_l by lia.
    destruct (decide (n + 1 < 5)), (Z.geb_spec (n + 1) 5); try lia.
    - split_and!; done || lia.
    - eexists; split; [done|]. lia. }
  destruct (decide (n = 0)) as [->|H0].
  - subst o. cbn [default]. apply Hfree; cbn; done || lia.
  - destruct Ht as (s & -> & Hs).
    change (default {| count := 0; first := now; locked_until := None |} (Some s)) with s.
    destruct (decide (n < 5)).
    + destruct Hs as (?&?&?). by apply Hfree.
    + rewrite decide_False by lia. destruct Hs as (u & Hu & Hle). exists u. split; [|done].
      unfold fail_state. rewrite Hu. assert (now <? u = true) as -> by lia. done.
Qed.

(** While the table does not fill up, other addresses do not disturb [ip]. *)
Lemma run_events_tracked ip es : ∀ m t0 now n t1,
  0 ≤ n → tracked t0 now n (m !! ip) → t0 ≤ now → times_ok now es t1 → t1 ≤ t0 + WINDOW →
  (size m + length es < MAX_TRACKED)%nat → Forall (λ e, e.2 ≠ Success ip) es →
  tracked t0 t1 (failures ip n es) (run_events m es !! ip).
Proof.
  induction es as [|[now' e] es IH]; intros m t0 now n t1 Hn Ht Hle Htimes Hw Hsize Hes; cbn [times_ok] in *.
  - cbn. by eapply tracked_mono.
  - destruct Htimes as [Hnow Htimes]. apply Forall_cons in Hes as [He Hes]. cbn [snd length] in *.
    assert (Hend : now' ≤ t1).
    { clear -Htimes. revert now' Htimes. induction es as [|[a b] es IH]; cbn; [lia|].
      intros now' [? H']. specialize (IH _ H'). lia. }
    apply (tracked_mono t0 now now') in Ht; [|done].
    pose proof (gc_tracked t0 now' n m ip Hn Ht ltac:(lia)) as Hgc.
    pose proof (size_gc m now') as Hsg.
    cbn [run_events failures]. destruct e as [ip'|ip'|ip']; cbn [step].
    + assert (Hev : evict_if_full (gc m now') ip' = gc m now').
      { unfold evict_if_full. rewrite decide_True by lia. done. }
      assert (Hsz : (size (record_failure m ip' now') ≤ S (size m))%nat).
      { unfold record_failure. rewrite Hev. etrans; [apply limiter_insert_le|]. lia. }
      eapply IH; [|..|exact Htimes|done|lia|done]; [case_decide; lia| |lia].
      unfold record_failure. rewrite Hev. case_decide as E.
      * subst ip'. rewrite lookup_insert_eq, Hgc. by apply fail_state_tracked; [| |lia].
      * rewrite lookup_insert_ne by done. by rewrite Hgc.
    + rewrite decide_False by congruence.
      assert ((size (record_success m ip') ≤ size m)%nat).
      { unfold record_success. rewrite map_size_delete. destruct (m !! ip'); cbn; lia. }
      eapply IH; [done| |..|exact Htimes|done|lia|done]; [|lia].
      unfold record_success. by rewrite lookup_delete_ne by congruence.
    + eapply IH; [done| |..|exact Htimes|done|cbn; lia|done]; [|lia]. cbn. by rewrite Hgc.
Qed.
End AuthLimiter.

(** ** Properties *)

(** The table is bounded and well formed after any sequence of failures,
    successes and queries, from any addresses, with a clock that does not run
    backwards: at most 4096 addresses are tracked, every entry counts one to
    five failures, and it is locked exactly when it counts five, never beyond
    five minutes from now.  This holds for every iteration order of the map. *)
Theorem auth_limiter_bounded {IpAddr} `{Countable IpAddr} iter
    (iter_perm : ∀ m : gmap IpAddr FailureState, iter m ≡ₚ map_to_list m) es t0 t1 :
  times_ok t0 es t1 →
  (size (run_events iter ∅ es) ≤ MAX_TRACKED)%nat
  ∧ map_Forall (λ _, entry_ok t1) (run_events iter ∅ es).
Proof.
  intros Ht. destruct (limiter_run_ok iter iter_perm es ∅ t0 t1) as [Hs Hf]; [|done|done].
  apply limiter_ok_empty.
Qed.

(** Lockout: if an address without a record fails five times or more within
    one minute, with no success of its own in between and whatever other
    addresses do as long as the table does not fill up, it is blocked until at
    least five minutes after the minute began. *)
Theorem auth_lockout {IpAddr} `{Countable IpAddr} iter
    (iter_perm : ∀ m : gmap IpAddr FailureState, iter m ≡ₚ map_to_list m) ip m es t0 t1 t :
  m !! ip = None → times_ok t0 es t1 → t1 ≤ t0 + WINDOW →
  (size m + length es < MAX_TRACKED)%nat → Forall (λ e, e.2 ≠ Success ip) es →
  MAX_FAILURES ≤ failures ip 0 es → t1 ≤ t < t0 + LOCKOUT →
  (is_blocked (run_events iter m es) ip t).2 = true.
Proof.
  intros Hm Htimes Hw Hsize Hes Hn Ht. unfold MAX_FAILURES in Hn.
  pose proof (run_events_tracked iter ip es m t0 t0 0 t1 ltac:(lia)) as H'.
  specialize (H' ltac:(by rewrite Hm) ltac:(lia) Htimes Hw Hsize Hes).
  unfold tracked, MAX_FAILURES in H'. rewrite !decide_False in H' by lia.
  destruct H' as (s & Hs & H'). rewrite ?decide_False in H' by lia.
  destruct H' as (u & Hu & Hle). unfold is_blocked. cbn [snd].
  assert (gc (run_events iter m es) t !! ip = Some s) as ->.
  { apply map_lookup_filter_Some. split; [exact Hs|]. cbn. unfold entry_live. rewrite Hu. lia. }
  rewrite Hu. lia.
Qed.

(** No false lockout: an address is only reported as blocked when it failed
    at least five times since its last success, and no later than five minutes
    after the last event the limiter saw. *)
Theorem auth_no_false_lockout {IpAddr} `{Countable IpAddr} iter
    (iter_perm : ∀ m : gmap IpAddr FailureState, iter m ≡ₚ map_to_list m) ip es t0 t1 t :
  times_ok t0 es t1 → t1 ≤ t →
  (is_blocked (run_events iter ∅ es) ip t).2 = true →
  MAX_FAILURES ≤ failures ip 0 es ∧ t < t1 + LOCKOUT.
Proof.
  intros Ht Hle Hb. unfold is_blocked in Hb. cbn [snd] in Hb.
  destruct (gc _ t !! ip) as [s|] eqn:Hs; [|done]. apply gc_lookup_Some in Hs.
  destruct (locked_until s) as [u|] eqn:Hu; [|done].
  destruct (limiter_run_ok iter iter_perm es ∅ t0 t1 (limiter_ok_empty t0) Ht) as [_ Hf].
  destruct (Hf ip s Hs) as (_ & _ & Hl). rewrite Hu in Hl.
  assert (counted (∅ : gmap IpAddr FailureState) ip 0) as Hc by (split; [done|]; intros ? [=]).
  apply (run_events_counted iter es) in Hc as [_ Hc]. specialize (Hc s Hs). lia.
Qed.

Definition order_Z : gmap Z FailureState → list (Z * FailureState) := map_to_list.
Definition five_failures : list (Z * event (IpAddr:=Z)) :=
  [(0, Failure 7); (1, Failure 7); (2, Failure 9); (3, Failure 7); (4, Query 7); (5, Failure 7);
   (6, Failure 7)].

Lemma auth_limiter_bounded_witness :
  (size (run_events order_Z ∅ five_failures) ≤ MAX_TRACKED)%nat.
Proof.
  apply (auth_limiter_bounded order_Z (λ m, Permutation_refl _) five_failures 0 10).
  cbn. lia.
Defined.

Lemma auth_lockout_witness :
  (is_blocked (run_events order_Z ∅ five_failures) 7 (299 * 10 ^ 9)).2 = true.
Proof.
  refine (auth_lockout order_Z (λ m, Permutation_refl _) 7 ∅ five_failures 0 10 (299 * 10 ^ 9)
    _ _ _ _ _ _ _).
  - reflexivity.
  - cbn. lia.
  - vm_compute. congruence.
  - rewrite map_size_empty. unfold MAX_TRACKED. cbn [length five_failures]. lia.
  - repeat constructor; discriminate.
  - vm_compute. congruence.
  - unfold LOCKOUT. lia.
Defined.

Lemma auth_no_false_lockout_witness :
  (is_blocked (run_events order_Z ∅ five_failures) 7 20).2 = true
  ∧ MAX_FAILURES ≤ failures 7 0 five_failures.
Proof.
  assert (Hb : (is_blocked (run_events order_Z ∅ five_failures) 7 20).2 = true)
    by (vm_compute; reflexivity).
  split; [exact Hb|].
  refine (proj1 (auth_no_false_lockout order_Z (λ m, Permutation_refl _) 7 five_failures 0 10 20
    _ _ Hb)).
  - cbn. lia.
  - lia.
Defined.
