(* ===== verification/Input.v ===== *)
(** Keyboard and mouse injection: [ConnectionScopedInput] of
    [rdpcore-server/src/input.rs], one per connection, in front of the shared
    [Input] of [kmsrdp/src/bin/rdp_server.rs] with its reference counts, and the
    scancode table of [kmsrdp/src/uinput.rs]. *)
From stdpp Require Import gmap fin_sets.
From S2P Require Import Prelude.

(** ** Events *)

Inductive KeyboardEvent :=
  | Pressed (code : Z) (extended : bool)
  | Released (code : Z) (extended : bool)
  | UnicodePressed (unit : Z).

Inductive MouseEvent :=
  | Move (x y : Z)
  | LeftPressed | LeftReleased
  | RightPressed | RightReleased
  | MiddlePressed | MiddleReleased
  | VerticalScroll (value : Z)
  | HorizontalScroll (value : Z).

Inductive HeldButton := Left | Right | Middle.
#[global] Instance HeldButton_eq_dec : EqDecision HeldButton.
Proof. solve_decision. Defined.
#[global] Instance HeldButton_countable : Countable HeldButton.
Proof.
  refine (inj_countable' (λ b, match b with Left => 0%nat | Right => 1%nat | Middle => 2%nat end)
    (λ n, match n with 0%nat => Left | 1%nat => Right | _ => Middle end) _).
  by intros [].
Defined.

Abbreviation scancode := (Z * bool)%type.

(** ** [ConnectionScopedInput] *)

Record ConnectionScopedInput := {
  pressed_keys : gset scancode;
  pressed_buttons : gset HeldButton
}.

Definition ConnectionScopedInput_new : ConnectionScopedInput :=
  {| pressed_keys := ∅; pressed_buttons := ∅ |}.

(** An event for the shared handler. *)
Inductive input_event := Keyboard (e : KeyboardEvent) | Mouse (e : MouseEvent).

(** The handlers return the new state and the events forwarded to the shared
    handler. *)
Definition ConnectionScopedInput_keyboard (c : ConnectionScopedInput) (event : KeyboardEvent)
  : ConnectionScopedInput * list input_event :=
  match event with
  | Pressed code extended =>
    (* [HashSet::insert] is true when the element is new *)
    let forward := bool_decide ((code, extended) ∉ pressed_keys c) in
    ({| pressed_keys := {[(code, extended)]} ∪ pressed_keys c;
        pressed_buttons := pressed_buttons c |},
     if forward then [Keyboard event] else [])
  | Released code extended =>
    ({| pressed_keys := pressed_keys c ∖ {[(code, extended)]};
        pressed_buttons := pressed_buttons c |}, [Keyboard event])
  | UnicodePressed _ => (c, [Keyboard event])
  end.

Definition ConnectionScopedInput_mouse (c : ConnectionScopedInput) (event : MouseEvent)
  : ConnectionScopedInput * list input_event :=
  let press b := {| pressed_keys := pressed_keys c; pressed_buttons := {[b]} ∪ pressed_buttons c |} in
  let release b := {| pressed_keys := pressed_keys c; pressed_buttons := pressed_buttons c ∖ {[b]} |} in
  (match event with
   | LeftPressed => press Left
   | LeftReleased => release Left
   | RightPressed => press Right
   | RightReleased => release Right
   | MiddlePressed => press Middle
   | MiddleReleased => release Middle
   | Move _ _ | VerticalScroll _ | HorizontalScroll _ => c
   end, [Mouse event]).

Definition release_button (b : HeldButton) : MouseEvent :=
  match b with Left => LeftReleased | Right => RightReleased | Middle => MiddleReleased end.

(** The order in which a [HashSet] is drained is unspecified. *)
Record drain_order := {
  drain_keys : gset scancode → list scancode;
  drain_buttons : gset HeldButton → list HeldButton;
  drain_keys_perm : ∀ s, drain_keys s ≡ₚ elements s;
  drain_buttons_perm : ∀ s, drain_buttons s ≡ₚ elements s
}.

Definition ConnectionScopedInput_reset (o : drain_order) (c : ConnectionScopedInput)
  : ConnectionScopedInput * list input_event :=
  let keys := drain_keys o (pressed_keys c) in
  let buttons := drain_buttons o (pressed_buttons c) in
  ({| pressed_keys := ∅; pressed_buttons := ∅ |},
   ((λ k : scancode, Keyboard (Released k.1 k.2)) <$> keys)
   ++ ((λ b, Mouse (release_button b)) <$> buttons)).

(** ** The scancode table *)

Definition base_keys : list (Z * Z) :=
  [(0x79, 92); (0x7b, 94); (0x70, 93); (0x77, 85); (0x73, 89); (0x7d, 124); (0x54, 99)].
Definition extended_keys : list (Z * Z) :=
  [(0x1d, 97); (0x38, 100); (0x1c, 96); (0x35, 98); (0x37, 99); (0x46, 119); (0x48, 103);
   (0x4b, 105); (0x4d, 106); (0x50, 108); (0x47, 102); (0x4f, 107); (0x49, 104); (0x51, 109);
   (0x52, 110); (0x53, 111); (0x5b, 125); (0x5c, 126); (0x5d, 127); (0x20, 113); (0x2e, 114);
   (0x30, 115); (0x22, 164); (0x24, 166); (0x10, 165); (0x19, 163); (0x21, 140); (0x5f, 142)].

Fixpoint match_code (code : Z) (arms : list (Z * Z)) : option Z :=
  match arms with
  | [] => None
  | (c, k) :: arms => if code =? c then Some k else match_code code arms
  end.

Definition linux_keycode_from_rdp_scancode (code : Z) (extended : bool) : option Z :=
  if negb extended then Some (default code (match_code code base_keys))
  else match_code code extended_keys.

(** ** The shared [Input] *)

(** The button codes of the kernel's input header, which the program takes from
    its bindings: three different codes. *)
Class ButtonCodes := {
  BTN_LEFT : Z;
  BTN_RIGHT : Z;
  BTN_MIDDLE : Z;
  btn_left_right : BTN_LEFT ≠ BTN_RIGHT;
  btn_left_middle : BTN_LEFT ≠ BTN_MIDDLE;
  btn_right_middle : BTN_RIGHT ≠ BTN_MIDDLE
}.

Record Input := {
  in_pressed_keys : gmap Z Z;
  in_pressed_buttons : gmap Z Z
}.

(** What the handler asks of the virtual device.  Its errors are only logged, so
    they do not influence the state. *)
Inductive device_call :=
  | DevKey (keycode : Z) (down : bool)
  | DevButton (button : Z) (down : bool)
  | DevMove (x y : Z)
  | DevScroll (value : Z)
  | DevHscroll (value : Z)
  | TypeChar (unit : Z).

(** The new counts, and the argument of [inject] if it is called. *)
Definition inject_held (counts : gmap Z Z) (id : Z) (down : bool) : gmap Z Z * option bool :=
  if down then
    let n := Z.min (default 0 (counts !! id) + 1) (2 ^ 32 - 1) in
    (<[id := n]> counts, if n =? 1 then Some true else None)
  else
    match counts !! id with
    | Some c => if c >? 1 then (<[id := c - 1]> counts, None) else (delete id counts, Some false)
    | None => (counts, Some false)
    end.

Definition Input_keyboard (i : Input) (event : KeyboardEvent) : Input * list device_call :=
  let held code extended down :=
    match linux_keycode_from_rdp_scancode code extended with
    | Some keycode =>
      let '(counts, inject) := inject_held (in_pressed_keys i) keycode down in
      ({| in_pressed_keys := counts; in_pressed_buttons := in_pressed_buttons i |},
       match inject with Some down => [DevKey keycode down] | None => [] end)
    | None => (i, [])
    end in
  match event with
  | Pressed code extended => held code extended true
  | Released code extended => held code extended false
  | UnicodePressed unit => (i, [TypeChar unit])
  end.

Section device.
Context `{ButtonCodes}.

Definition Input_mouse (i : Input) (event : MouseEvent) : Input * list device_call :=
  let button :=
    match event with
    | LeftPressed | LeftReleased => Some BTN_LEFT
    | RightPressed | RightReleased => Some BTN_RIGHT
    | MiddlePressed | MiddleReleased => Some BTN_MIDDLE
    | Move _ _ | VerticalScroll _ | HorizontalScroll _ => None
    end in
  let down := match event with LeftPressed | RightPressed | MiddlePressed => true | _ => false end in
  match button with
  | Some button =>
    let '(counts, inject) := inject_held (in_pressed_buttons i) button down in
    ({| in_pressed_keys := in_pressed_keys i; in_pressed_buttons := counts |},
     match inject with Some down => [DevButton button down] | None => [] end)
  | None =>
    (i, match event with
        | Move x y => [DevMove x y]
        | VerticalScroll value => [DevScroll value]
        | HorizontalScroll value => [DevHscroll value]
        | _ => []
        end)
  end.

(** [reset] of the shared handler, at process shutdown: release whatever is
    held; the order of the map is unspecified, [map_to_list] stands for it. *)
Definition Input_reset (i : Input) : Input * list device_call :=
  ({| in_pressed_keys := ∅; in_pressed_buttons := ∅ |},
   ((λ e : Z * Z, DevKey e.1 false) <$> map_to_list (in_pressed_keys i))
   ++ ((λ e : Z * Z, DevButton e.1 false) <$> map_to_list (in_pressed_buttons i))).

Definition Input_event (i : Input) (e : input_event) : Input * list device_call :=
  match e with Keyboard e => Input_keyboard i e | Mouse e => Input_mouse i e end.

Fixpoint Input_events (i : Input) (es : list input_event) : Input * list device_call :=
  match es with
  | [] => (i, [])
  | e :: es =>
    let '(i, calls) := Input_event i e in
    let '(i, calls') := Input_events i es in
    (i, calls ++ calls')
  end.

(** ** Sessions sharing the device *)

(** The connections and the shared handler behind them. *)
Record system := { sessions : gmap nat ConnectionScopedInput; shared : Input }.

Inductive action :=
  | Connect (id : nat)
  | Key (id : nat) (e : KeyboardEvent)
  | Point (id : nat) (e : MouseEvent)
  | Disconnect (id : nat).

Definition forward (s : system) (id : nat) (r : ConnectionScopedInput * list input_event)
  : system * list device_call :=
  let '(i, calls) := Input_events (shared s) r.2 in
  ({| sessions := <[id := r.1]> (sessions s); shared := i |}, calls).

(** An action of a session that is not connected does not happen. *)
Definition system_step (o : drain_order) (s : system) (a : action) : system * list device_call :=
  match a with
  | Connect id =>
    match sessions s !! id with
    | Some _ => (s, [])
    | None => ({| sessions := <[id := ConnectionScopedInput_new]> (sessions s); shared := shared s |}, [])
    end
  | Key id e =>
    match sessions s !! id with
    | Some c => forward s id (ConnectionScopedInput_keyboard c e)
    | None => (s, [])
    end
  | Point id e =>
    match sessions s !! id with
    | Some c => forward s id (ConnectionScopedInput_mouse c e)
    | None => (s, [])
    end
  | Disconnect id =>
    match sessions s !! id with
    | Some c =>
      let '(s, calls) := forward s id (ConnectionScopedInput_reset o c) in
      ({| sessions := delete id (sessions s); shared := shared s |}, calls)
    | None => (s, [])
    end
  end.

(** The keys and buttons the device reports as held. *)
Record device := { down_keys : gset Z; down_buttons : gset Z }.

Definition set_down (down : bool) (k : Z) (s : gset Z) : gset Z :=
  if down then {[k]} ∪ s else s ∖ {[k]}.

Definition apply_call (d : device) (call : device_call) : device :=
  match call with
  | DevKey k down => {| down_keys := set_down down k (down_keys d); down_buttons := down_buttons d |}
  | DevButton b down => {| down_keys := down_keys d; down_buttons := set_down down b (down_buttons d) |}
  | _ => d
  end.

Fixpoint run_actions (o : drain_order) (s : system) (d : device) (acts : list action)
  : system * device :=
  match acts with
  | [] => (s, d)
  | a :: acts =>
    let '(s, calls) := system_step o s a in
    run_actions o s (foldl apply_call d calls) acts
  end.

Definition system_init : system :=
  {| sessions := ∅; shared := {| in_pressed_keys := ∅; in_pressed_buttons := ∅ |} |}.
Definition device_init : device := {| down_keys := ∅; down_buttons := ∅ |}.

(** What a session holds. *)
Definition session_holds_key (s : system) (id : nat) (sc : scancode) : Prop :=
  ∃ c, sessions s !! id = Some c ∧ sc ∈ pressed_keys c.
Definition session_holds_button (s : system) (id : nat) (b : HeldButton) : Prop :=
  ∃ c, sessions s !! id = Some c ∧ b ∈ pressed_buttons c.

Definition button_event (e : MouseEvent) : option (HeldButton * bool) :=
  match e with
  | LeftPressed => Some (Left, true) | LeftReleased => Some (Left, false)
  | RightPressed => Some (Right, true) | RightReleased => Some (Right, false)
  | MiddlePressed => Some (Middle, true) | MiddleReleased => Some (Middle, false)
  | _ => None
  end.

(** A client that releases only keys it holds, and presses a button only when it
    does not hold it. *)
Definition well_behaved (s : system) (a : action) : Prop :=
  match a with
  | Key id (Released code extended) => session_holds_key s id (code, extended)
  | Point id e =>
    match button_event e with
    | Some (b, true) => ¬ session_holds_button s id b
    | Some (b, false) => session_holds_button s id b
    | None => True
    end
  | _ => True
  end.

Fixpoint all_well_behaved (o : drain_order) (s : system) (acts : list action) : Prop :=
  match acts with
  | [] => True
  | a :: acts => well_behaved s a ∧ all_well_behaved o (system_step o s a).1 acts
  end.

(** ** Reference counts *)

Section counts.
Context {A : Type} `{Countable A} (code_of : A → option Z).

(** The holders of a code among the held pairs of session and key. *)
Definition holders (G : gset (nat * A)) (k : Z) : gset (nat * A) :=
  filter (λ x, code_of x.2 = Some k) G.

Definition counts_ok (G : gset (nat * A)) (counts : gmap Z Z) : Prop :=
  ∀ k, counts !! k = if decide (size (holders G k) = 0%nat) then None
                     else Some (Z.of_nat (size (holders G k))).

Lemma holders_insert G x k :
  x ∉ G → size (holders ({[x]} ∪ G) k)
    = if decide (code_of x.2 = Some k) then S (size (holders G k)) else size (holders G k).
Proof.
  intros Hx. case_decide as E.
  - assert (holders ({[x]} ∪ G) k = {[x]} ∪ holders G k) as -> by (unfold holders; set_solver).
    rewrite size_union, size_singleton; [done|]. unfold holders. set_solver.
  - f_equal. unfold holders. set_solver.
Qed.

Lemma holders_delete G x k :
  x ∈ G → size (holders G k)
    = if decide (code_of x.2 = Some k) then S (size (holders (G ∖ {[x]}) k))
      else size (holders (G ∖ {[x]}) k).
Proof.
  intros Hx. assert (G = {[x]} ∪ G ∖ {[x]}) as E.
  { apply set_eq. intros y. destruct (decide (y = x)); set_solver. }
  rewrite E at 1. apply holders_insert. set_solver.
Qed.

Lemma holders_size G k : (size (holders G k) ≤ size G)%nat.
Proof. apply subseteq_size. unfold holders. set_solver. Qed.

Lemma counts_ok_empty : counts_ok ∅ ∅.
Proof.
  intros k. assert (holders ∅ k = ∅) as -> by (unfold holders; set_solver).
  by rewrite size_empty, lookup_empty.
Qed.

(** A press that is new to the session. *)
Lemma inject_press G counts x k :
  counts_ok G counts → x ∉ G → code_of x.2 = Some k → Z.of_nat (size G) < 2 ^ 32 - 1 →
  let '(counts', inject) := inject_held counts k true in
  counts_ok ({[x]} ∪ G) counts'
  ∧ inject = if decide (is_Some (counts !! k)) then None else Some true.
Proof.
  intros Hc Hx Hk Hsize. unfold inject_held.
  pose proof (holders_size G k) as Hle.
  assert (default 0 (counts !! k) = Z.of_nat (size (holders G k))) as ->.
  { rewrite Hc. case_decide as E; cbn; [by rewrite E|done]. }
  rewrite Z.min_l by lia. split.
  - intros k'. rewrite holders_insert by done. destruct (decide (code_of x.2 = Some k')) as [Ek|Ek].
    + assert (k' = k) as -> by congruence. rewrite lookup_insert_eq, decide_False by lia. f_equal. lia.
    + rewrite lookup_insert_ne by congruence. apply Hc.
  - rewrite Hc. destruct (decide (size (holders G k) = 0%nat)) as [->|Hne].
    + done.
    + rewrite decide_True by (by eexists). by assert (Z.of_nat (size (holders G k)) + 1 =? 1 = false) as -> by lia.
Qed.

(** A release of a key the session holds. *)
Lemma inject_release G counts x k :
  counts_ok G counts → x ∈ G → code_of x.2 = Some k →
  let '(counts', inject) := inject_held counts k false in
  counts_ok (G ∖ {[x]}) counts'
  ∧ inject = if decide (is_Some (counts' !! k)) then None else Some false.
Proof.
  intros Hc Hx Hk. unfold inject_held.
  pose proof (holders_delete G x k Hx) as Hsz. rewrite decide_True in Hsz by done.
  rewrite Hc, decide_False by lia.
  assert (Hother : ∀ k', k' ≠ k → size (holders (G ∖ {[x]}) k') = size (holders G k')).
  { intros k' Hne. rewrite (holders_delete G x k') by done. rewrite decide_False by congruence. done. }
  destruct (Z.gtb_spec (Z.of_nat (size (holders G k))) 1).
  - split.
    + intros k'. destruct (decide (k' = k)) as [->|Hne].
      * rewrite lookup_insert_eq, decide_False by lia. f_equal. lia.
      * rewrite lookup_insert_ne, Hother by done. apply Hc.
    + rewrite lookup_insert_eq. done.
  - split.
    + intros k'. destruct (decide (k' = k)) as [->|Hne].
      * rewrite lookup_delete_eq, decide_True by lia. done.
      * rewrite lookup_delete_ne, Hother by done. apply Hc.
    + rewrite lookup_delete_eq. done.
Qed.

(** A key without a code does not count. *)
Lemma counts_ok_nocode_insert G counts x :
  counts_ok G counts → code_of x.2 = None → counts_ok ({[x]} ∪ G) counts.
Proof.
  intros Hc Hx k. rewrite Hc. destruct (decide (x ∈ G)).
  - by replace ({[x]} ∪ G) with G by set_solver.
  - rewrite !holders_insert by done. rewrite (decide_False (P := code_of x.2 = Some k)) by congruence. done.
Qed.

Lemma counts_ok_nocode_delete G counts x :
  counts_ok G counts → x ∈ G → code_of x.2 = None → counts_ok (G ∖ {[x]}) counts.
Proof.
  intros Hc Hin Hx k. rewrite Hc, (holders_delete G x k) by done.
  rewrite (decide_False (P := code_of x.2 = Some k)) by congruence. done.
Qed.

Lemma counts_ok_held G counts k :
  counts_ok G counts → is_Some (counts !! k) ↔ ∃ id a, (id, a) ∈ G ∧ code_of a = Some k.
Proof.
  intros Hc. rewrite Hc. split.
  - destruct (decide (size (holders G k) = 0%nat)) as [|E]; [by intros []|]. intros _.
    destruct (size_pos_elem_of (holders G k)) as [[id a] Hx]; [lia|].
    apply elem_of_filter in Hx as [? ?]. by exists id, a.
  - intros (id & a & Hin & Hk). rewrite decide_False; [by eexists|].
    intros E%size_empty_inv. assert (Hm : (id, a) ∈ holders G k) by (by apply elem_of_filter).
    apply E in Hm. by apply not_elem_of_empty in Hm.
Qed.
End counts.

(** ** The invariant of the sessions *)

Definition key_code (sc : scancode) : option Z := linux_keycode_from_rdp_scancode sc.1 sc.2.
Definition button_code (b : HeldButton) : option Z :=
  Some (match b with Left => BTN_LEFT | Right => BTN_RIGHT | Middle => BTN_MIDDLE end).

(** The shared handler and the device, when [GK] and [GB] are the pairs of a
    session and what it holds. *)
Record shared_ok (GK : gset (nat * scancode)) (GB : gset (nat * HeldButton)) (i : Input) (d : device)
  : Prop := {
  ok_keys : counts_ok key_code GK (in_pressed_keys i);
  ok_buttons : counts_ok button_code GB (in_pressed_buttons i);
  ok_down_keys : ∀ k, k ∈ down_keys d ↔ is_Some (in_pressed_keys i !! k);
  ok_down_buttons : ∀ k, k ∈ down_buttons d ↔ is_Some (in_pressed_buttons i !! k)
}.

Lemma inject_down counts k down (s : gset Z) :
  (∀ k', k' ∈ s ↔ is_Some (counts !! k')) →
  let '(counts', inject) := inject_held counts k down in
  (inject = if down then (if decide (is_Some (counts !! k)) then None else Some true)
            else (if decide (is_Some (counts' !! k)) then None else Some false)) →
  ∀ k', k' ∈ (match inject with Some v => set_down v k s | None => s end) ↔ is_Some (counts' !! k').
Proof.
  intros Hs. unfold inject_held. destruct down.
  - intros -> k'. destruct (decide (k' = k)) as [->|Hne].
    + rewrite lookup_insert_eq. case_decide; cbn.
      * split; [by eexists|]. intros _. by apply Hs.
      * split; [by eexists|]. intros _. set_solver.
    + rewrite lookup_insert_ne by done. rewrite <-(Hs k'). case_decide; cbn; set_solver.
  - destruct (counts !! k) as [c|] eqn:Hk; [destruct (c >? 1)|]; cbn; intros _ k'.
    + destruct (decide (k' = k)) as [->|Hne].
      * rewrite lookup_insert_eq, Hs, Hk. split; by eexists.
      * by rewrite lookup_insert_ne by done.
    + destruct (decide (k' = k)) as [->|Hne].
      * rewrite lookup_delete_eq. split; [set_solver|by intros []].
      * rewrite lookup_delete_ne, <-(Hs k') by done. set_solver.
    + destruct (decide (k' = k)) as [->|Hne].
      * rewrite Hk. split; [set_solver|by intros []].
      * rewrite <-(Hs k'). set_solver.
Qed.

Lemma key_press_ok GK GB i d id code ext :
  shared_ok GK GB i d → (id, (code, ext)) ∉ GK → Z.of_nat (size GK) < 2 ^ 32 - 1 →
  let '(i', calls) := Input_keyboard i (Pressed code ext) in
  shared_ok ({[(id, (code, ext))]} ∪ GK) GB i' (foldl apply_call d calls).
Proof.
  intros [] Hx Hsize. cbn [Input_keyboard]. destruct (linux_keycode_from_rdp_scancode code ext) as [k|] eqn:Hk.
  - pose proof (inject_press key_code GK _ (id, (code, ext)) k ok_keys0 Hx Hk Hsize) as Hp.
    pose proof (inject_down (in_pressed_keys i) k true (down_keys d) ok_down_keys0) as Hd.
    destruct (inject_held (in_pressed_keys i) k true) as [counts inject].
    destruct Hp as [Hc Hi]. specialize (Hd Hi).
    destruct inject as [v|]; split; first [exact Hc|exact Hd|assumption].
  - split; cbn; try done. by apply counts_ok_nocode_insert.
Qed.

Lemma key_release_ok GK GB i d id code ext :
  shared_ok GK GB i d → (id, (code, ext)) ∈ GK →
  let '(i', calls) := Input_keyboard i (Released code ext) in
  shared_ok (GK ∖ {[(id, (code, ext))]}) GB i' (foldl apply_call d calls).
Proof.
  intros [] Hx. cbn [Input_keyboard]. destruct (linux_keycode_from_rdp_scancode code ext) as [k|] eqn:Hk.
  - pose proof (inject_release key_code GK _ (id, (code, ext)) k ok_keys0 Hx Hk) as Hp.
    pose proof (inject_down (in_pressed_keys i) k false (down_keys d) ok_down_keys0) as Hd.
    destruct (inject_held (in_pressed_keys i) k false) as [counts inject].
    destruct Hp as [Hc Hi]. specialize (Hd Hi).
    destruct inject as [v|]; split; first [exact Hc|exact Hd|assumption].
  - split; cbn; try done. by apply counts_ok_nocode_delete.
Qed.

Lemma button_event_code e b down :
  button_event e = Some (b, down) →
  ∃ k, button_code b = Some k ∧ ∀ i, Input_mouse i e =
    let '(counts, inject) := inject_held (in_pressed_buttons i) k down in
    ({| in_pressed_keys := in_pressed_keys i; in_pressed_buttons := counts |},
     match inject with Some down => [DevButton k down] | None => [] end).
Proof. destruct e; cbn; intros [= <- <-]; eexists; done. Qed.

Lemma button_press_ok GK GB i d id e b :
  shared_ok GK GB i d → button_event e = Some (b, true) → (id, b) ∉ GB →
  Z.of_nat (size GB) < 2 ^ 32 - 1 →
  let '(i', calls) := Input_mouse i e in
  shared_ok GK ({[(id, b)]} ∪ GB) i' (foldl apply_call d calls).
Proof.
  intros [] He Hx Hsize. destruct (button_event_code e b true He) as (k & Hk & ->).
  pose proof (inject_press button_code GB _ (id, b) k ok_buttons0 Hx Hk Hsize) as Hp.
  pose proof (inject_down (in_pressed_buttons i) k true (down_buttons d) ok_down_buttons0) as Hd.
  destruct (inject_held (in_pressed_buttons i) k true) as [counts inject].
  destruct Hp as [Hc Hi]. specialize (Hd Hi). destruct inject as [v|]; split; first [exact Hc|exact Hd|assumption].
Qed.

Lemma button_release_ok GK GB i d id e b :
  shared_ok GK GB i d → button_event e = Some (b, false) → (id, b) ∈ GB →
  let '(i', calls) := Input_mouse i e in
  shared_ok GK (GB ∖ {[(id, b)]}) i' (foldl apply_call d calls).
Proof.
  intros [] He Hx. destruct (button_event_code e b false He) as (k & Hk & ->).
  pose proof (inject_release button_code GB _ (id, b) k ok_buttons0 Hx Hk) as Hp.
  pose proof (inject_down (in_pressed_buttons i) k false (down_buttons d) ok_down_buttons0) as Hd.
  destruct (inject_held (in_pressed_buttons i) k false) as [counts inject].
  destruct Hp as [Hc Hi]. specialize (Hd Hi). destruct inject as [v|]; split; first [exact Hc|exact Hd|assumption].
Qed.

(** Releasing everything a session holds, in any order. *)
Lemma release_keys_ok id GB (ks : list scancode) : ∀ GK i d,
  shared_ok GK GB i d → NoDup ks → (∀ k, k ∈ ks → (id, k) ∈ GK) →
  let '(i', calls) := Input_events i ((λ k : scancode, Keyboard (Released k.1 k.2)) <$> ks) in
  shared_ok (GK ∖ list_to_set (pair id <$> ks)) GB i' (foldl apply_call d calls).
Proof.
  induction ks as [|[code ext] ks IH]; intros GK i d Hok Hnd Hin.
  - cbn. by replace (GK ∖ ∅) with GK by set_solver.
  - apply NoDup_cons in Hnd as [Hnot Hnd]. rewrite fmap_cons. cbn [Input_events Input_event fst snd].
    pose proof (key_release_ok GK GB i d id code ext Hok) as H1.
    specialize (H1 ltac:(apply Hin; by left)).
    destruct (Input_keyboard i (Released code ext)) as [i1 calls1].
    specialize (IH (GK ∖ {[(id, (code, ext))]}) i1 _ H1 Hnd).
    destruct (Input_events i1 _) as [i2 calls2].
    rewrite foldl_app.
    assert (GK ∖ list_to_set (pair id <$> (code, ext) :: ks)
      = GK ∖ {[(id, (code, ext))]} ∖ list_to_set (pair id <$> ks)) as -> by (apply set_eq; set_solver).
    apply IH. intros k Hk. apply elem_of_difference. split; [apply Hin; by right|].
    intros E%elem_of_singleton. injection E as ->. done.
Qed.

Lemma release_buttons_ok id GK (bs : list HeldButton) : ∀ GB i d,
  shared_ok GK GB i d → NoDup bs → (∀ b, b ∈ bs → (id, b) ∈ GB) →
  let '(i', calls) := Input_events i ((λ b, Mouse (release_button b)) <$> bs) in
  shared_ok GK (GB ∖ list_to_set (pair id <$> bs)) i' (foldl apply_call d calls).
Proof.
  induction bs as [|b bs IH]; intros GB i d Hok Hnd Hin.
  - cbn. by replace (GB ∖ ∅) with GB by set_solver.
  - apply NoDup_cons in Hnd as [Hnot Hnd]. rewrite fmap_cons. cbn [Input_events Input_event].
    pose proof (button_release_ok GK GB i d id (release_button b) b Hok) as H1.
    specialize (H1 ltac:(by destruct b) ltac:(apply Hin; by left)).
    destruct (Input_mouse i (release_button b)) as [i1 calls1].
    specialize (IH (GB ∖ {[(id, b)]}) i1 _ H1 Hnd).
    destruct (Input_events i1 _) as [i2 calls2].
    rewrite foldl_app.
    assert (GB ∖ list_to_set (pair id <$> b :: bs)
      = GB ∖ {[(id, b)]} ∖ list_to_set (pair id <$> bs)) as -> by (apply set_eq; set_solver).
    apply IH. intros k Hk. apply elem_of_difference. split; [apply Hin; by right|].
    intros E%elem_of_singleton. injection E as ->. done.
Qed.

Lemma Input_events_app i es1 es2 :
  Input_events i (es1 ++ es2)
  = let '(i, c1) := Input_events i es1 in let '(i, c2) := Input_events i es2 in (i, c1 ++ c2).
Proof.
  revert i; induction es1 as [|e es1 IH]; intros i; cbn.
  - by destruct (Input_events i es2).
  - destruct (Input_event i e) as [i1 c1]. rewrite IH. destruct (Input_events i1 es1) as [i2 c2].
    destruct (Input_events i2 es2) as [i3 c3]. by rewrite app_assoc.
Qed.

(** ** The whole system *)

Definition sys_ok (n : nat) (s : system) (d : device) : Prop :=
  ∃ GK GB, shared_ok GK GB (shared s) d
  ∧ (∀ id sc, (id, sc) ∈ GK ↔ session_holds_key s id sc)
  ∧ (∀ id b, (id, b) ∈ GB ↔ session_holds_button s id b)
  ∧ (size GK ≤ n)%nat ∧ (size GB ≤ n)%nat.

(** Replacing the state of a session. *)
Lemma holds_insert (s : system) id c i :
  let s' := {| sessions := <[id := c]> (sessions s); shared := i |} in
  (∀ id' sc, session_holds_key s' id' sc
    ↔ if decide (id' = id) then sc ∈ pressed_keys c else session_holds_key s id' sc)
  ∧ (∀ id' b, session_holds_button s' id' b
    ↔ if decide (id' = id) then b ∈ pressed_buttons c else session_holds_button s id' b).
Proof.
  split; intros id' x; unfold session_holds_key, session_holds_button; cbn; case_decide as E.
  1,3: subst; rewrite lookup_insert_eq; naive_solver.
  all: by rewrite lookup_insert_ne by done.
Qed.

Lemma session_keys s id c sc :
  sessions s !! id = Some c → session_holds_key s id sc ↔ sc ∈ pressed_keys c.
Proof. unfold session_holds_key. naive_solver. Qed.
Lemma session_buttons s id c b :
  sessions s !! id = Some c → session_holds_button s id b ↔ b ∈ pressed_buttons c.
Proof. unfold session_holds_button. naive_solver. Qed.

Lemma size_union_singleton_le {A} `{Countable A} (x : A) (G : gset A) : (size ({[x]} ∪ G) ≤ S (size G))%nat.
Proof.
  destruct (decide (x ∈ G)).
  - replace ({[x]} ∪ G) with G by set_solver. lia.
  - rewrite size_union, size_singleton by set_solver. lia.
Qed.

(** A step that changes neither what is held nor the shared handler. *)
Lemma sys_ok_same n s s' d :
  sys_ok n s d → shared s' = shared s →
  (∀ id sc, session_holds_key s' id sc ↔ session_holds_key s id sc) →
  (∀ id b, session_holds_button s' id b ↔ session_holds_button s id b) → sys_ok (S n) s' d.
Proof.
  intros (GK & GB & Hok & HK & HB & HnK & HnB) Hs Hk Hb. exists GK, GB. rewrite Hs.
  split_and!; [done| | |lia..].
  - intros. by rewrite HK, Hk.
  - intros. by rewrite HB, Hb.
Qed.

Lemma Input_events_1 i e : Input_events i [e] = Input_event i e.
Proof. cbn. destruct (Input_event i e). by rewrite app_nil_r. Qed.

Lemma step_key_ok n s d id c e :
  sys_ok n s d → sessions s !! id = Some c → well_behaved s (Key id e) → Z.of_nat n < 2 ^ 32 - 1 →
  let '(s', calls) := forward s id (ConnectionScopedInput_keyboard c e) in
  sys_ok (S n) s' (foldl apply_call d calls).
Proof.
  intros (GK & GB & Hok & HK & HB & HnK & HnB) Hc Hw Hn. unfold forward.
  destruct e as [code ext|code ext|u]; cbn [ConnectionScopedInput_keyboard fst snd].
  - case_bool_decide as Hin.
    + rewrite Input_events_1. cbn [Input_event].
      pose proof (key_press_ok GK GB (shared s) d id code ext Hok) as H1.
      specialize (H1 ltac:(rewrite HK, (session_keys s id c) by done; done) ltac:(lia)).
      destruct (Input_keyboard (shared s) (Pressed code ext)) as [i calls].
      set (c' := Build_ConnectionScopedInput _ _).
      destruct (holds_insert s id c' i) as [Hk' Hb'].
      exists ({[(id, (code, ext))]} ∪ GK), GB. split_and!; [exact H1| | |pose proof (size_union_singleton_le (id, (code, ext)) GK); lia|lia].
      * intros id' sc. rewrite Hk'. case_decide as E; [subst id'|]; cbn.
        -- pose proof (HK id sc) as Hi. rewrite (session_keys s id c) in Hi by done. set_solver.
        -- pose proof (HK id' sc). set_solver.
      * intros id' b. rewrite Hb'. case_decide as E; [subst id'|]; cbn; [|apply HB].
        rewrite HB. by apply session_buttons.
    + cbn [Input_events foldl]. set (c' := Build_ConnectionScopedInput _ _).
      destruct (holds_insert s id c' (shared s)) as [Hk' Hb'].
      eapply sys_ok_same; [by exists GK, GB|done|..].
      * intros id' sc. rewrite Hk'. case_decide as E; [subst id'|done].
        rewrite (session_keys s id c) by done. cbn. set_solver.
      * intros id' b. rewrite Hb'. case_decide as E; [subst id'|done].
        by rewrite (session_buttons s id c) by done.
  - rewrite Input_events_1. cbn [Input_event]. cbn [well_behaved] in Hw.
    pose proof (key_release_ok GK GB (shared s) d id code ext Hok) as H1.
    specialize (H1 ltac:(by apply HK)).
    destruct (Input_keyboard (shared s) (Released code ext)) as [i calls].
    set (c' := Build_ConnectionScopedInput _ _).
    destruct (holds_insert s id c' i) as [Hk' Hb'].
    exists (GK ∖ {[(id, (code, ext))]}), GB. split_and!; [exact H1| | | |lia].
    + intros id' sc. rewrite Hk'. case_decide as E; [subst id'|]; cbn.
      * pose proof (HK id sc) as Hi. rewrite (session_keys s id c) in Hi by done. set_solver.
      * pose proof (HK id' sc). set_solver.
    + intros id' b. rewrite Hb'. case_decide as E; [subst id'|]; cbn; [|apply HB].
      rewrite HB. by apply session_buttons.
    + assert (GK ∖ {[(id, (code, ext))]} ⊆ GK) as Hsub by set_solver.
      apply subseteq_size in Hsub. lia.
  - rewrite Input_events_1. cbn.
    destruct (holds_insert s id c (shared s)) as [Hk' Hb'].
    eapply sys_ok_same; [by exists GK, GB|done|..].
    + intros id' sc. rewrite Hk'. case_decide as E; [subst id'|done]. by rewrite (session_keys s id c).
    + intros id' b. rewrite Hb'. case_decide as E; [subst id'|done]. by rewrite (session_buttons s id c).
Qed.

(** The effect of a mouse event on what a session holds. *)
Lemma mouse_held c e :
  pressed_keys (ConnectionScopedInput_mouse c e).1 = pressed_keys c
  ∧ pressed_buttons (ConnectionScopedInput_mouse c e).1
    = match button_event e with
      | Some (b, true) => {[b]} ∪ pressed_buttons c
      | Some (b, false) => pressed_buttons c ∖ {[b]}
      | None => pressed_buttons c
      end.
Proof. by destruct e. Qed.

Lemma step_mouse_ok n s d id c e :
  sys_ok n s d → sessions s !! id = Some c → well_behaved s (Point id e) → Z.of_nat n < 2 ^ 32 - 1 →
  let '(s', calls) := forward s id (ConnectionScopedInput_mouse c e) in
  sys_ok (S n) s' (foldl apply_call d calls).
Proof.
  intros (GK & GB & Hok & HK & HB & HnK & HnB) Hc Hw Hn. unfold forward.
  destruct (mouse_held c e) as [Ek Eb]. change ((ConnectionScopedInput_mouse c e).2) with [Mouse e].
  set (c' := (ConnectionScopedInput_mouse c e).1) in *. rewrite Input_events_1. cbn [Input_event].
  cbn [well_behaved] in Hw.
  assert (Hkeys : ∀ i id' sc,
    (id', sc) ∈ GK ↔ session_holds_key {| sessions := <[id := c']> (sessions s); shared := i |} id' sc).
  { intros i id' sc. destruct (holds_insert s id c' i) as [Hk' _]. rewrite Hk', Ek.
    case_decide as E; [subst id'|apply HK]. rewrite HK. by apply session_keys. }
  destruct (button_event e) as [[b []]|] eqn:He.
  - pose proof (button_press_ok GK GB (shared s) d id e b Hok He) as H1.
    specialize (H1 ltac:(by rewrite HB) ltac:(lia)).
    destruct (Input_mouse (shared s) e) as [i calls].
    destruct (holds_insert s id c' i) as [_ Hb'].
    exists GK, ({[(id, b)]} ∪ GB). split_and!; [exact H1|apply Hkeys| |lia|pose proof (size_union_singleton_le (id, b) GB); lia].
    intros id' b'. rewrite Hb', Eb. case_decide as E; [subst id'|].
    + pose proof (HB id b') as Hi. rewrite (session_buttons s id c) in Hi by done. set_solver.
    + pose proof (HB id' b'). set_solver.
  - pose proof (button_release_ok GK GB (shared s) d id e b Hok He) as H1.
    specialize (H1 ltac:(by rewrite HB)).
    destruct (Input_mouse (shared s) e) as [i calls].
    destruct (holds_insert s id c' i) as [_ Hb'].
    assert (GB ∖ {[(id, b)]} ⊆ GB) as Hsub by set_solver. apply subseteq_size in Hsub.
    exists GK, (GB ∖ {[(id, b)]}). split_and!; [exact H1|apply Hkeys| |lia|lia].
    intros id' b'. rewrite Hb', Eb. case_decide as E; [subst id'|].
    + pose proof (HB id b') as Hi. rewrite (session_buttons s id c) in Hi by done. set_solver.
    + pose proof (HB id' b'). set_solver.
  - assert (Input_mouse (shared s) e = (shared s, (Input_mouse (shared s) e).2)) as -> by (by destruct e).
    assert (foldl apply_call d (Input_mouse (shared s) e).2 = d) as ->.
    { destruct e; try done. }
    exists GK, GB. split_and!; [done|apply Hkeys| |lia..].
    destruct (holds_insert s id c' (shared s)) as [_ Hb']. intros id' b'. rewrite Hb', Eb.
    case_decide as E; [subst id'|apply HB]. rewrite HB. by apply session_buttons.
Qed.

Lemma step_disconnect_ok o n s d id c :
  sys_ok n s d → sessions s !! id = Some c →
  let '(s1, calls) := forward s id (ConnectionScopedInput_reset o c) in
  sys_ok (S n) {| sessions := delete id (sessions s1); shared := shared s1 |} (foldl apply_call d calls).
Proof.
  intros (GK & GB & Hok & HK & HB & HnK & HnB) Hc. unfold forward, ConnectionScopedInput_reset.
  cbn [fst snd]. rewrite Input_events_app.
  pose proof (drain_keys_perm o (pressed_keys c)) as PK.
  pose proof (drain_buttons_perm o (pressed_buttons c)) as PB.
  pose proof (release_keys_ok id GB (drain_keys o (pressed_keys c)) GK (shared s) d Hok) as H1.
  specialize (H1 ltac:(rewrite PK; apply NoDup_elements)).
  specialize (H1 ltac:(intros k Hk; rewrite PK, elem_of_elements in Hk; apply HK; by exists c)).
  destruct (Input_events (shared s) _) as [i1 calls1].
  pose proof (release_buttons_ok id _ (drain_buttons o (pressed_buttons c)) GB i1 _ H1) as H2.
  specialize (H2 ltac:(rewrite PB; apply NoDup_elements)).
  specialize (H2 ltac:(intros b Hb; rewrite PB, elem_of_elements in Hb; apply HB; by exists c)).
  destruct (Input_events i1 _) as [i2 calls2]. rewrite <-foldl_app in H2. cbn [sessions shared].
  rewrite delete_insert_eq.
  eexists _, _. split_and!; [exact H2| | | |].
  - intros id' sc. rewrite elem_of_difference, elem_of_list_to_set, list_elem_of_fmap, HK.
    unfold session_holds_key. cbn [sessions]. destruct (decide (id' = id)) as [->|Hne].
    + rewrite lookup_delete_eq. split; [|naive_solver]. intros [(c' & E & Hin) Hn]. exfalso. apply Hn.
      exists sc. split; [done|]. rewrite PK, elem_of_elements. congruence.
    + rewrite lookup_delete_ne by done. naive_solver.
  - intros id' b. rewrite elem_of_difference, elem_of_list_to_set, list_elem_of_fmap, HB.
    unfold session_holds_button. cbn [sessions]. destruct (decide (id' = id)) as [->|Hne].
    + rewrite lookup_delete_eq. split; [|naive_solver]. intros [(c' & E & Hin) Hn]. exfalso. apply Hn.
      exists b. split; [done|]. rewrite PB, elem_of_elements. congruence.
    + rewrite lookup_delete_ne by done. naive_solver.
  - etrans; [apply subseteq_size, subseteq_difference_l; reflexivity|]. lia.
  - etrans; [apply subseteq_size, subseteq_difference_l; reflexivity|]. lia.
Qed.

Lemma system_step_ok o n s d a :
  sys_ok n s d → well_behaved s a → Z.of_nat n < 2 ^ 32 - 1 →
  let '(s', calls) := system_step o s a in sys_ok (S n) s' (foldl apply_call d calls).
Proof.
  intros Hs Hw Hn. destruct a as [id|id e|id e|id]; cbn [system_step];
    destruct (sessions s !! id) as [c|] eqn:Hc; try (by eapply sys_ok_same).
  - eapply sys_ok_same; [done|done|..].
    + intros id' sc. destruct (holds_insert s id ConnectionScopedInput_new (shared s)) as [Hk' _].
      rewrite Hk'. case_decide as E; [subst id'|done]. unfold session_holds_key. rewrite Hc. cbn. set_solver.
    + intros id' b. destruct (holds_insert s id ConnectionScopedInput_new (shared s)) as [_ Hb'].
      rewrite Hb'. case_decide as E; [subst id'|done]. unfold session_holds_button. rewrite Hc. cbn. set_solver.
  - by apply step_key_ok.
  - by apply step_mouse_ok.
  - pose proof (step_disconnect_ok o n s d id c Hs Hc) as H1.
    by destruct (forward s id (ConnectionScopedInput_reset o c)) as [s1 calls].
Qed.

Lemma run_actions_ok o acts : ∀ n s d,
  sys_ok n s d → all_well_behaved o s acts → Z.of_nat (n + length acts) < 2 ^ 32 →
  let '(s', d') := run_actions o s d acts in sys_ok (n + length acts) s' d'.
Proof.
  induction acts as [|a acts IH]; intros n s d Hs Hw Hn; cbn [run_actions length].
  - by rewrite Nat.add_0_r.
  - cbn [all_well_behaved length] in *. destruct Hw as [Ha Hw].
    pose proof (system_step_ok o n s d a Hs Ha ltac:(lia)) as H1.
    destruct (system_step o s a) as [s1 calls]. cbn [fst] in Hw.
    rewrite Nat.add_succ_r. apply (IH (S n)); [done|done|lia].
Qed.

Lemma system_init_ok : sys_ok 0 system_init device_init.
Proof.
  exists ∅, ∅. split_and!.
  - split; try apply counts_ok_empty; intros k; cbn; rewrite lookup_empty;
      (split; [set_solver|by intros []]).
  - intros id sc. unfold session_holds_key. cbn. rewrite lookup_empty. set_solver.
  - intros id b. unfold session_holds_button. cbn. rewrite lookup_empty. set_solver.
  - by rewrite size_empty.
  - by rewrite size_empty.
Qed.
End device.

(** ** Properties *)

Section properties.
Context `{ButtonCodes}.

(** C31. Sessions sharing the device: over any interleaving of connections,
    disconnections, keyboard and mouse events of any number of sessions, whose
    clients release only what they hold and do not press a button twice, the
    device reports a key (button) as held exactly when some session holds a
    scancode (button) for it; two sessions, or two scancodes of one session, on
    the same key included.  When no session is left nothing is held, whatever
    keys were down when the sessions ended and in whatever order they are
    released. *)
Theorem device_holds_what_sessions_hold (o : drain_order) acts :
  all_well_behaved o system_init acts → Z.of_nat (length acts) < 2 ^ 32 →
  let '(s, d) := run_actions o system_init device_init acts in
  (∀ k, k ∈ down_keys d ↔ ∃ id sc, session_holds_key s id sc
      ∧ linux_keycode_from_rdp_scancode sc.1 sc.2 = Some k)
  ∧ (∀ k, k ∈ down_buttons d ↔ ∃ id b, session_holds_button s id b ∧ button_code b = Some k)
  ∧ (sessions s = ∅ → down_keys d = ∅ ∧ down_buttons d = ∅).
Proof.
  intros Hw Hn. pose proof (run_actions_ok o acts 0 _ _ system_init_ok Hw Hn) as Hs.
  destruct (run_actions o system_init device_init acts) as [s d].
  destruct Hs as (GK & GB & [Hck Hcb Hdk Hdb] & HK & HB & _).
  assert (Hkeys : ∀ k, k ∈ down_keys d ↔ ∃ id sc, session_holds_key s id sc ∧ key_code sc = Some k).
  { intros k. rewrite Hdk, (counts_ok_held key_code GK) by done.
    split; intros (id & sc & Hin & Hk); exists id, sc; (split; [by apply HK|done]). }
  assert (Hbuttons : ∀ k, k ∈ down_buttons d ↔ ∃ id b, session_holds_button s id b ∧ button_code b = Some k).
  { intros k. rewrite Hdb, (counts_ok_held button_code GB) by done.
    split; intros (id & b & Hin & Hk); exists id, b; (split; [by apply HB|done]). }
  split_and!; [exact Hkeys|exact Hbuttons|].
  intros He. unfold session_holds_key, session_holds_button in *. rewrite He in Hkeys, Hbuttons.
  split; apply set_eq; intros k; (split; [|set_solver]).
  - intros (id & sc & (c & Hc & _) & _)%Hkeys. by rewrite lookup_empty in Hc.
  - intros (id & b & (c & Hc & _) & _)%Hbuttons. by rewrite lookup_empty in Hc.
Qed.

(** A stray release reaches the shared handler: if one session holds a key
    and another, which does not hold it, sends its release (the release of a key
    that was down before the client connected, say), the device releases the key
    while the first session still holds it. *)
Theorem stray_release_ends_other_hold (o : drain_order) a b code ext k :
  a ≠ b → linux_keycode_from_rdp_scancode code ext = Some k →
  let '(s, d) := run_actions o system_init device_init
    [Connect a; Connect b; Key a (Pressed code ext); Key b (Released code ext)] in
  session_holds_key s a (code, ext) ∧ k ∉ down_keys d.
Proof.
  intros Hab Hk.
  cbn -[bool_decide ConnectionScopedInput_keyboard Input_keyboard insert lookup foldl].
  rewrite lookup_empty.
  cbn -[bool_decide ConnectionScopedInput_keyboard Input_keyboard insert lookup foldl].
  rewrite lookup_insert_ne, lookup_empty by done.
  cbn -[bool_decide ConnectionScopedInput_keyboard Input_keyboard insert lookup foldl].
  rewrite lookup_insert_ne, lookup_insert_eq by done.
  unfold forward. cbn [ConnectionScopedInput_keyboard fst snd pressed_keys ConnectionScopedInput_new].
  rewrite bool_decide_eq_true_2 by set_solver. rewrite Input_events_1. cbn [Input_event Input_keyboard].
  rewrite Hk. cbn [inject_held in_pressed_keys shared]. rewrite lookup_empty.
  change (Z.min (default 0 None + 1) (2 ^ 32 - 1)) with 1. cbn [Z.eqb Pos.eqb].
  cbn [sessions shared]. rewrite lookup_insert_ne, lookup_insert_eq by done.
  cbn [fst snd ConnectionScopedInput_keyboard]. rewrite Input_events_1. cbn [Input_event Input_keyboard].
  rewrite Hk. cbn [inject_held in_pressed_keys]. rewrite lookup_insert_eq.
  change (1 >? 1) with false. cbn [Z.eqb Pos.eqb foldl apply_call down_keys set_down device_init].
  split; [|set_solver].
  eexists. cbn [sessions]. rewrite lookup_insert_ne, lookup_insert_eq by done.
  split; [done|]. cbn [pressed_keys]. set_solver.
Qed.

(** A repeated button press is not filtered as a repeated key press is: a
    session that presses the left button twice, releases it and disconnects
    leaves the button held on the device, with no session left. *)
Theorem repeated_button_press_sticks (o : drain_order) id :
  let '(s, d) := run_actions o system_init device_init
    [Connect id; Point id LeftPressed; Point id LeftPressed; Point id LeftReleased; Disconnect id] in
  sessions s = ∅ ∧ BTN_LEFT ∈ down_buttons d.
Proof.
  assert (drain_keys o ∅ = []) as Ek.
  { apply Permutation_nil_r. by rewrite (drain_keys_perm o ∅), elements_empty. }
  assert (drain_buttons o (({[Left]} ∪ ({[Left]} ∪ ∅)) ∖ {[Left]}) = []) as Eb.
  { apply Permutation_nil_r. rewrite (drain_buttons_perm o _).
    replace (({[Left]} ∪ ({[Left]} ∪ ∅)) ∖ {[Left]}) with (∅ : gset HeldButton) by set_solver.
    by rewrite elements_empty. }
  cbn [run_actions system_step system_init sessions]. rewrite lookup_empty.
  cbn [sessions shared foldl]. rewrite lookup_insert_eq.
  unfold forward at 1. cbn [ConnectionScopedInput_mouse fst snd]. rewrite Input_events_1.
  cbn [ConnectionScopedInput_mouse fst snd Input_event Input_mouse shared inject_held
    in_pressed_buttons in_pressed_keys system_init ConnectionScopedInput_new pressed_keys
    pressed_buttons].
  rewrite lookup_empty. change (Z.min (default 0 None + 1) (2 ^ 32 - 1)) with 1.
  cbn [Z.eqb Pos.eqb sessions]. rewrite insert_insert_eq, lookup_insert_eq.
  unfold forward at 1. cbn [ConnectionScopedInput_mouse fst snd]. rewrite Input_events_1.
  cbn [ConnectionScopedInput_mouse fst snd Input_event Input_mouse shared inject_held
    in_pressed_buttons in_pressed_keys system_init ConnectionScopedInput_new pressed_keys
    pressed_buttons].
  rewrite lookup_insert_eq. change (Z.min (default 0 (Some 1) + 1) (2 ^ 32 - 1)) with 2.
  cbn [Z.eqb Pos.eqb sessions]. rewrite !insert_insert_eq, lookup_insert_eq.
  unfold forward at 1. cbn [ConnectionScopedInput_mouse fst snd]. rewrite Input_events_1.
  cbn [ConnectionScopedInput_mouse fst snd Input_event Input_mouse shared inject_held
    in_pressed_buttons in_pressed_keys system_init ConnectionScopedInput_new pressed_keys
    pressed_buttons].
  rewrite lookup_insert_eq. change (2 >? 1) with true. cbn [sessions].
  rewrite !insert_insert_eq, lookup_insert_eq.
  unfold forward, ConnectionScopedInput_reset.
  cbn [fst snd pressed_keys pressed_buttons ConnectionScopedInput_new]. rewrite Ek, Eb.
  cbn [fmap list_fmap app Input_events foldl apply_call sessions shared down_buttons set_down
    device_init].
  split; [|set_solver]. by rewrite ?insert_insert_eq, delete_insert_eq.
Qed.
End properties.

#[local] Instance linux_buttons : ButtonCodes.
Proof. by refine (Build_ButtonCodes 0x110 0x111 0x112 _ _ _). Defined.

Definition elements_order : drain_order :=
  {| drain_keys := elements; drain_buttons := elements;
     drain_keys_perm := λ _, Permutation_refl _; drain_buttons_perm := λ _, Permutation_refl _ |}.

Lemma device_holds_what_sessions_hold_witness :
  let '(s, d) := run_actions elements_order system_init device_init
    [Connect 0; Connect 1; Key 0 (Pressed 30 false); Key 1 (Pressed 30 false); Disconnect 1] in
  30 ∈ down_keys d ∧ (sessions s = ∅ → down_keys d = ∅ ∧ down_buttons d = ∅).
Proof.
  pose proof (device_holds_what_sessions_hold elements_order
    [Connect 0; Connect 1; Key 0 (Pressed 30 false); Key 1 (Pressed 30 false); Disconnect 1]) as H.
  specialize (H ltac:(vm_compute; tauto) ltac:(vm_compute; reflexivity)).
  destruct (run_actions _ _ _ _) as [s d] eqn:E.
  split; [|apply H]. vm_compute in E. injection E as <- <-. refine (bool_decide_unpack (30 ∈ _) _). vm_compute. exact I.
Defined.

Lemma stray_release_ends_other_hold_witness :
  linux_keycode_from_rdp_scancode 30 false = Some 30
  ∧ let '(s, d) := run_actions elements_order system_init device_init
      [Connect 0; Connect 1; Key 0 (Pressed 30 false); Key 1 (Released 30 false)] in
    session_holds_key s 0 (30, false) ∧ 30 ∉ down_keys d.
Proof.
  split; [reflexivity|].
  exact (stray_release_ends_other_hold elements_order 0 1 30 false 30 ltac:(discriminate) eq_refl).
Defined.
