(* ===== verification/Headers.v ===== *)
(** [rdpcore-pdu/src/headers.rs] and [licensing.rs]: the Basic Security Header
    and the one licensing message the server sends. *)
From S2P Require Import Prelude Cursor.

(** ** Basic Security Header *)

Definition ENCRYPT : Z := 0x0008.
Definition INFO_PKT : Z := 0x0040.
Definition LICENSE_PKT : Z := 0x0080.
(** [contains] of the flag types: every bit of [flag] is set. *)
Definition contains (flags flag : Z) : bool := Z.land flags flag =? flag.

Record BasicSecurityHeader := { flags : Z }.

Definition BasicSecurityHeader_write (h : BasicSecurityHeader) : bytes :=
  write_u16_le (flags h) ++ write_u16_le 0.
Definition BasicSecurityHeader_decode : reader BasicSecurityHeader :=
  flags ← read_u16_le;
  _ ← read_u16_le;
  mret {| flags := flags |}.

Lemma BasicSecurityHeader_safe : safe BasicSecurityHeader_decode (λ h, u16_ok (flags h)).
Proof. unfold BasicSecurityHeader_decode. safe_steps. done. Qed.
Lemma BasicSecurityHeader_reads f l :
  u16_ok f →
  reads BasicSecurityHeader_decode (BasicSecurityHeader_write {| flags := f |} ++ l) {| flags := f |} l.
Proof.
  intros Hf. unfold BasicSecurityHeader_decode, BasicSecurityHeader_write.
  rewrite <-(assoc_L (++)). cbn [flags]. by reads_steps.
Qed.
#[export] Hint Resolve BasicSecurityHeader_safe : safe.
#[export] Hint Resolve BasicSecurityHeader_reads : reads.

(** ** Licensing *)

Definition PREAMBLE_ERROR_ALERT : Z := 0xFF.
Definition PREAMBLE_VERSION_3 : Z := 3.
Definition STATUS_VALID_CLIENT : Z := 0x00000007.
Definition ST_NO_TRANSITION : Z := 0x00000002.
Definition BLOB_TYPE_ERROR : Z := 0x0004.
Definition MSG_SIZE : Z := 16.

Definition encode_valid_client : bytes :=
  BasicSecurityHeader_write {| flags := LICENSE_PKT |}
  ++ write_u8 PREAMBLE_ERROR_ALERT ++ write_u8 PREAMBLE_VERSION_3 ++ write_u16_le MSG_SIZE
  ++ write_u32_le STATUS_VALID_CLIENT ++ write_u32_le ST_NO_TRANSITION
  ++ write_u16_le BLOB_TYPE_ERROR ++ write_u16_le 0.

Definition decode_valid_client (input : bytes) : res DecodeError unit :=
  run (header ← BasicSecurityHeader_decode;
       reject_if (negb (contains (flags header) LICENSE_PKT))
         "licensing.security_header.flags" "expected LICENSE_PKT set" ;;
       msg_type ← read_u8;
       reject_if (negb (msg_type =? PREAMBLE_ERROR_ALERT))
         "licensing.preamble.msg_type" "expected ErrorAlert" ;;
       _ ← read_u8;
       _ ← read_u16_le;
       error_code ← read_u32_le;
       reject_if (negb (error_code =? STATUS_VALID_CLIENT))
         "licensing.error_code" "expected STATUS_VALID_CLIENT" ;;
       _ ← read_u32_le;
       _ ← read_u16_le;
       blob_len ← read_u16_le;
       reject_if (negb (blob_len =? 0))
         "licensing.error_info.blob_len" "expected an empty error-info blob" ;;
       mret tt) input.

(** The message the server sends is the one a client accepts, and its declared
    size is that of everything after the security header. *)
Lemma valid_client_accepted :
  decode_valid_client encode_valid_client = Ok tt ∧ len encode_valid_client = 4 + MSG_SIZE.
Proof. by vm_compute. Qed.

Lemma decode_valid_client_no_panic input :
  bytes_ok input → len input < 2 ^ 63 → no_panic (decode_valid_client input).
Proof. apply safe_run_no_panic with (Q := λ _, True). safe_steps. done. Qed.
