(* ===== verification/ClientInfo.v ===== *)
(** [rdpcore-pdu/src/client_info.rs]: the Client Info PDU, which carries the
    user's name, password and domain. *)
From S2P Require Import Prelude Cursor Utf Per Headers.

Definition MOUSE : Z := 0x0001.
Definition AUTOLOGON : Z := 0x0008.
Definition UNICODE : Z := 0x0010.
Definition ENABLE_WINDOWS_KEY : Z := 0x0100.

(** ** Data *)

Record ExtendedClientInfo := { address_family : Z; address : rstring; dir : rstring }.

Record ClientInfo := {
  code_page : Z; info_flags : Z; domain : rstring; username : rstring; password : rstring;
  alternate_shell : rstring; working_dir : rstring; extended : ExtendedClientInfo }.

(** ** Operations *)

(** The length includes the terminator. *)
Definition write_len_included_string (s : rstring) : bytes :=
  let b := encode_units s in
  write_u16_le (as_u16 (len b + 2)) ++ write_slice b ++ write_u16_le 0.
Definition read_len_included_string : reader rstring :=
  len ← read_u16_le;
  raw ← read_slice len;
  mret (read_fixed raw).

(** [len & !1] on a [usize]. *)
Definition read_string_body (len : Z) : reader rstring :=
  raw ← read_slice len;
  body ← lift_res (slice raw 0 (Z.land len (USIZE_MAX - 1)));
  ensure 2 ;;
  advance 2 ;;
  mret (decode_units body).

Definition ExtendedClientInfo_encode (e : ExtendedClientInfo) : bytes :=
  write_u16_le (address_family e) ++ write_len_included_string (address e)
  ++ write_len_included_string (dir e).
Definition ExtendedClientInfo_decode : reader ExtendedClientInfo :=
  address_family ← read_u16_le;
  address ← read_len_included_string;
  dir ← read_len_included_string;
  mret {| address_family := address_family; address := address; dir := dir |}.

Definition ClientInfo_encode (i : ClientInfo) : bytes :=
  let strings := encode_units <$>
    [domain i; username i; password i; alternate_shell i; working_dir i] in
  write_u32_le (code_page i) ++ write_u32_le (Z.lor (info_flags i) UNICODE)
  ++ concat ((λ b, write_u16_le (as_u16 (len b))) <$> strings)
  ++ concat ((λ b, write_slice b ++ write_u16_le 0) <$> strings)
  ++ write_slice (ExtendedClientInfo_encode (extended i)).

Definition ClientInfo_decode : reader ClientInfo :=
  code_page ← read_u32_le;
  flags ← read_u32_le;
  reject_if (negb (contains flags UNICODE))
    "client_info.flags" "only INFO_UNICODE clients are supported" ;;
  cb_domain ← read_u16_le;
  cb_username ← read_u16_le;
  cb_password ← read_u16_le;
  cb_alternate_shell ← read_u16_le;
  cb_working_dir ← read_u16_le;
  domain ← read_string_body cb_domain;
  username ← read_string_body cb_username;
  password ← read_string_body cb_password;
  alternate_shell ← read_string_body cb_alternate_shell;
  working_dir ← read_string_body cb_working_dir;
  extended ← ExtendedClientInfo_decode;
  mret {| code_page := code_page; info_flags := flags; domain := domain; username := username;
          password := password; alternate_shell := alternate_shell; working_dir := working_dir;
          extended := extended |}.

(** [ClientInfoPdu] is its [info]. *)
Definition ClientInfoPdu_encode (info : ClientInfo) : bytes :=
  BasicSecurityHeader_write {| flags := INFO_PKT |} ++ write_slice (ClientInfo_encode info).
Definition ClientInfoPdu_decode_from : reader ClientInfo :=
  header ← BasicSecurityHeader_decode;
  reject_if (negb (contains (flags header) INFO_PKT))
    "client_info_pdu.security_header.flags" "expected INFO_PKT set" ;;
  ClientInfo_decode.
Definition ClientInfoPdu_decode (input : bytes) : res DecodeError ClientInfo :=
  run ClientInfoPdu_decode_from input.

(** ** Safety *)

Lemma even_mask k : 0 ≤ k < 2 ^ 63 → Z.land (2 * k) (USIZE_MAX - 1) = 2 * k.
Proof.
  intros Hk. change (USIZE_MAX - 1) with (Z.shiftl (Z.ones 63) 1).
  replace (2 * k) with (Z.shiftl k 1) by (rewrite Z.shiftl_mul_pow2; lia).
  rewrite <-Z.shiftl_land, Z.land_ones, Z.mod_small by lia. done.
Qed.

Lemma read_string_body_safe n : u16_ok n → safe (read_string_body n) (λ _, True).
Proof.
  intros Hn. unfold read_string_body. eapply safe_bind; [apply read_slice_safe; lia|].
  intros raw [Hl Hb]. cbn beta. eapply safe_bind.
  { apply (safe_lift_res _ (λ _, True)). unfold slice.
    pose proof (land_bound_r (USIZE_MAX - 1) n ltac:(lia)) as H. rewrite Z.land_comm in H.
    by rewrite decide_True by lia. }
  intros. safe_steps. done.
Qed.

Lemma read_len_included_string_safe : safe read_len_included_string (λ _, True).
Proof. unfold read_len_included_string. safe_steps. done. Qed.
#[local] Hint Resolve read_string_body_safe read_len_included_string_safe : safe.

Lemma ExtendedClientInfo_safe : safe ExtendedClientInfo_decode (λ _, True).
Proof. unfold ExtendedClientInfo_decode. safe_steps. done. Qed.
#[local] Hint Resolve ExtendedClientInfo_safe : safe.

Lemma ClientInfoPdu_safe : safe ClientInfoPdu_decode_from (λ _, True).
Proof. unfold ClientInfoPdu_decode_from, ClientInfo_decode. safe_steps. done. Qed.

Lemma ClientInfoPdu_decode_no_panic input :
  bytes_ok input → len input < 2 ^ 63 → no_panic (ClientInfoPdu_decode input).
Proof. apply safe_run_no_panic with (1 := ClientInfoPdu_safe). Qed.

(** ** Round trip *)

(** A string of the body: its UTF-16 bytes fit a 16-bit length. *)
Definition body_string_ok (s : rstring) : Prop := str_ok s ∧ len (encode_units s) < 2 ^ 16.
(** A string read up to its terminator has no NUL of its own. *)
Definition terminated_ok (s : rstring) : Prop :=
  str_ok s ∧ Forall (λ c, c ≠ 0) s ∧ len (encode_units s) + 2 < 2 ^ 16.

Definition ClientInfo_ok (i : ClientInfo) : Prop :=
  u32_ok (code_page i) ∧ u32_ok (info_flags i) ∧ contains (info_flags i) UNICODE = true
  ∧ Forall body_string_ok [domain i; username i; password i; alternate_shell i; working_dir i]
  ∧ u16_ok (address_family (extended i))
  ∧ terminated_ok (address (extended i)) ∧ terminated_ok (dir (extended i)).

Lemma len_encode_units s : len (encode_units s) = 2 * len (encode_utf16 s).
Proof. apply len_write_units. Qed.

Lemma read_string_body_reads s l :
  body_string_ok s →
  reads (read_string_body (len (encode_units s))) (encode_units s ++ write_u16_le 0 ++ l) s l.
Proof.
  intros [Hs Hl]. pose proof (len_nonneg (encode_utf16 s)). unfold read_string_body.
  eapply reads_bind; [by apply read_slice_reads|]. cbn beta.
  eapply reads_bind.
  { rewrite len_encode_units in *. rewrite even_mask by lia. rewrite <-len_encode_units.
    unfold slice. rewrite decide_True, zdrop_0, ztake_all by (pose proof (len_nonneg (encode_units s)); lia).
    intros c Hc Hr. by exists c. }
  cbn beta. eapply reads_bind; [apply ensure_reads; autorewrite with len; len_lia|]. cbn beta.
  eapply reads_bind; [by apply (advance_reads 2)|]. apply reads_ret_eq.
  by apply decode_units_encode_units.
Qed.

Lemma read_len_included_string_reads s l :
  terminated_ok s → reads read_len_included_string (write_len_included_string s ++ l) s l.
Proof.
  intros (Hs & Hnz & Hl). pose proof (len_nonneg (encode_units s)).
  unfold read_len_included_string, write_len_included_string, write_slice.
  rewrite as_u16_id by lia. rewrite <-(assoc_L (++)).
  eapply reads_bind; [apply read_u16_le_write; lia|]. cbn beta.
  eapply reads_bind; [apply read_slice_reads; autorewrite with len; lia|]. apply reads_ret_eq.
  unfold read_fixed, encode_units.
  rewrite le_units_write_units by by apply encode_utf16_u16.
  rewrite <-(app_nil_r (write_u16_le 0)), le_units_cons by done.
  rewrite take_while_stop; [by apply decode_encode_utf16|by apply encode_utf16_nonzero|done].
Qed.

Lemma ExtendedClientInfo_reads e l :
  u16_ok (address_family e) → terminated_ok (address e) → terminated_ok (dir e) →
  reads ExtendedClientInfo_decode (ExtendedClientInfo_encode e ++ l) e l.
Proof.
  intros Hf Ha Hd. unfold ExtendedClientInfo_decode, ExtendedClientInfo_encode.
  rewrite <-!(assoc_L (++)). reads_step.
  eapply reads_bind; [by apply read_len_included_string_reads|]. cbn beta.
  eapply reads_bind; [by apply read_len_included_string_reads|]. apply reads_ret_eq. by destruct e.
Qed.

Lemma contains_lor f g : contains f g = true → Z.lor f g = f.
Proof.
  unfold contains. intros E%Z.eqb_eq. apply Z.bits_inj'. intros n _.
  pose proof (f_equal (λ z, Z.testbit z n) E) as Hn. cbn beta in Hn.
  rewrite Z.land_spec in Hn. rewrite Z.lor_spec.
  by destruct (Z.testbit f n), (Z.testbit g n).
Qed.

(** The length field of a string of the body. *)
Lemma cb_reads s l :
  body_string_ok s →
  reads read_u16_le (write_u16_le (as_u16 (len (encode_units s))) ++ l) (len (encode_units s)) l.
Proof.
  intros [_ Hl]. pose proof (len_nonneg (encode_units s)).
  rewrite as_u16_id by lia. apply read_u16_le_write. lia.
Qed.
#[local] Hint Resolve cb_reads read_string_body_reads ExtendedClientInfo_reads : reads.

Lemma ClientInfo_reads i l : ClientInfo_ok i → reads ClientInfo_decode (ClientInfo_encode i ++ l) i l.
Proof.
  intros (Hc & Hf & Hu & Hs & He & Ha & Hd). unfold ClientInfo_decode, ClientInfo_encode.
  rewrite contains_lor by done. rewrite !Forall_cons in Hs. destruct Hs as (H1 & H2 & H3 & H4 & H5 & _).
  cbn [fmap list_fmap concat]. rewrite !app_nil_r, <-!(assoc_L (++)).
  do 2 reads_step. eapply reads_bind; [apply reject_if_reads; by rewrite Hu|]. cbn beta.
  do 5 (eapply reads_bind; [by apply cb_reads|]; cbn beta).
  do 5 (eapply reads_bind; [apply (read_string_body_reads _ _); assumption|]; cbn beta).
  eapply reads_bind; [by apply ExtendedClientInfo_reads|]. apply reads_ret_eq. by destruct i.
Qed.

Lemma ClientInfoPdu_decode_encode (i : ClientInfo) :
  ClientInfo_ok i → len (ClientInfoPdu_encode i) < 2 ^ 63 →
  ClientInfoPdu_decode (ClientInfoPdu_encode i) = Ok i.
Proof.
  intros Hi Hl. eapply (reads_run _ _ _ []); [done|].
  unfold ClientInfoPdu_decode_from, ClientInfoPdu_encode, write_slice.
  eapply reads_bind; [by apply BasicSecurityHeader_reads|]. cbn beta.
  eapply reads_bind; [by apply reject_if_reads|]. cbn beta.
  rewrite <-(app_nil_r (ClientInfo_encode i)). by apply ClientInfo_reads.
Qed.

(** Credentials survive the wire: the Client Info PDU decodes to the name,
    password and domain (and every other field) that were encoded, whatever
    Unicode text they hold, up to their 16-bit lengths. *)
Theorem client_info_roundtrip (i : ClientInfo) :
  ClientInfo_ok i → len (ClientInfoPdu_encode i) < 2 ^ 63 →
  ClientInfoPdu_decode (ClientInfoPdu_encode i) = Ok i.
Proof. apply ClientInfoPdu_decode_encode. Qed.

Definition sample_info : ClientInfo :=
  {| code_page := 0; info_flags := Z.lor MOUSE UNICODE; domain := []; username := lit "user";
     password := [0x1F511; 0xE9]; alternate_shell := []; working_dir := [];
     extended := {| address_family := 2; address := lit "10.0.0.2"; dir := lit "C:" |} |}.

Lemma client_info_roundtrip_witness :
  ClientInfoPdu_decode (ClientInfoPdu_encode sample_info) = Ok sample_info.
Proof.
  apply (client_info_roundtrip sample_info); [|vm_compute; reflexivity].
  unfold ClientInfo_ok, body_string_ok, terminated_ok, str_ok, scalar_ok.
  apply (bool_decide_unpack _). vm_compute. exact I.
Defined.
