(* ===== verification/Gcc.v ===== *)
(** [rdpcore-pdu/src/gcc.rs]: the T.124 conference wrapper inside MCS Connect,
    and the client and server data blocks it carries. *)
From S2P Require Import Prelude Cursor Utf Per.

Definition GCC_CONFERENCE_OBJECT_ID : bytes := [0; 0; 20; 124; 0; 1].
Definition CLIENT_TO_SERVER_H221 : bytes := as_bytes (lit "Duca").
Definition SERVER_TO_CLIENT_H221 : bytes := as_bytes (lit "McDn").
Definition CONFERENCE_NAME : bytes := as_bytes (lit "1").
Definition CS_CORE : Z := 0xC001.
Definition CS_SECURITY : Z := 0xC002.
Definition CS_NET : Z := 0xC003.
Definition CS_CLUSTER : Z := 0xC004.
Definition CS_MONITOR : Z := 0xC005.
Definition CS_MCS_MSGCHANNEL : Z := 0xC006.
Definition SC_CORE : Z := 0x0C01.
Definition SC_SECURITY : Z := 0x0C02.
Definition SC_NET : Z := 0x0C03.
Definition SC_MCS_MSGCHANNEL : Z := 0x0C04.
Definition CHANNELS_MAX : Z := 31.

(** ** Block headers *)

Record UserDataHeader := { kind : Z; length_ : Z }.
Definition UserDataHeader_write (h : UserDataHeader) : bytes :=
  write_u16_le (kind h) ++ write_u16_le (length_ h).
Definition UserDataHeader_decode : reader UserDataHeader :=
  k ← read_u16_le;
  n ← read_u16_le;
  mret {| kind := k; length_ := n |}.

Definition write_block (kind_ : Z) (body : bytes) : bytes :=
  UserDataHeader_write {| kind := kind_; length_ := as_u16 (len body + 4) |} ++ write_slice body.

(** The [while] loop of [for_each_user_data_block]: [f] is the caller's closure,
    with the variables it captures as the state [s].  Every turn consumes a
    header, so a bound of the bytes left bounds the turns; running out of it
    would be a [Panic]. *)
Fixpoint for_each_user_data_block {S} (fuel : nat) (f : Z → bytes → S → res DecodeError S) (s : S)
  : reader S :=
  n ← get_remaining;
  if 4 <=? n then
    match fuel with
    | O => lift_res Panic
    | Datatypes.S fuel =>
      header ← UserDataHeader_decode;
      reject_if (length_ header <? 4)
        "gcc.userData.length" "block length must be at least 4" ;;
      body ← read_slice (length_ header - 4);
      s ← lift_res (f (kind header) body s);
      for_each_user_data_block fuel f s
    end
  else mret s.

Definition user_data_blocks {S} (f : Z → bytes → S → res DecodeError S) (s : S) (input : bytes)
  : res DecodeError S :=
  run (for_each_user_data_block (length input) f s) input.

(** ** Client blocks *)

Record ClientCoreData := {
  version : Z; desktop_width : Z; desktop_height : Z; color_depth : Z; sas_sequence : Z;
  keyboard_layout : Z; client_build : Z; client_name : rstring; keyboard_type : Z;
  keyboard_subtype : Z; keyboard_function_key : Z; ime_file_name : rstring }.

Definition FIXED_PART_SIZE : Z := 128.

Definition ClientCoreData_encode (d : ClientCoreData) : bytes :=
  write_u32_le (version d) ++ write_u16_le (desktop_width d) ++ write_u16_le (desktop_height d)
  ++ write_u16_le (color_depth d) ++ write_u16_le (sas_sequence d)
  ++ write_u32_le (keyboard_layout d) ++ write_u32_le (client_build d)
  ++ write_fixed (client_name d) 32
  ++ write_u32_le (keyboard_type d) ++ write_u32_le (keyboard_subtype d)
  ++ write_u32_le (keyboard_function_key d) ++ write_fixed (ime_file_name d) 64.

Definition ClientCoreData_decode : reader ClientCoreData :=
  ensure FIXED_PART_SIZE ;;
  version ← read_u32_le;
  desktop_width ← read_u16_le;
  desktop_height ← read_u16_le;
  color_depth ← read_u16_le;
  sas_sequence ← read_u16_le;
  keyboard_layout ← read_u32_le;
  client_build ← read_u32_le;
  client_name ← read_slice 32;
  keyboard_type ← read_u32_le;
  keyboard_subtype ← read_u32_le;
  keyboard_function_key ← read_u32_le;
  ime_file_name ← read_slice 64;
  mret {| version := version; desktop_width := desktop_width; desktop_height := desktop_height;
          color_depth := color_depth; sas_sequence := sas_sequence;
          keyboard_layout := keyboard_layout; client_build := client_build;
          client_name := read_fixed client_name; keyboard_type := keyboard_type;
          keyboard_subtype := keyboard_subtype; keyboard_function_key := keyboard_function_key;
          ime_file_name := read_fixed ime_file_name |}.

Record ClientSecurityData := { encryption_methods : Z; ext_encryption_methods : Z }.
Definition ClientSecurityData_encode (d : ClientSecurityData) : bytes :=
  write_u32_le (encryption_methods d) ++ write_u32_le (ext_encryption_methods d).
Definition ClientSecurityData_decode : reader ClientSecurityData :=
  a ← read_u32_le;
  b ← read_u32_le;
  mret {| encryption_methods := a; ext_encryption_methods := b |}.

Record ChannelDef := { name : rstring; options : Z }.
(** [name_bytes[..n].copy_from_slice(&ascii[..n])]. *)
Definition ChannelDef_encode (c : ChannelDef) : bytes :=
  let ascii := as_bytes (name c) in
  let n := Z.min (len ascii) 7 in
  write_slice (ztake n ascii ++ replicate (Z.to_nat (8 - n)) 0) ++ write_u32_le (options c).
Definition ChannelDef_decode : reader ChannelDef :=
  name_bytes ← read_slice 8;
  let end_ := default 8%nat (position (λ b, b =? 0) name_bytes) in
  raw ← lift_res (slice name_bytes 0 (Z.of_nat end_));
  options ← read_u32_le;
  mret {| name := from_utf8_lossy raw; options := options |}.

(** [ClientNetworkData] is its list of channels. *)
Definition ClientNetworkData_encode (channels : list ChannelDef) : bytes :=
  write_u32_le (as_u32 (len channels)) ++ concat (ChannelDef_encode <$> channels).
Definition ClientNetworkData_decode : reader (list ChannelDef) :=
  count ← read_u32_le;
  read_many (Z.to_nat (Z.min count CHANNELS_MAX)) ChannelDef_decode.

Record ClientClusterData := { cluster_flags : Z; redirected_session_id : Z }.
Definition ClientClusterData_decode : reader ClientClusterData :=
  a ← read_u32_le;
  b ← read_u32_le;
  mret {| cluster_flags := a; redirected_session_id := b |}.

(** [ClientMessageChannelData] is its [flags]. *)
Definition ClientMessageChannelData_decode : reader Z := read_u32_le.

(** [ClientGccBlocks]; with the mandatory blocks optional it is also what the
    closure of [decode] captures. *)
Record ClientGccBlocks := {
  core : ClientCoreData; security : ClientSecurityData; network : option (list ChannelDef);
  cluster : option ClientClusterData; message_channel : option Z;
  early_capability_flags : option Z }.
Record client_acc := {
  a_core : option ClientCoreData; a_security : option ClientSecurityData;
  a_network : option (list ChannelDef); a_cluster : option ClientClusterData;
  a_message_channel : option Z; a_flags : option Z }.

Definition ClientGccBlocks_encode (b : ClientGccBlocks) : bytes :=
  write_block CS_CORE (ClientCoreData_encode (core b))
  ++ write_block CS_SECURITY (ClientSecurityData_encode (security b))
  ++ match network b with
     | Some n => write_block CS_NET (ClientNetworkData_encode n)
     | None => []
     end.

Definition early_capability_flags_from_cs_core (body : bytes) : res DecodeError (option Z) :=
  let OFFSET := 128 + 12 in
  if len body <? OFFSET + 2 then Ok None
  else b0 ← index body OFFSET; b1 ← index body (OFFSET + 1); Ok (Some (from_le [b0; b1])).

Definition client_block (kind_ : Z) (body : bytes) (a : client_acc) : res DecodeError client_acc :=
  if kind_ =? CS_CORE then
    flags ← early_capability_flags_from_cs_core body;
    c ← run ClientCoreData_decode body;
    Ok {| a_core := Some c; a_security := a_security a; a_network := a_network a;
          a_cluster := a_cluster a; a_message_channel := a_message_channel a; a_flags := flags |}
  else if kind_ =? CS_SECURITY then
    c ← run ClientSecurityData_decode body;
    Ok {| a_core := a_core a; a_security := Some c; a_network := a_network a;
          a_cluster := a_cluster a; a_message_channel := a_message_channel a; a_flags := a_flags a |}
  else if kind_ =? CS_NET then
    c ← run ClientNetworkData_decode body;
    Ok {| a_core := a_core a; a_security := a_security a; a_network := Some c;
          a_cluster := a_cluster a; a_message_channel := a_message_channel a; a_flags := a_flags a |}
  else if kind_ =? CS_CLUSTER then
    c ← run ClientClusterData_decode body;
    Ok {| a_core := a_core a; a_security := a_security a; a_network := a_network a;
          a_cluster := Some c; a_message_channel := a_message_channel a; a_flags := a_flags a |}
  else if kind_ =? CS_MCS_MSGCHANNEL then
    c ← run ClientMessageChannelData_decode body;
    Ok {| a_core := a_core a; a_security := a_security a; a_network := a_network a;
          a_cluster := a_cluster a; a_message_channel := Some c; a_flags := a_flags a |}
  else Ok a.

(** [x.ok_or(InvalidValue { .. })?] *)
Definition ok_or {A} (x : option A) (field reason : string) : res DecodeError A :=
  match x with Some a => Ok a | None => Err (InvalidValue field reason) end.

Definition ClientGccBlocks_decode (input : bytes) : res DecodeError ClientGccBlocks :=
  a ← user_data_blocks client_block
        {| a_core := None; a_security := None; a_network := None; a_cluster := None;
           a_message_channel := None; a_flags := None |} input;
  core ← ok_or (a_core a) "gcc.client_blocks.core" "missing mandatory CS_CORE block";
  security ← ok_or (a_security a) "gcc.client_blocks.security"
               "missing mandatory CS_SECURITY block";
  Ok {| core := core; security := security; network := a_network a; cluster := a_cluster a;
        message_channel := a_message_channel a; early_capability_flags := a_flags a |}.

(** ** Server blocks *)

Record ServerCoreData := {
  server_version : Z; client_requested_protocols : option Z;
  server_early_capability_flags : option Z }.
Definition ServerCoreData_encode (d : ServerCoreData) : bytes :=
  write_u32_le (server_version d)
  ++ match client_requested_protocols d with Some p => write_u32_le p | None => [] end
  ++ match server_early_capability_flags d with Some f => write_u32_le f | None => [] end.
(** [if cursor.remaining() >= 4 { Some(read) } else { None }] *)
Definition read_optional_u32 : reader (option Z) :=
  n ← get_remaining;
  if 4 <=? n then v ← read_u32_le; mret (Some v) else mret None.
Definition ServerCoreData_decode : reader ServerCoreData :=
  v ← read_u32_le;
  p ← read_optional_u32;
  f ← read_optional_u32;
  mret {| server_version := v; client_requested_protocols := p; server_early_capability_flags := f |}.

(** [ServerSecurityData] has no field. *)
Definition ServerSecurityData_encode : bytes := write_u32_le 0 ++ write_u32_le 0.
Definition ServerSecurityData_decode : reader unit :=
  encryption_method ← read_u32_le;
  encryption_level ← read_u32_le;
  reject_if (negb (encryption_method =? 0) || negb (encryption_level =? 0))
    "gcc.server_security" "only the no-security (TLS-only) encoding is supported".

Record ServerNetworkData := { io_channel_id : Z; channel_ids : list Z }.
Definition ServerNetworkData_encode (d : ServerNetworkData) : bytes :=
  write_u16_le (io_channel_id d) ++ write_u16_le (as_u16 (len (channel_ids d)))
  ++ concat (write_u16_le <$> channel_ids d)
  ++ (if len (channel_ids d) mod 2 =? 1 then write_u16_le 0 else []).
Definition ServerNetworkData_decode : reader ServerNetworkData :=
  io ← read_u16_le;
  count ← read_u16_le;
  ids ← read_many (Z.to_nat count) read_u16_le;
  n ← get_remaining;
  (if (count mod 2 =? 1) && (2 <=? n) then advance 2 else mret tt) ;;
  mret {| io_channel_id := io; channel_ids := ids |}.

(** [ServerMessageChannelData] is its id. *)
Definition ServerMessageChannelData_encode (id : Z) : bytes := write_u16_le id.
Definition ServerMessageChannelData_decode : reader Z := read_u16_le.

Record ServerGccBlocks := {
  s_core : ServerCoreData; s_network : ServerNetworkData; s_message_channel : option Z }.
Record server_acc := {
  sa_core : option ServerCoreData; sa_network : option ServerNetworkData;
  sa_security : option unit; sa_message_channel : option Z }.

Definition ServerGccBlocks_encode (b : ServerGccBlocks) : bytes :=
  write_block SC_CORE (ServerCoreData_encode (s_core b))
  ++ write_block SC_NET (ServerNetworkData_encode (s_network b))
  ++ write_block SC_SECURITY ServerSecurityData_encode
  ++ match s_message_channel b with
     | Some id => write_block SC_MCS_MSGCHANNEL (ServerMessageChannelData_encode id)
     | None => []
     end.

Definition server_block (kind_ : Z) (body : bytes) (a : server_acc) : res DecodeError server_acc :=
  if kind_ =? SC_CORE then
    c ← run ServerCoreData_decode body;
    Ok {| sa_core := Some c; sa_network := sa_network a; sa_security := sa_security a;
          sa_message_channel := sa_message_channel a |}
  else if kind_ =? SC_NET then
    c ← run ServerNetworkData_decode body;
    Ok {| sa_core := sa_core a; sa_network := Some c; sa_security := sa_security a;
          sa_message_channel := sa_message_channel a |}
  else if kind_ =? SC_SECURITY then
    c ← run ServerSecurityData_decode body;
    Ok {| sa_core := sa_core a; sa_network := sa_network a; sa_security := Some c;
          sa_message_channel := sa_message_channel a |}
  else if kind_ =? SC_MCS_MSGCHANNEL then
    c ← run ServerMessageChannelData_decode body;
    Ok {| sa_core := sa_core a; sa_network := sa_network a; sa_security := sa_security a;
          sa_message_channel := Some c |}
  else Ok a.

Definition ServerGccBlocks_decode (input : bytes) : res DecodeError ServerGccBlocks :=
  a ← user_data_blocks server_block
        {| sa_core := None; sa_network := None; sa_security := None; sa_message_channel := None |}
        input;
  core ← ok_or (sa_core a) "gcc.server_blocks.core" "missing mandatory SC_CORE block";
  network ← ok_or (sa_network a) "gcc.server_blocks.network" "missing mandatory SC_NET block";
  _ ← ok_or (sa_security a) "gcc.server_blocks.security" "missing mandatory SC_SECURITY block";
  Ok {| s_core := core; s_network := network; s_message_channel := sa_message_channel a |}.

(** ** The conference wrapper *)

Definition CONFERENCE_REQUEST_CONNECT_PDU_OVERHEAD : Z := 12.
Definition CONFERENCE_RESPONSE_CONNECT_PDU_OVERHEAD : Z := 13.
Definition CHOICE : Z := 0x14.

Definition expect_byte (expected : Z) (field : string) : reader unit :=
  got ← read_u8;
  reject_if (negb (got =? expected)) field "unexpected fixed byte value".

(** [ConferenceCreateRequest] is its [client_gcc_blocks]. *)
Definition ConferenceCreateRequest_encode (client_gcc_blocks : bytes) : bytes :=
  write_u8 0x00 ++ write_object_id GCC_CONFERENCE_OBJECT_ID
  ++ write_length (len client_gcc_blocks + CONFERENCE_REQUEST_CONNECT_PDU_OVERHEAD)
  ++ write_u8 0x00 ++ write_u8 0x08
  ++ write_numeric_string CONFERENCE_NAME 1 ++ write_padding 1 ++ write_number_of_sets 1
  ++ write_u8 0xC0 ++ write_octet_string CLIENT_TO_SERVER_H221 4
  ++ write_length (len client_gcc_blocks) ++ write_slice client_gcc_blocks.

Definition ConferenceCreateRequest_decode_from : reader bytes :=
  expect_byte 0x00 "gcc.conference_request.key_choice" ;;
  _ ← read_object_id;
  _ ← read_length;
  expect_byte 0x00 "gcc.conference_request.gcc_pdu_choice" ;;
  _ ← read_selection;
  _ ← read_numeric_string 1;
  read_padding 1 ;;
  _ ← read_number_of_sets;
  _ ← read_u8;
  _ ← read_octet_string 4;
  blocks_len ← read_length;
  read_slice blocks_len.
Definition ConferenceCreateRequest_decode (input : bytes) : res DecodeError bytes :=
  run ConferenceCreateRequest_decode_from input.

Record ConferenceCreateResponse := { node_id : Z; server_gcc_blocks : bytes }.

Definition ConferenceCreateResponse_encode (r : ConferenceCreateResponse) : bytes :=
  write_u8 0x00 ++ write_object_id GCC_CONFERENCE_OBJECT_ID
  ++ write_length (len (server_gcc_blocks r) + CONFERENCE_RESPONSE_CONNECT_PDU_OVERHEAD)
  ++ write_u8 CHOICE ++ write_u16 (node_id r) 1001 ++ write_u32 1 ++ write_enum 0
  ++ write_number_of_sets 1 ++ write_u8 0xC0 ++ write_octet_string SERVER_TO_CLIENT_H221 4
  ++ write_length (len (server_gcc_blocks r)) ++ write_slice (server_gcc_blocks r).

Definition ConferenceCreateResponse_decode_from : reader ConferenceCreateResponse :=
  expect_byte 0x00 "gcc.conference_response.key_choice" ;;
  _ ← read_object_id;
  _ ← read_length;
  expect_byte CHOICE "gcc.conference_response.gcc_pdu_choice" ;;
  node_id ← read_u16 1001;
  _ ← read_u32;
  _ ← read_enum;
  _ ← read_number_of_sets;
  _ ← read_u8;
  _ ← read_octet_string 4;
  blocks_len ← read_length;
  server_gcc_blocks ← read_slice blocks_len;
  mret {| node_id := node_id; server_gcc_blocks := server_gcc_blocks |}.
Definition ConferenceCreateResponse_decode (input : bytes) : res DecodeError ConferenceCreateResponse :=
  run ConferenceCreateResponse_decode_from input.

(** ** Safety *)

(** What the block loop needs of its closure. *)
Definition block_safe {S} (f : Z → bytes → S → res DecodeError S) (P : S → Prop) : Prop :=
  ∀ k body s, u16_ok k → bytes_ok body → len body < 2 ^ 63 → P s →
  match f k body s with Ok s' => P s' | Err _ => True | Panic => False end.

Lemma UserDataHeader_safe :
  safe UserDataHeader_decode (λ h, u16_ok (kind h) ∧ u16_ok (length_ h)).
Proof. unfold UserDataHeader_decode. safe_steps. done. Qed.
Lemma UserDataHeader_eats : eats 1 UserDataHeader_decode.
Proof.
  eapply eats_weaken; [|eapply (eats_bind 2 _ _ _ (λ _, True)); [apply read_u16_le_safe|apply read_u16_le_eats|]].
  - lia.
  - intros k Hk. safe_steps. exact I.
Qed.
#[local] Hint Resolve UserDataHeader_safe : safe.

Lemma for_each_safe {S} (f : Z → bytes → S → res DecodeError S) P fuel s :
  block_safe f P → P s → safe_n (Z.of_nat fuel) (for_each_user_data_block fuel f s) P.
Proof.
  intros Hf. revert s. induction fuel as [|fuel IH]; intros s Hs; intros c Hc Hb Hn.
  - change (for_each_user_data_block 0 f s c)
      with ((if 4 <=? remaining c then lift_res Panic else mret s : reader S) c).
    destruct (Z.leb_spec 4 (remaining c)); [lia|]. cbn. split_and!; done || lia.
  - change (for_each_user_data_block (Datatypes.S fuel) f s c)
      with ((if 4 <=? remaining c then
        header ← UserDataHeader_decode;
        reject_if (length_ header <? 4)
          "gcc.userData.length" "block length must be at least 4" ;;
        body ← read_slice (length_ header - 4);
        s ← lift_res (f (kind header) body s);
        for_each_user_data_block fuel f s else mret s : reader S) c).
    destruct (4 <=? remaining c); [|cbn; split_and!; done || lia].
    revert c Hc Hb Hn. change (safe_n (Z.of_nat (Datatypes.S fuel)) (header ← UserDataHeader_decode;
        reject_if (length_ header <? 4)
          "gcc.userData.length" "block length must be at least 4" ;;
        body ← read_slice (length_ header - 4);
        s ← lift_res (f (kind header) body s);
        for_each_user_data_block fuel f s : reader S) P).
    eapply (safe_n_bind _ 1); [apply UserDataHeader_safe|apply UserDataHeader_eats|].
    intros h [Hk Hl]. replace (Z.of_nat (Datatypes.S fuel) - 1) with (Z.of_nat fuel) by lia.
    eapply safe_n_then; [apply reject_if_safe|]. intros ? Hr; cbn beta in Hr.
    eapply safe_n_then; [apply read_slice_safe; lia|]. intros body [Hbl Hbb].
    apply (safe_n_then _ _ _ P); [|done]. apply safe_lift_res. apply Hf; [done..|lia|done].
Qed.

Lemma user_data_blocks_safe {S} (f : Z → bytes → S → res DecodeError S) P s input :
  block_safe f P → P s → bytes_ok input → len input < 2 ^ 63 →
  match user_data_blocks f s input with Ok s' => P s' | Err _ => True | Panic => False end.
Proof.
  intros Hf Hs Hb Hl. apply (safe_n_run (len input)); [by apply for_each_safe|done..].
Qed.

Lemma ClientCoreData_safe : safe ClientCoreData_decode (λ _, True).
Proof. unfold ClientCoreData_decode. safe_steps. done. Qed.
Lemma ClientSecurityData_safe : safe ClientSecurityData_decode (λ _, True).
Proof. unfold ClientSecurityData_decode. safe_steps. done. Qed.

Lemma position_bound {A} (p : A → bool) l i : position p l = Some i → (i < length l)%nat.
Proof. intros (x & Hx & _)%position_Some. by apply lookup_lt_Some in Hx. Qed.

Lemma ChannelDef_safe : safe ChannelDef_decode (λ _, True).
Proof.
  unfold ChannelDef_decode. eapply safe_bind; [apply read_slice_safe; lia|]. intros nb [Hl Hb].
  cbn beta zeta. eapply safe_bind; [|intros; safe_steps; done].
  apply (safe_lift_res _ (λ _, True)). unfold slice. rewrite decide_True; [done|].
  unfold len in *. destruct (position _ nb) as [i|] eqn:E; cbn; [apply position_bound in E|]; lia.
Qed.
Lemma ClientNetworkData_safe : safe ClientNetworkData_decode (λ n, len n ≤ CHANNELS_MAX).
Proof.
  unfold ClientNetworkData_decode. eapply safe_bind; [apply read_u32_le_safe|]. intros n Hn.
  eapply safe_weaken; [apply read_many_safe, ChannelDef_safe|]. intros l [Hl _].
  unfold len. rewrite Hl. unfold CHANNELS_MAX. lia.
Qed.
Lemma ClientClusterData_safe : safe ClientClusterData_decode (λ _, True).
Proof. unfold ClientClusterData_decode. safe_steps. done. Qed.

Lemma index_no_panic l i : 0 ≤ i < len l → ∃ b, index l i = Ok b.
Proof. intros Hi. destruct (index_in l i Hi) as (b & E & _). by exists b. Qed.

Lemma early_flags_no_panic body : ∃ o, early_capability_flags_from_cs_core body = Ok o.
Proof.
  unfold early_capability_flags_from_cs_core. cbn zeta.
  destruct (Z.ltb_spec (len body) (128 + 12 + 2)); [by eexists|].
  destruct (index_no_panic body (128 + 12)) as [b0 ->]; [lia|].
  destruct (index_no_panic body (128 + 12 + 1)) as [b1 E]; [lia|].
  change (∃ o, (b1 ← index body (128 + 12 + 1); Ok (E := DecodeError) (Some (from_le [b0; b1]))) = Ok o).
  rewrite E. by eexists.
Qed.

(** What the connector relies on: a client cannot announce more than
    [CHANNELS_MAX] channels. *)
Definition channels_bounded (n : option (list ChannelDef)) : Prop :=
  match n with Some l => len l ≤ CHANNELS_MAX | None => True end.

(** Decode a body, then update the captured variables. *)
Lemma run_then_safe {A S} (m : reader A) (Q : A → Prop) body (k : A → S) (P : S → Prop) :
  safe m Q → bytes_ok body → len body < 2 ^ 63 → (∀ a, Q a → P (k a)) →
  match a ← run m body; Ok (E := DecodeError) (k a) with
  | Ok s => P s | Err _ => True | Panic => False end.
Proof.
  intros Hm Hb Hl Hk. pose proof (safe_run m Q body Hm Hb Hl) as H.
  destruct (run m body); cbn; auto.
Qed.

Lemma client_block_safe : block_safe client_block (λ a, channels_bounded (a_network a)).
Proof.
  intros k body a Hk Hb Hl Ha. unfold client_block.
  destruct (early_flags_no_panic body) as [fl ->].
  destruct (k =? CS_CORE); [by apply (run_then_safe _ _ _ _ _ ClientCoreData_safe)|].
  destruct (k =? CS_SECURITY); [by apply (run_then_safe _ _ _ _ _ ClientSecurityData_safe)|].
  destruct (k =? CS_NET); [by apply (run_then_safe _ _ _ _ _ ClientNetworkData_safe)|].
  destruct (k =? CS_CLUSTER); [by apply (run_then_safe _ _ _ _ _ ClientClusterData_safe)|].
  destruct (k =? CS_MCS_MSGCHANNEL); [|done].
  by apply (run_then_safe ClientMessageChannelData_decode _ _ _ _ read_u32_le_safe).
Qed.

(** Client blocks never panic the decoder, and at most 31 channels come out. *)
Lemma ClientGccBlocks_decode_safe input :
  bytes_ok input → len input < 2 ^ 63 →
  match ClientGccBlocks_decode input with
  | Ok b => channels_bounded (network b) | Err _ => True | Panic => False end.
Proof.
  intros Hb Hl. unfold ClientGccBlocks_decode.
  match goal with |- context [user_data_blocks client_block ?i input] =>
    pose proof (user_data_blocks_safe client_block _ i input client_block_safe I Hb Hl) as H;
    destruct (user_data_blocks client_block i input) as [a| |] end; [|done..].
  cbn. destruct (a_core a); [|done]. cbn. by destruct (a_security a).
Qed.

Lemma read_optional_u32_safe : safe read_optional_u32 (λ _, True).
Proof. unfold read_optional_u32. safe_steps; done. Qed.
#[local] Hint Resolve read_optional_u32_safe : safe.
Lemma ServerCoreData_safe : safe ServerCoreData_decode (λ _, True).
Proof. unfold ServerCoreData_decode. safe_steps. done. Qed.
Lemma ServerSecurityData_safe : safe ServerSecurityData_decode (λ _, True).
Proof. unfold ServerSecurityData_decode. safe_steps. done. Qed.
Lemma ServerNetworkData_safe : safe ServerNetworkData_decode (λ _, True).
Proof.
  unfold ServerNetworkData_decode. do 2 safe_step.
  eapply safe_bind; [apply read_many_safe, read_u16_le_safe|]. intros ids Hids.
  do 1 safe_step. eapply (safe_bind _ _ (λ _, True)); [|intros; by apply safe_ret].
  destruct (_ && _); [apply advance_safe; lia|by apply safe_ret].
Qed.

Lemma server_block_safe : block_safe server_block (λ _, True).
Proof.
  intros k body a Hk Hb Hl Ha. unfold server_block.
  destruct (k =? SC_CORE); [by apply (run_then_safe _ _ _ _ _ ServerCoreData_safe)|].
  destruct (k =? SC_NET); [by apply (run_then_safe _ _ _ _ _ ServerNetworkData_safe)|].
  destruct (k =? SC_SECURITY); [by apply (run_then_safe _ _ _ _ _ ServerSecurityData_safe)|].
  destruct (k =? SC_MCS_MSGCHANNEL); [|done].
  by apply (run_then_safe ServerMessageChannelData_decode _ _ _ _ read_u16_le_safe).
Qed.

Lemma ServerGccBlocks_decode_no_panic input :
  bytes_ok input → len input < 2 ^ 63 → no_panic (ServerGccBlocks_decode input).
Proof.
  intros Hb Hl. unfold ServerGccBlocks_decode.
  match goal with |- context [user_data_blocks server_block ?i input] =>
    pose proof (user_data_blocks_safe server_block _ i input server_block_safe I Hb Hl) as H;
    destruct (user_data_blocks server_block i input) as [a| |] end; [|done..].
  cbn. destruct (sa_core a); [|done]. cbn. destruct (sa_network a); [|done]. cbn.
  by destruct (sa_security a).
Qed.

Lemma expect_byte_safe e f : safe (expect_byte e f) (λ _, True).
Proof. unfold expect_byte. safe_steps. done. Qed.
#[local] Hint Resolve expect_byte_safe : safe.
Lemma ConferenceCreateRequest_safe :
  safe ConferenceCreateRequest_decode_from (λ s, bytes_ok s ∧ len s < 2 ^ 15).
Proof. unfold ConferenceCreateRequest_decode_from. safe_steps. destruct_and?. split; [done|lia]. Qed.
Lemma ConferenceCreateResponse_safe : safe ConferenceCreateResponse_decode_from (λ _, True).
Proof. unfold ConferenceCreateResponse_decode_from. safe_steps. done. Qed.

(** ** Round trips *)

Section blocks.
Context {S : Type} (f : Z → bytes → S → res DecodeError S).

Lemma len_write_block k body : len (write_block k body) = 4 + len body.
Proof. unfold write_block, UserDataHeader_write, write_slice. autorewrite with len. lia. Qed.

Lemma blocks_done fuel s : reads (for_each_user_data_block fuel f s) [] s [].
Proof.
  intros c Hc Hr. exists c. pose proof (rest_len c Hc) as Hl. rewrite Hr, (@len_nil Z) in Hl.
  destruct fuel; cbn [for_each_user_data_block]; unfold mbind, reader_bind, get_remaining;
    rewrite <-Hl; done.
Qed.

Lemma block_reads fuel s s' s'' k body l l' :
  u16_ok k → len body + 4 < 2 ^ 16 → f k body s = Ok s' →
  reads (for_each_user_data_block fuel f s') l s'' l' →
  reads (for_each_user_data_block (Datatypes.S fuel) f s) (write_block k body ++ l) s'' l'.
Proof.
  intros Hk Hl Hf Hrest. pose proof (len_nonneg body). pose proof (len_nonneg l).
  cbn [for_each_user_data_block].
  eapply reads_bind; [apply get_remaining_reads|]. cbn beta.
  destruct (Z.leb_spec 4 (len (write_block k body ++ l))) as [_|E];
    [|rewrite len_app, len_write_block in E; lia].
  unfold write_block, UserDataHeader_write, write_slice. cbn [kind length_].
  rewrite as_u16_id by lia. rewrite <-!(assoc_L (++)).
  eapply (reads_bind UserDataHeader_decode _ _ {| kind := k; length_ := len body + 4 |}).
  { unfold UserDataHeader_decode. reads_step.
    eapply reads_bind; [apply read_u16_le_write; lia|]. by apply reads_ret. }
  cbn [kind length_]. eapply reads_bind; [apply reject_if_reads, Z.ltb_ge; lia|]. cbn beta.
  eapply reads_bind; [apply read_slice_reads; lia|]. cbn beta.
  eapply reads_bind; [|exact Hrest]. intros c Hc Hr. exists c. unfold lift_res. by rewrite Hf.
Qed.
End blocks.

(** A fixed-width UTF-16 field holds its string and a terminator. *)
Definition fixed_ok (s : rstring) (byte_len : Z) : Prop :=
  str_ok s ∧ Forall (λ c, c ≠ 0) s ∧ len (encode_utf16 s) < byte_len / 2.

Definition ClientCoreData_ok (d : ClientCoreData) : Prop :=
  u32_ok (version d) ∧ u16_ok (desktop_width d) ∧ u16_ok (desktop_height d)
  ∧ u16_ok (color_depth d) ∧ u16_ok (sas_sequence d) ∧ u32_ok (keyboard_layout d)
  ∧ u32_ok (client_build d) ∧ fixed_ok (client_name d) 32 ∧ u32_ok (keyboard_type d)
  ∧ u32_ok (keyboard_subtype d) ∧ u32_ok (keyboard_function_key d)
  ∧ fixed_ok (ime_file_name d) 64.

Lemma len_ClientCoreData d : len (ClientCoreData_encode d) = FIXED_PART_SIZE.
Proof. unfold ClientCoreData_encode. autorewrite with len. rewrite !len_write_fixed by lia. done. Qed.

Lemma ClientCoreData_reads d l :
  ClientCoreData_ok d → reads ClientCoreData_decode (ClientCoreData_encode d ++ l) d l.
Proof.
  intros (? & ? & ? & ? & ? & ? & ? & (?&?&?) & ? & ? & ? & (?&?&?)).
  unfold ClientCoreData_decode.
  eapply reads_bind.
  { apply ensure_reads. rewrite len_app, len_ClientCoreData. pose proof (len_nonneg l). lia. }
  cbn beta. unfold ClientCoreData_encode. rewrite <-!(assoc_L (++)). do 7 reads_step.
  eapply reads_bind; [apply read_slice_reads; by rewrite len_write_fixed|]. cbn beta.
  do 3 reads_step.
  eapply reads_bind; [apply read_slice_reads; by rewrite len_write_fixed|]. apply reads_ret_eq.
  rewrite <-(app_nil_r (write_fixed (client_name d) 32)), <-(app_nil_r (write_fixed (ime_file_name d) 64)).
  rewrite !read_fixed_write_fixed by done. by destruct d.
Qed.

Lemma ClientSecurityData_reads d l :
  u32_ok (encryption_methods d) → u32_ok (ext_encryption_methods d) →
  reads ClientSecurityData_decode (ClientSecurityData_encode d ++ l) d l.
Proof.
  intros. unfold ClientSecurityData_decode, ClientSecurityData_encode. rewrite <-(assoc_L (++)).
  reads_steps. by destruct d.
Qed.

(** A channel name is ASCII without NUL and at most seven characters long. *)
Definition ChannelDef_ok (c : ChannelDef) : Prop :=
  Forall (λ b, 0 < b < 0x80) (name c) ∧ len (name c) ≤ 7 ∧ u32_ok (options c).

Lemma ChannelDef_reads c l :
  ChannelDef_ok c → reads ChannelDef_decode (ChannelDef_encode c ++ l) c l.
Proof.
  intros (Hn & Hl & Ho). pose proof (len_nonneg (name c)).
  assert (Forall (λ b, 0 ≤ b < 0x80) (name c)) as Ha by (eapply Forall_impl; [exact Hn|cbn; lia]).
  unfold ChannelDef_encode, ChannelDef_decode, write_slice.
  rewrite as_bytes_ascii by done. rewrite Z.min_l, ztake_all by lia. rewrite <-(assoc_L (++)).
  set (nb := name c ++ replicate (Z.to_nat (8 - len (name c))) 0).
  eapply reads_bind; [apply read_slice_reads; subst nb; autorewrite with len; lia|]. cbn beta zeta.
  assert (position (λ b, b =? 0) nb = Some (length (name c))) as ->.
  { apply position_Some. exists 0. subst nb. split_and!; [|done|].
    - rewrite lookup_app_r, Nat.sub_diag by lia.
      apply lookup_replicate. split; [done|lia].
    - intros j y Hj Hy. rewrite lookup_app_l in Hy by lia.
      pose proof (Forall_lookup_1 _ _ _ _ Hn Hy). cbn in *. lia. }
  change (Z.of_nat (default 8%nat (Some (length (name c))))) with (len (name c)).
  eapply reads_bind.
  { intros cu Hcu Hr. exists cu. unfold lift_res, slice.
    rewrite decide_True by (subst nb; autorewrite with len; lia).
    rewrite zdrop_0, Z.sub_0_r. subst nb. rewrite ztake_app_len by done. done. }
  cbn beta. reads_step. apply reads_ret_eq. rewrite from_utf8_lossy_ascii by done. by destruct c.
Qed.

Lemma len_ChannelDef c : len (as_bytes (name c)) ≤ 8 → len (ChannelDef_encode c) = 12.
Proof.
  intros H. unfold ChannelDef_encode, write_slice. pose proof (len_nonneg (as_bytes (name c))).
  autorewrite with len. rewrite len_ztake by lia. lia.
Qed.

Lemma ClientNetworkData_reads n l :
  Forall ChannelDef_ok n → len n ≤ CHANNELS_MAX →
  reads ClientNetworkData_decode (ClientNetworkData_encode n ++ l) n l.
Proof.
  intros Hn Hl. unfold CHANNELS_MAX in Hl. pose proof (len_nonneg n).
  unfold ClientNetworkData_decode, ClientNetworkData_encode.
  rewrite as_u32_id by lia. rewrite <-(assoc_L (++)).
  eapply reads_bind; [apply read_u32_le_write; lia|]. cbn beta.
  rewrite Z.min_l by (unfold CHANNELS_MAX; lia). unfold len. rewrite Nat2Z.id.
  apply read_many_reads. eapply Forall_impl; [exact Hn|]. intros. by apply ChannelDef_reads.
Qed.

Lemma len_ClientNetworkData n :
  Forall ChannelDef_ok n → len (ClientNetworkData_encode n) = 4 + 12 * len n.
Proof.
  unfold ClientNetworkData_encode. rewrite len_app, len_write_u32_le.
  induction 1 as [|c n (Hc & Hl & _) _ IH]; [done|].
  rewrite fmap_cons. cbn [concat]. rewrite len_app, len_ChannelDef, len_cons; [lia|].
  rewrite as_bytes_ascii; [lia|]. eapply Forall_impl; [exact Hc|cbn; lia].
Qed.

(** What a client encodes: [encode] writes neither the cluster and message
    channel blocks nor the optional tail of the core block. *)
Definition ClientGccBlocks_ok (b : ClientGccBlocks) : Prop :=
  ClientCoreData_ok (core b)
  ∧ u32_ok (encryption_methods (security b)) ∧ u32_ok (ext_encryption_methods (security b))
  ∧ match network b with
    | Some n => Forall ChannelDef_ok n ∧ len n ≤ CHANNELS_MAX | None => True end
  ∧ cluster b = None ∧ message_channel b = None ∧ early_capability_flags b = None.

Lemma client_block_core d a :
  ClientCoreData_ok d → client_block CS_CORE (ClientCoreData_encode d) a
  = Ok {| a_core := Some d; a_security := a_security a; a_network := a_network a;
          a_cluster := a_cluster a; a_message_channel := a_message_channel a; a_flags := None |}.
Proof.
  intros Hd. unfold client_block. rewrite Z.eqb_refl.
  unfold early_capability_flags_from_cs_core. rewrite len_ClientCoreData.
  cbn [Z.ltb Z.compare FIXED_PART_SIZE Z.add Pos.add Pos.compare Pos.compare_cont mbind res_bind].
  rewrite (run_reads_whole _ _ d); [done|by rewrite len_ClientCoreData|by apply ClientCoreData_reads].
Qed.

Lemma client_blocks_decode b :
  ClientGccBlocks_ok b → len (ClientGccBlocks_encode b) < 2 ^ 62 →
  ClientGccBlocks_decode (ClientGccBlocks_encode b) = Ok b.
Proof.
  intros (Hc & Hs1 & Hs2 & Hn & Hcl & Hm & He) Hlen.
  unfold ClientGccBlocks_decode, user_data_blocks.
  set (a0 := Build_client_acc None None None None None None).
  set (a1 := Build_client_acc (Some (core b)) (Some (security b)) (network b) None None None).
  assert (∀ fuel, reads (for_each_user_data_block (3 + fuel) client_block a0)
    (ClientGccBlocks_encode b) a1 []) as Hr.
  { intros fuel. subst a1. unfold ClientGccBlocks_encode.
    eapply (block_reads client_block); [done|by rewrite len_ClientCoreData|by apply client_block_core|].
    eapply (block_reads client_block); [done|done| |].
    { unfold client_block. cbn [Z.eqb CS_SECURITY CS_CORE Pos.eqb].
      rewrite (run_reads_whole _ _ (security b)); [done|done|by apply ClientSecurityData_reads]. }
    destruct (network b) as [n|]; [|apply blocks_done]. destruct Hn as [Hn Hl].
    rewrite <-(app_nil_r (write_block CS_NET _)).
    eapply (block_reads client_block); [done| | |apply blocks_done].
    { rewrite len_ClientNetworkData by done. unfold CHANNELS_MAX in Hl. lia. }
    unfold client_block. cbn [Z.eqb CS_SECURITY CS_CORE CS_NET Pos.eqb].
    rewrite (run_reads_whole _ _ n); [done| |by apply ClientNetworkData_reads].
    rewrite len_ClientNetworkData by done. unfold CHANNELS_MAX in Hl. lia. }
  assert (3 ≤ length (ClientGccBlocks_encode b))%nat as H3.
  { unfold ClientGccBlocks_encode. rewrite length_app. unfold write_block, UserDataHeader_write.
    rewrite !length_app. cbn [length write_u16_le to_le]. lia. }
  replace (length (ClientGccBlocks_encode b)) with (3 + (length (ClientGccBlocks_encode b) - 3))%nat by lia.
  erewrite reads_run; [|lia|apply Hr]. subst a1. destruct b; cbn in *. by subst.
Qed.

Lemma numeric_string_one : write_numeric_string CONFERENCE_NAME 1 = write_length 0 ++ [16].
Proof. by vm_compute. Qed.

Lemma expect_byte_reads e f l : reads (expect_byte e f) (write_u8 e ++ l) tt l.
Proof.
  unfold expect_byte. eapply reads_bind; [apply read_u8_write|]. cbn beta.
  apply reject_if_reads. by rewrite Z.eqb_refl.
Qed.

Lemma conference_request_decode blocks :
  len blocks + 12 < 2 ^ 15 → ConferenceCreateRequest_decode (ConferenceCreateRequest_encode blocks) = Ok blocks.
Proof.
  intros Hl. pose proof (len_nonneg blocks). eapply (run_reads_whole).
  { unfold ConferenceCreateRequest_encode, write_slice. rewrite numeric_string_one.
    autorewrite with len. rewrite !per_len_write_length.
    change (len (write_object_id GCC_CONFERENCE_OBJECT_ID)) with 6.
    change (len (write_octet_string CLIENT_TO_SERVER_H221 4)) with 5.
    change (len (write_padding 1)) with 1. change (len (write_number_of_sets 1)) with 1.
    repeat case_match; lia. }
  unfold ConferenceCreateRequest_decode_from, ConferenceCreateRequest_encode, write_slice.
  rewrite numeric_string_one, <-!(assoc_L (++)).
  eapply reads_bind; [apply expect_byte_reads|]. cbn beta.
  eapply reads_bind; [by apply (read_object_id_reads 0 0 20 124 0 1)|]. cbn beta.
  eapply reads_bind; [apply per_read_length_reads; unfold CONFERENCE_REQUEST_CONNECT_PDU_OVERHEAD; lia|]. cbn beta.
  eapply reads_bind; [apply expect_byte_reads|]. cbn beta.
  eapply reads_bind; [apply (read_selection_reads 8)|]. cbn beta.
  eapply reads_bind.
  { unfold read_numeric_string. eapply reads_bind; [by apply per_read_length_reads|]. cbn beta zeta.
    eapply reads_bind; [by apply (read_slice_reads 1 [16])|]. by apply reads_ret. }
  cbn beta. eapply reads_bind; [apply (read_padding_reads 1)|]. cbn beta.
  eapply reads_bind; [apply (read_number_of_sets_reads 1)|]. cbn beta.
  reads_step. eapply reads_bind; [by apply (per_read_octet_string_reads CLIENT_TO_SERVER_H221 4)|].
  cbn beta. eapply reads_bind; [apply per_read_length_reads; lia|]. cbn beta.
  by apply read_slice_reads.
Qed.

Lemma conference_response_decode r :
  u16_ok (node_id r) → len (server_gcc_blocks r) + 13 < 2 ^ 15 →
  ConferenceCreateResponse_decode (ConferenceCreateResponse_encode r) = Ok r.
Proof.
  intros Hid Hl. pose proof (len_nonneg (server_gcc_blocks r)). eapply run_reads_whole.
  { unfold ConferenceCreateResponse_encode, write_slice.
    autorewrite with len. rewrite !per_len_write_length. unfold write_u16.
    autorewrite with len.
    change (len (write_object_id GCC_CONFERENCE_OBJECT_ID)) with 6.
    change (len (write_octet_string SERVER_TO_CLIENT_H221 4)) with 5.
    change (len (Per.write_u32 1)) with 2. change (len (write_enum 0)) with 1.
    change (len (write_number_of_sets 1)) with 1. repeat case_match; lia. }
  unfold ConferenceCreateResponse_decode_from, ConferenceCreateResponse_encode, write_slice.
  rewrite <-!(assoc_L (++)).
  eapply reads_bind; [apply expect_byte_reads|]. cbn beta.
  eapply reads_bind; [by apply (read_object_id_reads 0 0 20 124 0 1)|]. cbn beta.
  eapply reads_bind; [apply per_read_length_reads; unfold CONFERENCE_RESPONSE_CONNECT_PDU_OVERHEAD; lia|]. cbn beta.
  eapply reads_bind; [apply expect_byte_reads|]. cbn beta.
  eapply reads_bind; [by apply read_u16_reads|]. cbn beta.
  eapply reads_bind; [by apply read_u32_reads|]. cbn beta.
  eapply reads_bind; [apply (read_enum_reads 0)|]. cbn beta.
  eapply reads_bind; [apply (read_number_of_sets_reads 1)|]. cbn beta.
  reads_step. eapply reads_bind; [by apply (per_read_octet_string_reads SERVER_TO_CLIENT_H221 4)|].
  cbn beta. eapply reads_bind; [apply per_read_length_reads; lia|]. cbn beta.
  eapply reads_bind; [rewrite app_nil_r; rewrite <-(app_nil_r (server_gcc_blocks r)) at 2; by apply read_slice_reads|].
  apply reads_ret_eq. by destruct r.
Qed.

Definition opt_u32_ok (o : option Z) : Prop := match o with Some v => u32_ok v | None => True end.

(** The optional fields are a prefix: flags only after protocols. *)
Definition ServerGccBlocks_ok (b : ServerGccBlocks) : Prop :=
  u32_ok (server_version (s_core b)) ∧ opt_u32_ok (client_requested_protocols (s_core b))
  ∧ opt_u32_ok (server_early_capability_flags (s_core b))
  ∧ (client_requested_protocols (s_core b) = None → server_early_capability_flags (s_core b) = None)
  ∧ u16_ok (io_channel_id (s_network b)) ∧ Forall (λ i, u16_ok i) (channel_ids (s_network b))
  ∧ len (channel_ids (s_network b)) < 2 ^ 14
  ∧ match s_message_channel b with Some id => u16_ok id | None => True end.

Lemma read_optional_u32_some v l : u32_ok v → reads read_optional_u32 (write_u32_le v ++ l) (Some v) l.
Proof.
  intros Hv. unfold read_optional_u32. eapply reads_bind; [apply get_remaining_reads|]. cbn beta.
  destruct (Z.leb_spec 4 (len (write_u32_le v ++ l))); [|autorewrite with len in *; len_lia].
  reads_step. by apply reads_ret.
Qed.
Lemma read_optional_u32_none : reads read_optional_u32 [] None [].
Proof.
  unfold read_optional_u32. eapply reads_bind; [apply get_remaining_reads|]. by apply reads_ret.
Qed.

Lemma ServerCoreData_reads d :
  u32_ok (server_version d) → opt_u32_ok (client_requested_protocols d) →
  opt_u32_ok (server_early_capability_flags d) →
  (client_requested_protocols d = None → server_early_capability_flags d = None) →
  reads ServerCoreData_decode (ServerCoreData_encode d ++ []) d [].
Proof.
  intros Hv Hp Hf Himp. unfold ServerCoreData_decode, ServerCoreData_encode.
  destruct d as [v [p|] [g|]]; cbn [server_version client_requested_protocols
    server_early_capability_flags opt_u32_ok] in *; rewrite <-?(assoc_L (++)), ?app_nil_l.
  - reads_step. eapply reads_bind; [by apply read_optional_u32_some|]. cbn beta.
    eapply reads_bind; [by apply read_optional_u32_some|]. by apply reads_ret.
  - reads_step. eapply reads_bind; [by apply read_optional_u32_some|]. cbn beta.
    eapply reads_bind; [apply read_optional_u32_none|]. by apply reads_ret.
  - by specialize (Himp eq_refl).
  - reads_step. eapply reads_bind; [apply read_optional_u32_none|]. cbn beta.
    eapply reads_bind; [apply read_optional_u32_none|]. by apply reads_ret.
Qed.

Lemma ServerNetworkData_reads d :
  u16_ok (io_channel_id d) → Forall (λ i, u16_ok i) (channel_ids d) → len (channel_ids d) < 2 ^ 14 →
  reads ServerNetworkData_decode (ServerNetworkData_encode d ++ []) d [].
Proof.
  intros Hio Hids Hl. pose proof (len_nonneg (channel_ids d)).
  unfold ServerNetworkData_decode, ServerNetworkData_encode.
  rewrite as_u16_id by lia. rewrite <-!(assoc_L (++)). reads_step.
  eapply reads_bind; [apply read_u16_le_write; lia|]. cbn beta.
  eapply reads_bind.
  { unfold len at 1. rewrite Nat2Z.id. apply read_many_reads.
    eapply Forall_impl; [exact Hids|]. intros. by apply read_u16_le_write. }
  cbn beta. eapply reads_bind; [apply get_remaining_reads|]. cbn beta.
  eapply reads_bind; [|apply reads_ret_eq; by destruct d].
  destruct (len (channel_ids d) mod 2 =? 1); [|by apply reads_ret].
  rewrite len_app. cbn [andb]. change (len (write_u16_le 0)) with 2. rewrite (@len_nil Z).
  by apply (advance_reads 2 (write_u16_le 0)).
Qed.

Lemma len_concat_u16 ids : len (concat (write_u16_le <$> ids)) = 2 * len ids.
Proof.
  induction ids as [|i ids IH]; [done|]. rewrite fmap_cons. cbn [concat].
  autorewrite with len. lia.
Qed.

Lemma len_ServerCoreData d : len (ServerCoreData_encode d) ≤ 12.
Proof. unfold ServerCoreData_encode. repeat case_match; autorewrite with len; lia. Qed.
Lemma len_ServerNetworkData d : len (ServerNetworkData_encode d) ≤ 6 + 2 * len (channel_ids d).
Proof.
  unfold ServerNetworkData_encode. autorewrite with len. rewrite len_concat_u16.
  case_match; autorewrite with len; lia.
Qed.

Lemma server_blocks_decode b :
  ServerGccBlocks_ok b → len (ServerGccBlocks_encode b) < 2 ^ 62 →
  ServerGccBlocks_decode (ServerGccBlocks_encode b) = Ok b.
Proof.
  intros (Hv & Hp & Hf & Himp & Hio & Hids & Hl & Hm) Hlen.
  unfold ServerGccBlocks_decode, user_data_blocks.
  set (a0 := Build_server_acc None None None None).
  pose proof (len_ServerCoreData (s_core b)). pose proof (len_ServerNetworkData (s_network b)).
  assert (∀ fuel, reads (for_each_user_data_block (4 + fuel) server_block a0)
    (ServerGccBlocks_encode b)
    (Build_server_acc (Some (s_core b)) (Some (s_network b)) (Some tt) (s_message_channel b)) []) as Hr.
  { intros fuel. unfold ServerGccBlocks_encode.
    eapply (block_reads server_block); [done|lia| |].
    { unfold server_block. rewrite Z.eqb_refl.
      rewrite (run_reads_whole _ _ (s_core b)); [done|lia|by apply ServerCoreData_reads]. }
    eapply (block_reads server_block); [done|lia| |].
    { unfold server_block. cbn [Z.eqb SC_NET SC_CORE Pos.eqb].
      rewrite (run_reads_whole _ _ (s_network b)); [done|lia|by apply ServerNetworkData_reads]. }
    eapply (block_reads server_block); [done|done|by vm_compute|].
    destruct (s_message_channel b) as [id|]; [|apply blocks_done].
    rewrite <-(app_nil_r (write_block SC_MCS_MSGCHANNEL _)).
    eapply (block_reads server_block); [done|done| |apply blocks_done].
    unfold server_block. cbn [Z.eqb SC_NET SC_CORE SC_SECURITY SC_MCS_MSGCHANNEL Pos.eqb].
    rewrite (run_reads_whole _ _ id); [done|done|by apply read_u16_le_write]. }
  assert (4 ≤ length (ServerGccBlocks_encode b))%nat as H4.
  { unfold ServerGccBlocks_encode. rewrite length_app. unfold write_block, UserDataHeader_write.
    rewrite !length_app. cbn [length write_u16_le to_le]. lia. }
  replace (length (ServerGccBlocks_encode b)) with (4 + (length (ServerGccBlocks_encode b) - 4))%nat by lia.
  erewrite reads_run; [|lia|apply Hr]. by destruct b.
Qed.

(** The GCC layer of MCS Connect is faithful in both directions: the client's
    blocks (display size, name, channel list, security) and the server's blocks
    (protocols, channel ids, message channel) come back unchanged from the block
    encoding inside the T.124 conference wrapper. *)
Theorem gcc_roundtrip :
  (∀ b, ClientGccBlocks_ok b → len (ClientGccBlocks_encode b) + 12 < 2 ^ 15 →
     (ConferenceCreateRequest_decode (ConferenceCreateRequest_encode (ClientGccBlocks_encode b))
        ≫= ClientGccBlocks_decode) = Ok b)
  ∧ (∀ b id, ServerGccBlocks_ok b → u16_ok id → len (ServerGccBlocks_encode b) + 13 < 2 ^ 15 →
     ∃ r, ConferenceCreateResponse_decode (ConferenceCreateResponse_encode
            {| node_id := id; server_gcc_blocks := ServerGccBlocks_encode b |}) = Ok r
       ∧ node_id r = id ∧ ServerGccBlocks_decode (server_gcc_blocks r) = Ok b).
Proof.
  split.
  - intros b Hb Hl. rewrite conference_request_decode by done.
    cbn [mbind res_bind]. apply client_blocks_decode; [done|lia].
  - intros b id Hb Hid Hl. eexists. split; [by apply conference_response_decode|].
    split; [done|]. cbn [server_gcc_blocks]. apply server_blocks_decode; [done|lia].
Qed.

Definition sample_client_blocks : ClientGccBlocks :=
  {| core := {| version := 0x00080004; desktop_width := 1920; desktop_height := 1080;
                color_depth := 0xCA01; sas_sequence := 0xAA03; keyboard_layout := 0x409;
                client_build := 2600; client_name := lit "pc"; keyboard_type := 4;
                keyboard_subtype := 0; keyboard_function_key := 12; ime_file_name := [] |};
     security := {| encryption_methods := 0; ext_encryption_methods := 0 |};
     network := Some [{| name := lit "rdpsnd"; options := 0xC0000000 |};
                      {| name := lit "drdynvc"; options := 0x80000000 |}];
     cluster := None; message_channel := None; early_capability_flags := None |}.

Lemma sample_client_blocks_ok : ClientGccBlocks_ok sample_client_blocks.
Proof.
  unfold ClientGccBlocks_ok, ClientCoreData_ok, fixed_ok, ChannelDef_ok, str_ok, scalar_ok.
  split; [apply (bool_decide_unpack _); vm_compute; exact I|].
  split; [done|]. split; [done|]. split; [|done].
  cbn [network sample_client_blocks]. apply (bool_decide_unpack _). vm_compute. exact I.
Qed.

Lemma gcc_roundtrip_witness :
  (ConferenceCreateRequest_decode
     (ConferenceCreateRequest_encode (ClientGccBlocks_encode sample_client_blocks))
   ≫= ClientGccBlocks_decode) = Ok sample_client_blocks.
Proof.
  apply (proj1 gcc_roundtrip); [exact sample_client_blocks_ok|vm_compute; reflexivity].
Defined.
