(* ===== verification/Capability.v ===== *)
(** [rdpcore-pdu/src/capability_sets.rs]: the Share Control Header, the
    capability sets the server announces in Demand Active, and the client's
    Confirm Active with what the server reads from it. *)
From S2P Require Import Prelude Cursor.

(** ** Share Control Header *)

Definition SHARE_CONTROL_VERSION_SENTINEL : Z := 0x10.
Definition SHARE_CONTROL_TYPE_MASK : Z := 0xF.

Inductive ShareControlPduType := PduDemandActive | PduConfirmActive | PduDeactivateAll | PduData.
Global Instance ShareControlPduType_eq_dec : EqDecision ShareControlPduType.
Proof. solve_decision. Defined.

Definition ShareControlPduType_as_u16 (t : ShareControlPduType) : Z :=
  match t with
  | PduDemandActive => 0x1 | PduConfirmActive => 0x3 | PduDeactivateAll => 0x6 | PduData => 0x7
  end.
Definition ShareControlPduType_from_u16 (value : Z) : option ShareControlPduType :=
  match value with
  | 0x1 => Some PduDemandActive | 0x3 => Some PduConfirmActive
  | 0x6 => Some PduDeactivateAll | 0x7 => Some PduData
  | _ => None
  end.

Record ShareControlHeader := { pdu_type : ShareControlPduType; pdu_source : Z; share_id : Z }.
Definition ShareControlHeader_SIZE : Z := 10.

Definition ShareControlHeader_write (h : ShareControlHeader) (body_len : Z) : bytes :=
  write_u16_le (as_u16 (ShareControlHeader_SIZE + body_len))
  ++ write_u16_le (Z.lor SHARE_CONTROL_VERSION_SENTINEL (ShareControlPduType_as_u16 (pdu_type h)))
  ++ write_u16_le (pdu_source h) ++ write_u32_le (share_id h).

(** [!SHARE_CONTROL_TYPE_MASK] is 0xFFF0. *)
Definition ShareControlHeader_decode : reader (ShareControlHeader * Z) :=
  total_length ← read_u16_le;
  raw_type ← read_u16_le;
  reject_if (negb (Z.land raw_type (0xFFFF - SHARE_CONTROL_TYPE_MASK)
                   =? SHARE_CONTROL_VERSION_SENTINEL))
    "share_control_header.pdu_type" "expected the fixed 0x10 version sentinel" ;;
  pdu_type ← match ShareControlPduType_from_u16 (Z.land raw_type SHARE_CONTROL_TYPE_MASK) with
             | Some t => mret t
             | None => invalid "share_control_header.pdu_type" "unrecognized PDU type"
             end;
  pdu_source ← read_u16_le;
  share_id ← read_u32_le;
  mret ({| pdu_type := pdu_type; pdu_source := pdu_source; share_id := share_id |},
        saturating_sub total_length ShareControlHeader_SIZE).

(** ** Capability sets *)

Definition CAPSET_GENERAL : Z := 0x01.
Definition CAPSET_BITMAP : Z := 0x02.
Definition CAPSET_ORDER : Z := 0x03.
Definition CAPSET_POINTER : Z := 0x08.
Definition CAPSET_INPUT : Z := 0x0D.
Definition CAPSET_VIRTUAL_CHANNEL : Z := 0x14.
Definition CAPSET_MULTIFRAGMENT_UPDATE : Z := 0x1A.
Definition CAPSET_SURFACE_COMMANDS : Z := 0x1C.
Definition CAPSET_BITMAP_CODECS : Z := 0x1D.
Definition NSCODEC_GUID : bytes :=
  [0xB9; 0x1B; 0x8D; 0xCA; 0x0F; 0x00; 0x4F; 0x15; 0x58; 0x9F; 0xAE; 0x2D; 0x1A; 0x87; 0xE2; 0xD6].

Record RawCapabilitySet := { set_type : Z; body : bytes }.

Definition RawCapabilitySet_write (s : RawCapabilitySet) : bytes :=
  write_u16_le (set_type s) ++ write_u16_le (as_u16 (len (body s) + 4)) ++ write_slice (body s).
Definition RawCapabilitySet_decode : reader RawCapabilitySet :=
  set_type ← read_u16_le;
  length ← read_u16_le;
  body ← read_slice (saturating_sub length 4);
  mret {| set_type := set_type; body := body |}.
Definition write_capset (set_type : Z) (body : bytes) : bytes :=
  write_u16_le set_type ++ write_u16_le (as_u16 (len body + 4)) ++ write_slice body.

(** [b as u8] and [b as u16]. *)
Definition bool_as (b : bool) : Z := if b then 1 else 0.

Record GeneralCapability := {
  extra_flags : Z; refresh_rect_support : bool; suppress_output_support : bool }.
Definition FASTPATH_OUTPUT_SUPPORTED : Z := 0x0001.
Definition GeneralCapability_encode_body (c : GeneralCapability) : bytes :=
  write_u16_le 1 ++ write_u16_le 3 ++ write_u16_le 0x0200 ++ write_u16_le 0 ++ write_u16_le 0
  ++ write_u16_le (extra_flags c) ++ write_u16_le 0 ++ write_u16_le 0 ++ write_u16_le 0
  ++ write_u8 (bool_as (refresh_rect_support c)) ++ write_u8 (bool_as (suppress_output_support c)).
Definition GeneralCapability_decode : reader GeneralCapability :=
  _ ← read_u16_le;
  _ ← read_u16_le;
  _ ← read_u16_le;
  _ ← read_u16_le;
  compression_types ← read_u16_le;
  reject_if (negb (compression_types =? 0)) "general_capability.compression_types" "must be 0" ;;
  extra_flags ← read_u16_le;
  _ ← read_u16_le;
  _ ← read_u16_le;
  _ ← read_u16_le;
  r ← read_u8;
  s ← read_u8;
  mret {| extra_flags := extra_flags; refresh_rect_support := negb (r =? 0);
          suppress_output_support := negb (s =? 0) |}.
Definition GeneralCapability_decode_body (b : bytes) := run GeneralCapability_decode b.

Record BitmapCapability := {
  preferred_bits_per_pixel : Z; desktop_width : Z; desktop_height : Z;
  desktop_resize_flag : bool }.
Definition DRAW_ALLOW_SKIP_ALPHA : Z := 0x08.
Definition BitmapCapability_encode_body (c : BitmapCapability) : bytes :=
  write_u16_le (preferred_bits_per_pixel c) ++ write_u16_le 1 ++ write_u16_le 1 ++ write_u16_le 1
  ++ write_u16_le (desktop_width c) ++ write_u16_le (desktop_height c) ++ write_u16_le 0
  ++ write_u16_le (bool_as (desktop_resize_flag c)) ++ write_u16_le 1 ++ write_u8 0
  ++ write_u8 DRAW_ALLOW_SKIP_ALPHA ++ write_u16_le 1 ++ write_u16_le 0.
Definition BitmapCapability_decode : reader BitmapCapability :=
  preferred_bits_per_pixel ← read_u16_le;
  _ ← read_u16_le;
  _ ← read_u16_le;
  _ ← read_u16_le;
  desktop_width ← read_u16_le;
  desktop_height ← read_u16_le;
  _ ← read_u16_le;
  resize ← read_u16_le;
  compression_flag ← read_u16_le;
  reject_if (compression_flag =? 0) "bitmap_capability.compression_flag" "must be nonzero" ;;
  _ ← read_u8;
  _ ← read_u8;
  _ ← read_u16_le;
  _ ← read_u16_le;
  mret {| preferred_bits_per_pixel := preferred_bits_per_pixel; desktop_width := desktop_width;
          desktop_height := desktop_height; desktop_resize_flag := negb (resize =? 0) |}.
Definition BitmapCapability_decode_body (b : bytes) := run BitmapCapability_decode b.

(** [OrderCapability] has no field. *)
Definition OrderCapability_encode_body : bytes :=
  write_slice (replicate 16 0) ++ write_u32_le 0 ++ write_u16_le 1 ++ write_u16_le 20
  ++ write_u16_le 0 ++ write_u16_le 1 ++ write_u16_le 0 ++ write_u16_le 0x0002
  ++ write_slice (replicate 32 0) ++ write_u16_le 0 ++ write_u16_le 0 ++ write_u32_le 0
  ++ write_u32_le 0 ++ write_u16_le 0 ++ write_u16_le 0 ++ write_u16_le 0 ++ write_u16_le 0.
Definition OrderCapability_decode_body (b : bytes) : res DecodeError unit :=
  if len b <? 84
  then Err (InvalidValue "order_capability" "body shorter than the fixed 84-byte layout")
  else Ok tt.

Record PointerCapability := { color_pointer_cache_size : Z; pointer_cache_size : Z }.
Definition PointerCapability_encode_body (c : PointerCapability) : bytes :=
  write_u16_le 1 ++ write_u16_le (color_pointer_cache_size c) ++ write_u16_le (pointer_cache_size c).
Definition PointerCapability_decode : reader PointerCapability :=
  _ ← read_u16_le;
  a ← read_u16_le;
  b ← read_u16_le;
  mret {| color_pointer_cache_size := a; pointer_cache_size := b |}.
Definition PointerCapability_decode_body (b : bytes) := run PointerCapability_decode b.

Record InputCapability := {
  input_flags : Z; keyboard_layout : Z; keyboard_type : Z; keyboard_subtype : Z;
  keyboard_function_key : Z }.
Definition SCANCODES : Z := 0x0001.
Definition MOUSEX : Z := 0x0004.
Definition FASTPATH_INPUT : Z := 0x0008.
Definition INPUT_UNICODE : Z := 0x0010.
Definition FASTPATH_INPUT_2 : Z := 0x0020.
Definition InputCapability_encode_body (c : InputCapability) : bytes :=
  write_u16_le (input_flags c) ++ write_u16_le 0 ++ write_u32_le (keyboard_layout c)
  ++ write_u32_le (keyboard_type c) ++ write_u32_le (keyboard_subtype c)
  ++ write_u32_le (keyboard_function_key c) ++ write_slice (replicate 64 0).
Definition InputCapability_decode : reader InputCapability :=
  input_flags ← read_u16_le;
  _ ← read_u16_le;
  keyboard_layout ← read_u32_le;
  keyboard_type ← read_u32_le;
  keyboard_subtype ← read_u32_le;
  keyboard_function_key ← read_u32_le;
  _ ← read_slice 64;
  mret {| input_flags := input_flags; keyboard_layout := keyboard_layout;
          keyboard_type := keyboard_type; keyboard_subtype := keyboard_subtype;
          keyboard_function_key := keyboard_function_key |}.
Definition InputCapability_decode_body (b : bytes) := run InputCapability_decode b.

(** [VirtualChannelCapability] is its [flags], [MultiFragmentUpdateCapability] its
    [max_request_size]. *)
Definition VirtualChannelCapability_encode_body (flags : Z) : bytes := write_u32_le flags.
Definition VirtualChannelCapability_decode_body (b : bytes) := run read_u32_le b.
Definition MultiFragmentUpdateCapability_encode_body (n : Z) : bytes := write_u32_le n.
Definition MultiFragmentUpdateCapability_decode_body (b : bytes) := run read_u32_le b.

(** SET_SURFACE_BITS, FRAME_MARKER and STREAM_SURFACE_BITS. *)
Definition SurfaceCommandsCapability_encode_body : bytes :=
  write_u32_le (Z.lor (Z.lor 0x02 0x10) 0x40) ++ write_u32_le 0.

Record BitmapCodecsCapability := { nscodec_id : Z; cap_color_loss_level : Z }.
Definition BitmapCodecsCapability_default : BitmapCodecsCapability :=
  {| nscodec_id := 1; cap_color_loss_level := 3 |}.
(** [x.clamp(1, 7)] *)
Definition clamp_1_7 (x : Z) : Z := Z.min (Z.max x 1) 7.
Definition BitmapCodecsCapability_encode_body (c : BitmapCodecsCapability) : bytes :=
  write_u8 1 ++ write_slice NSCODEC_GUID ++ write_u8 (nscodec_id c) ++ write_u16_le 3
  ++ write_u8 1 ++ write_u8 1 ++ write_u8 (clamp_1_7 (cap_color_loss_level c)).

(** ** What the server reads from the client's sets *)

Record NsCodecNegotiated := { codec_id : Z; color_loss_level : Z }.

(** [.ok()] *)
Definition ok {A} (m : res DecodeError A) : res DecodeError (option A) :=
  match m with Ok a => Ok (Some a) | Err _ => Ok None | Panic => Panic end.

Definition find_capability (caps : list RawCapabilitySet) (t : Z) : option bytes :=
  (λ p, body p.2) <$> list_find (λ c, set_type c = t) caps.

Definition parse_client_max_request_size (caps : list RawCapabilitySet)
  : res DecodeError (option Z) :=
  match find_capability caps CAPSET_MULTIFRAGMENT_UPDATE with
  | None => Ok None
  | Some b =>
    o ← ok (MultiFragmentUpdateCapability_decode_body b);
    Ok (match o with Some n => if 0 <? n then Some n else None | None => None end)
  end.

(** The [for] loop of [parse_client_nscodec]; a failed read ends the search. *)
Fixpoint nscodec_loop (codec_count : nat) (server_cll : Z) : reader (option NsCodecNegotiated) :=
  match codec_count with
  | O => mret None
  | S codec_count =>
    guid ← read_slice 16;
    if decide (guid ≠ NSCODEC_GUID) then
      _ ← read_u8;
      prop_len ← read_u16_le;
      _ ← read_slice prop_len;
      nscodec_loop codec_count server_cll
    else
      codec_id ← read_u8;
      prop_len ← read_u16_le;
      if prop_len <? 3 then mret None else
      _ ← read_u8;
      _ ← read_u8;
      cll ← read_u8;
      let client_cll := clamp_1_7 cll in
      mret (Some {| codec_id := codec_id;
                    color_loss_level := Z.min client_cll (Z.max server_cll 1) |})
  end.
Definition parse_client_nscodec (caps : list RawCapabilitySet) (server_cll : Z)
  : res DecodeError (option NsCodecNegotiated) :=
  match find_capability caps CAPSET_BITMAP_CODECS with
  | None => Ok None
  | Some b =>
    o ← ok (run (codec_count ← read_u8; nscodec_loop (Z.to_nat codec_count) server_cll) b);
    Ok (match o with Some r => r | None => None end)
  end.

(** ** Demand Active, Deactivate All, Confirm Active *)

Record ServerCapabilities := {
  general : GeneralCapability; bitmap : BitmapCapability; pointer : PointerCapability;
  input : InputCapability; virtual_channel : Z; multifragment_update : Z;
  bitmap_codecs : BitmapCodecsCapability }.

Definition ServerCapabilities_sets (c : ServerCapabilities) : list (Z * bytes) :=
  [ (CAPSET_GENERAL, GeneralCapability_encode_body (general c));
    (CAPSET_BITMAP, BitmapCapability_encode_body (bitmap c));
    (CAPSET_ORDER, OrderCapability_encode_body);
    (CAPSET_POINTER, PointerCapability_encode_body (pointer c));
    (CAPSET_INPUT, InputCapability_encode_body (input c));
    (CAPSET_VIRTUAL_CHANNEL, VirtualChannelCapability_encode_body (virtual_channel c));
    (CAPSET_MULTIFRAGMENT_UPDATE,
       MultiFragmentUpdateCapability_encode_body (multifragment_update c));
    (CAPSET_SURFACE_COMMANDS, SurfaceCommandsCapability_encode_body);
    (CAPSET_BITMAP_CODECS, BitmapCodecsCapability_encode_body (bitmap_codecs c)) ].

(** The bytes appended and the [count] returned. *)
Definition write_list (c : ServerCapabilities) : bytes * Z :=
  (concat ((λ s, write_capset s.1 s.2) <$> ServerCapabilities_sets c),
   len (ServerCapabilities_sets c)).

Record DemandActive := {
  da_share_id : Z; da_pdu_source : Z; da_capabilities : ServerCapabilities }.
Definition DemandActive_encode (d : DemandActive) : bytes :=
  let '(capsets, count) := write_list (da_capabilities d) in
  let body :=
    write_u16_le 1 ++ write_u16_le (as_u16 (2 + 2 + len capsets)) ++ write_u8 0
    ++ write_u16_le count ++ write_u16_le 0 ++ write_slice capsets ++ write_u32_le 0 in
  ShareControlHeader_write {| pdu_type := PduDemandActive; pdu_source := da_pdu_source d;
                              share_id := da_share_id d |} (len body)
  ++ write_slice body.

Definition DeactivateAllPdu_encode (share_id pdu_source : Z) : bytes :=
  let body := write_u16_le 0 in
  ShareControlHeader_write {| pdu_type := PduDeactivateAll; pdu_source := pdu_source;
                              share_id := share_id |} (len body)
  ++ write_slice body.

Record ConfirmActive := {
  ca_share_id : Z; ca_pdu_source : Z; originator_id : Z; capabilities : list RawCapabilitySet }.

(** The [for] loop over the capability list, ended by the first bad set. *)
Fixpoint read_capabilities (n : nat) : reader (list RawCapabilitySet) :=
  match n with
  | O => mret []
  | S n =>
    o ← try_read RawCapabilitySet_decode;
    match o with
    | Some cap => l ← read_capabilities n; mret (cap :: l)
    | None => mret []
    end
  end.

Definition ConfirmActive_decode_from : reader ConfirmActive :=
  '(header, _) ← ShareControlHeader_decode;
  reject_if (bool_decide (pdu_type header ≠ PduConfirmActive))
    "confirm_active.share_control_header.pdu_type" "expected ConfirmActivePdu" ;;
  originator ← try_read read_u16_le;
  length_source_descriptor ← try_read read_u16_le;
  capabilities ←
    match length_source_descriptor with
    | None => mret []
    | Some n =>
      _ ← try_read read_u16_le;
      r ← get_remaining;
      _ ← try_read (read_slice (Z.min n r));
      number_capabilities ← try_read read_u16_le;
      pad ← try_read read_u16_le;
      match number_capabilities, pad with
      | Some n, Some _ => read_capabilities (Z.to_nat n)
      | _, _ => mret []
      end
    end;
  mret {| ca_share_id := share_id header; ca_pdu_source := pdu_source header;
          originator_id := default 0 originator; capabilities := capabilities |}.
Definition ConfirmActive_decode (input : bytes) : res DecodeError ConfirmActive :=
  run ConfirmActive_decode_from input.

(** ** Safety *)

Lemma ShareControlHeader_safe :
  safe ShareControlHeader_decode (λ h, u16_ok (pdu_source h.1) ∧ u32_ok (share_id h.1) ∧ 0 ≤ h.2 < 2 ^ 16).
Proof.
  unfold ShareControlHeader_decode. do 3 safe_step.
  eapply (safe_bind _ _ (λ _, True)).
  { destruct (ShareControlPduType_from_u16 _); [by apply safe_ret|apply safe_fail]. }
  intros t _. do 3 safe_step. cbn [fst snd pdu_source share_id].
  split; [done|]. split; [done|]. unfold saturating_sub, ShareControlHeader_SIZE. lia.
Qed.
#[export] Hint Resolve ShareControlHeader_safe : safe.

(** The body of a decoded set is a byte string of the input's length at most. *)
Definition set_ok (c : RawCapabilitySet) : Prop := bytes_ok (body c) ∧ len (body c) < 2 ^ 63.

Lemma RawCapabilitySet_safe : safe RawCapabilitySet_decode set_ok.
Proof.
  unfold RawCapabilitySet_decode. eapply safe_bind; [apply read_u16_le_safe|]. intros t _.
  eapply safe_bind; [apply read_u16_le_safe|]. intros n Hn.
  eapply safe_bind; [apply read_slice_safe; unfold saturating_sub; lia|].
  intros d [Hl Hb]. apply safe_ret. split; [done|]. cbn [body]. cbn beta in Hn.
  unfold saturating_sub in Hl. lia.
Qed.

Lemma read_capabilities_safe n : safe (read_capabilities n) (Forall set_ok).
Proof.
  induction n as [|n IH]; cbn [read_capabilities]; [by apply safe_ret|].
  eapply safe_bind; [apply try_read_safe, RawCapabilitySet_safe|].
  intros [cap|] Hcap; [|by apply safe_ret].
  eapply safe_bind; [exact IH|]. intros l Hl. apply safe_ret. by constructor.
Qed.

Lemma ConfirmActive_safe :
  safe ConfirmActive_decode_from (λ c, u32_ok (ca_share_id c) ∧ Forall set_ok (capabilities c)).
Proof.
  unfold ConfirmActive_decode_from. eapply safe_bind; [apply ShareControlHeader_safe|].
  intros [h n] (? & ? & ?); cbn [fst snd] in *.
  eapply safe_bind; [apply reject_if_safe|]. intros ? _.
  eapply safe_bind; [apply try_read_safe, read_u16_le_safe|]. intros o _.
  eapply safe_bind; [apply try_read_safe, read_u16_le_safe|]. intros l Hl.
  eapply (safe_bind _ _ (Forall set_ok)); [|intros; by apply safe_ret].
  destruct l as [l|]; [|by apply safe_ret].
  eapply safe_bind; [apply try_read_safe, read_u16_le_safe|]. intros ? _.
  eapply safe_bind; [apply get_remaining_safe|]. intros r Hr.
  eapply safe_bind; [apply try_read_safe, read_slice_safe; cbn in *; lia|]. intros ? _.
  eapply safe_bind; [apply try_read_safe, read_u16_le_safe|]. intros nc _.
  eapply safe_bind; [apply try_read_safe, read_u16_le_safe|]. intros pad _.
  destruct nc as [nc|], pad as [pad|]; try by apply safe_ret. apply read_capabilities_safe.
Qed.

Lemma ConfirmActive_decode_spec data :
  bytes_ok data → len data < 2 ^ 63 →
  match ConfirmActive_decode data with
  | Ok c => Forall set_ok (capabilities c) | Err _ => True | Panic => False end.
Proof.
  intros Hb Hl. eapply (safe_run _ (λ c, Forall set_ok (capabilities c))); [|done..].
  eapply safe_weaken; [apply ConfirmActive_safe|]. by intros c [_ ?].
Qed.

Lemma nscodec_loop_safe n cll :
  0 ≤ cll → safe (nscodec_loop n cll) (λ o, match o with
    | Some c => u8_ok (codec_id c) ∧ 1 ≤ color_loss_level c ≤ 7 | None => True end).
Proof.
  intros Hcll. induction n as [|n IH]; cbn [nscodec_loop]; [by apply safe_ret|].
  eapply safe_bind; [apply read_slice_safe; lia|]. intros g _. cbn beta.
  destruct (decide (g ≠ NSCODEC_GUID)).
  - eapply safe_bind; [apply read_u8_safe|]. intros ? _.
    eapply safe_bind; [apply read_u16_le_safe|]. intros p Hp; cbn beta in Hp.
    eapply safe_bind; [apply read_slice_safe; lia|]. intros ? _. exact IH.
  - eapply safe_bind; [apply read_u8_safe|]. intros id Hid.
    eapply safe_bind; [apply read_u16_le_safe|]. intros p Hp.
    destruct (p <? 3); [by apply safe_ret|].
    eapply safe_bind; [apply read_u8_safe|]. intros ? _.
    eapply safe_bind; [apply read_u8_safe|]. intros ? _.
    eapply safe_bind; [apply read_u8_safe|]. intros c Hc. apply safe_ret.
    split; [exact Hid|]. cbn [color_loss_level]. unfold clamp_1_7. lia.
Qed.

(** Whatever the client's capability bytes, reading them never fails the
    handshake, and a negotiated colour loss level is one NSCodec accepts. *)
Lemma parse_client_nscodec_safe caps cll :
  0 ≤ cll → Forall set_ok caps →
  ∃ o, parse_client_nscodec caps cll = Ok o
    ∧ match o with Some c => u8_ok (codec_id c) ∧ 1 ≤ color_loss_level c ≤ 7 | None => True end.
Proof.
  intros Hcll Hcaps. unfold parse_client_nscodec, find_capability.
  destruct (list_find _ caps) as [[i c]|] eqn:E; [|by eexists]. cbn.
  apply list_find_Some in E as (Hc & _ & _). pose proof (Forall_lookup_1 _ _ _ _ Hcaps Hc) as [Hb Hl].
  pose proof (safe_run (n ← read_u8; nscodec_loop (Z.to_nat n) cll) _ (body c)
    ltac:(eapply safe_bind; [apply read_u8_safe|intros; by apply nscodec_loop_safe]) Hb Hl) as H.
  destruct (run _ (body c)) as [o| |]; [|by eexists|done]. by exists o.
Qed.

Lemma parse_client_max_request_size_safe caps :
  Forall set_ok caps →
  ∃ o, parse_client_max_request_size caps = Ok o
    ∧ match o with Some n => 0 < n < 2 ^ 32 | None => True end.
Proof.
  intros Hcaps. unfold parse_client_max_request_size, find_capability.
  destruct (list_find _ caps) as [[i c]|] eqn:E; [|by eexists]. cbn.
  apply list_find_Some in E as (Hc & _ & _). pose proof (Forall_lookup_1 _ _ _ _ Hcaps Hc) as [Hb Hl].
  pose proof (safe_run read_u32_le _ (body c) read_u32_le_safe Hb Hl) as H.
  unfold MultiFragmentUpdateCapability_decode_body.
  destruct (run _ (body c)) as [n| |]; [|by eexists|done]. cbn.
  eexists; split; [done|]. destruct (Z.ltb_spec 0 n); [lia|done].
Qed.

(** ** Round trips *)

Lemma ShareControlHeader_reads h n l :
  u16_ok (pdu_source h) → u32_ok (share_id h) → 0 ≤ n → n + 10 < 2 ^ 16 →
  reads ShareControlHeader_decode (ShareControlHeader_write h n ++ l) (h, n) l.
Proof.
  intros Hs Hi Hn Hl. unfold ShareControlHeader_decode, ShareControlHeader_write.
  unfold ShareControlHeader_SIZE. rewrite as_u16_id by lia. rewrite <-!(assoc_L (++)).
  eapply reads_bind; [apply read_u16_le_write; lia|]. cbn beta.
  eapply reads_bind; [apply read_u16_le_write; destruct h as [[] ? ?]; by vm_compute|]. cbn beta.
  eapply reads_bind; [apply reject_if_reads; destruct h as [[] ? ?]; by vm_compute|]. cbn beta.
  eapply (reads_bind _ _ _ (pdu_type h)); [destruct h as [[] ? ?]; by apply reads_ret|]. cbn beta.
  reads_steps. destruct h; cbn. f_equal. unfold saturating_sub. lia.
Qed.

Lemma bool_as_nonzero b : negb (bool_as b =? 0) = b.
Proof. by destruct b. Qed.
Lemma bool_as_u16 b : u16_ok (bool_as b).
Proof. by destruct b. Qed.
#[local] Hint Resolve bool_as_u16 : reads.

Lemma GeneralCapability_roundtrip c :
  u16_ok (extra_flags c) → GeneralCapability_decode_body (GeneralCapability_encode_body c) = Ok c.
Proof.
  intros H. apply run_reads_whole; [done|].
  unfold GeneralCapability_decode, GeneralCapability_encode_body.
  rewrite <-!(assoc_L (++)). reads_steps.
  rewrite !bool_as_nonzero. by destruct c.
Qed.

Lemma BitmapCapability_roundtrip c :
  u16_ok (preferred_bits_per_pixel c) → u16_ok (desktop_width c) → u16_ok (desktop_height c) →
  BitmapCapability_decode_body (BitmapCapability_encode_body c) = Ok c.
Proof.
  intros. apply run_reads_whole; [done|].
  unfold BitmapCapability_decode, BitmapCapability_encode_body.
  rewrite <-!(assoc_L (++)). reads_steps.
  rewrite bool_as_nonzero. by destruct c.
Qed.

Lemma PointerCapability_roundtrip c :
  u16_ok (color_pointer_cache_size c) → u16_ok (pointer_cache_size c) →
  PointerCapability_decode_body (PointerCapability_encode_body c) = Ok c.
Proof.
  intros. apply run_reads_whole; [done|].
  unfold PointerCapability_decode, PointerCapability_encode_body.
  rewrite <-!(assoc_L (++)). reads_steps. by destruct c.
Qed.

Lemma InputCapability_roundtrip c :
  u16_ok (input_flags c) → u32_ok (keyboard_layout c) → u32_ok (keyboard_type c) →
  u32_ok (keyboard_subtype c) → u32_ok (keyboard_function_key c) →
  InputCapability_decode_body (InputCapability_encode_body c) = Ok c.
Proof.
  intros. apply run_reads_whole; [done|].
  unfold InputCapability_decode, InputCapability_encode_body, write_slice.
  rewrite <-!(assoc_L (++)). reads_steps. by destruct c.
Qed.

Lemma u32_body_roundtrip v : u32_ok v → run read_u32_le (write_u32_le v) = Ok v.
Proof. intros. apply run_reads_whole; [done|]. by apply read_u32_le_write. Qed.

(** What the client finds in the server's codec set. *)
Lemma nscodec_roundtrip c cll :
  u8_ok (nscodec_id c) → 0 ≤ cll →
  parse_client_nscodec
    [{| set_type := CAPSET_BITMAP_CODECS; body := BitmapCodecsCapability_encode_body c |}] cll
  = Ok (Some {| codec_id := nscodec_id c;
                color_loss_level := Z.min (clamp_1_7 (cap_color_loss_level c)) (Z.max cll 1) |}).
Proof.
  intros Hid Hcll. unfold parse_client_nscodec.
  match goal with |- context [find_capability ?l ?t] =>
    change (find_capability l t) with (Some (BitmapCodecsCapability_encode_body c)) end.
  cbn beta iota.
  erewrite run_reads_whole; [reflexivity|done|].
  unfold BitmapCodecsCapability_encode_body, write_slice. rewrite <-!(assoc_L (++)).
  eapply reads_bind; [apply read_u8_write|]. cbn beta.
  change (Z.to_nat 1) with 1%nat. cbn [nscodec_loop].
  eapply reads_bind; [by apply (read_slice_reads 16 NSCODEC_GUID)|]. cbn beta.
  destruct (decide (NSCODEC_GUID ≠ NSCODEC_GUID)) as [E|_]; [done|].
  reads_step. eapply reads_bind; [by apply read_u16_le_write|]. cbn beta iota.
  change (3 <? 3) with false. cbn iota.
  do 3 reads_step. apply reads_ret_eq. do 2 f_equal. unfold clamp_1_7. lia.
Qed.

(** ** Demand Active, as a client reads it *)

(** MS-RDPBCGR 2.2.1.13.1. *)
Definition read_demand_active : reader (ShareControlHeader * list RawCapabilitySet) :=
  '(header, body_len) ← ShareControlHeader_decode;
  n ← read_u16_le;
  _ ← read_u16_le;
  _ ← read_slice n;
  count ← read_u16_le;
  _ ← read_u16_le;
  caps ← read_capabilities (Z.to_nat count);
  _ ← read_u32_le;
  mret (header, caps).

Definition ServerCapabilities_ok (c : ServerCapabilities) : Prop :=
  u16_ok (extra_flags (general c))
  ∧ (u16_ok (preferred_bits_per_pixel (bitmap c)) ∧ u16_ok (desktop_width (bitmap c))
     ∧ u16_ok (desktop_height (bitmap c)))
  ∧ (u16_ok (color_pointer_cache_size (pointer c)) ∧ u16_ok (pointer_cache_size (pointer c)))
  ∧ (u16_ok (input_flags (input c)) ∧ u32_ok (keyboard_layout (input c))
     ∧ u32_ok (keyboard_type (input c)) ∧ u32_ok (keyboard_subtype (input c))
     ∧ u32_ok (keyboard_function_key (input c)))
  ∧ u32_ok (virtual_channel c) ∧ u32_ok (multifragment_update c)
  ∧ u8_ok (nscodec_id (bitmap_codecs c)).

Lemma capset_reads t b l :
  u16_ok t → len b + 4 < 2 ^ 16 →
  reads RawCapabilitySet_decode (write_capset t b ++ l) {| set_type := t; body := b |} l.
Proof.
  intros Ht Hl. pose proof (len_nonneg b).
  unfold RawCapabilitySet_decode, write_capset, write_slice. rewrite as_u16_id by lia.
  rewrite <-!(assoc_L (++)). reads_step.
  eapply reads_bind; [apply read_u16_le_write; lia|]. cbn beta.
  eapply reads_bind; [apply read_slice_reads; unfold saturating_sub; lia|]. by apply reads_ret.
Qed.

Lemma read_capabilities_reads (sets : list (Z * bytes)) l :
  Forall (λ s, u16_ok s.1 ∧ len s.2 + 4 < 2 ^ 16) sets →
  reads (read_capabilities (length sets))
    (concat ((λ s, write_capset s.1 s.2) <$> sets) ++ l)
    ((λ s, {| set_type := s.1; body := s.2 |}) <$> sets) l.
Proof.
  induction 1 as [|[t b] sets [Ht Hl] _ IH]; cbn [length read_capabilities]; [by apply reads_ret|].
  rewrite !fmap_cons. cbn [concat fst snd]. rewrite <-(assoc_L (++)).
  eapply reads_bind; [by apply try_read_reads, capset_reads|]. cbn beta iota.
  eapply reads_bind; [exact IH|]. by apply reads_ret.
Qed.

Lemma sets_sizes c :
  Forall (λ s, u16_ok s.1 ∧ len s.2 + 4 < 2 ^ 16) (ServerCapabilities_sets c).
Proof.
  unfold ServerCapabilities_sets.
  repeat (apply Forall_cons; split; [split; [done|reflexivity]|]). constructor.
Qed.

(** The server's Demand Active says what the server means: a client that reads
    it by the protocol finds the share id, the nine capability sets with their
    exact lengths, and in them the desktop size, the resize flag, the input and
    pointer settings, the reassembly budget and the NSCodec entry; an NSCodec
    answer copied from it negotiates that codec. *)
Theorem demand_active_roundtrip (d : DemandActive) :
  ServerCapabilities_ok (da_capabilities d) → u32_ok (da_share_id d) → u16_ok (da_pdu_source d) →
  let c := da_capabilities d in
  ∃ header caps,
    run read_demand_active (DemandActive_encode d) = Ok (header, caps)
    ∧ header = {| pdu_type := PduDemandActive; pdu_source := da_pdu_source d; share_id := da_share_id d |}
    ∧ (λ b, GeneralCapability_decode_body b) <$> find_capability caps CAPSET_GENERAL
        = Some (Ok (general c))
    ∧ (λ b, BitmapCapability_decode_body b) <$> find_capability caps CAPSET_BITMAP
        = Some (Ok (bitmap c))
    ∧ (λ b, PointerCapability_decode_body b) <$> find_capability caps CAPSET_POINTER
        = Some (Ok (pointer c))
    ∧ (λ b, InputCapability_decode_body b) <$> find_capability caps CAPSET_INPUT
        = Some (Ok (input c))
    ∧ (λ b, VirtualChannelCapability_decode_body b) <$> find_capability caps CAPSET_VIRTUAL_CHANNEL
        = Some (Ok (virtual_channel c))
    ∧ parse_client_max_request_size caps
        = Ok (if 0 <? multifragment_update c then Some (multifragment_update c) else None)
    ∧ ∀ cll, 0 ≤ cll → parse_client_nscodec caps cll
        = Ok (Some {| codec_id := nscodec_id (bitmap_codecs c);
                      color_loss_level := Z.min (clamp_1_7 (cap_color_loss_level (bitmap_codecs c)))
                                            (Z.max cll 1) |}).
Proof.
  destruct d as [sid src c]; cbn [da_capabilities da_share_id da_pdu_source].
  intros (Hg & (Hb1 & Hb2 & Hb3) & (Hp1 & Hp2) & (Hi1 & Hi2 & Hi3 & Hi4 & Hi5) & Hv & Hm & Hn) Hsid Hsrc.
  eexists _, ((λ s, {| set_type := s.1; body := s.2 |}) <$> ServerCapabilities_sets c).
  split; [|split; [reflexivity|]].
  - apply run_reads_whole; [done|]. unfold DemandActive_encode. cbn [da_capabilities].
    unfold write_list, write_slice. cbn [da_pdu_source da_share_id].
    rewrite <-(assoc_L (++)). unfold read_demand_active.
    eapply reads_bind.
    { apply ShareControlHeader_reads; [done|done|apply len_nonneg|done]. }
    cbn beta iota. rewrite <-!(assoc_L (++)). reads_step.
    eapply reads_bind; [by apply read_u16_le_write, as_u16_ok|]. cbn beta.
    eapply reads_bind; [by apply (read_slice_reads 1 (write_u8 0))|]. cbn beta.
    do 2 reads_step. change (Z.to_nat (len (ServerCapabilities_sets c))) with (length (ServerCapabilities_sets c)).
    eapply reads_bind; [apply read_capabilities_reads, sets_sizes|]. cbn beta.
    reads_step. by apply reads_ret.
  - split_and!.
    + exact (f_equal Some (GeneralCapability_roundtrip (general c) Hg)).
    + exact (f_equal Some (BitmapCapability_roundtrip (bitmap c) Hb1 Hb2 Hb3)).
    + exact (f_equal Some (PointerCapability_roundtrip (pointer c) Hp1 Hp2)).
    + exact (f_equal Some (InputCapability_roundtrip (input c) Hi1 Hi2 Hi3 Hi4 Hi5)).
    + exact (f_equal Some (u32_body_roundtrip (virtual_channel c) Hv)).
    + unfold parse_client_max_request_size. cbn [find_capability].
      match goal with |- context [find_capability ?l ?t] =>
        change (find_capability l t) with
          (Some (MultiFragmentUpdateCapability_encode_body (multifragment_update c))) end.
      unfold MultiFragmentUpdateCapability_decode_body, MultiFragmentUpdateCapability_encode_body.
      cbn beta iota. by rewrite u32_body_roundtrip.
    + intros cll Hcll. rewrite <-(nscodec_roundtrip (bitmap_codecs c) cll) by done. reflexivity.
Qed.

Definition sample_capabilities : ServerCapabilities :=
  {| general := {| extra_flags := FASTPATH_OUTPUT_SUPPORTED; refresh_rect_support := true;
                   suppress_output_support := true |};
     bitmap := {| preferred_bits_per_pixel := 32; desktop_width := 1920; desktop_height := 1080;
                  desktop_resize_flag := true |};
     pointer := {| color_pointer_cache_size := 2048; pointer_cache_size := 2048 |};
     input := {| input_flags := SCANCODES; keyboard_layout := 0; keyboard_type := 0;
                 keyboard_subtype := 0; keyboard_function_key := 0 |};
     virtual_channel := 0; multifragment_update := 8388608;
     bitmap_codecs := BitmapCodecsCapability_default |}.

Lemma demand_active_roundtrip_witness :
  ∃ header caps,
    run read_demand_active (DemandActive_encode
      {| da_share_id := 65536; da_pdu_source := 1003; da_capabilities := sample_capabilities |})
      = Ok (header, caps)
    ∧ (λ b, BitmapCapability_decode_body b) <$> find_capability caps CAPSET_BITMAP
        = Some (Ok (bitmap sample_capabilities)).
Proof.
  destruct (demand_active_roundtrip
    {| da_share_id := 65536; da_pdu_source := 1003; da_capabilities := sample_capabilities |})
    as (h & caps & E & _ & _ & Hb & _).
  - unfold ServerCapabilities_ok. apply (bool_decide_unpack _). vm_compute. exact I.
  - split; [by vm_compute|reflexivity].
  - split; [by vm_compute|reflexivity].
  - exists h, caps. exact (conj E Hb).
Defined.
