(* ===== verification/Finalization.v ===== *)
(** [rdpcore-pdu/src/finalization.rs]: the Share Data header and the messages
    that finish a connection or control it afterwards: Synchronize, Control, Font
    List and Map, Save Session Info, Monitor Layout, Refresh Rect, Suppress
    Output, slow-path input. *)
From S2P Require Import Prelude Cursor Capability.

(** ** Share Data *)

Inductive ShareDataPduType :=
  | TSynchronize | TControl | TFontList | TFontMap | TRefreshRect | TSuppressOutput
  | TSaveSessionInfo | TMonitorLayout | TInput.
Global Instance ShareDataPduType_eq_dec : EqDecision ShareDataPduType.
Proof. solve_decision. Defined.

Definition ShareDataPduType_as_u8 (t : ShareDataPduType) : Z :=
  match t with
  | TControl => 0x14 | TFontList => 0x27 | TFontMap => 0x28 | TSynchronize => 0x1F
  | TRefreshRect => 0x21 | TSuppressOutput => 0x23 | TSaveSessionInfo => 0x26
  | TMonitorLayout => 0x37 | TInput => 0x1C
  end.
Definition ShareDataPduType_from_u8 (value : Z) : option ShareDataPduType :=
  match value with
  | 0x14 => Some TControl | 0x27 => Some TFontList | 0x28 => Some TFontMap
  | 0x1F => Some TSynchronize | 0x21 => Some TRefreshRect | 0x23 => Some TSuppressOutput
  | 0x26 => Some TSaveSessionInfo | 0x37 => Some TMonitorLayout | 0x1C => Some TInput
  | _ => None
  end.

Record ShareDataHeader := { h_stream_id : Z; h_pdu_type2 : ShareDataPduType }.
Definition ShareDataHeader_write (h : ShareDataHeader) (inner_len : Z) : bytes :=
  write_u8 0 ++ write_u8 (h_stream_id h) ++ write_u16_le (as_u16 inner_len)
  ++ write_u8 (ShareDataPduType_as_u8 (h_pdu_type2 h)) ++ write_u8 0 ++ write_u16_le 0.
Definition ShareDataHeader_decode : reader (ShareDataHeader * Z) :=
  _ ← read_u8;
  stream_id ← read_u8;
  uncompressed_length ← read_u16_le;
  t ← read_u8;
  pdu_type2 ← match ShareDataPduType_from_u8 t with
              | Some t => mret t
              | None => invalid "share_data_header.pdu_type2" "unrecognized data PDU subtype"
              end;
  _ ← read_u8;
  _ ← read_u16_le;
  mret ({| h_stream_id := stream_id; h_pdu_type2 := pdu_type2 |}, uncompressed_length).

Definition STREAM_UNDEFINED : Z := 0.

Record DataPdu := {
  d_share_id : Z; d_pdu_source : Z; stream_id : Z; pdu_type2 : ShareDataPduType; d_body : bytes }.

Definition DataPdu_encode (p : DataPdu) : bytes :=
  let inner :=
    ShareDataHeader_write {| h_stream_id := stream_id p; h_pdu_type2 := pdu_type2 p |}
      (len (d_body p)) ++ write_slice (d_body p) in
  ShareControlHeader_write
    {| pdu_type := PduData; pdu_source := d_pdu_source p; share_id := d_share_id p |} (len inner)
  ++ write_slice inner.

Definition DataPdu_decode_from : reader DataPdu :=
  '(header, declared_body_len) ← ShareControlHeader_decode;
  reject_if (bool_decide (pdu_type header ≠ PduData))
    "data_pdu.share_control_header.pdu_type" "expected DataPdu" ;;
  before_share_data ← get_pos;
  '(share_data_header, _) ← ShareDataHeader_decode;
  after ← get_pos;
  let share_data_consumed := after - before_share_data in
  r ← get_remaining;
  body ← read_slice (Z.min (saturating_sub declared_body_len share_data_consumed) r);
  mret {| d_share_id := share_id header; d_pdu_source := pdu_source header;
          stream_id := h_stream_id share_data_header;
          pdu_type2 := h_pdu_type2 share_data_header; d_body := body |}.
Definition DataPdu_decode (input : bytes) : res DecodeError DataPdu := run DataPdu_decode_from input.

(** ** Bodies *)

(** [SynchronizePdu] is its [target_user]. *)
Definition SynchronizePdu_encode_body (target_user : Z) : bytes :=
  write_u16_le 1 ++ write_u16_le target_user.
Definition SynchronizePdu_decode_body (b : bytes) : res DecodeError Z :=
  run (message_type ← read_u16_le;
       reject_if (negb (message_type =? 1)) "synchronize_pdu.message_type" "must be 1" ;;
       read_u16_le) b.

Record ControlPdu := { action : Z; grant_id : Z; control_id : Z }.
Definition COOPERATE : Z := 4.
Definition REQUEST_CONTROL : Z := 1.
Definition GRANTED_CONTROL : Z := 2.
Definition ControlPdu_encode_body (p : ControlPdu) : bytes :=
  write_u16_le (action p) ++ write_u16_le (grant_id p) ++ write_u32_le (control_id p).
Definition ControlPdu_decode : reader ControlPdu :=
  action ← read_u16_le;
  grant_id ← read_u16_le;
  control_id ← read_u32_le;
  mret {| action := action; grant_id := grant_id; control_id := control_id |}.
Definition ControlPdu_decode_body (b : bytes) : res DecodeError ControlPdu := run ControlPdu_decode b.

Record FontPdu := {
  number_fonts : Z; total_num_fonts : Z; font_flags : Z; entry_size : Z }.
Definition FONT_FIRST : Z := 1.
Definition FONT_LAST : Z := 2.
Definition font_map_default : FontPdu :=
  {| number_fonts := 0; total_num_fonts := 0; font_flags := Z.lor FONT_FIRST FONT_LAST;
     entry_size := 4 |}.
Definition FontPdu_encode_body (p : FontPdu) : bytes :=
  write_u16_le (number_fonts p) ++ write_u16_le (total_num_fonts p)
  ++ write_u16_le (font_flags p) ++ write_u16_le (entry_size p).
Definition FontPdu_decode : reader FontPdu :=
  a ← read_u16_le;
  b ← read_u16_le;
  c ← read_u16_le;
  d ← read_u16_le;
  mret {| number_fonts := a; total_num_fonts := b; font_flags := c; entry_size := d |}.
Definition FontPdu_decode_body (b : bytes) : res DecodeError FontPdu := run FontPdu_decode b.

Record InclusiveRect := { left : Z; top : Z; right : Z; bottom : Z }.
Definition InclusiveRect_decode : reader InclusiveRect :=
  a ← read_u16_le;
  b ← read_u16_le;
  c ← read_u16_le;
  d ← read_u16_le;
  mret {| left := a; top := b; right := c; bottom := d |}.

Definition decode_suppress_output_from : reader bool :=
  allow ← read_u8;
  _ ← read_u8;
  _ ← read_u8;
  _ ← read_u8;
  if allow =? 0 then mret false
  else if allow =? 1 then
    n ← get_remaining;
    (if 8 <=? n then _ ← InclusiveRect_decode; mret tt else mret tt) ;;
    mret true
  else invalid "suppress_output.allow_display_updates" "expected 0 or 1".
Definition decode_suppress_output (b : bytes) : res DecodeError bool :=
  run decode_suppress_output_from b.

Definition decode_refresh_rect_from : reader (list InclusiveRect) :=
  count ← read_u8;
  _ ← read_u8;
  _ ← read_u8;
  _ ← read_u8;
  read_many (Z.to_nat count) InclusiveRect_decode.
Definition decode_refresh_rect (b : bytes) : res DecodeError (list InclusiveRect) :=
  run decode_refresh_rect_from b.

Definition INFO_TYPE_PLAIN_NOTIFY : Z := 0x00000002.
Definition PLAIN_NOTIFY_PAD : nat := 576.
(** [body.resize(4 + PLAIN_NOTIFY_PAD, 0)] *)
Definition encode_save_session_info_plain_notify : bytes :=
  write_u32_le INFO_TYPE_PLAIN_NOTIFY ++ replicate PLAIN_NOTIFY_PAD 0.

Record MonitorDef := { m_left : Z; m_top : Z; m_right : Z; m_bottom : Z; primary : bool }.
Definition PRIMARY : Z := 1.
Definition MonitorDef_encode (m : MonitorDef) : bytes :=
  write_i32_le (m_left m) ++ write_i32_le (m_top m) ++ write_i32_le (m_right m)
  ++ write_i32_le (m_bottom m) ++ write_u32_le (if primary m then PRIMARY else 0).
Definition MonitorDef_decode : reader MonitorDef :=
  a ← read_i32_le;
  b ← read_i32_le;
  c ← read_i32_le;
  d ← read_i32_le;
  p ← read_u32_le;
  mret {| m_left := a; m_top := b; m_right := c; m_bottom := d; primary := has_bits p PRIMARY |}.

Definition encode_monitor_layout (monitors : list MonitorDef) : bytes :=
  write_u32_le (as_u32 (len monitors)) ++ concat (MonitorDef_encode <$> monitors).

Definition MONITOR_DEF_BYTES : Z := 20.
Definition decode_monitor_layout_from : reader (list MonitorDef) :=
  count ← read_u32_le;
  match checked_mul_usize count MONITOR_DEF_BYTES with
  | None => invalid "monitor_layout.monitorCount" "count overflow"
  | Some needed =>
    r ← get_remaining;
    if r <? needed then fail (NotEnough {| nb_needed := needed; nb_remaining := r |})
    else read_many (Z.to_nat count) MonitorDef_decode
  end.
Definition decode_monitor_layout (b : bytes) : res DecodeError (list MonitorDef) :=
  run decode_monitor_layout_from b.

(** ** Slow-path input *)

(** [FastPathInputEvent] and [keyboard_flags] of [fastpath.rs]. *)
Inductive FastPathInputEvent :=
  | EvScancode (flags code : Z)
  | EvMouse (pointer_flags x y : Z)
  | EvSync (flags : Z)
  | EvUnicode (flags code : Z).
Definition RELEASE : Z := 0x01.
Definition EXTENDED : Z := 0x02.
Definition EXTENDED1 : Z := 0x04.

(** One turn of the loop; [None] is the [break] on an unknown type. *)
Definition slowpath_event : reader (option FastPathInputEvent) :=
  _ ← read_u32_le;
  message_type ← read_u16_le;
  if message_type =? 0x0000 then
    kb_flags ← read_u16_le;
    key_code ← read_u16_le;
    _ ← read_u16_le;
    let flags := if has_bits kb_flags 0x8000 then RELEASE else 0 in
    let flags := if has_bits kb_flags 0x0100 then Z.lor flags EXTENDED else flags in
    let flags := if has_bits kb_flags 0x0200 then Z.lor flags EXTENDED1 else flags in
    mret (Some (EvScancode flags (as_u8 key_code)))
  else if message_type =? 0x0001 then
    pointer_flags ← read_u16_le;
    x ← read_u16_le;
    y ← read_u16_le;
    mret (Some (EvMouse pointer_flags x y))
  else if message_type =? 0x0003 then
    _ ← read_u16_le;
    toggle_flags ← read_u32_le;
    mret (Some (EvSync (as_u8 toggle_flags)))
  else if message_type =? 0x0004 then
    kb_flags ← read_u16_le;
    unicode_code ← read_u16_le;
    _ ← read_u16_le;
    mret (Some (EvUnicode (if has_bits kb_flags 0x8000 then RELEASE else 0) unicode_code))
  else mret None.
Fixpoint slowpath_events (n : nat) : reader (list FastPathInputEvent) :=
  match n with
  | O => mret []
  | S n =>
    e ← slowpath_event;
    match e with
    | Some e => l ← slowpath_events n; mret (e :: l)
    | None => mret []
    end
  end.
Definition decode_slowpath_input (b : bytes) : res DecodeError (list FastPathInputEvent) :=
  run (num_events ← read_u16_le; _ ← read_u16_le; slowpath_events (Z.to_nat num_events)) b.

(** ** Safety *)

Lemma ShareDataHeader_safe : safe ShareDataHeader_decode (λ _, True).
Proof.
  unfold ShareDataHeader_decode. do 4 safe_step. eapply (safe_bind _ _ (λ _, True)).
  { destruct (ShareDataPduType_from_u8 _); [by apply safe_ret|apply safe_fail]. }
  intros t _. safe_steps. done.
Qed.

Lemma read_slice_len n : 0 ≤ n → safe (read_slice n) (λ s, bytes_ok s ∧ len s < 2 ^ 63).
Proof.
  intros Hn c Hc Hb. pose proof (read_slice_safe n Hn c Hc Hb) as H.
  unfold read_slice, mbind, reader_bind, ensure in *. case_decide as Hr; [done|].
  unfold at_cursor in *. destruct (slice _ _ _); [|done..]. cbn in *.
  destruct H as (Hc' & Hb' & Hp & Hl & Hs). split_and!; try done. destruct Hc as [? ?].
  unfold remaining in Hr. lia.
Qed.

Lemma DataPdu_safe : safe DataPdu_decode_from (λ p, bytes_ok (d_body p) ∧ len (d_body p) < 2 ^ 63).
Proof.
  unfold DataPdu_decode_from. eapply safe_bind; [apply ShareControlHeader_safe|].
  intros [h n] (_ & _ & Hn); cbn [snd] in Hn. eapply safe_bind; [apply reject_if_safe|]. intros ? _.
  eapply safe_bind; [apply get_pos_safe|]. intros p _.
  eapply safe_bind; [apply ShareDataHeader_safe|]. intros [sh u] _.
  eapply safe_bind; [apply get_pos_safe|]. intros q _. cbn zeta.
  eapply safe_bind; [apply get_remaining_safe|]. intros r Hr; cbn beta in Hr.
  eapply safe_bind; [apply read_slice_len; unfold saturating_sub; lia|].
  intros b Hb. by apply safe_ret.
Qed.

Lemma DataPdu_decode_spec input :
  bytes_ok input → len input < 2 ^ 63 →
  match DataPdu_decode input with
  | Ok p => bytes_ok (d_body p) ∧ len (d_body p) < 2 ^ 63 | Err _ => True | Panic => False end.
Proof. apply safe_run, DataPdu_safe. Qed.

Lemma ControlPdu_safe : safe ControlPdu_decode (λ _, True).
Proof. unfold ControlPdu_decode. safe_steps. done. Qed.
Lemma FontPdu_safe : safe FontPdu_decode (λ _, True).
Proof. unfold FontPdu_decode. safe_steps. done. Qed.
Lemma InclusiveRect_safe : safe InclusiveRect_decode (λ _, True).
Proof. unfold InclusiveRect_decode. safe_steps. done. Qed.
Lemma decode_suppress_output_safe : safe decode_suppress_output_from (λ _, True).
Proof.
  unfold decode_suppress_output_from. do 4 safe_step. destruct (_ =? 0); [by apply safe_ret|].
  destruct (_ =? 1); [|apply safe_fail]. safe_step.
  eapply (safe_bind _ _ (λ _, True)); [|intros; by apply safe_ret].
  destruct (_ <=? _); [|by apply safe_ret].
  eapply safe_bind; [apply InclusiveRect_safe|]. intros. by apply safe_ret.
Qed.
Lemma decode_refresh_rect_safe : safe decode_refresh_rect_from (λ l, len l < 2 ^ 8).
Proof.
  unfold decode_refresh_rect_from. do 4 safe_step.
  eapply safe_weaken; [apply read_many_safe, InclusiveRect_safe|]. intros l [Hl _].
  unfold len. lia.
Qed.
Lemma MonitorDef_safe : safe MonitorDef_decode (λ _, True).
Proof. unfold MonitorDef_decode. safe_steps. done. Qed.
(** A hostile count reserves no more than the message holds. *)
Lemma decode_monitor_layout_safe : safe decode_monitor_layout_from (λ _, True).
Proof.
  unfold decode_monitor_layout_from. safe_step. destruct (checked_mul_usize _ _); [|apply safe_fail].
  safe_step. destruct (_ <? _); [apply safe_fail|].
  eapply safe_weaken; [apply read_many_safe, MonitorDef_safe|]. done.
Qed.
Lemma slowpath_event_safe : safe slowpath_event (λ _, True).
Proof. unfold slowpath_event. do 2 safe_step. repeat case_match; safe_steps; done. Qed.
Lemma slowpath_events_safe n : safe (slowpath_events n) (λ l, (length l ≤ n)%nat).
Proof.
  induction n as [|n IH]; cbn [slowpath_events]; [by apply safe_ret|].
  eapply safe_bind; [apply slowpath_event_safe|]. intros [e|] _; [|apply safe_ret; cbn; lia].
  eapply safe_bind; [exact IH|]. intros l Hl. apply safe_ret. cbn in *. lia.
Qed.
Lemma decode_slowpath_input_no_panic b :
  bytes_ok b → len b < 2 ^ 63 → no_panic (decode_slowpath_input b).
Proof.
  apply safe_run_no_panic with (Q := λ _, True). do 2 safe_step.
  eapply safe_weaken; [apply slowpath_events_safe|]. done.
Qed.

(** ** Round trips *)

Definition DataPdu_ok (p : DataPdu) : Prop :=
  u32_ok (d_share_id p) ∧ u16_ok (d_pdu_source p) ∧ len (d_body p) + 18 < 2 ^ 16.

Lemma ShareDataHeader_reads h n l :
  u16_ok n → reads ShareDataHeader_decode (ShareDataHeader_write h n ++ l) (h, n) l.
Proof.
  intros Hn. unfold ShareDataHeader_decode, ShareDataHeader_write. rewrite as_u16_id by done.
  rewrite <-!(assoc_L (++)). do 4 reads_step.
  eapply (reads_bind _ _ _ (h_pdu_type2 h)); [destruct h as [? []]; by apply reads_ret|]. cbn beta.
  reads_steps. by destruct h.
Qed.

(** The body comes back, whatever follows the PDU. *)
Lemma DataPdu_reads p l :
  DataPdu_ok p → reads DataPdu_decode_from (DataPdu_encode p ++ l) p l.
Proof.
  intros (Hi & Hs & Hl). pose proof (len_nonneg (d_body p)). pose proof (len_nonneg l).
  unfold DataPdu_encode, write_slice.
  set (h := {| h_stream_id := stream_id p; h_pdu_type2 := pdu_type2 p |}).
  set (sh := {| pdu_type := PduData; pdu_source := d_pdu_source p; share_id := d_share_id p |}).
  assert (len (ShareDataHeader_write h (len (d_body p))) = 8) as H8 by done.
  rewrite (len_app _ (d_body p)), H8, <-!(assoc_L (++)).
  intros c Hc Hr. unfold DataPdu_decode_from.
  destruct (ShareControlHeader_reads sh (8 + len (d_body p)) _ Hs Hi ltac:(lia) ltac:(lia) c Hc Hr)
    as (c1 & E1 & Hc1 & Hr1 & Hb1).
  rewrite (bind_Ok _ _ _ _ _ E1). cbn beta iota.
  rewrite (bind_Ok (reject_if _ _ _) _ c1 tt c1) by done.
  rewrite (bind_Ok get_pos _ c1 (pos c1) c1) by done.
  destruct (ShareDataHeader_reads h (len (d_body p)) _ ltac:(lia) c1 Hc1 Hr1) as (c2 & E2 & Hc2 & Hr2 & Hb2).
  rewrite (bind_Ok _ _ _ _ _ E2). cbn beta iota.
  rewrite (bind_Ok get_pos _ c2 (pos c2) c2) by done. cbn zeta.
  assert (pos c2 - pos c1 = 8) as Hcons.
  { rewrite (pos_rest c1 Hc1), (pos_rest c2 Hc2), Hr1, Hr2, Hb2. autorewrite with len. lia. }
  destruct (get_remaining_reads _ c2 Hc2 Hr2) as (c3 & E3 & Hc3 & Hr3 & Hb3).
  rewrite (bind_Ok _ _ _ _ _ E3). rewrite Hcons.
  destruct (read_slice_reads (Z.min (saturating_sub (8 + len (d_body p)) 8) (len (d_body p ++ l)))
    (d_body p) l) with c3 as (c4 & E4 & Hc4 & Hr4 & Hb4);
    [unfold saturating_sub; autorewrite with len; lia|done|done|].
  rewrite (bind_Ok _ _ _ _ _ E4). exists c4. split_and!; [|done|done|congruence].
  subst sh h. by destruct p.
Qed.

Lemma DataPdu_decode_encode p : DataPdu_ok p → DataPdu_decode (DataPdu_encode p) = Ok p.
Proof.
  intros Hp. apply run_reads_whole; [|by apply DataPdu_reads].
  destruct Hp as (_ & _ & Hl). unfold DataPdu_encode, write_slice. rewrite !len_app.
  change (len (ShareControlHeader_write _ _)) with 10. change (len (ShareDataHeader_write _ _)) with 8.
  lia.
Qed.

Lemma ControlPdu_roundtrip p :
  u16_ok (action p) → u16_ok (grant_id p) → u32_ok (control_id p) →
  ControlPdu_decode_body (ControlPdu_encode_body p) = Ok p.
Proof.
  intros. apply run_reads_whole; [done|]. unfold ControlPdu_decode, ControlPdu_encode_body.
  rewrite <-!(assoc_L (++)). reads_steps. by destruct p.
Qed.

Lemma FontPdu_roundtrip p :
  u16_ok (number_fonts p) → u16_ok (total_num_fonts p) → u16_ok (font_flags p) →
  u16_ok (entry_size p) → FontPdu_decode_body (FontPdu_encode_body p) = Ok p.
Proof.
  intros. apply run_reads_whole; [done|]. unfold FontPdu_decode, FontPdu_encode_body.
  rewrite <-!(assoc_L (++)). reads_steps. by destruct p.
Qed.

Lemma SynchronizePdu_roundtrip t :
  u16_ok t → SynchronizePdu_decode_body (SynchronizePdu_encode_body t) = Ok t.
Proof.
  intros. apply run_reads_whole; [done|]. unfold SynchronizePdu_encode_body.
  rewrite <-!(assoc_L (++)). reads_step. eapply reads_bind; [by apply reject_if_reads|]. cbn beta.
  by apply read_u16_le_write.
Qed.

Definition i32_ok (z : Z) : Prop := - 2 ^ 31 ≤ z < 2 ^ 31.
Definition MonitorDef_ok (m : MonitorDef) : Prop :=
  i32_ok (m_left m) ∧ i32_ok (m_top m) ∧ i32_ok (m_right m) ∧ i32_ok (m_bottom m).

Lemma MonitorDef_reads m l : MonitorDef_ok m → reads MonitorDef_decode (MonitorDef_encode m ++ l) m l.
Proof.
  intros (? & ? & ? & ?). unfold MonitorDef_decode, MonitorDef_encode, i32_ok in *.
  rewrite <-!(assoc_L (++)).
  do 4 (eapply reads_bind; [by apply read_i32_le_write|]; cbn beta).
  eapply reads_bind; [apply read_u32_le_write; by destruct (primary m)|]. cbn beta.
  apply reads_ret_eq. by destruct m as [? ? ? ? []].
Qed.

Lemma len_monitors ms : len (concat (MonitorDef_encode <$> ms)) = 20 * len ms.
Proof.
  induction ms as [|m ms IH]; [done|]. rewrite fmap_cons. cbn [concat].
  rewrite len_app, len_cons, IH. change (len (MonitorDef_encode m)) with 20. lia.
Qed.

(** The messages of finalization and of the running session come back
    unchanged: any Share Data PDU with its body, the Synchronize, Control and Font
    bodies the handshake exchanges, and the monitor layout of any number of
    monitors, with negative coordinates. *)
Theorem share_data_roundtrip :
  (∀ p, DataPdu_ok p → DataPdu_decode (DataPdu_encode p) = Ok p)
  ∧ (∀ t, u16_ok t → SynchronizePdu_decode_body (SynchronizePdu_encode_body t) = Ok t)
  ∧ (∀ p, u16_ok (action p) → u16_ok (grant_id p) → u32_ok (control_id p) →
       ControlPdu_decode_body (ControlPdu_encode_body p) = Ok p)
  ∧ (∀ p, u16_ok (number_fonts p) → u16_ok (total_num_fonts p) → u16_ok (font_flags p) →
       u16_ok (entry_size p) → FontPdu_decode_body (FontPdu_encode_body p) = Ok p)
  ∧ (∀ ms, Forall MonitorDef_ok ms → len ms < 2 ^ 32 →
       decode_monitor_layout (encode_monitor_layout ms) = Ok ms).
Proof.
  split_and!; [apply DataPdu_decode_encode|apply SynchronizePdu_roundtrip|apply ControlPdu_roundtrip
              |apply FontPdu_roundtrip|].
  intros ms Hms Hl. pose proof (len_nonneg ms). unfold encode_monitor_layout.
  rewrite as_u32_id by lia.
  apply run_reads_whole; [rewrite len_app, len_monitors, len_write_u32_le; lia|].
  unfold decode_monitor_layout_from. rewrite <-(assoc_L (++)).
  eapply reads_bind; [apply read_u32_le_write; lia|]. cbn beta.
  unfold checked_mul_usize, USIZE_MAX, MONITOR_DEF_BYTES. rewrite decide_True by lia.
  eapply reads_bind; [apply get_remaining_reads|]. cbn beta.
  rewrite app_nil_r, len_monitors. rewrite (proj2 (Z.ltb_ge _ _)) by lia.
  unfold len. rewrite Nat2Z.id. rewrite <-(app_nil_r (concat _)). apply read_many_reads.
  eapply Forall_impl; [exact Hms|]. intros. by apply MonitorDef_reads.
Qed.

Lemma share_data_roundtrip_witness :
  DataPdu_decode (DataPdu_encode {| d_share_id := 65536; d_pdu_source := 1003; stream_id := 0;
      pdu_type2 := TSynchronize; d_body := SynchronizePdu_encode_body 1002 |})
    = Ok {| d_share_id := 65536; d_pdu_source := 1003; stream_id := 0;
            pdu_type2 := TSynchronize; d_body := SynchronizePdu_encode_body 1002 |}.
Proof.
  apply (proj1 share_data_roundtrip). split; [done|]. split; [done|]. by vm_compute.
Defined.
