(* ===== verification/BitmapSync.v ===== *)
(** [rdpcore-server/src/server/bitmap_sync.rs] and its use in [session_loop.rs] and
    [slow_path.rs]: which frame the client is known to show, and what it is sent to
    catch up with the desktop. *)
From S2P Require Import Prelude Diff Display Finalization.

(** ** [BitmapSyncState] *)

Record BitmapSyncState := {
  pending_resync : bool; last_synced_full : option BitmapUpdate;
  resync_target : option BitmapUpdate }.

Definition BitmapSyncState_new : BitmapSyncState :=
  {| pending_resync := false; last_synced_full := None; resync_target := None |}.
Definition reset (_ : BitmapSyncState) : BitmapSyncState := BitmapSyncState_new.

Definition mark_dirty (s : BitmapSyncState) : BitmapSyncState :=
  {| pending_resync := true; last_synced_full := last_synced_full s; resync_target := resync_target s |}.
Definition has_pending (s : BitmapSyncState) : bool := pending_resync s.

Definition take_pending (s : BitmapSyncState) (latest_full : option BitmapUpdate)
  : outcome (BitmapSyncState * option BitmapUpdate) :=
  if negb (pending_resync s) then Ok (s, None)
  else
    let s := {| pending_resync := false; last_synced_full := last_synced_full s;
                resync_target := resync_target s |} in
    match latest_full with
    | None => Ok (s, None)
    | Some full =>
      merged ← resync_bitmap (last_synced_full s) full;
      match merged with
      | None => Ok (s, None)
      | Some merged =>
        Ok ({| pending_resync := pending_resync s; last_synced_full := last_synced_full s;
               resync_target := Some full |}, Some merged)
      end
    end.

Definition defer (s : BitmapSyncState) : BitmapSyncState * bool :=
  ({| pending_resync := true; last_synced_full := last_synced_full s; resync_target := None |},
   match resync_target s with Some _ => true | None => false end).

Definition take_resync_target (s : BitmapSyncState) : BitmapSyncState * option BitmapUpdate :=
  ({| pending_resync := pending_resync s; last_synced_full := last_synced_full s; resync_target := None |},
   resync_target s).

Definition confirm_send (s : BitmapSyncState) (queued : bool) (advance_synced advance_full : option BitmapUpdate)
  : BitmapSyncState :=
  if negb queued then
    match advance_synced with
    | Some _ => mark_dirty s
    | None => s
    end
  else
    match advance_synced, advance_full with
    | Some f, _ | None, Some f =>
      {| pending_resync := false; last_synced_full := Some f; resync_target := resync_target s |}
    | None, None => mark_dirty s
    end.

Definition take_catchup (s : BitmapSyncState) (deferred latest_full : option BitmapUpdate)
  : outcome (BitmapSyncState * option BitmapUpdate * option BitmapUpdate) :=
  if has_pending s then
    '(s, b) ← take_pending s latest_full; Ok (s, None, b)
  else Ok (s, None, deferred).

(** ** The session *)

(** The session's variables, with the screen the client has once what was queued for it
    is delivered, and the captured frames whose notification is still to be read. *)
Record session := {
  sync : BitmapSyncState; deferred_bitmap : option BitmapUpdate; bitmap_gate_open : bool;
  display_updates_allowed : bool; resize_desktop : Z * Z; latest_full_frame : option BitmapUpdate;
  screen : canvas; unread : nat }.

Definition session_new (w h : Z) (gate_open : bool) (blank : canvas) : session :=
  {| sync := BitmapSyncState_new; deferred_bitmap := None; bitmap_gate_open := gate_open;
     display_updates_allowed := true; resize_desktop := (w, h); latest_full_frame := None;
     screen := blank; unread := 0 |}.

Definition set_sync (s : session) (y : BitmapSyncState) (d : option BitmapUpdate) : session :=
  {| sync := y; deferred_bitmap := d; bitmap_gate_open := bitmap_gate_open s;
     display_updates_allowed := display_updates_allowed s; resize_desktop := resize_desktop s;
     latest_full_frame := latest_full_frame s; screen := screen s; unread := unread s |}.
Definition set_screen (s : session) (cv : canvas) : session :=
  {| sync := sync s; deferred_bitmap := deferred_bitmap s; bitmap_gate_open := bitmap_gate_open s;
     display_updates_allowed := display_updates_allowed s; resize_desktop := resize_desktop s;
     latest_full_frame := latest_full_frame s; screen := cv; unread := unread s |}.
Definition set_gate (s : session) (open allowed : bool) : session :=
  {| sync := sync s; deferred_bitmap := deferred_bitmap s; bitmap_gate_open := open;
     display_updates_allowed := allowed; resize_desktop := resize_desktop s;
     latest_full_frame := latest_full_frame s; screen := screen s; unread := unread s |}.

(** The capture side publishes a frame and a notification. *)
Definition capture (s : session) (f : BitmapUpdate) : session :=
  {| sync := sync s; deferred_bitmap := deferred_bitmap s; bitmap_gate_open := bitmap_gate_open s;
     display_updates_allowed := display_updates_allowed s; resize_desktop := resize_desktop s;
     latest_full_frame := Some f; screen := screen s; unread := S (unread s) |}.
Definition read_notification (s : session) : session :=
  {| sync := sync s; deferred_bitmap := deferred_bitmap s; bitmap_gate_open := bitmap_gate_open s;
     display_updates_allowed := display_updates_allowed s; resize_desktop := resize_desktop s;
     latest_full_frame := latest_full_frame s; screen := screen s; unread := pred (unread s) |}.

(** How a pump goes: the frames captured while the loop awaited, whether the
    connection was busy ([bulk_send] or the kernel's backlog), and whether the encoder
    produced bytes to queue. *)
Record pumping := { captured : list BitmapUpdate; busy : bool; queued : bool }.

(** The end of a turn of the loop: [if let Some(bitmap) = bitmap_to_pump]. *)
Definition pump (s : session) (bitmap_to_pump : option BitmapUpdate) (p : pumping) : session :=
  match bitmap_to_pump with
  | None => s
  | Some bitmap =>
    if busy p then set_sync s (defer (sync s)).1 None
    else
      let '(y, advance_synced) := take_resync_target (sync s) in
      let advance_full :=
        if covers_desktop bitmap (resize_desktop s).1 (resize_desktop s).2 then Some bitmap else None in
      let s := if queued p then set_screen s (paint (screen s) bitmap) else s in
      set_sync s (confirm_send y (queued p) advance_synced advance_full)
        (if queued p then None else deferred_bitmap s)
  end.

(** [sync.take_catchup(&mut deferred_bitmap, updates.latest_full_frame())], then the pump. *)
Definition catch_up (s : session) (p : pumping) : outcome session :=
  '(y, d, b) ← take_catchup (sync s) (deferred_bitmap s) (latest_full_frame s);
  Ok (pump (foldl capture (set_sync s y d) (captured p)) b p).

(** The arms of the [select!], outside of a resize. *)
Definition on_display_bitmap (s : session) (p : pumping) : outcome session :=
  let s := read_notification s in
  if negb (bitmap_gate_open s) then Ok (set_sync s (mark_dirty (sync s)) None)
  else if negb (display_updates_allowed s) then Ok s
  else catch_up (set_sync s (mark_dirty (sync s)) None) p.

Definition on_bitmap_gate (s : session) (p : pumping) : outcome session :=
  if bitmap_gate_open s then Ok s
  else
    let s := set_gate s true (display_updates_allowed s) in
    if display_updates_allowed s then catch_up s p else Ok s.

Definition on_bulk_sent (s : session) (p : pumping) : outcome session :=
  if display_updates_allowed s && bitmap_gate_open s then catch_up s p else Ok s.

Definition on_catchup_tick (s : session) (p : pumping) : outcome session :=
  if display_updates_allowed s && bitmap_gate_open s
     && (has_pending (sync s) || match deferred_bitmap s with Some _ => true | None => false end)
  then catch_up s p else Ok s.

(** The display PDUs of [handle_slow_path_frame]. *)
Definition on_suppress_output (s : session) (allow : bool) : session :=
  let was := display_updates_allowed s in
  let s := set_gate s (bitmap_gate_open s) allow in
  if allow && negb was then
    match latest_full_frame s with
    | Some full => set_screen s (paint (screen s) full)
    | None => s
    end
  else s.

Definition saturating_add_u16 (a b : Z) : Z := Z.min (a + b) 65535.

Definition refresh_sub (full : BitmapUpdate) (rect : InclusiveRect) : option BitmapUpdate :=
  let w := saturating_add_u16 (saturating_sub (right rect) (left rect)) 1 in
  let h := saturating_add_u16 (saturating_sub (bottom rect) (top rect)) 1 in
  match non_zero_u16 w, non_zero_u16 h with
  | Some nw, Some nh => sub full (left rect) (top rect) nw nh
  | _, _ => None
  end.

Definition on_refresh_rect (s : session) (rects : list InclusiveRect) : session :=
  match latest_full_frame s with
  | None => s
  | Some full =>
    match rects with
    | [] => set_screen s (paint (screen s) full)
    | _ => set_screen s (foldl paint (screen s) (omap (refresh_sub full) rects))
    end
  end.

Inductive event :=
  | EvCapture (f : BitmapUpdate)
  | EvDisplayBitmap (p : pumping)
  | EvBitmapGate (p : pumping)
  | EvBulkSent (p : pumping)
  | EvCatchupTick (p : pumping)
  | EvSuppressOutput (allow : bool)
  | EvRefreshRect (rects : list InclusiveRect).

Definition session_step (s : session) (e : event) : outcome session :=
  match e with
  | EvCapture f => Ok (capture s f)
  | EvDisplayBitmap p => on_display_bitmap s p
  | EvBitmapGate p => on_bitmap_gate s p
  | EvBulkSent p => on_bulk_sent s p
  | EvCatchupTick p => on_catchup_tick s p
  | EvSuppressOutput allow => Ok (on_suppress_output s allow)
  | EvRefreshRect rects => Ok (on_refresh_rect s rects)
  end.
Fixpoint session_run (es : list event) (s : session) : outcome session :=
  match es with
  | [] => Ok s
  | e :: es => s ← session_step s e; session_run es s
  end.

(** ** Invariant *)

(** The events in which the client asks for output itself are left out. *)
Definition event_ok (w h : Z) (e : event) : Prop :=
  match e with
  | EvCapture f => full_frame w h f
  | EvDisplayBitmap p | EvBitmapGate p | EvBulkSent p | EvCatchupTick p =>
      Forall (full_frame w h) (captured p)
  | EvSuppressOutput _ | EvRefreshRect _ => False
  end.

Record session_base (w h : Z) (s : session) : Prop := {
  ok_deferred : deferred_bitmap s = None;
  ok_allowed : display_updates_allowed s = true;
  ok_desktop : resize_desktop s = (w, h);
  ok_latest : ∀ f, latest_full_frame s = Some f → full_frame w h f;
  ok_baseline : ∀ f, last_synced_full (sync s) = Some f → full_frame w h f ∧ shows (screen s) f }.

Definition settled (s : session) : Prop :=
  ∀ f, latest_full_frame s = Some f → shows (screen s) f.

Record session_ok (w h : Z) (s : session) : Prop := {
  ok_base : session_base w h s;
  ok_target : resync_target (sync s) = None;
  ok_settled : pending_resync (sync s) = false → unread s = 0%nat → settled s }.

Lemma captures_fields fs s :
  let s' := foldl capture s fs in
  sync s' = sync s ∧ screen s' = screen s ∧ bitmap_gate_open s' = bitmap_gate_open s
  ∧ unread s' = (length fs + unread s)%nat.
Proof.
  revert s. induction fs as [|f fs IH]; intros s; [done|]. cbn [foldl].
  destruct (IH (capture s f)) as (H1 & H2 & H3 & H4). split_and!; try done.
  rewrite H4. cbn. lia.
Qed.

Lemma captures_base w h fs s :
  session_base w h s → Forall (full_frame w h) fs → session_base w h (foldl capture s fs).
Proof.
  intros Hs Hfs. revert s Hs. induction Hfs; intros s []; [by split|]. apply IHHfs.
  split; try done. by intros f' [= <-].
Qed.

(** Frames captured while the loop awaits leave a notification to read. *)
Lemma captures_settled fs s :
  unread (foldl capture s fs) = 0%nat → fs = [] ∧ unread s = 0%nat.
Proof.
  destruct (captures_fields fs s) as (_ & _ & _ & ->). intros H. destruct fs; [done|cbn in H; lia].
Qed.

Lemma captures_ok w h fs s :
  session_ok w h s → Forall (full_frame w h) fs → session_ok w h (foldl capture s fs).
Proof.
  intros [Hb Ht Hs] Hfs. destruct (captures_fields fs s) as (E & _).
  split; [by apply captures_base|by rewrite E|]. rewrite E.
  intros Hp H. apply captures_settled in H as [-> H]. by apply Hs.
Qed.

Lemma set_sync_base w h s y :
  session_base w h s → last_synced_full y = last_synced_full (sync s) → session_base w h (set_sync s y None).
Proof. intros [] E. split; try done. cbn [set_sync sync]. by rewrite E. Qed.

Lemma mark_dirty_ok w h s : session_ok w h s → session_ok w h (set_sync s (mark_dirty (sync s)) None).
Proof. intros []. by split; [apply set_sync_base| |]. Qed.

(** The pump of a region [m] computed from the frame [full]. *)
Lemma pump_ok w h s full m p :
  session_base w h s → resync_target (sync s) = Some full → full_frame w h full →
  shows (paint (screen s) m) full → (unread s = 0%nat → latest_full_frame s = Some full) →
  session_ok w h (pump s (Some m) p).
Proof.
  intros Hs Ht Hf Hm Hun. cbn [pump].
  destruct (busy p); [by split; [apply set_sync_base| |]|]. unfold take_resync_target. rewrite Ht.
  destruct Hs as [Hd Ha Hr Hl Hb].
  destruct (queued p); cbn [confirm_send negb]; [|by split; [split|done|done]].
  split; [split; try done; by intros f [= <-]|done|].
  intros _ H f Hlf. specialize (Hun H). cbn in Hlf. rewrite Hlf in Hun. by injection Hun as ->.
Qed.

(** A catch-up keeps the invariant. *)
Lemma catch_up_ok w h s p :
  session_ok w h s → Forall (full_frame w h) (captured p) →
  ∃ s', catch_up s p = Ok s' ∧ session_ok w h s'.
Proof.
  intros [Hs Ht Hset] Hp. pose proof Hs as [Hd Ha Hr Hl Hb].
  unfold catch_up, take_catchup, has_pending, take_pending. rewrite Hd.
  assert (∀ y, last_synced_full y = last_synced_full (sync s) → resync_target y = None →
    (pending_resync y = false → unread s = 0%nat → settled s) →
    ∃ s', (Ok (pump (foldl capture (set_sync s y None) (captured p)) None p) : outcome session) = Ok s'
      ∧ session_ok w h s') as Hquiet.
  { intros y Ey Ty Sy. eexists. split; [done|]. cbn [pump]. apply captures_ok; [|done].
    split; [by apply set_sync_base|done|done]. }
  destruct (pending_resync (sync s)) eqn:Ep; cbn [negb mbind res_bind].
  2:{ by apply Hquiet; rewrite ?Ep. }
  destruct (latest_full_frame s) as [full|] eqn:Elf; cbn [mbind res_bind].
  2:{ apply Hquiet; try done. intros _ _ f E. congruence. }
  pose proof (resync_repaints w h (last_synced_full (sync s)) full (screen s) (Hl _ eq_refl) Hb) as Hre.
  cbn [last_synced_full pending_resync].
  destruct (resync_bitmap (last_synced_full (sync s)) full) as [[m|]| |]; [| |done|done];
    cbn [mbind res_bind].
  - eexists. split; [done|]. destruct Hre as [_ Hm].
    match goal with |- context [foldl capture ?s0 _] =>
      destruct (captures_fields (captured p) s0) as (E1 & E2 & _) end.
    apply (pump_ok w h _ full m).
    + apply captures_base; [by apply set_sync_base|done].
    + by rewrite E1.
    + by apply Hl.
    + by rewrite E2.
    + intros H. by apply captures_settled in H as [-> _].
  - apply Hquiet; try done. intros _ _ f E. rewrite Elf in E. by injection E as <-.
Qed.

Lemma session_run_app es1 es2 s :
  session_run (es1 ++ es2) s = s ← session_run es1 s; session_run es2 s.
Proof.
  revert s. induction es1 as [|e es1 IH]; intros s; [done|]. cbn [session_run app].
  destruct (session_step s e); cbn [mbind res_bind]; [apply IH|done..].
Qed.

Lemma session_step_ok w h s e :
  session_ok w h s → event_ok w h e → ∃ s', session_step s e = Ok s' ∧ session_ok w h s'.
Proof.
  intros Hs He. assert (∀ t : session, session_ok w h t →
    ∃ s', (Ok t : outcome session) = Ok s' ∧ session_ok w h s') as Hret by eauto.
  pose proof Hs as [[Hd Ha Hr Hl Hb] Ht Hset]. destruct e; cbn [session_step event_ok] in *; [..|done|done].
  - apply Hret. by apply (captures_ok w h [f] s Hs); constructor.
  - unfold on_display_bitmap. set (s1 := read_notification s).
    assert (session_ok w h (set_sync s1 (mark_dirty (sync s1)) None)) as H1 by by split.
    destruct (bitmap_gate_open s1); [|by apply Hret].
    change (display_updates_allowed s1) with (display_updates_allowed s). rewrite Ha.
    by apply catch_up_ok.
  - unfold on_bitmap_gate. destruct (bitmap_gate_open s); [by apply Hret|].
    cbn [set_gate display_updates_allowed]. rewrite Ha. by apply catch_up_ok.
  - unfold on_bulk_sent. destruct (_ && _); [by apply catch_up_ok|by apply Hret].
  - unfold on_catchup_tick. destruct (_ && _); [by apply catch_up_ok|by apply Hret].
Qed.

Lemma session_run_ok w h es s :
  session_ok w h s → Forall (event_ok w h) es → ∃ s', session_run es s = Ok s' ∧ session_ok w h s'.
Proof.
  intros Hs He. revert s Hs. induction He as [|e es He _ IH]; intros s Hs; [by exists s|].
  destruct (session_step_ok w h s e Hs He) as (s1 & E & H1). cbn [session_run]. rewrite E.
  by apply IH.
Qed.

Lemma session_new_ok w h open blank : session_ok w h (session_new w h open blank).
Proof. by split; [split| |]. Qed.

(** A pump that is neither held back nor skipped. *)
Definition unhindered : pumping := {| captured := []; busy := false; queued := true |}.

Lemma catch_up_settles w h s :
  session_ok w h s → pending_resync (sync s) = true →
  ∃ s', catch_up s unhindered = Ok s' ∧ settled s' ∧ pending_resync (sync s') = false.
Proof.
  intros [[Hd Ha Hr Hl Hb] Ht _] Ep.
  unfold catch_up, take_catchup, has_pending, take_pending. rewrite Ep. cbn [negb].
  destruct (latest_full_frame s) as [full|] eqn:Elf; cbn [mbind res_bind].
  2:{ eexists. split; [done|]. split; [|done]. intros f E. cbn in E. congruence. }
  pose proof (resync_repaints w h (last_synced_full (sync s)) full (screen s) (Hl _ eq_refl) Hb) as Hre.
  cbn [last_synced_full pending_resync].
  destruct (resync_bitmap (last_synced_full (sync s)) full) as [[m|]| |]; [| |done|done];
    cbn [mbind res_bind captured unhindered foldl pump busy queued take_resync_target set_sync sync
         resync_target confirm_send negb]; (eexists; split; [done|]; split; [|done]); intros f E;
    cbn in E; rewrite Elf in E; injection E as <-; [apply Hre|done].
Qed.

(** ** Properties *)

(** C20. A client that is not asking for output shows the desktop.  Whatever the order of
    captured frames, notifications, opened gates, finished sends and catch-up ticks,
    whatever is captured while the loop awaits and however often the connection is busy
    or the encoder produces nothing, the loop never fails; when no notification is left
    to read and no resync is owed, the screen shows the latest frame.  Otherwise the gate
    is still closed, or one notification or one tick that is not held back suffices. *)
Theorem session_shows_desktop w h open blank es :
  Forall (event_ok w h) es →
  ∃ s, session_run es (session_new w h open blank) = Ok s
  ∧ (pending_resync (sync s) = false → unread s = 0%nat → settled s)
  ∧ (bitmap_gate_open s = true → ∀ e,
      (e = EvCatchupTick unhindered ∧ pending_resync (sync s) = true) ∨ e = EvDisplayBitmap unhindered →
      ∃ s', session_step s e = Ok s' ∧ settled s' ∧ pending_resync (sync s') = false).
Proof.
  intros Hes. destruct (session_run_ok w h es _ (session_new_ok w h open blank) Hes) as (s & E & Hs).
  exists s. split; [done|]. split; [apply Hs|]. intros Hg e He. pose proof (ok_allowed _ _ _ (ok_base _ _ _ Hs)) as Ha.
  destruct He as [[-> Hp]| ->]; cbn [session_step].
  - unfold on_catchup_tick, has_pending. rewrite Ha, Hg, Hp. by apply (catch_up_settles w h).
  - unfold on_display_bitmap. cbn [read_notification bitmap_gate_open display_updates_allowed].
    rewrite Ha, Hg. cbn [negb]. apply (catch_up_settles w h); [|done].
    destruct Hs as [[] ? ?]. by split; [split| |].
Qed.

(** A one-pixel desktop. *)
Definition pixel (b : Z) : BitmapUpdate :=
  {| bm_x := 0; bm_y := 0; bm_width := 1; bm_height := 1; format := BgrX32;
     bm_data := [b; b; b; b]; bm_stride := 4; src_x := 0; src_y := 0 |}.
Lemma pixel_full b : full_frame 1 1 (pixel b).
Proof. by split. Qed.

Definition black : canvas := λ _ _ _, Some 0.
Definition held_back : pumping := {| captured := [pixel 2]; busy := true; queued := true |}.

(** What is seen of a run: the pixel, and the loop's variables. *)
Definition observe (r : outcome session) : option (option Z * bool * nat * bool * bool) :=
  match r with
  | Ok s => Some (screen s 0 0 0, pending_resync (sync s), unread s, bitmap_gate_open s,
                  match deferred_bitmap s with None => display_updates_allowed s | Some _ => false end)
  | _ => None
  end.

Definition interrupted : list event :=
  [EvCapture (pixel 1); EvDisplayBitmap unhindered; EvCapture (pixel 3); EvDisplayBitmap held_back].
Lemma interrupted_ok : Forall (event_ok 1 1) interrupted.
Proof. repeat first [apply Forall_nil_2 | apply Forall_cons_2 | exact (pixel_full _)]. Qed.

Lemma session_shows_desktop_witness :
  ∃ s s', session_run interrupted (session_new 1 1 true black) = Ok s
  ∧ observe (Ok s) = Some (Some 1, true, 1%nat, true, true)
  ∧ session_step s (EvCatchupTick unhindered) = Ok s' ∧ settled s'
  ∧ observe (Ok s') = Some (Some 2, false, 1%nat, true, true).
Proof.
  assert (observe (session_run interrupted (session_new 1 1 true black))
    = Some (Some 1, true, 1%nat, true, true)) as O1 by (vm_compute; reflexivity).
  assert (observe (session_run (interrupted ++ [EvCatchupTick unhindered]) (session_new 1 1 true black))
    = Some (Some 2, false, 1%nat, true, true)) as O2 by (vm_compute; reflexivity).
  destruct (session_shows_desktop 1 1 true black interrupted interrupted_ok) as (s & E & _ & H).
  rewrite E in O1. rewrite session_run_app, E in O2. cbn [mbind res_bind session_run] in O2.
  destruct (H ltac:(cbn in O1; congruence) (EvCatchupTick unhindered)) as (s' & E' & Hs' & _).
  { left. split; [done|]. cbn in O1. congruence. }
  rewrite E' in O2. cbn [mbind res_bind] in O2. eauto 10.
Defined.

(** A client that suppresses its output, misses a frame, and allows output again is sent
    the frame it missed, without the baseline being told. *)
Definition suppressed : list event :=
  [EvCapture (pixel 1); EvDisplayBitmap unhindered; EvSuppressOutput false; EvCapture (pixel 2);
   EvDisplayBitmap unhindered; EvSuppressOutput true; EvCapture (pixel 1); EvDisplayBitmap unhindered].

(** The full frame sent when output is allowed again does not advance the baseline:
    when the desktop then returns to what it showed before, no region differs from the
    baseline, nothing is sent, and the screen keeps the frame of the suppressed time.
    No finished send, gate or tick repairs it. *)
Theorem suppress_output_leaves_stale :
  ∃ s, session_run suppressed (session_new 1 1 true black) = Ok s
  ∧ pending_resync (sync s) = false ∧ unread s = 0%nat ∧ latest_full_frame s = Some (pixel 1)
  ∧ screen s 0 0 0 = Some 2
  ∧ ∀ p, captured p = [] →
      session_step s (EvBulkSent p) = Ok s ∧ session_step s (EvCatchupTick p) = Ok s
      ∧ session_step s (EvBitmapGate p) = Ok s.
Proof.
  assert (observe (session_run suppressed (session_new 1 1 true black))
    = Some (Some 2, false, 0%nat, true, true)) as O by (vm_compute; reflexivity).
  assert ((s ← session_run suppressed (session_new 1 1 true black); Ok (latest_full_frame s))
    = Ok (Some (pixel 1))) as L
    by (vm_compute; reflexivity).
  destruct (session_run _ _) as [s| |]; [|done|done]. exists s.
  destruct s as [[] [] open allowed ? ? ? ?]; [done|]. cbn in O, L |- *.
  split_and!; [done|congruence..|]. intros p Hp. destruct open, allowed; try congruence.
  cbn. unfold catch_up. rewrite Hp. cbn. destruct pending_resync0; [congruence|done].
Qed.
