(* ===== verification/Fastpath.v ===== *)
(** [rdpcore-pdu/src/fastpath.rs], [surface_commands.rs] and [pointer.rs]: the wire format
    of the steady state, input events one way, updates and their fragments the other. *)
From S2P Require Import Prelude Cursor Per Finalization.

Definition MAX_FASTPATH_CHUNK_SIZE : Z := 16374.
Definition UPDATE_CODE_BITMAP : Z := 0x1.
Definition UPDATE_CODE_SURFACE_COMMANDS : Z := 0x4.

(** ** Input *)

Definition FastPathInputEvent_encode (e : FastPathInputEvent) : bytes :=
  match e with
  | EvScancode flags code => write_u8 (Z.land flags 0x1F) ++ write_u8 code
  | EvMouse pointer_flags x y =>
      write_u8 (Z.shiftl 1 5) ++ write_u16_le pointer_flags ++ write_u16_le x ++ write_u16_le y
  | EvSync flags => write_u8 (Z.lor (Z.land flags 0x1F) (Z.shiftl 3 5))
  | EvUnicode flags code =>
      write_u8 (Z.lor (Z.land flags 0x1F) (Z.shiftl 4 5)) ++ write_u16_le code
  end.

Definition FastPathInputEvent_decode : reader FastPathInputEvent :=
  header ← read_u8;
  let event_flags := Z.land header 0x1F in
  let event_code := Z.shiftr header 5 in
  if event_code =? 0 then code ← read_u8; mret (EvScancode event_flags code)
  else if event_code =? 1 then
    pointer_flags ← read_u16_le;
    x ← read_u16_le;
    y ← read_u16_le;
    mret (EvMouse pointer_flags x y)
  else if event_code =? 3 then mret (EvSync event_flags)
  else if event_code =? 4 then code ← read_u16_le; mret (EvUnicode event_flags code)
  else invalid "fast_path_input_event.code" "unsupported or unadvertised event code".

Definition encode_fastpath_frame (header_byte : Z) (extra_prefix inner : bytes) : bytes :=
  let fixed_prefix := 1 + len extra_prefix + len inner in
  let total := if fixed_prefix <? 0x7F then fixed_prefix + 1 else fixed_prefix + 2 in
  write_u8 header_byte ++ write_length total ++ write_slice extra_prefix ++ write_slice inner.

(** [FastPathInput] is its [events]. *)
Definition FastPathInput_encode (events : list FastPathInputEvent) : bytes :=
  let events_bytes := concat (FastPathInputEvent_encode <$> events) in
  let count := len events in
  let '(num_events_nibble, extra_count_byte) :=
    if (0 <? count) && (count <? 15) then (as_u8 count, false) else (0, true) in
  let extra_prefix := if extra_count_byte then [as_u8 count] else [] in
  encode_fastpath_frame (as_u8 (Z.shiftl num_events_nibble 2)) extra_prefix events_bytes.

Definition FastPathInput_decode_from : reader (list FastPathInputEvent) :=
  header ← read_u8;
  reject_if (negb (Z.land header 0x03 =? 0)) "fast_path_input.action" "expected FASTPATH_INPUT" ;;
  reject_if (negb (Z.land (Z.shiftr header 6) 0x03 =? 0))
    "fast_path_input.flags" "encryption is not supported" ;;
  let num_events_nibble := Z.land (Z.shiftr header 2) 0x0F in
  _ ← read_length;
  num_events ← (if num_events_nibble =? 0 then read_u8 else mret num_events_nibble);
  read_many (Z.to_nat num_events) FastPathInputEvent_decode.
Definition FastPathInput_decode (input : bytes) : res DecodeError (list FastPathInputEvent) :=
  run FastPathInput_decode_from input.

(** ** Output *)

Inductive Fragmentation := Single | First | Next | Last.
Global Instance Fragmentation_eq_dec : EqDecision Fragmentation.
Proof. solve_decision. Defined.

Definition Fragmentation_as_u8 (f : Fragmentation) : Z :=
  match f with Single => 0 | Last => 1 | First => 2 | Next => 3 end.
Definition Fragmentation_from_u8 (value : Z) : option Fragmentation :=
  if value =? 0 then Some Single else if value =? 1 then Some Last
  else if value =? 2 then Some First else if value =? 3 then Some Next else None.

Record FastPathUpdatePdu := { update_code : Z; fragmentation : Fragmentation; fp_data : bytes }.

Definition FastPathUpdatePdu_encode (u : FastPathUpdatePdu) : res DecodeError bytes :=
  let header := Z.lor (Z.land (update_code u) 0x0F)
                  (Z.shiftl (Z.land (Fragmentation_as_u8 (fragmentation u)) 0x3) 4) in
  debug_assert (len (fp_data u) <=? 65535) ;;
  mret (write_u8 header ++ write_u16_le (as_u16 (len (fp_data u))) ++ write_slice (fp_data u)).

Definition FastPathUpdatePdu_decode : reader FastPathUpdatePdu :=
  header ← read_u8;
  let update_code := Z.land header 0x0F in
  fragmentation ← match Fragmentation_from_u8 (Z.land (Z.shiftr header 4) 0x3) with
                  | Some f => mret f
                  | None => invalid "fast_path_update.fragmentation" "invalid fragmentation value"
                  end;
  reject_if (negb (Z.land (Z.shiftr header 6) 0x2 =? 0))
    "fast_path_update.compression" "compression is not supported" ;;
  size ← read_u16_le;
  data ← read_slice size;
  mret {| update_code := update_code; fragmentation := fragmentation; fp_data := data |}.

(** [FastPathOutput] is its [updates]. *)
Definition FastPathOutput_encode (updates : list FastPathUpdatePdu) : res DecodeError bytes :=
  inner ← mapM FastPathUpdatePdu_encode updates;
  mret (encode_fastpath_frame 0 [] (concat inner)).

(** [while updates_cursor.remaining() > 0] *)
Fixpoint decode_updates (fuel : nat) : reader (list FastPathUpdatePdu) :=
  n ← get_remaining;
  if 0 <? n then
    match fuel with
    | O => lift_res Panic
    | S fuel =>
      u ← FastPathUpdatePdu_decode;
      us ← decode_updates fuel;
      mret (u :: us)
    end
  else mret [].

Definition FastPathOutput_decode_from : reader (list FastPathUpdatePdu) :=
  header ← read_u8;
  reject_if (negb (Z.land header 0x03 =? 0)) "fast_path_output.action" "expected FASTPATH_OUTPUT" ;;
  reject_if (negb (Z.land (Z.shiftr header 6) 0x03 =? 0))
    "fast_path_output.flags" "encryption is not supported" ;;
  total_length ← read_length;
  consumed_before_updates ← get_pos;
  updates_bytes ← read_slice (saturating_sub total_length consumed_before_updates);
  lift_res (run (decode_updates (length updates_bytes)) updates_bytes).
Definition FastPathOutput_decode (input : bytes) : res DecodeError (list FastPathUpdatePdu) :=
  run FastPathOutput_decode_from input.

(** ** Bitmap updates *)

Definition BITMAP_UPDATE_TYPE : Z := 0x0001.
Definition BITMAP_COMPRESSION : Z := 0x0001.

Record BitmapRect := {
  dest_left : Z; dest_top : Z; dest_right : Z; dest_bottom : Z; br_width : Z; br_height : Z;
  bits_per_pixel : Z; br_data : bytes; compressed_scan_width : option Z }.

Definition BitmapRect_encode (r : BitmapRect) : res DecodeError bytes :=
  let geometry := write_u16_le (dest_left r) ++ write_u16_le (dest_top r)
    ++ write_u16_le (dest_right r) ++ write_u16_le (dest_bottom r) ++ write_u16_le (br_width r)
    ++ write_u16_le (br_height r) ++ write_u16_le (bits_per_pixel r) in
  match compressed_scan_width r with
  | Some scan_width_bytes =>
    let bitmap_length := 8 + len (br_data r) in
    debug_assert (bitmap_length <=? 65535) ;;
    debug_assert (scan_width_bytes mod 4 =? 0) ;;
    let uncompressed_size := br_height r * scan_width_bytes in
    mret (geometry ++ write_u16_le BITMAP_COMPRESSION ++ write_u16_le (as_u16 bitmap_length)
          ++ write_u16_le 0 ++ write_u16_le (as_u16 (len (br_data r)))
          ++ write_u16_le scan_width_bytes ++ write_u16_le (as_u16 uncompressed_size)
          ++ write_slice (br_data r))
  | None =>
    debug_assert (len (br_data r) <=? 65535) ;;
    mret (geometry ++ write_u16_le 0 ++ write_u16_le (as_u16 (len (br_data r)))
          ++ write_slice (br_data r))
  end.

Definition BitmapRect_decode : reader BitmapRect :=
  dest_left ← read_u16_le;
  dest_top ← read_u16_le;
  dest_right ← read_u16_le;
  dest_bottom ← read_u16_le;
  width ← read_u16_le;
  height ← read_u16_le;
  bits_per_pixel ← read_u16_le;
  flags ← read_u16_le;
  bitmap_length ← read_u16_le;
  '(data, compressed_scan_width) ←
    (if has_bits flags BITMAP_COMPRESSION then
       _ ← read_u16_le;
       cb_comp_main_body_size ← read_u16_le;
       cb_scan_width ← read_u16_le;
       _ ← read_u16_le;
       data ← read_slice cb_comp_main_body_size;
       mret (data, Some cb_scan_width)
     else
       data ← read_slice bitmap_length;
       mret (data, None));
  mret {| dest_left := dest_left; dest_top := dest_top; dest_right := dest_right;
          dest_bottom := dest_bottom; br_width := width; br_height := height;
          bits_per_pixel := bits_per_pixel; br_data := data;
          compressed_scan_width := compressed_scan_width |}.

Definition encode_rectangles (rectangles : list BitmapRect) : res DecodeError bytes :=
  body ← mapM BitmapRect_encode rectangles;
  mret (write_u16_le BITMAP_UPDATE_TYPE ++ write_u16_le (as_u16 (len rectangles)) ++ concat body).

Definition BitmapUpdateData_decode_from : reader (list BitmapRect) :=
  update_type ← read_u16_le;
  reject_if (negb (has_bits update_type BITMAP_UPDATE_TYPE))
    "bitmap_update_data.update_type" "expected the BITMAP_UPDATE_TYPE bit set" ;;
  count ← read_u16_le;
  read_many (Z.to_nat count) BitmapRect_decode.
Definition BitmapUpdateData_decode (input : bytes) : res DecodeError (list BitmapRect) :=
  run BitmapUpdateData_decode_from input.

(** ** Surface commands *)

Definition CMD_SET_SURFACE_BITS : Z := 0x01.
Definition CMD_FRAME_MARKER : Z := 0x0004.
Definition FRAME_ACTION_BEGIN : Z := 0x0000.
Definition FRAME_ACTION_END : Z := 0x0001.

Definition encode_frame_marker (frame_action frame_id : Z) : bytes :=
  write_u16_le CMD_FRAME_MARKER ++ write_u16_le frame_action ++ write_u32_le frame_id.

Record ExclusiveRectangle := { ex_left : Z; ex_top : Z; ex_right : Z; ex_bottom : Z }.
Definition ExclusiveRectangle_encode (r : ExclusiveRectangle) : bytes :=
  write_u16_le (ex_left r) ++ write_u16_le (ex_top r) ++ write_u16_le (ex_right r)
  ++ write_u16_le (ex_bottom r).

Definition saturating_add_u16 (a b : Z) : Z := Z.min (a + b) 65535.

Definition encode_set_surface_bits (left top width height codec_id : Z) (data : bytes) : bytes :=
  write_u16_le CMD_SET_SURFACE_BITS ++
  ExclusiveRectangle_encode {| ex_left := left; ex_top := top;
    ex_right := saturating_add_u16 left width; ex_bottom := saturating_add_u16 top height |} ++
  write_u8 32 ++ write_u8 0 ++ write_u8 0 ++ write_u8 codec_id ++ write_u16_le width ++
  write_u16_le height ++ write_u32_le (as_u32 (len data)) ++ write_slice data.

(** ** Safety *)

Lemma FastPathInputEvent_safe : safe FastPathInputEvent_decode (λ _, True).
Proof. unfold FastPathInputEvent_decode. safe_step. repeat case_match; safe_steps; done. Qed.

Lemma FastPathInput_safe : safe FastPathInput_decode_from (λ es, len es < 2 ^ 8).
Proof.
  unfold FastPathInput_decode_from. do 4 safe_step.
  apply (safe_bind _ _ (λ n, u8_ok n)).
  { destruct (Z.land (Z.shiftr a 2) 15 =? 0); [apply read_u8_safe|]. apply safe_ret.
    rewrite (land_ones_mod _ 4) by lia.
    pose proof (Z.mod_pos_bound (Z.shiftr a 2) (2 ^ 4) ltac:(lia)). lia. }
  intros n Hn. eapply safe_weaken; [apply read_many_safe, FastPathInputEvent_safe|].
  intros l [Hl _]. unfold len. lia.
Qed.

Lemma Fragmentation_safe h :
  safe (match Fragmentation_from_u8 h with
        | Some f => mret f
        | None => invalid "fast_path_update.fragmentation" "invalid fragmentation value"
        end) (λ _, True).
Proof. destruct (Fragmentation_from_u8 h); [by apply safe_ret|apply safe_fail]. Qed.

Lemma FastPathUpdatePdu_safe : safe FastPathUpdatePdu_decode (λ u, bytes_ok (fp_data u)).
Proof.
  unfold FastPathUpdatePdu_decode. safe_step. eapply safe_bind; [apply Fragmentation_safe|].
  intros f _. safe_steps. tauto.
Qed.
Lemma FastPathUpdatePdu_eats : eats 1 FastPathUpdatePdu_decode.
Proof.
  unfold FastPathUpdatePdu_decode.
  eapply (eats_bind _ _ _ _ (λ _, True)); [apply read_u8_safe|apply read_u8_eats|].
  intros h Hh. eapply safe_bind; [apply Fragmentation_safe|].
  intros f _. safe_steps. done.
Qed.

Lemma decode_updates_safe fuel : safe_n (Z.of_nat fuel) (decode_updates fuel) (λ _, True).
Proof.
  induction fuel as [|fuel IH]; intros c Hc Hb Hn; cbn [decode_updates]; unfold mbind at 1;
    unfold reader_bind at 1; unfold get_remaining.
  { rewrite (proj2 (Z.ltb_ge _ _)) by lia. cbn. split_and!; done || lia. }
  destruct (0 <? remaining c); [|cbn; split_and!; done || lia].
  revert c Hc Hb Hn. change (safe_n (Z.of_nat (S fuel)) (u ← FastPathUpdatePdu_decode;
    us ← decode_updates fuel; mret (u :: us) : reader (list FastPathUpdatePdu)) (λ _, True)).
  eapply (safe_n_bind _ 1); [apply FastPathUpdatePdu_safe|apply FastPathUpdatePdu_eats|].
  intros u _. replace (Z.of_nat (S fuel) - 1) with (Z.of_nat fuel) by lia.
  intros c Hc Hb Hn. specialize (IH c Hc Hb Hn). unfold mbind, reader_bind.
  by destruct (decode_updates fuel c) as [[us c1]| |].
Qed.

Lemma FastPathOutput_safe : safe FastPathOutput_decode_from (λ _, True).
Proof.
  unfold FastPathOutput_decode_from. do 5 safe_step.
  eapply safe_bind; [apply read_slice_len; unfold saturating_sub; lia|].
  intros s (Hs & Hl). apply safe_lift_res.
  pose proof (safe_n_run _ _ _ s (decode_updates_safe (length s)) Hs Hl) as Hu.
  destruct (run _ s); [done|done|]. apply Hu. unfold len. lia.
Qed.

Lemma BitmapRect_safe : safe BitmapRect_decode (λ r, bytes_ok (br_data r)).
Proof.
  unfold BitmapRect_decode. do 9 safe_step.
  apply (safe_bind _ _ (λ p : bytes * option Z, bytes_ok p.1)).
  - destruct (has_bits _ _); safe_steps; cbn; tauto.
  - intros [d w] Hw. by apply safe_ret.
Qed.
Lemma BitmapUpdateData_safe :
  safe BitmapUpdateData_decode_from (λ rs, Forall (λ r, bytes_ok (br_data r)) rs).
Proof.
  unfold BitmapUpdateData_decode_from. do 3 safe_step.
  eapply safe_weaken; [apply read_many_safe, BitmapRect_safe|]. by intros l [_ Hrs].
Qed.

(** ** Round trips *)

Lemma event_header f k :
  0 ≤ f < 2 ^ 5 → 0 ≤ k →
  let h := Z.lor (Z.land f 0x1F) (Z.shiftl k 5) in Z.land h 0x1F = f ∧ Z.shiftr h 5 = k.
Proof.
  change 0x1F with (2 ^ 5 - 1). intros Hf Hk h. assert (h = k * 2 ^ 5 + f) as ->.
  { subst h. rewrite Z.lor_comm, (land_ones_mod f 5), Z.mod_small by lia. by apply lor_shiftl_add. }
  rewrite (land_ones_mod _ 5), Z.shiftr_div_pow2 by lia. split.
  - rewrite Z.add_comm, Z_mod_plus_full. by apply Z.mod_small.
  - rewrite Z.div_add_l, Z.div_small by lia. lia.
Qed.

Definition input_event_ok (e : FastPathInputEvent) : Prop :=
  match e with
  | EvScancode flags code => 0 ≤ flags < 2 ^ 5 ∧ u8_ok code
  | EvMouse pointer_flags x y => u16_ok pointer_flags ∧ u16_ok x ∧ u16_ok y
  | EvSync flags => 0 ≤ flags < 2 ^ 5
  | EvUnicode flags code => 0 ≤ flags < 2 ^ 5 ∧ u16_ok code
  end.

Lemma FastPathInputEvent_reads e l :
  input_event_ok e → reads FastPathInputEvent_decode (FastPathInputEvent_encode e ++ l) e l.
Proof.
  intros He. unfold FastPathInputEvent_decode.
  destruct e as [f c|p x y|f|f c]; cbn [FastPathInputEvent_encode input_event_ok] in *;
    rewrite <-?(assoc_L (++)); (eapply reads_bind; [apply read_u8_write|cbn beta zeta]).
  - destruct (event_header f 0) as [H1 H2]; [lia..|].
    rewrite Z.shiftl_0_l, Z.lor_0_r in H1, H2.
    assert (Z.land (Z.land f 31) 31 = f) as -> by done. rewrite H2. cbn [Z.eqb]. reads_steps. done.
  - cbn [Z.eqb Z.shiftl Z.shiftr]. reads_steps. done.
  - destruct (event_header f 3) as [-> ->]; [lia..|]. by apply reads_ret.
  - destruct (event_header f 4) as [-> ->]; [lia..|]. cbn [Z.eqb Pos.eqb]. reads_steps. done.
Qed.

Lemma len_input_event e : 1 ≤ len (FastPathInputEvent_encode e) ≤ 7.
Proof. destruct e; cbn [FastPathInputEvent_encode]; len_lia. Qed.

Lemma len_concat_bounds {A} (f : A → bytes) a b l :
  (∀ x, a ≤ len (f x) ≤ b) → len l * a ≤ len (concat (f <$> l)) ≤ len l * b.
Proof.
  intros H. induction l as [|x l IH]; [done|]. rewrite fmap_cons. cbn [concat].
  rewrite len_app, len_cons. specialize (H x). lia.
Qed.

Lemma len_fastpath_frame h p inner :
  len (encode_fastpath_frame h p inner)
  = (if 1 + len p + len inner <? 0x7F then 1 else 2) + 1 + len p + len inner.
Proof.
  unfold encode_fastpath_frame. rewrite !len_app, len_write_u8, per_len_write_length, !len_write_slice.
  destruct (Z.ltb_spec (1 + len p + len inner) 0x7F); case_match; lia.
Qed.

Lemma input_nibble n : 0 ≤ n < 15 →
  let h := as_u8 (Z.shiftl n 2) in
  Z.land h 0x03 = 0 ∧ Z.land (Z.shiftr h 6) 0x03 = 0 ∧ Z.land (Z.shiftr h 2) 0x0F = n.
Proof.
  intros Hn. assert (∃ k, (k < 15)%nat ∧ n = Z.of_nat k) as (k & Hk & ->)
    by (exists (Z.to_nat n); lia).
  do 15 (destruct k as [|k]; [by vm_compute|]). lia.
Qed.

Lemma FastPathInput_decode_encode es :
  Forall input_event_ok es → len es ≤ 255 → FastPathInput_decode (FastPathInput_encode es) = Ok es.
Proof.
  intros Hes Hn. pose proof (len_nonneg es).
  pose proof (len_concat_bounds FastPathInputEvent_encode 1 7 es len_input_event) as Hl.
  assert (∃ nib pre, FastPathInput_encode es
      = encode_fastpath_frame (as_u8 (Z.shiftl nib 2)) pre (concat (FastPathInputEvent_encode <$> es))
    ∧ 0 ≤ nib < 15 ∧ ((nib = len es ∧ nib ≠ 0 ∧ pre = []) ∨ (nib = 0 ∧ pre = write_u8 (len es))))
    as (nib & pre & -> & Hnib & Hpre).
  { unfold FastPathInput_encode. rewrite as_u8_id by lia.
    destruct (Z.ltb_spec 0 (len es)), (Z.ltb_spec (len es) 15); cbn [andb];
      do 2 eexists; (split; [done|]); (split; [lia|]);
      first [by right | left; split_and!; done || lia]. }
  assert (len pre ≤ 1) as Hp1.
  { destruct Hpre as [(_ & _ & ->)|(_ & ->)]; [by vm_compute|rewrite len_write_u8; lia]. }
  pose proof (len_nonneg pre). apply run_reads_whole; [rewrite len_fastpath_frame; case_match; lia|].
  unfold FastPathInput_decode_from, encode_fastpath_frame.
  destruct (input_nibble nib Hnib) as (E1 & E2 & E3). rewrite <-!(assoc_L (++)).
  eapply reads_bind; [apply read_u8_write|cbn beta zeta]. rewrite E1, E2, E3.
  do 2 (eapply reads_bind; [by apply reject_if_reads|cbn beta]).
  eapply reads_bind; [apply per_read_length_reads; case_match; lia|cbn beta].
  assert (Z.to_nat (len es) = length es) as El by (unfold len; lia).
  destruct Hpre as [(-> & Hz & ->)|(-> & ->)].
  - rewrite (proj2 (Z.eqb_neq _ _)) by done. eapply reads_bind; [apply reads_ret|cbn beta].
    rewrite El. apply (read_many_reads _ FastPathInputEvent_encode).
    eapply Forall_impl; [exact Hes|]. intros; by apply FastPathInputEvent_reads.
  - cbn [Z.eqb]. eapply reads_bind; [apply read_u8_write|cbn beta].
    rewrite El. apply (read_many_reads _ FastPathInputEvent_encode).
    eapply Forall_impl; [exact Hes|]. intros; by apply FastPathInputEvent_reads.
Qed.

Definition update_ok (u : FastPathUpdatePdu) : Prop :=
  0 ≤ update_code u < 2 ^ 4 ∧ len (fp_data u) ≤ 65535.

Lemma update_header c f :
  0 ≤ c < 2 ^ 4 →
  let h := Z.lor (Z.land c 0x0F) (Z.shiftl (Z.land (Fragmentation_as_u8 f) 0x3) 4) in
  Z.land h 0x0F = c ∧ Fragmentation_from_u8 (Z.land (Z.shiftr h 4) 0x3) = Some f
  ∧ Z.land (Z.shiftr h 6) 0x2 = 0.
Proof.
  intros Hc. assert (∃ k, (k < 16)%nat ∧ c = Z.of_nat k) as (k & Hk & ->)
    by (exists (Z.to_nat c); lia).
  do 16 (destruct k as [|k]; [by destruct f|]). lia.
Qed.

Lemma FastPathUpdatePdu_encode_ok u :
  update_ok u →
  ∃ enc, FastPathUpdatePdu_encode u = Ok enc ∧ len enc = 3 + len (fp_data u)
  ∧ ∀ l, reads FastPathUpdatePdu_decode (enc ++ l) u l.
Proof.
  intros [Hc Hd]. pose proof (len_nonneg (fp_data u)).
  unfold FastPathUpdatePdu_encode. rewrite debug_assert_true by lia. cbn [mbind res_bind mret res_ret].
  eexists. split; [done|]. split; [len_lia|]. intros l. rewrite as_u16_id by lia.
  destruct (update_header (update_code u) (fragmentation u) Hc) as (E1 & E2 & E3).
  unfold FastPathUpdatePdu_decode. rewrite <-!(assoc_L (++)).
  eapply reads_bind; [apply read_u8_write|cbn beta zeta]. rewrite E1, E2, E3.
  eapply reads_bind; [apply reads_ret|cbn beta]. reads_steps. by destruct u.
Qed.

Lemma decode_updates_reads fuel us encs :
  Forall update_ok us → mapM FastPathUpdatePdu_encode us = Ok encs → (length (concat encs) ≤ fuel)%nat →
  reads (decode_updates fuel) (concat encs) us [].
Proof.
  intros Hus. revert fuel encs. induction Hus as [|u us Hu _ IH]; intros fuel encs E Hf.
  - injection E as <-. cbn. destruct fuel; cbn [decode_updates];
      (eapply reads_bind; [apply get_remaining_reads|cbn; apply reads_ret]).
  - destruct (FastPathUpdatePdu_encode_ok u Hu) as (enc & E1 & Hl & Hr).
    cbn [mapM] in E. rewrite E1 in E. cbn [mbind res_bind] in E.
    destruct (mapM FastPathUpdatePdu_encode us) as [encs'| |] eqn:E2; [|done..].
    injection E as <-. cbn [concat] in *. rewrite length_app in Hf.
    pose proof (len_nonneg (fp_data u)). unfold len in Hl at 1.
    destruct fuel as [|fuel]; [lia|]. cbn [decode_updates].
    eapply reads_bind; [apply get_remaining_reads|cbn beta].
    rewrite (proj2 (Z.ltb_lt _ _)) by (rewrite len_app; pose proof (len_nonneg (concat encs'));
      unfold len at 1; lia).
    eapply reads_bind; [apply Hr|cbn beta].
    eapply reads_bind; [apply IH; [done|lia]|]. apply reads_ret.
Qed.

Lemma mapM_updates us :
  Forall update_ok us →
  ∃ encs, mapM FastPathUpdatePdu_encode us = Ok encs
  ∧ len (concat encs) = foldr (λ u n, 3 + len (fp_data u) + n) 0 us.
Proof.
  induction 1 as [|u us Hu _ (encs & E & Hl)]; [by exists []|].
  destruct (FastPathUpdatePdu_encode_ok u Hu) as (enc & E1 & Hl1 & _).
  exists (enc :: encs). cbn [mapM]. rewrite E1. cbn [mbind res_bind]. rewrite E. split; [done|].
  cbn [concat foldr]. rewrite len_app. lia.
Qed.

(** A PDU of at most 32 KiB, the reach of its length field. *)
Lemma FastPathOutput_decode_encode us :
  Forall update_ok us → foldr (λ u n, 3 + len (fp_data u) + n) 0 us < 2 ^ 15 - 4 →
  ∃ out, FastPathOutput_encode us = Ok out ∧ FastPathOutput_decode out = Ok us
  ∧ len out ≤ 3 + foldr (λ u n, 3 + len (fp_data u) + n) 0 us.
Proof.
  intros Hus Hsum. destruct (mapM_updates us Hus) as (encs & E & Hl).
  unfold FastPathOutput_encode. rewrite E. cbn [mbind res_bind mret res_ret].
  eexists. split; [done|]. pose proof (len_nonneg (concat encs)).
  assert (len (encode_fastpath_frame 0 [] (concat encs))
    ≤ 3 + foldr (λ u n, 3 + len (fp_data u) + n) 0 us) as Hlen.
  { rewrite len_fastpath_frame, len_nil. case_match; lia. }
  split; [|done]. apply (run_reads_of _ _ _ []); [lia|]. revert Hlen.
  set (total := len (encode_fastpath_frame 0 [] (concat encs))). intros Hlen.
  assert (total = 1 + len (write_length total) + len (concat encs)
    ∧ encode_fastpath_frame 0 [] (concat encs)
      = write_u8 0 ++ write_length total ++ write_slice (concat encs)) as [Ht ->].
  { subst total. rewrite len_fastpath_frame, per_len_write_length, len_nil.
    unfold encode_fastpath_frame. change (len (@nil Z)) with 0.
    destruct (Z.ltb_spec (1 + 0 + len (concat encs)) 0x7F); (split; [case_match; lia|]);
      cbn [app write_slice]; do 3 f_equal; lia. }
  clearbody total. unfold FastPathOutput_decode_from.
  eapply reads_of_bind; [apply read_u8_write|cbn beta zeta].
  do 2 (eapply reads_of_bind; [by apply reject_if_reads|cbn beta]).
  eapply reads_of_bind; [apply per_read_length_reads; pose proof (len_nonneg (write_length total)); lia|].
  cbn beta. apply reads_of_pos. rewrite len_write_slice.
  replace (saturating_sub total (total - len (concat encs))) with (len (concat encs))
    by (unfold saturating_sub; lia).
  pose proof (read_slice_write (len (concat encs)) (concat encs) [] eq_refl) as Hs.
  rewrite app_nil_r in Hs. eapply reads_of_bind; [exact Hs|cbn beta].
  rewrite (run_reads_whole (decode_updates (length (concat encs))) _ us).
  - apply reads_reads_of, reads_ret.
  - lia.
  - rewrite app_nil_r. by apply decode_updates_reads.
Qed.

Record BitmapRect_ok (r : BitmapRect) : Prop := {
  ok_left : u16_ok (dest_left r); ok_top : u16_ok (dest_top r);
  ok_right : u16_ok (dest_right r); ok_bottom : u16_ok (dest_bottom r);
  ok_width : u16_ok (br_width r); ok_height : u16_ok (br_height r);
  ok_bpp : u16_ok (bits_per_pixel r);
  ok_data : match compressed_scan_width r with
            | Some w => u16_ok w ∧ w mod 4 = 0 ∧ 8 + len (br_data r) ≤ 65535
            | None => len (br_data r) ≤ 65535
            end }.

Lemma BitmapRect_encode_ok r :
  BitmapRect_ok r →
  ∃ enc, BitmapRect_encode r = Ok enc ∧ len enc ≤ 26 + len (br_data r)
  ∧ ∀ l, reads BitmapRect_decode (enc ++ l) r l.
Proof.
  intros [H1 H2 H3 H4 H5 H6 H7 Hd]. pose proof (len_nonneg (br_data r)).
  unfold BitmapRect_encode, BitmapRect_decode. destruct (compressed_scan_width r) as [w|] eqn:E.
  - destruct Hd as (Hw & Hm & Hd). rewrite (debug_assert_true (_ <=? _)), (debug_assert_true (_ =? _)) by lia.
    cbn [mbind res_bind mret res_ret]. eexists. split; [done|]. split; [len_lia|]. intros l.
    rewrite !as_u16_id by lia. rewrite <-!(assoc_L (++)). do 9 reads_step.
    apply (reads_bind _ _ _ (br_data r, Some w) l);
      [|cbn beta iota; apply reads_ret_eq; rewrite <-E; by destruct r].
    change (has_bits BITMAP_COMPRESSION BITMAP_COMPRESSION) with true. cbn match.
    do 3 reads_step. eapply reads_bind; [apply read_u16_le_write, as_u16_ok|cbn beta].
    reads_steps. done.
  - rewrite debug_assert_true by lia. cbn [mbind res_bind mret res_ret]. eexists. split; [done|].
    split; [len_lia|]. intros l. rewrite !as_u16_id by lia. rewrite <-!(assoc_L (++)). do 9 reads_step.
    apply (reads_bind _ _ _ (br_data r, None) l);
      [|cbn beta iota; apply reads_ret_eq; rewrite <-E; by destruct r].
    change (has_bits 0 BITMAP_COMPRESSION) with false. cbn match. reads_steps. done.
Qed.

Lemma mapM_rectangles rs :
  Forall BitmapRect_ok rs →
  ∃ encs, mapM BitmapRect_encode rs = Ok encs ∧ len (concat encs) ≤ len rs * 2 ^ 17
  ∧ len (concat encs) ≤ foldr (λ r n, 26 + len (br_data r) + n) 0 rs
  ∧ ∀ l, reads (read_many (length rs) BitmapRect_decode) (concat encs ++ l) rs l.
Proof.
  induction 1 as [|r rs Hr _ (encs & E & Hl & Hf & IH)].
  { exists []. split_and!; [done..|]. intros l. apply reads_ret. }
  destruct (BitmapRect_encode_ok r Hr) as (enc & E1 & Hl1 & Hr1).
  assert (len (br_data r) ≤ 65535) as Hd by (destruct Hr; case_match; lia).
  exists (enc :: encs). cbn [mapM]. rewrite E1. cbn [mbind res_bind]. rewrite E. split; [done|].
  cbn [concat foldr length read_many]. rewrite len_app, len_cons. split; [lia|]. split; [lia|].
  intros l. rewrite <-(assoc_L (++)).
  eapply reads_bind; [apply Hr1|]. eapply reads_bind; [apply IH|]. by apply reads_ret.
Qed.

(** The body of a bitmap update decodes to its rectangles. *)
Lemma encode_rectangles_ok rs :
  Forall BitmapRect_ok rs → len rs < 2 ^ 16 →
  ∃ enc, encode_rectangles rs = Ok enc ∧ BitmapUpdateData_decode enc = Ok rs ∧ enc ≠ []
  ∧ len enc ≤ 4 + foldr (λ r n, 26 + len (br_data r) + n) 0 rs.
Proof.
  intros Hrs Hn. pose proof (len_nonneg rs).
  destruct (mapM_rectangles rs Hrs) as (encs & E & Hl & Hf & Hr).
  unfold encode_rectangles. rewrite E. cbn [mbind res_bind mret res_ret].
  eexists. split; [done|]. assert (len (write_u16_le BITMAP_UPDATE_TYPE ++
    write_u16_le (as_u16 (len rs)) ++ concat encs) = 4 + len (concat encs)) as Hlen by len_lia.
  pose proof (len_nonneg (concat encs)). split_and!; [|intros Hnil; by rewrite Hnil in Hlen|lia].
  apply run_reads_whole; [lia|]. unfold BitmapUpdateData_decode_from. rewrite as_u16_id by lia.
  rewrite <-!(assoc_L (++)). eapply reads_bind; [by apply read_u16_le_write|cbn beta].
  eapply reads_bind; [by apply reject_if_reads|cbn beta].
  eapply reads_bind; [apply read_u16_le_write; lia|cbn beta].
  replace (Z.to_nat (len rs)) with (length rs) by (unfold len; lia). apply Hr.
Qed.
