(* ===== verification/BitmapEncode.v ===== *)
(** [rdpcore-server/src/encode.rs]: how a bitmap update becomes rectangles, updates and
    fast-path frames; and what a client that reassembles and decodes them paints. *)
From S2P Require Import Prelude Cursor Utf Rdp6 Fastpath Diff Display.

(** [usize] and [u16] arithmetic of a debug build. *)
Definition add_usize (a b : Z) : res DecodeError Z := if a + b <=? USIZE_MAX then Ok (a + b) else Panic.
Definition add_u16 (a b : Z) : res DecodeError Z := if a + b <? 2 ^ 16 then Ok (a + b) else Panic.
Definition sub_u16 (a b : Z) : res DecodeError Z := if b <=? a then Ok (a - b) else Panic.
Definition mul_u16 (a b : Z) : res DecodeError Z := if a * b <? 2 ^ 16 then Ok (a * b) else Panic.

(** [str::to_ascii_lowercase] and [str::contains]. *)
Definition to_ascii_lowercase (s : rstring) : rstring :=
  (λ b, if (65 <=? b) && (b <=? 90) then b + 32 else b) <$> s.
Fixpoint contains (s pat : rstring) : bool :=
  bool_decide (take (length pat) s = pat)
  || match s with [] => false | _ :: s => contains s pat end.

Definition client_needs_compat_workarounds (client_name : rstring) : bool :=
  let n := to_ascii_lowercase client_name in
  contains n (lit "mac") || contains n (lit "darwin") || contains n (lit "iphone")
  || contains n (lit "ipad").

(** [NsCodecNegotiated]'s fields, as the policy keeps them. *)
Record BitmapEncodePolicy := {
  use_rdp6_planar : bool; max_rects_per_update : Z; nscodec : option (Z * Z);
  max_request_size : Z }.

Definition TILE_SIZE : Z := 64.
Definition COMPAT_MAX_RECTS_PER_UPDATE : Z := 32.

Definition max_raw_strip_height (width : Z) : Z :=
  let row_bytes := saturating_mul width 4 in
  if row_bytes =? 0 then 1 else as_u16 (Z.max (65535 / row_bytes) 1).

Definition bitmap_encode_policy (client_name : rstring) (nscodec : option (Z * Z))
    (max_request_size : Z) : BitmapEncodePolicy :=
  let name_compat := client_needs_compat_workarounds client_name in
  let negotiated := match nscodec with Some _ => true | None => false end in
  let use_rdp6_planar := negb negotiated && negb name_compat in
  let compat_limits := negotiated || name_compat in
  let size_limited_rects := Z.max (max_request_size / 8192) 1 in
  {| use_rdp6_planar := use_rdp6_planar;
     max_rects_per_update :=
       if compat_limits then Z.min COMPAT_MAX_RECTS_PER_UPDATE size_limited_rects
       else size_limited_rects;
     nscodec := nscodec; max_request_size := max_request_size |}.

Record BitmapWireStats := {
  tiles : Z; compressed_tiles : Z; raw_tiles : Z; encoded_bytes : Z; update_batches : Z }.
Definition BitmapWireStats_default : BitmapWireStats :=
  {| tiles := 0; compressed_tiles := 0; raw_tiles := 0; encoded_bytes := 0; update_batches := 0 |}.

Record EncodeScratch := {
  rectangles : list BitmapRect; tile_scratch : bytes; sc_batches : list (list bytes);
  buffer_pool : list bytes }.
Definition EncodeScratch_default : EncodeScratch :=
  {| rectangles := []; tile_scratch := []; sc_batches := []; buffer_pool := [] |}.

(** [pool.pop().unwrap_or_default()] *)
Definition pop {A} (pool : list (list A)) : list (list A) * list A :=
  match last pool with Some b => (removelast pool, b) | None => (pool, []) end.

Definition pooled_copy (pool : list bytes) (src : bytes) : list bytes * bytes :=
  let '(pool, _) := pop pool in (pool, src).

(** The loop over [(0..tile_height).rev()]: the scratch, and whether every row was there. *)
Fixpoint push_rows (bitmap : BitmapUpdate) (tile_x tile_y tile_row_bytes : Z) (n : nat)
    (scratch : bytes) : res DecodeError (bytes * bool) :=
  match n with
  | O => Ok (scratch, true)
  | S row =>
    y ← add_u16 tile_y (Z.of_nat row);
    let src_start := src_byte_offset bitmap tile_x y in
    src_end ← add_usize src_start tile_row_bytes;
    match get_range (bm_data bitmap) src_start src_end with
    | None => Ok (scratch, false)
    | Some slice => push_rows bitmap tile_x tile_y tile_row_bytes row (scratch ++ slice)
    end
  end.

(** The choice between a planar stream and the raw pixels: the pool, the data and
    [compressed_scan_width]. *)
Definition compress_tile (policy : BitmapEncodePolicy) (pool : list bytes) (scratch : bytes)
    (tile_width tile_height : Z) : res DecodeError (list bytes * bytes * option Z) :=
  let planar_ok := use_rdp6_planar policy && (tile_width mod 4 =? 0) in
  if planar_ok then
    let '(pool, _) := pop pool in
    compressed ← encode_to scratch (Z.to_nat tile_width) (Z.to_nat tile_height);
    if len compressed <? len scratch then
      scan ← mul_u16 tile_width 4;
      Ok (pool, compressed, Some scan)
    else
      let '(pool, data) := pooled_copy (pool ++ [compressed]) scratch in
      Ok (pool, data, None)
  else
    let '(pool, data) := pooled_copy pool scratch in
    Ok (pool, data, None).

Definition push_bitmap_rect (bitmap : BitmapUpdate) (tile_x tile_y tile_width tile_height : Z)
    (policy : BitmapEncodePolicy) (sc : EncodeScratch) (stats : BitmapWireStats)
  : res DecodeError (EncodeScratch * BitmapWireStats) :=
  let tile_row_bytes := tile_width * 4 in
  '(scratch, complete) ← push_rows bitmap tile_x tile_y tile_row_bytes (Z.to_nat tile_height) [];
  if negb complete then
    Ok ({| rectangles := rectangles sc; tile_scratch := scratch; sc_batches := sc_batches sc;
           buffer_pool := buffer_pool sc |}, stats)
  else
    '(pool, data, compressed_scan_width) ← compress_tile policy (buffer_pool sc) scratch tile_width tile_height;
    let stats :=
      {| tiles := tiles stats + 1;
         compressed_tiles := compressed_tiles stats
           + match compressed_scan_width with Some _ => 1 | None => 0 end;
         raw_tiles := raw_tiles stats
           + match compressed_scan_width with Some _ => 0 | None => 1 end;
         encoded_bytes := encoded_bytes stats; update_batches := update_batches stats |} in
    left ← add_u16 (bm_x bitmap) tile_x;
    top ← add_u16 (bm_y bitmap) tile_y;
    right ← add_u16 left tile_width;
    right ← sub_u16 right 1;
    bottom ← add_u16 top tile_height;
    bottom ← sub_u16 bottom 1;
    Ok ({| rectangles := rectangles sc ++
             [{| dest_left := left; dest_top := top; dest_right := right; dest_bottom := bottom;
                 br_width := tile_width; br_height := tile_height; bits_per_pixel := 32;
                 br_data := data; compressed_scan_width := compressed_scan_width |}];
           tile_scratch := scratch; sc_batches := sc_batches sc; buffer_pool := pool |}, stats).

(** [while tile_x < width], then [while tile_y < height], of the planar branch. *)
Fixpoint planar_row (fuel : nat) (bitmap : BitmapUpdate) (tile_x tile_y tile_height : Z)
    (policy : BitmapEncodePolicy) (sc : EncodeScratch) (stats : BitmapWireStats)
  : res DecodeError (EncodeScratch * BitmapWireStats) :=
  if tile_x <? bm_width bitmap then
    match fuel with
    | O => Panic
    | S fuel =>
      let tile_width := Z.min TILE_SIZE (bm_width bitmap - tile_x) in
      '(sc, stats) ← push_bitmap_rect bitmap tile_x tile_y tile_width tile_height policy sc stats;
      tile_x ← add_u16 tile_x TILE_SIZE;
      planar_row fuel bitmap tile_x tile_y tile_height policy sc stats
    end
  else Ok (sc, stats).
Fixpoint planar_rows (fuel : nat) (bitmap : BitmapUpdate) (tile_y : Z)
    (policy : BitmapEncodePolicy) (sc : EncodeScratch) (stats : BitmapWireStats)
  : res DecodeError (EncodeScratch * BitmapWireStats) :=
  if tile_y <? bm_height bitmap then
    match fuel with
    | O => Panic
    | S fuel =>
      let tile_height := Z.min TILE_SIZE (bm_height bitmap - tile_y) in
      '(sc, stats) ← planar_row (Z.to_nat (bm_width bitmap)) bitmap 0 tile_y tile_height policy sc stats;
      tile_y ← add_u16 tile_y TILE_SIZE;
      planar_rows fuel bitmap tile_y policy sc stats
    end
  else Ok (sc, stats).

(** The loop of the raw branch. *)
Fixpoint raw_rows (fuel : nat) (bitmap : BitmapUpdate) (strip_height tile_y : Z)
    (policy : BitmapEncodePolicy) (sc : EncodeScratch) (stats : BitmapWireStats)
  : res DecodeError (EncodeScratch * BitmapWireStats) :=
  if tile_y <? bm_height bitmap then
    match fuel with
    | O => Panic
    | S fuel =>
      let th := Z.min strip_height (bm_height bitmap - tile_y) in
      '(sc, stats) ← push_bitmap_rect bitmap 0 tile_y (bm_width bitmap) th policy sc stats;
      tile_y ← add_u16 tile_y th;
      raw_rows fuel bitmap strip_height tile_y policy sc stats
    end
  else Ok (sc, stats).

Definition fragment_kind (count i : nat) : Fragmentation :=
  if bool_decide (count = 1%nat) then Single
  else if bool_decide (i = 0%nat) then First
  else if bool_decide (i = (count - 1)%nat) then Last
  else Next.

Definition encode_update_to_wire_frames (update_code : Z) (body : bytes) (max_request_size : Z)
  : res DecodeError (list bytes) :=
  let chunk := Z.min MAX_FASTPATH_CHUNK_SIZE (Z.max max_request_size 1) in
  let chunks := chunks chunk body in
  let count := Nat.max (length chunks) 1 in
  mapM id (imap (λ i chunk, FastPathOutput_encode
    [{| update_code := update_code; fragmentation := fragment_kind count i; fp_data := chunk |}]) chunks).

Definition encode_rectangles_to_wire_frames (rectangles : list BitmapRect) (max_request_size : Z)
  : res DecodeError (list bytes) :=
  bitmap_bytes ← encode_rectangles rectangles;
  encode_update_to_wire_frames UPDATE_CODE_BITMAP bitmap_bytes max_request_size.

(** The loop over [scratch.rectangles.chunks(max_rects)]. *)
Fixpoint push_batches (chunks : list (list BitmapRect)) (max_request_size : Z)
    (batches : list (list bytes)) (stats : BitmapWireStats)
  : res DecodeError (list (list bytes) * BitmapWireStats) :=
  match chunks with
  | [] => Ok (batches, stats)
  | chunk :: chunks =>
    wire ← encode_rectangles_to_wire_frames chunk max_request_size;
    push_batches chunks max_request_size (batches ++ [wire])
      {| tiles := tiles stats; compressed_tiles := compressed_tiles stats;
         raw_tiles := raw_tiles stats;
         encoded_bytes := encoded_bytes stats + foldr (λ r n, len (br_data r) + n) 0 chunk;
         update_batches := update_batches stats + 1 |}
  end.

Definition encode_bitmap_update (bitmap : BitmapUpdate) (policy : BitmapEncodePolicy)
    (sc : EncodeScratch) : res DecodeError (EncodeScratch * BitmapWireStats) :=
  let sc := {| rectangles := []; tile_scratch := []; sc_batches := [];
               buffer_pool := buffer_pool sc ++ (br_data <$> rectangles sc) |} in
  let stats := BitmapWireStats_default in
  '(sc, stats) ←
    (if use_rdp6_planar policy
     then planar_rows (Z.to_nat (bm_height bitmap)) bitmap 0 policy sc stats
     else raw_rows (Z.to_nat (bm_height bitmap)) bitmap (max_raw_strip_height (bm_width bitmap)) 0
            policy sc stats);
  let max_rects := Z.min (max_rects_per_update policy) (Z.max (len (rectangles sc)) 1) in
  '(batches, stats) ← push_batches (chunks max_rects (rectangles sc)) (max_request_size policy) [] stats;
  Ok ({| rectangles := rectangles sc; tile_scratch := tile_scratch sc; sc_batches := batches;
         buffer_pool := buffer_pool sc |}, stats).
