(* ===== verification/BitmapPaint.v ===== *)
(** The client's side of [encode.rs]: reassembling the fragments of an update, decoding
    its rectangles and painting them, against the pixels of the update that was encoded. *)
From S2P Require Import Prelude Cursor Utf Rdp6 Fastpath Diff Display BitmapEncode.

(** ** A client *)

(** [TS_BITMAP_DATA] is bottom-up. *)
Definition rect_pixels (r : BitmapRect) : option bytes :=
  match compressed_scan_width r with
  | Some _ =>
    match decode (br_data r) (Z.to_nat (br_width r)) (Z.to_nat (br_height r)) with
    | Ok d => Some d
    | _ => None
    end
  | None => Some (br_data r)
  end.

Definition rect_covers (r : BitmapRect) (px py : Z) : Prop :=
  dest_left r ≤ px ≤ dest_right r ∧ dest_top r ≤ py ≤ dest_bottom r.
Global Instance rect_covers_dec r px py : Decision (rect_covers r px py).
Proof. unfold rect_covers. apply _. Defined.

Definition rect_byte (r : BitmapRect) (d : bytes) (px py c : Z) : option Z :=
  d !! Z.to_nat (((dest_bottom r - py) * br_width r + (px - dest_left r)) * 4 + c).

Definition paint_rect (cv : canvas) (r : BitmapRect) : option canvas :=
  d ← rect_pixels r;
  Some (λ px py c, if decide (rect_covers r px py) then rect_byte r d px py c else cv px py c).
Fixpoint paint_rects (cv : canvas) (rs : list BitmapRect) : option canvas :=
  match rs with
  | [] => Some cv
  | r :: rs => cv ← paint_rect cv r; paint_rects cv rs
  end.

(** A whole update, to a client that knows only bitmap updates. *)
Definition client_update (cv : canvas) (code : Z) (body : bytes) : option canvas :=
  if code =? UPDATE_CODE_BITMAP then
    match BitmapUpdateData_decode body with
    | Ok rs => paint_rects cv rs
    | _ => None
    end
  else None.

(** *** Reassembling *)

Section assembler.
(** What a whole update does to the client's state. *)
Context {X : Type} (update : X → Z → bytes → option X).

(** The state, and the update being reassembled. *)
Definition assembler : Type := X * option (Z * bytes).

Definition assemble_pdu (cl : assembler) (u : FastPathUpdatePdu) : option assembler :=
  match fragmentation u, cl.2 with
  | Single, None => x ← update cl.1 (update_code u) (fp_data u); Some (x, None)
  | First, None => Some (cl.1, Some (update_code u, fp_data u))
  | Next, Some (code, b) =>
    if code =? update_code u then Some (cl.1, Some (code, b ++ fp_data u)) else None
  | Last, Some (code, b) =>
    if code =? update_code u
    then x ← update cl.1 code (b ++ fp_data u); Some (x, None)
    else None
  | _, _ => None
  end.

Definition assemble_frame (cl : assembler) (frame : bytes) : option assembler :=
  match FastPathOutput_decode frame with
  | Ok us => foldl (λ cl u, cl ← cl; assemble_pdu cl u) (Some cl) us
  | _ => None
  end.
Fixpoint assemble_frames (cl : assembler) (frames : list bytes) : option assembler :=
  match frames with
  | [] => Some cl
  | f :: frames => cl ← assemble_frame cl f; assemble_frames cl frames
  end.

Lemma assemble_frames_app cl f1 f2 :
  assemble_frames cl (f1 ++ f2) = cl ← assemble_frames cl f1; assemble_frames cl f2.
Proof.
  revert cl. induction f1 as [|f f1 IH]; intros cl; [done|]. cbn [assemble_frames app].
  destruct (assemble_frame cl f) as [cl'|]; [apply IH|done].
Qed.
End assembler.

(** The client that shows bitmap updates. *)
Definition client_frames : assembler (X := canvas) → list bytes → option assembler :=
  assemble_frames client_update.

(** A client that does with an update what another one does. *)
Section embed.
Context {X Y : Type} (f : X → Z → bytes → option X) (g : Y → Z → bytes → option Y) (e : X → Y).
Context (Hfg : ∀ x x' code body, f x code body = Some x' → g (e x) code body = Some (e x')).

Lemma assemble_pdu_embed x p u x' p' :
  assemble_pdu f (x, p) u = Some (x', p') → assemble_pdu g (e x, p) u = Some (e x', p').
Proof.
  unfold assemble_pdu. cbn [fst snd]. destruct (fragmentation u), p as [[code b]|]; try done;
    try (destruct (code =? update_code u); [|done]); try (by intros [= <- <-]);
    (destruct (f x _ _) as [x1|] eqn:E; [|done]); intros [= <- <-]; by rewrite (Hfg _ _ _ _ E).
Qed.
Lemma assemble_frames_embed frames : ∀ x p x' p',
  assemble_frames f (x, p) frames = Some (x', p') → assemble_frames g (e x, p) frames = Some (e x', p').
Proof.
  induction frames as [|frame frames IH]; intros x p x' p'; cbn [assemble_frames]; [by intros [= <- <-]|].
  intros ([x1 p1] & E & H)%bind_Some. rewrite bind_Some. exists (e x1, p1). split; [|by apply IH].
  revert E. unfold assemble_frame. destruct (FastPathOutput_decode frame) as [us| |]; [|done..].
  clear frames IH H. revert x p. induction us as [|u us IH]; intros x p; cbn [foldl]; [by intros [= <- <-]|].
  cbn [mbind option_bind]. destruct (assemble_pdu f (x, p) u) as [[x2 p2]|] eqn:E.
  - rewrite (assemble_pdu_embed _ _ _ _ _ E). apply IH.
  - intros H. exfalso. clear -H. induction us as [|u us IH]; [done|]. apply IH, H.
Qed.
End embed.

(** ** Fragments *)

(** A fragment of at most a chunk, as a frame. *)
Lemma fragment_frame code kind data :
  0 ≤ code < 2 ^ 4 → len data ≤ MAX_FASTPATH_CHUNK_SIZE →
  let u := {| update_code := code; fragmentation := kind; fp_data := data |} in
  ∃ frame, FastPathOutput_encode [u] = Ok frame ∧ len frame ≤ MAX_FASTPATH_CHUNK_SIZE + 6
  ∧ ∀ {X} (update : X → Z → bytes → option X) cl,
      assemble_frame update cl frame = assemble_pdu update cl u.
Proof.
  intros Hc Hd u. unfold MAX_FASTPATH_CHUNK_SIZE in *.
  destruct (FastPathOutput_decode_encode [u]) as (out & E & Ed & Hl).
  - constructor; [|done]. split; cbn; lia.
  - cbn [foldr u fp_data]. lia.
  - exists out. split; [done|]. cbn [foldr u fp_data] in Hl. split; [lia|].
    intros X update cl. unfold assemble_frame. by rewrite Ed.
Qed.

Section fragments.
Context {X : Type} (update : X → Z → bytes → option X) (code : Z) (Hcode : 0 ≤ code < 2 ^ 4).

Definition encode_fragment (count i : nat) (chunk : bytes) : res DecodeError bytes :=
  FastPathOutput_encode
    [{| update_code := code; fragmentation := fragment_kind count i; fp_data := chunk |}].
Definition small_frame (f : bytes) : Prop := len f ≤ MAX_FASTPATH_CHUNK_SIZE + 6.

(** The fragments after the first. *)
Lemma later_fragments x count i cs b :
  cs ≠ [] → (0 < i)%nat → count = (i + length cs)%nat →
  Forall (λ c, len c ≤ MAX_FASTPATH_CHUNK_SIZE) cs →
  ∃ frames, mapM id (imap (λ j c, encode_fragment count (i + j) c) cs) = Ok frames
  ∧ Forall small_frame frames
  ∧ assemble_frames update (x, Some (code, b)) frames
    = x ← update x code (b ++ concat cs); Some (x, None).
Proof.
  revert i b. induction cs as [|c cs IH]; intros i b; [done|]. intros _ Hi Hcount Hcs.
  apply Forall_cons in Hcs as [Hc Hcs].
  destruct (fragment_frame code (fragment_kind count i) c Hcode Hc) as (frame & E & Hl & Hcl).
  change (encode_fragment count i c = Ok frame) in E.
  rewrite imap_cons. cbn [mapM]. rewrite Nat.add_0_r, E. cbn [id mbind res_bind].
  assert (∀ kind, fragment_kind count i = kind → assemble_frame update (x, Some (code, b)) frame
    = assemble_pdu update (x, Some (code, b)) {| update_code := code; fragmentation := kind; fp_data := c |})
    as Hstep by (intros kind <-; apply Hcl).
  destruct (decide (cs = [])) as [->|Hne].
  - exists [frame]. split; [done|]. split; [by constructor|]. cbn [assemble_frames].
    rewrite (Hstep Last).
    + cbn [assemble_pdu fragmentation update_code fp_data fst snd]. rewrite Z.eqb_refl. cbn [concat].
      rewrite app_nil_r. by destruct (update _ _ _).
    + unfold fragment_kind. cbn [length] in Hcount.
      rewrite !bool_decide_eq_false_2, bool_decide_eq_true_2 by lia. done.
  - destruct (IH (S i) (b ++ c) Hne) as (frames & Ef & Hsm & Hfr); [lia|cbn in Hcount; lia|done|].
    exists (frame :: frames). rewrite (imap_ext _ (λ j c, encode_fragment count (S i + j) c)).
    2:{ intros j y _. cbn. by rewrite Nat.add_succ_r. }
    rewrite Ef. split; [done|]. split; [by constructor|]. cbn [assemble_frames].
    rewrite (Hstep Next).
    + cbn [assemble_pdu fragmentation update_code fp_data fst snd]. rewrite Z.eqb_refl. cbn [mbind option_bind].
      rewrite Hfr. cbn [concat]. by rewrite (assoc_L (++)).
    + unfold fragment_kind. cbn [length] in Hcount.
      assert (length cs ≠ 0%nat) by (by destruct cs).
      rewrite !bool_decide_eq_false_2 by lia. done.
Qed.
End fragments.

(** One update, as the client puts it together again. *)
Lemma wire_frames_ok {X} (update : X → Z → bytes → option X) code body mrs x :
  0 ≤ code < 2 ^ 4 → body ≠ [] →
  ∃ frames, encode_update_to_wire_frames code body mrs = Ok frames
  ∧ Forall small_frame frames ∧ frames ≠ []
  ∧ assemble_frames update (x, None) frames = x ← update x code body; Some (x, None).
Proof.
  intros Hcode Hbody. unfold encode_update_to_wire_frames.
  set (n := Z.min MAX_FASTPATH_CHUNK_SIZE (Z.max mrs 1)).
  assert (0 < n ≤ MAX_FASTPATH_CHUNK_SIZE) as Hn by (unfold n, MAX_FASTPATH_CHUNK_SIZE; lia).
  pose proof (concat_chunks n ltac:(lia) body) as Hcat.
  pose proof (chunks_bound n ltac:(lia) body) as Hbound.
  assert (Forall (λ c : bytes, len c ≤ MAX_FASTPATH_CHUNK_SIZE) (chunks n body)) as Hcs.
  { eapply Forall_impl; [exact Hbound|]. intros c Hc. cbn in Hc. lia. }
  destruct (chunks n body) as [|c cs]; [by rewrite <-Hcat in Hbody|].
  apply Forall_cons in Hcs as [Hc Hcs]. cbn [concat] in Hcat.
  replace (Nat.max (length (c :: cs)) 1) with (S (length cs)) by (cbn [length]; lia).
  destruct (fragment_frame code (fragment_kind (S (length cs)) 0) c Hcode Hc) as (frame & E & Hl & Hcl).
  change (imap _ (c :: cs)) with (imap (λ i chunk, encode_fragment code (S (length cs)) i chunk) (c :: cs)).
  change (encode_fragment code (S (length cs)) 0 c = Ok frame) in E.
  rewrite imap_cons. cbn [mapM]. rewrite E. cbn [id mbind res_bind].
  destruct (decide (cs = [])) as [->|Hne].
  - exists [frame]. split; [done|]. split; [by constructor|]. split; [done|].
    cbn [assemble_frames]. rewrite Hcl. cbn [concat] in Hcat. rewrite app_nil_r in Hcat. subst c.
    change (assemble_pdu _ _ _) with (x ← update x code body; Some (x, None : option (Z * bytes))).
    by destruct (update x code body).
  - destruct (later_fragments update code Hcode x (S (length cs)) 1 cs c Hne) as (frames & Ef & Hsm & Hfr);
      [lia|done|done|].
    exists (frame :: frames). change (imap _ cs)
      with (imap (λ j c, encode_fragment code (S (length cs)) (1 + j) c) cs). rewrite Ef.
    split; [done|]. split; [by constructor|]. split; [done|].
    cbn [assemble_frames]. rewrite Hcl.
    assert (fragment_kind (S (length cs)) 0 = First) as ->.
    { unfold fragment_kind. assert (length cs ≠ 0%nat) by (by destruct cs).
      rewrite (bool_decide_eq_false_2 (S (length cs) = 1%nat)) by lia. done. }
    cbn [assemble_pdu fragmentation update_code fp_data fst snd mbind option_bind].
    rewrite Hfr, Hcat. done.
Qed.

(** ** The bytes of a tile *)

Lemma lookup_ztake_zdrop {A} (l : list A) a n j :
  0 ≤ a → 0 ≤ j < n → ztake n (zdrop a l) !! Z.to_nat j = l !! Z.to_nat (a + j).
Proof.
  intros Ha Hj. unfold ztake, zdrop. rewrite lookup_take_lt by lia. rewrite lookup_drop. f_equal. lia.
Qed.

(** Lossless but for the fourth byte of each pixel, for any bytes. *)
Lemma chunks_exact4_join l n :
  length l = (4 * n)%nat → mjoin (pixel_bytes <$> chunks_exact4 l) = l ∧ length (chunks_exact4 l) = n.
Proof.
  revert l. induction n as [|n IH]; intros l Hl.
  - by destruct l.
  - destruct l as [|b0 [|b1 [|b2 [|b3 l]]]]; cbn [length] in Hl; try lia.
    destruct (IH l) as [E1 E2]; [lia|]. cbn [chunks_exact4 length]. rewrite fmap_cons.
    change (pixel_bytes (b0, b1, b2, b3) ++ mjoin (pixel_bytes <$> chunks_exact4 l)
      = b0 :: b1 :: b2 :: b3 :: l ∧ S (length (chunks_exact4 l)) = S n). by rewrite E1, E2.
Qed.

Lemma clear_x_lookup px i c :
  (i < length px)%nat → (c < 3)%nat →
  mjoin (pixel_bytes <$> (clear_x <$> px)) !! (4 * i + c)%nat = mjoin (pixel_bytes <$> px) !! (4 * i + c)%nat.
Proof.
  revert i. induction px as [|p px IH]; intros i Hi Hc; [cbn in Hi; lia|].
  rewrite !fmap_cons. cbn [mjoin list_join concat]. destruct i as [|i].
  - cbn [Nat.mul Nat.add]. rewrite !lookup_app_l by (cbn; lia).
    do 3 (destruct c as [|c]; [done|]). lia.
  - rewrite !lookup_app_r by (cbn; lia). cbn [length pixel_bytes].
    replace (4 * S i + c - 4)%nat with (4 * i + c)%nat by lia. apply IH; cbn in Hi; lia.
Qed.

Lemma planar_pixels t n k :
  bytes_ok t → length t = (4 * (n * k))%nat → Z.of_nat (n * k) < 2 ^ 58 →
  ∃ out d, encode_to t n k = Ok out ∧ decode out n k = Ok d
  ∧ ∀ i c, (i < n * k)%nat → (c < 3)%nat → d !! (4 * i + c)%nat = t !! (4 * i + c)%nat.
Proof.
  intros Ht Hl Hs. destruct (chunks_exact4_join t (n * k) Hl) as [Ej Hlen].
  assert (Forall pixel_ok (chunks_exact4 t)) as Hok.
  { revert Ht. rewrite <-Ej at 1. clear. induction (chunks_exact4 t) as [|p px IH]; [by constructor|].
    rewrite fmap_cons. cbn [mjoin list_join concat]. rewrite bytes_ok_app. intros [Hp H].
    constructor; [done|by apply IH]. }
  destruct (rdp6_decode_encode (chunks_exact4 t) n k Hok Hlen Hs) as (out & E & Ed & _).
  rewrite Ej in E. exists out, (mjoin (pixel_bytes <$> (clear_x <$> chunks_exact4 t))).
  split; [done|]. split; [done|]. intros i c Hi Hc. rewrite clear_x_lookup by (done || lia).
  by rewrite Ej.
Qed.

Section tiles.
Context (w h : Z) (u v : BitmapUpdate) (Hu : full_frame w h u) (Hbytes : bytes_ok (bm_data u)).
Context (Hv : view_of u v).

(** A row of a tile, where it lies in the frame. *)
Lemma tile_row_range x y n :
  0 ≤ x → 0 < n → x + n ≤ bm_width v → 0 ≤ y < bm_height v →
  let off := src_byte_offset v x y in
  off = (bm_y v + y) * bm_stride u + (bm_x v + x) * 4
  ∧ 0 ≤ off ∧ off + n * 4 ≤ len (bm_data v) < 2 ^ 63.
Proof.
  intros Hx Hn Hxn Hy off. pose proof Hu as [? ? ? ? Ew Eh ? ? Hst Hd].
  destruct Hv as [D S _ [X0 X] [Y0 Y] [W0 W] [H0 H]].
  destruct (last_byte w h u Hu (bm_x v + x) (bm_y v + y)) as [E _]; [lia..|].
  destruct (last_byte w h u Hu (bm_x v + x + n) (bm_y v + y)) as [_ Hlast]; [lia..|].
  subst off. unfold src_byte_offset. rewrite X, Y, S, D, E. split; [done|]. split; [nia|lia].
Qed.

Definition tile_row (x y n : Z) : bytes := ztake (n * 4) (zdrop (src_byte_offset v x y) (bm_data v)).
Fixpoint tile_bytes (x y n : Z) (k : nat) : bytes :=
  match k with
  | O => []
  | S k => tile_row x (y + Z.of_nat k) n ++ tile_bytes x y n k
  end.

Lemma push_rows_tile x y n k scratch :
  0 ≤ x → 0 < n → x + n ≤ bm_width v → 0 ≤ y → y + Z.of_nat k ≤ bm_height v →
  push_rows v x y (n * 4) k scratch = Ok (scratch ++ tile_bytes x y n k, true).
Proof.
  intros Hx Hn Hxn Hy. revert scratch. induction k as [|k IH]; intros scratch Hk.
  { by rewrite app_nil_r. }
  cbn [push_rows tile_bytes]. unfold add_u16, add_usize, USIZE_MAX.
  destruct (tile_row_range x (y + Z.of_nat k) n) as (_ & Hoff & Hend); [lia..|].
  pose proof (full_h _ _ _ Hu). pose proof (view_height _ _ Hv). pose proof (view_y _ _ Hv).
  pose proof (full_height _ _ _ Hu).
  rewrite (proj2 (Z.ltb_lt _ _)) by lia. cbn [mbind res_bind].
  rewrite (proj2 (Z.leb_le _ _)) by lia. cbn [mbind res_bind]. unfold get_range.
  rewrite decide_True by lia. rewrite IH by lia. rewrite <-(assoc_L (++)). unfold tile_row.
  by rewrite Z.add_simpl_l.
Qed.

Lemma len_tile_bytes x y n k :
  0 ≤ x → 0 < n → x + n ≤ bm_width v → 0 ≤ y → y + Z.of_nat k ≤ bm_height v →
  len (tile_bytes x y n k) = Z.of_nat k * (n * 4) ∧ bytes_ok (tile_bytes x y n k).
Proof.
  intros Hx Hn Hxn Hy. induction k as [|k IH]; intros Hk; [by split; [|apply bytes_ok_nil]|].
  cbn [tile_bytes]. destruct IH as [IH1 IH2]; [lia|].
  destruct (tile_row_range x (y + Z.of_nat k) n) as (_ & Hoff & Hend); [lia..|].
  rewrite len_app, bytes_ok_app, IH1. split.
  - unfold tile_row. rewrite len_ztake; [lia|]. rewrite len_zdrop; lia.
  - split; [|done]. unfold tile_row, ztake, zdrop. apply Forall_take, Forall_drop.
    rewrite (view_data _ _ Hv). done.
Qed.

(** The tile is bottom-up. *)
Lemma tile_bytes_lookup x y n k row j :
  0 ≤ x → 0 < n → x + n ≤ bm_width v → 0 ≤ y → y + Z.of_nat k ≤ bm_height v →
  0 ≤ row < Z.of_nat k → 0 ≤ j < n * 4 →
  tile_bytes x y n k !! Z.to_nat ((Z.of_nat k - 1 - row) * (n * 4) + j)
  = bm_data v !! Z.to_nat (src_byte_offset v x (y + row) + j).
Proof.
  intros Hx Hn Hxn Hy Hk Hrow Hj. induction k as [|k IH]; [lia|]. cbn [tile_bytes].
  destruct (tile_row_range x (y + Z.of_nat k) n) as (_ & Hoff & Hend); [lia..|].
  assert (len (tile_row x (y + Z.of_nat k) n) = n * 4) as Hlen.
  { unfold tile_row. rewrite len_ztake; [lia|]. rewrite len_zdrop; lia. }
  destruct (decide (row = Z.of_nat k)) as [->|Hne].
  - rewrite lookup_app_l by (unfold len in Hlen; lia). unfold tile_row.
    replace ((Z.of_nat (S k) - 1 - Z.of_nat k) * (n * 4) + j) with j by lia.
    by apply lookup_ztake_zdrop.
  - assert ((Z.of_nat (S k) - 1 - row) * (n * 4) = (Z.of_nat k - 1 - row) * (n * 4) + n * 4
      ∧ 0 ≤ (Z.of_nat k - 1 - row) * (n * 4)) as [Ek Hpos] by nia.
    rewrite Ek. rewrite lookup_app_r by (unfold len in Hlen; lia). rewrite <-IH by lia.
    f_equal. unfold len in Hlen. lia.
Qed.

(** A rectangle that shows the pixels of the update where it lies. *)
Definition faithful (r : BitmapRect) : Prop :=
  BitmapRect_ok r ∧ (∀ px py, rect_covers r px py → in_update v px py)
  ∧ ∃ d, rect_pixels r = Some d
    ∧ ∀ px py c, rect_covers r px py → 0 ≤ c < 3 → rect_byte r d px py c = pixel_byte v px py c.

Definition tile_rect (x y n k : Z) (data : bytes) (scan : option Z) : BitmapRect :=
  {| dest_left := bm_x v + x; dest_top := bm_y v + y; dest_right := bm_x v + x + n - 1;
     dest_bottom := bm_y v + y + k - 1; br_width := n; br_height := k; bits_per_pixel := 32;
     br_data := data; compressed_scan_width := scan |}.

Record in_bitmap (x y n k : Z) : Prop := {
  tile_x0 : 0 ≤ x; tile_n : 0 < n; tile_right : x + n ≤ bm_width v;
  tile_y0 : 0 ≤ y; tile_k : 0 < k; tile_bottom : y + k ≤ bm_height v }.

Lemma in_bitmap_u16 x y n k :
  in_bitmap x y n k → 0 ≤ bm_x v + x ∧ bm_x v + x + n < 2 ^ 16 ∧ 0 ≤ bm_y v + y ∧ bm_y v + y + k < 2 ^ 16.
Proof.
  intros []. pose proof Hu as [? ? ? ? Ew Eh ? ? _ _].
  destruct Hv as [_ _ _ [X0 _] [Y0 _] [_ W] [_ H]]. lia.
Qed.

Lemma tile_pixel x y n k px py c :
  in_bitmap x y n k → bm_x v + x ≤ px < bm_x v + x + n → bm_y v + y ≤ py < bm_y v + y + k →
  0 ≤ c < 4 →
  tile_bytes x y n (Z.to_nat k)
    !! Z.to_nat (((bm_y v + y + k - 1 - py) * n + (px - (bm_x v + x))) * 4 + c)
  = pixel_byte v px py c.
Proof.
  intros [] Hpx Hpy Hc. set (row := py - (bm_y v + y)). set (j := (px - (bm_x v + x)) * 4 + c).
  replace (((bm_y v + y + k - 1 - py) * n + (px - (bm_x v + x))) * 4 + c)
    with ((Z.of_nat (Z.to_nat k) - 1 - row) * (n * 4) + j) by (subst row j; rewrite Z2Nat.id by lia; ring).
  rewrite tile_bytes_lookup by (subst row j; lia). unfold pixel_byte.
  destruct (tile_row_range x (y + row) n) as (-> & _); [subst row; lia..|].
  destruct (tile_row_range (px - bm_x v) (py - bm_y v) 1) as (-> & _); [lia..|].
  f_equal. subst row j. f_equal. ring.
Qed.

Lemma tile_rect_faithful x y n k data scan d :
  in_bitmap x y n k → rect_pixels (tile_rect x y n k data scan) = Some d →
  match scan with
  | Some w => u16_ok w ∧ w mod 4 = 0 ∧ 8 + len data ≤ 65535
  | None => len data ≤ 65535
  end →
  (∀ i c, 0 ≤ i < n * k → 0 ≤ c < 3 →
     d !! Z.to_nat (i * 4 + c) = tile_bytes x y n (Z.to_nat k) !! Z.to_nat (i * 4 + c)) →
  faithful (tile_rect x y n k data scan).
Proof.
  intros Hin Hd Hlen Hsame. pose proof (in_bitmap_u16 _ _ _ _ Hin). pose proof Hin as [].
  split; [split; cbn; try lia; exact Hlen|]. split.
  - unfold rect_covers, in_update, tile_rect. cbn. lia.
  - exists d. split; [done|]. unfold rect_covers, rect_byte, tile_rect.
    cbn [dest_left dest_right dest_top dest_bottom br_width].
    intros px py c Hcov Hc. rewrite Hsame; [|nia|lia]. apply tile_pixel; [done|lia..].
Qed.

Lemma compress_tile_ok policy pool x y n k :
  in_bitmap x y n k → n * k * 4 ≤ 65535 → (use_rdp6_planar policy = true → n * k * 4 ≤ 65527) →
  ∃ pool' data scan, compress_tile policy pool (tile_bytes x y n (Z.to_nat k)) n k = Ok (pool', data, scan)
  ∧ faithful (tile_rect x y n k data scan).
Proof.
  intros Hin Hsize Hplanar. pose proof Hin as [].
  destruct (len_tile_bytes x y n (Z.to_nat k)) as [Hlen Hok]; [lia..|].
  rewrite Z2Nat.id in Hlen by lia. unfold compress_tile.
  assert (faithful (tile_rect x y n k (tile_bytes x y n (Z.to_nat k)) None)) as Hraw.
  { apply (tile_rect_faithful _ _ _ _ _ _ (tile_bytes x y n (Z.to_nat k))); [done|done|lia|done]. }
  destruct (use_rdp6_planar policy && (n mod 4 =? 0)) eqn:Ep.
  2:{ unfold pooled_copy. destruct (pop pool). by do 3 eexists. }
  apply andb_true_iff in Ep as [Ep Hm%Z.eqb_eq]. specialize (Hplanar Ep).
  destruct (planar_pixels (tile_bytes x y n (Z.to_nat k)) (Z.to_nat n) (Z.to_nat k) Hok)
    as (out & d & E & Ed & Hsame); [unfold len in Hlen; lia..|].
  destruct (pop pool) as [pool' _]. rewrite E. cbn [mbind res_bind].
  destruct (Z.ltb_spec (len out) (len (tile_bytes x y n (Z.to_nat k)))).
  2:{ unfold pooled_copy. destruct (pop (pool' ++ [out])). by do 3 eexists. }
  unfold mul_u16. rewrite (proj2 (Z.ltb_lt _ _)) by nia. cbn [mbind res_bind].
  do 3 eexists. split; [done|]. apply (tile_rect_faithful _ _ _ _ _ _ d); [done|..].
  - unfold rect_pixels, tile_rect. cbn. by rewrite Ed.
  - split; [nia|]. split; [by apply Z.mod_mul|]. lia.
  - intros i c Hi Hc. specialize (Hsame (Z.to_nat i) (Z.to_nat c) ltac:(lia) ltac:(lia)).
    by replace (Z.to_nat (i * 4 + c)) with (4 * Z.to_nat i + Z.to_nat c)%nat by lia.
Qed.

Lemma push_bitmap_rect_ok policy x y n k sc stats :
  in_bitmap x y n k → n * k * 4 ≤ 65535 → (use_rdp6_planar policy = true → n * k * 4 ≤ 65527) →
  ∃ sc' stats' data scan, push_bitmap_rect v x y n k policy sc stats = Ok (sc', stats')
  ∧ rectangles sc' = rectangles sc ++ [tile_rect x y n k data scan]
  ∧ faithful (tile_rect x y n k data scan).
Proof.
  intros Hin Hsize Hplanar. pose proof Hin as []. pose proof (in_bitmap_u16 _ _ _ _ Hin).
  destruct (compress_tile_ok policy (buffer_pool sc) x y n k Hin Hsize Hplanar)
    as (pool & data & scan & E & Hf).
  unfold push_bitmap_rect. rewrite push_rows_tile by lia. cbn [mbind res_bind app negb].
  rewrite E. cbn [mbind res_bind]. unfold add_u16, sub_u16.
  rewrite (proj2 (Z.ltb_lt (bm_x v + x) _)) by lia. cbn [mbind res_bind].
  rewrite (proj2 (Z.ltb_lt (bm_y v + y) _)) by lia. cbn [mbind res_bind].
  rewrite (proj2 (Z.ltb_lt (bm_x v + x + n) _)) by lia. cbn [mbind res_bind].
  rewrite (proj2 (Z.leb_le 1 _)) by lia. cbn [mbind res_bind].
  rewrite (proj2 (Z.ltb_lt (bm_y v + y + k) _)) by lia. cbn [mbind res_bind].
  rewrite (proj2 (Z.leb_le 1 _)) by lia. cbn [mbind res_bind].
  do 4 eexists. split; [done|]. split; [done|]. exact Hf.
Qed.

(** ** The loops over the tiles *)

(** The rectangles [rs] show the region from [x] and [y] to the end of the update. *)
Definition shows_region (rs : list BitmapRect) (x y bottom : Z) : Prop :=
  Forall faithful rs
  ∧ ∀ px py, bm_x v + x ≤ px < bm_x v + bm_width v → bm_y v + y ≤ py < bm_y v + bottom →
      ∃ r, r ∈ rs ∧ rect_covers r px py.

Lemma planar_row_ok fuel policy x y k sc stats :
  bm_width v ≤ 65472 → 0 ≤ x → (Z.to_nat (bm_width v - x) ≤ fuel)%nat →
  0 ≤ y → 0 < k ≤ 64 → y + k ≤ bm_height v →
  ∃ sc' stats' rs, planar_row fuel v x y k policy sc stats = Ok (sc', stats')
  ∧ rectangles sc' = rectangles sc ++ rs ∧ shows_region rs x y (y + k).
Proof.
  intros Hw Hx Hfuel Hy Hk Hyk. revert x sc stats Hx Hfuel.
  induction fuel as [|fuel IH]; intros x sc stats Hx Hfuel; cbn [planar_row];
    destruct (Z.ltb_spec x (bm_width v)); try lia.
  1, 3: exists sc, stats, []; rewrite app_nil_r; split; [done|split; [done|split; [done|lia]]].
  unfold TILE_SIZE. set (n := Z.min 64 (bm_width v - x)).
  destruct (push_bitmap_rect_ok policy x y n k sc stats) as (sc1 & stats1 & data & scan & -> & E1 & Hf);
    [split; lia|nia|nia|]. cbn [mbind res_bind]. unfold add_u16.
  rewrite (proj2 (Z.ltb_lt _ _)) by lia. cbn [mbind res_bind].
  destruct (IH (x + 64) sc1 stats1) as (sc2 & stats2 & rs & -> & E2 & Hrs & Hcov); [lia..|].
  exists sc2, stats2, (tile_rect x y n k data scan :: rs). split; [done|].
  split; [by rewrite E2, E1, <-(assoc_L (++))|]. split; [by constructor|].
  intros px py Hpx Hpy. destruct (decide (px < bm_x v + x + n)).
  - eexists. split; [by left|]. unfold rect_covers. cbn. lia.
  - destruct (Hcov px py) as (r & Hr & Hc); [lia..|]. exists r. split; [by right|done].
Qed.

(** Two bands, one above the other. *)
Lemma shows_region_app rs1 rs2 y y' bottom :
  shows_region rs1 0 y y' → shows_region rs2 0 y' bottom → shows_region (rs1 ++ rs2) 0 y bottom.
Proof.
  intros [F1 C1] [F2 C2]. split; [by apply Forall_app|]. intros px py Hpx Hpy.
  destruct (decide (py < bm_y v + y')).
  - destruct (C1 px py) as (r & Hr & Hc); [lia..|]. exists r. split; [apply elem_of_app; by left|done].
  - destruct (C2 px py) as (r & Hr & Hc); [lia..|]. exists r. split; [apply elem_of_app; by right|done].
Qed.

Lemma planar_rows_ok fuel policy y sc stats :
  bm_width v ≤ 65472 → bm_height v ≤ 65472 → 0 ≤ y → (Z.to_nat (bm_height v - y) ≤ fuel)%nat →
  ∃ sc' stats' rs, planar_rows fuel v y policy sc stats = Ok (sc', stats')
  ∧ rectangles sc' = rectangles sc ++ rs ∧ shows_region rs 0 y (bm_height v).
Proof.
  intros Hw Hh. revert y sc stats.
  induction fuel as [|fuel IH]; intros y sc stats Hy Hfuel; cbn [planar_rows];
    destruct (Z.ltb_spec y (bm_height v)); try lia.
  1, 3: exists sc, stats, []; rewrite app_nil_r; split; [done|split; [done|split; [done|lia]]].
  unfold TILE_SIZE. set (k := Z.min 64 (bm_height v - y)).
  destruct (planar_row_ok (Z.to_nat (bm_width v)) policy 0 y k sc stats) as (sc1 & stats1 & rs1 & -> & E1 & R1);
    [lia..|]. cbn [mbind res_bind]. unfold add_u16.
  rewrite (proj2 (Z.ltb_lt _ _)) by lia. cbn [mbind res_bind].
  destruct (IH (y + 64) sc1 stats1) as (sc2 & stats2 & rs2 & -> & E2 & R2); [lia..|].
  exists sc2, stats2, (rs1 ++ rs2). split; [done|]. split; [by rewrite E2, E1, <-(assoc_L (++))|].
  destruct (decide (k = 64)) as [->|Hk]; [by apply (shows_region_app _ _ _ _ _ R1)|].
  replace (y + k) with (bm_height v) in R1 by lia. destruct R1 as [F1 C1], R2 as [F2 _].
  split; [by apply Forall_app|]. intros px py Hpx Hpy.
  destruct (C1 px py Hpx Hpy) as (r & Hr & Hc). exists r. split; [apply elem_of_app; by left|done].
Qed.

Lemma strip_height : bm_width v ≤ 16383 →
  0 < max_raw_strip_height (bm_width v) ∧ bm_width v * max_raw_strip_height (bm_width v) * 4 ≤ 65535.
Proof.
  intros Hw. pose proof (view_width _ _ Hv) as [W0 _]. unfold max_raw_strip_height, saturating_mul, USIZE_MAX.
  rewrite Z.min_l, (proj2 (Z.eqb_neq _ _)) by lia.
  assert (1 ≤ 65535 / (bm_width v * 4) ≤ 65535) as Hd.
  { split; [apply Z.div_le_lower_bound; lia|]. apply Z.div_le_upper_bound; nia. }
  rewrite as_u16_id by lia. rewrite Z.max_l by lia. split; [lia|].
  pose proof (Z.mul_div_le 65535 (bm_width v * 4)). lia.
Qed.

Lemma raw_rows_ok fuel policy sh y sc stats :
  use_rdp6_planar policy = false → 0 < sh → bm_width v * sh * 4 ≤ 65535 →
  0 ≤ y ≤ bm_height v → (Z.to_nat (bm_height v - y) ≤ fuel)%nat →
  ∃ sc' stats' rs, raw_rows fuel v sh y policy sc stats = Ok (sc', stats')
  ∧ rectangles sc' = rectangles sc ++ rs ∧ shows_region rs 0 y (bm_height v).
Proof.
  intros Hpol Hsh Hsize. pose proof (view_width _ _ Hv) as [W0 _]. revert y sc stats.
  induction fuel as [|fuel IH]; intros y sc stats Hy Hfuel; cbn [raw_rows];
    destruct (Z.ltb_spec y (bm_height v)); try lia.
  1, 3: exists sc, stats, []; rewrite app_nil_r; split; [done|split; [done|split; [done|lia]]].
  set (k := Z.min sh (bm_height v - y)).
  destruct (push_bitmap_rect_ok policy 0 y (bm_width v) k sc stats)
    as (sc1 & stats1 & data & scan & -> & E1 & Hf); [split; lia|nia|congruence|].
  cbn [mbind res_bind]. unfold add_u16.
  destruct (in_bitmap_u16 0 y (bm_width v) k) as (_ & _ & ? & ?); [split; lia|].
  pose proof (view_y _ _ Hv). rewrite (proj2 (Z.ltb_lt _ _)) by lia. cbn [mbind res_bind].
  destruct (IH (y + k) sc1 stats1) as (sc2 & stats2 & rs2 & -> & E2 & R2); [lia..|].
  exists sc2, stats2, ([tile_rect 0 y (bm_width v) k data scan] ++ rs2). split; [done|].
  split; [by rewrite E2, E1, <-(assoc_L (++))|]. apply (shows_region_app _ _ _ (y + k)); [|done].
  split; [by constructor|]. intros px py Hpx Hpy. eexists. split; [by apply list_elem_of_singleton|].
  unfold rect_covers. cbn. lia.
Qed.

(** ** Painting *)

(** A screen on which the rectangles [rs] have been painted. *)
Definition painted (cv : canvas) (rs : list BitmapRect) (cv' : canvas) : Prop :=
  ∀ px py c, 0 ≤ c < 3 →
    cv' px py c = if decide (Exists (λ r, rect_covers r px py) rs) then pixel_byte v px py c else cv px py c.

Lemma paint_rects_faithful cv rs :
  Forall faithful rs → ∃ cv', paint_rects cv rs = Some cv' ∧ painted cv rs cv'.
Proof.
  intros Hrs. revert cv. induction Hrs as [|r rs (_ & _ & d & Hd & Hpx) _ IH]; intros cv.
  { exists cv. split; [done|]. intros px py c _. by rewrite decide_False by (by intros ?%Exists_nil). }
  cbn [paint_rects]. unfold paint_rect. rewrite Hd. cbn [mbind option_bind].
  match goal with |- context [paint_rects ?cv1 rs] => destruct (IH cv1) as (cv' & E & Hcv') end.
  exists cv'. split; [done|]. intros px py c Hc. rewrite (Hcv' px py c Hc).
  destruct (decide (Exists (λ r, rect_covers r px py) rs)) as [H|H].
  - by rewrite decide_True by (by apply Exists_cons; right).
  - destruct (decide (rect_covers r px py)) as [Hr|Hr].
    + rewrite decide_True by (apply Exists_cons; by left). by apply Hpx.
    + by rewrite decide_False by (by intros [?|?]%Exists_cons).
Qed.

Lemma painted_app cv rs1 rs2 cv1 cv2 :
  painted cv rs1 cv1 → painted cv1 rs2 cv2 → painted cv (rs1 ++ rs2) cv2.
Proof.
  intros H1 H2 px py c Hc. rewrite (H2 px py c Hc), (H1 px py c Hc).
  repeat case_decide; try done; rewrite Exists_app in *; tauto.
Qed.

Lemma push_batches_ok cs mrs batches stats :
  Forall (Forall faithful) cs → Forall (λ c, len c < 2 ^ 16) cs →
  ∃ bs stats', push_batches cs mrs batches stats = Ok (batches ++ bs, stats')
  ∧ Forall small_frame (concat bs)
  ∧ ∀ cv, ∃ cv', client_frames (cv, None) (concat bs) = Some (cv', None) ∧ painted cv (concat cs) cv'.
Proof.
  intros Hcs Hlen. revert batches stats. induction Hcs as [|rs cs Hrs _ IH]; intros batches stats.
  { exists [], stats. rewrite app_nil_r. split; [done|]. split; [constructor|]. intros cv. exists cv.
    split; [done|]. intros px py c _. by rewrite decide_False by (by intros ?%Exists_nil). }
  apply Forall_cons in Hlen as [Hl Hlen]. cbn [push_batches]. unfold encode_rectangles_to_wire_frames.
  destruct (encode_rectangles_ok rs) as (body & -> & Ebody & Hne & _); [|done|].
  { eapply Forall_impl; [exact Hrs|]. by intros r [Hr _]. }
  cbn [mbind res_bind].
  assert (∃ frames, encode_update_to_wire_frames UPDATE_CODE_BITMAP body mrs = Ok frames) as (frames & E).
  { destruct (wire_frames_ok client_update UPDATE_CODE_BITMAP body mrs (λ _ _ _, None)) as (frames & E & _); [done..|].
    by exists frames. }
  rewrite E. cbn [mbind res_bind].
  match goal with |- context [push_batches cs mrs ?b ?st] =>
    destruct (IH Hlen b st) as (bs & stats' & Eb & Hsm & Hpaint) end.
  exists (frames :: bs), stats'. rewrite Eb, <-(assoc_L (++)). split; [done|]. cbn [concat]. split.
  - apply Forall_app. split; [|done].
    destruct (wire_frames_ok client_update UPDATE_CODE_BITMAP body mrs (λ _ _ _, None))
      as (frames' & E' & Hf & _); [done..|]. by rewrite E in E'; injection E' as <-.
  - intros cv. destruct (wire_frames_ok client_update UPDATE_CODE_BITMAP body mrs cv)
      as (frames' & E' & _ & _ & Hcl); [done..|]. rewrite E in E'. injection E' as <-.
    destruct (paint_rects_faithful cv rs Hrs) as (cv1 & Ep & H1).
    assert (client_update cv UPDATE_CODE_BITMAP body = Some cv1) as Eu
      by (unfold client_update; by rewrite Z.eqb_refl, Ebody).
    unfold client_frames. rewrite assemble_frames_app, Hcl, Eu. cbn [mbind option_bind].
    change (assemble_frames client_update) with client_frames.
    destruct (Hpaint cv1) as (cv2 & -> & H2). exists cv2. split; [done|]. by apply (painted_app _ _ _ cv1).
Qed.

(** What the client shows: the pixels of the update, and around it what it showed. *)
Lemma painted_region cv rs cv' px py c :
  shows_region rs 0 0 (bm_height v) → painted cv rs cv' → 0 ≤ c < 3 →
  cv' px py c = paint cv v px py c.
Proof.
  intros [Hf Hcov] Hp Hc. rewrite (Hp px py c Hc). unfold paint.
  destruct (decide (in_update v px py)) as [[Hx Hy]|Hin].
  - rewrite decide_True; [done|]. apply Exists_exists. apply Hcov; lia.
  - rewrite decide_False; [done|]. intros (r & Hr & Hrc)%Exists_exists.
    apply Hin. rewrite Forall_forall in Hf. by apply (Hf r Hr).
Qed.

Lemma encode_bitmap_update_ok name mrs sc :
  bm_width v ≤ 16383 → bm_height v ≤ 65472 → mrs < 2 ^ 28 →
  ∃ sc' stats, encode_bitmap_update v (bitmap_encode_policy name None mrs) sc = Ok (sc', stats)
  ∧ Forall small_frame (concat (sc_batches sc'))
  ∧ ∀ cv, ∃ cv', client_frames (cv, None) (concat (sc_batches sc')) = Some (cv', None)
    ∧ ∀ px py c, 0 ≤ c < 3 → cv' px py c = paint cv v px py c.
Proof.
  intros Hw Hh Hmrs. unfold encode_bitmap_update.
  set (policy := bitmap_encode_policy name None mrs).
  assert (0 < max_rects_per_update policy < 2 ^ 16) as Hmax.
  { assert (mrs / 8192 < 2 ^ 16) by (apply Z.div_lt_upper_bound; lia).
    unfold policy, bitmap_encode_policy, COMPAT_MAX_RECTS_PER_UPDATE.
    cbn [max_rects_per_update]. case_match; lia. }
  set (sc0 := {| rectangles := []; tile_scratch := []; sc_batches := [];
                 buffer_pool := buffer_pool sc ++ (br_data <$> rectangles sc) |}).
  assert (∃ sc1 stats1 rs, (if use_rdp6_planar policy
     then planar_rows (Z.to_nat (bm_height v)) v 0 policy sc0 BitmapWireStats_default
     else raw_rows (Z.to_nat (bm_height v)) v (max_raw_strip_height (bm_width v)) 0 policy sc0
            BitmapWireStats_default) = Ok (sc1, stats1)
    ∧ rectangles sc1 = [] ++ rs ∧ shows_region rs 0 0 (bm_height v)) as (sc1 & stats1 & rs & E & Er & Hrs).
  { pose proof (view_height _ _ Hv) as [H0 _]. destruct (strip_height Hw).
    destruct (use_rdp6_planar policy) eqn:Ep.
    - apply (planar_rows_ok _ policy 0 sc0); lia.
    - apply (raw_rows_ok _ policy _ 0 sc0); done || lia. }
  rewrite E. cbn [mbind res_bind]. cbn [app] in Er. rewrite Er.
  set (n := Z.min (max_rects_per_update policy) (Z.max (len rs) 1)).
  assert (0 < n < 2 ^ 16) as Hn by lia.
  destruct (push_batches_ok (chunks n rs) (max_request_size policy) [] stats1)
    as (bs & stats' & Eb & Hsm & Hpaint).
  - destruct Hrs as [Hf _]. rewrite <-(concat_chunks n ltac:(lia) rs) in Hf.
    by apply Forall_concat.
  - eapply Forall_impl; [apply chunks_bound; lia|]. intros c Hc. cbn in Hc. lia.
  - rewrite Eb. cbn [mbind res_bind]. do 2 eexists. split; [done|]. cbn [sc_batches app].
    split; [done|]. intros cv. destruct (Hpaint cv) as (cv' & Ecl & Hp). exists cv'. split; [done|].
    intros px py c Hc. rewrite (concat_chunks n ltac:(lia)) in Hp. by apply (painted_region cv rs).
Qed.
End tiles.

(** ** Properties *)

(** C21. What is sent is what is shown.  For a view of a captured frame (at most 16383 by
    65472 pixels), the planar policy or the raw strips of a client known by its name, and
    any size the client can reassemble, encoding neither panics nor loops, and every
    frame has at most 16380 bytes.  A client that puts the fragments together, decodes
    the rectangles (planar or raw) and paints them bottom-up shows exactly the colours
    of the view, and around it what it showed before.  What is left in the scratch
    buffers of earlier updates does not matter. *)
Theorem encode_bitmap_update_paints w h u v name mrs sc cv :
  full_frame w h u → bytes_ok (bm_data u) → view_of u v →
  bm_width v ≤ 16383 → bm_height v ≤ 65472 → mrs < 2 ^ 28 →
  ∃ sc' stats cv', encode_bitmap_update v (bitmap_encode_policy name None mrs) sc = Ok (sc', stats)
  ∧ Forall (λ f, len f ≤ 16380) (concat (sc_batches sc'))
  ∧ client_frames (cv, None) (concat (sc_batches sc')) = Some (cv', None)
  ∧ ∀ px py c, 0 ≤ c < 3 → cv' px py c = paint cv v px py c.
Proof.
  intros Hu Hb Hv Hw Hh Hm.
  destruct (encode_bitmap_update_ok w h u v Hu Hb Hv name mrs sc Hw Hh Hm)
    as (sc' & stats & E & Hsm & Hcl).
  destruct (Hcl cv) as (cv' & Ecl & Hcv). exists sc', stats, cv'. done.
Qed.

(** Four pixels in a row: one planar tile. *)
Definition four_pixels : BitmapUpdate :=
  {| bm_x := 0; bm_y := 0; bm_width := 4; bm_height := 1; format := BgrX32;
     bm_data := [7; 8; 9; 0; 7; 8; 9; 0; 7; 8; 9; 0; 1; 2; 3; 0]; bm_stride := 16;
     src_x := 0; src_y := 0 |}.

Lemma encode_bitmap_update_paints_witness :
  ∃ sc' stats cv', encode_bitmap_update four_pixels (bitmap_encode_policy (lit "win") None 16374)
      EncodeScratch_default = Ok (sc', stats)
  ∧ client_frames (λ _ _ _, Some 0, None) (concat (sc_batches sc')) = Some (cv', None)
  ∧ cv' 3 0 1 = Some 2.
Proof.
  destruct (encode_bitmap_update_paints 4 1 four_pixels four_pixels (lit "win") 16374
    EncodeScratch_default (λ _ _ _, Some 0)) as (sc' & stats & cv' & E & _ & Ecl & Hcv).
  - by split.
  - by repeat constructor.
  - by split.
  - done.
  - done.
  - done.
  - exists sc', stats, cv'. split; [done|]. split; [done|]. by rewrite Hcv.
Defined.

(** A square of 64 by 64 pixels. *)
Definition square : BitmapUpdate :=
  {| bm_x := 0; bm_y := 0; bm_width := 64; bm_height := 64; format := BgrX32;
     bm_data := replicate 16384 0; bm_stride := 256; src_x := 0; src_y := 0 |}.

(** The size of the update that a sequence of frames carries. *)
Definition reassembled_size (frames : list bytes) : Z :=
  foldr (λ f n, n + match FastPathOutput_decode f with
                    | Ok us => foldr (λ u m, len (fp_data u) + m) 0 us | _ => 0 end) 0 frames.

(** The budget of 8192 bytes per rectangle does not hold for raw rectangles: for a
    client known by its name, one strip of a 64 by 64 square makes an update that is
    larger than the [MaxRequestSize] it was encoded for. *)
Theorem raw_update_exceeds_request_size :
  ∃ sc stats batch,
    encode_bitmap_update square (bitmap_encode_policy (lit "Mac") None MAX_FASTPATH_CHUNK_SIZE)
      EncodeScratch_default = Ok (sc, stats)
  ∧ sc_batches sc = [batch] ∧ MAX_FASTPATH_CHUNK_SIZE < reassembled_size batch.
Proof.
  assert (match encode_bitmap_update square
      (bitmap_encode_policy (lit "Mac") None MAX_FASTPATH_CHUNK_SIZE) EncodeScratch_default with
    | Ok (sc, _) => match sc_batches sc with
                    | [batch] => MAX_FASTPATH_CHUNK_SIZE <? reassembled_size batch | _ => false end
    | _ => false end = true) as H by (vm_compute; reflexivity).
  destruct (encode_bitmap_update square _ _) as [[sc stats]| |]; [|done..].
  destruct (sc_batches sc) as [|batch [|]] eqn:E; [done| |done].
  exists sc, stats, batch. split; [done|]. split; [done|]. by apply Z.ltb_lt.
Qed.
