(* ===== verification/NsCodec.v ===== *)
(** [rdpcore-pdu/src/nscodec.rs]: the NSCodec encoder, colour planes and run lengths. *)
From S2P Require Import Prelude Cursor Diff.

Definition RLE_LONG_ESCAPE : Z := 0xFF.

Definition clamp (lo hi x : Z) : Z := Z.min (Z.max x lo) hi.

Definition rgb_to_ycocg (r g b cll : Z) : Z * Z * Z :=
  let y := clamp 0 255 (Z.shiftr r 2 + Z.shiftr g 1 + Z.shiftr b 2) in
  let co_raw := Z.shiftr (r - b) cll in
  let cg_raw := Z.shiftr (- Z.shiftr r 1 + g - Z.shiftr b 1) cll in
  (y, as_u8 (clamp (-128) 127 co_raw), as_u8 (clamp (-128) 127 cg_raw)).

(** The bytes of [l] before the first that is not [v]. *)
Fixpoint run_of (v : Z) (l : bytes) : Z :=
  match l with
  | x :: l => if x =? v then 1 + run_of v l else 0
  | [] => 0
  end.

Definition run_segment (v run : Z) : bytes :=
  if run =? 1 then [v]
  else if run <=? 255 then [v; v; as_u8 (run - 2)]
  else [v; v; RLE_LONG_ESCAPE] ++ to_le 4 (Z.min run (2 ^ 32 - 1)).

(** [while i < body_end]: [l] is [plane[i..body_end]]; the run stops at the first count
    that is not a [u32]. *)
Fixpoint rle_loop (fuel : nat) (l : bytes) : bytes :=
  match fuel, l with
  | S fuel, v :: l' =>
    let run := Z.min (1 + run_of v l') (2 ^ 32) in
    run_segment v run ++ rle_loop fuel (zdrop run l)
  | _, _ => []
  end.

Definition rle_encode (plane : bytes) : bytes :=
  let n := len plane in
  if n <=? 4 then plane
  else
    let body_end := n - 4 in
    rle_loop (length plane) (ztake body_end plane) ++ zdrop body_end plane.

Definition rle_encode_const (val n : Z) : bytes :=
  if n <=? 4 then replicate (Z.to_nat n) val
  else
    let body_end := n - 4 in
    (if body_end =? 1 then [val]
     else if body_end <=? 255 then [val; val; as_u8 (body_end - 2)]
     else [val; val; RLE_LONG_ESCAPE] ++ to_le 4 (Z.min body_end (2 ^ 32 - 1)))
    ++ replicate 4 val.

(** One pixel, [data[off]], [data[off + 1]], [data[off + 2]]. *)
Definition nsc_pixel (data : bytes) (off cll : Z) : res DecodeError (Z * Z * Z) :=
  b ← index data off;
  g ← index data (off + 1);
  r ← index data (off + 2);
  Ok (rgb_to_ycocg r g b cll).

Fixpoint nsc_row (data : bytes) (off cll : Z) (n : nat) : res DecodeError (list (Z * Z * Z)) :=
  match n with
  | O => Ok []
  | S n => p ← nsc_pixel data off cll; ps ← nsc_row data (off + 4) cll n; Ok (p :: ps)
  end.
(** The rows [h - 1] down to 0. *)
Fixpoint nsc_rows (data : bytes) (w : nat) (stride cll : Z) (h : nat)
  : res DecodeError (list (Z * Z * Z)) :=
  match h with
  | O => Ok []
  | S row =>
    ps ← nsc_row data (Z.of_nat row * stride) cll w;
    qs ← nsc_rows data w stride cll row;
    Ok (ps ++ qs)
  end.

Definition checked_add_usize (a b : Z) : option Z := if a + b <=? USIZE_MAX then Some (a + b) else None.

Definition required_len (w h stride : Z) : option Z :=
  row_offset ← checked_mul_usize (h - 1) stride;
  row_bytes ← checked_mul_usize w 4;
  checked_add_usize row_offset row_bytes.

(** [plane_len]: [u32::try_from(rle.len())] *)
Definition plane_len (rle : bytes) : Z := Z.min (len rle) (2 ^ 32 - 1).

Definition nscodec_encode (data : bytes) (width height stride color_loss_level : Z)
  : res DecodeError bytes :=
  let cll := clamp 1 7 color_loss_level in
  if (width =? 0) || (height =? 0) then Ok []
  else
    match required_len width height stride with
    | None => Ok []
    | Some required =>
      if len data <? required then Ok []
      else
        px ← nsc_rows data (Z.to_nat width) stride cll (Z.to_nat height);
        let y_rle := rle_encode ((λ p : Z * Z * Z, p.1.1) <$> px) in
        let co_rle := rle_encode ((λ p : Z * Z * Z, p.1.2) <$> px) in
        let cg_rle := rle_encode ((λ p : Z * Z * Z, p.2) <$> px) in
        let a_rle := rle_encode_const 0xFF (width * height) in
        Ok (to_le 4 (plane_len y_rle) ++ to_le 4 (plane_len co_rle) ++ to_le 4 (plane_len cg_rle)
            ++ to_le 4 (plane_len a_rle) ++ [cll; 0; 0; 0]
            ++ y_rle ++ co_rle ++ cg_rle ++ a_rle)
    end.

(** ** Decoding run lengths *)

(** The rules of the format: the last four bytes of a plane are literal, and so is the
    byte before them; elsewhere a byte and its repetition introduce a run. *)
Fixpoint rle_decode (fuel : nat) (left : Z) (l : bytes) : option bytes :=
  if left <=? 4 then (if len l =? left then Some l else None)
  else
    match fuel, l with
    | S fuel, v :: l =>
      if left =? 5 then (λ d, v :: d) <$> rle_decode fuel (left - 1) l
      else
        match l with
        | v' :: n :: l' =>
          if v' =? v then
            if n <? 255 then (λ d, replicate (Z.to_nat (n + 2)) v ++ d) <$> rle_decode fuel (left - (n + 2)) l'
            else
              let run := from_le (ztake 4 l') in
              (λ d, replicate (Z.to_nat run) v ++ d) <$> rle_decode fuel (left - run) (zdrop 4 l')
          else (λ d, v :: d) <$> rle_decode fuel (left - 1) l
        | _ => None
        end
    | _, _ => None
    end.

(** ** Run lengths *)

Lemma run_of_spec v l :
  0 ≤ run_of v l ≤ len l ∧ l = replicate (Z.to_nat (run_of v l)) v ++ zdrop (run_of v l) l
  ∧ ∀ x l', zdrop (run_of v l) l = x :: l' → x ≠ v.
Proof.
  induction l as [|y l (H1 & H2 & H3)]; cbn [run_of]; [by split_and!|].
  rewrite len_cons. destruct (Z.eqb_spec y v) as [->|Hne].
  - split; [lia|]. replace (zdrop (1 + run_of v l) (v :: l)) with (zdrop (run_of v l) l).
    + replace (Z.to_nat (1 + run_of v l)) with (S (Z.to_nat (run_of v l))) by lia.
      cbn [replicate app]. split; [by f_equal|done].
    + unfold zdrop. by replace (Z.to_nat (1 + run_of v l)) with (S (Z.to_nat (run_of v l))) by lia.
  - pose proof (len_nonneg l). split; [lia|]. split; [done|]. rewrite zdrop_0. by intros x l' [= <- _].
Qed.

Lemma run_segment_head v run : ∃ s, run_segment v run = v :: s.
Proof. unfold run_segment. repeat case_match; by eexists. Qed.

Lemma rle_decode_run fuel left v run rest d :
  2 ≤ run < 2 ^ 32 → run + 4 ≤ left → rle_decode fuel (left - run) rest = Some d →
  rle_decode (S fuel) left (run_segment v run ++ rest) = Some (replicate (Z.to_nat run) v ++ d).
Proof.
  intros Hrun Hleft Hd. cbn [rle_decode]. rewrite (proj2 (Z.leb_gt left 4)) by lia.
  unfold run_segment. rewrite (proj2 (Z.eqb_neq run 1)) by lia. destruct (Z.leb_spec run 255).
  - cbn [app]. rewrite (proj2 (Z.eqb_neq left 5)), Z.eqb_refl by lia. rewrite as_u8_id by lia.
    rewrite (proj2 (Z.ltb_lt _ _)) by lia. rewrite Z.sub_add, Hd. done.
  - cbn [app]. rewrite (proj2 (Z.eqb_neq left 5)), Z.eqb_refl by lia. cbn [Z.ltb].
    rewrite Z.min_l by lia. change (RLE_LONG_ESCAPE <? 255) with false. cbn match zeta.
    rewrite ztake_app_len, zdrop_app_len by (by rewrite len_to_le).
    rewrite from_to_le, Z.mod_small by lia. by rewrite Hd.
Qed.

(** The last literal, or a literal before a different byte. *)
Lemma rle_decode_literal fuel left v rest d :
  5 ≤ left → (left ≠ 5 → ∃ x y s, rest = x :: y :: s ∧ x ≠ v) →
  rle_decode fuel (left - 1) rest = Some d →
  rle_decode (S fuel) left (v :: rest) = Some (v :: d).
Proof.
  intros Hleft Hnext Hd. cbn [rle_decode]. rewrite (proj2 (Z.leb_gt left 4)) by lia.
  destruct (Z.eqb_spec left 5) as [|Hne]; [by rewrite Hd|].
  destruct (Hnext Hne) as (x & y & s & -> & Hx). rewrite (proj2 (Z.eqb_neq x v)) by done.
  by rewrite Hd.
Qed.

Lemma rle_loop_decode fuel fuel' l tail :
  (length l ≤ fuel)%nat → (length l ≤ fuel')%nat → len l < 2 ^ 32 → len tail = 4 →
  rle_decode fuel' (len l + 4) (rle_loop fuel l ++ tail) = Some (l ++ tail).
Proof.
  intros Hf Hf' Hl Ht. revert fuel' l Hf Hf' Hl. induction fuel as [|fuel IH]; intros fuel' l Hf Hf' Hl.
  { destruct l; [|cbn in Hf; lia]. destruct fuel'; cbn [rle_decode rle_loop app];
      rewrite len_nil, Z.add_0_l, Z.leb_refl, Ht; done. }
  destruct l as [|v l'].
  { destruct fuel'; cbn [rle_decode rle_loop app]; rewrite len_nil, Z.add_0_l, Z.leb_refl, Ht; done. }
  destruct fuel' as [|fuel']; [cbn in Hf'; lia|]. cbn [rle_loop].
  destruct (run_of_spec v l') as (H1 & H2 & H3). rewrite len_cons in *.
  rewrite Z.min_l by lia. set (run := 1 + run_of v l'). set (rest := zdrop run (v :: l')).
  assert (rest = zdrop (run_of v l') l') as Erest.
  { subst rest run. unfold zdrop.
    by replace (Z.to_nat (1 + run_of v l')) with (S (Z.to_nat (run_of v l'))) by lia. }
  assert (v :: l' = replicate (Z.to_nat run) v ++ rest) as E.
  { rewrite Erest. subst run.
    replace (Z.to_nat (1 + run_of v l')) with (S (Z.to_nat (run_of v l'))) by lia.
    cbn [replicate app]. by f_equal. }
  assert (len rest = 1 + len l' - run) as Hrest by (rewrite Erest, len_zdrop by lia; lia).
  assert (rle_decode fuel' (len rest + 4) (rle_loop fuel rest ++ tail) = Some (rest ++ tail)) as Hdec.
  { cbn [length] in Hf, Hf'. apply IH; unfold len in *; lia. }
  rewrite <-(assoc_L (++)).
  replace (Some ((v :: l') ++ tail)) with (Some (replicate (Z.to_nat run) v ++ rest ++ tail))
    by (rewrite (assoc_L (++)), <-E; done).
  destruct (decide (run = 1)) as [Hone|Hne].
  - rewrite Hone. cbn [run_segment Z.eqb Pos.eqb app Z.to_nat Pos.to_nat Pos.iter_op replicate].
    apply rle_decode_literal; [lia| |].
    + intros Hne5. destruct rest as [|x rest'] eqn:Er; [rewrite len_nil in Hrest; lia|].
      assert (x ≠ v) as Hx by (apply (H3 x rest'); congruence).
      destruct fuel as [|fuel]; [cbn [length] in Hf; unfold len in *; cbn [length] in *; lia|].
      cbn [rle_loop]. destruct (run_segment_head x (Z.min (1 + run_of x rest') (2 ^ 32))) as (s & ->).
      cbn [app]. destruct tail as [|t tail]; [done|].
      destruct (s ++ rle_loop fuel _) as [|y s']; cbn [app]; eauto.
      all: do 3 eexists; done.
    + by replace (1 + len l' + 4 - 1) with (len rest + 4) by lia.
  - apply rle_decode_run; [lia|lia|]. by replace (1 + len l' + 4 - run) with (len rest + 4) by lia.
Qed.

Lemma rle_decode_encode plane :
  len plane < 2 ^ 32 → rle_decode (length plane) (len plane) (rle_encode plane) = Some plane.
Proof.
  intros Hl. unfold rle_encode. destruct (Z.leb_spec (len plane) 4) as [H4|H4].
  - destruct plane; cbn [length rle_decode]; rewrite (proj2 (Z.leb_le _ _)), Z.eqb_refl by lia; done.
  - assert (len (ztake (len plane - 4) plane) = len plane - 4) as Hb by (apply len_ztake; lia).
    pose proof (rle_loop_decode (length plane) (length plane) (ztake (len plane - 4) plane)
      (zdrop (len plane - 4) plane)) as H. rewrite Hb, Z.sub_add, ztake_zdrop in H.
    apply H; [unfold len in *; lia..|rewrite len_zdrop; lia].
Qed.

(** The run of a constant plane. *)
Lemma run_of_replicate v n : run_of v (replicate n v) = Z.of_nat n.
Proof. induction n as [|n IH]; [done|]. cbn [replicate run_of]. rewrite Z.eqb_refl, IH. lia. Qed.

Lemma rle_encode_replicate v n :
  0 ≤ n → n - 4 < 2 ^ 32 → rle_encode (replicate (Z.to_nat n) v) = rle_encode_const v n.
Proof.
  intros H0 Hn. unfold rle_encode, rle_encode_const. rewrite len_replicate, Z2Nat.id by lia.
  destruct (Z.leb_spec n 4) as [H4|H4]; [done|]. unfold ztake, zdrop.
  rewrite take_replicate, drop_replicate, length_replicate.
  replace (Z.to_nat (n - 4) `min` Z.to_nat n)%nat with (S (Z.to_nat (n - 5))) by lia.
  replace (Z.to_nat n - Z.to_nat (n - 4))%nat with 4%nat by lia.
  destruct (Z.to_nat n) as [|fuel] eqn:Ef; [lia|]. cbn [replicate rle_loop].
  rewrite run_of_replicate. replace (1 + Z.of_nat (Z.to_nat (n - 5))) with (n - 4) by lia.
  rewrite Z.min_l by lia. rewrite (zdrop_all (n - 4)).
  2:{ rewrite len_cons, len_replicate. lia. }
  unfold run_segment. f_equal. destruct fuel; cbn [rle_loop]; by rewrite app_nil_r.
Qed.

(** ** Planes *)

Section planes.
Context (data : bytes) (w : nat) (stride cll : Z).

(** The pixel whose bytes start at [off]. *)
Definition pixel_ycocg (off : Z) (p : Z * Z * Z) : Prop :=
  ∃ b g r, data !! Z.to_nat off = Some b ∧ data !! Z.to_nat (off + 1) = Some g
  ∧ data !! Z.to_nat (off + 2) = Some r ∧ p = rgb_to_ycocg r g b cll.

Lemma nsc_row_ok off n :
  0 ≤ off → off + Z.of_nat n * 4 ≤ len data →
  ∃ ps, nsc_row data off cll n = Ok ps ∧ length ps = n
  ∧ ∀ col, (col < n)%nat → ∃ p, ps !! col = Some p ∧ pixel_ycocg (off + Z.of_nat col * 4) p.
Proof.
  revert off. induction n as [|n IH]; intros off H0 Hl.
  { exists []. split; [done|]. split; [done|]. intros; lia. }
  cbn [nsc_row]. unfold nsc_pixel.
  destruct (index_in data off) as (b & -> & Eb); [lia|].
  destruct (index_in data (off + 1)) as (g & -> & Eg); [lia|].
  destruct (index_in data (off + 2)) as (r & -> & Er); [lia|]. cbn [mbind res_bind].
  destruct (IH (off + 4)) as (ps & -> & Hn & Hps); [lia..|]. cbn [mbind res_bind].
  eexists. split; [done|]. split; [cbn; congruence|]. intros [|col] Hcol.
  - eexists. split; [done|]. exists b, g, r. by rewrite Z.mul_0_l, Z.add_0_r.
  - destruct (Hps col) as (p & Ep & Hp); [lia|]. exists p. split; [done|].
    by replace (off + Z.of_nat (S col) * 4) with (off + 4 + Z.of_nat col * 4) by lia.
Qed.

(** Bottom-up: row [h - 1] comes first. *)
Lemma nsc_rows_ok h :
  0 ≤ stride → (h = 0%nat ∨ (Z.of_nat h - 1) * stride + Z.of_nat w * 4 ≤ len data) →
  ∃ px, nsc_rows data w stride cll h = Ok px ∧ length px = (w * h)%nat
  ∧ ∀ row col, (row < h)%nat → (col < w)%nat →
      ∃ p, px !! ((h - 1 - row) * w + col)%nat = Some p
         ∧ pixel_ycocg (Z.of_nat row * stride + Z.of_nat col * 4) p.
Proof.
  intros Hs. induction h as [|h IH]; intros Hl.
  { exists []. split; [done|]. split; [cbn; lia|]. intros; lia. }
  destruct Hl as [|Hl]; [done|]. cbn [nsc_rows].
  destruct (nsc_row_ok (Z.of_nat h * stride) w) as (ps & -> & Hn & Hps); [lia..|]. cbn [mbind res_bind].
  destruct IH as (qs & -> & Hm & Hqs); [destruct h; [by left|right; nia]|]. cbn [mbind res_bind].
  eexists. split; [done|]. split; [rewrite length_app; lia|]. intros row col Hrow Hcol.
  destruct (decide (row = h)) as [->|Hne].
  - replace ((S h - 1 - h) * w + col)%nat with col by lia. rewrite lookup_app_l by lia. by apply Hps.
  - rewrite lookup_app_r by (rewrite Hn; nia).
    replace ((S h - 1 - row) * w + col - length ps)%nat with ((h - 1 - row) * w + col)%nat by (rewrite Hn; nia).
    apply Hqs; lia.
Qed.
End planes.

(** *** A client of the format *)

(** The colour-loss level and the four planes, by the lengths of the header. *)
Definition nsc_message : reader (Z * (bytes * bytes * bytes * bytes)) :=
  y_len ← read_u32_le;
  co_len ← read_u32_le;
  cg_len ← read_u32_le;
  a_len ← read_u32_le;
  cll ← read_u8;
  _ ← read_u8;
  _ ← read_u16_le;
  y ← read_slice y_len;
  co ← read_slice co_len;
  cg ← read_slice cg_len;
  a ← read_slice a_len;
  mret (cll, (y, co, cg, a)).

(** A plane with fewer bytes than pixels has run lengths, any other is raw. *)
Definition nsc_plane (n : Z) (data : bytes) : option bytes :=
  if len data <? n then rle_decode (Z.to_nat n) n data else Some (ztake n data).

(** The chroma bytes are signed and lose [cll - 1] bits more than the encoder's halves did. *)
Definition to_byte (z : Z) : Z := Z.max 0 (Z.min 255 z).
Definition nsc_colour (cll y co cg : Z) : Z * Z * Z :=
  let co := as_i8 (co * 2 ^ (cll - 1)) in
  let cg := as_i8 (cg * 2 ^ (cll - 1)) in
  (to_byte (y + co - cg), to_byte (y + cg), to_byte (y - co - cg)).

(** The pixels of a message of [n] pixels: red, green, blue and alpha. *)
Fixpoint nsc_pixels (cll : Z) (y co cg a : bytes) : list (Z * Z * Z * Z) :=
  match y, co, cg, a with
  | y :: ys, co :: cos, cg :: cgs, a :: al => (nsc_colour cll y co cg, a) :: nsc_pixels cll ys cos cgs al
  | _, _, _, _ => []
  end.
Definition nsc_decode (n : Z) (msg : bytes) : option (list (Z * Z * Z * Z)) :=
  match run nsc_message msg with
  | Ok (cll, (y, co, cg, a)) =>
    y ← nsc_plane n y;
    co ← nsc_plane n co;
    cg ← nsc_plane n cg;
    a ← nsc_plane n a;
    Some (nsc_pixels cll y co cg a)
  | _ => None
  end.

Lemma nsc_pixels_lookup cll y co cg a i :
  nsc_pixels cll y co cg a !! i
  = vy ← y !! i; vco ← co !! i; vcg ← cg !! i; va ← a !! i; Some (nsc_colour cll vy vco vcg, va).
Proof.
  revert co cg a i. induction y as [|vy y IH]; intros [|vco co] [|vcg cg] [|va a] [|i]; cbn; try done;
    first [apply IH|repeat (destruct (_ !! _); cbn; try done)].
Qed.

Lemma as_i8_mod z k : -128 ≤ z ≤ 127 → as_i8 (z + k * 256) = z.
Proof. intros H. unfold as_i8. Z.to_euclidean_division_equations. lia. Qed.

(** A chroma byte comes back as the halved difference [x], less the bits that were shifted out. *)
Lemma chroma_back x cll : -255 ≤ x ≤ 255 → 1 ≤ cll ≤ 7 →
  let c := as_i8 (as_u8 (clamp (-128) 127 (Z.shiftr x cll)) * 2 ^ (cll - 1)) in
  2 * c ≤ x < 2 * c + 2 ^ cll.
Proof.
  intros Hx Hc. rewrite Z.shiftr_div_pow2 by lia.
  assert (-128 ≤ x / 2 ^ cll ≤ 127 ∧ -128 ≤ x / 2 ^ cll * 2 ^ (cll - 1) ≤ 127
    ∧ 2 * (x / 2 ^ cll * 2 ^ (cll - 1)) ≤ x < 2 * (x / 2 ^ cll * 2 ^ (cll - 1)) + 2 ^ cll) as (H1 & H2 & H3).
  { assert (cll = 1 ∨ cll = 2 ∨ cll = 3 ∨ cll = 4 ∨ cll = 5 ∨ cll = 6 ∨ cll = 7) as Hcases by lia.
    destruct Hcases as [-> |[-> |[-> |[-> |[-> |[-> | ->]]]]]]; Z.to_euclidean_division_equations; lia. }
  set (q := x / 2 ^ cll) in *. unfold clamp. rewrite Z.max_l, Z.min_l by lia.
  unfold as_u8. rewrite Z.mod_eq by lia.
  replace ((q - 2 ^ 8 * (q / 2 ^ 8)) * 2 ^ (cll - 1))
    with (q * 2 ^ (cll - 1) + (- (q / 2 ^ 8) * 2 ^ (cll - 1)) * 256) by lia.
  rewrite as_i8_mod by done. done.
Qed.

Lemma to_byte_near z r : u8_ok r → Z.abs (to_byte z - r) ≤ Z.abs (z - r).
Proof. unfold to_byte. lia. Qed.

(** The colours come back within what the lost bits allow. *)
Lemma nsc_colour_near r g b cll :
  u8_ok r → u8_ok g → u8_ok b → 1 ≤ cll ≤ 7 →
  let '(y, co, cg) := rgb_to_ycocg r g b cll in
  let '(r', g', b') := nsc_colour cll y co cg in
  Z.abs (r' - r) ≤ 2 ^ cll + 1 ∧ Z.abs (g' - g) ≤ 2 ^ cll + 1 ∧ Z.abs (b' - b) ≤ 2 ^ cll + 1.
Proof.
  intros Hr Hg Hb Hc. unfold rgb_to_ycocg, nsc_colour. cbv zeta.
  pose proof (chroma_back (r - b) cll) as Hco.
  pose proof (chroma_back (- Z.shiftr r 1 + g - Z.shiftr b 1) cll) as Hcg.
  rewrite !(Z.shiftr_div_pow2 _ 1), !(Z.shiftr_div_pow2 _ 2) in * by lia. change (2 ^ 1) with 2 in *.
  change (2 ^ 2) with 4 in *.
  set (co := as_i8 (as_u8 (clamp _ _ (Z.shiftr (r - b) cll)) * _)) in *.
  set (cg := as_i8 (as_u8 (clamp _ _ (Z.shiftr (- (r / 2) + g - b / 2) cll)) * _)) in *. cbv zeta in Hco, Hcg.
  assert (clamp 0 255 (r / 4 + g / 2 + b / 4) = r / 4 + g / 2 + b / 4) as ->
    by (unfold clamp; Z.to_euclidean_division_equations; lia).
  specialize (Hco ltac:(lia) Hc). specialize (Hcg ltac:(Z.to_euclidean_division_equations; lia) Hc).
  assert (2 ≤ 2 ^ cll) by (change 2 with (2 ^ 1) at 1; apply Z.pow_le_mono_r; lia).
  clearbody co cg. set (m := 2 ^ cll) in *. clearbody m.
  split_and!; (etrans; [by apply to_byte_near|]); Z.to_euclidean_division_equations; lia.
Qed.

Lemma len_run_segment v run : 1 ≤ run → len (run_segment v run) ≤ 2 * run.
Proof.
  intros H. unfold run_segment. destruct (Z.eqb_spec run 1); [subst; done|].
  destruct (Z.leb_spec run 255); [rewrite !len_cons, len_nil; lia|].
  rewrite len_app, !len_cons, len_nil, len_to_le. lia.
Qed.

Lemma len_rle_loop fuel l : len (rle_loop fuel l) ≤ 2 * len l.
Proof.
  revert l. induction fuel as [|fuel IH]; intros l; [cbn [rle_loop]; rewrite len_nil; pose proof (len_nonneg l); lia|].
  destruct l as [|v l']; [done|]. cbn [rle_loop]. destruct (run_of_spec v l') as (H1 & _).
  set (run := Z.min (1 + run_of v l') (2 ^ 32)). rewrite len_app.
  pose proof (len_run_segment v run ltac:(lia)). specialize (IH (zdrop run (v :: l'))).
  rewrite len_zdrop in IH by (rewrite len_cons; lia). lia.
Qed.
Lemma len_rle_encode plane : len (rle_encode plane) ≤ 2 * len plane.
Proof.
  unfold rle_encode. pose proof (len_nonneg plane). destruct (Z.leb_spec (len plane) 4); [lia|].
  rewrite len_app, len_zdrop by lia. pose proof (len_rle_loop (length plane) (ztake (len plane - 4) plane)) as H1.
  rewrite len_ztake in H1 by lia. lia.
Qed.

Lemma rle_encode_bounds p : len p < 2 ^ 31 →
  0 ≤ len (rle_encode p) < 2 ^ 32 ∧ plane_len (rle_encode p) = len (rle_encode p).
Proof.
  intros Hp. pose proof (len_rle_encode p). pose proof (len_nonneg (rle_encode p)). split; [lia|].
  unfold plane_len. lia.
Qed.

(** A plane that has fewer bytes than pixels, or is too short for run lengths, is read back. *)
Lemma nsc_plane_ok n p :
  len p = n → n < 2 ^ 32 → n ≤ 4 ∨ len (rle_encode p) < n → nsc_plane n (rle_encode p) = Some p.
Proof.
  intros Hp Hn Hc. unfold nsc_plane. destruct (Z.ltb_spec (len (rle_encode p)) n) as [Hlt|Hge].
  - rewrite <-Hp. unfold len at 1. rewrite Nat2Z.id. apply rle_decode_encode. lia.
  - destruct Hc as [Hc|]; [|lia]. unfold rle_encode. rewrite (proj2 (Z.leb_le _ _)) by lia. by rewrite ztake_all by lia.
Qed.

(** The parts of a message. *)
Definition nsc_layout (cll : Z) (y co cg a : bytes) : bytes :=
  to_le 4 (plane_len (rle_encode y)) ++ to_le 4 (plane_len (rle_encode co))
  ++ to_le 4 (plane_len (rle_encode cg)) ++ to_le 4 (plane_len (rle_encode a)) ++ [cll; 0; 0; 0]
  ++ rle_encode y ++ rle_encode co ++ rle_encode cg ++ rle_encode a.

Lemma nsc_layout_read n y co cg a cll :
  n < 2 ^ 31 → len y = n → len co = n → len cg = n → len a = n → u8_ok cll →
  len (nsc_layout cll y co cg a) ≤ 20 + 8 * n
  ∧ run nsc_message (nsc_layout cll y co cg a)
    = Ok (cll, (rle_encode y, rle_encode co, rle_encode cg, rle_encode a)).
Proof.
  intros Hn Ey Eco Ecg Ea Hc. unfold nsc_layout.
  destruct (rle_encode_bounds y) as (By & ->); [lia|]. destruct (rle_encode_bounds co) as (Bco & ->); [lia|].
  destruct (rle_encode_bounds cg) as (Bcg & ->); [lia|]. destruct (rle_encode_bounds a) as (Ba & ->); [lia|].
  pose proof (len_rle_encode y). pose proof (len_rle_encode co). pose proof (len_rle_encode cg). pose proof (len_rle_encode a).
  change [cll; 0; 0; 0] with (write_u8 cll ++ write_u8 0 ++ write_u16_le 0). split.
  { rewrite !len_app, !len_to_le, len_write_u16_le. change (len (write_u8 cll)) with 1. change (len (write_u8 0)) with 1. lia. }
  apply run_reads_whole.
  { rewrite !len_app, !len_to_le, len_write_u16_le. change (len (write_u8 cll)) with 1. change (len (write_u8 0)) with 1. lia. }
  unfold nsc_message. rewrite <-!(assoc_L (++)).
  do 4 (eapply reads_bind; [apply read_u32_le_write; lia|cbn beta]).
  eapply reads_bind; [by apply read_u8_write|cbn beta].
  eapply reads_bind; [by apply read_u8_write|cbn beta].
  eapply reads_bind; [by apply read_u16_le_write|cbn beta].
  do 4 (eapply reads_bind; [by apply read_slice_reads|cbn beta]). by apply reads_ret.
Qed.

Lemma nscodec_encode_ok data w h stride level :
  0 < w < 2 ^ 16 → 0 < h < 2 ^ 16 → w * h < 2 ^ 31 → 0 ≤ stride →
  (h - 1) * stride + w * 4 ≤ len data < 2 ^ 63 →
  ∃ y co cg, nscodec_encode data w h stride level
      = Ok (nsc_layout (clamp 1 7 level) y co cg (replicate (Z.to_nat (w * h)) 255))
  ∧ len y = w * h ∧ len co = w * h ∧ len cg = w * h
  ∧ ∀ row col, 0 ≤ row < h → 0 ≤ col < w →
      let i := Z.to_nat ((h - 1 - row) * w + col) in
      ∃ a b c, y !! i = Some a ∧ co !! i = Some b ∧ cg !! i = Some c
             ∧ pixel_ycocg data (clamp 1 7 level) (row * stride + col * 4) (a, b, c).
Proof.
  intros Hw Hh Hn Hs Hl. unfold nscodec_encode.
  rewrite !(proj2 (Z.eqb_neq _ _)) by lia. cbn [orb].
  assert (required_len w h stride = Some ((h - 1) * stride + w * 4)) as ->.
  { unfold required_len, checked_mul_usize, checked_add_usize, USIZE_MAX.
    rewrite decide_True by nia. cbn [mbind option_bind]. rewrite decide_True by lia.
    cbn [mbind option_bind]. by rewrite (proj2 (Z.leb_le _ _)) by lia. }
  rewrite (proj2 (Z.ltb_ge _ _)) by lia.
  destruct (nsc_rows_ok data (Z.to_nat w) stride (clamp 1 7 level) (Z.to_nat h)) as (px & -> & Hlen & Hpx);
    [done|right; rewrite !Z2Nat.id by lia; lia|]. cbn [mbind res_bind].
  rewrite <-(rle_encode_replicate 255 (w * h)) by nia.
  assert (∀ {A} (f : Z * Z * Z → A), len (f <$> px) = w * h) as Hf.
  { intros A f. rewrite len_fmap. unfold len. rewrite Hlen. nia. }
  do 3 eexists. split; [reflexivity|]. do 3 (split; [apply Hf|]).
  intros row col Hrow Hcol. set (i := Z.to_nat ((h - 1 - row) * w + col)).
  destruct (Hpx (Z.to_nat row) (Z.to_nat col)) as ([[a b] c] & E & Hp); [lia..|].
  assert (((Z.to_nat h - 1 - Z.to_nat row) * Z.to_nat w + Z.to_nat col)%nat = i) as Ei.
  { subst i. rewrite Z2Nat.inj_add, Z2Nat.inj_mul, !Z2Nat.inj_sub by (lia || apply Z.mul_nonneg_nonneg; lia).
    done. }
  rewrite Ei in E.
  exists a, b, c. rewrite !list_lookup_fmap, E. rewrite !Z2Nat.id in Hp by lia. done.
Qed.

(** ** Properties *)

(** C23. NSCodec messages show the pixels.  For every region of a frame that lies in its buffer, of
    less than 2^31 pixels, encoding does not panic, and the header of the message gives the colour
    loss level, brought between 1 and 7, and the lengths of four planes.  A client of the format
    takes a plane with fewer bytes than pixels for run lengths and any other as it is; when each of
    the four planes is shorter than its pixels (or there are at most four pixels), it gets, bottom
    row first, every pixel of the region, opaque, each colour no further from the original than
    2^level + 1. *)
Theorem nscodec_encode_decodes data w h stride level :
  0 < w < 2 ^ 16 → 0 < h < 2 ^ 16 → w * h < 2 ^ 31 → 0 ≤ stride →
  (h - 1) * stride + w * 4 ≤ len data < 2 ^ 63 → bytes_ok data →
  let cll := Z.max 1 (Z.min level 7) in
  ∃ msg y co cg a, nscodec_encode data w h stride level = Ok msg
  ∧ run nsc_message msg = Ok (cll, (y, co, cg, a))
  ∧ (Forall (λ p : bytes, w * h ≤ 4 ∨ len p < w * h) [y; co; cg; a] →
     ∃ px, nsc_decode (w * h) msg = Some px
     ∧ ∀ row col, 0 ≤ row < h → 0 ≤ col < w →
         ∃ b g r b' g' r',
           data !! Z.to_nat (row * stride + col * 4) = Some b
         ∧ data !! Z.to_nat (row * stride + col * 4 + 1) = Some g
         ∧ data !! Z.to_nat (row * stride + col * 4 + 2) = Some r
         ∧ px !! Z.to_nat ((h - 1 - row) * w + col) = Some (r', g', b', 255)
         ∧ Z.abs (r' - r) ≤ 2 ^ cll + 1 ∧ Z.abs (g' - g) ≤ 2 ^ cll + 1 ∧ Z.abs (b' - b) ≤ 2 ^ cll + 1).
Proof.
  intros Hw Hh Hn Hs Hl Hb cll.
  destruct (nscodec_encode_ok data w h stride level Hw Hh Hn Hs Hl) as (y & co & cg & E & Ly & Lco & Lcg & H).
  assert (clamp 1 7 level = cll) as Ec by (unfold clamp, cll; lia). rewrite Ec in *.
  assert (1 ≤ cll ≤ 7) as Hcll by lia. set (a := replicate (Z.to_nat (w * h)) 255) in *.
  assert (len a = w * h) as La by (unfold a; rewrite len_replicate; lia).
  destruct (nsc_layout_read (w * h) y co cg a cll) as [_ Hr]; [done..|lia|].
  do 5 eexists. split; [exact E|]. split; [exact Hr|]. rewrite !Forall_cons. intros (Cy & Cco & Ccg & Ca & _).
  unfold nsc_decode. rewrite Hr, !nsc_plane_ok by lia. eexists. split; [reflexivity|].
  intros row col Hrow Hcol. destruct (H row col Hrow Hcol) as (vy & vco & vcg & Ey & Eco & Ecg & Hp).
  destruct Hp as (b & g & r & Eb & Eg & Er & Epx).
  pose proof (Forall_lookup_1 _ _ _ _ Hb Eb) as Ub. pose proof (Forall_lookup_1 _ _ _ _ Hb Eg) as Ug.
  pose proof (Forall_lookup_1 _ _ _ _ Hb Er) as Ur.
  pose proof (nsc_colour_near r g b cll Ur Ug Ub Hcll) as Hnear. rewrite <-Epx in Hnear.
  destruct (nsc_colour cll vy vco vcg) as [[r' g'] b'] eqn:Ecol.
  exists b, g, r, b', g', r'. do 3 (split; [done|]). split; [|done].
  rewrite nsc_pixels_lookup, Ey, Eco, Ecg. cbn [mbind option_bind]. unfold a.
  rewrite (lookup_replicate_2 _ 255) by nia. cbn [mbind option_bind]. by rewrite Ecol.
Qed.

(** Four rows of four pixels, the first row of another colour than the rest. *)
Definition sixteen_pixels : bytes :=
  concat (replicate 4 [200; 100; 50; 0]) ++ concat (replicate 12 [10; 20; 30; 0]).
Lemma nscodec_encode_decodes_witness :
  ∃ msg px r' g' b', nscodec_encode sixteen_pixels 4 4 16 1 = Ok msg
  ∧ len msg < 50 ∧ nsc_decode 16 msg = Some px
  ∧ px !! 12%nat = Some (r', g', b', 255)
  ∧ Z.abs (r' - 50) ≤ 3 ∧ Z.abs (g' - 100) ≤ 3 ∧ Z.abs (b' - 200) ≤ 3.
Proof.
  destruct (nscodec_encode_decodes sixteen_pixels 4 4 16 1) as (msg & y & co & cg & a & E & Er & H);
    [lia|lia|lia|lia|by vm_compute|apply (bool_decide_eq_true_1 _); vm_compute; reflexivity|].
  assert (nscodec_encode sixteen_pixels 4 4 16 1 = Ok msg) as Em by exact E.
  vm_compute in E. injection E as <-. vm_compute in Er. injection Er as <- <- <- <-.
  destruct H as (px & Ed & H); [by repeat (constructor; [right; vm_compute; reflexivity|])|].
  destruct (H 0 0 ltac:(lia) ltac:(lia)) as (b & g & r & b' & g' & r' & Eb & Eg & Er & Epx & Hnear).
  vm_compute in Eb, Eg, Er. injection Eb as <-. injection Eg as <-. injection Er as <-.
  eexists. exists px, r', g', b'. split; [exact Em|]. split; [vm_compute; reflexivity|]. split; [exact Ed|].
  split; [exact Epx|exact Hnear].
Defined.

(** Seven equal pixels: every plane has seven bytes, which the client takes for raw, and the third
    pixel comes out in another colour and nearly transparent. *)
Lemma seven_equal_pixels_garbled :
  match nscodec_encode (concat (replicate 7 [10; 20; 30; 0])) 7 1 28 1 with
  | Ok msg => nsc_decode 7 msg = Some (replicate 2 (29, 19, 9, 255) ++ [(1, 2, 0, 1)] ++ replicate 4 (29, 19, 9, 255))
  | _ => False
  end.
Proof. vm_compute. reflexivity. Qed.

(** The shortcut for constant planes is the encoder: [rle_encode_const] writes what
    [rle_encode] writes for a plane of [n] equal bytes, whatever its length. *)
Theorem rle_encode_const_equiv v n :
  0 ≤ n < 2 ^ 32 → rle_encode_const v n = rle_encode (replicate (Z.to_nat n) v).
Proof. intros Hn. symmetry. apply rle_encode_replicate; lia. Qed.

Lemma rle_encode_const_equiv_witness :
  rle_encode_const 255 300 = rle_encode (replicate 300 255) ∧ len (rle_encode_const 255 300) = 11.
Proof. split; [apply (rle_encode_const_equiv 255 300); lia|done]. Defined.

(** A plane may grow: pairs of equal bytes take three. *)
Lemma rle_encode_can_grow :
  len (rle_encode [1; 1; 2; 2; 0; 0; 0; 0]) = 10.
Proof. done. Qed.
