(* ===== verification/FramePump.v ===== *)
(** [rdpcore-server/src/server/frame_pump.rs] and the NSCodec path of [encode.rs]: the
    frames of one bitmap update, between its frame markers, and when they count as sent. *)
From S2P Require Import Prelude Cursor Utf Rdp6 Fastpath Diff Display BitmapEncode BitmapPaint NsCodec.

Definition encode_nscodec_update (bitmap : BitmapUpdate) (codec_id color_loss_level max_request_size : Z)
  : res DecodeError (list (list bytes) * BitmapWireStats) :=
  let start := src_byte_offset bitmap 0 0 in
  let pixels := default [] (get_range (bm_data bitmap) start (len (bm_data bitmap))) in
  data ← nscodec_encode pixels (bm_width bitmap) (bm_height bitmap) (bm_stride bitmap) color_loss_level;
  if bool_decide (data = []) then Ok ([], BitmapWireStats_default)
  else
    let body := encode_set_surface_bits (bm_x bitmap) (bm_y bitmap) (bm_width bitmap)
                  (bm_height bitmap) codec_id data in
    wire ← encode_update_to_wire_frames UPDATE_CODE_SURFACE_COMMANDS body max_request_size;
    Ok ([wire], {| tiles := 1; compressed_tiles := 1; raw_tiles := 0; encoded_bytes := len data;
                   update_batches := 1 |}).

(** The bytes of the frames (all of them [Bulk], on the I/O channel), and the next
    [frame_id]. *)
Definition encode_outbound_bitmap (bitmap : BitmapUpdate) (policy : BitmapEncodePolicy) (frame_id : Z)
  : res DecodeError (list bytes * Z * BitmapWireStats) :=
  '(batches, stats) ←
    match nscodec policy with
    | Some (codec_id, cll) => encode_nscodec_update bitmap codec_id cll (max_request_size policy)
    | None =>
      '(scratch, stats) ← encode_bitmap_update bitmap policy EncodeScratch_default;
      Ok (sc_batches scratch, stats)
    end;
  let id := frame_id in
  let frame_id := Z.max (as_u32 (frame_id + 1)) 1 in
  begin ← encode_update_to_wire_frames UPDATE_CODE_SURFACE_COMMANDS
            (encode_frame_marker FRAME_ACTION_BEGIN id) (max_request_size policy);
  end_ ← encode_update_to_wire_frames UPDATE_CODE_SURFACE_COMMANDS
           (encode_frame_marker FRAME_ACTION_END id) (max_request_size policy);
  Ok (begin ++ concat batches ++ end_, frame_id, stats).

(** [encode_and_queue_bitmap] with no send in flight: the frames handed to the bulk send,
    or [None] when none is started, and the next [frame_id]. *)
Definition encode_and_queue_bitmap (bitmap : BitmapUpdate) (policy : BitmapEncodePolicy) (frame_id : Z)
    (gfx_frames : list bytes) (gfx_handled : bool) : res DecodeError (option (list bytes) * Z) :=
  '(frames, frame_id) ←
    (if gfx_handled then Ok (gfx_frames, frame_id)
     else
       '(outbound, frame_id, _) ← encode_outbound_bitmap bitmap policy frame_id;
       Ok (gfx_frames ++ outbound, frame_id));
  Ok (if bool_decide (frames = []) then None else Some frames, frame_id).

(** ** A client *)

(** [TS_SURFCMD_SET_SURF_BITS] and [TS_FRAME_MARKER]. *)
Record SurfaceBits := {
  sb_left : Z; sb_top : Z; sb_right : Z; sb_bottom : Z; sb_bpp : Z; sb_codec_id : Z; sb_width : Z;
  sb_height : Z; sb_data : bytes }.
Inductive SurfaceCommand := SetSurfaceBits (b : SurfaceBits) | FrameMarker (action id : Z).

Definition decode_surface_command : reader SurfaceCommand :=
  cmd ← read_u16_le;
  if cmd =? 1 then
    left ← read_u16_le;
    top ← read_u16_le;
    right ← read_u16_le;
    bottom ← read_u16_le;
    bpp ← read_u8;
    _ ← read_u8;
    _ ← read_u8;
    codec_id ← read_u8;
    width ← read_u16_le;
    height ← read_u16_le;
    n ← read_u32_le;
    data ← read_slice n;
    mret (SetSurfaceBits {| sb_left := left; sb_top := top; sb_right := right; sb_bottom := bottom; sb_bpp := bpp;
                            sb_codec_id := codec_id; sb_width := width; sb_height := height; sb_data := data |})
  else if cmd =? 4 then
    action ← read_u16_le;
    id ← read_u32_le;
    mret (FrameMarker action id)
  else invalid "surface_command" "unknown command".
(** The commands of an update, to its end. *)
Fixpoint decode_surface_commands (fuel : nat) : reader (list SurfaceCommand) :=
  n ← get_remaining;
  if 0 <? n then
    match fuel with
    | O => lift_res Panic
    | S fuel => c ← decode_surface_command; cs ← decode_surface_commands fuel; mret (c :: cs)
    end
  else mret [].

(** What the client shows, the frame that has begun, the frames that have ended, and the surface bits
    it was given. *)
Record viewer := {
  picture : canvas; open_frame : option Z; ended_frames : list Z; surface_bits : list SurfaceBits }.

(** A frame begins when none is open and ends under its own number; pictures come within a frame. *)
Definition viewer_command (vw : viewer) (c : SurfaceCommand) : option viewer :=
  match c, open_frame vw with
  | FrameMarker 0 id, None =>
    Some {| picture := picture vw; open_frame := Some id; ended_frames := ended_frames vw;
            surface_bits := surface_bits vw |}
  | FrameMarker 1 id, Some id' =>
    if id =? id' then
      Some {| picture := picture vw; open_frame := None; ended_frames := ended_frames vw ++ [id];
              surface_bits := surface_bits vw |}
    else None
  | SetSurfaceBits b, Some id =>
    Some {| picture := picture vw; open_frame := Some id; ended_frames := ended_frames vw;
            surface_bits := surface_bits vw ++ [b] |}
  | _, _ => None
  end.
Definition viewer_update (vw : viewer) (code : Z) (body : bytes) : option viewer :=
  if code =? 4 then
    match run (decode_surface_commands (length body)) body with
    | Ok cs => foldl (λ vw c, vw ← vw; viewer_command vw c) (Some vw) cs
    | _ => None
    end
  else
    match open_frame vw with
    | Some id =>
      cv ← client_update (picture vw) code body;
      Some {| picture := cv; open_frame := Some id; ended_frames := ended_frames vw;
              surface_bits := surface_bits vw |}
    | None => None
    end.
Definition viewer_frames : assembler (X := viewer) → list bytes → option assembler :=
  assemble_frames viewer_update.

(** ** Commands *)

Lemma one_command c enc vw :
  0 < len enc < 2 ^ 63 → reads decode_surface_command enc c [] →
  viewer_update vw UPDATE_CODE_SURFACE_COMMANDS enc = viewer_command vw c.
Proof.
  intros Hlen Hc. unfold viewer_update. cbn [Z.eqb UPDATE_CODE_SURFACE_COMMANDS Pos.eqb].
  rewrite (run_reads_whole _ _ [c]); [done|lia|]. rewrite app_nil_r. destruct (length enc) as [|fuel] eqn:E; [unfold len in Hlen; lia|].
  cbn [decode_surface_commands]. eapply reads_bind; [apply get_remaining_reads|cbn beta].
  rewrite (proj2 (Z.ltb_lt _ _)) by lia.
  eapply reads_bind; [exact Hc|cbn beta]. eapply reads_bind; [|apply reads_ret].
  destruct fuel; cbn [decode_surface_commands]; (eapply reads_bind; [apply get_remaining_reads|cbn; apply reads_ret]).
Qed.

Lemma frame_marker_reads action id : u16_ok action → u32_ok id →
  reads decode_surface_command (encode_frame_marker action id) (FrameMarker action id) [].
Proof.
  intros Ha Hi. unfold encode_frame_marker, decode_surface_command.
  eapply reads_bind; [by apply read_u16_le_write|cbn beta]. cbn [Z.eqb CMD_FRAME_MARKER Pos.eqb].
  eapply reads_bind; [by apply read_u16_le_write|cbn beta].
  rewrite <-(app_nil_r (write_u32_le id)).
  eapply reads_bind; [by apply read_u32_le_write|cbn beta]. apply reads_ret.
Qed.

Lemma set_surface_bits_reads left top w h codec data :
  u16_ok left → u16_ok top → u16_ok w → u16_ok h → left + w ≤ 65535 → top + h ≤ 65535 → u8_ok codec →
  len data < 2 ^ 32 →
  reads decode_surface_command (encode_set_surface_bits left top w h codec data)
    (SetSurfaceBits {| sb_left := left; sb_top := top; sb_right := left + w; sb_bottom := top + h; sb_bpp := 32;
                       sb_codec_id := codec; sb_width := w; sb_height := h; sb_data := data |}) [].
Proof.
  intros Hl Ht Hw Hh Hr Hb Hc Hd. pose proof (len_nonneg data).
  unfold encode_set_surface_bits, ExclusiveRectangle_encode, saturating_add_u16, decode_surface_command.
  cbn [ex_left ex_top ex_right ex_bottom]. rewrite !Z.min_l by lia. rewrite as_u32_id by lia.
  rewrite <-!(assoc_L (++)).
  eapply reads_bind; [by apply read_u16_le_write|cbn beta]. cbn [Z.eqb CMD_SET_SURFACE_BITS Pos.eqb].
  do 4 (eapply reads_bind; [apply read_u16_le_write; lia|cbn beta]).
  do 4 (eapply reads_bind; [apply read_u8_write; done|cbn beta]).
  do 2 (eapply reads_bind; [by apply read_u16_le_write|cbn beta]).
  eapply reads_bind; [apply read_u32_le_write; lia|cbn beta].
  rewrite <-(app_nil_r (write_slice data)).
  eapply reads_bind; [by apply read_slice_write|cbn beta]. apply reads_ret.
Qed.

Lemma len_set_surface_bits left top w h codec data :
  len (encode_set_surface_bits left top w h codec data) = 22 + len data.
Proof. unfold encode_set_surface_bits, ExclusiveRectangle_encode. len_lia. Qed.

(** One command on its way. *)
Lemma command_frames c body mrs vw :
  0 < len body < 2 ^ 63 → reads decode_surface_command body c [] →
  ∃ frames, encode_update_to_wire_frames UPDATE_CODE_SURFACE_COMMANDS body mrs = Ok frames
  ∧ Forall small_frame frames ∧ frames ≠ []
  ∧ viewer_frames (vw, None) frames = vw ← viewer_command vw c; Some (vw, None).
Proof.
  intros Hlen Hc.
  destruct (wire_frames_ok viewer_update UPDATE_CODE_SURFACE_COMMANDS body mrs vw) as (frames & E & Hs & Hne & Hcl);
    [done|by intros ->; destruct Hlen|].
  exists frames. split_and!; [done..|]. unfold viewer_frames. by rewrite Hcl, (one_command c).
Qed.

(** A client of bitmap updates, within a frame. *)
Lemma viewer_client_frames id ended sbs frames cv cv' :
  client_frames (cv, None) frames = Some (cv', None) →
  viewer_frames ({| picture := cv; open_frame := Some id; ended_frames := ended; surface_bits := sbs |}, None) frames
  = Some ({| picture := cv'; open_frame := Some id; ended_frames := ended; surface_bits := sbs |}, None).
Proof.
  apply (assemble_frames_embed client_update viewer_update
    (λ cv, {| picture := cv; open_frame := Some id; ended_frames := ended; surface_bits := sbs |})).
  intros x x' code body H. unfold viewer_update. cbn [open_frame picture ended_frames surface_bits]. rewrite H.
  unfold client_update in H. by destruct (Z.eqb_spec code UPDATE_CODE_BITMAP) as [->|].
Qed.

Section view.
Context (w h : Z) (u v : BitmapUpdate) (Hu : full_frame w h u) (Hbytes : bytes_ok (bm_data u)).
Context (Hv : view_of u v).

(** The buffer from the first pixel of the update. *)
Definition view_bytes : bytes := zdrop (src_byte_offset v 0 0) (bm_data v).
(** The surface bits of the update. *)
Definition view_bits (codec_id : Z) (data : bytes) : SurfaceBits :=
  {| sb_left := bm_x v; sb_top := bm_y v; sb_right := bm_x v + bm_width v; sb_bottom := bm_y v + bm_height v;
     sb_bpp := 32; sb_codec_id := codec_id; sb_width := bm_width v; sb_height := bm_height v; sb_data := data |}.

Lemma encode_nscodec_update_ok codec_id level mrs :
  bm_width v * bm_height v < 2 ^ 28 → u8_ok codec_id →
  ∃ batches stats data, encode_nscodec_update v codec_id level mrs = Ok (batches, stats)
  ∧ nscodec_encode view_bytes (bm_width v) (bm_height v) (bm_stride v) level = Ok data
  ∧ Forall small_frame (concat batches)
  ∧ ∀ vw id, open_frame vw = Some id → viewer_frames (vw, None) (concat batches)
      = Some ({| picture := picture vw; open_frame := Some id; ended_frames := ended_frames vw;
                 surface_bits := surface_bits vw ++ [view_bits codec_id data] |}, None).
Proof.
  intros Hn Hcid. unfold encode_nscodec_update.
  pose proof (view_width _ _ Hv) as [W0 W]. pose proof (view_height _ _ Hv) as [H0 H].
  pose proof (view_x _ _ Hv) as [X0 X]. pose proof (view_y _ _ Hv) as [Y0 Y].
  pose proof Hu as [? ? ? ? Ew Eh ? ? Hst Hd]. pose proof (view_stride _ _ Hv) as Es.
  destruct (tile_row_range w h u v Hu Hv 0 0 1) as (Eoff & Hoff & Hend); [lia..|].
  destruct (tile_row_range w h u v Hu Hv 0 (bm_height v - 1) (bm_width v)) as (Elast & _ & Hlast); [lia..|].
  assert (default [] (get_range (bm_data v) (src_byte_offset v 0 0) (len (bm_data v))) = view_bytes) as ->.
  { unfold get_range, view_bytes. rewrite decide_True by lia. cbn [from_option id default].
    apply ztake_all. rewrite len_zdrop; lia. }
  assert (len view_bytes = len (bm_data v) - src_byte_offset v 0 0) as Hpx by (unfold view_bytes; rewrite len_zdrop; lia).
  destruct (nscodec_encode_ok view_bytes (bm_width v) (bm_height v) (bm_stride v) level)
    as (y & co & cg & -> & Ly & Lco & Lcg & _); [lia..| |].
  { rewrite Hpx, (view_stride _ _ Hv). lia. }
  set (data := nsc_layout _ _ _ _ _). cbn [mbind res_bind].
  destruct (nsc_layout_read (bm_width v * bm_height v) y co cg (replicate (Z.to_nat (bm_width v * bm_height v)) 255)
    (clamp 1 7 level)) as [Hlen _]; [lia|done..|rewrite len_replicate; lia|unfold clamp; lia|]. fold data in Hlen.
  rewrite bool_decide_eq_false_2.
  2: { intros E. apply (f_equal length) in E. unfold data, nsc_layout in E. rewrite !length_app, length_to_le in E. cbn in E. lia. }
  assert (∀ vw, ∃ frames, encode_update_to_wire_frames UPDATE_CODE_SURFACE_COMMANDS
      (encode_set_surface_bits (bm_x v) (bm_y v) (bm_width v) (bm_height v) codec_id data) mrs = Ok frames
    ∧ Forall small_frame frames ∧ frames ≠ []
    ∧ viewer_frames (vw, None) frames = vw ← viewer_command vw (SetSurfaceBits (view_bits codec_id data)); Some (vw, None)) as Hw.
  { intros vw. apply command_frames; [|apply set_surface_bits_reads; lia || done].
    pose proof (len_nonneg data). rewrite len_set_surface_bits. lia. }
  destruct (Hw {| picture := λ _ _ _, None; open_frame := None; ended_frames := []; surface_bits := [] |})
    as (frames & E & Hs & _). rewrite E. cbn [mbind res_bind].
  exists [frames]. do 2 eexists. split; [done|]. split; [done|]. cbn [concat]. rewrite app_nil_r. split; [done|].
  intros vw id Eo. destruct (Hw vw) as (frames' & E' & _ & _ & Hcl). rewrite E in E'. injection E' as <-.
  rewrite Hcl. cbn [viewer_command]. by rewrite Eo.
Qed.
End view.

Lemma encode_outbound_bitmap_nonempty bitmap policy id frames id' stats :
  encode_outbound_bitmap bitmap policy id = Ok (frames, id', stats) → frames ≠ [].
Proof.
  unfold encode_outbound_bitmap. intros H. apply res_bind_Ok in H as ([batches st] & _ & H).
  destruct (wire_frames_ok client_update UPDATE_CODE_SURFACE_COMMANDS (encode_frame_marker FRAME_ACTION_BEGIN id)
    (max_request_size policy) (λ _ _ _, None)) as (b & Eb & _ & Hb & _); [done|done|].
  destruct (wire_frames_ok client_update UPDATE_CODE_SURFACE_COMMANDS (encode_frame_marker FRAME_ACTION_END id)
    (max_request_size policy) (λ _ _ _, None)) as (e & Ee & _ & He & _); [done|done|].
  rewrite Eb in H. cbn [mbind res_bind] in H. rewrite Ee in H. cbn [mbind res_bind] in H.
  injection H as <- _ _. by destruct b.
Qed.

(** ** Properties *)

(** What an update shows: the pixels painted, or NSCodec's message for its region. *)
Definition shown (v : BitmapUpdate) (codec : option (Z * Z)) (vw vw' : viewer) : Prop :=
  match codec with
  | None => surface_bits vw' = surface_bits vw ∧ ∀ px py c, 0 ≤ c < 3 → picture vw' px py c = paint (picture vw) v px py c
  | Some (codec_id, level) =>
    picture vw' = picture vw
    ∧ ∃ data, nscodec_encode (view_bytes v) (bm_width v) (bm_height v) (bm_stride v) level = Ok data
      ∧ surface_bits vw' = surface_bits vw ++ [view_bits v codec_id data]
  end.

(** C22. An update is one frame of the client's.  For every view of a captured frame and every
    policy, the update is queued, every piece is small, and the next frame number is never zero.  A
    client that takes a frame to begin only when none is open, to end only under its own number, and
    pictures only within a frame, puts the pieces together without a complaint, with nothing left
    over: the frame of this number has begun and ended, once and after those before, and in it the
    pixels of the view were painted, or (with a codec number of one byte, and below 2^28 pixels) the
    NSCodec message of these pixels was given for the region of the view. *)
Theorem outbound_bitmap_delivered w h u v name codec mrs id vw :
  full_frame w h u → bytes_ok (bm_data u) → view_of u v →
  bm_width v ≤ 16383 → bm_height v ≤ 65472 → mrs < 2 ^ 28 → u32_ok id → open_frame vw = None →
  from_option (λ c, u8_ok c.1 ∧ bm_width v * bm_height v < 2 ^ 28) True codec →
  ∃ frames id' vw', encode_and_queue_bitmap v (bitmap_encode_policy name codec mrs) id [] false
    = Ok (Some frames, id')
  ∧ Forall (λ f, len f ≤ 16380) frames ∧ 1 ≤ id' < 2 ^ 32
  ∧ viewer_frames (vw, None) frames = Some (vw', None)
  ∧ open_frame vw' = None ∧ ended_frames vw' = ended_frames vw ++ [id] ∧ shown v codec vw vw'.
Proof.
  intros Hu Hb Hv Hw Hh Hm Hid Hopen Hcodec. unfold encode_and_queue_bitmap, encode_outbound_bitmap.
  set (policy := bitmap_encode_policy name codec mrs).
  set (vw0 := {| picture := picture vw; open_frame := Some id; ended_frames := ended_frames vw;
                 surface_bits := surface_bits vw |}).
  assert (∀ action, len (encode_frame_marker action id) = 8) as Hlen by done.
  destruct (command_frames _ _ (max_request_size policy) vw (conj (eq_refl : 0 < len (encode_frame_marker FRAME_ACTION_BEGIN id)) eq_refl)
    (frame_marker_reads FRAME_ACTION_BEGIN id ltac:(done) Hid)) as (b & Eb & Sb & Nb & Cb).
  assert (∃ batches stats vw1,
    match nscodec policy with
    | Some (codec_id, cll) => encode_nscodec_update v codec_id cll (max_request_size policy)
    | None =>
      '(scratch, stats) ← encode_bitmap_update v policy EncodeScratch_default;
      Ok (sc_batches scratch, stats)
    end = Ok (batches, stats)
    ∧ Forall small_frame (concat batches) ∧ viewer_frames (vw0, None) (concat batches) = Some (vw1, None)
    ∧ open_frame vw1 = Some id ∧ ended_frames vw1 = ended_frames vw ∧ shown v codec vw vw1)
    as (batches & stats & vw1 & E & Hs & Hcl & Ho1 & He1 & Hshow).
  { cbn [nscodec policy bitmap_encode_policy]. destruct codec as [[cid cll]|].
    - destruct Hcodec as [Hcid Hn].
      destruct (encode_nscodec_update_ok w h u v Hu Hv cid cll (max_request_size policy) Hn Hcid)
        as (batches & stats & data & E & Ed & Hs & Hcl).
      eexists batches, stats, _. split; [exact E|]. split; [exact Hs|]. split; [by apply Hcl|].
      do 2 (split; [done|]). split; [done|]. by exists data.
    - destruct (encode_bitmap_update_ok w h u v Hu Hb Hv name mrs EncodeScratch_default Hw Hh Hm)
        as (sc & stats & E & Hs & Hcl). destruct (Hcl (picture vw)) as (cv' & Ecl & Hcv).
      eexists (sc_batches sc), stats, _. split; [subst policy; by rewrite E|]. split; [exact Hs|].
      split; [by apply viewer_client_frames|]. do 2 (split; [done|]). by split. }
  destruct (command_frames _ _ (max_request_size policy) vw1 (conj (eq_refl : 0 < len (encode_frame_marker FRAME_ACTION_END id)) eq_refl)
    (frame_marker_reads FRAME_ACTION_END id ltac:(done) Hid)) as (e & Ee & Se & Ne & Ce).
  rewrite E. cbn [mbind res_bind]. rewrite Eb. cbn [mbind res_bind]. rewrite Ee. cbn [mbind res_bind app].
  rewrite bool_decide_eq_false_2 by (by destruct b).
  unfold viewer_command in Cb, Ce. rewrite Hopen in Cb. rewrite Ho1 in Ce. cbn in Cb, Ce. rewrite Z.eqb_refl in Ce.
  eexists (b ++ concat batches ++ e), (Z.max (as_u32 (id + 1)) 1), _. split; [done|].
  split; [|split; [|split]].
  - change (Forall small_frame (b ++ concat batches ++ e)). rewrite !Forall_app. done.
  - pose proof (as_u32_ok (id + 1)). lia.
  - unfold viewer_frames in *. rewrite assemble_frames_app, Cb. cbn [mbind option_bind]. fold vw0.
    rewrite assemble_frames_app, Hcl. cbn [mbind option_bind]. exact Ce.
  - cbn [open_frame ended_frames]. rewrite He1. do 2 (split; [done|]). unfold shown in *. cbn [picture surface_bits].
    by destruct codec as [[cid cll]|].
Qed.

Lemma outbound_bitmap_delivered_witness :
  ∃ frames id' vw', encode_and_queue_bitmap four_pixels (bitmap_encode_policy (lit "win") None 16374)
      (2 ^ 32 - 1) [] false = Ok (Some frames, id')
  ∧ viewer_frames ({| picture := λ _ _ _, Some 0; open_frame := None; ended_frames := [5]; surface_bits := [] |}, None) frames
    = Some (vw', None)
  ∧ ended_frames vw' = [5; 2 ^ 32 - 1] ∧ picture vw' 3 0 1 = Some 2.
Proof.
  destruct (outbound_bitmap_delivered 4 1 four_pixels four_pixels (lit "win") None 16374 (2 ^ 32 - 1)
    {| picture := λ _ _ _, Some 0; open_frame := None; ended_frames := [5]; surface_bits := [] |})
    as (frames & id' & vw' & E & _ & _ & Ecl & _ & He & _ & Hp).
  - by split.
  - by repeat constructor.
  - by split.
  - done.
  - done.
  - done.
  - done.
  - done.
  - done.
  - exists frames, id', vw'. split; [done|]. split; [done|]. split; [done|]. by rewrite Hp.
Defined.

(** A bitmap whose buffer misses its pixels, so that its only tile is skipped. *)
Definition torn : BitmapUpdate :=
  {| bm_x := 0; bm_y := 0; bm_width := 4; bm_height := 1; format := BgrX32; bm_data := [];
     bm_stride := 16; src_x := 0; src_y := 0 |}.

(** An update that paints nothing still counts as sent.  The frame markers are always
    there, so whenever the graphics pipeline does not take the frame, something is queued
    and the catch-up baseline advances: also when every tile was skipped. *)
Theorem skipped_update_counts_as_sent :
  (∀ bitmap policy id gfx_frames o id',
     encode_and_queue_bitmap bitmap policy id gfx_frames false = Ok (o, id') → o ≠ None)
  ∧ ∃ scratch stats frames id',
      encode_bitmap_update torn (bitmap_encode_policy (lit "win") None 16374) EncodeScratch_default
        = Ok (scratch, stats)
    ∧ rectangles scratch = [] ∧ sc_batches scratch = []
    ∧ encode_and_queue_bitmap torn (bitmap_encode_policy (lit "win") None 16374) 7 [] false
        = Ok (Some frames, id').
Proof.
  split.
  - intros bitmap policy id gfx_frames o id' H. unfold encode_and_queue_bitmap in H.
    apply res_bind_Ok in H as ([frames id1] & Hf & H).
    apply res_bind_Ok in Hf as ([[out id2] st] & Ho & Hf). injection Hf as <- <-.
    apply encode_outbound_bitmap_nonempty in Ho. rewrite bool_decide_eq_false_2 in H.
    + by injection H as <-.
    + intros Hnil. by apply app_nil in Hnil as [_ ?].
  - vm_compute. do 4 eexists. done.
Qed.
