(* ===== verification/Cliprdr.v ===== *)
(** [rdpcore-cliprdr]: the text clipboard, its PDUs ([pdu.rs]) and [CliprdrChannel]
    ([lib.rs]) over the interface of a clipboard backend. *)
From S2P Require Import Prelude Cursor Utf Mcs Svc.

Definition CB_MONITOR_READY : Z := 0x0001.
Definition CB_FORMAT_LIST : Z := 0x0002.
Definition CB_FORMAT_LIST_RESPONSE : Z := 0x0003.
Definition CB_FORMAT_DATA_REQUEST : Z := 0x0004.
Definition CB_FORMAT_DATA_RESPONSE : Z := 0x0005.
Definition CB_CLIP_CAPS : Z := 0x0007.
Definition CB_RESPONSE_OK : Z := 0x0001.
Definition CB_RESPONSE_FAIL : Z := 0x0002.
Definition CAPSTYPE_GENERAL : Z := 0x0001.
Definition CB_CAPS_VERSION_2 : Z := 0x00000002.
Definition CB_USE_LONG_FORMAT_NAMES : Z := 0x00000002.
Definition CF_UNICODETEXT : Z := 13.
Definition MAX_CLIPRDR_MESSAGE_SIZE : Z := 16 * 1024 * 1024.

(** ** PDUs *)

Definition write_header (msg_type msg_flags body_len : Z) : bytes :=
  write_u16_le msg_type ++ write_u16_le msg_flags ++ write_u32_le (as_u32 body_len).

Definition encode_capabilities : bytes :=
  let body := write_u16_le 1 ++ write_u16_le 0 ++ write_u16_le CAPSTYPE_GENERAL ++ write_u16_le 12
              ++ write_u32_le CB_CAPS_VERSION_2 ++ write_u32_le CB_USE_LONG_FORMAT_NAMES in
  write_header CB_CLIP_CAPS 0 (len body) ++ write_slice body.
Definition encode_monitor_ready : bytes := write_header CB_MONITOR_READY 0 0.
Definition encode_format_list_unicode_text : bytes :=
  let body := write_u32_le CF_UNICODETEXT ++ write_u16_le 0 in
  write_header CB_FORMAT_LIST 0 (len body) ++ write_slice body.
Definition encode_format_list_response_ok : bytes := write_header CB_FORMAT_LIST_RESPONSE CB_RESPONSE_OK 0.
Definition encode_format_data_request (format_id : Z) : bytes :=
  write_header CB_FORMAT_DATA_REQUEST 0 4 ++ write_u32_le format_id.
Definition encode_format_data_response_text (text : rstring) : bytes :=
  let body := encode_units text ++ write_u16_le 0 in
  write_header CB_FORMAT_DATA_RESPONSE CB_RESPONSE_OK (len body) ++ write_slice body.
Definition encode_format_data_response_error : bytes :=
  write_header CB_FORMAT_DATA_RESPONSE CB_RESPONSE_FAIL 0.

Inductive FormatDataStatus :=
  | StatusOk (text : rstring)
  | Failed.

Inductive ClientMessage :=
  | FormatList (ids : list Z)
  | FormatListResponse
  | FormatDataRequest (format : Z)
  | FormatDataResponse (status : FormatDataStatus)
  | Other.

(** The loops of [decode_format_list]; each round reads, so the number of unread bytes
    bounds them. *)
Fixpoint skip_name (fuel : nat) : reader unit :=
  n ← get_remaining;
  if n <? 2 then mret ()
  else
    match fuel with
    | O => lift_res Panic
    | S fuel => u ← read_u16_le; if u =? 0 then mret () else skip_name fuel
    end.
Fixpoint format_list_loop (fuel : nat) (ids : list Z) : reader (list Z) :=
  n ← get_remaining;
  if n <? 4 then mret ids
  else
    match fuel with
    | O => lift_res Panic
    | S fuel' => id ← read_u32_le; _ ← skip_name fuel; format_list_loop fuel' (ids ++ [id])
    end.
Definition decode_format_list (body : bytes) : res DecodeError (list Z) :=
  run (format_list_loop (length body) []) body.

(** [iter().step_by(2)] *)
Fixpoint step_by_2 {A} (l : list A) : list A :=
  match l with
  | [] => []
  | [x] => [x]
  | x :: _ :: l => x :: step_by_2 l
  end.

Definition decode_text_body (body : bytes) : rstring :=
  match body with
  | [] => []
  | _ =>
    if (2 <=? len body) && Z.even (len body)
       && (bool_decide (body !! 1%nat = Some 0) || existsb (Z.eqb 0) (drop 1 (step_by_2 body)))
    then read_fixed body
    else
      let end_ := match position (Z.eqb 0) body with Some i => Z.of_nat i | None => len body end in
      from_utf8_lossy (ztake end_ body)
  end.

Definition decode_client_message_from : reader ClientMessage :=
  msg_type ← read_u16_le;
  msg_flags ← read_u16_le;
  data_len ← read_u32_le;
  body ← read_slice data_len;
  if msg_type =? CB_FORMAT_LIST then lift_res (FormatList <$> decode_format_list body)
  else if msg_type =? CB_FORMAT_LIST_RESPONSE then mret FormatListResponse
  else if msg_type =? CB_FORMAT_DATA_REQUEST then
    lift_res (FormatDataRequest <$> run read_u32_le body)
  else if msg_type =? CB_FORMAT_DATA_RESPONSE then
    if has_bits msg_flags CB_RESPONSE_FAIL then mret (FormatDataResponse Failed)
    else mret (FormatDataResponse (StatusOk (decode_text_body body)))
  else mret Other.
Definition decode_client_message (input : bytes) : res DecodeError ClientMessage :=
  run decode_client_message_from input.

(** ** The channel *)

Record ClipboardFormat := { cf_id : Z }.

(** [FormatDataResponse] of [lib.rs] wraps a [FormatDataStatus]. *)
Definition new_unicode_string (text : rstring) : FormatDataStatus := StatusOk text.
Definition new_error : FormatDataStatus := Failed.
Definition to_unicode_string (r : FormatDataStatus) : option rstring :=
  match r with StatusOk text => Some text | Failed => None end.

Inductive ClipboardMessage :=
  | SendInitiateCopy (formats : list ClipboardFormat)
  | SendInitiatePaste (format_id : Z)
  | SendFormatData (response : FormatDataStatus).

Class CliprdrBackend (B : Type) := {
  on_ready : B → B;
  on_remote_copy : B → list ClipboardFormat → B;
  on_format_data_request : B → Z → B;
  on_format_data_response : B → FormatDataStatus → B
}.

Record CliprdrChannel (B : Type) := {
  channel_id : Z; user_channel_id : Z; backend : B; incoming_buffer : bytes }.
Arguments channel_id {B} _.
Arguments user_channel_id {B} _.
Arguments backend {B} _.
Arguments incoming_buffer {B} _.

Section channel.
Context {B : Type} `{!CliprdrBackend B}.
Implicit Types ch : CliprdrChannel B.

Definition set_backend ch b :=
  Build_CliprdrChannel B (channel_id ch) (user_channel_id ch) b (incoming_buffer ch).
Definition set_buffer ch buf :=
  Build_CliprdrChannel B (channel_id ch) (user_channel_id ch) (backend ch) buf.

Definition CliprdrChannel_new (channel_id user_channel_id : Z) (b : B) : CliprdrChannel B * list bytes :=
  ({| channel_id := channel_id; user_channel_id := user_channel_id; backend := on_ready b;
      incoming_buffer := [] |},
   wrap_indication user_channel_id channel_id encode_capabilities
   ++ wrap_indication user_channel_id channel_id encode_monitor_ready).

Definition on_message ch (m : ClientMessage) : CliprdrChannel B * list bytes :=
  match m with
  | FormatList ids =>
    (set_backend ch (on_remote_copy (backend ch) ((λ id, {| cf_id := id |}) <$> ids)),
     wrap_indication (user_channel_id ch) (channel_id ch) encode_format_list_response_ok)
  | FormatListResponse => (ch, [])
  | FormatDataRequest format => (set_backend ch (on_format_data_request (backend ch) format), [])
  | FormatDataResponse status =>
    let response := match status with StatusOk text => new_unicode_string text | Failed => new_error end in
    (set_backend ch (on_format_data_response (backend ch) response), [])
  | Other => (ch, [])
  end.

Definition on_channel_data ch (payload : bytes) : CliprdrChannel B * res DecodeError (list bytes) :=
  let '(buf, r) := reassemble (incoming_buffer ch) payload MAX_CLIPRDR_MESSAGE_SIZE
                     "cliprdr.incoming_buffer" in
  let ch := set_buffer ch buf in
  match r with
  | Ok None => (ch, Ok [])
  | Ok (Some message) =>
    match decode_client_message message with
    | Ok m => let '(ch, out) := on_message ch m in (ch, Ok out)
    | Err e => (ch, Err e)
    | Panic => (ch, Panic)
    end
  | Err e => (ch, Err e)
  | Panic => (ch, Panic)
  end.

Definition message_body (message : ClipboardMessage) : option bytes :=
  match message with
  | SendInitiateCopy formats =>
    if existsb (λ f, cf_id f =? CF_UNICODETEXT) formats then Some encode_format_list_unicode_text else None
  | SendInitiatePaste format_id => Some (encode_format_data_request format_id)
  | SendFormatData response =>
    Some (match to_unicode_string response with
          | Some text => encode_format_data_response_text text
          | None => encode_format_data_response_error
          end)
  end.
Definition encode_message ch (message : ClipboardMessage) : list bytes :=
  match message_body message with
  | Some body => wrap_indication (user_channel_id ch) (channel_id ch) body
  | None => []
  end.
End channel.

(** ** Lemmas *)

Lemma skip_name_safe fuel : safe_n (Z.of_nat fuel) (skip_name fuel) (λ _, True).
Proof.
  induction fuel as [|fuel IH]; cbn [skip_name]; intros c Hc Hb Hn; unfold mbind at 1;
    unfold reader_bind at 1; unfold get_remaining.
  { rewrite (proj2 (Z.ltb_lt _ _)) by lia. cbn. split_and!; done || lia. }
  destruct (remaining c <? 2); [cbn; split_and!; done || lia|]. revert c Hc Hb Hn.
  change (safe_n (Z.of_nat (S fuel))
    (u ← read_u16_le; if u =? 0 then mret () else skip_name fuel : reader unit) (λ _, True)).
  eapply (safe_n_bind _ 2); [apply read_u16_le_safe|apply read_u16_le_eats|].
  intros u _. destruct (u =? 0); [by apply safe_n_safe, safe_ret|].
  intros c Hc Hb Hn. apply IH; done || lia.
Qed.

Lemma format_list_loop_safe fuel : ∀ ids, safe_n (Z.of_nat fuel) (format_list_loop fuel ids) (λ _, True).
Proof.
  induction fuel as [|fuel IH]; intros ids; cbn [format_list_loop]; intros c Hc Hb Hn;
    unfold mbind at 1; unfold reader_bind at 1; unfold get_remaining.
  { rewrite (proj2 (Z.ltb_lt _ _)) by lia. cbn. split_and!; done || lia. }
  destruct (remaining c <? 4); [cbn; split_and!; done || lia|]. revert c Hc Hb Hn.
  change (safe_n (Z.of_nat (S fuel))
    (id ← read_u32_le; _ ← skip_name (S fuel); format_list_loop fuel (ids ++ [id]) : reader (list Z))
    (λ _, True)).
  eapply (safe_n_bind _ 4); [apply read_u32_le_safe| |].
  { eapply eats_bind; [apply take_bytes_safe|apply (take_bytes_eats 4)|].
    intros. by apply (safe_ret _ (λ _, True)). }
  intros id _ c Hc Hb Hn. unfold mbind, reader_bind.
  pose proof (skip_name_safe (S fuel) c Hc Hb ltac:(lia)) as Hs.
  destruct (skip_name (S fuel) c) as [[u c1]| |]; [|done..]. destruct Hs as (Hc1 & Hb1 & Hp1 & _).
  pose proof (IH (ids ++ [id]) c1 Hc1 ltac:(by rewrite Hb1)) as Hl. unfold remaining in *.
  rewrite Hb1 in Hl. specialize (Hl ltac:(lia)).
  destruct (format_list_loop _ _ c1) as [[l c2]| |]; [|done..].
  destruct Hl as (? & ? & ? & _). split_and!; done || lia || congruence.
Qed.

Lemma cliprdr_message_safe : safe decode_client_message_from (λ _, True).
Proof.
  unfold decode_client_message_from. do 3 safe_step.
  eapply (safe_bind _ _ (λ s, bytes_ok s ∧ len s < 2 ^ 63)).
  { intros c Hc Hb. pose proof (read_slice_safe a1 ltac:(lia) c Hc Hb) as Hs.
    destruct (read_slice a1 c) as [[s c1]| |]; [|done..]. destruct Hs as (? & ? & ? & ? & ?).
    split_and!; try done. lia. }
  intros body [Hb Hl]. repeat (match goal with |- safe (if ?b then _ else _) _ => destruct b end);
    try by apply safe_ret.
  - apply safe_lift_res. unfold decode_format_list.
    pose proof (safe_n_run _ _ _ body (format_list_loop_safe (length body) []) Hb Hl ltac:(unfold len; lia)) as Hsf.
    by destruct (run _ body).
  - apply safe_lift_res. pose proof (safe_run _ _ body read_u32_le_safe Hb Hl) as Hsf. by destruct (run _ body).
Qed.

(** *** Format lists *)

Definition list_entry (e : Z * list Z) : bytes :=
  write_u32_le e.1 ++ write_units e.2 ++ write_u16_le 0.
Definition entry_ok (e : Z * list Z) : Prop := u32_ok e.1 ∧ Forall (λ u, 0 < u < 2 ^ 16) e.2.

Lemma skip_name_reads us l : ∀ fuel, (length us < fuel)%nat → Forall (λ u, 0 < u < 2 ^ 16) us →
  reads (skip_name fuel) (write_units us ++ write_u16_le 0 ++ l) () l.
Proof.
  induction us as [|u us IH]; intros [|fuel] Hf Hus; cbn [length] in Hf; try lia; cbn [skip_name];
    (eapply reads_bind; [apply get_remaining_reads|cbn beta]).
  - rewrite (proj2 (Z.ltb_ge _ _)) by (cbn [write_units]; pose proof (len_nonneg l); len_lia).
    eapply reads_bind; [by apply read_u16_le_write|cbn beta]. apply reads_ret.
  - apply Forall_cons in Hus as [Hu Hus].
    change (write_units (u :: us)) with (write_u16_le u ++ write_units us).
    rewrite (proj2 (Z.ltb_ge _ _)) by (pose proof (len_nonneg l); pose proof (len_nonneg (write_units us)); len_lia).
    rewrite <-(assoc_L (++)). eapply reads_bind; [apply read_u16_le_write; lia|cbn beta].
    rewrite (proj2 (Z.eqb_neq _ _)) by lia. apply IH; [lia|done].
Qed.

Lemma format_list_loop_reads es : ∀ fuel ids,
  (length (concat (list_entry <$> es)) ≤ fuel)%nat → Forall entry_ok es →
  reads (format_list_loop fuel ids) (concat (list_entry <$> es)) (ids ++ es.*1) [].
Proof.
  induction es as [|e es IH]; intros fuel ids Hf Hes.
  { rewrite app_nil_r. destruct fuel; cbn [format_list_loop];
      (eapply reads_bind; [apply get_remaining_reads|cbn beta]); apply reads_ret. }
  apply Forall_cons in Hes as [[He1 He2] Hes]. rewrite !fmap_cons in *. cbn [concat] in *.
  rewrite length_app in Hf. unfold list_entry in Hf at 1. rewrite !length_app in Hf.
  unfold write_u32_le, write_u16_le in Hf. rewrite !length_to_le in Hf.
  assert (length (write_units e.2) = 2 * length e.2)%nat as Hu.
  { pose proof (len_write_units e.2) as H. unfold len in H. lia. }
  destruct fuel as [|fuel]; [lia|]. cbn [format_list_loop].
  eapply reads_bind; [apply get_remaining_reads|cbn beta].
  change (list_entry e) with (write_u32_le e.1 ++ write_units e.2 ++ write_u16_le 0).
  pose proof (len_nonneg (concat (list_entry <$> es))). pose proof (len_nonneg (write_units e.2)).
  rewrite (proj2 (Z.ltb_ge _ _)) by len_lia. rewrite <-!(assoc_L (++)).
  eapply reads_bind; [by apply read_u32_le_write|cbn beta].
  eapply reads_bind; [apply skip_name_reads; [lia|done]|cbn beta].
  eapply reads_eq; [apply (IH fuel (ids ++ [e.1])); [lia|done]|done|]. by rewrite <-(assoc_L (++)).
Qed.

(** *** Text *)

Lemma step_by_2_units us : step_by_2 (write_units us) = (λ u, u mod 256) <$> us.
Proof. induction us as [|u us IH]; [done|]. cbn [write_units]. cbn. by f_equal. Qed.

Lemma decode_text_units text :
  str_ok text → Forall (λ c, c ≠ 0) text →
  decode_text_body (encode_units text ++ write_u16_le 0) = text.
Proof.
  intros Hs Hnz. unfold encode_units. set (us := encode_utf16 text).
  assert (write_units us ++ write_u16_le 0 = write_units (us ++ [0])) as E.
  { unfold write_units. rewrite bind_app. cbn. done. }
  assert (read_fixed (write_units us ++ write_u16_le 0) = text) as Hr.
  { unfold read_fixed. rewrite le_units_write_units by by apply encode_utf16_u16.
    replace (le_units (write_u16_le 0)) with [0] by reflexivity.
    rewrite take_while_stop; [by apply decode_encode_utf16|by apply encode_utf16_nonzero|done]. }
  assert (len (write_units us ++ write_u16_le 0) = 2 * (len us + 1)) as Hl.
  { rewrite len_app, len_write_units. len_lia. }
  pose proof (len_nonneg us) as Hus. unfold decode_text_body.
  destruct (write_units us ++ write_u16_le 0) as [|b bs] eqn:Eb; [by rewrite <-Hr|].
  rewrite <-Eb in *. rewrite Hl.
  replace (2 <=? 2 * (len us + 1)) with true by lia. rewrite Z.even_mul. cbn [Z.even andb orb].
  match goal with |- (if ?b then _ else _) = _ => assert (b = true) as -> end; [|done].
  apply orb_true_iff. destruct us as [|u us'] eqn:Eu.
  - left. done.
  - right. rewrite E, step_by_2_units. rewrite fmap_app. cbn [app drop fmap list_fmap].
    apply existsb_exists. exists 0. split; [|done]. apply in_or_app. right. by left.
Qed.

(** ** Delivery *)

Section delivery.
Context {B : Type} `{!CliprdrBackend B}.
Implicit Types ch : CliprdrChannel B.

(** The payloads of a message, one after another. *)
Fixpoint receive ch (payloads : list bytes) : CliprdrChannel B * list (res DecodeError (list bytes)) :=
  match payloads with
  | [] => (ch, [])
  | p :: payloads =>
    let '(ch, r) := on_channel_data ch p in
    let '(ch, rs) := receive ch payloads in
    (ch, r :: rs)
  end.

Lemma set_buffer_twice ch b1 b2 : set_buffer (set_buffer ch b1) b2 = set_buffer ch b2.
Proof. done. Qed.

Lemma receive_feed m msg ch' out ps : ∀ ch k,
  feed (incoming_buffer ch) ps MAX_CLIPRDR_MESSAGE_SIZE "cliprdr.incoming_buffer"
    = ([], replicate k (Ok None) ++ [Ok (Some m)]) →
  decode_client_message m = Ok msg → on_message (set_buffer ch []) msg = (ch', out) →
  receive ch ps = (ch', replicate k (Ok []) ++ [Ok out]).
Proof.
  induction ps as [|p ps IH]; intros ch k Hf Hd Ho; cbn [feed] in Hf; [by destruct k|].
  cbn [receive]. unfold on_channel_data.
  destruct (reassemble (incoming_buffer ch) p _ _) as [b r].
  destruct (feed b ps _ _) as [b2 rs] eqn:Ef.
  injection Hf as -> Hrs. destruct k as [|k]; cbn [replicate app] in Hrs; injection Hrs as -> ->.
  - destruct ps; [|cbn in Ef; by repeat case_match]. cbn in Ef. injection Ef as ->. rewrite Hd, Ho. done.
  - rewrite (IH (set_buffer ch b) k); [done|done|done|]. by rewrite set_buffer_twice.
Qed.

Lemma receive_message ch m msg :
  len m ≤ MAX_CLIPRDR_MESSAGE_SIZE → decode_client_message m = Ok msg →
  receive ch (chunkify m) = ((on_message (set_buffer ch []) msg).1,
    replicate (pred (length (chunkify m))) (Ok []) ++ [Ok (on_message (set_buffer ch []) msg).2]).
Proof.
  unfold MAX_CLIPRDR_MESSAGE_SIZE. intros Hl Hd. eapply receive_feed; [|exact Hd|by destruct (on_message _ _)].
  apply feed_chunkify; unfold MAX_CLIPRDR_MESSAGE_SIZE; lia.
Qed.

Lemma header_body_decode t f body msg :
  u16_ok t → u16_ok f → len body < 2 ^ 32 →
  (∀ rest, reads (if t =? CB_FORMAT_LIST then lift_res (FormatList <$> decode_format_list body)
    else if t =? CB_FORMAT_LIST_RESPONSE then mret FormatListResponse
    else if t =? CB_FORMAT_DATA_REQUEST then lift_res (FormatDataRequest <$> run read_u32_le body)
    else if t =? CB_FORMAT_DATA_RESPONSE then
      if has_bits f CB_RESPONSE_FAIL then mret (FormatDataResponse Failed)
      else mret (FormatDataResponse (StatusOk (decode_text_body body)))
    else mret Other) rest msg rest) →
  decode_client_message (write_header t f (len body) ++ write_slice body) = Ok msg.
Proof.
  intros Ht Hf Hl H. pose proof (len_nonneg body). unfold write_header. rewrite as_u32_id by lia.
  apply run_reads_whole; [len_lia|]. unfold decode_client_message_from. rewrite <-!(assoc_L (++)).
  eapply reads_bind; [by apply read_u16_le_write|cbn beta].
  eapply reads_bind; [by apply read_u16_le_write|cbn beta].
  eapply reads_bind; [apply read_u32_le_write; lia|cbn beta].
  eapply reads_bind; [by apply read_slice_write|cbn beta]. apply H.
Qed.

(** Clipboard messages arrive whole.  Whatever an unfinished message left in its
    buffer, a channel that receives the chunks of a text response hands its backend exactly
    that text, once, with the last chunk, and answers nothing; on the chunks of a format
    list with names of any length it reports exactly the formats, in order, and answers
    with the acknowledgement.  The heuristic that tells UTF-16 from bytes recognises every
    text this encoder writes. *)
Theorem cliprdr_delivers ch text entries :
  str_ok text → Forall (λ c, c ≠ 0) text →
  len (encode_format_data_response_text text) ≤ MAX_CLIPRDR_MESSAGE_SIZE →
  Forall entry_ok entries →
  let list_body := concat (list_entry <$> entries) in
  let list_pdu := write_header CB_FORMAT_LIST 0 (len list_body) ++ write_slice list_body in
  len list_pdu ≤ MAX_CLIPRDR_MESSAGE_SIZE →
  (∃ k, receive ch (chunkify (encode_format_data_response_text text))
    = (set_backend (set_buffer ch []) (on_format_data_response (backend ch) (StatusOk text)),
       replicate k (Ok []) ++ [Ok []]))
  ∧ ∃ k, receive ch (chunkify list_pdu)
    = (set_backend (set_buffer ch []) (on_remote_copy (backend ch) ((λ e, {| cf_id := e.1 |}) <$> entries)),
       replicate k (Ok []) ++
       [Ok (wrap_indication (user_channel_id ch) (channel_id ch) encode_format_list_response_ok)]).
Proof.
  intros Hs Hnz Hl He list_body list_pdu Hl'. unfold MAX_CLIPRDR_MESSAGE_SIZE in *. split; eexists.
  - rewrite (receive_message ch _ (FormatDataResponse (StatusOk text))); [done|exact Hl|].
    unfold encode_format_data_response_text in *.
    apply header_body_decode; [done|done| |].
    + revert Hl. unfold write_header. pose proof (len_nonneg (encode_units text)). len_lia.
    + intros rest. cbn. rewrite decode_text_units by done. apply reads_ret.
  - rewrite (receive_message ch _ (FormatList entries.*1)); [|exact Hl'|].
    + cbn. rewrite <-list_fmap_compose. done.
    + apply header_body_decode; [done|done| |].
      * revert Hl'. unfold list_pdu, write_header. len_lia.
      * intros rest. cbn match. unfold decode_format_list.
        assert (run (format_list_loop (length list_body) []) list_body = Ok entries.*1) as ->.
        { eapply reads_run; [|apply (format_list_loop_reads entries (length list_body) []); [done|done]].
          revert Hl'. unfold list_pdu, write_header. len_lia. }
        intros c Hc <-. by exists c.
Qed.
End delivery.

(** A backend that keeps what it is told. *)
Record sample_backend := { copies : list (list ClipboardFormat); texts : list FormatDataStatus }.
Global Instance sample_backend_instance : CliprdrBackend sample_backend := {
  on_ready b := b;
  on_remote_copy b fs := {| copies := copies b ++ [fs]; texts := texts b |};
  on_format_data_request b _ := b;
  on_format_data_response b r := {| copies := copies b; texts := texts b ++ [r] |}
}.

Lemma cliprdr_delivers_witness :
  let ch := (CliprdrChannel_new 1004 1001 {| copies := []; texts := [] |}).1 in
  ∃ k, receive ch (chunkify (encode_format_data_response_text [0x65E5; 0x672C; 0x1F600]))
    = (set_backend (set_buffer ch []) {| copies := []; texts := [StatusOk [0x65E5; 0x672C; 0x1F600]] |},
       replicate k (Ok []) ++ [Ok []]).
Proof.
  intros ch.
  refine (proj1 (cliprdr_delivers ch [0x65E5; 0x672C; 0x1F600] [(13, []); (49152, [72; 84; 77; 76])] _ _ _ _ _)).
  - unfold str_ok, scalar_ok. repeat constructor; lia.
  - repeat constructor; lia.
  - vm_compute. discriminate.
  - repeat constructor; cbn; lia.
  - vm_compute. discriminate.
Defined.

(** No payload makes the channel panic, and its buffer stays below the limit. *)
Theorem cliprdr_never_panics {B : Type} `{!CliprdrBackend B} (ch : CliprdrChannel B) payload :
  bytes_ok payload → len payload < 2 ^ 63 →
  len (incoming_buffer ch) ≤ MAX_CLIPRDR_MESSAGE_SIZE → bytes_ok (incoming_buffer ch) →
  let '(ch', r) := on_channel_data ch payload in
  no_panic r ∧ len (incoming_buffer ch') ≤ MAX_CLIPRDR_MESSAGE_SIZE ∧ bytes_ok (incoming_buffer ch').
Proof.
  intros Hb Hl Hbl Hbb. unfold on_channel_data.
  pose proof (reassemble_spec (incoming_buffer ch) payload MAX_CLIPRDR_MESSAGE_SIZE
    "cliprdr.incoming_buffer" Hb Hl ltac:(done) Hbl Hbb) as Hr.
  destruct (reassemble _ _ _ _) as [b [[m|]|e|]]; [|by destruct Hr| |done].
  - destruct Hr as (-> & Hlm & Hbm). unfold MAX_CLIPRDR_MESSAGE_SIZE in Hlm.
    pose proof (safe_run _ _ m cliprdr_message_safe Hbm ltac:(lia)) as Hd. unfold decode_client_message.
    destruct (run decode_client_message_from m) as [msg|e|]; [| |done].
    + destruct msg; cbn; (split; [done|]); (split; [done|apply bytes_ok_nil]).
    + cbn. split; [done|]. split; [done|apply bytes_ok_nil].
  - cbn. split; [done|]. destruct Hr as [-> | ->]; [split; [done|apply bytes_ok_nil]|done].
Qed.
