(* ===== verification/RdpdrPdu.v ===== *)
(** [rdpcore-rdpdr]: the wire format of device redirection ([pdu.rs]) and of the requests
    the server sends to a device with the replies it reads ([irp.rs]); and a client's
    decoder of the requests. *)
From S2P Require Import Prelude Cursor Utf.

(** ** Constants *)

Definition RDPDR_CTYP_CORE : Z := 0x4472.
Definition PAKID_CORE_SERVER_ANNOUNCE : Z := 0x496E.
Definition PAKID_CORE_CLIENTID_CONFIRM : Z := 0x4343.
Definition PAKID_CORE_CLIENT_NAME : Z := 0x434E.
Definition PAKID_CORE_DEVICELIST_ANNOUNCE : Z := 0x4441.
Definition PAKID_CORE_DEVICELIST_REMOVE : Z := 0x444D.
Definition PAKID_CORE_DEVICE_REPLY : Z := 0x6472.
Definition PAKID_CORE_DEVICE_IOREQUEST : Z := 0x4952.
Definition PAKID_CORE_DEVICE_IOCOMPLETION : Z := 0x4943.
Definition PAKID_CORE_SERVER_CAPABILITY : Z := 0x5350.
Definition PAKID_CORE_CLIENT_CAPABILITY : Z := 0x4350.
Definition PAKID_CORE_USER_LOGGEDON : Z := 0x554C.
Definition VERSION_MAJOR : Z := 0x0001.
Definition VERSION_MINOR : Z := 0x000C.
Definition CAP_GENERAL_TYPE : Z := 0x0001.
Definition CAP_PRINTER_TYPE : Z := 0x0002.
Definition CAP_DRIVE_TYPE : Z := 0x0004.
Definition GENERAL_CAPABILITY_VERSION_02 : Z := 0x00000002.
Definition PRINT_CAPABILITY_VERSION_01 : Z := 0x00000001.
Definition DRIVE_CAPABILITY_VERSION_02 : Z := 0x00000002.
Definition CAPABILITY_HEADER_LENGTH : Z := 8.
Definition RDPDR_DEVICE_REMOVE_PDUS : Z := 0x00000001.
Definition RDPDR_CLIENT_DISPLAY_NAME_PDU : Z := 0x00000002.
Definition RDPDR_USER_LOGGEDON_PDU : Z := 0x00000004.
Definition ENABLE_ASYNCIO : Z := 0x00000001.
Definition RDPDR_DTYP_PRINT : Z := 0x00000004.
Definition RDPDR_DTYP_FILESYSTEM : Z := 0x00000008.
Definition STATUS_SUCCESS : Z := 0x00000000.
Definition STATUS_UNSUCCESSFUL : Z := 0xC0000001.
Definition RDPDR_PRINTER_ANNOUNCE_FLAG_ASCII : Z := 0x00000001.
Definition RDPDR_PRINTER_ANNOUNCE_FLAG_DEFAULTPRINTER : Z := 0x00000002.

Definition IRP_MJ_CREATE : Z := 0x00000000.
Definition IRP_MJ_CLOSE : Z := 0x00000002.
Definition IRP_MJ_READ : Z := 0x00000003.
Definition IRP_MJ_WRITE : Z := 0x00000004.
Definition IRP_MJ_SET_INFORMATION : Z := 0x00000006.
Definition IRP_MJ_DIRECTORY_CONTROL : Z := 0x0000000C.
Definition IRP_MN_QUERY_DIRECTORY : Z := 0x00000001.
Definition FILE_OPEN : Z := 0x00000001.
Definition FILE_CREATE : Z := 0x00000002.
Definition FILE_OPEN_IF : Z := 0x00000003.
Definition FILE_OVERWRITE_IF : Z := 0x00000005.
Definition FILE_DIRECTORY_FILE : Z := 0x00000001.
Definition FILE_SYNCHRONOUS_IO_NONALERT : Z := 0x00000020.
Definition FILE_NON_DIRECTORY_FILE : Z := 0x00000040.
Definition FILE_DELETE_ON_CLOSE : Z := 0x00001000.
Definition FILE_READ_DATA : Z := 0x00000001.
Definition FILE_WRITE_ATTRIBUTES : Z := 0x00000100.
Definition DELETE : Z := 0x00010000.
Definition GENERIC_READ : Z := 0x80000000.
Definition GENERIC_WRITE : Z := 0x40000000.
Definition SYNCHRONIZE : Z := 0x00100000.
Definition FILE_SHARE_READ : Z := 0x00000001.
Definition FILE_SHARE_WRITE : Z := 0x00000002.
Definition FILE_SHARE_DELETE : Z := 0x00000004.
Definition FILE_SHARE_ALL : Z := Z.lor (Z.lor FILE_SHARE_READ FILE_SHARE_WRITE) FILE_SHARE_DELETE.
Definition FILE_ATTRIBUTE_DIRECTORY : Z := 0x00000010.
Definition FILE_BASIC_INFORMATION : Z := 0x00000004.
Definition FILE_RENAME_INFORMATION : Z := 0x0000000A.
Definition FILE_DISPOSITION_INFORMATION : Z := 0x0000000D.
Definition FILE_END_OF_FILE_INFORMATION : Z := 0x00000014.
Definition FILE_DIRECTORY_INFORMATION_CLASS : Z := 1.
Definition STATUS_NO_MORE_FILES : Z := 0x80000006.

(** ** Server PDUs *)

Definition write_rdpdr_header (packet_id : Z) : bytes :=
  write_u16_le RDPDR_CTYP_CORE ++ write_u16_le packet_id.

Definition encode_server_announce_request (client_id : Z) : bytes :=
  write_rdpdr_header PAKID_CORE_SERVER_ANNOUNCE ++ write_u16_le VERSION_MAJOR
  ++ write_u16_le VERSION_MINOR ++ write_u32_le client_id.
Definition encode_client_id_confirm (client_id : Z) : bytes :=
  write_rdpdr_header PAKID_CORE_CLIENTID_CONFIRM ++ write_u16_le VERSION_MAJOR
  ++ write_u16_le VERSION_MINOR ++ write_u32_le client_id.
Definition encode_user_logged_on : bytes := write_rdpdr_header PAKID_CORE_USER_LOGGEDON.

Definition encode_server_capability_request (supported : Z) : bytes :=
  let num_capabilities := 1 + (if has_bits supported RDPDR_DTYP_FILESYSTEM then 1 else 0)
                          + (if has_bits supported RDPDR_DTYP_PRINT then 1 else 0) in
  write_rdpdr_header PAKID_CORE_SERVER_CAPABILITY ++ write_u16_le num_capabilities ++ write_u16_le 0
  ++ write_u16_le CAP_GENERAL_TYPE ++ write_u16_le (CAPABILITY_HEADER_LENGTH + 36)
  ++ write_u32_le GENERAL_CAPABILITY_VERSION_02 ++ write_u32_le 0 ++ write_u32_le 0
  ++ write_u16_le VERSION_MAJOR ++ write_u16_le VERSION_MINOR
  ++ write_u32_le 0xFFFFFFFF ++ write_u32_le 0
  ++ write_u32_le (Z.lor (Z.lor RDPDR_DEVICE_REMOVE_PDUS RDPDR_CLIENT_DISPLAY_NAME_PDU)
                         RDPDR_USER_LOGGEDON_PDU)
  ++ write_u32_le ENABLE_ASYNCIO ++ write_u32_le 0 ++ write_u32_le 0
  ++ (if has_bits supported RDPDR_DTYP_FILESYSTEM
      then write_u16_le CAP_DRIVE_TYPE ++ write_u16_le CAPABILITY_HEADER_LENGTH
           ++ write_u32_le DRIVE_CAPABILITY_VERSION_02 else [])
  ++ (if has_bits supported RDPDR_DTYP_PRINT
      then write_u16_le CAP_PRINTER_TYPE ++ write_u16_le CAPABILITY_HEADER_LENGTH
           ++ write_u32_le PRINT_CAPABILITY_VERSION_01 else []).

Definition encode_device_reply (device_id status : Z) : bytes :=
  write_rdpdr_header PAKID_CORE_DEVICE_REPLY ++ write_u32_le device_id ++ write_u32_le status.

(** ** Client PDUs *)

Record DeviceAnnounce := {
  da_device_type : Z; da_device_id : Z; preferred_dos_name : rstring; device_data : bytes }.
Record PrinterDeviceData := { driver_name : rstring; print_name : rstring; is_default : bool }.

(** [trim_end_matches('\0')]. *)
Definition trim_end_nul (s : rstring) : rstring :=
  reverse (drop (length (take_while (Z.eqb 0) (reverse s))) (reverse s)).

Definition decode_printer_string (n : Z) (ascii : bool) : reader rstring :=
  bytes ← read_slice n;
  mret (trim_end_nul (if ascii then from_utf8_lossy bytes else decode_units bytes)).

Definition decode_printer_from : reader PrinterDeviceData :=
  flags ← read_u32_le;
  _ ← read_u32_le;
  pnp_name_len ← read_u32_le;
  driver_name_len ← read_u32_le;
  print_name_len ← read_u32_le;
  _ ← read_u32_le;
  let ascii := has_bits flags RDPDR_PRINTER_ANNOUNCE_FLAG_ASCII in
  _ ← decode_printer_string pnp_name_len ascii;
  driver ← decode_printer_string driver_name_len ascii;
  print ← decode_printer_string print_name_len ascii;
  mret {| driver_name := driver; print_name := print;
          is_default := has_bits flags RDPDR_PRINTER_ANNOUNCE_FLAG_DEFAULTPRINTER |}.
(** [None] for any error. *)
Definition decode_printer_device_data (data : bytes) : res DecodeError (option PrinterDeviceData) :=
  match run decode_printer_from data with
  | Ok d => Ok (Some d) | Err _ => Ok None | Panic => Panic
  end.

Inductive ClientMessage :=
  | AnnounceReply
  | ClientName
  | ClientCapability
  | DeviceListAnnounce (devices : list DeviceAnnounce)
  | DeviceListRemove (device_ids : list Z)
  | UserLoggedOn
  | DeviceIoCompletion (device_id completion_id io_status : Z) (body : bytes)
  | Other.

Definition decode_device_announce : reader DeviceAnnounce :=
  device_type ← read_u32_le;
  device_id ← read_u32_le;
  dos_name_raw ← read_slice 8;
  let end_ := match position (Z.eqb 0) dos_name_raw with Some i => Z.of_nat i | None => 8 end in
  let name := from_utf8_lossy (ztake end_ dos_name_raw) in
  device_data_length ← read_u32_le;
  device_data ← read_slice device_data_length;
  mret {| da_device_type := device_type; da_device_id := device_id; preferred_dos_name := name;
          device_data := device_data |}.
Definition MIN_ANNOUNCE_BYTES : Z := 4 + 4 + 8 + 4.
Definition decode_device_list_announce : reader (list DeviceAnnounce) :=
  device_count ← read_u32_le;
  ensure_count device_count MIN_ANNOUNCE_BYTES "rdpdr.deviceCount" ;;
  read_many (Z.to_nat device_count) decode_device_announce.
Definition decode_device_list_remove : reader (list Z) :=
  device_count ← read_u32_le;
  ensure_count device_count 4 "rdpdr.deviceCount" ;;
  read_many (Z.to_nat device_count) read_u32_le.

Definition decode_io_completion : reader ClientMessage :=
  device_id ← read_u32_le;
  completion_id ← read_u32_le;
  io_status ← read_u32_le;
  body ← read_rest;
  mret (DeviceIoCompletion device_id completion_id io_status body).

(** The body is read by a cursor of its own. *)
Definition decode_client_message_from : reader ClientMessage :=
  _ ← read_u16_le;
  packet_id ← read_u16_le;
  body ← read_rest;
  if packet_id =? PAKID_CORE_CLIENTID_CONFIRM then mret AnnounceReply
  else if packet_id =? PAKID_CORE_CLIENT_NAME then mret ClientName
  else if packet_id =? PAKID_CORE_CLIENT_CAPABILITY then mret ClientCapability
  else if packet_id =? PAKID_CORE_DEVICELIST_ANNOUNCE then
    lift_res (DeviceListAnnounce <$> run decode_device_list_announce body)
  else if packet_id =? PAKID_CORE_DEVICELIST_REMOVE then
    lift_res (DeviceListRemove <$> run decode_device_list_remove body)
  else if packet_id =? PAKID_CORE_USER_LOGGEDON then mret UserLoggedOn
  else if packet_id =? PAKID_CORE_DEVICE_IOCOMPLETION then lift_res (run decode_io_completion body)
  else mret Other.
Definition decode_client_message (input : bytes) : res DecodeError ClientMessage :=
  run decode_client_message_from input.

(** ** Requests to a device *)

Definition write_io_request_header (device_id file_id completion_id major minor : Z) : bytes :=
  write_u16_le RDPDR_CTYP_CORE ++ write_u16_le PAKID_CORE_DEVICE_IOREQUEST ++ write_u32_le device_id
  ++ write_u32_le file_id ++ write_u32_le completion_id ++ write_u32_le major ++ write_u32_le minor.
Definition zero_padding (n : nat) : bytes := replicate n 0.

Definition encode_create_request (device_id completion_id : Z) (path : rstring)
    (desired_access create_disposition create_options : Z) : bytes :=
  let path_bytes := encode_units path ++ write_u16_le 0 in
  write_io_request_header device_id 0 completion_id IRP_MJ_CREATE 0
  ++ write_u32_le desired_access ++ write_u32_le 0 ++ write_u32_le 0 ++ write_u32_le 0
  ++ write_u32_le FILE_SHARE_ALL ++ write_u32_le create_disposition ++ write_u32_le create_options
  ++ write_u32_le (as_u32 (len path_bytes)) ++ write_slice path_bytes.
Definition encode_close_request (device_id file_id completion_id : Z) : bytes :=
  write_io_request_header device_id file_id completion_id IRP_MJ_CLOSE 0 ++ zero_padding 32.
Definition encode_read_request (device_id file_id completion_id length offset : Z) : bytes :=
  write_io_request_header device_id file_id completion_id IRP_MJ_READ 0
  ++ write_u32_le length ++ write_u64_le offset ++ zero_padding 20.
Definition encode_write_request (device_id file_id completion_id offset : Z) (data : bytes) : bytes :=
  write_io_request_header device_id file_id completion_id IRP_MJ_WRITE 0
  ++ write_u32_le (as_u32 (len data)) ++ write_u64_le offset ++ zero_padding 20 ++ write_slice data.
Definition encode_query_directory_request (device_id file_id completion_id : Z)
    (path : option rstring) : bytes :=
  let path_bytes := match path with Some p => encode_units p ++ write_u16_le 0 | None => [] end in
  write_io_request_header device_id file_id completion_id IRP_MJ_DIRECTORY_CONTROL
    IRP_MN_QUERY_DIRECTORY
  ++ write_u32_le FILE_DIRECTORY_INFORMATION_CLASS
  ++ write_u8 (match path with Some _ => 1 | None => 0 end)
  ++ write_u32_le (as_u32 (len path_bytes)) ++ zero_padding 23 ++ write_slice path_bytes.
Definition encode_set_information_request (device_id file_id completion_id class : Z)
    (set_buffer : bytes) : bytes :=
  write_io_request_header device_id file_id completion_id IRP_MJ_SET_INFORMATION 0
  ++ write_u32_le class ++ write_u32_le (as_u32 (len set_buffer)) ++ zero_padding 24
  ++ write_slice set_buffer.

Definition disposition_information_buffer (delete_file : bool) : bytes := [if delete_file then 1 else 0].
Definition encode_set_disposition_request (device_id file_id completion_id : Z) (delete_file : bool)
  : bytes :=
  encode_set_information_request device_id file_id completion_id FILE_DISPOSITION_INFORMATION
    (disposition_information_buffer delete_file).
Definition rename_information_buffer (new_path : rstring) (replace_if_exists : bool) : bytes :=
  let name_bytes := encode_units new_path ++ write_u16_le 0 in
  write_u8 (if replace_if_exists then 1 else 0) ++ write_u8 0
  ++ write_u32_le (as_u32 (len name_bytes)) ++ write_slice name_bytes.
Definition encode_set_rename_request (device_id file_id completion_id : Z) (new_path : rstring)
    (replace_if_exists : bool) : bytes :=
  encode_set_information_request device_id file_id completion_id FILE_RENAME_INFORMATION
    (rename_information_buffer new_path replace_if_exists).
Definition end_of_file_information_buffer (end_of_file : Z) : bytes := write_u64_le (as_u64 end_of_file).
Definition encode_set_end_of_file_request (device_id file_id completion_id end_of_file : Z) : bytes :=
  encode_set_information_request device_id file_id completion_id FILE_END_OF_FILE_INFORMATION
    (end_of_file_information_buffer end_of_file).
Definition basic_information_buffer (creation last_access last_write change attributes : Z) : bytes :=
  write_u64_le (as_u64 creation) ++ write_u64_le (as_u64 last_access)
  ++ write_u64_le (as_u64 last_write) ++ write_u64_le (as_u64 change) ++ write_u32_le attributes.
Definition encode_set_basic_information_request
    (device_id file_id completion_id creation last_access last_write change attributes : Z) : bytes :=
  encode_set_information_request device_id file_id completion_id FILE_BASIC_INFORMATION
    (basic_information_buffer creation last_access last_write change attributes).

(** ** Replies of a device *)

Record CreateReply := { cr_file_id : Z; information : Z }.
Definition decode_create_reply_from : reader CreateReply :=
  file_id ← read_u32_le;
  information ← read_u8;
  mret {| cr_file_id := file_id; information := information |}.
Definition decode_create_reply (body : bytes) : res DecodeError CreateReply :=
  run decode_create_reply_from body.
Definition decode_read_reply (body : bytes) : res DecodeError bytes :=
  run (length ← read_u32_le; read_slice length) body.
Definition decode_write_reply (body : bytes) : res DecodeError Z := run read_u32_le body.

Definition as_i64 (z : Z) : Z := (z + 2 ^ 63) mod 2 ^ 64 - 2 ^ 63.
Record DirectoryEntry := {
  file_index : Z; creation_time : Z; last_access_time : Z; last_write_time : Z; change_time : Z;
  end_of_file : Z; allocation_size : Z; file_attributes : Z; file_name : rstring }.
Definition decode_directory_entry : reader DirectoryEntry :=
  _ ← read_u32_le;
  file_index ← read_u32_le;
  creation ← read_u64_le;
  last_access ← read_u64_le;
  last_write ← read_u64_le;
  change ← read_u64_le;
  eof ← read_u64_le;
  allocation ← read_u64_le;
  attributes ← read_u32_le;
  file_name_length ← read_u32_le;
  name ← read_slice file_name_length;
  mret {| file_index := file_index; creation_time := as_i64 creation;
          last_access_time := as_i64 last_access; last_write_time := as_i64 last_write;
          change_time := as_i64 change; end_of_file := as_i64 eof; allocation_size := as_i64 allocation;
          file_attributes := attributes; file_name := decode_units name |}.
Definition decode_query_directory_reply_from : reader (option DirectoryEntry) :=
  length ← read_u32_le;
  if length =? 0 then mret None
  else
    entry_bytes ← read_slice length;
    lift_res (Some <$> run decode_directory_entry entry_bytes).
Definition decode_query_directory_reply (body : bytes) : res DecodeError (option DirectoryEntry) :=
  if bool_decide (body = []) then Ok None else run decode_query_directory_reply_from body.
