(* ===== verification/Rdpdr.v ===== *)
(** [rdpcore-rdpdr/src/lib.rs]: [RdpdrChannel], the server's side of device redirection,
    over the interface [DriveConsumer] of what drives it. *)
From S2P Require Import Prelude Cursor Utf Svc RdpdrPdu.

Definition CLIENT_ID : Z := 0x0001.
Definition MAX_PENDING_OPS : Z := 4096.
Definition MAX_DEVICES : Z := 256.
Definition MAX_RDPDR_MESSAGE_SIZE : Z := 16 * 1024 * 1024.

Inductive DriveCommand :=
  | Create (device_id : Z) (path : rstring)
      (desired_access create_disposition create_options request_tag : Z)
  | Close (device_id file_id request_tag : Z)
  | Read (device_id file_id length offset request_tag : Z)
  | Write (device_id file_id offset : Z) (data : bytes) (request_tag : Z)
  | QueryDirectory (device_id file_id : Z) (path : option rstring) (request_tag : Z)
  | SetInformation (device_id file_id fs_information_class : Z) (set_buffer : bytes) (request_tag : Z).

(** [trait DriveConsumer]; an [Err] carries an NTSTATUS. *)
Class DriveConsumer (C : Type) := {
  on_device_ready : C → Z → Z → rstring → C * list DriveCommand;
  on_create_reply : C → Z → CreateReply + Z → C * list DriveCommand;
  on_close_reply : C → Z → Z → C * list DriveCommand;
  on_read_reply : C → Z → bytes + Z → C * list DriveCommand;
  on_write_reply : C → Z → Z + Z → C * list DriveCommand;
  on_query_directory_reply : C → Z → option DirectoryEntry + Z → C * list DriveCommand;
  on_set_information_reply : C → Z → unit + Z → C * list DriveCommand;
  poll_commands : C → C * list DriveCommand
}.

Record PendingOp := { op_device_id : Z; major_function : Z; op_request_tag : Z }.

Record RdpdrChannel (C : Type) := {
  channel_id : Z; user_channel_id : Z; supported : Z;
  devices : gmap Z (Z * rstring); next_completion_id : Z; pending : gmap Z PendingOp;
  consumer : C; incoming_buffer : bytes }.
Arguments channel_id {C} _.
Arguments user_channel_id {C} _.
Arguments supported {C} _.
Arguments devices {C} _.
Arguments next_completion_id {C} _.
Arguments pending {C} _.
Arguments consumer {C} _.
Arguments incoming_buffer {C} _.

Section setters.
Context {C : Type}.
Definition set_devices (ch : RdpdrChannel C) d :=
  Build_RdpdrChannel C (channel_id ch) (user_channel_id ch) (supported ch) d (next_completion_id ch)
    (pending ch) (consumer ch) (incoming_buffer ch).
Definition set_pending (ch : RdpdrChannel C) next p :=
  Build_RdpdrChannel C (channel_id ch) (user_channel_id ch) (supported ch) (devices ch) next
    p (consumer ch) (incoming_buffer ch).
Definition set_consumer (ch : RdpdrChannel C) c :=
  Build_RdpdrChannel C (channel_id ch) (user_channel_id ch) (supported ch) (devices ch)
    (next_completion_id ch) (pending ch) c (incoming_buffer ch).
Definition set_incoming (ch : RdpdrChannel C) b :=
  Build_RdpdrChannel C (channel_id ch) (user_channel_id ch) (supported ch) (devices ch)
    (next_completion_id ch) (pending ch) (consumer ch) b.
End setters.

Definition drive_command_device_id (command : DriveCommand) : Z :=
  match command with
  | Create d _ _ _ _ _ | Close d _ _ | Read d _ _ _ _ | Write d _ _ _ _ | QueryDirectory d _ _ _
  | SetInformation d _ _ _ _ => d
  end.

(** The match of [encode_commands]: major function, tag and bytes. *)
Definition command_request (command : DriveCommand) (completion_id : Z) : Z * Z * bytes :=
  match command with
  | Create device_id path access disposition options tag =>
    (IRP_MJ_CREATE, tag, encode_create_request device_id completion_id path access disposition options)
  | Close device_id file_id tag =>
    (IRP_MJ_CLOSE, tag, encode_close_request device_id file_id completion_id)
  | Read device_id file_id length offset tag =>
    (IRP_MJ_READ, tag, encode_read_request device_id file_id completion_id length offset)
  | Write device_id file_id offset data tag =>
    (IRP_MJ_WRITE, tag, encode_write_request device_id file_id completion_id offset data)
  | QueryDirectory device_id file_id path tag =>
    (IRP_MJ_DIRECTORY_CONTROL, tag, encode_query_directory_request device_id file_id completion_id path)
  | SetInformation device_id file_id class set_buffer tag =>
    (IRP_MJ_SET_INFORMATION, tag,
     encode_set_information_request device_id file_id completion_id class set_buffer)
  end.

(** [match decode { Ok(v) => Ok(v), Err(_) => Err(io_status.max(1)) }]. *)
Definition decoded {A} (r : res DecodeError A) (io_status : Z) : res DecodeError (A + Z) :=
  match r with
  | Ok a => Ok (inl a)
  | Err _ => Ok (inr (Z.max io_status 1))
  | Panic => Panic
  end.

Section channel.
Context {C : Type} `{!DriveConsumer C}.
(** The order in which the [HashMap] of pending requests is iterated. *)
Context (order : gmap Z PendingOp → list (Z * PendingOp)).
Implicit Types ch : RdpdrChannel C.

Definition wrap ch (data : bytes) : list bytes := wrap_indication (user_channel_id ch) (channel_id ch) data.

Definition RdpdrChannel_new (channel_id user_channel_id supported : Z) (consumer : C)
  : RdpdrChannel C * list bytes :=
  ({| channel_id := channel_id; user_channel_id := user_channel_id; supported := supported;
      devices := ∅; next_completion_id := 0; pending := ∅; consumer := consumer; incoming_buffer := [] |},
   wrap_indication user_channel_id channel_id (encode_server_announce_request CLIENT_ID)).

(** A call of the consumer. *)
Definition call ch (f : C → C * list DriveCommand) : RdpdrChannel C * list DriveCommand :=
  let '(c, commands) := f (consumer ch) in (set_consumer ch c, commands).

(** The reply to a command that failed. *)
Definition fail_reply (command : DriveCommand) (status : Z) (c : C) : C * list DriveCommand :=
  match command with
  | Create _ _ _ _ _ tag => on_create_reply c tag (inr status)
  | Close _ _ tag => on_close_reply c tag status
  | Read _ _ _ _ tag => on_read_reply c tag (inr status)
  | Write _ _ _ _ tag => on_write_reply c tag (inr status)
  | QueryDirectory _ _ _ tag => on_query_directory_reply c tag (inr status)
  | SetInformation _ _ _ _ tag => on_set_information_reply c tag (inr status)
  end.
Definition fail_command_without_issuing ch (command : DriveCommand) (status : Z)
  : RdpdrChannel C * list DriveCommand :=
  call ch (fail_reply command status).

(** One command of the queue; the commands to put behind it, and the frames. *)
Definition encode_command ch (command : DriveCommand) : RdpdrChannel C * list DriveCommand * list bytes :=
  if MAX_PENDING_OPS <=? Z.of_nat (size (pending ch)) then
    (fail_command_without_issuing ch command STATUS_UNSUCCESSFUL, [])
  else
    let completion_id := next_completion_id ch in
    let '(major, tag, bytes) := command_request command completion_id in
    let op := {| op_device_id := drive_command_device_id command; major_function := major;
                 op_request_tag := tag |} in
    (set_pending ch (as_u32 (completion_id + 1)) (<[completion_id := op]> (pending ch)), [],
     wrap ch bytes).

(** The work queue; [None] when the fuel ends before the queue does. *)
Fixpoint encode_commands (fuel : nat) ch (queue : list DriveCommand) (out : list bytes)
  : option (RdpdrChannel C * list bytes) :=
  match queue with
  | [] => Some (ch, out)
  | command :: queue =>
    match fuel with
    | O => None
    | S fuel =>
      let '(ch, follow_up, frames) := encode_command ch command in
      encode_commands fuel ch (queue ++ follow_up) (out ++ frames)
    end
  end.

Definition flush_pending_commands (fuel : nat) ch : option (RdpdrChannel C * list bytes) :=
  let '(ch, commands) := call ch poll_commands in
  encode_commands fuel ch commands [].

Definition dispatch_completion ch (p : PendingOp) (io_status : Z) (body : bytes)
  : res DecodeError (RdpdrChannel C * list DriveCommand) :=
  let ok := io_status =? STATUS_SUCCESS in
  let tag := op_request_tag p in
  if major_function p =? IRP_MJ_CREATE then
    result ← (if ok then decoded (decode_create_reply body) io_status else Ok (inr io_status));
    Ok (call ch (λ c, on_create_reply c tag result))
  else if major_function p =? IRP_MJ_CLOSE then Ok (call ch (λ c, on_close_reply c tag io_status))
  else if major_function p =? IRP_MJ_READ then
    result ← (if ok then decoded (decode_read_reply body) io_status else Ok (inr io_status));
    Ok (call ch (λ c, on_read_reply c tag result))
  else if major_function p =? IRP_MJ_WRITE then
    result ← (if ok then decoded (decode_write_reply body) io_status else Ok (inr io_status));
    Ok (call ch (λ c, on_write_reply c tag result))
  else if major_function p =? IRP_MJ_DIRECTORY_CONTROL then
    result ← (if ok then decoded (decode_query_directory_reply body) io_status
              else if io_status =? STATUS_NO_MORE_FILES then Ok (inl None)
              else Ok (inr io_status));
    Ok (call ch (λ c, on_query_directory_reply c tag result))
  else if major_function p =? IRP_MJ_SET_INFORMATION then
    Ok (call ch (λ c, on_set_information_reply c tag (if ok then inl () else inr io_status)))
  else Ok (ch, []).

(** A completion of a request that was pending. *)
Definition complete (fuel : nat) ch (p : PendingOp) (io_status : Z) (body : bytes) (out : list bytes)
  : option (RdpdrChannel C * res DecodeError (list bytes)) :=
  match dispatch_completion ch p io_status body with
  | Ok (ch, commands) => '(ch, out) ← encode_commands fuel ch commands out; Some (ch, Ok out)
  | Err e => Some (ch, Err e)
  | Panic => Some (ch, Panic)
  end.

(** The loop over [DeviceListAnnounce]. *)
Fixpoint announce_devices (fuel : nat) ch (ds : list DeviceAnnounce) (out : list bytes)
  : option (RdpdrChannel C * list bytes) :=
  match ds with
  | [] => Some (ch, out)
  | d :: ds =>
    let at_capacity := bool_decide (devices ch !! da_device_id d = None)
                       && (MAX_DEVICES <=? Z.of_nat (size (devices ch))) in
    if has_bits (supported ch) (da_device_type d) && negb at_capacity then
      let ch := set_devices ch
        (<[da_device_id d := (da_device_type d, preferred_dos_name d)]> (devices ch)) in
      let out := out ++ wrap ch (encode_device_reply (da_device_id d) STATUS_SUCCESS) in
      let '(ch, commands) :=
        call ch (λ c, on_device_ready c (da_device_id d) (da_device_type d) (preferred_dos_name d)) in
      '(ch, out) ← encode_commands fuel ch commands out;
      announce_devices fuel ch ds out
    else
      announce_devices fuel ch ds
        (out ++ wrap ch (encode_device_reply (da_device_id d) STATUS_UNSUCCESSFUL))
  end.

(** The loop over the stale requests of [DeviceListRemove]. *)
Fixpoint fail_stale (fuel : nat) ch (stale : list Z) (out : list bytes)
  : option (RdpdrChannel C * res DecodeError (list bytes)) :=
  match stale with
  | [] => Some (ch, Ok out)
  | id :: stale =>
    match pending ch !! id with
    | Some p =>
      let ch := set_pending ch (next_completion_id ch) (delete id (pending ch)) in
      '(ch, r) ← complete fuel ch p STATUS_UNSUCCESSFUL [] out;
      match r with
      | Ok out => fail_stale fuel ch stale out
      | Err e => Some (ch, Err e)
      | Panic => Some (ch, Panic)
      end
    | None => fail_stale fuel ch stale out
    end
  end.

Definition remove_devices (fuel : nat) ch (ids : list Z)
  : option (RdpdrChannel C * res DecodeError (list bytes)) :=
  let ch := set_devices ch (foldl (λ m id, delete id m) (devices ch) ids) in
  let stale := (filter (λ x, op_device_id x.2 ∈ ids) (order (pending ch))).*1 in
  fail_stale fuel ch stale [].

Definition on_message (fuel : nat) ch (m : ClientMessage)
  : option (RdpdrChannel C * res DecodeError (list bytes)) :=
  match m with
  | AnnounceReply | UserLoggedOn | Other => Some (ch, Ok [])
  | ClientName =>
    Some (ch, Ok (wrap ch (encode_server_capability_request (supported ch))
                  ++ wrap ch (encode_client_id_confirm CLIENT_ID)))
  | ClientCapability => Some (ch, Ok (wrap ch encode_user_logged_on))
  | DeviceListAnnounce ds => '(ch, out) ← announce_devices fuel ch ds []; Some (ch, Ok out)
  | DeviceListRemove ids => remove_devices fuel ch ids
  | DeviceIoCompletion device_id completion_id io_status body =>
    match pending ch !! completion_id with
    | Some p =>
      let ch := set_pending ch (next_completion_id ch) (delete completion_id (pending ch)) in
      if negb (op_device_id p =? device_id) then Some (ch, Ok [])
      else complete fuel ch p io_status body []
    | None => Some (ch, Ok [])
    end
  end.

Definition on_channel_data (fuel : nat) ch (payload : bytes)
  : option (RdpdrChannel C * res DecodeError (list bytes)) :=
  let '(buffer, r) := reassemble (incoming_buffer ch) payload MAX_RDPDR_MESSAGE_SIZE
                        "rdpdr.incoming_buffer" in
  let ch := set_incoming ch buffer in
  match r with
  | Ok None => Some (ch, Ok [])
  | Ok (Some message) =>
    match decode_client_message message with
    | Ok m => on_message fuel ch m
    | Err e => Some (ch, Err e)
    | Panic => Some (ch, Panic)
    end
  | Err e => Some (ch, Err e)
  | Panic => Some (ch, Panic)
  end.
End channel.
