(* ===== verification/RdpdrWire.v ===== *)
(** A client that reads the requests of [RdpdrChannel]: what the server asks of a device
    arrives as it was asked. *)
From S2P Require Import Prelude Cursor Utf Svc RdpdrPdu Rdpdr.

(** ** The client's decoder *)

(** The commands without their tags, which stay with the server. *)
Definition untag (command : DriveCommand) : DriveCommand :=
  match command with
  | Create d p a b c _ => Create d p a b c 0
  | Close d f _ => Close d f 0
  | Read d f l o _ => Read d f l o 0
  | Write d f o data _ => Write d f o data 0
  | QueryDirectory d f p _ => QueryDirectory d f p 0
  | SetInformation d f c b _ => SetInformation d f c b 0
  end.

(** [n] bytes of UTF-16 with a terminator. *)
Definition read_path (n : Z) : reader rstring :=
  s ← read_slice (n - 2);
  z ← read_u16_le;
  reject_if (negb (z =? 0)) "path" "terminator" ;;
  mret (decode_units s).

Definition command_body (device_id file_id major minor : Z) : reader DriveCommand :=
  if major =? IRP_MJ_CREATE then
    access ← read_u32_le;
    _ ← read_u64_le;
    _ ← read_u32_le;
    _ ← read_u32_le;
    disposition ← read_u32_le;
    options ← read_u32_le;
    n ← read_u32_le;
    path ← read_path n;
    mret (Create device_id path access disposition options 0)
  else if major =? IRP_MJ_CLOSE then
    _ ← read_slice 32;
    mret (Close device_id file_id 0)
  else if major =? IRP_MJ_READ then
    length ← read_u32_le;
    offset ← read_u64_le;
    _ ← read_slice 20;
    mret (Read device_id file_id length offset 0)
  else if major =? IRP_MJ_WRITE then
    n ← read_u32_le;
    offset ← read_u64_le;
    _ ← read_slice 20;
    data ← read_slice n;
    mret (Write device_id file_id offset data 0)
  else if (major =? IRP_MJ_DIRECTORY_CONTROL) && (minor =? IRP_MN_QUERY_DIRECTORY) then
    class ← read_u32_le;
    reject_if (negb (class =? FILE_DIRECTORY_INFORMATION_CLASS)) "class" "not supported" ;;
    initial ← read_u8;
    n ← read_u32_le;
    _ ← read_slice 23;
    if initial =? 0 then mret (QueryDirectory device_id file_id None 0)
    else path ← read_path n; mret (QueryDirectory device_id file_id (Some path) 0)
  else if major =? IRP_MJ_SET_INFORMATION then
    class ← read_u32_le;
    n ← read_u32_le;
    _ ← read_slice 24;
    set_buffer ← read_slice n;
    mret (SetInformation device_id file_id class set_buffer 0)
  else invalid "major" "unknown".

(** A request: the completion number and the command. *)
Definition request_decode : reader (Z * DriveCommand) :=
  component ← read_u16_le;
  packet_id ← read_u16_le;
  reject_if (negb ((component =? RDPDR_CTYP_CORE) && (packet_id =? PAKID_CORE_DEVICE_IOREQUEST)))
    "rdpdr" "packet" ;;
  device_id ← read_u32_le;
  file_id ← read_u32_le;
  completion_id ← read_u32_le;
  major ← read_u32_le;
  minor ← read_u32_le;
  command ← command_body device_id file_id major minor;
  mret (completion_id, command).

(** ** Round trip *)

Definition path_ok (p : rstring) : Prop := str_ok p ∧ len (encode_units p) < 2 ^ 31.
Definition command_ok (command : DriveCommand) : Prop :=
  match command with
  | Create d p a b c _ => u32_ok d ∧ path_ok p ∧ u32_ok a ∧ u32_ok b ∧ u32_ok c
  | Close d f _ => u32_ok d ∧ u32_ok f
  | Read d f l o _ => u32_ok d ∧ u32_ok f ∧ u32_ok l ∧ u64_ok o
  | Write d f o data _ => u32_ok d ∧ u32_ok f ∧ u64_ok o ∧ len data < 2 ^ 31
  | QueryDirectory d f p _ => u32_ok d ∧ u32_ok f ∧ match p with Some p => path_ok p | None => True end
  | SetInformation d f c b _ => u32_ok d ∧ u32_ok f ∧ u32_ok c ∧ len b < 2 ^ 31
  end.

Lemma read_path_reads p l n :
  path_ok p → n = len (encode_units p ++ write_u16_le 0) →
  reads (read_path n) ((encode_units p ++ write_u16_le 0) ++ l) p l.
Proof.
  intros [Hs Hl] ->. unfold read_path. rewrite <-(assoc_L (++)).
  eapply reads_bind; [apply read_slice_reads; len_lia|cbn beta].
  reads_steps. by apply decode_units_encode_units.
Qed.

Lemma header_reads d f id major minor command body :
  u32_ok d → u32_ok f → u32_ok id → u32_ok major → u32_ok minor →
  reads (command_body d f major minor) (body ++ []) command [] →
  reads request_decode ((write_io_request_header d f id major minor ++ body) ++ []) (id, command) [].
Proof.
  intros Hd Hf Hi Hm Hn H. unfold request_decode, write_io_request_header. rewrite <-!(assoc_L (++)).
  eapply reads_bind; [by apply read_u16_le_write|cbn beta].
  eapply reads_bind; [by apply read_u16_le_write|cbn beta].
  eapply reads_bind; [by apply reject_if_reads|cbn beta].
  do 5 (eapply reads_bind; [by apply read_u32_le_write|cbn beta]).
  eapply reads_bind; [exact H|]. apply reads_ret.
Qed.

Lemma read_padding n k l : Z.of_nat n = k → reads (read_slice k) (zero_padding n ++ l) (zero_padding n) l.
Proof. intros <-. apply read_slice_reads. unfold zero_padding. by rewrite len_replicate. Qed.

Lemma len_path_bytes p : path_ok p → u32_ok (len (encode_units p ++ write_u16_le 0)).
Proof. intros [_ H]. pose proof (len_nonneg (encode_units p)). len_lia. Qed.

(** One field after another; a padding by its length, a path by its terminator. *)
Ltac body_step :=
  first
    [ eapply reads_bind; [apply read_padding; reflexivity|cbn beta]
    | eapply reads_bind; [solve [apply read_path_reads; [assumption|reflexivity]]|cbn beta]
    | reads_step ].

Lemma request_reads command id :
  command_ok command → u32_ok id →
  reads request_decode ((command_request command id).2 ++ []) (id, untag command) [].
Proof.
  intros Hc Hi. destruct command as [d p a b c t|d f t|d f l o t|d f o data t|d f p t|d f c b t];
    cbn [command_ok command_request snd untag] in *; destruct_and! Hc.
  - pose proof (len_path_bytes p ltac:(assumption)). unfold encode_create_request. rewrite as_u32_id by done.
    apply header_reads; [done..|]. unfold command_body. cbn [Z.eqb IRP_MJ_CREATE].
    rewrite <-!(assoc_L (++)).
    body_step. eapply reads_bind; [apply (take_bytes_map_reads 8 from_le (write_u32_le 0 ++ write_u32_le 0)
      _ 0); reflexivity|cbn beta]. repeat body_step. done.
  - apply header_reads; [done..|]. unfold command_body. cbn [Z.eqb Pos.eqb IRP_MJ_CREATE IRP_MJ_CLOSE].
    repeat body_step. done.
  - unfold encode_read_request. apply header_reads; [done..|]. unfold command_body.
    cbn [Z.eqb Pos.eqb IRP_MJ_CREATE IRP_MJ_CLOSE IRP_MJ_READ].
    rewrite <-!(assoc_L (++)). repeat body_step. done.
  - pose proof (len_nonneg data). unfold encode_write_request. rewrite as_u32_id by lia.
    apply header_reads; [done..|]. unfold command_body.
    cbn [Z.eqb Pos.eqb IRP_MJ_CREATE IRP_MJ_CLOSE IRP_MJ_READ IRP_MJ_WRITE].
    rewrite <-!(assoc_L (++)). repeat body_step. done.
  - unfold encode_query_directory_request. apply header_reads; [done..|]. unfold command_body.
    change (IRP_MJ_DIRECTORY_CONTROL =? IRP_MJ_CREATE) with false.
    change (IRP_MJ_DIRECTORY_CONTROL =? IRP_MJ_CLOSE) with false.
    change (IRP_MJ_DIRECTORY_CONTROL =? IRP_MJ_READ) with false.
    change (IRP_MJ_DIRECTORY_CONTROL =? IRP_MJ_WRITE) with false. cbn match.
    change ((IRP_MJ_DIRECTORY_CONTROL =? IRP_MJ_DIRECTORY_CONTROL) && (IRP_MN_QUERY_DIRECTORY =? IRP_MN_QUERY_DIRECTORY)) with true.
    cbn match. rewrite <-!(assoc_L (++)). destruct p as [p|].
    + pose proof (len_path_bytes p ltac:(assumption)). rewrite as_u32_id by done. repeat body_step.
      change (1 =? 0) with false. cbn match. repeat body_step. done.
    + repeat body_step. done.
  - pose proof (len_nonneg b). unfold encode_set_information_request. rewrite as_u32_id by lia.
    apply header_reads; [done..|]. unfold command_body. cbn [Z.eqb Pos.eqb IRP_MJ_CREATE IRP_MJ_CLOSE
      IRP_MJ_READ IRP_MJ_WRITE IRP_MJ_SET_INFORMATION IRP_MJ_DIRECTORY_CONTROL andb].
    rewrite <-!(assoc_L (++)). repeat body_step. done.
Qed.

Lemma len_header d f id major minor : len (write_io_request_header d f id major minor) = 24.
Proof. unfold write_io_request_header. len_lia. Qed.

Lemma request_len command id : command_ok command → len (command_request command id).2 < 2 ^ 32.
Proof.
  intros Hc. destruct command as [d p a b c t|d f t|d f l o t|d f o data t|d f p t|d f c b t];
    cbn [command_request snd command_ok] in *; destruct_and! Hc.
  - match goal with H : path_ok _ |- _ => destruct H end.
    unfold encode_create_request. rewrite !len_app, len_header. len_lia.
  - done.
  - done.
  - unfold encode_write_request. rewrite !len_app, len_header. unfold zero_padding. len_lia.
  - unfold encode_query_directory_request. rewrite !len_app, len_header. unfold zero_padding.
    destruct p as [p|]; [|done].
    match goal with H : path_ok _ |- _ => destruct H end. len_lia.
  - unfold encode_set_information_request. rewrite !len_app, len_header. unfold zero_padding. len_lia.
Qed.

(** C39. Every request a consumer asks for arrives at the client as it was asked, with its
    completion number: device, file, path, offsets and data, for each of the six commands.  Read
    and write offsets arrive with all their 64 bits, although the comment on [encode_read_request]
    says that the high 32 are always sent as 0. *)
Theorem drive_request_roundtrip command id :
  command_ok command → u32_ok id →
  run request_decode (command_request command id).2 = Ok (id, untag command).
Proof.
  intros Hc Hi. apply run_reads_whole; [|by apply request_reads].
  pose proof (request_len command id Hc). lia.
Qed.

Lemma drive_request_roundtrip_witness :
  let command := Create 1 (lit "\foo.txt") GENERIC_READ FILE_OPEN 0 9 in
  let far := Read 1 7 4096 (2 ^ 32 + 5) 10 in
  run request_decode (command_request command 5).2 = Ok (5, untag command)
  ∧ run request_decode (command_request far 6).2 = Ok (6, untag far).
Proof.
  split; apply drive_request_roundtrip; try done. unfold command_ok, path_ok.
  split_and!; try done. unfold str_ok. cbn. repeat constructor; unfold scalar_ok; lia.
Defined.
