(* ===== verification/DriveSelfTest.v ===== *)
(** [rdpcore-rdpdr/src/diagnostic.rs]: the self-test that drives a device through the
    interface [DriveConsumer].  The lines it logs are data here, one constructor each. *)
From S2P Require Import Prelude Cursor Utf Svc RdpdrPdu Rdpdr.

Definition LIST_ALL_PATTERN : rstring := lit "\*".
Definition SAMPLE_READ_LENGTH : Z := 4096.
Definition WRITE_TEST_FILE_NAME : rstring := lit "\kmsrdp_rdpdr_selftest.tmp".
Definition WRITE_TEST_CONTENTS : bytes := lit "kmsrdp RDPDR write self-test" ++ [10].
Definition PRINT_JOB_TEST_CONTENTS : bytes := lit "kmsrdp RDPDR print job self-test" ++ [10].

Inductive note :=
  | PrinterReady (device_id : Z) (dos_name : rstring)
  | DriveReady (device_id : Z) (dos_name : rstring)
  | RootOpened
  | RootOpenFailed (status : Z)
  | SampleOpened (file_id : Z)
  | SampleOpenFailed (status : Z)
  | WriteTestCreated (file_id : Z)
  | WriteTestCreateFailed (status : Z)
  | PrintJobOpened (file_id : Z)
  | PrintJobOpenFailed (status : Z)
  | EntryListed (name : rstring) (is_dir : bool) (size : Z)
  | ListingComplete
  | QueryFailed (status : Z)
  | SampleRead (length : Z) (preview : rstring)
  | SampleReadFailed (status : Z)
  | WriteTestWritten (length : Z)
  | WriteTestWriteFailed (status : Z)
  | PrintJobWritten (length : Z)
  | PrintJobWriteFailed (status : Z)
  | RootClosed (status : Z)
  | SampleClosed (status : Z)
  | WriteTestClosed (status : Z)
  | PrintJobClosed (status : Z).

Record DirectoryListingSelfTest := {
  on_event : list note; st_device_id : Z; root_file_id : option Z; sample_file_id : option Z;
  sampled_a_file : bool; write_test_file_id : option Z; print_job_file_id : option Z }.

Definition DirectoryListingSelfTest_new : DirectoryListingSelfTest :=
  {| on_event := []; st_device_id := 0; root_file_id := None; sample_file_id := None;
     sampled_a_file := false; write_test_file_id := None; print_job_file_id := None |}.

Definition log (n : note) (s : DirectoryListingSelfTest) : DirectoryListingSelfTest :=
  {| on_event := on_event s ++ [n]; st_device_id := st_device_id s; root_file_id := root_file_id s;
     sample_file_id := sample_file_id s; sampled_a_file := sampled_a_file s;
     write_test_file_id := write_test_file_id s; print_job_file_id := print_job_file_id s |}.
Definition set_device (d : Z) (s : DirectoryListingSelfTest) : DirectoryListingSelfTest :=
  {| on_event := on_event s; st_device_id := d; root_file_id := root_file_id s;
     sample_file_id := sample_file_id s; sampled_a_file := sampled_a_file s;
     write_test_file_id := write_test_file_id s; print_job_file_id := print_job_file_id s |}.
Definition set_root (f : option Z) (s : DirectoryListingSelfTest) : DirectoryListingSelfTest :=
  {| on_event := on_event s; st_device_id := st_device_id s; root_file_id := f;
     sample_file_id := sample_file_id s; sampled_a_file := sampled_a_file s;
     write_test_file_id := write_test_file_id s; print_job_file_id := print_job_file_id s |}.
Definition set_sample (f : option Z) (b : bool) (s : DirectoryListingSelfTest) : DirectoryListingSelfTest :=
  {| on_event := on_event s; st_device_id := st_device_id s; root_file_id := root_file_id s;
     sample_file_id := f; sampled_a_file := b;
     write_test_file_id := write_test_file_id s; print_job_file_id := print_job_file_id s |}.
Definition set_write_test (f : option Z) (s : DirectoryListingSelfTest) : DirectoryListingSelfTest :=
  {| on_event := on_event s; st_device_id := st_device_id s; root_file_id := root_file_id s;
     sample_file_id := sample_file_id s; sampled_a_file := sampled_a_file s;
     write_test_file_id := f; print_job_file_id := print_job_file_id s |}.
Definition set_print_job (f : option Z) (s : DirectoryListingSelfTest) : DirectoryListingSelfTest :=
  {| on_event := on_event s; st_device_id := st_device_id s; root_file_id := root_file_id s;
     sample_file_id := sample_file_id s; sampled_a_file := sampled_a_file s;
     write_test_file_id := write_test_file_id s; print_job_file_id := f |}.

(** [let Some(file_id) = field.take() else { return Vec::new() }; vec![Close]]. *)
Definition close_taken (f : option Z) (clear : DirectoryListingSelfTest → DirectoryListingSelfTest)
    (tag : Z) (s : DirectoryListingSelfTest) : DirectoryListingSelfTest * list DriveCommand :=
  match f with
  | Some file_id => (clear s, [Close (st_device_id s) file_id tag])
  | None => (s, [])
  end.

Definition st_device_ready (s : DirectoryListingSelfTest) (device_id device_type : Z) (dos_name : rstring)
  : DirectoryListingSelfTest * list DriveCommand :=
  let s := set_device device_id s in
  if device_type =? RDPDR_DTYP_PRINT then
    (log (PrinterReady device_id dos_name) s,
     [Create device_id [] (Z.lor GENERIC_WRITE SYNCHRONIZE) FILE_OVERWRITE_IF
        FILE_SYNCHRONOUS_IO_NONALERT 10])
  else
    (log (DriveReady device_id dos_name) s,
     [Create device_id (lit "\") (Z.lor GENERIC_READ SYNCHRONIZE) FILE_OPEN
        (Z.lor FILE_DIRECTORY_FILE FILE_SYNCHRONOUS_IO_NONALERT) 1;
      Create device_id WRITE_TEST_FILE_NAME (Z.lor GENERIC_WRITE SYNCHRONIZE) FILE_OVERWRITE_IF
        FILE_SYNCHRONOUS_IO_NONALERT 7]).

Definition st_create_reply (s : DirectoryListingSelfTest) (request_tag : Z) (result : CreateReply + Z)
  : DirectoryListingSelfTest * list DriveCommand :=
  let d := st_device_id s in
  match request_tag, result with
  | 1, inl reply =>
    (log RootOpened (set_root (Some (cr_file_id reply)) s),
     [QueryDirectory d (cr_file_id reply) (Some LIST_ALL_PATTERN) 2])
  | 1, inr status => (log (RootOpenFailed status) s, [])
  | 3, inl reply =>
    (log (SampleOpened (cr_file_id reply)) (set_sample (Some (cr_file_id reply)) (sampled_a_file s) s),
     [Read d (cr_file_id reply) SAMPLE_READ_LENGTH 0 4])
  | 3, inr status => (log (SampleOpenFailed status) s, [])
  | 7, inl reply =>
    (log (WriteTestCreated (cr_file_id reply)) (set_write_test (Some (cr_file_id reply)) s),
     [Write d (cr_file_id reply) 0 WRITE_TEST_CONTENTS 8])
  | 7, inr status => (log (WriteTestCreateFailed status) s, [])
  | 10, inl reply =>
    (log (PrintJobOpened (cr_file_id reply)) (set_print_job (Some (cr_file_id reply)) s),
     [Write d (cr_file_id reply) 0 PRINT_JOB_TEST_CONTENTS 11])
  | 10, inr status => (log (PrintJobOpenFailed status) s, [])
  | _, _ => (s, [])
  end.

Definition st_query_directory_reply (s : DirectoryListingSelfTest) (request_tag : Z)
    (result : option DirectoryEntry + Z) : DirectoryListingSelfTest * list DriveCommand :=
  if negb (request_tag =? 2) then (s, [])
  else
    match result with
    | inl (Some entry) =>
      let is_dir := has_bits (file_attributes entry) FILE_ATTRIBUTE_DIRECTORY in
      let s := log (EntryListed (file_name entry) is_dir (end_of_file entry)) s in
      let should_sample := negb is_dir && negb (sampled_a_file s)
        && bool_decide (file_name entry ≠ lit ".") && bool_decide (file_name entry ≠ lit "..") in
      if should_sample then
        (set_sample (sample_file_id s) true s,
         [Create (st_device_id s) (lit "\" ++ file_name entry) (Z.lor GENERIC_READ SYNCHRONIZE)
            FILE_OPEN FILE_SYNCHRONOUS_IO_NONALERT 3])
      else
        match root_file_id s with
        | Some root => (s, [QueryDirectory (st_device_id s) root None 2])
        | None => (s, [])
        end
    | inl None =>
      close_taken (root_file_id s) (set_root None) 5 (log ListingComplete s)
    | inr status =>
      close_taken (root_file_id s) (set_root None) 5 (log (QueryFailed status) s)
    end.

Definition st_read_reply (s : DirectoryListingSelfTest) (request_tag : Z) (result : bytes + Z)
  : DirectoryListingSelfTest * list DriveCommand :=
  if negb (request_tag =? 4) then (s, [])
  else
    let n := match result with
             | inl data => SampleRead (len data) (from_utf8_lossy (ztake (Z.min (len data) 200) data))
             | inr status => SampleReadFailed status
             end in
    close_taken (sample_file_id s) (λ s, set_sample None (sampled_a_file s) s) 6 (log n s).

Definition st_write_reply (s : DirectoryListingSelfTest) (request_tag : Z) (result : Z + Z)
  : DirectoryListingSelfTest * list DriveCommand :=
  match request_tag with
  | 8 =>
    let n := match result with inl k => WriteTestWritten k | inr st => WriteTestWriteFailed st end in
    close_taken (write_test_file_id s) (set_write_test None) 9 (log n s)
  | 11 =>
    let n := match result with inl k => PrintJobWritten k | inr st => PrintJobWriteFailed st end in
    close_taken (print_job_file_id s) (set_print_job None) 12 (log n s)
  | _ => (s, [])
  end.

Definition st_close_reply (s : DirectoryListingSelfTest) (request_tag status : Z)
  : DirectoryListingSelfTest * list DriveCommand :=
  (match request_tag with
   | 5 => log (RootClosed status) s
   | 6 => log (SampleClosed status) s
   | 9 => log (WriteTestClosed status) s
   | 12 => log (PrintJobClosed status) s
   | _ => s
   end, []).

Definition st_set_information_reply (s : DirectoryListingSelfTest) (request_tag : Z) (result : unit + Z)
  : DirectoryListingSelfTest * list DriveCommand := (s, []).

Global Instance self_test_consumer : DriveConsumer DirectoryListingSelfTest := {
  on_device_ready := st_device_ready; on_create_reply := st_create_reply;
  on_close_reply := st_close_reply; on_read_reply := st_read_reply; on_write_reply := st_write_reply;
  on_query_directory_reply := st_query_directory_reply;
  on_set_information_reply := st_set_information_reply; poll_commands s := (s, [])
}.

(** ** It does not retry *)

Definition some_count {A} (o : option A) : nat := match o with Some _ => 1 | None => 0 end.
(** The handles it still owes a [Close]. *)
Definition open_handles (s : DirectoryListingSelfTest) : nat :=
  (some_count (root_file_id s) + some_count (sample_file_id s)
   + some_count (write_test_file_id s) + some_count (print_job_file_id s))%nat.

Lemma self_test_settles c command :
  let r := fail_reply command STATUS_UNSUCCESSFUL c in
  (open_handles r.1 + length r.2 ≤ open_handles c)%nat.
Proof.
  destruct command as [? ? ? ? ? tag|? ? tag|? ? ? ? tag|? ? ? ? tag|? ? ? tag|? ? ? ? tag];
    cbn [fail_reply self_test_consumer Rdpdr.on_create_reply Rdpdr.on_close_reply Rdpdr.on_read_reply
      Rdpdr.on_write_reply Rdpdr.on_query_directory_reply Rdpdr.on_set_information_reply];
    unfold st_create_reply, st_close_reply, st_read_reply, st_write_reply, st_query_directory_reply,
      st_set_information_reply, close_taken, open_handles; repeat case_match; cbn; simplify_eq; cbn;
    repeat match goal with H : ?x = Some _ |- context [?x] => rewrite H | H : ?x = None |- context [?x] => rewrite H end;
    cbn; lia.
Qed.
