(* ===== verification/FusePath.v ===== *)
(** [kmsrdp/src/rdpdr_path.rs]: the Windows-style paths of the drive mount. *)
From S2P Require Import Prelude Utf.

Definition BACKSLASH : Z := 92.

Definition is_safe_win_component (name : rstring) : bool :=
  if bool_decide (name = []) || bool_decide (name = lit ".") || bool_decide (name = lit "..") then false
  else negb (existsb (λ c, (c =? BACKSLASH) || (c =? 47) || (c =? 0) || (c =? 58)) name).

(** [char::is_whitespace]: the property [White_Space] of Unicode. *)
Definition is_whitespace (c : Z) : bool :=
  bool_decide (9 ≤ c ≤ 13 ∨ c ∈ [32; 133; 160; 5760; 8232; 8233; 8239; 8287; 12288] ∨ 8192 ≤ c ≤ 8202).
Definition is_ascii_alphanumeric (c : Z) : bool :=
  bool_decide (48 ≤ c ≤ 57 ∨ 65 ≤ c ≤ 90 ∨ 97 ≤ c ≤ 122).

(** [trim_matches]. *)
Fixpoint trim_start (p : Z → bool) (s : rstring) : rstring :=
  match s with c :: s' => if p c then trim_start p s' else s | [] => [] end.
Definition trim_matches (p : Z → bool) (s : rstring) : rstring :=
  reverse (trim_start p (reverse (trim_start p s))).

Definition sanitize_dos_name (raw : rstring) : rstring :=
  let trimmed := trim_matches (λ c, (c =? 0) || is_whitespace c) raw in
  (λ c, if is_ascii_alphanumeric c || (c =? 45) || (c =? 95) then c else 95) <$> trimmed.

Definition ROOT : rstring := [BACKSLASH].

Definition join_win (parent name : rstring) : option rstring :=
  if is_safe_win_component name then
    Some (if bool_decide (parent = ROOT) then BACKSLASH :: name else parent ++ BACKSLASH :: name)
  else None.

(** [rsplit_once]. *)
Fixpoint rsplit_once (sep : Z) (s : rstring) : option (rstring * rstring) :=
  match s with
  | [] => None
  | c :: s =>
    match rsplit_once sep s with
    | Some (a, b) => Some (c :: a, b)
    | None => if c =? sep then Some ([], s) else None
    end
  end.

Definition parent_of (path : rstring) : rstring :=
  if bool_decide (path = ROOT) then ROOT
  else match rsplit_once BACKSLASH path with
       | Some ([], _) => ROOT
       | Some (parent, _) => parent
       | None => ROOT
       end.

(** ** Confinement *)

(** A component that names no parent, no stream, no drive and nothing across a separator. *)
Definition component_ok (c : rstring) : Prop :=
  c ≠ lit "." ∧ c ≠ lit ".." ∧ BACKSLASH ∉ c ∧ 47 ∉ c ∧ 0 ∉ c ∧ 58 ∉ c.
Definition of_components (cs : list rstring) : rstring := cs ≫= λ c, BACKSLASH :: c.
(** A path below the root of the drive. *)
Definition confined (p : rstring) : Prop :=
  ∃ cs, cs ≠ [] ∧ Forall component_ok cs ∧ p = of_components cs.

Lemma is_safe_win_component_spec name :
  is_safe_win_component name = true ↔ name ≠ [] ∧ component_ok name.
Proof.
  unfold is_safe_win_component, component_ok. repeat case_bool_decide; cbn [orb]; try naive_solver.
  rewrite negb_true_iff, <-not_true_iff_false, existsb_exists.
  assert (∀ c, ((c =? BACKSLASH) || (c =? 47) || (c =? 0) || (c =? 58)) = true
    ↔ c = BACKSLASH ∨ c = 47 ∨ c = 0 ∨ c = 58) as Hc by (intros; rewrite !orb_true_iff, !Z.eqb_eq; tauto).
  setoid_rewrite Hc. setoid_rewrite list_elem_of_In. naive_solver.
Qed.

Lemma of_components_snoc cs c : of_components (cs ++ [c]) = of_components cs ++ BACKSLASH :: c.
Proof. unfold of_components. rewrite bind_app. cbn. by rewrite app_nil_r. Qed.

Lemma confined_ROOT : confined ROOT.
Proof. exists [[]]. split_and!; [done| |done]. apply Forall_singleton. split_and!; try done; set_solver. Qed.

Lemma confined_snoc p c : confined p → component_ok c → confined (p ++ BACKSLASH :: c).
Proof.
  intros (cs & Hne & Hcs & ->) Hc. exists (cs ++ [c]). rewrite of_components_snoc.
  split_and!; [by destruct cs| |done].
  apply Forall_app. split; [done|]. by apply Forall_singleton.
Qed.

(** Joining stays below the root, whatever the name is. *)
Lemma join_win_confined parent name p : confined parent → join_win parent name = Some p → confined p.
Proof.
  intros Hp. unfold join_win. destruct (is_safe_win_component name) eqn:E; [|done].
  apply is_safe_win_component_spec in E as [_ E]. intros [= <-]. case_bool_decide.
  - exists [name]. split_and!; [done|by apply Forall_singleton|]. cbn. by rewrite app_nil_r.
  - by apply confined_snoc.
Qed.

Lemma rsplit_once_app sep a b : sep ∉ b → rsplit_once sep (a ++ sep :: b) = Some (a, b).
Proof.
  intros Hb. induction a as [|c a IH]; cbn.
  - replace (rsplit_once sep b) with (@None (rstring * rstring)); [by rewrite Z.eqb_refl|].
    induction b as [|x b IHb]; [done|]. cbn. apply not_elem_of_cons in Hb as [Hx Hb].
    rewrite <-IHb by done. by rewrite (proj2 (Z.eqb_neq x sep)) by done.
  - by rewrite IH.
Qed.

Lemma parent_of_confined p : confined p → confined (parent_of p).
Proof.
  intros (cs & Hne & Hcs & ->). unfold parent_of. case_bool_decide as HR; [by apply confined_ROOT|].
  destruct cs as [|c cs _] using rev_ind; [done|]. apply Forall_app in Hcs as [Hcs Hc].
  apply Forall_cons_1 in Hc as [Hc _].
  rewrite of_components_snoc, rsplit_once_app by apply Hc.
  destruct cs as [|d cs]; [apply confined_ROOT|]. exists (d :: cs). by split_and!.
Qed.

Lemma parent_of_join parent name p : confined parent → join_win parent name = Some p → parent_of p = parent.
Proof.
  intros (cs & Hne & Hcs & ->). unfold join_win. destruct (is_safe_win_component name) eqn:E; [|done].
  apply is_safe_win_component_spec in E as (Hn & _ & _ & E & _). unfold parent_of.
  case_bool_decide as HR; intros [= <-].
  - rewrite HR. rewrite bool_decide_false by (unfold ROOT; congruence).
    pose proof (rsplit_once_app BACKSLASH [] name E) as Es. cbn [app] in Es. by rewrite Es.
  - assert (of_components cs ++ BACKSLASH :: name ≠ ROOT).
    { destruct cs as [|c cs]; [done|]. cbn. intros H. injection H as H. by apply app_eq_nil in H as [_ H]. }
    rewrite bool_decide_false by done. rewrite rsplit_once_app by done.
    by destruct (of_components cs) eqn:Ec; [destruct cs|].
Qed.

(** The name of a mount holds only letters, digits, hyphens and underscores. *)
Lemma sanitize_dos_name_chars raw c :
  c ∈ sanitize_dos_name raw → is_ascii_alphanumeric c = true ∨ c = 45 ∨ c = 95.
Proof.
  unfold sanitize_dos_name. rewrite list_elem_of_fmap. intros (x & -> & _).
  destruct (is_ascii_alphanumeric x) eqn:E; cbn [orb]; [by left|].
  destruct (Z.eqb_spec x 45) as [->|]; cbn [orb]; [by auto|].
  destruct (Z.eqb_spec x 95) as [->|]; auto.
Qed.
