(* ===== verification/FuseBridge.v ===== *)
(** [kmsrdp/src/rdpdr_fuse/bridge.rs] and the status and time conversions of [mod.rs]: the bridge
    between the threads that serve the file system and the connection that reaches the client.  A
    method is a [proc]: the sections it runs under a lock, its reads of the clock and its waits for
    an answer, in order; what happens between them is left to the semantics below. *)
From S2P Require Import Prelude Cursor Utf RdpdrPdu Rdpdr FusePath.

Inductive Errno :=
  ENOENT | EACCES | ETXTBSY | EIO | EINVAL | ENOSYS | EEXIST | ENOTEMPTY | EPERM | ETIMEDOUT | EBADF
| ENOTSUP | ENODATA.

Definition ntstatus_to_errno (status : Z) : Errno :=
  if bool_decide (status ∈ [0xC000000F; 0xC0000033; 0xC0000034; 0xC000003A]) then ENOENT
  else if status =? 0xC0000022 then EACCES
  else if status =? 0xC0000043 then ETXTBSY
  else if status =? 0xC0000001 then EIO
  else if status =? 0xC000000D then EINVAL
  else if bool_decide (status ∈ [0xC00000BB; 0xC00000A3]) then ENOSYS
  else if status =? 0xC0000010 then EIO
  else if status =? 0xC0000035 then EEXIST
  else if status =? 0xC0000101 then ENOTEMPTY
  else if status =? 0xC0000121 then EPERM
  else EIO.

(** A [SystemTime] is the nanoseconds since the Unix epoch. *)
Definition EPOCH_DIFF : Z := 116444736000000000.
Definition filetime_to_systemtime (ft : Z) : Z :=
  if ft <=? EPOCH_DIFF then 0
  else
    let ticks := ft - EPOCH_DIFF in
    let secs := ticks / 10000000 in
    let nanos := ticks mod 10000000 * 100 in
    secs * 1000000000 + nanos.
(** [Panic]: the [i64] arithmetic overflows. *)
Definition systemtime_to_filetime {E} (t : Z) : res E Z :=
  if t <? 0 then Ok 0
  else
    let secs := t / 1000000000 in
    let nanos := t mod 1000000000 in
    let ft := EPOCH_DIFF + secs * 10000000 + nanos / 100 in
    if ft <? 2 ^ 63 then Ok ft else Panic.

Record CachedMeta := {
  m_size : Z; m_is_dir : bool; m_mtime : Z; m_atime : Z; m_ctime : Z; m_crtime : Z;
  m_perm : Z; m_uid : Z; m_gid : Z }.
Definition default_perm (is_dir : bool) : Z := if is_dir then 493 else 420.
Definition CachedMeta_new (is_dir : bool) (uid gid : Z) : CachedMeta :=
  {| m_size := 0; m_is_dir := is_dir; m_mtime := 0; m_atime := 0; m_ctime := 0; m_crtime := 0;
     m_perm := default_perm is_dir; m_uid := uid; m_gid := gid |}.
Definition CachedMeta_fresh (now : Z) (is_dir : bool) (uid gid mode : Z) : CachedMeta :=
  {| m_size := 0; m_is_dir := is_dir; m_mtime := now; m_atime := now; m_ctime := now; m_crtime := now;
     m_perm := as_u16 (Z.land mode 4095); m_uid := uid; m_gid := gid |}.

Record OpenHandle := { oh_device_id : Z; oh_file_id : Z }.

(** The kind of sender that waits for an answer, and the answers; an [inr] is an NTSTATUS. *)
Inductive Pending := PCreate | PClose | PRead | PWrite | PQueryDir | PSetInfo.
Inductive Answer :=
  | ACreate (r : CreateReply + Z)
  | AClose (status : Z)
  | ARead (r : bytes + Z)
  | AWrite (r : Z + Z)
  | AQueryDir (r : option DirectoryEntry + Z)
  | ASetInfo (r : unit + Z).
Definition answer_kind (a : Answer) : Pending :=
  match a with
  | ACreate _ => PCreate | AClose _ => PClose | ARead _ => PRead | AWrite _ => PWrite
  | AQueryDir _ => PQueryDir | ASetInfo _ => PSetInfo
  end.
#[export] Instance Pending_eq_dec : EqDecision Pending.
Proof. solve_decision. Defined.

(** The state behind the locks.  [replies] holds what has been sent on the channels whose receiver
    waits; a channel is named by the request's tag. *)
Record Wire := {
  outbound : list DriveCommand; b_pending : gmap Z Pending; replies : gmap Z Answer; next_tag : Z }.
Record Tables := {
  path_to_ino : gmap (Z * rstring) Z; ino_to_path : gmap (Z * Z) rstring;
  meta : gmap (Z * rstring) CachedMeta; next_ino : Z }.
Record Handles := { opens : gmap Z OpenHandle; next_fh : Z }.
Record Bridge := { wire : Wire; tables : Tables; handles : Handles; b_uid : Z; b_gid : Z }.

Definition Bridge_new (uid gid : Z) : Bridge :=
  {| wire := {| outbound := []; b_pending := ∅; replies := ∅; next_tag := 1 |};
     tables := {| path_to_ino := ∅; ino_to_path := ∅; meta := ∅; next_ino := 2 |};
     handles := {| opens := ∅; next_fh := 1 |};
     b_uid := uid; b_gid := gid |}.

Definition set_wire (w : Wire) (b : Bridge) : Bridge :=
  {| wire := w; tables := tables b; handles := handles b; b_uid := b_uid b; b_gid := b_gid b |}.
Definition set_tables (t : Tables) (b : Bridge) : Bridge :=
  {| wire := wire b; tables := t; handles := handles b; b_uid := b_uid b; b_gid := b_gid b |}.
Definition set_handles (h : Handles) (b : Bridge) : Bridge :=
  {| wire := wire b; tables := tables b; handles := h; b_uid := b_uid b; b_gid := b_gid b |}.
Definition set_meta (m : gmap (Z * rstring) CachedMeta) (t : Tables) : Tables :=
  {| path_to_ino := path_to_ino t; ino_to_path := ino_to_path t; meta := m; next_ino := next_ino t |}.

(** ** The actions of a thread *)

(** What [recv_timeout] gives. *)
Inductive outcome := Reply (a : Answer) | Timeout | Disconnected.

(** [Crash]: the thread panics; [NoFuel]: a loop of the code has not ended. *)
Inductive proc (A : Type) : Type :=
  | Ret (a : A)
  | Lock {B : Type} (f : Bridge → Bridge * B) (k : B → proc A)
  | Now (k : Z → proc A)
  | Recv (tag : Z) (k : outcome → proc A)
  | Crash
  | NoFuel.
Arguments Ret {A} a.
Arguments Lock {A B} f k.
Arguments Now {A} k.
Arguments Recv {A} tag k.
Arguments Crash {A}.
Arguments NoFuel {A}.

Fixpoint proc_bind {A B} (g : A → proc B) (p : proc A) : proc B :=
  match p with
  | Ret a => g a
  | Lock f k => Lock f (λ x, proc_bind g (k x))
  | Now k => Now (λ t, proc_bind g (k t))
  | Recv tag k => Recv tag (λ o, proc_bind g (k o))
  | Crash => Crash
  | NoFuel => NoFuel
  end.
#[export] Instance proc_mbind : MBind proc := λ A B, proc_bind.
#[export] Instance proc_mret : MRet proc := λ A, Ret.

(** [?] on a [Result<A, Errno>]. *)
Definition attempt {A B} (m : proc (A + Errno)) (k : A → proc (B + Errno)) : proc (B + Errno) :=
  r ← m; match r with inl a => k a | inr e => mret (inr e) end.
Notation "x ←? m ; k" := (attempt m (λ x, k)) (at level 20, m at level 100, k at level 200, right associativity).
Notation "m ;? k" := (attempt m (λ _, k)) (at level 100, k at level 200, right associativity).

Definition locked {B} (f : Bridge → Bridge * B) : proc B := Lock f Ret.
Definition gets {B} (f : Bridge → B) : proc B := locked (λ b, (b, f b)).
Definition modify (f : Bridge → Bridge) : proc unit := locked (λ b, (f b, tt)).
Definition now : proc Z := Now Ret.
Definition lift {A} (r : res Empty_set A) : proc A :=
  match r with Ok a => Ret a | Err e => match e with end | Panic => Crash end.

(** ** Requests *)

(** [fetch_add]. *)
Definition alloc_tag : proc Z :=
  locked (λ b, (set_wire {| outbound := outbound (wire b); b_pending := b_pending (wire b);
                            replies := replies (wire b); next_tag := as_u64 (next_tag (wire b) + 1) |} b,
                next_tag (wire b))).
Definition insert_pending (tag : Z) (p : Pending) : proc unit :=
  modify (λ b, set_wire {| outbound := outbound (wire b); b_pending := <[tag := p]> (b_pending (wire b));
                           replies := replies (wire b); next_tag := next_tag (wire b) |} b).
Definition enqueue (command : DriveCommand) : proc unit :=
  modify (λ b, set_wire {| outbound := outbound (wire b) ++ [command]; b_pending := b_pending (wire b);
                           replies := replies (wire b); next_tag := next_tag (wire b) |} b).
Definition alloc_fh : proc Z :=
  locked (λ b, (set_handles {| opens := opens (handles b); next_fh := as_u64 (next_fh (handles b) + 1) |} b,
                next_fh (handles b))).

(** The steps the six [submit] methods share. *)
Definition request (p : Pending) (command : Z → DriveCommand) : proc outcome :=
  tag ← alloc_tag;
  _ ← insert_pending tag p;
  _ ← enqueue (command tag);
  Recv tag Ret.

(** A channel carries answers of its own type, so the last case of each method is a lost connection
    or, but for [submit_create], the time limit. *)
Definition submit_create (device_id : Z) (path : rstring) (desired_access disposition options : Z)
  : proc (CreateReply + Errno) :=
  o ← request PCreate (Create device_id path desired_access disposition options);
  mret match o with
       | Reply (ACreate (inl reply)) => inl reply
       | Reply (ACreate (inr status)) => inr (ntstatus_to_errno status)
       | Timeout => inr ETIMEDOUT
       | _ => inr EIO
       end.
Definition submit_close (device_id file_id : Z) : proc (unit + Errno) :=
  o ← request PClose (Close device_id file_id);
  mret match o with
       | Reply (AClose status) => if status =? 0 then inl tt else inr (ntstatus_to_errno status)
       | _ => inr EIO
       end.
Definition submit_read (device_id file_id length offset : Z) : proc (bytes + Errno) :=
  o ← request PRead (Read device_id file_id length offset);
  mret match o with
       | Reply (ARead (inl data)) => inl data
       | Reply (ARead (inr status)) => inr (ntstatus_to_errno status)
       | _ => inr EIO
       end.
Definition submit_write (device_id file_id offset : Z) (data : bytes) : proc (Z + Errno) :=
  o ← request PWrite (Write device_id file_id offset data);
  mret match o with
       | Reply (AWrite (inl n)) => inl n
       | Reply (AWrite (inr status)) => inr (ntstatus_to_errno status)
       | _ => inr EIO
       end.
Definition submit_query_dir (device_id file_id : Z) (path : option rstring)
  : proc (option DirectoryEntry + Errno) :=
  o ← request PQueryDir (QueryDirectory device_id file_id path);
  mret match o with
       | Reply (AQueryDir (inl entry)) => inl entry
       | Reply (AQueryDir (inr status)) => inr (ntstatus_to_errno status)
       | _ => inr EIO
       end.
Definition submit_set_information (device_id file_id class : Z) (set_buffer : bytes)
  : proc (unit + Errno) :=
  o ← request PSetInfo (SetInformation device_id file_id class set_buffer);
  mret match o with
       | Reply (ASetInfo (inl _)) => inl tt
       | Reply (ASetInfo (inr status)) => inr (ntstatus_to_errno status)
       | _ => inr EIO
       end.

(** ** The tables *)

Definition ROOT_INO : Z := 1.

Definition ensure_root (device_id : Z) (b : Bridge) : Bridge :=
  let t := tables b in
  match path_to_ino t !! (device_id, ROOT) with
  | Some _ => b
  | None =>
    set_tables {| path_to_ino := <[(device_id, ROOT) := ROOT_INO]> (path_to_ino t);
                  ino_to_path := <[(device_id, ROOT_INO) := ROOT]> (ino_to_path t);
                  meta := <[(device_id, ROOT) := CachedMeta_new true (b_uid b) (b_gid b)]> (meta t);
                  next_ino := next_ino t |} b
  end.
Definition ensure_root_ino (device_id : Z) : proc unit := modify (ensure_root device_id).

Definition inode_of (device_id : Z) (win_path : rstring) (t : Tables) : Tables * Z :=
  match path_to_ino t !! (device_id, win_path) with
  | Some ino => (t, ino)
  | None =>
    let '(ino, next) := if bool_decide (win_path = ROOT) then (ROOT_INO, next_ino t)
                        else (next_ino t, as_u64 (next_ino t + 1)) in
    ({| path_to_ino := <[(device_id, win_path) := ino]> (path_to_ino t);
        ino_to_path := <[(device_id, ino) := win_path]> (ino_to_path t);
        meta := meta t; next_ino := next |}, ino)
  end.
Definition inode_for (device_id : Z) (win_path : rstring) : proc Z :=
  locked (λ b, let '(t, ino) := inode_of device_id win_path (tables b) in (set_tables t b, ino)).

Definition path_for (device_id ino : Z) : proc (option rstring) :=
  gets (λ b, ino_to_path (tables b) !! (device_id, ino)).

Definition modify_meta (f : gmap (Z * rstring) CachedMeta → gmap (Z * rstring) CachedMeta) : proc unit :=
  modify (λ b, set_tables (set_meta (f (meta (tables b))) (tables b)) b).

Definition entry_name (e : DirectoryEntry) : rstring := trim_end_nul (file_name e).
Definition is_directory (e : DirectoryEntry) : bool :=
  negb (Z.land (file_attributes e) FILE_ATTRIBUTE_DIRECTORY =? 0).

Definition cache_entry (device_id : Z) (parent : rstring) (e : DirectoryEntry) : proc unit :=
  let name := entry_name e in
  if is_safe_win_component name then
    match join_win parent name with
    | None => mret tt
    | Some path =>
      let is_dir := is_directory e in
      uid ← gets b_uid;
      gid ← gets b_gid;
      let m := {| m_size := Z.max (end_of_file e) 0; m_is_dir := is_dir;
                  m_mtime := filetime_to_systemtime (last_write_time e);
                  m_atime := filetime_to_systemtime (last_access_time e);
                  m_ctime := filetime_to_systemtime (change_time e);
                  m_crtime := filetime_to_systemtime (creation_time e);
                  m_perm := default_perm is_dir; m_uid := uid; m_gid := gid |} in
      _ ← inode_for device_id path;
      modify_meta (λ mt, <[(device_id, path) := m]> mt)
    end
  else mret tt.

Inductive FileType := Directory | RegularFile.
Record FileAttr := {
  fa_ino : Z; fa_size : Z; fa_blocks : Z; fa_atime : Z; fa_mtime : Z; fa_ctime : Z; fa_crtime : Z;
  fa_kind : FileType; fa_perm : Z; fa_nlink : Z; fa_uid : Z; fa_gid : Z }.
Definition attr_of (ino : Z) (m : CachedMeta) : FileAttr :=
  {| fa_ino := ino; fa_size := m_size m; fa_blocks := (m_size m + 511) / 512;
     fa_atime := m_atime m; fa_mtime := m_mtime m; fa_ctime := m_ctime m; fa_crtime := m_crtime m;
     fa_kind := if m_is_dir m then Directory else RegularFile;
     fa_perm := m_perm m; fa_nlink := if m_is_dir m then 2 else 1;
     fa_uid := m_uid m; fa_gid := m_gid m |}.
Definition attr_for (device_id : Z) (win_path : rstring) : proc (option FileAttr) :=
  m ← gets (λ b, meta (tables b) !! (device_id, win_path));
  match m with
  | None => mret None
  | Some m => ino ← inode_for device_id win_path; mret (Some (attr_of ino m))
  end.
Definition path_exists (device_id : Z) (win_path : rstring) : proc bool :=
  a ← attr_for device_id win_path; mret (match a with Some _ => true | None => false end).

Definition forget_path (device_id : Z) (win_path : rstring) : proc unit :=
  _ ← modify_meta (λ mt, delete (device_id, win_path) mt);
  ino ← locked (λ b, let t := tables b in
    (set_tables {| path_to_ino := delete (device_id, win_path) (path_to_ino t);
                   ino_to_path := ino_to_path t; meta := meta t; next_ino := next_ino t |} b,
     path_to_ino t !! (device_id, win_path)));
  match ino with
  | None => mret tt
  | Some ino =>
    modify (λ b, let t := tables b in
      set_tables {| path_to_ino := path_to_ino t;
                    ino_to_path := delete (device_id, ino) (ino_to_path t);
                    meta := meta t; next_ino := next_ino t |} b)
  end.

Definition set_some {A} (f : A → CachedMeta → CachedMeta) (o : option A) (m : CachedMeta) : CachedMeta :=
  match o with Some a => f a m | None => m end.
Definition set_perm (mode : Z) (m : CachedMeta) : CachedMeta :=
  {| m_size := m_size m; m_is_dir := m_is_dir m; m_mtime := m_mtime m; m_atime := m_atime m;
     m_ctime := m_ctime m; m_crtime := m_crtime m; m_perm := as_u16 (Z.land mode 4095);
     m_uid := m_uid m; m_gid := m_gid m |}.
Definition set_owner (uid gid : option Z) (m : CachedMeta) : CachedMeta :=
  {| m_size := m_size m; m_is_dir := m_is_dir m; m_mtime := m_mtime m; m_atime := m_atime m;
     m_ctime := m_ctime m; m_crtime := m_crtime m; m_perm := m_perm m;
     m_uid := default (m_uid m) uid; m_gid := default (m_gid m) gid |}.
Definition apply_local_attrs (device_id : Z) (path : rstring) (mode uid gid : option Z) : proc unit :=
  modify_meta (alter (λ m, set_owner uid gid (set_some set_perm mode m)) (device_id, path)).

(** ** Renaming in the tables *)

Section remap.
(** The order in which the [HashMap] of inodes is iterated. *)
Context (order : gmap (Z * rstring) Z → list ((Z * rstring) * Z)).

Definition remap_prefix (old_path : rstring) : rstring :=
  if bool_decide (old_path = ROOT) then ROOT else old_path ++ [BACKSLASH].
(** The new name of a path, of the ones at or below the old path. *)
Definition remapped (old_path new_path path : rstring) : option rstring :=
  let pre := remap_prefix old_path in
  if bool_decide (path = old_path) then Some new_path
  else if bool_decide (pre `prefix_of` path) then Some (new_path ++ BACKSLASH :: drop (length pre) path)
  else None.
Definition remaps (device_id : Z) (old_path new_path : rstring) (t : Tables)
  : list (rstring * rstring * Z) :=
  omap (λ e : (Z * rstring) * Z,
    if e.1.1 =? device_id
    then new ← remapped old_path new_path e.1.2; Some (e.1.2, new, e.2) else None)
    (order (path_to_ino t)).
Definition remap_one (device_id : Z) (t : Tables) (r : rstring * rstring * Z) : Tables :=
  let '(old, new, ino) := r in
  {| path_to_ino := <[(device_id, new) := ino]> (delete (device_id, old) (path_to_ino t));
     ino_to_path := <[(device_id, ino) := new]> (ino_to_path t);
     meta := match meta t !! (device_id, old) with
             | Some m => <[(device_id, new) := m]> (delete (device_id, old) (meta t))
             | None => meta t
             end;
     next_ino := next_ino t |}.
Definition remap_tables (device_id : Z) (old_path new_path : rstring) (t : Tables) : Tables :=
  foldl (remap_one device_id) t (remaps device_id old_path new_path t).
Definition remap_path (device_id : Z) (old_path new_path : rstring) : proc unit :=
  modify (λ b, set_tables (remap_tables device_id old_path new_path (tables b)) b).

(** ** Operations on the client's drive *)

Definition bits (l : list Z) : Z := foldr Z.lor 0 l.

Definition delete_path (device_id : Z) (path : rstring) (is_dir : bool) : proc (unit + Errno) :=
  let kind := if is_dir then FILE_DIRECTORY_FILE else FILE_NON_DIRECTORY_FILE in
  r ← submit_create device_id path (bits [DELETE; FILE_READ_DATA; SYNCHRONIZE]) FILE_OPEN
        (bits [kind; FILE_DELETE_ON_CLOSE; FILE_SYNCHRONOUS_IO_NONALERT]);
  create ←? match r with
            | inl create => mret (inl create)
            | inr _ => submit_create device_id path (bits [DELETE; SYNCHRONIZE]) FILE_OPEN
                         (bits [kind; FILE_SYNCHRONOUS_IO_NONALERT])
            end;
  _ ← submit_set_information device_id (cr_file_id create) FILE_DISPOSITION_INFORMATION
        (disposition_information_buffer true);
  r ← submit_close device_id (cr_file_id create);
  match r with
  | inl _ => _ ← forget_path device_id path; mret (inl tt)
  | inr e => mret (inr e)
  end.

Definition rename_path (device_id : Z) (old_path new_path : rstring) (replace_if_exists : bool)
  : proc (unit + Errno) :=
  create ←? submit_create device_id old_path (bits [FILE_READ_DATA; SYNCHRONIZE]) FILE_OPEN
              FILE_SYNCHRONOUS_IO_NONALERT;
  result ← submit_set_information device_id (cr_file_id create) FILE_RENAME_INFORMATION
             (rename_information_buffer new_path replace_if_exists);
  _ ← submit_close device_id (cr_file_id create);
  match result with
  | inl _ => _ ← remap_path device_id old_path new_path; mret (inl tt)
  | inr e => mret (inr e)
  end.

(** The decimal digits of a [u64]. *)
Fixpoint decimal_from (fuel : nat) (n : Z) : rstring :=
  match fuel with
  | O => []
  | S fuel => (if n <? 10 then [] else decimal_from fuel (n / 10)) ++ [48 + n mod 10]
  end.
Definition decimal (n : Z) : rstring := decimal_from 20 n.
Definition exchange_temp (path_a : rstring) (tag : Z) : rstring :=
  parent_of path_a ++ BACKSLASH :: lit ".__kmsrdp_xchg_" ++ decimal tag.
Definition exchange_paths (device_id : Z) (path_a path_b : rstring) : proc (unit + Errno) :=
  tag ← alloc_tag;
  let temp := exchange_temp path_a tag in
  rename_path device_id path_a temp false ;?
  r ← rename_path device_id path_b path_a false;
  match r with
  | inl _ => rename_path device_id temp path_b false
  | inr e => _ ← rename_path device_id temp path_a false; mret (inr e)
  end.

(** The loop over the answers; [fuel] bounds their number. *)
Fixpoint enumerate_loop (fuel : nat) (device_id : Z) (parent : rstring) (file_id : Z)
    (first : option rstring) (entries : list DirectoryEntry) : proc (list DirectoryEntry + Errno) :=
  match fuel with
  | O => NoFuel
  | S fuel =>
    r ← submit_query_dir device_id file_id first;
    match r with
    | inl (Some e) =>
      _ ← cache_entry device_id parent e;
      let name := entry_name e in
      let skip := bool_decide (name = []) || bool_decide (name = lit ".") || bool_decide (name = lit "..") in
      enumerate_loop fuel device_id parent file_id None (if skip then entries else entries ++ [e])
    | inl None => mret (inl entries)
    | inr e => mret (inr e)
    end
  end.
Definition enumerate_directory (fuel : nat) (device_id : Z) (parent : rstring) (file_id : Z)
  : proc (list DirectoryEntry + Errno) :=
  let pattern := if bool_decide (parent = ROOT) then lit "\*" else parent ++ lit "\*" in
  enumerate_loop fuel device_id parent file_id (Some pattern) [].

Definition refresh_dir (fuel : nat) (device_id : Z) (parent : rstring) : proc (list rstring + Errno) :=
  reply ←? submit_create device_id parent GENERIC_READ FILE_OPEN FILE_DIRECTORY_FILE;
  result ← enumerate_directory fuel device_id parent (cr_file_id reply);
  _ ← submit_close device_id (cr_file_id reply);
  mret match result with inl l => inl (fmap (M := list) entry_name l) | inr e => inr e end.

Definition ensure_dir_empty (fuel : nat) (device_id : Z) (dir_path : rstring) : proc (unit + Errno) :=
  children ←? refresh_dir fuel device_id dir_path;
  mret match children with [] => inl tt | _ => inr ENOTEMPTY end.

Definition lookup_child (fuel : nat) (device_id : Z) (parent name : rstring) : proc (FileAttr + Errno) :=
  match join_win parent name with
  | None => mret (inr EINVAL)
  | Some path =>
    a ← attr_for device_id path;
    match a with
    | Some attr => mret (inl attr)
    | None =>
      refresh_dir fuel device_id parent ;?
      a ← attr_for device_id path;
      mret match a with Some attr => inl attr | None => inr ENOENT end
    end
  end.
End remap.
