(* ===== verification/FuseFs.v ===== *)
(** [kmsrdp/src/rdpdr_fuse/fs.rs]: the operations of the mounted file system over the bridge that
    serves it; the device and the bridge are the ones [FuseFs::active] gives when the operation
    starts. *)
From S2P Require Import Prelude Cursor Utf RdpdrPdu Rdpdr FusePath FuseBridge.

Record dirent := { de_ino : Z; de_off : Z; de_kind : FileType; de_name : rstring }.
Inductive freply :=
  | RError (e : Errno)
  | REntry (a : FileAttr)
  | RAttr (a : FileAttr)
  | ROpened (fh : Z)
  | RCreated (a : FileAttr) (fh : Z)
  | RDirectory (l : list dirent)
  | RData (data : bytes)
  | RWritten (n : Z)
  | RXattrSize (n : Z)
  | ROk.

Inductive OpenAccMode := O_RDONLY | O_WRONLY | O_RDWR.
Inductive TimeOrNow := TNow | SpecificTime (t : Z).
Record RenameFlags := { rename_noreplace : bool; rename_exchange : bool; rename_whiteout : bool }.

Definition O_TRUNC : Z := 512.
Definition time_or_now_to_systemtime (t : TimeOrNow) : proc Z :=
  match t with TNow => now | SpecificTime t => mret t end.
Definition time_or_now_to_filetime (t : TimeOrNow) : proc Z :=
  t ← time_or_now_to_systemtime t; lift (systemtime_to_filetime t).

Section fs.
Context (order : gmap (Z * rstring) Z → list ((Z * rstring) * Z)).
(** Whether an entry still fits the kernel's buffer behind others. *)
Context (fits : list dirent → dirent → bool).
Context (fuel : nat) (device_id : Z).

(** Early returns on an inode that is not known and on a name that is not UTF-8. *)
Definition with_path (ino : Z) (k : rstring → proc freply) : proc freply :=
  path ← path_for device_id ino;
  match path with Some path => k path | None => mret (RError ENOENT) end.
Definition with_name (name : bytes) (k : rstring → proc freply) : proc freply :=
  match from_utf8 name with Some name => k name | None => mret (RError EINVAL) end.
(** Those of the operations on a name in a directory. *)
Definition with_child (parent : Z) (name : bytes) (k : rstring → proc freply) : proc freply :=
  with_path parent (λ parent_path, with_name name (λ name,
    match join_win parent_path name with Some path => k path | None => mret (RError EINVAL) end)).
Definition reply_unit (m : proc (unit + Errno)) : proc freply :=
  r ← m; mret match r with inl _ => ROk | inr e => RError e end.
Definition reply_attr (a : option FileAttr) (e : Errno) : freply :=
  match a with Some attr => RAttr attr | None => RError e end.

Definition lookup (parent : Z) (name : bytes) : proc freply :=
  with_path parent (λ parent_path, with_name name (λ name,
    r ← lookup_child fuel device_id parent_path name;
    mret match r with inl attr => REntry attr | inr e => RError e end)).

Definition getattr (ino : Z) : proc freply :=
  with_path ino (λ path,
    a ← attr_for device_id path;
    match a with
    | Some attr => mret (RAttr attr)
    | None =>
      a ← (if bool_decide (path = ROOT)
           then _ ← ensure_root_ino device_id; attr_for device_id ROOT
           else mret None);
      match a with
      | Some attr => mret (RAttr attr)
      | None =>
        _ ← refresh_dir fuel device_id (parent_of path);
        a ← attr_for device_id path;
        mret (reply_attr a ENOENT)
      end
    end).

Definition insert_open (fh : Z) (h : OpenHandle) : proc unit :=
  modify (λ b, set_handles {| opens := <[fh := h]> (opens (handles b)); next_fh := next_fh (handles b) |} b).
(** The end of [opendir] and [open]. *)
Definition register_open (create : CreateReply) : proc freply :=
  fh ← alloc_fh;
  _ ← insert_open fh {| oh_device_id := device_id; oh_file_id := cr_file_id create |};
  mret (ROpened fh).
Definition get_open (fh : Z) : proc (option OpenHandle) := gets (λ b, opens (handles b) !! fh).

Definition opendir (ino : Z) : proc freply :=
  with_path ino (λ path,
    r ← submit_create device_id path GENERIC_READ FILE_OPEN FILE_DIRECTORY_FILE;
    match r with inl create => register_open create | inr e => mret (RError e) end).

(** [ReplyDirectory::add]; [true]: the buffer is full. *)
Definition add (l : list dirent) (e : dirent) : list dirent * bool :=
  if fits l e then (l ++ [e], false) else (l, true).
Fixpoint name_children (path : rstring) (listed : list DirectoryEntry) (acc : list (Z * FileType * rstring))
  : proc (list (Z * FileType * rstring)) :=
  match listed with
  | [] => mret acc
  | e :: listed =>
    let name := entry_name e in
    match join_win path name with
    | None => name_children path listed acc
    | Some child =>
      child_ino ← inode_for device_id child;
      let kind := if is_directory e then Directory else RegularFile in
      name_children path listed (acc ++ [(child_ino, kind, name)])
    end
  end.
Fixpoint add_children (i : Z) (entries : list (Z * FileType * rstring)) (out : list dirent) : list dirent :=
  match entries with
  | [] => out
  | (ino, kind, name) :: entries =>
    let '(out, full) := add out {| de_ino := ino; de_off := as_u64 (i + 3); de_kind := kind; de_name := name |} in
    if full then out else add_children (i + 1) entries out
  end.
Definition readdir (ino fh offset : Z) : proc freply :=
  with_path ino (λ path,
    handle ← get_open fh;
    match handle with
    | None => mret (RError EBADF)
    | Some handle =>
      listed ← enumerate_directory fuel device_id path (oh_file_id handle);
      match listed with
      | inr e => mret (RError e)
      | inl listed =>
        entries ← name_children path listed [];
        let dot := {| de_ino := ino; de_off := 1; de_kind := Directory; de_name := lit "." |} in
        let '(out, full) := if offset =? 0 then add [] dot else ([], false) in
        if full then mret (RDirectory out)
        else
          let next := if offset =? 0 then 1 else offset in
          r ← (if next =? 1 then
                 parent_ino ← (if bool_decide (path = ROOT) then mret ino
                               else inode_for device_id (parent_of path));
                 mret (add out {| de_ino := parent_ino; de_off := 2; de_kind := Directory; de_name := lit ".." |})
               else mret (out, false));
          let '(out, full) := r : list dirent * bool in
          if full : bool then mret (RDirectory out)
          else
            let next := if next =? 1 then 2 else next in
            let start := Z.max 0 (next - 2) in
            mret (RDirectory (add_children start (drop (Z.to_nat start) entries) out))
      end
    end).

(** [release] and [releasedir]. *)
Definition release (fh : Z) : proc freply :=
  handle ← locked (λ b, (set_handles {| opens := delete fh (opens (handles b)); next_fh := next_fh (handles b) |} b,
                         opens (handles b) !! fh));
  _ ← match handle with
      | Some handle => _ ← submit_close (oh_device_id handle) (oh_file_id handle); mret tt
      | None => mret tt
      end;
  mret ROk.
Definition releasedir : Z → proc freply := release.

Definition access_mask (write : bool) : Z :=
  if write then bits [GENERIC_READ; GENERIC_WRITE; SYNCHRONIZE] else bits [GENERIC_READ; SYNCHRONIZE].
Definition fuse_open (ino : Z) (acc_mode : OpenAccMode) (flags : Z) : proc freply :=
  with_path ino (λ path,
    let write := match acc_mode with O_WRONLY | O_RDWR => true | O_RDONLY => false end in
    let disposition := if Z.land flags O_TRUNC =? 0 then FILE_OPEN else FILE_OVERWRITE_IF in
    r ← submit_create device_id path (access_mask write) disposition FILE_SYNCHRONOUS_IO_NONALERT;
    match r with inl create => register_open create | inr e => mret (RError e) end).

Definition read (fh offset size : Z) : proc freply :=
  handle ← get_open fh;
  match handle with
  | None => mret (RError EBADF)
  | Some handle =>
    r ← submit_read (oh_device_id handle) (oh_file_id handle) size offset;
    mret match r with inl data => RData data | inr e => RError e end
  end.

Definition grow (end_ now : Z) (m : CachedMeta) : CachedMeta :=
  {| m_size := Z.max (m_size m) end_; m_is_dir := m_is_dir m; m_mtime := now; m_atime := m_atime m;
     m_ctime := m_ctime m; m_crtime := m_crtime m; m_perm := m_perm m; m_uid := m_uid m; m_gid := m_gid m |}.
Definition write (ino fh offset : Z) (data : bytes) : proc freply :=
  handle ← get_open fh;
  match handle with
  | None => mret (RError EBADF)
  | Some handle =>
    let device_id := oh_device_id handle in
    r ← submit_write device_id (oh_file_id handle) offset data;
    match r with
    | inr e => mret (RError e)
    | inl n =>
      path ← path_for device_id ino;
      _ ← match path with
          | Some path =>
            t ← now;
            modify_meta (alter (grow (Z.min (offset + n) (2 ^ 64 - 1)) t) (device_id, path))
          | None => mret tt
          end;
      mret (RWritten n)
    end
  end.

Definition create (parent : Z) (name : bytes) (mode umask flags : Z) : proc freply :=
  with_child parent name (λ path,
    let write := negb (Z.land flags 3 =? 0) in
    r ← submit_create device_id path (access_mask write) FILE_OPEN_IF FILE_SYNCHRONOUS_IO_NONALERT;
    match r with
    | inr e => mret (RError e)
    | inl create =>
      let mode := Z.land (Z.ldiff mode umask) 4095 in
      t ← now;
      uid ← gets b_uid;
      gid ← gets b_gid;
      _ ← modify_meta (λ mt, <[(device_id, path) := CachedMeta_fresh t false uid gid mode]> mt);
      a ← attr_for device_id path;
      match a with
      | None => mret (RError EIO)
      | Some attr =>
        fh ← alloc_fh;
        _ ← insert_open fh {| oh_device_id := device_id; oh_file_id := cr_file_id create |};
        mret (RCreated attr fh)
      end
    end).

Definition mkdir (parent : Z) (name : bytes) (mode umask : Z) : proc freply :=
  with_child parent name (λ path,
    r ← submit_create device_id path (bits [GENERIC_READ; SYNCHRONIZE]) FILE_CREATE
          (bits [FILE_DIRECTORY_FILE; FILE_SYNCHRONOUS_IO_NONALERT]);
    match r with
    | inr e => mret (RError e)
    | inl create =>
      _ ← submit_close device_id (cr_file_id create);
      let dir_mode := Z.land (Z.ldiff mode umask) 4095 in
      t ← now;
      uid ← gets b_uid;
      gid ← gets b_gid;
      _ ← modify_meta (λ mt, <[(device_id, path) := CachedMeta_fresh t true uid gid dir_mode]> mt);
      a ← attr_for device_id path;
      mret match a with Some attr => REntry attr | None => RError EIO end
    end).

Definition unlink (parent : Z) (name : bytes) : proc freply :=
  with_child parent name (λ path, reply_unit (delete_path device_id path false)).
Definition rmdir (parent : Z) (name : bytes) : proc freply :=
  with_child parent name (λ path,
    r ← ensure_dir_empty fuel device_id path;
    match r with
    | inr e => mret (RError e)
    | inl _ => reply_unit (delete_path device_id path true)
    end).

Definition rename (parent : Z) (name : bytes) (newparent : Z) (newname : bytes) (flags : RenameFlags)
  : proc freply :=
  with_path parent (λ parent_path, with_path newparent (λ new_parent_path,
    match from_utf8 name, from_utf8 newname with
    | Some name, Some newname =>
      match join_win parent_path name, join_win new_parent_path newname with
      | Some old_path, Some new_path =>
        if rename_whiteout flags then mret (RError ENOTSUP)
        else if rename_exchange flags then reply_unit (exchange_paths order device_id old_path new_path)
        else
          dest_exists ← path_exists device_id new_path;
          if rename_noreplace flags && dest_exists then mret (RError EEXIST)
          else reply_unit (rename_path order device_id old_path new_path dest_exists)
      | _, _ => mret (RError EINVAL)
      end
    | _, _ => mret (RError EINVAL)
    end)).

(** *** Attributes *)

Definition set_size (size t1 t2 : Z) (m : CachedMeta) : CachedMeta :=
  {| m_size := size; m_is_dir := m_is_dir m; m_mtime := t1; m_atime := m_atime m; m_ctime := t2;
     m_crtime := m_crtime m; m_perm := m_perm m; m_uid := m_uid m; m_gid := m_gid m |}.
Definition set_times (atime mtime ctime crtime : option Z) (m : CachedMeta) : CachedMeta :=
  {| m_size := m_size m; m_is_dir := m_is_dir m; m_mtime := default (m_mtime m) mtime;
     m_atime := default (m_atime m) atime; m_ctime := default (m_ctime m) ctime;
     m_crtime := default (m_crtime m) crtime; m_perm := m_perm m; m_uid := m_uid m; m_gid := m_gid m |}.

Definition opt_map {A B} (f : A → proc B) (o : option A) : proc (option B) :=
  match o with Some a => b ← f a; mret (Some b) | None => mret None end.
Definition is_some {A} (o : option A) : bool := match o with Some _ => true | None => false end.
Definition or {A} (a b : option A) : option A := match a with Some _ => a | None => b end.

(** [SET_INFORMATION] on an open file; a file opened for it is closed on failure. *)
Definition set_info_or_close (file_device file_id : Z) (close_after : bool) (class : Z) (buffer : bytes)
    (k : proc freply) : proc freply :=
  r ← submit_set_information file_device file_id class buffer;
  match r with
  | inl _ => k
  | inr e =>
    _ ← (if close_after then _ ← submit_close file_device file_id; mret tt else mret tt);
    mret (RError e)
  end.

Definition setattr_size (path : rstring) (size : option Z) (file_device file_id : Z) (close_after : bool)
    (k : proc freply) : proc freply :=
  match size with
  | None => k
  | Some size =>
    set_info_or_close file_device file_id close_after FILE_END_OF_FILE_INFORMATION
      (end_of_file_information_buffer (as_i64 size))
      (t1 ← now;
       t2 ← now;
       _ ← modify_meta (alter (set_size size t1 t2) (device_id, path));
       k)
  end.
Definition setattr_times (path : rstring) (atime mtime : option TimeOrNow) (ctime crtime chgtime : option Z)
    (file_device file_id : Z) (close_after : bool) (k : proc freply) : proc freply :=
  let filetime o := t ← opt_map (λ t, lift (systemtime_to_filetime t)) o; mret (default 0 t) in
  let filetime_or_now o := t ← opt_map time_or_now_to_filetime o; mret (default 0 t) in
  creation ← filetime crtime;
  last_access ← filetime_or_now atime;
  last_write ← filetime_or_now mtime;
  change ← filetime (or chgtime ctime);
  set_info_or_close file_device file_id close_after FILE_BASIC_INFORMATION
    (basic_information_buffer creation last_access last_write change 0)
    (a ← opt_map time_or_now_to_systemtime atime;
     m ← opt_map time_or_now_to_systemtime mtime;
     _ ← modify_meta (alter (set_times a m (or ctime chgtime) crtime) (device_id, path));
     k).

Definition setattr (ino : Z) (mode uid gid size : option Z) (atime mtime : option TimeOrNow)
    (ctime : option Z) (fh : option Z) (crtime chgtime : option Z) : proc freply :=
  with_path ino (λ path,
    let need_size := is_some size in
    let need_times := is_some atime || is_some mtime || is_some ctime || is_some crtime || is_some chgtime in
    _ ← (if is_some mode || is_some uid || is_some gid then apply_local_attrs device_id path mode uid gid
         else mret tt);
    if negb need_size && negb need_times then
      a ← attr_for device_id path; mret (reply_attr a ENOENT)
    else
      opened ← match fh with Some h => get_open h | None => mret None end;
      target ← match opened with
               | Some h => mret (inl (oh_device_id h, oh_file_id h, false))
               | None =>
                 let access := if need_size then bits [GENERIC_WRITE; FILE_WRITE_ATTRIBUTES; SYNCHRONIZE]
                               else bits [FILE_WRITE_ATTRIBUTES; SYNCHRONIZE] in
                 r ← submit_create device_id path access FILE_OPEN FILE_SYNCHRONOUS_IO_NONALERT;
                 mret match r with inl create => inl (device_id, cr_file_id create, true) | inr e => inr e end
               end;
      match target with
      | inr e => mret (RError e)
      | inl (file_device, file_id, close_after) =>
        let finish :=
          _ ← (if close_after : bool then _ ← submit_close file_device file_id; mret tt else mret tt);
          a ← attr_for device_id path;
          mret (reply_attr a ENOENT) in
        setattr_size path size file_device file_id close_after
          (if need_times
           then setattr_times path atime mtime ctime crtime chgtime file_device file_id close_after finish
           else finish)
      end).

(** *** Operations without state *)

Definition flush : proc freply := mret ROk.
Definition fsync : proc freply := mret ROk.
Definition fsyncdir : proc freply := mret ROk.
Definition getxattr : proc freply := mret (RError ENODATA).
Definition listxattr (size : Z) : proc freply := mret (if size =? 0 then RXattrSize 0 else RData []).
Definition setxattr : proc freply := mret (RError ENOTSUP).
Definition removexattr : proc freply := mret (RError ENOTSUP).

(** The requests of the kernel. *)
Inductive fuse_op :=
  | OpLookup (parent : Z) (name : bytes)
  | OpGetattr (ino : Z)
  | OpOpendir (ino : Z)
  | OpReaddir (ino fh offset : Z)
  | OpRelease (fh : Z)
  | OpOpen (ino : Z) (acc_mode : OpenAccMode) (flags : Z)
  | OpRead (fh offset size : Z)
  | OpWrite (ino fh offset : Z) (data : bytes)
  | OpCreate (parent : Z) (name : bytes) (mode umask flags : Z)
  | OpMkdir (parent : Z) (name : bytes) (mode umask : Z)
  | OpUnlink (parent : Z) (name : bytes)
  | OpRmdir (parent : Z) (name : bytes)
  | OpRename (parent : Z) (name : bytes) (newparent : Z) (newname : bytes) (flags : RenameFlags)
  | OpSetattr (ino : Z) (mode uid gid size : option Z) (atime mtime : option TimeOrNow)
      (ctime : option Z) (fh : option Z) (crtime chgtime : option Z).
Definition fuse (op : fuse_op) : proc freply :=
  match op with
  | OpLookup parent name => lookup parent name
  | OpGetattr ino => getattr ino
  | OpOpendir ino => opendir ino
  | OpReaddir ino fh offset => readdir ino fh offset
  | OpRelease fh => release fh
  | OpOpen ino acc_mode flags => fuse_open ino acc_mode flags
  | OpRead fh offset size => read fh offset size
  | OpWrite ino fh offset data => write ino fh offset data
  | OpCreate parent name mode umask flags => create parent name mode umask flags
  | OpMkdir parent name mode umask => mkdir parent name mode umask
  | OpUnlink parent name => unlink parent name
  | OpRmdir parent name => rmdir parent name
  | OpRename parent name newparent newname flags => rename parent name newparent newname flags
  | OpSetattr ino mode uid gid size atime mtime ctime fh crtime chgtime =>
    setattr ino mode uid gid size atime mtime ctime fh crtime chgtime
  end.
End fs.
