(* ===== verification/FuseThreads.v ===== *)
(** The threads of the drive mount and the connection that serves them: the consumer of
    [kmsrdp/src/rdpdr_fuse/mod.rs] as a [DriveConsumer], the steps of any number of threads
    interleaved with it, and one thread alone against a client. *)
From S2P Require Import Prelude Cursor Utf RdpdrPdu Rdpdr FusePath FuseBridge FuseFs.

(** ** The connection's side *)

Definition set_queue (o : list DriveCommand) (p : gmap Z Pending) (r : gmap Z Answer) (b : Bridge) : Bridge :=
  set_wire {| outbound := o; b_pending := p; replies := r; next_tag := next_tag (wire b) |} b.

(** The answer reaches the sender that waits under the tag, if it carries answers of this kind; any
    other sender is dropped. *)
Definition deliver (tag : Z) (a : Answer) (b : Bridge) : Bridge :=
  match b_pending (wire b) !! tag with
  | None => b
  | Some p =>
    set_queue (outbound (wire b)) (delete tag (b_pending (wire b)))
      (if decide (answer_kind a = p) then <[tag := a]> (replies (wire b)) else replies (wire b)) b
  end.
Definition bridge_poll (b : Bridge) : Bridge * list DriveCommand :=
  (set_queue [] (b_pending (wire b)) (replies (wire b)) b, outbound (wire b)).
Definition abort_pending (b : Bridge) : Bridge := set_queue [] ∅ (replies (wire b)) b.

(** The consumer of a connection, over the registry of mounts [R] it shares with others. *)
Record FuseDriveConsumer (R : Type) := {
  fc_bridge : Bridge; fc_registry : R; joined : gmap Z rstring; have_session : bool }.
Arguments Build_FuseDriveConsumer {R}.
Arguments fc_bridge {R} _.
Arguments fc_registry {R} _.
Arguments joined {R} _.
Arguments have_session {R} _.

Section consumer.
(** [MountRegistry::join] of a device under a name, on behalf of the connection. *)
Context {R : Type} (join : R → Z → rstring → R * bool).
Implicit Types c : FuseDriveConsumer R.

Definition on_bridge (f : Bridge → Bridge) c : FuseDriveConsumer R * list DriveCommand :=
  (Build_FuseDriveConsumer (f (fc_bridge c)) (fc_registry c) (joined c) (have_session c), []).

Definition FuseDriveConsumer_on_device_ready c (device_id device_type : Z) (dos_name : rstring)
  : FuseDriveConsumer R * list DriveCommand :=
  if negb (device_type =? RDPDR_DTYP_FILESYSTEM) || negb (have_session c) then (c, [])
  else
    let name := sanitize_dos_name dos_name in
    if bool_decide (name = []) then (c, [])
    else
      let '(registry, ok) := join (fc_registry c) device_id name in
      (Build_FuseDriveConsumer (ensure_root device_id (fc_bridge c)) registry
         (if ok then <[device_id := name]> (joined c) else joined c) (have_session c), []).

Definition FuseDriveConsumer_on_create_reply c tag r := on_bridge (deliver tag (ACreate r)) c.
Definition FuseDriveConsumer_on_close_reply c tag status := on_bridge (deliver tag (AClose status)) c.
Definition FuseDriveConsumer_on_read_reply c tag r := on_bridge (deliver tag (ARead r)) c.
Definition FuseDriveConsumer_on_write_reply c tag r := on_bridge (deliver tag (AWrite r)) c.
Definition FuseDriveConsumer_on_query_directory_reply c tag r := on_bridge (deliver tag (AQueryDir r)) c.
Definition FuseDriveConsumer_on_set_information_reply c tag r := on_bridge (deliver tag (ASetInfo r)) c.
Definition FuseDriveConsumer_poll_commands c : FuseDriveConsumer R * list DriveCommand :=
  let '(b, commands) := bridge_poll (fc_bridge c) in
  (Build_FuseDriveConsumer b (fc_registry c) (joined c) (have_session c), commands).

#[export] Instance FuseDriveConsumer_consumer : DriveConsumer (FuseDriveConsumer R) := {
  on_device_ready := FuseDriveConsumer_on_device_ready;
  on_create_reply := FuseDriveConsumer_on_create_reply;
  on_close_reply := FuseDriveConsumer_on_close_reply;
  on_read_reply := FuseDriveConsumer_on_read_reply;
  on_write_reply := FuseDriveConsumer_on_write_reply;
  on_query_directory_reply := FuseDriveConsumer_on_query_directory_reply;
  on_set_information_reply := FuseDriveConsumer_on_set_information_reply;
  poll_commands := FuseDriveConsumer_poll_commands
}.
End consumer.

(** ** Steps *)

(** [recv_pending]: an answer that was sent, a sender that was dropped, or the time limit, after
    which the request is forgotten. *)
Inductive recv (b : Bridge) (tag : Z) : outcome → Bridge → Prop :=
  | recv_reply a : replies (wire b) !! tag = Some a →
      recv b tag (Reply a)
        (set_queue (outbound (wire b)) (b_pending (wire b)) (delete tag (replies (wire b))) b)
  | recv_disconnected : replies (wire b) !! tag = None → b_pending (wire b) !! tag = None →
      recv b tag Disconnected b
  | recv_timeout : replies (wire b) !! tag = None →
      recv b tag Timeout
        (set_queue (outbound (wire b)) (delete tag (b_pending (wire b))) (replies (wire b)) b).

Inductive pstep {A} (b : Bridge) : proc A → Bridge → proc A → Prop :=
  | pstep_lock {B} (f : Bridge → Bridge * B) k : pstep b (Lock f k) (f b).1 (k (f b).2)
  | pstep_now t k : 0 ≤ t → pstep b (Now k) b (k t)
  | pstep_recv tag k o b' : recv b tag o b' → pstep b (Recv tag k) b' (k o).

(** What the connection does: sends the queued commands, passes answers on, goes away. *)
Inductive cstep (b : Bridge) : Bridge → Prop :=
  | cstep_poll : cstep b (bridge_poll b).1
  | cstep_deliver tag a : cstep b (deliver tag a b)
  | cstep_abort : cstep b (abort_pending b)
  | cstep_root device_id : cstep b (ensure_root device_id b).

(** The counters do not wrap. *)
Definition bounded (b : Bridge) : Prop :=
  next_tag (wire b) < 2 ^ 64 - 1 ∧ next_ino (tables b) < 2 ^ 64 - 1.

(** Threads by number; a request of the kernel starts one, and one that has ended is forgotten. *)
Definition system : Type := Bridge * gmap Z (proc freply).

Section system.
Context (order : gmap (Z * rstring) Z → list ((Z * rstring) * Z)) (fits : list dirent → dirent → bool).

Inductive sstep : system → system → Prop :=
  | sstep_start b pool i fuel device_id op : pool !! i = None →
      sstep (b, pool) (b, <[i := fuse order fits fuel device_id op]> pool)
  | sstep_thread b pool i p b' p' : pool !! i = Some p → pstep b p b' p' →
      sstep (b, pool) (b', <[i := p']> pool)
  | sstep_end b pool i r : pool !! i = Some (Ret r) → sstep (b, pool) (b, delete i pool)
  | sstep_connection b pool b' : cstep b b' → sstep (b, pool) (b', pool).

Inductive reachable (uid gid : Z) : system → Prop :=
  | reachable_init : reachable uid gid (Bridge_new uid gid, ∅)
  | reachable_step s s' : reachable uid gid s → bounded s.1 → sstep s s' → reachable uid gid s'.
End system.

(** ** One thread and a client *)

(** A client answers a command, or does not ([None]). *)
Section exec.
Context {S : Type} (client : S → DriveCommand → S * option Answer).

Definition command_tag (c : DriveCommand) : Z :=
  match c with
  | Create _ _ _ _ _ tag | Close _ _ tag | Read _ _ _ _ tag | Write _ _ _ _ tag
  | QueryDirectory _ _ _ tag | SetInformation _ _ _ _ tag => tag
  end.
Definition serve (sb : S * Bridge) (c : DriveCommand) : S * Bridge :=
  let '(s, answer) := client sb.1 c in
  (s, match answer with Some a => deliver (command_tag c) a sb.2 | None => sb.2 end).
Definition serve_all (s : S) (b : Bridge) : S * Bridge :=
  let '(b, commands) := bridge_poll b in foldl serve (s, b) commands.

(** The receiver finds the answer, or waits for the time limit. *)
Definition try_recv (tag : Z) (b : Bridge) : outcome * Bridge :=
  match replies (wire b) !! tag with
  | Some a => (Reply a, set_queue (outbound (wire b)) (b_pending (wire b)) (delete tag (replies (wire b))) b)
  | None =>
    match b_pending (wire b) !! tag with
    | None => (Disconnected, b)
    | Some _ => (Timeout, set_queue (outbound (wire b)) (delete tag (b_pending (wire b))) (replies (wire b)) b)
    end
  end.

(** [None]: the thread panics or its fuel ends.  The clock stands at [t]. *)
Fixpoint exec {A} (t : Z) (p : proc A) (s : S) (b : Bridge) : option (S * Bridge * A) :=
  match p with
  | Ret a => Some (s, b, a)
  | Lock f k => exec t (k (f b).2) s (f b).1
  | Now k => exec t (k t) s b
  | Recv tag k =>
    let '(s, b) := serve_all s b in
    let '(o, b) := try_recv tag b in
    exec t (k o) s b
  | Crash | NoFuel => None
  end.

Lemma exec_bind {A B} t (p : proc A) (k : A → proc B) : ∀ s b,
  exec t (p ≫= k) s b = '(s, b, a) ← exec t p s b; exec t (k a) s b.
Proof.
  induction p as [a|C f g IH|g IH|tag g IH| |]; intros s b; try done; cbn [exec mbind proc_mbind proc_bind].
  - apply IH.
  - apply IH.
  - destruct (serve_all s b) as [s' b']. destruct (try_recv tag b'). apply IH.
Qed.
End exec.
