(* ===== verification/FuseSafety.v ===== *)
(** What holds of the drive mount whatever its threads and the connection do, in any order: the
    inode tables stay consistent, no request leaves the drive, no two threads wait for one answer.
    A rely-guarantee logic for [proc] carries the proofs: a thread owns the tags of the requests it
    waits for and may know facts that no other thread undoes. *)
From S2P Require Import Prelude Cursor Utf RdpdrPdu Rdpdr FusePath FuseBridge FuseFs FuseThreads.

(** ** The invariant *)

Record tables_ok (t : Tables) : Prop := {
  ok_inverse d p i : path_to_ino t !! (d, p) = Some i → ino_to_path t !! (d, i) = Some p;
  ok_ino d p i : path_to_ino t !! (d, p) = Some i →
    (i = ROOT_INO ∧ p = ROOT) ∨ (ROOT_INO < i < next_ino t ∧ p ≠ ROOT);
  ok_path d i p : ino_to_path t !! (d, i) = Some p → confined p ∧ ROOT_INO ≤ i < next_ino t;
  ok_next : ROOT_INO < next_ino t < 2 ^ 64 }.

(** The paths a request names are below the root of the drive. *)
Definition command_ok (c : DriveCommand) : Prop :=
  match c with
  | Create _ path _ _ _ _ => confined path
  | QueryDirectory _ _ (Some path) _ => confined path
  | SetInformation _ _ class buffer _ =>
    class = FILE_RENAME_INFORMATION →
    ∃ new_path replace, confined new_path ∧ buffer = rename_information_buffer new_path replace
  | _ => True
  end.

Definition inv (b : Bridge) : Prop :=
  tables_ok (tables b) ∧ Forall command_ok (outbound (wire b)) ∧ 0 ≤ next_tag (wire b) < 2 ^ 64
  ∧ ∀ t, next_tag (wire b) ≤ t → b_pending (wire b) !! t = None ∧ replies (wire b) !! t = None.

(** An inode that no path has any more, and never will again. *)
Definition dead (d i : Z) (t : Tables) : Prop :=
  ROOT_INO < i < next_ino t ∧ ∀ p, path_to_ino t !! (d, p) ≠ Some i.

Definition tables_step (t t' : Tables) : Prop :=
  tables_ok t' ∧ next_ino t ≤ next_ino t' ∧ (∀ d i, dead d i t → dead d i t').

Lemma tables_step_refl t : tables_ok t → tables_step t t.
Proof. intros H. split_and!; [done|lia|done]. Qed.
Lemma tables_step_trans t1 t2 t3 : tables_step t1 t2 → tables_step t2 t3 → tables_step t1 t3.
Proof. intros (? & ? & ?) (? & ? & ?). split_and!; [done|lia|auto]. Qed.

Lemma ok_path_confined t d p i : tables_ok t → path_to_ino t !! (d, p) = Some i → confined p.
Proof. intros Ht H. by eapply ok_path, ok_inverse. Qed.
Lemma ok_injective t d p q i : tables_ok t →
  path_to_ino t !! (d, p) = Some i → path_to_ino t !! (d, q) = Some i → p = q.
Proof. intros Ht Hp%ok_inverse Hq%ok_inverse; [|done..]. congruence. Qed.

Lemma Bridge_new_inv uid gid : inv (Bridge_new uid gid).
Proof. split_and!; cbn; try lia; try constructor; cbn; intros; try by (rewrite lookup_empty in *). all: unfold ROOT_INO; lia. Qed.

(** *** The table operations *)

Definition add_path (d : Z) (p : rstring) (i next : Z) (m : gmap (Z * rstring) CachedMeta) (t : Tables) : Tables :=
  {| path_to_ino := <[(d, p) := i]> (path_to_ino t); ino_to_path := <[(d, i) := p]> (ino_to_path t);
     meta := m; next_ino := next |}.

Lemma add_path_step d p i next m t :
  tables_ok t → confined p → path_to_ino t !! (d, p) = None →
  (i = ROOT_INO ∧ p = ROOT ∧ next = next_ino t) ∨ (i = next_ino t ∧ p ≠ ROOT ∧ next = next_ino t + 1 ∧ next < 2 ^ 64) →
  tables_step t (add_path d p i next m t).
Proof.
  intros Ht Hp Hnone Hi. pose proof (ok_next _ Ht) as Hn.
  assert (∀ d' q j, path_to_ino t !! (d', q) = Some j → (d', j) ≠ (d, i) ∨ p = ROOT ∧ q = ROOT ∧ d' = d) as Hfresh.
  { intros d' q j Hj. destruct (ok_ino _ Ht _ _ _ Hj) as [[-> ->]|[? ?]].
    - destruct Hi as [(-> & -> & _)|(-> & _)]; [|left; intros [=]; lia].
      destruct (decide (d' = d)) as [->|]; [by right|left; congruence].
    - left. intros [= -> ->]. destruct Hi as [(-> & _)|(-> & _)]; lia. }
  split_and!; [constructor| |].
  - intros d' q j. cbn. rewrite lookup_insert_Some. intros [[[= <- <-] <-]|[Hne Hj]]; [by rewrite lookup_insert_eq|].
    destruct (Hfresh d' q j Hj) as [Hf|(-> & -> & ->)]; [|by destruct Hne].
    rewrite lookup_insert_ne by congruence. by apply ok_inverse.
  - intros d' q j. cbn. rewrite lookup_insert_Some. intros [[[= <- <-] <-]|[Hne Hj]].
    + destruct Hi as [(-> & -> & _)|(-> & ? & -> & _)]; [by left|right; split; [lia|done]].
    + destruct (ok_ino _ Ht _ _ _ Hj) as [?|[? ?]]; [by left|]. right. split; [|done].
      destruct Hi as [(_ & _ & ->)|(_ & _ & -> & _)]; lia.
  - intros d' j q. cbn. rewrite lookup_insert_Some. intros [[[= <- <-] <-]|[Hne Hj]].
    + split; [done|]. destruct Hi as [(-> & _ & ->)|(-> & _ & -> & _)]; lia.
    + destruct (ok_path _ Ht _ _ _ Hj) as [? ?]. split; [done|].
      destruct Hi as [(_ & _ & ->)|(_ & _ & -> & _)]; lia.
  - cbn. destruct Hi as [(_ & _ & ->)|(_ & _ & -> & ?)]; lia.
  - cbn. destruct Hi as [(_ & _ & ->)|(_ & _ & -> & ?)]; lia.
  - intros d' j [Hj Hdead]. split; [cbn; destruct Hi as [(_ & _ & ->)|(_ & _ & -> & ?)]; lia|].
    intros q. cbn. rewrite lookup_insert_Some. intros [[_ <-]|[_ Hq]]; [|by apply (Hdead q)].
    destruct Hi as [(-> & _)|(-> & _)]; lia.
Qed.

Lemma set_meta_step t m : tables_ok t → tables_step t (set_meta m t).
Proof. intros []. split_and!; [by constructor|cbn; lia|done]. Qed.

Lemma inode_of_step d p t : tables_ok t → confined p → next_ino t < 2 ^ 64 - 1 →
  tables_step t (inode_of d p t).1.
Proof.
  intros Ht Hp Hn. pose proof (ok_next _ Ht). unfold inode_of.
  destruct (path_to_ino t !! (d, p)) as [i|] eqn:E; [by apply tables_step_refl|].
  case_bool_decide as HR; cbn [fst].
  - apply (add_path_step d p ROOT_INO (next_ino t) (meta t)); auto.
  - apply (add_path_step d p (next_ino t) (as_u64 (next_ino t + 1)) (meta t)); auto.
    right. unfold as_u64, ROOT_INO in *. rewrite Z.mod_small by lia. split_and!; try done; lia.
Qed.

Definition drop_path (d : Z) (p : rstring) (t : Tables) : Tables :=
  {| path_to_ino := delete (d, p) (path_to_ino t); ino_to_path := ino_to_path t; meta := meta t;
     next_ino := next_ino t |}.
Definition drop_ino (d i : Z) (t : Tables) : Tables :=
  {| path_to_ino := path_to_ino t; ino_to_path := delete (d, i) (ino_to_path t); meta := meta t;
     next_ino := next_ino t |}.

Lemma drop_path_step d p t : tables_ok t → tables_step t (drop_path d p t).
Proof.
  intros Ht. split_and!; [constructor; cbn|cbn; lia|].
  - intros d' q j [_ Hj]%lookup_delete_Some. by apply ok_inverse.
  - intros d' q j [_ Hj]%lookup_delete_Some. by eapply ok_ino.
  - by eapply ok_path.
  - by apply ok_next.
  - intros d' j [? Hd]. split; [done|]. cbn. intros q [_ Hj]%lookup_delete_Some. by apply (Hd q).
Qed.
Lemma drop_path_dead d p t i : tables_ok t → p ≠ ROOT → path_to_ino t !! (d, p) = Some i → dead d i (drop_path d p t).
Proof.
  intros Ht Hp Hi. destruct (ok_ino _ Ht _ _ _ Hi) as [[_ ->]|[? _]]; [done|]. split; [done|].
  cbn. intros q [Hne Hj]%lookup_delete_Some. apply Hne. by rewrite (ok_injective t d q p i).
Qed.
Lemma drop_ino_step d i t : tables_ok t → dead d i t → tables_step t (drop_ino d i t).
Proof.
  intros Ht [Hi Hd]. split_and!; [constructor; cbn|cbn; lia|done].
  - intros d' q j Hj. rewrite lookup_delete_ne; [by apply ok_inverse|]. intros [= -> ->]. by apply (Hd q).
  - by eapply ok_ino.
  - intros d' j q [_ Hj]%lookup_delete_Some. by eapply ok_path.
  - by apply ok_next.
Qed.

(** *** Renaming *)

Lemma of_components_suffix cs : Forall component_ok cs → ∀ a rest, of_components cs = a ++ BACKSLASH :: rest →
  ∃ cs', Forall component_ok cs' ∧ cs' ≠ [] ∧ BACKSLASH :: rest = of_components cs'.
Proof.
  induction 1 as [|c cs Hc Hcs IH]; intros a rest E; [by destruct a|].
  destruct a as [|x a]; [exists (c :: cs); split_and!; [by constructor|done|by rewrite E]|].
  unfold of_components in E. rewrite bind_cons in E. injection E as <- E.
  apply app_eq_app in E as (k & [[-> E]|[-> E]]).
  - destruct k as [|y k].
    + apply (IH [] rest). by rewrite app_nil_l in E.
    + injection E as <- _. destruct Hc as (_ & _ & Hc & _). destruct Hc. set_solver.
  - by apply (IH k rest).
Qed.

Lemma remapped_confined old new path n :
  confined path → confined new → remapped old new path = Some n → confined n.
Proof.
  intros (cs & _ & Hcs & ->) Hnew. unfold remapped. case_bool_decide; [by intros [= <-]|].
  case_bool_decide as Hpre; [|done]. intros [= <-]. destruct Hpre as [rest Hrest].
  assert (∃ a, remap_prefix old = a ++ [BACKSLASH]) as [a Ha].
  { unfold remap_prefix. case_bool_decide; [by exists []|by exists old]. }
  rewrite Hrest, drop_app_length. rewrite Ha, <-app_assoc in Hrest.
  destruct (of_components_suffix cs Hcs a rest Hrest) as (cs' & Hcs' & _ & ->).
  destruct Hnew as (ns & Hne & Hns & ->). exists (ns ++ cs'). split_and!; [by destruct ns|by apply Forall_app|].
  unfold of_components. by rewrite bind_app.
Qed.

Lemma remapped_not_ROOT old new path n : confined new → new ≠ ROOT → remapped old new path = Some n → n ≠ ROOT.
Proof.
  intros (ns & Hne & _ & ->) HR. unfold remapped. case_bool_decide; [by intros [= <-]|].
  case_bool_decide; [|done]. intros [= <-]. destruct ns as [|c ns]; [done|].
  unfold of_components. rewrite bind_cons. cbn [app]. intros E. injection E as E.
  by apply app_eq_nil in E as [_ E].
Qed.

Section remap.
Context (order : gmap (Z * rstring) Z → list ((Z * rstring) * Z)) (Horder : ∀ m, order m ≡ₚ map_to_list m).

Lemma in_remaps d old new t o n i :
  (o, n, i) ∈ remaps order d old new t ↔ path_to_ino t !! (d, o) = Some i ∧ remapped old new o = Some n.
Proof.
  unfold remaps. rewrite list_elem_of_omap. split.
  - intros ([[d' p] j] & Hin & E). cbn [fst snd] in E. destruct (Z.eqb_spec d' d) as [->|]; [|done].
    destruct (remapped old new p) as [n'|] eqn:En; [|done]. injection E as <- <- <-.
    rewrite (Horder _) in Hin. by apply elem_of_map_to_list in Hin.
  - intros [Hi Hn]. exists (d, o, i). rewrite (Horder _). split; [by apply elem_of_map_to_list|].
    cbn [fst snd]. by rewrite Z.eqb_refl, Hn.
Qed.

Lemma remaps_NoDup d old new t : tables_ok t → NoDup (remaps order d old new t).*2.
Proof.
  intros Ht. unfold remaps.
  assert (NoDup (order (path_to_ino t))) as Hnd by (rewrite (Horder _); apply NoDup_map_to_list).
  assert (∀ d p i, (d, p, i) ∈ order (path_to_ino t) → path_to_ino t !! (d, p) = Some i) as Hl.
  { intros d' p i. rewrite (Horder _). by rewrite elem_of_map_to_list. }
  revert Hnd Hl. induction (order (path_to_ino t)) as [|[[d' p] i] l IH]; intros Hnd Hl; [constructor|].
  apply NoDup_cons in Hnd as [Hnin Hnd]. specialize (IH Hnd (λ d p i H, Hl d p i (list_elem_of_further _ _ _ H))).
  cbn [omap list_omap fst snd]. destruct (Z.eqb_spec d' d) as [->|]; [|done].
  destruct (remapped old new p) as [n|]; [|done]. cbn [mbind option_bind]. rewrite fmap_cons. constructor; [|done].
  rewrite list_elem_of_fmap. intros ([[o n'] j] & E & Hin). cbn in E. subst j.
  apply list_elem_of_omap in Hin as ([[d2 q] j] & Hin & E). cbn [fst snd] in E.
  destruct (Z.eqb_spec d2 d) as [->|]; [|done]. destruct (remapped old new q); [|done]. injection E as <- _ <-.
  apply Hnin. rewrite (ok_injective t d p q j Ht); [done|apply Hl; by left|apply Hl; by right].
Qed.

Lemma remap_one_ok d t o n i :
  tables_ok t → confined n → n ≠ ROOT → o ≠ ROOT → ROOT_INO < i < next_ino t →
  (∀ q, path_to_ino t !! (d, q) = Some i → q = o) → tables_ok (remap_one d t (o, n, i)).
Proof.
  intros Ht Hn HnR HoR Hi Hq. constructor; cbn.
  - intros d' q j. rewrite lookup_insert_Some. intros [[[= <- <-] <-]|[Hne Hj]]; [by rewrite lookup_insert_eq|].
    apply lookup_delete_Some in Hj as [Hno Hj]. rewrite lookup_insert_ne; [by apply ok_inverse|].
    intros [= -> ->]. by rewrite (Hq q) in Hno.
  - intros d' q j. rewrite lookup_insert_Some. intros [[[= <- <-] <-]|[Hne Hj]]; [by right|].
    apply lookup_delete_Some in Hj as [_ Hj]. by eapply ok_ino.
  - intros d' j q. rewrite lookup_insert_Some. intros [[[= <- <-] <-]|[_ Hj]]; [split; [done|lia]|by eapply ok_path].
  - by apply ok_next.
Qed.

(** A rename to be made: the inode is at the old name, or nowhere. *)
Definition rename_ok (d : Z) (t : Tables) (r : rstring * rstring * Z) : Prop :=
  let '(o, n, i) := r in
  confined n ∧ n ≠ ROOT ∧ o ≠ ROOT ∧ ROOT_INO < i < next_ino t ∧
  ∀ q, path_to_ino t !! (d, q) = Some i → q = o.

Lemma remap_fold_ok d rs : ∀ t, tables_ok t → NoDup rs.*2 → Forall (rename_ok d t) rs →
  let t' := foldl (remap_one d) t rs in
  tables_ok t' ∧ next_ino t' = next_ino t
  ∧ ∀ d' q i, path_to_ino t' !! (d', q) = Some i →
      (∃ p, path_to_ino t !! (d', p) = Some i) ∨ (d' = d ∧ i ∈ rs.*2).
Proof.
  induction rs as [|[[o n] i] rs IH]; intros t Ht Hnd Hrs; [split_and!; naive_solver|].
  rewrite fmap_cons in Hnd. apply NoDup_cons in Hnd as [Hni Hnd]. apply Forall_cons in Hrs as [Hr Hrs].
  destruct Hr as (Hn & HnR & HoR & Hi & Hq). cbn [foldl].
  destruct (IH (remap_one d t (o, n, i))) as (Hok & Hnext & Hfrom).
  - by apply remap_one_ok.
  - done.
  - apply Forall_forall. intros [[o' n'] i'] Hin. pose proof (proj1 (Forall_forall _ _) Hrs _ Hin) as Hr.
    destruct Hr as (? & ? & ? & ? & Hq'). split; [done|]. split; [done|]. split; [done|]. split; [done|].
    cbn. intros q.
    rewrite lookup_insert_Some. intros [[[= <-] <-]|[_ [_ Hj]%lookup_delete_Some]]; [|by apply Hq'].
    destruct Hni. apply list_elem_of_fmap. by exists (o', n', i).
  - split_and!; [done|done|]. intros d' q j Hj. destruct (Hfrom d' q j Hj) as [[p Hp]|[-> Hin]].
    + cbn in Hp. apply lookup_insert_Some in Hp as [[[= <- <-] <-]|[_ [_ Hp]%lookup_delete_Some]].
      * right. split; [done|by left].
      * left. by exists p.
    + right. split; [done|by right].
Qed.

Lemma confined_nonempty p : confined p → p ≠ [].
Proof. intros (cs & Hne & _ & ->). by destruct cs. Qed.

Lemma remapped_ROOT old new : old ≠ ROOT → old ≠ [] → remapped old new ROOT = None.
Proof.
  intros HR Hne. unfold remapped, remap_prefix.
  rewrite (bool_decide_false (ROOT = old)), (bool_decide_false (old = ROOT)) by done.
  rewrite bool_decide_false; [done|]. intros Hpre%prefix_length. rewrite length_app in Hpre.
  by destruct old as [|? [|]]; cbn in Hpre; try lia.
Qed.

Lemma remaps_ok d old new t : tables_ok t → confined old → old ≠ ROOT → confined new → new ≠ ROOT →
  Forall (rename_ok d t) (remaps order d old new t).
Proof.
  intros Ht Holdc Hold Hnew HnR. apply Forall_forall. intros [[o n] i] [Hi Hn]%in_remaps.
  assert (o ≠ ROOT) as HoR.
  { intros ->. rewrite remapped_ROOT in Hn; [done|done|by apply confined_nonempty]. }
  split; [|split; [|split; [done|split]]].
  - eapply remapped_confined; [by eapply ok_path_confined|done|done].
  - by eapply remapped_not_ROOT.
  - by destruct (ok_ino _ Ht _ _ _ Hi) as [[_ ?]|[? _]].
  - intros q Hq. by eapply ok_injective.
Qed.

Lemma remap_tables_step d old new t :
  tables_ok t → confined old → old ≠ ROOT → confined new → new ≠ ROOT →
  tables_step t (remap_tables order d old new t).
Proof.
  intros Ht Holdc Hold Hnew HnR.
  destruct (remap_fold_ok d (remaps order d old new t) t Ht) as (Hok & Hnext & Hfrom).
  - by apply remaps_NoDup.
  - by apply remaps_ok.
  - split_and!; [done|unfold remap_tables; lia|]. intros d' i [Hi Hd]. split; [unfold remap_tables; lia|].
    intros q Hq. destruct (Hfrom d' q i Hq) as [[p Hp]|[-> Hin]]; [by apply (Hd p)|].
    apply list_elem_of_fmap in Hin as ([[o n] j] & E & Hin). cbn in E. subst j.
    apply in_remaps in Hin as [Ho _]. by apply (Hd o).
Qed.
End remap.

(** ** The logic *)

Notation pend b t := (b_pending (wire b) !! t).
Notation repl b t := (replies (wire b) !! t).

(** What happens to the request of a tag without its thread: its answer comes or its sender goes. *)
Definition tag_env (b b' : Bridge) (t : Z) : Prop :=
  (pend b' t = pend b t ∧ repl b' t = repl b t)
  ∨ (pend b' t = None ∧ (repl b' t = repl b t ∨ ∃ a, pend b t = Some (answer_kind a) ∧ repl b' t = Some a)).

Definition monotone (b b' : Bridge) : Prop :=
  inv b' ∧ next_tag (wire b) ≤ next_tag (wire b') ∧ tables_step (tables b) (tables b').
(** What the others do to a thread that owns the tags [T], and what it may do to them. *)
Definition rely (T : gset Z) (b b' : Bridge) : Prop := monotone b b' ∧ ∀ t, t ∈ T → tag_env b b' t.
Definition guarantee (T : gset Z) (b b' : Bridge) : Prop :=
  monotone b b' ∧ ∀ t, t ∉ T → t < next_tag (wire b) → pend b' t = pend b t ∧ repl b' t = repl b t.

Definition stable (T : gset Z) (K : Bridge → Prop) : Prop := ∀ b b', inv b → K b → rely T b b' → K b'.
Definition owned (T : gset Z) (b : Bridge) : Prop := ∀ t, t ∈ T → t < next_tag (wire b).

(** A thread that owns [T] and knows [K], and ends with a result in [Q]. *)
Fixpoint good {A} (p : proc A) (T : gset Z) (K : Bridge → Prop) (Q : A → Prop) : Prop :=
  match p with
  | Ret a => Q a
  | Lock f k =>
    ∀ b, inv b → bounded b → K b → owned T b →
      let '(b', x) := f b in
      ∃ T' K', guarantee T b b' ∧ stable T' K' ∧ K' b'
        ∧ (∀ t, t ∈ T' → (t ∈ T ∨ next_tag (wire b) ≤ t) ∧ t < next_tag (wire b'))
        ∧ good (k x) T' K' Q
  | Now k => ∀ t, good (k t) T K Q
  | Recv tag k => tag ∈ T ∧ ∀ b o b', inv b → K b → recv b tag o b' → good (k o) ∅ (λ _, True) Q
  | Crash | NoFuel => True
  end.
(** A thread between requests. *)
Definition goodp {A} (p : proc A) (Q : A → Prop) : Prop := good p ∅ (λ _, True) Q.

Lemma stable_True T : stable T (λ _, True).
Proof. done. Qed.
Lemma owned_empty b : owned ∅ b.
Proof. intros t Ht. set_solver. Qed.

Lemma good_weaken {A} (p : proc A) : ∀ T T2 (K K2 : Bridge → Prop) Q,
  T ⊆ T2 → (∀ b, K2 b → K b) → good p T K Q → good p T2 K2 Q.
Proof.
  induction p as [a|B f k IH|k IH|tag k IH| |]; intros T T2 K K2 Q HT HK H; try done; cbn in H |- *.
  - intros b Hb Hbd HK2 Hown. specialize (H b Hb Hbd (HK b HK2) (λ t Ht, Hown t (HT t Ht))).
    destruct (f b) as [b' x]. destruct H as (T' & K' & [Hm Hg] & Hst & HK' & HT' & Hgood).
    exists T', K'. split; [split; [done|]|split; [done|split; [done|split; [|done]]]].
    + intros t Ht Hlt. apply Hg; [set_solver|done].
    + intros t Ht. destruct (HT' t Ht) as [[?|?] ?]; [set_solver|auto].
  - intros t. by apply (IH t T T2 K K2).
  - destruct H as [Ht H]. split; [set_solver|]. intros b o b' Hb HK2 Hr. eapply H; eauto.
Qed.

Lemma good_bind {A B} (p : proc A) (g : A → proc B) : ∀ T K (Q : A → Prop) Q',
  good p T K Q → (∀ a, Q a → goodp (g a) Q') → good (p ≫= g) T K Q'.
Proof.
  unfold goodp.
  induction p as [a|C f k IH|k IH|tag k IH| |]; intros T K Q Q' H Hg; try done; cbn in H |- *.
  - apply good_weaken with ∅ (λ _, True); [apply empty_subseteq|done|by apply Hg].
  - intros b Hb Hbd HK Hown. specialize (H b Hb Hbd HK Hown). destruct (f b) as [b' x].
    destruct H as (T' & K' & ? & ? & ? & ? & Hgood). exists T', K'. do 4 (split; [done|]). by eapply IH.
  - intros t. by eapply IH.
  - destruct H as [Ht H]. split; [done|]. intros b o b' Hb HK Hr. eapply IH; eauto.
Qed.

Lemma goodp_bind {A B} (p : proc A) (g : A → proc B) (Q : A → Prop) Q' :
  goodp p Q → (∀ a, Q a → goodp (g a) Q') → goodp (p ≫= g) Q'.
Proof. apply good_bind. Qed.
Lemma goodp_ret {A} (a : A) (Q : A → Prop) : Q a → goodp (mret a) Q.
Proof. done. Qed.
Lemma good_post {A} (p : proc A) : ∀ T K (Q Q' : A → Prop), good p T K Q → (∀ a, Q a → Q' a) → good p T K Q'.
Proof.
  induction p as [a|C f k IH|k IH|tag k IH| |]; intros T K Q Q' H Hq; try done; cbn in H |- *; auto.
  - intros b Hb Hbd HK Hown. specialize (H b Hb Hbd HK Hown). destruct (f b) as [b' x].
    destruct H as (T' & K' & ? & ? & ? & ? & Hgood). exists T', K'. do 4 (split; [done|]). by eapply IH.
  - intros t. by eapply IH.
  - destruct H as [Ht H]. split; [done|]. intros b o b' Hb HK Hr. eapply IH; eauto.
Qed.
Lemma goodp_attempt {A B} (p : proc (A + Errno)) (g : A → proc (B + Errno)) (Q : A → Prop) (Q' : B + Errno → Prop) :
  goodp p (λ r, match r with inl a => Q a | inr _ => True end) → (∀ e, Q' (inr e)) →
  (∀ a, Q a → goodp (g a) Q') → goodp (attempt p g) Q'.
Proof. intros Hp He Hg. eapply goodp_bind; [exact Hp|]. intros [a|e] Ha; [by apply Hg|by apply goodp_ret]. Qed.

(** One section under a lock that touches no request. *)
Lemma goodp_locked {B} (f : Bridge → Bridge * B) (Q : B → Prop) :
  (∀ b, inv b → bounded b → let '(b', x) := f b in
     wire b' = wire b ∧ tables_step (tables b) (tables b') ∧ Q x) →
  goodp (locked f) Q.
Proof.
  intros H b Hb Hbd _ _. specialize (H b Hb Hbd). destruct (f b) as [b' x]. destruct H as (Hw & Ht & Hq).
  exists ∅, (λ _, True). destruct Hb as (_ & Hc & Hn & Hfr).
  split; [|split; [apply stable_True|split; [done|split; [set_solver|done]]]]. split.
  - split; [split; [apply Ht|split; [by rewrite Hw|split; by rewrite Hw]]|]. split; [rewrite Hw; lia|done].
  - intros t _ _. by rewrite Hw.
Qed.
Lemma goodp_gets {B} (f : Bridge → B) (Q : B → Prop) : (∀ b, inv b → Q (f b)) → goodp (gets f) Q.
Proof. intros H. apply goodp_locked. intros b Hb _. split; [done|split; [apply tables_step_refl, Hb|by apply H]]. Qed.
Lemma goodp_modify_tables (f : Tables → Tables) (Q : unit → Prop) :
  (∀ t, tables_ok t → tables_step t (f t)) → Q tt → goodp (modify (λ b, set_tables (f (tables b)) b)) Q.
Proof. intros H Hq. apply goodp_locked. intros b Hb _. split; [done|split; [apply H, Hb|done]]. Qed.
Lemma goodp_modify_meta f (Q : unit → Prop) : Q tt → goodp (modify_meta f) Q.
Proof. intros HQ. apply (goodp_modify_tables (λ t, set_meta (f (meta t)) t)); [|done]. intros. by apply set_meta_step. Qed.
Lemma goodp_handles {B} (f : Bridge → Handles * B) (Q : B → Prop) :
  (∀ b, Q (f b).2) → goodp (locked (λ b, (set_handles (f b).1 b, (f b).2))) Q.
Proof. intros H. apply goodp_locked. intros b Hb _. split; [done|split; [apply tables_step_refl, Hb|done]]. Qed.

(** A request: the answer has the kind that is waited for. *)
Definition fresh_tag (t : Z) (p : option Pending) (b : Bridge) : Prop :=
  (∀ p', pend b t = Some p' → Some p' = p) ∧ (∀ a, repl b t = Some a → Some (answer_kind a) = p).

Lemma fresh_tag_stable t p : stable {[t]} (fresh_tag t p).
Proof.
  intros b b' _ [Hp Ha] [_ Hr]. destruct (Hr t) as [[Ep Er]|[Ep Er]]; [set_solver|split; rewrite ?Ep, ?Er; auto|].
  split; [by rewrite Ep|]. intros a Hra. destruct Er as [Er|(a' & Hp' & Er)]; [rewrite Er in Hra; auto|].
  rewrite Er in Hra. injection Hra as <-. auto.
Qed.

Lemma alloc_tag_good b : inv b → bounded b →
  let b' := set_wire {| outbound := outbound (wire b); b_pending := b_pending (wire b);
                        replies := replies (wire b); next_tag := as_u64 (next_tag (wire b) + 1) |} b in
  guarantee ∅ b b' ∧ fresh_tag (next_tag (wire b)) None b' ∧ next_tag (wire b') = next_tag (wire b) + 1.
Proof.
  intros (Ht & Hc & Hn & Hfr) [Hbd _] b'. destruct (Hfr (next_tag (wire b)) ltac:(lia)) as [Hp Hr].
  assert (next_tag (wire b') = next_tag (wire b) + 1) as Hnext.
  { unfold b'. cbn. unfold as_u64. rewrite Z.mod_small; lia. }
  split; [split; [|done]|split; [|done]].
  - split; [split; [done|split; [done|split; [lia|]]]|split; [lia|by apply tables_step_refl]].
    intros t Hlt. apply (Hfr t). lia.
  - split; unfold b'; cbn; [rewrite Hp|rewrite Hr]; done.
Qed.

(** A section that changes requests of its own tags only. *)
Lemma wire_guarantee T b o p r : inv b → Forall command_ok o → owned T b →
  (∀ t, t ∉ T → p !! t = pend b t ∧ r !! t = repl b t) → guarantee T b (set_queue o p r b).
Proof.
  intros (Ht & Hc & Hn & Hfr) Ho Hown H. split; [|by intros t Ht' _; apply H].
  split; [split; [done|split; [done|split; [done|]]]|split; [cbn; lia|by apply tables_step_refl]].
  intros t Hlt. cbn. destruct (H t) as [-> ->]; [|by apply Hfr]. intros Hin. specialize (Hown t Hin). cbn in Hlt. lia.
Qed.

Lemma request_good p c (Q : outcome → Prop) :
  (∀ tag, command_ok (c tag)) → (∀ o, (∀ a, o = Reply a → answer_kind a = p) → Q o) →
  goodp (request p c) Q.
Proof.
  intros Hc HQ b Hb Hbd _ _. cbn. set (t := next_tag (wire b)).
  destruct (alloc_tag_good b Hb Hbd) as (Hg & Hfr & Hnext).
  exists {[t]}, (fresh_tag t None). split; [done|split; [apply fresh_tag_stable|split; [done|split]]].
  { intros t' ->%elem_of_singleton. cbn in Hnext |- *. fold t in Hnext |- *. split; [right|]; lia. }
  clearbody t. clear b Hb Hbd Hg Hfr Hnext. intros b Hb _ [Hp0 Hr0] Hown. pose proof Hb as (_ & Hcs & _ & _).
  exists {[t]}, (fresh_tag t (Some p)). split; [|split; [apply fresh_tag_stable|split; [|split]]].
  { apply (wire_guarantee {[t]}); try done. intros t' Ht'. rewrite lookup_insert_ne; [done|set_solver]. }
  { split; cbn; [intros p'; rewrite lookup_insert_eq; by intros [= ->]|intros a Ha; by specialize (Hr0 a Ha)]. }
  { intros t' Ht'. split; [by left|]. by apply Hown. }
  clear b Hb Hp0 Hr0 Hown Hcs. intros b Hb _ Hfr Hown. pose proof Hb as (_ & Hcs & _ & _).
  exists {[t]}, (fresh_tag t (Some p)). split; [|split; [apply fresh_tag_stable|split; [done|split]]].
  { apply (wire_guarantee {[t]}); try done. apply Forall_app. split; [done|]. by apply Forall_singleton. }
  { intros t' Ht'. split; [by left|]. by apply Hown. }
  split; [set_solver|]. clear b Hb Hfr Hown Hcs. intros b o b' _ [_ Hr] Hrecv. apply HQ. intros a ->.
  inversion Hrecv as [? Ha| |]; subst. specialize (Hr a Ha). congruence.
Qed.

(** ** The operations *)

Definition safe_proc {A} (p : proc A) : Prop := goodp p (λ _, True).

Create HintDb fuse.
Lemma sproc_ret {A} (a : A) : safe_proc (mret a).
Proof. done. Qed.
Lemma sproc_bind {A B} (p : proc A) (g : A → proc B) : safe_proc p → (∀ a, safe_proc (g a)) → safe_proc (p ≫= g).
Proof. intros Hp Hg. eapply goodp_bind; [exact Hp|]. intros a _. apply Hg. Qed.
Lemma safe_attempt {A B} (p : proc (A + Errno)) (g : A → proc (B + Errno)) :
  safe_proc p → (∀ a, safe_proc (g a)) → safe_proc (attempt p g).
Proof. intros Hp Hg. apply sproc_bind; [done|]. intros [a|e]; [apply Hg|apply sproc_ret]. Qed.
Lemma safe_now : safe_proc now.
Proof. done. Qed.
Lemma safe_lift {A} (r : res Empty_set A) : safe_proc (lift r).
Proof. by destruct r as [a|[]|]. Qed.
Lemma safe_gets {B} (f : Bridge → B) : safe_proc (gets f).
Proof. by apply goodp_gets. Qed.
Lemma safe_modify_meta f : safe_proc (modify_meta f).
Proof. by apply goodp_modify_meta. Qed.
Lemma safe_request p c : (∀ tag, command_ok (c tag)) → safe_proc (request p c).
Proof. intros Hc. by apply request_good. Qed.
Lemma safe_alloc_fh : safe_proc alloc_fh.
Proof. by apply (goodp_handles (λ b, ({| opens := opens (handles b); next_fh := as_u64 (next_fh (handles b) + 1) |}, _))). Qed.
Lemma safe_insert_open fh h : safe_proc (insert_open fh h).
Proof. by apply (goodp_handles (λ b, ({| opens := <[fh := h]> (opens (handles b)); next_fh := next_fh (handles b) |}, tt))). Qed.
Lemma safe_alloc_tag : safe_proc alloc_tag.
Proof.
  intros b Hb Hbd _ _. cbn. destruct (alloc_tag_good b Hb Hbd) as (Hg & _ & _).
  exists ∅, (λ _, True). split; [done|split; [apply stable_True|split; [done|split; [set_solver|done]]]].
Qed.

#[export] Hint Resolve sproc_ret safe_now safe_lift safe_gets safe_modify_meta safe_alloc_fh safe_insert_open
  safe_alloc_tag : fuse.

(** Runs through a [proc]: its binds, its branches, and the operations it calls. *)
Ltac fuse_steps :=
  repeat first
    [ match goal with |- ∀ _, _ => intro end
    | progress cbv beta zeta
    | solve [eauto with fuse]
    | match goal with |- safe_proc (_ ≫= _) => apply sproc_bind end
    | match goal with |- safe_proc (attempt _ _) => apply safe_attempt end
    | match goal with |- safe_proc (match ?x with _ => _ end) => destruct x eqn:? end
    | match goal with |- safe_proc (let '(_, _) := ?x in _) => destruct x eqn:? end ].

Lemma safe_submit_create d p access disposition options :
  confined p → safe_proc (submit_create d p access disposition options).
Proof. intros Hp. apply sproc_bind; [|auto with fuse]. by apply safe_request. Qed.
Lemma safe_submit_close d f : safe_proc (submit_close d f).
Proof. apply sproc_bind; [by apply safe_request|auto with fuse]. Qed.
Lemma safe_submit_read d f l o : safe_proc (submit_read d f l o).
Proof. apply sproc_bind; [by apply safe_request|auto with fuse]. Qed.
Lemma safe_submit_write d f o data : safe_proc (submit_write d f o data).
Proof. apply sproc_bind; [by apply safe_request|auto with fuse]. Qed.
Lemma safe_submit_query_dir d f p : (∀ q, p = Some q → confined q) → safe_proc (submit_query_dir d f p).
Proof. intros Hp. apply sproc_bind; [|auto with fuse]. apply safe_request. intros tag. destruct p; cbn; auto. Qed.
Lemma safe_submit_set_information d f class buffer :
  (class = FILE_RENAME_INFORMATION →
   ∃ new_path replace, confined new_path ∧ buffer = rename_information_buffer new_path replace) →
  safe_proc (submit_set_information d f class buffer).
Proof. intros H. apply sproc_bind; [|auto with fuse]. by apply safe_request. Qed.

Lemma safe_ensure_root_ino d : safe_proc (ensure_root_ino d).
Proof.
  apply goodp_locked. intros b Hb _. unfold ensure_root. destruct Hb as (Ht & _).
  destruct (path_to_ino (tables b) !! (d, ROOT)) eqn:E; [by split_and!; try apply tables_step_refl|].
  split; [done|split; [|done]]. apply (add_path_step d ROOT ROOT_INO (next_ino (tables b))); auto using confined_ROOT.
Qed.
Lemma safe_inode_for d p : confined p → safe_proc (inode_for d p).
Proof.
  intros Hp. apply goodp_locked. intros b Hb [_ Hn]. pose proof (inode_of_step d p (tables b) (proj1 Hb) Hp Hn) as H.
  by destruct (inode_of d p (tables b)) as [t i].
Qed.
Lemma path_for_good d ino (Q : option rstring → Prop) :
  Q None → (∀ p, confined p → Q (Some p)) → goodp (path_for d ino) Q.
Proof.
  intros H0 H. apply goodp_gets. intros b Hb. destruct (ino_to_path (tables b) !! (d, ino)) eqn:E; [|done].
  apply H. by eapply ok_path, E; apply Hb.
Qed.
#[export] Hint Resolve safe_submit_create safe_submit_close safe_submit_read safe_submit_write
  safe_ensure_root_ino safe_inode_for : fuse.

Lemma safe_cache_entry d parent e : confined parent → safe_proc (cache_entry d parent e).
Proof.
  intros Hp. unfold cache_entry. destruct (is_safe_win_component _); [|auto with fuse].
  destruct (join_win parent (entry_name e)) eqn:E; [|auto with fuse].
  pose proof (join_win_confined _ _ _ Hp E). fuse_steps.
Qed.
Lemma safe_attr_for d p : confined p → safe_proc (attr_for d p).
Proof. intros Hp. unfold attr_for. fuse_steps. Qed.
#[export] Hint Resolve safe_cache_entry safe_attr_for : fuse.

Lemma safe_forget_path d p : p ≠ ROOT → safe_proc (forget_path d p).
Proof.
  intros Hp. unfold forget_path. apply sproc_bind; [auto with fuse|]. intros _.
  intros b Hb _ _ _. cbn. destruct Hb as (Ht & Hc & Hn & Hfr).
  destruct (path_to_ino (tables b) !! (d, p)) as [i|] eqn:E.
  2: { exists ∅, (λ _, True). split; [|split; [apply stable_True|split; [done|split; [set_solver|done]]]].
       split; [split; [split; [|done]|split; [cbn; lia|]]|done]; by apply drop_path_step. }
  exists ∅, (λ b, dead d i (tables b)). split.
  { split; [split; [split; [|done]|split; [cbn; lia|]]|done]; by apply drop_path_step. }
  split; [intros b1 b2 _ Hd [(_ & _ & _ & _ & Hdead) _]; by apply Hdead|].
  split; [by apply drop_path_dead|]. split; [set_solver|].
  clear b Ht Hc Hn Hfr E. intros b (Ht & Hc & Hn & Hfr) _ Hd _. exists ∅, (λ _, True).
  split; [|split; [apply stable_True|split; [done|split; [set_solver|done]]]].
  split; [split; [split; [|done]|split; [cbn; lia|]]|done]; by apply drop_ino_step.
Qed.

Lemma join_win_not_ROOT parent name p : join_win parent name = Some p → p ≠ ROOT.
Proof.
  unfold join_win. destruct (is_safe_win_component name) eqn:E; [|done].
  apply is_safe_win_component_spec in E as [Hn _]. intros [= <-]. case_bool_decide as HR; intros H.
  - by injection H.
  - destruct parent as [|x parent]; cbn in H; injection H as H; [done|]. by destruct parent.
Qed.

Lemma decimal_chars fuel n c : c ∈ decimal_from fuel n → 0 ≤ n → 48 ≤ c ≤ 57.
Proof.
  revert n. induction fuel as [|fuel IH]; intros n Hc Hn; [by apply elem_of_nil in Hc|].
  cbn [decimal_from] in Hc. apply elem_of_app in Hc as [Hc|Hc%list_elem_of_singleton].
  - destruct (Z.ltb_spec n 10); [by apply elem_of_nil in Hc|]. apply (IH (n / 10)); [done|]. by apply Z.div_pos.
  - pose proof (Z.mod_pos_bound n 10). lia.
Qed.

Lemma exchange_temp_confined path tag : confined path → 0 ≤ tag →
  confined (exchange_temp path tag) ∧ exchange_temp path tag ≠ ROOT.
Proof.
  intros Hp Ht. unfold exchange_temp. split.
  - apply confined_snoc; [by apply parent_of_confined|].
    assert (∀ c, c ∈ lit ".__kmsrdp_xchg_" ++ decimal tag → c ≠ BACKSLASH ∧ c ≠ 47 ∧ c ≠ 0 ∧ c ≠ 58) as H.
    { intros c [Hc|Hc%decimal_chars]%elem_of_app; [|unfold BACKSLASH; lia|done].
      revert c Hc. apply Forall_forall. vm_compute. repeat constructor; lia. }
    split; [done|split; [done|]]. split_and!; intros Hin; by apply H in Hin as (?&?&?&?).
  - intros E. apply (f_equal length) in E. rewrite length_app in E. cbn in E. lia.
Qed.

Section operations.
Context (order : gmap (Z * rstring) Z → list ((Z * rstring) * Z)) (Horder : ∀ m, order m ≡ₚ map_to_list m)
  (fits : list dirent → dirent → bool) (fuel : nat) (d : Z).

Lemma safe_remap_path old new : confined old → old ≠ ROOT → confined new → new ≠ ROOT →
  safe_proc (remap_path order d old new).
Proof.
  intros. apply (goodp_modify_tables (remap_tables order d old new)); [|done].
  intros t Ht. by apply remap_tables_step.
Qed.

Lemma safe_delete_path p is_dir : confined p → p ≠ ROOT → safe_proc (delete_path d p is_dir).
Proof.
  intros Hp HR. unfold delete_path. pose proof (safe_forget_path d p HR).
  fuse_steps. by apply safe_submit_set_information.
Qed.
Lemma safe_rename_path old new replace : confined old → old ≠ ROOT → confined new → new ≠ ROOT →
  safe_proc (rename_path order d old new replace).
Proof.
  intros Ho HoR Hn HnR. pose proof (safe_remap_path old new Ho HoR Hn HnR). unfold rename_path.
  fuse_steps. apply safe_submit_set_information. intros _. by exists new, replace.
Qed.
Lemma safe_exchange_paths a c : confined a → a ≠ ROOT → confined c → c ≠ ROOT →
  safe_proc (exchange_paths order d a c).
Proof.
  intros Ha HaR Hc HcR. unfold exchange_paths.
  eapply goodp_bind with (Q := λ tag, 0 ≤ tag).
  { intros b Hb Hbd _ _. cbn. destruct (alloc_tag_good b Hb Hbd) as (Hg & _ & _). exists ∅, (λ _, True).
    destruct Hb as (_ & _ & ? & _).
    split; [done|split; [apply stable_True|split; [done|split; [set_solver|lia]]]]. }
  intros tag Ht. destruct (exchange_temp_confined a tag Ha Ht) as [Hx HxR].
  pose proof (safe_rename_path a (exchange_temp a tag) false Ha HaR Hx HxR).
  pose proof (safe_rename_path c a false Hc HcR Ha HaR).
  pose proof (safe_rename_path (exchange_temp a tag) c false Hx HxR Hc HcR).
  pose proof (safe_rename_path (exchange_temp a tag) a false Hx HxR Ha HaR).
  change (safe_proc (attempt (rename_path order d a (exchange_temp a tag) false)
    (λ _, r ← rename_path order d c a false;
          match r with
          | inl _ => rename_path order d (exchange_temp a tag) c false
          | inr e => _ ← rename_path order d (exchange_temp a tag) a false; mret (inr e)
          end))).
  fuse_steps.
Qed.

Lemma safe_enumerate_loop n parent f first entries : confined parent → (∀ q, first = Some q → confined q) →
  safe_proc (enumerate_loop n d parent f first entries).
Proof.
  intros Hp. revert first entries. induction n as [|n IH]; intros first entries Hf; [done|].
  cbn [enumerate_loop]. apply sproc_bind; [by apply safe_submit_query_dir|].
  intros [[e|]|e]; [|auto with fuse..]. apply sproc_bind; [auto with fuse|]. intros _. by apply IH.
Qed.
Lemma safe_enumerate_directory parent f : confined parent → safe_proc (enumerate_directory fuel d parent f).
Proof.
  intros Hp. apply safe_enumerate_loop; [done|]. intros q [= <-].
  assert (component_ok (lit "*")) by (split; [done|split; [done|split_and!; vm_compute; set_solver]]).
  case_bool_decide; [|by apply (confined_snoc parent (lit "*"))].
  exists [lit "*"]. split; [done|]. split; [by apply Forall_singleton|done].
Qed.
#[local] Hint Resolve safe_delete_path safe_rename_path safe_exchange_paths safe_enumerate_directory
  join_win_confined join_win_not_ROOT parent_of_confined confined_ROOT : fuse.

Lemma safe_refresh_dir parent : confined parent → safe_proc (refresh_dir fuel d parent).
Proof. intros Hp. unfold refresh_dir. fuse_steps. Qed.
#[local] Hint Resolve safe_refresh_dir : fuse.

Lemma safe_lookup_child parent name : confined parent → safe_proc (lookup_child fuel d parent name).
Proof.
  intros Hp. unfold lookup_child. destruct (join_win parent name) eqn:E; [|auto with fuse].
  pose proof (join_win_confined _ _ _ Hp E). fuse_steps.
Qed.
Lemma safe_with_path ino k : (∀ p, confined p → safe_proc (k p)) → safe_proc (with_path d ino k).
Proof.
  intros H. eapply goodp_bind with (Q := λ o, ∀ p, o = Some p → confined p).
  - apply path_for_good; [done|]. by intros p Hp q [= <-].
  - intros [p|] Hp; [by apply H, Hp|apply sproc_ret].
Qed.
Lemma safe_with_name name k : (∀ n, safe_proc (k n)) → safe_proc (with_name name k).
Proof. intros H. unfold with_name. destruct (from_utf8 name); [done|apply sproc_ret]. Qed.
Lemma safe_with_child parent name k : (∀ p, confined p → p ≠ ROOT → safe_proc (k p)) →
  safe_proc (with_child d parent name k).
Proof.
  intros H. apply safe_with_path. intros p Hp. apply safe_with_name. intros n.
  destruct (join_win p n) eqn:E; [|apply sproc_ret]. apply H; eauto with fuse.
Qed.
Lemma safe_reply_unit m : safe_proc m → safe_proc (reply_unit m).
Proof. intros H. by apply sproc_bind. Qed.
Lemma safe_register_open c : safe_proc (register_open d c).
Proof. unfold register_open. fuse_steps. Qed.
Lemma safe_get_open fh : safe_proc (get_open fh).
Proof. apply safe_gets. Qed.
#[local] Hint Resolve safe_lookup_child safe_reply_unit safe_register_open safe_get_open : fuse.

Lemma safe_name_children p l acc : confined p → safe_proc (name_children d p l acc).
Proof.
  intros Hp. revert acc. induction l as [|e l IH]; intros acc; [apply sproc_ret|]. cbn [name_children].
  destruct (join_win p (entry_name e)) eqn:E; [|done]. apply sproc_bind; [|intros; apply IH].
  apply safe_inode_for. eauto with fuse.
Qed.
Lemma safe_readdir ino fh offset : safe_proc (readdir fits fuel d ino fh offset).
Proof.
  apply safe_with_path. intros p Hp. pose proof (safe_name_children p) as Hc.
  pose proof (safe_inode_for d (parent_of p) (parent_of_confined p Hp)).
  unfold readdir. fuse_steps.
Qed.

Lemma safe_release fh : safe_proc (release fh).
Proof.
  unfold release. apply sproc_bind.
  - by apply (goodp_handles (λ b, ({| opens := delete fh (opens (handles b)); next_fh := next_fh (handles b) |}, _))).
  - fuse_steps.
Qed.
Lemma safe_fuse_open ino acc flags : safe_proc (fuse_open d ino acc flags).
Proof. apply safe_with_path. fuse_steps. Qed.
Lemma safe_opendir ino : safe_proc (opendir d ino).
Proof. apply safe_with_path. fuse_steps. Qed.
Lemma safe_lookup parent name : safe_proc (lookup fuel d parent name).
Proof. apply safe_with_path. intros p Hp. apply safe_with_name. fuse_steps. Qed.
Lemma safe_getattr ino : safe_proc (getattr fuel d ino).
Proof. apply safe_with_path. fuse_steps. Qed.
Lemma safe_path_for dev ino : safe_proc (path_for dev ino).
Proof. apply safe_gets. Qed.
Lemma safe_write ino fh offset data : safe_proc (write ino fh offset data).
Proof. pose proof safe_path_for. unfold write. fuse_steps. Qed.
Lemma safe_read fh offset size : safe_proc (read fh offset size).
Proof. unfold read. fuse_steps. Qed.
Lemma safe_create parent name mode umask flags : safe_proc (create d parent name mode umask flags).
Proof. apply safe_with_child. fuse_steps. Qed.
Lemma safe_mkdir parent name mode umask : safe_proc (mkdir d parent name mode umask).
Proof. apply safe_with_child. fuse_steps. Qed.
Lemma safe_unlink parent name : safe_proc (unlink d parent name).
Proof. apply safe_with_child. fuse_steps. Qed.
Lemma safe_ensure_dir_empty p : confined p → safe_proc (ensure_dir_empty fuel d p).
Proof. intros Hp. unfold ensure_dir_empty. fuse_steps. Qed.
#[local] Hint Resolve safe_ensure_dir_empty : fuse.
Lemma safe_rmdir parent name : safe_proc (rmdir fuel d parent name).
Proof. apply safe_with_child. fuse_steps. Qed.
Lemma safe_path_exists p : confined p → safe_proc (path_exists d p).
Proof. intros Hp. unfold path_exists. fuse_steps. Qed.
#[local] Hint Resolve safe_path_exists : fuse.
Lemma safe_rename parent name newparent newname flags :
  safe_proc (rename order d parent name newparent newname flags).
Proof.
  apply safe_with_path. intros p Hp. apply safe_with_path. intros q Hq.
  destruct (from_utf8 name) as [n|]; [|apply sproc_ret]. destruct (from_utf8 newname) as [m|]; [|apply sproc_ret].
  destruct (join_win p n) as [old|] eqn:Eo; [|apply sproc_ret].
  destruct (join_win q m) as [new|] eqn:En; [|apply sproc_ret].
  pose proof (join_win_confined _ _ _ Hp Eo). pose proof (join_win_not_ROOT _ _ _ Eo).
  pose proof (join_win_confined _ _ _ Hq En). pose proof (join_win_not_ROOT _ _ _ En).
  fuse_steps; apply safe_reply_unit; auto with fuse.
Qed.

Lemma safe_set_info_or_close dev f close class buffer k :
  class ≠ FILE_RENAME_INFORMATION → safe_proc k → safe_proc (set_info_or_close dev f close class buffer k).
Proof.
  intros Hc Hk. unfold set_info_or_close. apply sproc_bind; [by apply safe_submit_set_information|]. fuse_steps.
Qed.
Lemma safe_opt_map {A B} (f : A → proc B) o : (∀ a, safe_proc (f a)) → safe_proc (opt_map f o).
Proof. intros Hf. destruct o as [a|]; [|apply sproc_ret]. by apply sproc_bind. Qed.
Lemma safe_time_or_now t : safe_proc (time_or_now_to_systemtime t).
Proof. destruct t; [apply safe_now|apply sproc_ret]. Qed.
Lemma safe_time_or_now_filetime t : safe_proc (time_or_now_to_filetime t).
Proof. apply sproc_bind; [apply safe_time_or_now|]. intros. apply safe_lift. Qed.

Lemma safe_setattr_size p size dev f close k : safe_proc k → safe_proc (setattr_size d p size dev f close k).
Proof.
  intros Hk. unfold setattr_size. destruct size; [|done]. apply safe_set_info_or_close; [done|]. fuse_steps.
Qed.
Lemma safe_setattr_times p a m c cr ch dev f close k :
  safe_proc k → safe_proc (setattr_times d p a m c cr ch dev f close k).
Proof.
  intros Hk. pose proof safe_time_or_now. pose proof safe_time_or_now_filetime.
  unfold setattr_times.
  do 4 (apply sproc_bind; [apply sproc_bind; [apply safe_opt_map; auto with fuse|auto with fuse]|intros ?]).
  apply safe_set_info_or_close; [done|].
  do 2 (apply sproc_bind; [by apply safe_opt_map|intros ?]). apply sproc_bind; [apply safe_modify_meta|done].
Qed.
Lemma safe_setattr ino mode uid gid size a m c fh cr ch :
  safe_proc (setattr d ino mode uid gid size a m c fh cr ch).
Proof.
  apply safe_with_path. intros p Hp. apply sproc_bind; [destruct (_ || _ : bool); apply safe_modify_meta || apply sproc_ret|].
  intros _. destruct (_ && _ : bool); [fuse_steps|].
  apply sproc_bind; [destruct fh; auto with fuse|]. intros opened.
  apply sproc_bind; [destruct opened; fuse_steps|]. intros [[[dev f] close]|e]; [|apply sproc_ret].
  apply safe_setattr_size. assert (safe_proc (
    _ ← (if close : bool then _ ← submit_close dev f; mret tt else mret tt);
    a ← attr_for d p; mret (reply_attr a ENOENT))) as Hfin by fuse_steps.
  destruct (_ || _ : bool); [by apply safe_setattr_times|done].
Qed.

(** Every request of the kernel is served by a thread of the logic. *)
Lemma fuse_safe op : safe_proc (fuse order fits fuel d op).
Proof.
  destruct op; [apply safe_lookup|apply safe_getattr|apply safe_opendir|apply safe_readdir|apply safe_release
    |apply safe_fuse_open|apply safe_read|apply safe_write|apply safe_create|apply safe_mkdir
    |apply safe_unlink|apply safe_rmdir|apply safe_rename|apply safe_setattr].
Qed.
End operations.

(** ** The threads together *)

Definition thread_ok (b : Bridge) (p : proc freply) (T : gset Z) (K : Bridge → Prop) : Prop :=
  good p T K (λ _, True) ∧ stable T K ∧ K b ∧ owned T b.
Definition system_ok (s : system) : Prop :=
  inv s.1 ∧ ∃ (T : Z → gset Z) (K : Z → Bridge → Prop),
    (∀ i p, s.2 !! i = Some p → thread_ok s.1 p (T i) (K i))
    ∧ (∀ i j p q, s.2 !! i = Some p → s.2 !! j = Some q → i ≠ j → T i ## T j).

Lemma thread_ok_rely b b' p T K : inv b → rely T b b' → thread_ok b p T K → thread_ok b' p T K.
Proof.
  intros Hb Hr (Hg & Hst & HK & Hown). split; [done|split; [done|split; [by eapply Hst|]]].
  intros t Ht. specialize (Hown t Ht). destruct Hr as [(_ & ? & _) _]. lia.
Qed.
Lemma guarantee_rely T T' b b' : guarantee T b b' → T ## T' → owned T' b → rely T' b b'.
Proof.
  intros [Hm Hg] Hd Hown. split; [done|]. intros t Ht. left. apply Hg; [set_solver|by apply Hown].
Qed.

(** What the connection does to a bridge, the threads can rely on. *)
Lemma cstep_rely b b' T : inv b → cstep b b' → rely T b b'.
Proof.
  intros (Ht & Hc & Hn & Hfr) Hs. destruct Hs as [|tag a| |dev].
  - split; [|by left]. split; [split; [done|split; [constructor|done]]|]. split; [cbn; lia|by apply tables_step_refl].
  - unfold deliver. destruct (b_pending (wire b) !! tag) as [p|] eqn:Ep.
    2: { split; [|by left]. split; [done|split; [lia|by apply tables_step_refl]]. }
    assert (tag < next_tag (wire b)) as Hlt.
    { destruct (decide (tag < next_tag (wire b))); [done|]. destruct (Hfr tag ltac:(lia)) as [E _]. congruence. }
    split.
    + split; [split; [done|split; [done|split; [done|]]]|split; [cbn; lia|by apply tables_step_refl]].
      intros t Htl. cbn in Htl |- *. destruct (Hfr t Htl) as [Et Er]. rewrite lookup_delete_None. split; [by right|].
      destruct (decide (answer_kind a = p)); [rewrite lookup_insert_ne by lia|]; done.
    + intros t _. cbn. destruct (decide (t = tag)) as [->|Hne].
      * right. split; [apply lookup_delete_eq|].
        destruct (decide (answer_kind a = p)) as [<-|]; [|by left]. right. exists a.
        split; [done|]. apply lookup_insert_eq.
      * left. split; cbn; [by rewrite lookup_delete_ne|]. destruct (decide (answer_kind a = p)); [|done].
        by rewrite lookup_insert_ne.
  - split.
    + split; [split; [done|split; [constructor|split; [done|]]]|split; [cbn; lia|by apply tables_step_refl]].
      intros t Htl. cbn. split; [done|]. by apply Hfr.
    + intros t _. right. split; [apply lookup_empty|by left].
  - unfold ensure_root. destruct (path_to_ino (tables b) !! (dev, ROOT)) as [i|] eqn:E.
    { split; [|by left]. split; [done|split; [lia|by apply tables_step_refl]]. }
    assert (tables_step (tables b) (tables (ensure_root dev b))) as Hstep.
    { unfold ensure_root. rewrite E. apply (add_path_step dev ROOT ROOT_INO (next_ino (tables b))); auto using confined_ROOT. }
    unfold ensure_root in Hstep. rewrite E in Hstep.
    split; [|by left]. split; [split; [apply Hstep|done]|split; [cbn; lia|done]].
Qed.

Lemma pstep_ok b (p : proc freply) b' p' T K : inv b → bounded b → thread_ok b p T K → pstep b p b' p' →
  ∃ T' K', guarantee T b b' ∧ thread_ok b' p' T' K' ∧ ∀ t, t ∈ T' → t ∈ T ∨ next_tag (wire b) ≤ t.
Proof.
  intros Hb Hbd (Hg & Hst & HK & Hown) Hs. destruct Hs as [B f k|t k _|tag k o b' Hr].
  - cbn in Hg. specialize (Hg b Hb Hbd HK Hown). destruct (f b) as [b' x].
    destruct Hg as (T' & K' & ? & ? & ? & HT & ?). exists T', K'. split; [done|]. split; [|intros t Ht; by apply HT].
    split; [done|split; [done|split; [done|]]]. intros t Ht. by apply HT.
  - exists T, K. split; [split; [|done]|]. { split; [done|split; [lia|apply tables_step_refl, Hb]]. }
    split; [|by left]. split; [apply Hg|done].
  - destruct Hg as [Ht Hg]. exists ∅, (λ _, True). split; [|split; [|set_solver]].
    + pose proof Hb as (_ & Hc & _). destruct Hr.
      * apply wire_guarantee; try done. intros t' Hn. split; [done|]. apply lookup_delete_ne. set_solver.
      * split; [|done]. split; [done|split; [lia|apply tables_step_refl, Hb]].
      * apply wire_guarantee; try done. intros t' Hn. split; [|done]. apply lookup_delete_ne. set_solver.
    + split; [by eapply Hg|split; [apply stable_True|split; [done|apply owned_empty]]].
Qed.

Section system.
Context (order : gmap (Z * rstring) Z → list ((Z * rstring) * Z)) (Horder : ∀ m, order m ≡ₚ map_to_list m)
  (fits : list dirent → dirent → bool).

Lemma sstep_ok s s' : system_ok s → bounded s.1 → sstep order fits s s' → system_ok s'.
Proof.
  intros (Hb & T & K & Hth & Hdis) Hbd Hs.
  unfold system_ok.
  destruct Hs as [b pool i fuel d op Hi|b pool i p b' p' Hi Hp|b pool i r Hi|b pool b' Hc]; cbn [fst snd] in *.
  - split; [done|]. exists (λ j, if decide (j = i) then ∅ else T j), (λ j, if decide (j = i) then λ _, True else K j).
    split.
    + intros j p [[<- <-]|[Hne Hj]]%lookup_insert_Some.
      * rewrite !decide_True by done. split; [by apply fuse_safe|]. split; [apply stable_True|].
        split; [done|apply owned_empty].
      * rewrite !decide_False by done. by apply Hth.
    + intros j1 j2 p q Hj1 Hj2 Hne. destruct (decide (j1 = i)), (decide (j2 = i)); try set_solver.
      rewrite lookup_insert_ne in Hj1, Hj2 by done. by eapply Hdis.
  - destruct (pstep_ok b p b' p' (T i) (K i) Hb Hbd (Hth i p Hi) Hp) as (T' & K' & Hg & Hok & HT').
    split; [apply Hg|].
    exists (λ j, if decide (j = i) then T' else T j), (λ j, if decide (j = i) then K' else K j). split.
    + intros j q [[<- <-]|[Hne Hj]]%lookup_insert_Some; [by rewrite !decide_True by done|].
      rewrite !decide_False by done. eapply thread_ok_rely; [done| |by apply Hth].
      apply (guarantee_rely (T i)); [done|by eapply Hdis|apply (Hth j q Hj)].
    + assert (∀ j q, j ≠ i → pool !! j = Some q → T' ## T j) as Hd.
      { intros j q Hne Hj t Ht Htj. destruct (HT' t Ht) as [Hti|Hge].
        - by apply (Hdis i j p q Hi Hj (not_eq_sym Hne) t).
        - destruct (Hth j q Hj) as (_ & _ & _ & Hown). specialize (Hown t Htj). lia. }
      intros j1 j2 q1 q2 Hj1 Hj2 Hne.
      apply lookup_insert_Some in Hj1 as [[<- _]|[H1 Hj1]], Hj2 as [[<- _]|[H2 Hj2]]; [done|..].
      * rewrite decide_True, decide_False by done. by apply (Hd j2 q2).
      * rewrite decide_False, decide_True by done. symmetry. by apply (Hd j1 q1).
      * rewrite !decide_False by done. by apply (Hdis j1 j2 q1 q2).
  - split; [done|]. exists T, K. split.
    + intros j p [_ Hj]%lookup_delete_Some. by apply Hth.
    + intros j1 j2 p q [_ Hj1]%lookup_delete_Some [_ Hj2]%lookup_delete_Some Hne. by apply (Hdis j1 j2 p q).
  - split; [apply (cstep_rely b b' ∅ Hb Hc)|]. exists T, K. split; [|done].
    intros j p Hj. apply thread_ok_rely with b; [done|by apply cstep_rely|by apply Hth].
Qed.

Lemma reachable_ok uid gid s : reachable order fits uid gid s → system_ok s.
Proof.
  induction 1 as [|s s' _ IH Hbd Hs]; [|by eapply sstep_ok].
  unfold system_ok. cbn [fst snd]. split; [apply Bridge_new_inv|]. exists (λ _, ∅), (λ _ _, True). split; intros * H; by rewrite lookup_empty in H.
Qed.

(** C5. Whatever the threads that serve the file system do, interleaved with the connection that
    sends their commands, passes answers on and goes away: the inode that a path has leads back to the
    path, so no two paths share an inode (an inode whose file was replaced by a rename also leads to
    the path, see [FuseFlow.replaced_inode_keeps_path]); every path in the tables and in every
    request queued for the client is below the root of the redirected drive, with no component that is or contains a parent
    reference, a separator, a colon or a NUL; and no two threads wait for the answer to one request. *)
Theorem fuse_mount_safe uid gid b pool : reachable order fits uid gid (b, pool) →
  let t := tables b in
  (∀ d p i, path_to_ino t !! (d, p) = Some i → ino_to_path t !! (d, i) = Some p)
  ∧ (∀ d p q i, path_to_ino t !! (d, p) = Some i → path_to_ino t !! (d, q) = Some i → p = q)
  ∧ (∀ d i p, ino_to_path t !! (d, i) = Some p → confined p)
  ∧ Forall command_ok (outbound (wire b))
  ∧ (∀ i j tag k k', pool !! i = Some (Recv tag k) → pool !! j = Some (Recv tag k') → i = j).
Proof.
  intros ((Ht & Hc & _) & T & K & Hth & Hdis)%reachable_ok t. cbn [fst snd] in *. split_and!.
  - apply Ht.
  - intros d p q i. by apply ok_injective.
  - intros d i p Hp. by eapply ok_path.
  - done.
  - intros i j tag k k' Hi Hj. destruct (decide (i = j)) as [|Hne]; [done|]. exfalso.
    destruct (Hth i _ Hi) as ([Hti _] & _), (Hth j _ Hj) as ([Htj _] & _).
    by apply (Hdis i j _ _ Hi Hj Hne tag).
Qed.
End system.
Lemma fuse_mount_safe_witness :
  let b := ensure_root 7 (Bridge_new 1000 1000) in
  let pool : gmap Z (proc freply) := <[1 := fuse map_to_list (λ _ _, true) 5 7 (OpGetattr 1)]> ∅ in
  let t := tables b in
  (∀ d p i, path_to_ino t !! (d, p) = Some i → ino_to_path t !! (d, i) = Some p)
  ∧ (∀ d p q i, path_to_ino t !! (d, p) = Some i → path_to_ino t !! (d, q) = Some i → p = q)
  ∧ (∀ d i p, ino_to_path t !! (d, i) = Some p → confined p)
  ∧ Forall command_ok (outbound (wire b))
  ∧ (∀ i j tag k k', pool !! i = Some (Recv tag k) → pool !! j = Some (Recv tag k') → i = j).
Proof.
  intros b pool t.
  apply (fuse_mount_safe map_to_list (λ m, reflexivity (map_to_list m)) (λ _ _, true) 1000 1000 b pool).
  apply (reachable_step _ _ _ _ (b, ∅) (b, pool)); [|split; vm_compute; reflexivity|by apply sstep_start].
  apply (reachable_step _ _ _ _ (Bridge_new 1000 1000, ∅) (b, ∅)); [apply reachable_init|split; vm_compute; reflexivity|].
  apply (sstep_connection _ _ (Bridge_new 1000 1000) ∅ b), (cstep_root (Bridge_new 1000 1000) 7).
Defined.
