(* ===== verification/FuseMount.v ===== *)
(** [kmsrdp/src/rdpdr_fuse/mount.rs]: the registry of mounts, shared by the connections that redirect a
    drive of the same name.  A connection is known by its number, and so is its bridge. *)
From S2P Require Import Prelude Cursor Utf RdpdrPdu Rdpdr FusePath FuseBridge FuseFs FuseThreads.

Record MountMember := { mm_bridge : Z; mm_device_id : Z }.
Record ActiveBackend := { ab_bridge : Z; ab_device_id : Z }.
(** The mounted session itself is the library's. *)
Record SharedMount := {
  mount_point : rstring; owner_conn : Z; active : ActiveBackend; members : gmap Z MountMember }.
Record MountRegistry := { next_conn : Z; slots : gmap rstring SharedMount }.
Definition MountRegistry_new : MountRegistry := {| next_conn := 1; slots := ∅ |}.

Definition set_slots (s : gmap rstring SharedMount) (r : MountRegistry) : MountRegistry :=
  {| next_conn := next_conn r; slots := s |}.
Definition alloc_conn_id (r : MountRegistry) : MountRegistry * Z :=
  ({| next_conn := as_u64 (next_conn r + 1); slots := slots r |}, next_conn r).

Record JoinRequest := { dos_name : rstring; conn_id : Z; device_id : Z; jr_mount_point : rstring }.
Definition member_of (req : JoinRequest) : MountMember :=
  {| mm_bridge := conn_id req; mm_device_id := device_id req |}.
Definition add_member (req : JoinRequest) (s : SharedMount) : SharedMount :=
  {| mount_point := mount_point s; owner_conn := owner_conn s; active := active s;
     members := <[conn_id req := member_of req]> (members s) |}.

(** The sections of [join] under the lock: the first finds a mount or does not; after the file system
    has been mounted, the second finds that another connection was faster or enters the mount. *)
Definition join_existing (req : JoinRequest) (r : MountRegistry) : option MountRegistry :=
  slot ← slots r !! dos_name req;
  Some (set_slots (<[dos_name req := add_member req slot]> (slots r)) r).
Definition join_mounted (req : JoinRequest) (r : MountRegistry) : MountRegistry :=
  match join_existing req r with
  | Some r => r
  | None =>
    set_slots (<[dos_name req :=
      {| mount_point := jr_mount_point req; owner_conn := conn_id req;
         active := {| ab_bridge := conn_id req; ab_device_id := device_id req |};
         members := {[conn_id req := member_of req]} |}]> (slots r)) r
  end.
(** [mounted]: the directory could be prepared and the file system mounted. *)
Definition join (mounted : bool) (req : JoinRequest) (r : MountRegistry) : MountRegistry * bool :=
  match join_existing req r with
  | Some r => (r, true)
  | None => if mounted then (join_mounted req r, true) else (r, false)
  end.

Definition clear_opens (b : Bridge) : Bridge :=
  set_handles {| opens := ∅; next_fh := next_fh (handles b) |} b.

Section registry.
(** The key an iterator over the members of a mount gives first. *)
Context (first_key : gmap Z MountMember → option Z).

(** [leave], with the bridges of all connections. *)
Definition leave (name : rstring) (conn : Z) (r : MountRegistry) (bridges : gmap Z Bridge)
  : MountRegistry * gmap Z Bridge :=
  match slots r !! name with
  | None => (r, bridges)
  | Some slot =>
    let left := delete conn (members slot) in
    if decide (left = ∅) then (set_slots (delete name (slots r)) r, bridges)
    else
      let keep := {| mount_point := mount_point slot; owner_conn := owner_conn slot;
                     active := active slot; members := left |} in
      if owner_conn slot =? conn then
        match first_key left with
        | None => (set_slots (<[name := keep]> (slots r)) r, bridges)
        | Some new_owner =>
          match left !! new_owner with
          | None => (set_slots (<[name := keep]> (slots r)) r, bridges)
          | Some member =>
            let bridges := alter (ensure_root (mm_device_id member)) (mm_bridge member) bridges in
            let bridges := alter (λ b, abort_pending (clear_opens b)) (ab_bridge (active slot)) bridges in
            (set_slots (<[name :=
               {| mount_point := mount_point slot; owner_conn := new_owner;
                  active := {| ab_bridge := mm_bridge member; ab_device_id := mm_device_id member |};
                  members := left |}]> (slots r)) r, bridges)
          end
        end
      else (set_slots (<[name := keep]> (slots r)) r, bridges)
  end.

(** The bridges of every member, and all mounts. *)
Definition unmount_all (r : MountRegistry) (bridges : gmap Z Bridge) : MountRegistry * gmap Z Bridge :=
  (set_slots ∅ r,
   map_fold (λ _ slot bs, map_fold (λ _ m bs, alter abort_pending (mm_bridge m) bs) bs (members slot))
     bridges (slots r)).

(** ** The connections *)

Record world := {
  registry : MountRegistry; bridges : gmap Z Bridge; joined_by : gmap Z (gmap Z rstring) }.
Definition world_new : world := {| registry := MountRegistry_new; bridges := ∅; joined_by := ∅ |}.

(** [build_drive_consumer]. *)
Definition connect (uid gid : Z) (w : world) : world * Z :=
  let '(r, conn) := alloc_conn_id (registry w) in
  ({| registry := r; bridges := <[conn := Bridge_new uid gid]> (bridges w);
      joined_by := <[conn := ∅]> (joined_by w) |}, conn).

(** The consumer of a connection announces a device. *)
Definition device_ready (mounted : bool) (point : rstring → rstring) (conn : Z) (device device_type : Z)
    (name : rstring) (w : world) : world :=
  match bridges w !! conn, joined_by w !! conn with
  | Some b, Some j =>
    let join_it r device name :=
      join mounted {| dos_name := name; conn_id := conn; device_id := device; jr_mount_point := point name |} r in
    let c := (FuseDriveConsumer_on_device_ready join_it
                (Build_FuseDriveConsumer b (registry w) j true) device device_type name).1 in
    {| registry := fc_registry c; bridges := <[conn := fc_bridge c]> (bridges w);
       joined_by := <[conn := joined c]> (joined_by w) |}
  | _, _ => w
  end.

(** The order in which the names a connection joined are drained. *)
Context (drain : gmap Z rstring → list rstring).

(** [Drop] of the consumer. *)
Definition disconnect (conn : Z) (w : world) : world :=
  match joined_by w !! conn with
  | None => w
  | Some j =>
    let '(r, bs) := foldl (λ '(r, bs) name, leave name conn r bs)
                      (registry w, alter abort_pending conn (bridges w)) (drain j) in
    {| registry := r; bridges := bs; joined_by := delete conn (joined_by w) |}
  end.
End registry.

(** A join that mounts is the same as one that starts once the file system is mounted: what other
    connections do in between does not show. *)
Lemma join_late req r : join true req r = (join_mounted req r, true).
Proof. unfold join, join_mounted. by destruct (join_existing req r). Qed.

(** ** The mounts and the connections that hold them *)

Section runs.
Context (first_key : gmap Z MountMember → option Z) (drain : gmap Z rstring → list rstring)
  (Hfirst : ∀ m, m ≠ ∅ → ∃ k, first_key m = Some k ∧ is_Some (m !! k))
  (Hdrain : ∀ j name, name ∈ drain j ↔ ∃ d, j !! d = Some name).

(** What connections do; a client does not give the number of a drive it has announced to another. *)
Inductive wstep (w : world) : world → Prop :=
  | wstep_connect uid gid : next_conn (registry w) < 2 ^ 64 - 1 → wstep w (connect uid gid w).1
  | wstep_device mounted point conn device device_type name :
      (∀ j, joined_by w !! conn = Some j → j !! device = None) →
      wstep w (device_ready mounted point conn device device_type name w)
  | wstep_bridge conn b : wstep w {| registry := registry w; bridges := <[conn := b]> (bridges w);
                                     joined_by := joined_by w |}
  | wstep_disconnect conn : wstep w (disconnect first_key drain conn w)
  | wstep_unmount_all : wstep w
      {| registry := (unmount_all (registry w) (bridges w)).1;
         bridges := (unmount_all (registry w) (bridges w)).2; joined_by := joined_by w |}.
Definition wsteps : world → world → Prop := rtc wstep.

Definition slot_ok (s : SharedMount) : Prop :=
  is_Some (members s !! owner_conn s) ∧ ab_bridge (active s) = owner_conn s
  ∧ ∀ c m, members s !! c = Some m → mm_bridge m = c.
Definition registry_ok (r : MountRegistry) : Prop := ∀ name s, slots r !! name = Some s → slot_ok s.
(** Who holds a mount has it among the names it leaves when it goes. *)
Definition held_by (r : MountRegistry) (j : gmap Z (gmap Z rstring)) (but : list rstring) (gone : Z) : Prop :=
  ∀ name s c m, slots r !! name = Some s → members s !! c = Some m →
    if decide (c = gone) then name ∈ but else ∃ jc d, j !! c = Some jc ∧ jc !! d = Some name.

Lemma join_ok mounted req r : registry_ok r → registry_ok (join mounted req r).1.
Proof.
  intros Hr. unfold join, join_mounted, join_existing.
  destruct (slots r !! dos_name req) as [s|] eqn:E; cbn [mbind option_bind].
  - unfold registry_ok; cbn [fst slots set_slots].
    intros name s' [[<- <-]|[_ Hs]]%lookup_insert_Some; [|by apply (Hr name)].
    destruct (Hr _ _ E) as ([m Hm] & Ha & Hb). split; [|split; [done|]]; cbn.
    + destruct (decide (owner_conn s = conn_id req)) as [->|]; [by rewrite lookup_insert_eq|].
      by rewrite lookup_insert_ne; [exists m|].
    + intros c m' [[<- <-]|[_ Hc]]%lookup_insert_Some; [done|by apply Hb].
  - destruct mounted; [|done]. unfold registry_ok; cbn [fst slots set_slots]. intros name s' [[<- <-]|[_ Hs]]%lookup_insert_Some; [|by apply (Hr name)].
    split; [|split; [done|]]; cbn; [by rewrite lookup_singleton_eq|].
    intros c m [<- <-]%lookup_singleton_Some. done.
Qed.
Lemma join_members mounted req r name s c m :
  slots (join mounted req r).1 !! name = Some s → members s !! c = Some m →
  (c = conn_id req ∧ name = dos_name req ∧ (join mounted req r).2 = true)
  ∨ ∃ s0 m0, slots r !! name = Some s0 ∧ members s0 !! c = Some m0.
Proof.
  unfold join, join_mounted, join_existing.
  destruct (slots r !! dos_name req) as [s0|] eqn:E; cbn [mbind option_bind fst snd slots set_slots].
  - intros [[<- <-]|[_ Hs]]%lookup_insert_Some Hm; [|by right; exists s, m].
    cbn in Hm. apply lookup_insert_Some in Hm as [[<- <-]|[_ Hm]]; [by left|right; by exists s0, m].
  - destruct mounted; [|by intros; right; exists s, m]. cbn [fst snd slots set_slots].
    intros [[<- <-]|[_ Hs]]%lookup_insert_Some Hm; [|by right; exists s, m].
    cbn in Hm. apply lookup_singleton_Some in Hm as [<- <-]. by left.
Qed.

Lemma leave_ok name conn r bs : registry_ok r → registry_ok (leave first_key name conn r bs).1.
Proof.
  intros Hr. unfold leave. destruct (slots r !! name) as [s|] eqn:E; [|done].
  destruct (Hr _ _ E) as ([m Hm] & Ha & Hb).
  destruct (decide (delete conn (members s) = ∅)) as [Hempty|Hne].
  { unfold registry_ok; cbn [fst slots set_slots]. intros name' s' [_ Hs]%lookup_delete_Some. by apply (Hr name'). }
  destruct (Z.eqb_spec (owner_conn s) conn) as [<-|Hown].
  - destruct (Hfirst _ Hne) as (k & -> & [mk Hk]). rewrite Hk.
    unfold registry_ok; cbn [fst slots set_slots]. intros name' s' [[<- <-]|[_ Hs]]%lookup_insert_Some; [|by apply (Hr name')].
    split; [by exists mk|split; cbn].
    + apply lookup_delete_Some in Hk as [_ Hk]. by apply Hb.
    + intros c m' [_ Hc]%lookup_delete_Some. by apply Hb.
  - unfold registry_ok; cbn [fst slots set_slots].
    intros name' s' [[<- <-]|[_ Hs]]%lookup_insert_Some; [|by apply (Hr name')].
    split; [|split; [done|]]; cbn; [rewrite lookup_delete_ne by done; by exists m|].
    intros c m' [_ Hc]%lookup_delete_Some. by apply Hb.
Qed.
Lemma leave_members name conn r bs name' s c m :
  slots (leave first_key name conn r bs).1 !! name' = Some s → members s !! c = Some m →
  (name' ≠ name ∨ c ≠ conn) ∧ ∃ s0, slots r !! name' = Some s0 ∧ members s0 !! c = Some m.
Proof.
  unfold leave. destruct (slots r !! name) as [s0|] eqn:E.
  2: { cbn [fst]. intros Hs Hm. split; [left; intros ->; congruence|by exists s]. }
  assert (∀ k, members k = delete conn (members s0) →
    <[name := k]> (slots r) !! name' = Some s → members s !! c = Some m →
    (name' ≠ name ∨ c ≠ conn) ∧ ∃ s1, slots r !! name' = Some s1 ∧ members s1 !! c = Some m) as Hins.
  { intros k Hk [[<- <-]|[Hne Hs]]%lookup_insert_Some Hm; [|by split; [left|exists s]].
    rewrite Hk in Hm. apply lookup_delete_Some in Hm as [? Hm]. split; [by right|by exists s0]. }
  destruct (decide (delete conn (members s0) = ∅)).
  { cbn [fst slots set_slots]. intros [Hne Hs]%lookup_delete_Some Hm. split; [by left|by exists s]. }
  destruct (owner_conn s0 =? conn); [|by apply Hins].
  destruct (first_key (delete conn (members s0))) as [k|]; [|by apply Hins].
  destruct (delete conn (members s0) !! k); by apply Hins.
Qed.

Lemma leave_all_ok conn names : ∀ r bs, registry_ok r →
  registry_ok (foldl (λ '(r, bs) name, leave first_key name conn r bs) (r, bs) names).1.
Proof.
  induction names as [|name names IH]; intros r bs Hr; [done|]. cbn [foldl].
  destruct (leave first_key name conn r bs) as [r' bs'] eqn:E. apply IH.
  change r' with (r', bs').1. rewrite <-E. by apply leave_ok.
Qed.
Lemma leave_all_members conn names : ∀ r bs name s c m,
  slots (foldl (λ '(r, bs) name, leave first_key name conn r bs) (r, bs) names).1 !! name = Some s →
  members s !! c = Some m →
  (name ∉ names ∨ c ≠ conn) ∧ ∃ s0, slots r !! name = Some s0 ∧ members s0 !! c = Some m.
Proof.
  induction names as [|name0 names IH]; intros r bs name s c m Hs Hm.
  { split; [left; set_solver|by exists s]. }
  cbn [foldl] in Hs. destruct (leave first_key name0 conn r bs) as [r' bs'] eqn:E.
  destruct (IH r' bs' name s c m Hs Hm) as (Hn & s0 & Hs0 & Hm0).
  change r' with (r', bs').1 in Hs0. rewrite <-E in Hs0.
  destruct (leave_members name0 conn r bs name s0 c m Hs0 Hm0) as (Hn0 & s1 & Hs1 & Hm1).
  split; [|by exists s1]. destruct Hn as [Hn|]; [|by right]. destruct Hn0 as [Hn0|]; [|by right].
  left. by apply not_elem_of_cons.
Qed.

Definition world_ok (w : world) : Prop :=
  registry_ok (registry w)
  ∧ ∀ name s c m, slots (registry w) !! name = Some s → members s !! c = Some m →
      ∃ j d, joined_by w !! c = Some j ∧ j !! d = Some name.
(** Numbers of connections are not given twice. *)
Definition numbered (w : world) : Prop :=
  0 ≤ next_conn (registry w) ∧ ∀ c, is_Some (joined_by w !! c) → c < next_conn (registry w).

Lemma device_ready_ok mounted point conn device device_type name w :
  (∀ j, joined_by w !! conn = Some j → j !! device = None) → world_ok w →
  world_ok (device_ready mounted point conn device device_type name w).
Proof.
  intros Hdev [Hr Hj]. unfold device_ready.
  destruct (bridges w !! conn) as [b|]; [|done]. destruct (joined_by w !! conn) as [j|] eqn:Ej; [|done].
  specialize (Hdev j eq_refl). unfold FuseDriveConsumer_on_device_ready. cbn [have_session joined fc_registry fc_bridge].
  assert (world_ok {| registry := registry w; bridges := <[conn := b]> (bridges w);
                      joined_by := <[conn := j]> (joined_by w) |}) as Hsame.
  { split; [done|]. cbn. intros n s c m Hs Hm. rewrite insert_id by done. by eapply Hj. }
  destruct (negb (device_type =? RDPDR_DTYP_FILESYSTEM) || negb true); [done|].
  case_bool_decide; [done|]. set (n0 := sanitize_dos_name name).
  set (req := {| dos_name := n0; conn_id := conn; device_id := device; jr_mount_point := point n0 |}).
  pose proof (join_ok mounted req (registry w) Hr) as Hok.
  pose proof (join_members mounted req (registry w)) as Hmem.
  destruct (join mounted req (registry w)) as [r ok]. cbn [fst snd fc_registry fc_bridge joined] in *.
  split; [done|]. cbn [registry joined_by]. intros n s c m Hs Hm.
  destruct (Hmem n s c m Hs Hm) as [(-> & -> & ->)|(s0 & m0 & Hs0 & Hm0)].
  - exists (<[device := n0]> j), device. by rewrite !lookup_insert_eq.
  - destruct (Hj n s0 c m0 Hs0 Hm0) as (jc & d & Hjc & Hd). destruct (decide (c = conn)) as [->|Hne].
    + rewrite Ej in Hjc. injection Hjc as <-. exists (if ok then <[device := n0]> j else j), d.
      rewrite lookup_insert_eq. split; [done|]. destruct ok; [|done].
      rewrite lookup_insert_ne; [done|]. intros ->. congruence.
    + exists jc, d. by rewrite lookup_insert_ne.
Qed.

Lemma disconnect_ok conn w : world_ok w →
  world_ok (disconnect first_key drain conn w)
  ∧ ∀ name s, slots (registry (disconnect first_key drain conn w)) !! name = Some s → members s !! conn = None.
Proof.
  intros [Hr Hj]. unfold disconnect. destruct (joined_by w !! conn) as [j|] eqn:Ej.
  2: { split; [done|]. intros name s Hs. destruct (members s !! conn) as [m|] eqn:Em; [|done].
       destruct (Hj name s conn m Hs Em) as (? & ? & ? & _). congruence. }
  destruct (foldl _ _ (drain j)) as [r bs] eqn:E.
  pose proof (leave_all_ok conn (drain j) (registry w) (alter abort_pending conn (bridges w)) Hr) as Hok.
  pose proof (leave_all_members conn (drain j) (registry w) (alter abort_pending conn (bridges w))) as Hmem.
  rewrite E in Hok, Hmem. cbn [fst registry joined_by] in *.
  assert (∀ name s c m, slots r !! name = Some s → members s !! c = Some m →
    c ≠ conn ∧ ∃ jc d, joined_by w !! c = Some jc ∧ jc !! d = Some name) as H.
  { intros name s c m Hs Hm. destruct (Hmem name s c m Hs Hm) as (Hn & s0 & Hs0 & Hm0).
    destruct (Hj name s0 c m Hs0 Hm0) as (jc & d & Hjc & Hd). split; [|by exists jc, d].
    intros ->. rewrite Ej in Hjc. injection Hjc as <-. destruct Hn as [Hn|]; [|done].
    apply Hn, Hdrain. by exists d. }
  split; [split; [done|]|].
  - intros name s c m Hs Hm. destruct (H name s c m Hs Hm) as (Hne & jc & d & Hjc & Hd).
    exists jc, d. cbn [joined_by]. by rewrite lookup_delete_ne.
  - intros name s Hs. destruct (members s !! conn) as [m|] eqn:Em; [|done]. by destruct (H name s conn m Hs Em).
Qed.

Lemma join_next mounted req r : next_conn (join mounted req r).1 = next_conn r.
Proof. unfold join, join_mounted, join_existing. destruct (slots r !! dos_name req), mounted; done. Qed.
Lemma leave_next name conn r bs : next_conn (leave first_key name conn r bs).1 = next_conn r.
Proof. unfold leave. by repeat (case_match; try done). Qed.
Lemma leave_all_next conn names : ∀ r bs,
  next_conn (foldl (λ '(r, bs) name, leave first_key name conn r bs) (r, bs) names).1 = next_conn r.
Proof.
  induction names as [|name names IH]; intros r bs; [done|]. cbn [foldl].
  destruct (leave first_key name conn r bs) as [r' bs'] eqn:E. rewrite IH.
  change r' with (r', bs').1. rewrite <-E. apply leave_next.
Qed.

Lemma device_ready_numbered mounted point conn device device_type name w :
  numbered w → numbered (device_ready mounted point conn device device_type name w).
Proof.
  intros [H0 Hn]. unfold device_ready.
  destruct (bridges w !! conn) as [b|]; [|done]. destruct (joined_by w !! conn) as [j|] eqn:Ej; [|done].
  unfold FuseDriveConsumer_on_device_ready. cbn [have_session joined fc_registry fc_bridge].
  assert (∀ j' r, next_conn r = next_conn (registry w) → numbered {| registry := r; bridges := bridges w; joined_by := <[conn := j']> (joined_by w) |}) as H.
  { intros j' r Hr. split; cbn; rewrite Hr; [done|]. intros c [x [[<- _]|[_ Hc]]%lookup_insert_Some]; apply Hn; by eexists. }
  destruct (negb (device_type =? RDPDR_DTYP_FILESYSTEM) || negb true); [by apply (H j (registry w))|].
  case_bool_decide; [by apply (H j (registry w))|].
  match goal with |- context [join ?m ?q ?r] => pose proof (join_next m q r) as Hx; destruct (join m q r) as [r' ok] end.
  cbn [fst snd fc_registry fc_bridge joined] in *. by apply (H _ r').
Qed.
Lemma disconnect_numbered conn w : numbered w → numbered (disconnect first_key drain conn w).
Proof.
  intros [H0 Hn]. unfold disconnect. destruct (joined_by w !! conn) as [j|] eqn:Ej; [|done].
  pose proof (leave_all_next conn (drain j) (registry w) (alter abort_pending conn (bridges w))) as Hx.
  destruct (foldl _ _ (drain j)) as [r bs]. cbn [fst] in Hx. split; cbn [registry joined_by]; rewrite Hx; [done|].
  intros c [x [_ Hc]%lookup_delete_Some]. apply Hn. by eexists.
Qed.

Lemma wstep_ok w w' : wstep w w' → world_ok w → numbered w → world_ok w' ∧ numbered w'.
Proof.
  intros Hs Hok Hnum. destruct Hs as [uid gid Hlt|mounted point conn device dt name Hdev|conn b|conn|].
  - destruct Hok as [Hr Hj], Hnum as [H0 Hn]. unfold connect, alloc_conn_id. cbn [fst registry joined_by].
    assert (as_u64 (next_conn (registry w) + 1) = next_conn (registry w) + 1) as E
      by (unfold as_u64; rewrite Z.mod_small; lia).
    split; [split; [done|]|split; cbn [registry next_conn joined_by]; rewrite E; [lia|]].
    + intros name s c m Hs Hm. destruct (Hj name s c m Hs Hm) as (j & d & Hjc & Hd). exists j, d.
      cbn [joined_by]. rewrite lookup_insert_ne; [done|]. specialize (Hn c ltac:(by eexists)). lia.
    + intros c [x [[<- _]|[_ Hc]]%lookup_insert_Some]; [lia|]. specialize (Hn c ltac:(by eexists)). lia.
  - split; [by apply device_ready_ok|by apply device_ready_numbered].
  - done.
  - split; [by apply disconnect_ok|by apply disconnect_numbered].
  - split; [|done]. split; [intros name s Hs|intros name s c m Hs]; cbn [registry slots unmount_all fst set_slots] in Hs;
      by rewrite lookup_empty in Hs.
Qed.

Lemma wsteps_ok w : wsteps world_new w → world_ok w ∧ numbered w.
Proof.
  assert (∀ w1 w2, wsteps w1 w2 → world_ok w1 → numbered w1 → world_ok w2 ∧ numbered w2) as H.
  { induction 1 as [w1|w1 w2 w3 Hs _ IH]; intros Hok Hn; [done|].
    destruct (wstep_ok w1 w2 Hs Hok Hn). by apply IH. }
  intros Hs. apply (H world_new); [done| |].
  - split; [intros name s Hs'|intros name s c m Hs']; cbn in Hs'; by rewrite lookup_empty in Hs'.
  - split; [cbn; lia|]. intros c [x Hx]. cbn in Hx. by rewrite lookup_empty in Hx.
Qed.

(** What a connection that goes does to a mount: the mount stays, at its place and with the other
    members, and with its owner if that is another one; if there is no other member it is gone. *)
Definition left_by (conn : Z) (before after : option SharedMount) : Prop :=
  match before with
  | None => after = None
  | Some s =>
    let left := delete conn (members s) in
    if decide (left = ∅) then after = None
    else ∃ s', after = Some s' ∧ members s' = left ∧ mount_point s' = mount_point s
         ∧ (owner_conn s ≠ conn → owner_conn s' = owner_conn s ∧ active s' = active s)
  end.
Lemma left_by_trans conn o1 o2 o3 : left_by conn o1 o2 → left_by conn o2 o3 → left_by conn o1 o3.
Proof.
  unfold left_by. destruct o1 as [s1|]; [|by intros ->]. case_decide as H1; [by intros ->|].
  intros (s2 & -> & Hm2 & Hp2 & Ho2). rewrite Hm2, (delete_id (delete conn (members s1))) by apply lookup_delete_eq.
  rewrite decide_False by done. intros (s3 & -> & Hm3 & Hp3 & Ho3). exists s3.
  split_and!; [done|done|congruence|]. intros Hne. destruct (Ho2 Hne) as [Ho Ha].
  rewrite <-Ho, <-Ha. apply Ho3. congruence.
Qed.
Lemma left_by_absent conn o :
  (∀ s, o = Some s → members s !! conn = None ∧ members s ≠ ∅) → left_by conn o o.
Proof.
  intros H. unfold left_by. destruct o as [s|]; [|done]. destruct (H s eq_refl) as [Hn Hne].
  rewrite delete_id by done. rewrite decide_False by done. by exists s.
Qed.
Lemma leave_slot name conn r bs name' :
  if decide (name' = name) then left_by conn (slots r !! name') (slots (leave first_key name conn r bs).1 !! name')
  else slots (leave first_key name conn r bs).1 !! name' = slots r !! name'.
Proof.
  unfold leave, left_by. case_decide as Hn; [subst name'|].
  - destruct (slots r !! name) as [s|] eqn:E; [|done]. case_decide; [apply lookup_delete_eq|].
    destruct (Z.eqb_spec (owner_conn s) conn); [|cbn; rewrite lookup_insert_eq; by eexists].
    destruct (first_key _) as [k|]; [|cbn; rewrite lookup_insert_eq; by eexists].
    destruct (delete conn (members s) !! k); cbn; rewrite lookup_insert_eq; by eexists.
  - destruct (slots r !! name) as [s|]; [|done]. case_decide; [by apply lookup_delete_ne|].
    repeat case_match; cbn; by rewrite lookup_insert_ne.
Qed.
Lemma leave_all_slot conn name : ∀ names r bs,
  let r' := (foldl (λ '(r, bs) name, leave first_key name conn r bs) (r, bs) names).1 in
  if decide (name ∈ names) then left_by conn (slots r !! name) (slots r' !! name)
  else slots r' !! name = slots r !! name.
Proof.
  induction names as [|name0 names IH]; intros r bs; [done|]. cbn [foldl].
  pose proof (leave_slot name0 conn r bs name) as H0.
  destruct (leave first_key name0 conn r bs) as [r1 bs1]. cbn [fst] in H0. specialize (IH r1 bs1). cbv zeta in *.
  destruct (decide (name = name0)) as [->|Hne].
  - rewrite decide_True by by left. case_decide; [by eapply left_by_trans|by rewrite IH].
  - rewrite H0 in IH. destruct (decide (name ∈ names)).
    + by rewrite decide_True by by right.
    + rewrite decide_False; [done|]. by intros [?|?]%elem_of_cons.
Qed.
Lemma disconnect_slot conn w name : world_ok w →
  left_by conn (slots (registry w) !! name) (slots (registry (disconnect first_key drain conn w)) !! name).
Proof.
  intros [Hr Hj].
  assert ((∀ j d, joined_by w !! conn = Some j → j !! d ≠ Some name) →
    left_by conn (slots (registry w) !! name) (slots (registry w) !! name)) as Hout.
  { intros Hno. apply left_by_absent. intros s Hs. split.
    - destruct (members s !! conn) as [m|] eqn:Em; [|done].
      destruct (Hj name s conn m Hs Em) as (j & d & Hc & Hd). by destruct (Hno j d Hc).
    - destruct (Hr name s Hs) as ([m Hm] & _). intros E. by rewrite E, lookup_empty in Hm. }
  unfold disconnect. destruct (joined_by w !! conn) as [j|] eqn:Ej; [|by apply Hout].
  pose proof (leave_all_slot conn name (drain j) (registry w) (alter abort_pending conn (bridges w))) as H.
  cbv zeta in H. destruct (foldl _ _ (drain j)) as [r bs]. cbn [fst registry] in *.
  case_decide as Hin; [done|]. rewrite H. apply Hout. intros j' d [= <-] Hd. apply Hin, Hdrain. by exists d.
Qed.

(** C3. Connections that announce drives, join and leave mounts, and go away in any order, a mount
    losing a race included; but no connection announces a drive under a device number it has announced
    another under and not given up ([reused_device_id_leaks_mount] shows what happens then).  Every
    mount is held by at least one connection, its owner is one of them and the one whose bridge serves
    the file system, and who holds a mount is connected; when a connection goes, no mount names it any
    more; and a mount that another connection holds outlives it, at the same place and with the other
    members, its owner unchanged if that is not the connection that goes, while a mount held by it
    alone is gone. *)
Theorem mounts_served_by_members w : wsteps world_new w →
  (∀ name s, slots (registry w) !! name = Some s →
     is_Some (members s !! owner_conn s) ∧ ab_bridge (active s) = owner_conn s
     ∧ ∀ c, is_Some (members s !! c) → is_Some (joined_by w !! c))
  ∧ (∀ conn name s, slots (registry (disconnect first_key drain conn w)) !! name = Some s →
       members s !! conn = None ∧ owner_conn s ≠ conn ∧ ab_bridge (active s) ≠ conn)
  ∧ (∀ conn name, left_by conn (slots (registry w) !! name)
       (slots (registry (disconnect first_key drain conn w)) !! name)).
Proof.
  intros [Hok Hn]%wsteps_ok. pose proof Hok as [Hr Hj]. split; [|split].
  - intros name s Hs. destruct (Hr name s Hs) as (? & ? & _). split; [done|split; [done|]].
    intros c [m Hm]. destruct (Hj name s c m Hs Hm) as (j & _ & Hc & _). by exists j.
  - intros conn name s Hs. destruct (disconnect_ok conn w Hok) as [[Hr' _] Hnone].
    specialize (Hnone name s Hs). destruct (Hr' name s Hs) as ([m Hm] & Ha & _).
    assert (owner_conn s ≠ conn) by congruence. split; [done|split; [done|congruence]].
  - intros conn name. by apply disconnect_slot.
Qed.
End runs.

(** Iteration orders of a [HashMap]. *)
Definition some_key (m : gmap Z MountMember) : option Z := fst <$> head (map_to_list m).
Definition some_names (j : gmap Z rstring) : list rstring := (map_to_list j).*2.
Lemma some_key_ok m : m ≠ ∅ → ∃ k, some_key m = Some k ∧ is_Some (m !! k).
Proof.
  intros Hm. unfold some_key. destruct (map_to_list m) as [|[k x] l] eqn:E; [by apply map_to_list_empty_iff in E|].
  exists k. split; [done|]. exists x. apply elem_of_map_to_list. rewrite E. by left.
Qed.
Lemma some_names_ok j name : name ∈ some_names j ↔ ∃ d, j !! d = Some name.
Proof.
  unfold some_names. rewrite list_elem_of_fmap. split.
  - intros ([d x] & -> & Hx%elem_of_map_to_list). by exists d.
  - intros [d Hd]. exists (d, name). by rewrite elem_of_map_to_list.
Qed.

Definition two_connections : world :=
  let w := (connect 1000 1000 (connect 1000 1000 world_new).1).1 in
  device_ready true id 2 20 RDPDR_DTYP_FILESYSTEM (lit "C")
    (device_ready true id 1 10 RDPDR_DTYP_FILESYSTEM (lit "C") w).
Lemma mounts_served_by_members_witness :
  owner_conn <$> slots (registry two_connections) !! lit "C" = Some 1
  ∧ owner_conn <$> slots (registry (disconnect some_key some_names 1 two_connections)) !! lit "C" = Some 2
  ∧ (∀ conn name s, slots (registry (disconnect some_key some_names conn two_connections)) !! name = Some s →
       members s !! conn = None ∧ owner_conn s ≠ conn ∧ ab_bridge (active s) ≠ conn)
  ∧ (∀ conn name, left_by conn (slots (registry two_connections) !! name)
       (slots (registry (disconnect some_key some_names conn two_connections)) !! name)).
Proof.
  split; [vm_compute; reflexivity|split; [vm_compute; reflexivity|]].
  apply (mounts_served_by_members some_key some_names some_key_ok some_names_ok two_connections).
  eapply rtc_l; [apply (wstep_connect _ _ _ 1000 1000); vm_compute; reflexivity|].
  eapply rtc_l; [apply (wstep_connect _ _ _ 1000 1000); vm_compute; reflexivity|].
  eapply rtc_l; [apply (wstep_device _ _ _ true id 1 10 RDPDR_DTYP_FILESYSTEM (lit "C"))|].
  { intros j Hj. vm_compute in Hj. by injection Hj as <-. }
  eapply rtc_l; [apply (wstep_device _ _ _ true id 2 20 RDPDR_DTYP_FILESYSTEM (lit "C"))|apply rtc_refl].
  intros j Hj. vm_compute in Hj. by injection Hj as <-.
Defined.

(** A client that gives the number of a drive to another one (a drive unplugged and one plugged in):
    the connection forgets that it had joined the first mount, which stays when it has gone, with the
    connection that has gone for an owner. *)
Theorem reused_device_id_leaks_mount :
  let w := (connect 1000 1000 world_new).1 in
  let w := device_ready true id 1 10 RDPDR_DTYP_FILESYSTEM (lit "C") w in
  let w := device_ready true id 1 10 RDPDR_DTYP_FILESYSTEM (lit "D") w in
  let w := disconnect some_key some_names 1 w in
  owner_conn <$> slots (registry w) !! lit "C" = Some 1
  ∧ slots (registry w) !! lit "D" = None ∧ joined_by w !! 1 = None.
Proof. split_and!; vm_compute; reflexivity. Qed.
