(* ===== verification/FuseFlow.v ===== *)
(** One request of the kernel at a time, against any client: which of the client's files stay open,
    what a rename does to the tables, and what a change of owner does to open handles. *)
From stdpp Require Import gmultiset.
From S2P Require Import Prelude Cursor Utf RdpdrPdu Rdpdr FusePath FuseBridge FuseFs FuseThreads FuseSafety FuseMount.

(** No request is under way. *)
Definition quiescent (b : Bridge) : Prop :=
  outbound (wire b) = [] ∧ b_pending (wire b) = ∅ ∧ replies (wire b) = ∅.

(** ** The files the client has open *)

Definition file_id : Type := Z * Z.
Definition files (b : Bridge) : gmultiset file_id :=
  list_to_set_disj ((λ h : Z * OpenHandle, (oh_device_id h.2, oh_file_id h.2)) <$> map_to_list (opens (handles b))).

Section request.
Context {S : Type} (client : S → DriveCommand → S * option Answer).

(** The answer that reaches the thread: what the client says, if it has the kind that is awaited. *)
Definition heard (p : Pending) (a : option Answer) : outcome :=
  match a with
  | None => Timeout
  | Some a => if decide (answer_kind a = p) then Reply a else Disconnected
  end.

Lemma exec_request p (c : Z → DriveCommand) t s b :
  (∀ tag, command_tag (c tag) = tag) → quiescent b →
  ∃ b', quiescent b' ∧ handles b' = handles b ∧ tables b' = tables b
    ∧ exec client t (request p c) s b
      = let '(s', a) := client s (c (next_tag (wire b))) in Some (s', b', heard p a).
Proof.
  intros Hc (Ho & Hp & Hr). set (tag := next_tag (wire b)).
  set (b3 := set_wire {| outbound := outbound (wire b) ++ [c tag]; b_pending := <[tag := p]> (b_pending (wire b));
                         replies := replies (wire b); next_tag := as_u64 (tag + 1) |} b).
  assert (exec client t (request p c) s b =
    let '(s', b1) := serve_all client s b3 in let '(o, b2) := try_recv tag b1 in Some (s', b2, o)) as -> by done.
  unfold serve_all, bridge_poll, b3. cbn [wire set_wire outbound b_pending replies next_tag].
  rewrite Ho, Hp. cbn [app foldl]. unfold serve. cbn [fst snd]. rewrite Hc.
  destruct (client s (c tag)) as [s' a].
  unfold deliver, try_recv, set_queue.
  destruct a as [a|]; cbn [set_wire wire b_pending replies outbound next_tag];
    rewrite ?lookup_insert_eq, ?Hr; cbn [set_wire wire b_pending replies outbound next_tag heard].
  - destruct (decide (answer_kind a = p)); cbn [set_wire wire b_pending replies outbound next_tag].
    + rewrite lookup_insert_eq. eexists. split; [|split; [|split; [|done]]]; try done.
      split_and!; cbn; try done; by rewrite ?delete_insert_eq.
    + rewrite lookup_empty, lookup_delete_eq. eexists. split; [|split; [|split; [|done]]]; try done.
      split_and!; cbn; try done; by rewrite ?delete_insert_eq.
  - rewrite lookup_empty. eexists. split; [|split; [|split; [|done]]]; try done.
    split_and!; cbn; try done; by rewrite ?delete_insert_eq.
Qed.

End request.

(** A computation that asks the client nothing and leaves the handles alone. *)
Definition still {A} (p : proc A) : Prop :=
  ∀ S (client : S → DriveCommand → S * option Answer) t s b, quiescent b →
    ∃ b' a, exec client t p s b = Some (s, b', a) ∧ quiescent b' ∧ handles b' = handles b.
Lemma still_bind {A B} (p : proc A) (k : A → proc B) : still p → (∀ a, still (k a)) → still (p ≫= k).
Proof.
  intros Hp Hk S client t s b Hb. rewrite exec_bind.
  destruct (Hp S client t s b Hb) as (b1 & a & -> & Hb1 & Hh1). cbn [mbind option_bind].
  destruct (Hk a S client t s b1 Hb1) as (b2 & a2 & -> & ? & ?). exists b2, a2. split_and!; [done|done|congruence].
Qed.
Lemma still_ret {A} (a : A) : still (mret a).
Proof. intros S client t s b Hb. by exists b, a. Qed.
Lemma still_now : still now.
Proof. intros S client t s b Hb. by exists b, t. Qed.
Lemma still_locked {B} (f : Bridge → Bridge * B) :
  (∀ b, quiescent b → quiescent (f b).1 ∧ handles (f b).1 = handles b) → still (locked f).
Proof. intros H S client t s b Hb. destruct (H b Hb). by exists (f b).1, (f b).2. Qed.
Lemma gets_still {B} (f : Bridge → B) : still (gets f).
Proof. by apply still_locked. Qed.
Lemma modify_meta_still f : still (modify_meta f).
Proof. by apply still_locked. Qed.
Lemma inode_for_still d p : still (inode_for d p).
Proof. apply still_locked. intros b Hb. unfold inode_for. by destruct (inode_of d p (tables b)). Qed.
Lemma cache_entry_still d parent e : still (cache_entry d parent e).
Proof.
  unfold cache_entry. destruct (is_safe_win_component _); [|apply still_ret].
  destruct (join_win _ _); [|apply still_ret].
  repeat first [apply gets_still|apply modify_meta_still|apply inode_for_still|apply still_bind; [|intros ?]].
Qed.

(** What becomes of a command: the thread hears the answer, the answer comes when the thread has given
    up waiting, or there is none. *)
Inductive reply := InTime (a : Answer) | TooLate (a : Answer) | Silent.
Definition in_time (r : reply) : option Answer := match r with InTime a => Some a | _ => None end.

(** Passing on an answer nobody waits for any more does nothing: this is all the bridge ever sees of
    a late one. *)
Lemma deliver_forgotten tag a b : b_pending (wire b) !! tag = None → deliver tag a b = b.
Proof. intros H. unfold deliver. by rewrite H. Qed.

(** The files open on the client, and those of them that were opened by an answer that came late. *)
Record ledger (S : Type) := { l_state : S; l_open : gmultiset file_id; l_late : gmultiset file_id }.
Arguments Build_ledger {S}.
Arguments l_state {S} _.
Arguments l_open {S} _.
Arguments l_late {S} _.

Definition opened (c : DriveCommand) (a : Answer) : gmultiset file_id :=
  match c, a with
  | Create d _ _ _ _ _, ACreate (inl r) => {[+ (d, cr_file_id r) +]}
  | _, _ => ∅
  end.
Definition closed (c : DriveCommand) : gmultiset file_id :=
  match c with Close d f _ => {[+ (d, f) +]} | _ => ∅ end.

(** The clock before which a time fits a FILETIME: the year 31197. *)
Definition END_OF_TIME : Z := (2 ^ 63 - EPOCH_DIFF) * 100.
Lemma filetime_before_end t : t < END_OF_TIME → systemtime_to_filetime (E := Empty_set) t ≠ Panic.
Proof.
  unfold systemtime_to_filetime, END_OF_TIME, EPOCH_DIFF. intros H. destruct (Z.ltb_spec t 0); [done|].
  destruct (Z.ltb_spec (116444736000000000 + t / 1000000000 * 10000000 + t mod 1000000000 / 100) (2 ^ 63)); [done|].
  exfalso. Z.to_euclidean_division_equations. lia.
Qed.

Section count.
Context {S : Type} (client : S → DriveCommand → S * reply).

(** A listing has at most [n] entries. *)
Fixpoint listing_ends (n : nat) (s : S) (d f : Z) (pattern : option rstring) : Prop :=
  match n with
  | O => False
  | Datatypes.S n =>
    ∀ tag, match client s (QueryDirectory d f pattern tag) with
           | (s', InTime (AQueryDir (inl (Some _)))) => listing_ends n s' d f None
           | _ => True
           end
  end.

(** A file is open from the client's answer to its [Create] to the [Close] that names it. *)
Definition note (l : ledger S) (c : DriveCommand) (s : S) (r : reply) : ledger S :=
  {| l_state := s;
     l_open := match r with
               | InTime a | TooLate a => (l_open l ∖ closed c) ⊎ opened c a
               | Silent => l_open l ∖ closed c
               end;
     l_late := match r with TooLate a => l_late l ⊎ opened c a | _ => l_late l end |}.
Definition counting (l : ledger S) (c : DriveCommand) : ledger S * option Answer :=
  let '(s, r) := client (l_state l) c in (note l c s r, in_time r).
Lemma counting_eq l c s r : client (l_state l) c = (s, r) → counting l c = (note l c s r, in_time r).
Proof. intros E. unfold counting. by rewrite E. Qed.

(** Besides [rest] and the files of late answers, the files [mine] are open. *)
Definition balanced (rest mine : gmultiset file_id) (l : ledger S) : Prop :=
  l_open l = rest ⊎ mine ⊎ l_late l.

(** A computation that does not touch the handles: it ends, and goes from [pre] files of its own to
    [post]. *)
Definition quiet {A} (p : proc A) (pre : gmultiset file_id) (post : A → gmultiset file_id) : Prop :=
  ∀ t l b rest, t < END_OF_TIME → quiescent b → balanced rest pre l →
    ∃ l' b' a, exec counting t p l b = Some (l', b', a)
      ∧ quiescent b' ∧ handles b' = handles b ∧ balanced rest (post a) l'.
Notation neutral p := (quiet p ∅ (λ _, ∅)).

Lemma quiet_bind {A B} (p : proc A) (k : A → proc B) pre mid post :
  quiet p pre mid → (∀ a, quiet (k a) (mid a) post) → quiet (p ≫= k) pre post.
Proof.
  intros Hp Hk t l b rest Ht Hb Hl. rewrite exec_bind.
  destruct (Hp t l b rest Ht Hb Hl) as (l1 & b1 & a & -> & Hb1 & Hh1 & Hl1). cbn [mbind option_bind].
  destruct (Hk a t l1 b1 rest Ht Hb1 Hl1) as (l2 & b2 & a2 & -> & Hb2 & Hh2 & Hl2).
  exists l2, b2, a2. split; [done|]. split; [done|]. split; [congruence|done].
Qed.
Lemma quiet_frame {A} (p : proc A) pre post R : quiet p pre post → quiet p (pre ⊎ R) (λ a, post a ⊎ R).
Proof.
  assert (∀ rest X l, balanced (rest ⊎ R) X l ↔ balanced rest (X ⊎ R) l) as HR.
  { intros. unfold balanced. replace (rest ⊎ (X ⊎ R)) with (rest ⊎ R ⊎ X); [done|]. multiset_solver. }
  intros Hp t l b rest Ht Hb Hl%HR.
  destruct (Hp t l b (rest ⊎ R) Ht Hb Hl) as (l1 & b1 & a & E & ? & ? & ?%HR). by exists l1, b1, a.
Qed.
Lemma quiet_eq {A} (p : proc A) pre pre' post post' :
  quiet p pre post → pre' = pre → (∀ a, post' a = post a) → quiet p pre' post'.
Proof.
  intros Hp -> Hpost t l b rest Ht Hb Hl. destruct (Hp t l b rest Ht Hb Hl) as (l1 & b1 & a & ? & ? & ? & ?).
  exists l1, b1, a. by rewrite Hpost.
Qed.
Lemma quiet_ret {A} (a : A) pre post : pre = post a → quiet (mret a) pre post.
Proof. intros -> t l b rest Ht Hb Hl. by exists l, b, a. Qed.
Lemma neutral_frame {A} (p : proc A) R : neutral p → quiet p R (λ _, R).
Proof.
  intros Hp. apply (quiet_eq p (∅ ⊎ R) _ (λ _, ∅ ⊎ R)); [by apply (quiet_frame p ∅ (λ _, ∅))|by rewrite (left_id_L ∅ _)..].
Qed.
Lemma neutral_bind {A B} (p : proc A) (k : A → proc B) R post :
  neutral p → (∀ a, quiet (k a) R post) → quiet (p ≫= k) R post.
Proof. intros Hp Hk. apply quiet_bind with (λ _, R); [by apply neutral_frame|done]. Qed.

Definition held (d : Z) (r : CreateReply + Errno) : gmultiset file_id :=
  match r with inl c => {[+ (d, cr_file_id c) +]} | inr _ => ∅ end.

End count.

Section ledger.
Context {S : Type} (client : S → DriveCommand → S * reply).
Notation quiet := (quiet client).
Notation neutral p := (quiet p ∅ (λ _, ∅)).

(** One request: what the client does with it is noted, and the thread goes on with the outcome. *)
Lemma request_quiet {A} p (c : Z → DriveCommand) (f : outcome → A) pre post :
  (∀ tag, command_tag (c tag) = tag) →
  (∀ l tag s r rest, balanced rest pre l → client (l_state l) (c tag) = (s, r) →
     balanced rest (post (f (heard p (in_time r)))) (note l (c tag) s r)) →
  quiet (o ← request p c; mret (f o)) pre post.
Proof.
  intros Hc Hn t l b rest Ht Hb Hl. rewrite exec_bind.
  destruct (exec_request (counting client) p c t l b Hc Hb) as (b' & Hb' & Hh & _ & ->).
  destruct (client (l_state l) (c (next_tag (wire b)))) as [s r] eqn:E.
  rewrite (counting_eq client _ _ _ _ E). specialize (Hn l _ s r rest Hl E). cbn [mbind option_bind exec mret proc_mret]. by eexists _, _, _.
Qed.
(** A request that neither opens nor closes a file, whatever the answer. *)
Lemma request_neutral {A} p (c : Z → DriveCommand) (f : outcome → A) :
  (∀ tag, command_tag (c tag) = tag) → (∀ tag, closed (c tag) = ∅) → (∀ tag a, opened (c tag) a = ∅) →
  neutral (o ← request p c; mret (f o)).
Proof.
  intros Hc Hcl Hop. apply request_quiet; [done|]. unfold balanced, note. intros l tag s r rest Hl _.
  destruct r as [a|a|]; cbn; rewrite Hcl, ?Hop, Hl; multiset_solver.
Qed.
Lemma submit_create_quiet d p access disposition options :
  quiet (submit_create d p access disposition options) ∅ (held d).
Proof.
  apply request_quiet; [done|]. unfold balanced, note. intros l tag s r rest Hl _.
  destruct r as [[[c|st]|?|?|?|?|?]|[[c|st]|?|?|?|?|?]|]; cbn -[gmultiset_union gmultiset_disj_union];
    rewrite ?Hl; try case_decide; cbn [held]; multiset_solver.
Qed.
Lemma submit_close_quiet d f : quiet (submit_close d f) {[+ (d, f) +]} (λ _, ∅).
Proof.
  apply request_quiet; [done|]. unfold balanced, note. intros l tag s r rest Hl _.
  destruct r as [a|a|]; cbn; rewrite Hl; apply gmultiset_eq; intros x;
    rewrite ?multiplicity_disj_union, ?multiplicity_difference, ?multiplicity_disj_union, ?multiplicity_empty; lia.
Qed.
Lemma submit_read_neutral d f l o : neutral (submit_read d f l o).
Proof. by apply request_neutral. Qed.
Lemma submit_write_neutral d f o data : neutral (submit_write d f o data).
Proof. by apply request_neutral. Qed.
Lemma submit_query_dir_neutral d f p : neutral (submit_query_dir d f p).
Proof. by apply request_neutral. Qed.
Lemma submit_set_information_neutral d f class buffer : neutral (submit_set_information d f class buffer).
Proof. by apply request_neutral. Qed.

Lemma still_neutral {A} (p : proc A) : still p → neutral p.
Proof.
  intros Hp t l b rest Ht Hb Hl. destruct (Hp _ (counting client) t l b Hb) as (b' & a & E & ? & ?). by exists l, b', a.
Qed.
Lemma locked_neutral {B} (f : Bridge → Bridge * B) :
  (∀ b, quiescent b → quiescent (f b).1 ∧ handles (f b).1 = handles b) → neutral (locked f).
Proof. intros H. by apply still_neutral, still_locked. Qed.
Lemma gets_neutral {B} (f : Bridge → B) : neutral (gets f).
Proof. apply still_neutral, gets_still. Qed.
Lemma modify_meta_neutral f : neutral (modify_meta f).
Proof. apply still_neutral, modify_meta_still. Qed.
Lemma now_neutral : neutral now.
Proof. apply still_neutral, still_now. Qed.
Lemma cache_entry_neutral d parent e : neutral (cache_entry d parent e).
Proof. apply still_neutral, cache_entry_still. Qed.
Lemma lift_neutral {A} (r : res Empty_set A) : r ≠ Panic → neutral (lift r).
Proof. intros Hr t l b rest Ht Hb Hl. destruct r as [a|[]|]; [cbn|done]. by eexists _, _, _. Qed.
Lemma alloc_tag_neutral : neutral alloc_tag.
Proof. by apply locked_neutral. Qed.
Lemma ensure_root_ino_neutral d : neutral (ensure_root_ino d).
Proof. apply locked_neutral. intros b Hb. unfold ensure_root. by destruct (path_to_ino _ !! _). Qed.
Lemma inode_for_neutral d p : neutral (inode_for d p).
Proof. apply still_neutral, inode_for_still. Qed.
Lemma ret_neutral {A} (a : A) : neutral (mret a).
Proof. by apply quiet_ret. Qed.
End ledger.

Create HintDb quiet.
#[export] Hint Resolve submit_read_neutral submit_write_neutral submit_query_dir_neutral
  submit_set_information_neutral gets_neutral modify_meta_neutral now_neutral alloc_tag_neutral
  ensure_root_ino_neutral inode_for_neutral cache_entry_neutral ret_neutral : quiet.

(** Runs through a computation that opens nothing itself. *)
Ltac quiet_steps :=
  repeat first
    [ match goal with |- ∀ _, _ => intro end
    | progress cbv beta zeta
    | solve [eauto with quiet]
    | match goal with |- quiet _ (_ ≫= _) ∅ _ => apply neutral_bind end
    | match goal with |- quiet _ (attempt _ _) ∅ _ => apply neutral_bind end
    | match goal with |- quiet _ (match ?x with _ => _ end) ∅ _ => destruct x eqn:? end ].

Section operations.
Context {S : Type} (client : S → DriveCommand → S * reply).
Notation quiet := (quiet client).
Notation neutral p := (quiet p ∅ (λ _, ∅)).

Lemma close_bind {A} d f (k : unit + Errno → proc A) :
  (∀ r, neutral (k r)) → quiet (submit_close d f ≫= k) {[+ (d, f) +]} (λ _, ∅).
Proof. intros Hk. eapply quiet_bind; [apply submit_close_quiet|]. exact Hk. Qed.
Lemma create_attempt {A} d p access disposition options (k : CreateReply → proc (A + Errno)) :
  (∀ c, quiet (k c) {[+ (d, cr_file_id c) +]} (λ _, ∅)) →
  neutral (attempt (submit_create d p access disposition options) k).
Proof.
  intros Hk. eapply quiet_bind; [apply submit_create_quiet|]. intros [c|e]; [apply Hk|apply ret_neutral].
Qed.

Context (order : gmap (Z * rstring) Z → list ((Z * rstring) * Z)) (fits : list dirent → dirent → bool)
  (fuel : nat) (d : Z) (Hends : ∀ s d f pattern, listing_ends client fuel s d f (Some pattern)).

Lemma forget_path_neutral p : neutral (forget_path d p).
Proof.
  unfold forget_path. apply neutral_bind; [auto with quiet|]. intros _.
  apply neutral_bind; [by apply locked_neutral|]. intros [i|]; [by apply locked_neutral|auto with quiet].
Qed.
Lemma remap_path_neutral old new : neutral (remap_path order d old new).
Proof. by apply locked_neutral. Qed.
#[local] Hint Resolve forget_path_neutral remap_path_neutral : quiet.

Lemma delete_path_neutral p is_dir : neutral (delete_path d p is_dir).
Proof.
  unfold delete_path. eapply quiet_bind; [apply submit_create_quiet|]. intros r.
  apply quiet_bind with (mid := held d).
  { destruct r as [c|e]; [by apply quiet_ret|apply submit_create_quiet]. }
  intros [c|e]; [|apply ret_neutral]. cbn [held].
  apply neutral_bind; [auto with quiet|]. intros _. apply close_bind. quiet_steps.
Qed.
Lemma rename_path_neutral old new replace : neutral (rename_path order d old new replace).
Proof.
  apply create_attempt. intros c. apply neutral_bind; [auto with quiet|]. intros r.
  apply close_bind. quiet_steps.
Qed.
#[local] Hint Resolve delete_path_neutral rename_path_neutral : quiet.
Lemma exchange_paths_neutral a c : neutral (exchange_paths order d a c).
Proof. unfold exchange_paths. quiet_steps. Qed.

Lemma attr_for_neutral p : neutral (attr_for d p).
Proof. unfold attr_for. quiet_steps. Qed.
#[local] Hint Resolve exchange_paths_neutral attr_for_neutral : quiet.
Lemma enumerate_loop_ends f parent : ∀ n pattern entries t l b rest,
  listing_ends client n (l_state l) d f pattern → t < END_OF_TIME → quiescent b → balanced rest ∅ l →
  ∃ l' b' a, exec (counting client) t (enumerate_loop n d parent f pattern entries) l b = Some (l', b', a)
    ∧ quiescent b' ∧ handles b' = handles b ∧ balanced rest ∅ l'.
Proof.
  induction n as [|n IH]; intros pattern entries t l b rest Hn Ht Hb Hl; [done|].
  cbn [enumerate_loop]. unfold submit_query_dir. rewrite !exec_bind.
  destruct (exec_request (counting client) PQueryDir (QueryDirectory d f pattern) t l b) as (b1 & Hb1 & Hh1 & _ & ->);
    [done..|].
  specialize (Hn (next_tag (wire b))).
  destruct (client (l_state l) (QueryDirectory d f pattern (next_tag (wire b)))) as [s r] eqn:E.
  rewrite (counting_eq client _ _ _ _ E). cbn [mbind option_bind exec mret proc_mret].
  set (l1 := note l (QueryDirectory d f pattern (next_tag (wire b))) s r).
  assert (balanced rest ∅ l1) as Hl1.
  { subst l1. unfold balanced, note in *. destruct r; cbn; rewrite Hl; multiset_solver. }
  destruct r as [[?|?|?|?|[[e|]|?]|?]|?|]; cbn [in_time heard]; try case_decide; cbn [exec mret proc_mret];
    try done; try (by eexists _, _, _).
  rewrite exec_bind. destruct (cache_entry_still d parent e _ (counting client) t l1 b1 Hb1) as (b2 & [] & -> & Hb2 & Hh2).
  cbn [mbind option_bind].
  edestruct (IH None) as (l3 & b3 & a & -> & ? & Hh3 & ?); [exact Hn|exact Ht|exact Hb2|exact Hl1|].
  exists l3, b3, a. split_and!; [done|done|congruence|done].
Qed.
Lemma enumerate_directory_neutral parent f : neutral (enumerate_directory fuel d parent f).
Proof. intros t l b rest Ht Hb Hl. by apply enumerate_loop_ends. Qed.
#[local] Hint Resolve enumerate_directory_neutral : quiet.
Lemma refresh_dir_neutral parent : neutral (refresh_dir fuel d parent).
Proof.
  apply create_attempt. intros c. apply neutral_bind; [auto with quiet|]. intros r. apply close_bind. quiet_steps.
Qed.
#[local] Hint Resolve refresh_dir_neutral : quiet.
Lemma lookup_child_neutral parent name : neutral (lookup_child fuel d parent name).
Proof. unfold lookup_child. quiet_steps. Qed.
Lemma ensure_dir_empty_neutral p : neutral (ensure_dir_empty fuel d p).
Proof. unfold ensure_dir_empty. quiet_steps. Qed.
#[local] Hint Resolve lookup_child_neutral ensure_dir_empty_neutral : quiet.

(** ** The operations of the file system *)

(** Handles are given out in order, and [n] more can be. *)
Definition room (n : Z) (b : Bridge) : Prop :=
  (∀ fh, is_Some (opens (handles b) !! fh) → fh < next_fh (handles b))
  ∧ 0 ≤ next_fh (handles b) ∧ next_fh (handles b) + n < 2 ^ 64.
Lemma room_mono n m b b' : room n b → m ≤ n → handles b' = handles b → room m b'.
Proof. intros (? & ? & ?) ? E. unfold room. rewrite E. split_and!; [done|done|lia]. Qed.
Lemma room_free n b : room n b → opens (handles b) !! next_fh (handles b) = None.
Proof. intros (H & _). apply eq_None_not_Some. intros Hs%H. lia. Qed.

(** An operation that has [pre] files of its own open: it ends, and in the end the open files are
    those of the handles, and the ones there were besides. *)
Definition serves {A} (p : proc A) (pre : gmultiset file_id) : Prop :=
  ∀ t l b rest n, t < END_OF_TIME → quiescent b → room (n + 1) b → 0 ≤ n → balanced rest (files b ⊎ pre) l →
    ∃ l' b' a, exec (counting client) t p l b = Some (l', b', a)
      ∧ quiescent b' ∧ room n b' ∧ balanced rest (files b') l'.

Lemma files_handles b b' : handles b' = handles b → files b' = files b.
Proof. intros H. unfold files. by rewrite H. Qed.

(** The files of the handles are not the computation's own. *)
Lemma balanced_own rest X Y (l : ledger S) : balanced rest (X ⊎ Y) l ↔ balanced (rest ⊎ X) Y l.
Proof. unfold balanced. by rewrite (assoc_L (⊎)). Qed.

Lemma serves_bind {A B} (p : proc A) (k : A → proc B) pre mid :
  quiet p pre mid → (∀ a, serves (k a) (mid a)) → serves (p ≫= k) pre.
Proof.
  intros Hp Hk t l b rest n Ht Hb Hr Hn Hl%balanced_own. rewrite exec_bind.
  destruct (Hp t l b (rest ⊎ files b) Ht Hb Hl) as (l1 & b1 & a & -> & Hb1 & Hh1 & Hl1). cbn [mbind option_bind].
  rewrite <-(files_handles b b1 Hh1) in Hl1. apply balanced_own in Hl1.
  apply (Hk a t l1 b1 rest n); [done|done| |done|done]. by eapply room_mono; [exact Hr| |done].
Qed.
Lemma serves_quiet {A} (p : proc A) pre : quiet p pre (λ _, ∅) → serves p pre.
Proof.
  intros Hp t l b rest n Ht Hb Hr Hn Hl%balanced_own.
  destruct (Hp t l b (rest ⊎ files b) Ht Hb Hl) as (l1 & b1 & a & -> & Hb1 & Hh1 & Hl1).
  exists l1, b1, a. rewrite <-(files_handles b b1 Hh1) in Hl1. apply balanced_own in Hl1.
  rewrite (right_id_L ∅ (⊎)) in Hl1. split_and!; [done|done| |done]. eapply room_mono; [exact Hr|lia|done].
Qed.
Lemma serves_neutral {A} (p : proc A) : neutral p → serves p ∅.
Proof. apply serves_quiet. Qed.
Lemma serves_bind_neutral {A B} (p : proc A) (k : A → proc B) R :
  neutral p → (∀ a, serves (k a) R) → serves (p ≫= k) R.
Proof. intros Hp. apply serves_bind. by apply neutral_frame. Qed.

Lemma files_insert b fh h : opens (handles b) !! fh = None →
  files (set_handles {| opens := <[fh := h]> (opens (handles b)); next_fh := next_fh (handles b) |} b)
  = files b ⊎ {[+ (oh_device_id h, oh_file_id h) +]}.
Proof.
  intros Hf. unfold files. cbn [handles set_handles opens].
  rewrite (list_to_set_disj_perm _ ((λ h : Z * OpenHandle, (oh_device_id h.2, oh_file_id h.2)) <$>
    ((fh, h) :: map_to_list (opens (handles b))))) by (by rewrite map_to_list_insert).
  cbn [fmap list_fmap list_to_set_disj foldr]. apply (comm_L (⊎)).
Qed.
Lemma files_delete b fh h : opens (handles b) !! fh = Some h →
  files b = files (set_handles {| opens := delete fh (opens (handles b)); next_fh := next_fh (handles b) |} b)
            ⊎ {[+ (oh_device_id h, oh_file_id h) +]}.
Proof.
  intros Hf. unfold files. cbn [handles set_handles opens].
  rewrite (list_to_set_disj_perm ((λ h : Z * OpenHandle, (oh_device_id h.2, oh_file_id h.2)) <$> map_to_list (opens (handles b)))
    ((λ h : Z * OpenHandle, (oh_device_id h.2, oh_file_id h.2)) <$>
    ((fh, h) :: map_to_list (delete fh (opens (handles b)))))) by (by rewrite map_to_list_delete).
  cbn [fmap list_fmap list_to_set_disj foldr]. apply (comm_L (⊎)).
Qed.

(** Giving an open file a handle. *)
Lemma insert_open_serves {A} f (k : Z → A) :
  serves (fh ← alloc_fh; _ ← insert_open fh {| oh_device_id := d; oh_file_id := f |}; mret (k fh)) {[+ (d, f) +]}.
Proof.
  intros t l b rest n Ht Hb Hr Hn Hl. cbn. eexists _, _, _. split; [done|]. split; [done|].
  pose proof (room_free _ _ Hr) as Hf. destruct Hr as (Hlt & H0 & Hmax). unfold room. cbn.
  replace (as_u64 (next_fh (handles b) + 1)) with (next_fh (handles b) + 1)
    by (unfold as_u64, wrap; rewrite Z.mod_small; lia).
  split.
  - split_and!; [|lia|lia]. intros fh. destruct (decide (fh = next_fh (handles b))) as [->|]; [lia|].
    rewrite lookup_insert_ne by done. intros Hs%Hlt. lia.
  - replace (files _) with (files b ⊎ {[+ (d, f) +]}); [done|]. symmetry.
    exact (files_insert b (next_fh (handles b)) {| oh_device_id := d; oh_file_id := f |} Hf).
Qed.

Lemma with_path_serves ino k : (∀ p, serves (k p) ∅) → serves (with_path d ino k) ∅.
Proof.
  intros H. apply serves_bind_neutral; [apply gets_neutral|]. intros [p|]; [done|]. apply serves_neutral, ret_neutral.
Qed.
Lemma with_child_serves parent name k : (∀ p, serves (k p) ∅) → serves (with_child d parent name k) ∅.
Proof.
  intros H. apply with_path_serves. intros p. unfold with_name. destruct (from_utf8 name) as [n|].
  - destruct (join_win p n); [done|]. apply serves_neutral, ret_neutral.
  - apply serves_neutral, ret_neutral.
Qed.
Lemma open_serves p access disposition options :
  serves (r ← submit_create d p access disposition options;
          match r with inl create => register_open d create | inr e => mret (RError e) end) ∅.
Proof.
  eapply serves_bind; [apply submit_create_quiet|]. intros [c|e]; [|apply serves_neutral, ret_neutral].
  apply insert_open_serves.
Qed.
Lemma release_serves fh : serves (release fh) ∅.
Proof.
  intros t l b rest n Ht Hb Hr Hn Hl. unfold release. rewrite exec_bind. cbn [locked exec mbind option_bind fst snd].
  set (b1 := set_handles {| opens := delete fh (opens (handles b)); next_fh := next_fh (handles b) |} b).
  assert (room (n + 1) b1) as Hr1.
  { destruct Hr as (Hlt & ? & ?). split_and!; [|done|done]. intros fh' [h Hh]. apply Hlt. cbn in Hh.
    apply lookup_delete_Some in Hh as [_ Hh]. by eexists. }
  destruct (opens (handles b) !! fh) as [h|] eqn:E.
  - assert (serves (_ ← (_ ← submit_close (oh_device_id h) (oh_file_id h); mret tt); mret ROk)
      {[+ (oh_device_id h, oh_file_id h) +]}) as Hs.
    { apply serves_quiet. eapply quiet_bind; [apply close_bind; intros; apply ret_neutral|intros; apply ret_neutral]. }
    apply (Hs t l b1 rest n Ht Hb Hr1 Hn).
    rewrite (files_delete b fh h E) in Hl. fold b1 in Hl. by rewrite (right_id_L ∅ (⊎)) in Hl.
  - cbn. exists l, b1, ROk. split_and!; [done|done|by eapply room_mono; [exact Hr1|lia|]|].
    rewrite (right_id_L ∅ (⊎)) in Hl. replace (files b1) with (files b); [done|].
    unfold files, b1. cbn. by rewrite delete_id.
Qed.

(** An entry that has just been cached is found. *)
Lemma cached_serves {A} p m (k : option FileAttr → proc A) pre :
  (∀ attr, serves (k (Some attr)) pre) →
  serves (_ ← modify_meta (λ mt, <[(d, p) := m]> mt); a ← attr_for d p; k a) pre.
Proof.
  intros Hk t l b rest n Ht Hb Hr Hn Hl. unfold attr_for.
  set (b1 := set_tables (set_meta (<[(d, p) := m]> (meta (tables b))) (tables b)) b).
  assert (meta (tables b1) !! (d, p) = Some m) as Hm by (unfold b1; cbn; apply lookup_insert_eq).
  set (t1 := inode_of d p (tables b1)).
  specialize (Hk (attr_of t1.2 m) t l (set_tables t1.1 b1) rest n Ht Hb Hr Hn Hl).
  rewrite exec_bind. cbn [modify_meta modify locked exec fst snd mbind option_bind]. fold b1.
  rewrite !exec_bind. cbn [gets locked exec fst snd mbind option_bind]. rewrite Hm.
  rewrite exec_bind. unfold inode_for, locked. cbn [exec fst snd]. fold t1. by destruct t1 as [t2 ino].
Qed.

Lemma create_serves parent name mode umask flags : serves (create d parent name mode umask flags) ∅.
Proof.
  apply with_child_serves. intros p. eapply serves_bind; [apply submit_create_quiet|].
  intros [c|e]; [|apply serves_neutral, ret_neutral]. cbn [held].
  do 3 (apply serves_bind_neutral; [auto with quiet|intros ?]).
  apply cached_serves. intros attr. apply insert_open_serves.
Qed.
Lemma mkdir_neutral parent name mode umask : serves (mkdir d parent name mode umask) ∅.
Proof.
  apply with_child_serves. intros p. apply serves_quiet.
  eapply quiet_bind; [apply submit_create_quiet|]. intros [c|e]; [|apply ret_neutral].
  apply close_bind. intros ?. quiet_steps.
Qed.

Lemma set_info_or_close_quiet dev f (close : bool) class buffer k :
  let pre := if close then {[+ (dev, f) +]} else ∅ in
  quiet k pre (λ _, ∅) → quiet (set_info_or_close dev f close class buffer k) pre (λ _, ∅).
Proof.
  intros pre Hk. unfold set_info_or_close. apply neutral_bind; [auto with quiet|]. intros [[]|e]; [done|].
  eapply quiet_bind with (mid := λ _, ∅); [|intros; apply ret_neutral]. subst pre.
  destruct close; [|apply ret_neutral]. apply close_bind. intros. apply ret_neutral.
Qed.
Lemma opt_map_neutral {A B} (f : A → proc B) o : (∀ a, o = Some a → neutral (f a)) → neutral (opt_map f o).
Proof.
  intros Hf. destruct o as [a|]; [|apply ret_neutral]. apply neutral_bind; [by apply Hf|]. intros. apply ret_neutral.
Qed.
Lemma time_or_now_neutral t : neutral (time_or_now_to_systemtime t).
Proof. destruct t; [apply now_neutral|apply ret_neutral]. Qed.

(** The times a request carries fit a FILETIME. *)
Definition time_ok (t : TimeOrNow) : Prop := match t with TNow => True | SpecificTime t => t < END_OF_TIME end.
Definition op_ok (op : fuse_op) : Prop :=
  match op with
  | OpSetattr _ _ _ _ _ atime mtime ctime _ crtime chgtime =>
    from_option time_ok True atime ∧ from_option time_ok True mtime
    ∧ Forall (λ o, from_option (λ t, t < END_OF_TIME) True o) [ctime; crtime; chgtime]
  | _ => True
  end.
Lemma time_or_now_filetime_neutral t : time_ok t → neutral (time_or_now_to_filetime t).
Proof.
  destruct t as [|t]; cbn; intros Ht.
  - intros t l b rest Hlt Hb Hl. cbn. pose proof (filetime_before_end t Hlt).
    destruct (systemtime_to_filetime t) as [x|[]|]; [|done]. by exists l, b, x.
  - by apply lift_neutral, filetime_before_end.
Qed.

Lemma setattr_size_quiet p size dev f (close : bool) k :
  let pre := if close then {[+ (dev, f) +]} else ∅ in
  quiet k pre (λ _, ∅) → quiet (setattr_size d p size dev f close k) pre (λ _, ∅).
Proof.
  intros pre Hk. unfold setattr_size. destruct size; [|done]. apply set_info_or_close_quiet.
  do 3 (apply neutral_bind; [auto with quiet|intros ?]). done.
Qed.
Lemma setattr_times_quiet p a m c cr ch dev f (close : bool) k :
  let pre := if close then {[+ (dev, f) +]} else ∅ in
  op_ok (OpSetattr 0 None None None None a m c None cr ch) →
  quiet k pre (λ _, ∅) → quiet (setattr_times d p a m c cr ch dev f close k) pre (λ _, ∅).
Proof.
  intros pre (Ha & Hm & Hc) Hk. unfold setattr_times. rewrite !Forall_cons in Hc. destruct Hc as (Hc & Hcr & Hch & _).
  pose proof time_or_now_neutral.
  assert (∀ o, from_option (λ t, t < END_OF_TIME) True o →
    neutral (t ← opt_map (λ t, lift (systemtime_to_filetime t)) o; mret (default 0 t))) as Hft.
  { intros o Ho. apply neutral_bind; [|auto with quiet]. apply opt_map_neutral. intros t ->.
    by apply lift_neutral, filetime_before_end. }
  assert (∀ o, from_option time_ok True o →
    neutral (t ← opt_map time_or_now_to_filetime o; mret (default 0 t))) as Hfn.
  { intros o Ho. apply neutral_bind; [|auto with quiet]. apply opt_map_neutral. intros t ->.
    by apply time_or_now_filetime_neutral. }
  do 4 (apply neutral_bind; [first [by apply Hfn|apply Hft; by try destruct ch]|intros ?]).
  apply set_info_or_close_quiet. do 2 (apply neutral_bind; [by apply opt_map_neutral|intros ?]).
  apply neutral_bind; [auto with quiet|done].
Qed.
Lemma setattr_serves ino mode uid gid size a m c fh cr ch :
  op_ok (OpSetattr ino mode uid gid size a m c fh cr ch) →
  serves (setattr d ino mode uid gid size a m c fh cr ch) ∅.
Proof.
  intros Hok. apply with_path_serves. intros p. apply serves_quiet.
  apply neutral_bind; [destruct (_ || _ : bool); [apply modify_meta_neutral|apply ret_neutral]|]. intros _.
  destruct (_ && _ : bool); [quiet_steps|].
  apply neutral_bind; [destruct fh; [apply gets_neutral|apply ret_neutral]|]. intros opened.
  apply quiet_bind with (mid := λ r, match r with inl (dev, f, true) => {[+ (dev, f) +]} | _ => ∅ end).
  { destruct opened as [h|]; [by apply quiet_ret|]. eapply quiet_bind; [apply submit_create_quiet|].
    intros [cr'|e]; by apply quiet_ret. }
  intros [[[dev f] close]|e]; [|apply ret_neutral].
  replace (match close with true => {[+ (dev, f) +]} | false => ∅ end)
    with (if close then {[+ (dev, f) +]} else ∅ : gmultiset file_id) by done.
  assert (quiet (_ ← (if close : bool then _ ← submit_close dev f; mret tt else mret tt);
    a ← attr_for d p; mret (reply_attr a ENOENT)) (if close then {[+ (dev, f) +]} else ∅) (λ _, ∅)) as Hfin.
  { eapply quiet_bind with (mid := λ _, ∅); [|intros; quiet_steps].
    destruct close; [|apply ret_neutral]. apply close_bind. intros. apply ret_neutral. }
  apply setattr_size_quiet. destruct (_ || _ : bool); [by apply setattr_times_quiet|done].
Qed.

Lemma fuse_serves op : op_ok op → serves (fuse order fits fuel d op) ∅.
Proof.
  intros Hop. destruct op; cbn [fuse].
  - apply with_path_serves. intros p. apply serves_neutral. unfold with_name. quiet_steps.
  - apply with_path_serves. intros p. apply serves_neutral. quiet_steps.
  - apply with_path_serves. intros p. apply open_serves.
  - apply with_path_serves. intros p. apply serves_neutral.
    apply neutral_bind; [apply gets_neutral|]. intros [h|]; [|apply ret_neutral].
    apply neutral_bind; [auto with quiet|]. intros [l|e]; [|apply ret_neutral].
    apply neutral_bind; [|intros; quiet_steps].
    generalize (@nil (Z * FileType * rstring)). induction l as [|e l IH]; intros acc; [apply ret_neutral|].
    cbn [name_children]. destruct (join_win p (entry_name e)); [|apply IH].
    apply neutral_bind; [auto with quiet|]. intros. apply IH.
  - apply release_serves.
  - apply with_path_serves. intros p. apply open_serves.
  - apply serves_neutral. unfold read. apply neutral_bind; [apply gets_neutral|]. quiet_steps.
  - apply serves_neutral. unfold write. apply neutral_bind; [apply gets_neutral|]. intros [h|]; [|apply ret_neutral].
    apply neutral_bind; [auto with quiet|]. intros [n|e]; [|apply ret_neutral].
    apply neutral_bind; [apply gets_neutral|]. quiet_steps.
  - apply create_serves.
  - apply mkdir_neutral.
  - apply with_child_serves. intros p. apply serves_neutral. unfold reply_unit. quiet_steps.
  - apply with_child_serves. intros p. apply serves_neutral. unfold reply_unit. quiet_steps.
  - apply with_path_serves. intros p. apply with_path_serves. intros q. apply serves_neutral.
    unfold path_exists, reply_unit. quiet_steps.
  - by apply setattr_serves.
Qed.
End operations.

(** Requests of the kernel, each with the clock it runs at, one after the other. *)
Fixpoint serve_ops {S} (client : S → DriveCommand → S * option Answer)
    (order : gmap (Z * rstring) Z → list ((Z * rstring) * Z)) (fits : list dirent → dirent → bool) (fuel : nat) (d : Z)
    (ops : list (Z * fuse_op)) (s : S) (b : Bridge) : option (S * Bridge * list freply) :=
  match ops with
  | [] => Some (s, b, [])
  | (t, op) :: ops =>
    '(s, b, r) ← exec client t (fuse order fits fuel d op) s b;
    '(s, b, rs) ← serve_ops client order fits fuel d ops s b;
    Some (s, b, r :: rs)
  end.

(** C1. What the mount leaks of the client's files: against any client that ends its directory
    listings, answering each command as it likes, in time, too late or not at all, every run of
    requests of the kernel, one at a time, ends with an answer to each of them and nothing left
    waiting; and then the files open on the client are those of the open handles, whatever was open
    before, and those whose [Create] was answered after the thread had given up: these are open for
    ever, since the late answer is dropped and nobody closes them. *)
Theorem fuse_leaks_no_file {S} (client : S → DriveCommand → S * reply) order fits fuel d ops l b rest :
  (∀ s d f pattern, listing_ends client fuel s d f (Some pattern)) →
  Forall (λ r, r.1 < END_OF_TIME ∧ op_ok r.2) ops →
  quiescent b → room (len ops) b → balanced rest (files b) l →
  ∃ l' b' rs, serve_ops (counting client) order fits fuel d ops l b = Some (l', b', rs)
    ∧ length rs = length ops ∧ quiescent b' ∧ l_open l' = rest ⊎ files b' ⊎ l_late l'.
Proof.
  intros Hends Hops. revert l b. induction Hops as [|[t op] ops [Ht Hop] _ IH]; intros l b Hb Hr Hl.
  { by exists l, b, []. }
  destruct (fuse_serves client order fits fuel d Hends op Hop t l b rest (len ops)) as (l1 & b1 & r & E & Hb1 & Hr1 & Hl1);
    [done|done| |unfold len; lia|by rewrite (right_id_L ∅ (⊎))|].
  { by replace (len ops + 1) with (len ((t, op) :: ops)) by (unfold len; cbn [length]; lia). }
  destruct (IH l1 b1 Hb1 Hr1 Hl1) as (l2 & b2 & rs & E2 & Hlen & ? & ?).
  exists l2, b2, (r :: rs). cbn [serve_ops]. rewrite E. cbn [mbind option_bind]. rewrite E2. cbn. by rewrite Hlen.
Qed.

(** A client that does all it is asked; its files are numbered. *)
Definition obliging (s : Z) (c : DriveCommand) : Z * option Answer :=
  match c with
  | Create _ _ _ _ _ _ => (s + 1, Some (ACreate (inl {| cr_file_id := s; information := 1 |})))
  | Close _ _ _ => (s, Some (AClose 0))
  | Read _ _ _ _ _ => (s, Some (ARead (inl [])))
  | Write _ _ _ data _ => (s, Some (AWrite (inl (len data))))
  | QueryDirectory _ _ _ _ => (s, Some (AQueryDir (inl None)))
  | SetInformation _ _ _ _ _ => (s, Some (ASetInfo (inl tt)))
  end.
(** The same client, but late with its first file, and with a file c in every directory. *)
Definition tardy (s : Z) (c : DriveCommand) : Z * reply :=
  let '(s', a) := obliging s c in
  (s', match c with
       | Create _ _ _ _ _ _ => from_option (if s =? 0 then TooLate else InTime) Silent a
       | QueryDirectory _ _ (Some _) _ =>
         InTime (AQueryDir (inl (Some {| file_index := 0; allocation_size := 0; file_attributes := 128; creation_time := 0; last_access_time := 0;
           last_write_time := 0; change_time := 0; end_of_file := 5; file_name := lit "c" |})))
       | _ => from_option InTime Silent a
       end).
Definition result_of {S A} (r : option (S * Bridge * A)) : option A := snd <$> r.
Definition fresh_bridge : Bridge := ensure_root 7 (Bridge_new 1000 1000).
Definition tardy_run :=
  serve_ops (counting tardy) map_to_list (λ _ _, true) 2 7
    [(0, OpCreate 1 [97] 420 18 2); (0, OpLookup 1 (lit "c")); (0, OpCreate 1 [98] 420 18 2)]
    {| l_state := 0; l_open := ∅; l_late := ∅ |} fresh_bridge.

(** The file that was created too late is open on the client, and no handle stands for it. *)
Lemma fuse_leaks_no_file_witness : ∃ l' b' rs,
  tardy_run = Some (l', b', rs)
  ∧ match rs with [RError ETIMEDOUT; REntry _; RCreated _ 1] => True | _ => False end
  ∧ quiescent b' ∧ l_open l' = ∅ ⊎ files b' ⊎ l_late l'
  ∧ files b' = {[+ (7, 2) +]} ∧ l_late l' = {[+ (7, 0) +]}.
Proof.
  destruct (fuse_leaks_no_file tardy map_to_list (λ _ _, true) 2 7
    [(0, OpCreate 1 [97] 420 18 2); (0, OpLookup 1 (lit "c")); (0, OpCreate 1 [98] 420 18 2)]
    {| l_state := 0; l_open := ∅; l_late := ∅ |} fresh_bridge ∅) as (l' & b' & rs & E & _ & Hq & Ho).
  - intros s d f pattern tag. cbn. intros tag'. done.
  - repeat constructor.
  - split_and!; vm_compute; reflexivity.
  - split; [|by vm_compute]. intros fh [h Hh]. change ((∅ : gmap Z OpenHandle) !! fh = Some h) in Hh.
    by rewrite lookup_empty in Hh.
  - vm_compute. reflexivity.
  - fold tardy_run in E.
    assert ((λ r, (files r.1.2, l_late r.1.1)) <$> tardy_run = Some ({[+ (7, 2) +]}, {[+ (7, 0) +]})) as H
      by (apply (bool_decide_eq_true_1 _); vm_compute; reflexivity).
    assert (from_option (λ r, match r.2 with [RError ETIMEDOUT; REntry _; RCreated _ 1] => True | _ => False end) False
      tardy_run) as Hrs by (vm_compute; exact I).
    rewrite E in H, Hrs. cbn in H. injection H as Hf Hl. exists l', b', rs. exact (conj E (conj Hrs (conj Hq (conj Ho (conj Hf Hl))))).
Defined.

(** ** A rename in the tables *)

Section rename.
Context {S : Type} (client : S → DriveCommand → S * option Answer)
  (order : gmap (Z * rstring) Z → list ((Z * rstring) * Z)) (Horder : ∀ m, order m ≡ₚ map_to_list m).

(** A path that no rename of the list is about. *)
Lemma remap_fold_other d rs d' x : ∀ t, (d' = d → x ∉ rs.*1.*1 ∧ x ∉ rs.*1.*2) →
  let t' := foldl (remap_one d) t rs in
  path_to_ino t' !! (d', x) = path_to_ino t !! (d', x) ∧ meta t' !! (d', x) = meta t !! (d', x).
Proof.
  induction rs as [|[[o n] i] rs IH]; intros t Hx; [done|]. cbn [foldl].
  destruct (IH (remap_one d t (o, n, i))) as [-> ->].
  { intros E. destruct (Hx E) as [Ho Hn]. cbn in Ho, Hn. split; set_solver. }
  assert ((d, o) ≠ (d', x) ∧ (d, n) ≠ (d', x)) as [Ho Hn].
  { split; intros [= <- <-]; destruct (Hx eq_refl) as [Ho Hn]; cbn in Ho, Hn; set_solver. }
  cbn. rewrite lookup_insert_ne, lookup_delete_ne by done. split; [done|].
  destruct (meta t !! (d, o)); [|done]. by rewrite lookup_insert_ne, lookup_delete_ne.
Qed.

Lemma remap_fold_moved d rs : ∀ t, NoDup rs.*1.*1 → NoDup rs.*1.*2 → (∀ o, o ∈ rs.*1.*1 → o ∉ rs.*1.*2) →
  let t' := foldl (remap_one d) t rs in
  ∀ o n i, (o, n, i) ∈ rs →
    path_to_ino t' !! (d, n) = Some i ∧ path_to_ino t' !! (d, o) = None
    ∧ meta t' !! (d, n) = or (meta t !! (d, o)) (meta t !! (d, n)).
Proof.
  induction rs as [|[[o n] i] rs IH]; intros t Ho Hn Hdis t' o' n' i' Hin; [by apply elem_of_nil in Hin|].
  subst t'. cbn [foldl]. rewrite !fmap_cons in *. cbn [fst snd] in *.
  apply NoDup_cons in Ho as [Hno Ho], Hn as [Hnn Hn].
  assert (o ≠ n) as Hne by (intros ->; apply (Hdis n); by left).
  apply elem_of_cons in Hin as [[= -> -> ->]|Hin].
  - pose proof (remap_fold_other d rs d o (remap_one d t (o, n, i))) as Hoo.
    destruct (remap_fold_other d rs d n (remap_one d t (o, n, i))) as [-> ->].
    { intros _. split; [|done]. intros Hc. apply (Hdis n); [by right|by left]. }
    destruct Hoo as [-> _]; [intros _; split; [done|]; intros Hc; apply (Hdis o); [by left|by right]|].
    cbn. rewrite lookup_insert_eq, lookup_insert_ne, lookup_delete_eq by congruence. split; [done|split; [done|]].
    destruct (meta t !! (d, o)); [by rewrite lookup_insert_eq|done].
  - assert (o' ∈ rs.*1.*1 ∧ n' ∈ rs.*1.*2) as [Ho' Hn'].
    { split; apply list_elem_of_fmap; exists (o', n'); (split; [done|]); apply list_elem_of_fmap; by exists (o', n', i'). }
    destruct (IH (remap_one d t (o, n, i)) Ho Hn) with o' n' i' as (-> & -> & ->); [|done|].
    { intros x Hx Hxn. apply (Hdis x); by right. }
    split; [done|split; [done|]].
    assert (o' ≠ o ∧ n' ≠ n) as [? ?] by (split; congruence).
    assert (o' ≠ n) by (intros ->; apply (Hdis n); [by right|by left]).
    assert (n' ≠ o) by (intros ->; apply (Hdis o); [by left|by right]).
    cbn. destruct (meta t !! (d, o)); [|done].
    by rewrite !lookup_insert_ne, !lookup_delete_ne by congruence.
Qed.

Lemma remapped_inj old new p q n : remapped old new p = Some n → remapped old new q = Some n → p = q.
Proof.
  unfold remapped. intros Hp Hq. destruct (decide (p = old)) as [->|Hpo], (decide (q = old)) as [->|Hqo]; [done|..];
    rewrite ?(bool_decide_true (old = old)) in * by done; rewrite ?bool_decide_false in * by done.
  - injection Hp as <-. case_bool_decide; [|done]. injection Hq as Hq. apply (f_equal length) in Hq.
    rewrite length_app in Hq. cbn in Hq. lia.
  - injection Hq as <-. case_bool_decide; [|done]. injection Hp as Hp. apply (f_equal length) in Hp.
    rewrite length_app in Hp. cbn in Hp. lia.
  - case_bool_decide as Hpp; [|done]. case_bool_decide as Hqp; [|done].
    injection Hp as <-. injection Hq as Hq.
    apply app_inv_head in Hq. injection Hq as Hq. destruct Hpp as [a ->], Hqp as [c ->].
    rewrite !drop_app_length in Hq. congruence.
Qed.
(** A new name is at or below the new path. *)
Lemma remap_prefix_below new r : remap_prefix new `prefix_of` new ++ BACKSLASH :: r.
Proof.
  unfold remap_prefix. case_bool_decide as HR; [rewrite HR; by eexists|]. exists r. by rewrite <-app_assoc.
Qed.
Lemma remapped_below old new x p n : remapped old new p = Some n → is_Some (remapped new x n).
Proof.
  unfold remapped at 1. case_bool_decide.
  - intros [= <-]. unfold remapped. rewrite bool_decide_true by done. by eexists.
  - case_bool_decide; [|done]. intros [= <-]. unfold remapped. case_bool_decide; [by eexists|].
    rewrite bool_decide_true by apply remap_prefix_below. by eexists.
Qed.
Definition at_or_below (path : rstring) (p : rstring) : Prop := is_Some (remapped path path p).

Lemma submit_tables d old new replace t s b s' b' :
  quiescent b → exec client t (rename_path order d old new replace) s b = Some (s', b', inl tt) →
  tables b' = remap_tables order d old new (tables b).
Proof.
  intros Hb. unfold rename_path, attempt. rewrite exec_bind. unfold submit_create. rewrite exec_bind.
  destruct (exec_request client PCreate (Create d old (bits [FILE_READ_DATA; SYNCHRONIZE]) FILE_OPEN
    FILE_SYNCHRONOUS_IO_NONALERT) t s b) as (b1 & Hb1 & _ & Ht1 & ->); [done|done|].
  destruct (client s _) as [s1 a1]. cbn [mbind option_bind exec mret proc_mret].
  destruct (heard PCreate a1) as [[[c|st]|?|?|?|?|?]| |]; try done.
  rewrite exec_bind. unfold submit_set_information. rewrite exec_bind.
  destruct (exec_request client PSetInfo (SetInformation d (cr_file_id c) FILE_RENAME_INFORMATION
    (rename_information_buffer new replace)) t s1 b1) as (b2 & Hb2 & _ & Ht2 & ->); [done|done|].
  destruct (client s1 _) as [s2 a2]. cbn [mbind option_bind exec mret proc_mret].
  rewrite exec_bind. unfold submit_close. rewrite exec_bind.
  destruct (exec_request client PClose (Close d (cr_file_id c)) t s2 b2) as (b3 & Hb3 & _ & Ht3 & ->); [done|done|].
  destruct (client s2 _) as [s3 a3]. cbn [mbind option_bind exec mret proc_mret].
  destruct (heard PSetInfo a2) as [[?|?|?|?|?|[[]|st]]| |]; try done.
  cbn. intros [= _ <-]. cbn. by rewrite Ht3, Ht2, Ht1.
Qed.

(** C2. A rename that the client accepts moves the tree in the tables, in whatever order the hash map
    is walked: when nothing is known at or below the new path, the old path and everything below it
    keep their inodes and their cached attributes under the new names, the inodes lead to the new
    names, the old names are gone, and nothing else changes. *)
Theorem rename_moves_tree d old new replace t s b s' b' :
  quiescent b → tables_ok (tables b) →
  confined old → old ≠ ROOT → confined new → new ≠ ROOT →
  (∀ p i, path_to_ino (tables b) !! (d, p) = Some i → ¬ at_or_below new p) →
  exec client t (rename_path order d old new replace) s b = Some (s', b', inl tt) →
  (∀ p n i, path_to_ino (tables b) !! (d, p) = Some i → remapped old new p = Some n →
     path_to_ino (tables b') !! (d, n) = Some i ∧ ino_to_path (tables b') !! (d, i) = Some n
     ∧ path_to_ino (tables b') !! (d, p) = None
     ∧ meta (tables b') !! (d, n) = or (meta (tables b) !! (d, p)) (meta (tables b) !! (d, n)))
  ∧ (∀ d' p, d' ≠ d ∨ ¬ at_or_below old p ∧ ¬ at_or_below new p →
       path_to_ino (tables b') !! (d', p) = path_to_ino (tables b) !! (d', p)
       ∧ meta (tables b') !! (d', p) = meta (tables b) !! (d', p)).
Proof.
  intros Hb Ht Hoc HoR Hnc HnR Hfree E. rewrite (submit_tables _ _ _ _ _ _ _ _ _ Hb E).
  set (rs := remaps order d old new (tables b)).
  pose proof (in_remaps order Horder d old new (tables b)) as Hin. fold rs in Hin.
  pose proof (NoDup_fmap_1 _ _ (remaps_NoDup order Horder d old new (tables b) Ht)) as Hnd. fold rs in Hnd.
  assert (∀ x, x ∈ rs.*1.*1 → ∃ n i, (x, n, i) ∈ rs) as Hol.
  { intros x ([x' n] & -> & ([[o n'] i] & [= -> ->] & Hr)%list_elem_of_fmap)%list_elem_of_fmap. by exists n', i. }
  assert (∀ x, x ∈ rs.*1.*2 → ∃ o i, (o, x, i) ∈ rs) as Hnl.
  { intros x ([o x'] & -> & ([[o' n'] i] & [= -> ->] & Hr)%list_elem_of_fmap)%list_elem_of_fmap. by exists o', i. }
  split.
  - intros p n i Hp Hn. assert ((p, n, i) ∈ rs) as Hr by by apply Hin.
    pose proof (remap_tables_step order Horder d old new (tables b) Ht Hoc HoR Hnc HnR) as [Hok _].
    destruct (remap_fold_moved d rs (tables b)) with p n i as (H1 & H2 & H3); [|  | |done|].
    + rewrite <-list_fmap_compose. apply NoDup_fmap_2_strong; [|done].
      intros [[o1 n1] i1] [[o2 n2] i2] [? ?]%Hin [? ?]%Hin [= ->]. cbn in *. congruence.
    + rewrite <-list_fmap_compose. apply NoDup_fmap_2_strong; [|done].
      intros [[o1 n1] i1] [[o2 n2] i2] [? ?]%Hin [? ?]%Hin [= ->].
      assert (o1 = o2) as -> by by eapply remapped_inj. congruence.
    + intros x (n1 & i1 & [Hx _]%Hin)%Hol (o2 & i2 & [_ Hx2]%Hin)%Hnl.
      apply (Hfree x i1 Hx). by eapply remapped_below.
    + split; [done|split; [by apply Hok|split; [done|done]]].
  - intros d' p Hp. apply remap_fold_other. intros ->. destruct Hp as [|[Ho Hn]]; [done|]. split.
    + intros (n1 & i1 & [_ Hx]%Hin)%Hol. apply Ho. unfold at_or_below. revert Hx. unfold remapped.
      case_bool_decide; [by eexists|]. case_bool_decide; [by eexists|done].
    + intros (o2 & i2 & [_ Hx2]%Hin)%Hnl. apply Hn. by eapply remapped_below.
Qed.
End rename.

#[export] Instance at_or_below_dec path p : Decision (at_or_below path p).
Proof. unfold at_or_below. apply _. Defined.

(** A drive with a directory and a file in it. *)
Definition known (paths : list rstring) (b : Bridge) : Bridge :=
  set_tables (foldl (λ t p, (inode_of 7 p t).1) (tables b) paths) b.
Definition known_tree : Bridge := known [lit "\a"; lit "\a\b"] fresh_bridge.

Lemma confined_a : confined (lit "\a").
Proof. by apply (join_win_confined ROOT (lit "a")); [apply confined_ROOT|]. Qed.
Lemma confined_x : confined (lit "\x").
Proof. by apply (join_win_confined ROOT (lit "x")); [apply confined_ROOT|]. Qed.
Lemma known_tree_ok : tables_ok (tables known_tree).
Proof.
  assert (confined (lit "\a\b")) as Hab by (by apply (join_win_confined (lit "\a") (lit "b")); [apply confined_a|]).
  assert (tables_ok (tables fresh_bridge)) as H0.
  { apply (cstep_rely (Bridge_new 1000 1000) fresh_bridge ∅); [apply Bridge_new_inv|apply cstep_root]. }
  unfold known_tree, known. cbn [tables set_tables foldl].
  assert (∀ t p, tables_ok t → next_ino t < 1000 → confined p → tables_ok (inode_of 7 p t).1) as H.
  { intros t p Ht Hn Hp. by apply inode_of_step; [|done|lia]. }
  apply H; [|vm_compute; reflexivity|done]. apply H; [done|vm_compute; reflexivity|apply confined_a].
Qed.

Lemma rename_moves_tree_witness :
  match exec obliging 0 (rename_path map_to_list 7 (lit "\a") (lit "\x") false) 0 known_tree with
  | Some (_, b', inl tt) =>
    path_to_ino (tables known_tree) !! (7, lit "\a\b") = Some 3
    ∧ path_to_ino (tables b') !! (7, lit "\x\b") = Some 3 ∧ ino_to_path (tables b') !! (7, 3) = Some (lit "\x\b")
    ∧ path_to_ino (tables b') !! (7, lit "\a\b") = None
  | _ => False
  end.
Proof.
  assert (option_map (λ r, match r with inl tt => true | inr _ => false end)
    (result_of (exec obliging 0 (rename_path map_to_list 7 (lit "\a") (lit "\x") false) 0 known_tree)) = Some true) as Hr
    by (vm_compute; reflexivity).
  destruct (exec _ _ _ _ known_tree) as [[[s b'] [[]|e]]|] eqn:E; try discriminate Hr.
  assert (path_to_ino (tables known_tree) !! (7, lit "\a\b") = Some 3) as H3 by (vm_compute; reflexivity).
  split; [done|].
  assert (Forall (λ e : Z * rstring * Z, ¬ at_or_below (lit "\x") e.1.2) (map_to_list (path_to_ino (tables known_tree))))
    as Hfree by (apply (bool_decide_eq_true_1 _); vm_compute; reflexivity).
  destruct (rename_moves_tree obliging map_to_list (λ m, reflexivity (map_to_list m)) 7 (lit "\a") (lit "\x") false 0 0
    known_tree s b') as [H _]; [split_and!; vm_compute; reflexivity|apply known_tree_ok|apply confined_a|done|
    apply confined_x|done| |done|].
  - intros p i Hp. apply (proj1 (Forall_forall _ _) Hfree (7, p, i)). by apply elem_of_map_to_list.
  - destruct (H (lit "\a\b") (lit "\x\b") 3 H3 eq_refl) as (? & ? & ? & _). done.
Defined.

(** A rename over a file that has an inode leaves that inode leading to the new path, which now is
    another file's: the kernel's requests for the replaced file are served with the other one. *)
Lemma replaced_inode_keeps_path :
  let t := tables (known [lit "\a"; lit "\x"] fresh_bridge) in
  let t' := remap_tables map_to_list 7 (lit "\a") (lit "\x") t in
  path_to_ino t !! (7, lit "\a") = Some 2 ∧ path_to_ino t !! (7, lit "\x") = Some 3
  ∧ path_to_ino t' !! (7, lit "\x") = Some 2
  ∧ ino_to_path t' !! (7, 2) = Some (lit "\x") ∧ ino_to_path t' !! (7, 3) = Some (lit "\x").
Proof. split_and!; vm_compute; reflexivity. Qed.

(** ** A change of owner *)

Section handoff.
Context {S : Type} (client : S → DriveCommand → S * option Answer)
  (order : gmap (Z * rstring) Z → list ((Z * rstring) * Z)) (fits : list dirent → dirent → bool) (fuel : nat).

(** A request of the kernel to a mount: the active backend serves it. *)
Definition serve_op (name : rstring) (t : Z) (op : fuse_op) (s : S) (w : world) : option (S * world * freply) :=
  slot ← slots (registry w) !! name;
  b ← bridges w !! ab_bridge (active slot);
  '(s, b, r) ← exec client t (fuse order fits fuel (ab_device_id (active slot)) op) s b;
  Some (s, {| registry := registry w; bridges := <[ab_bridge (active slot) := b]> (bridges w);
              joined_by := joined_by w |}, r).
End handoff.

(** A client that remembers what it was asked, and answers as it likes. *)
Definition logged (answer : DriveCommand → option Answer) (log : list DriveCommand) (c : DriveCommand)
  : list DriveCommand * option Answer := (log ++ [c], answer c).
(** The open file a command is about. *)
Definition acts_on (c : DriveCommand) : option file_id :=
  match c with
  | Close d f _ | Read d f _ _ _ | Write d f _ _ _ | QueryDirectory d f _ _ | SetInformation d f _ _ _ => Some (d, f)
  | Create _ _ _ _ _ _ => None
  end.
(** The requests of a program that uses an open handle. *)
Definition handle_of (op : fuse_op) : option Z :=
  match op with
  | OpRead fh _ _ | OpWrite _ fh _ _ | OpRelease fh => Some fh
  | _ => None
  end.

Lemma one_request answer p (c : Z → DriveCommand) t log b :
  (∀ tag, command_tag (c tag) = tag) → quiescent b →
  ∃ b' o, exec (logged answer) t (request p c) log b = Some (log ++ [c (next_tag (wire b))], b', o).
Proof.
  intros Hc Hb. destruct (exec_request (logged answer) p c t log b Hc Hb) as (b' & _ & _ & _ & ->). by eexists _, _.
Qed.

(** An operation on a handle does to the client's files what the bridge has under the handle. *)
Lemma handle_op_acts answer order fits fuel d t op fh b : quiescent b → handle_of op = Some fh →
  ∃ log b' r, exec (logged answer) t (fuse order fits fuel d op) [] b = Some (log, b', r)
    ∧ omap acts_on log = from_option (λ h, [(oh_device_id h, oh_file_id h)]) [] (opens (handles b) !! fh).
Proof.
  intros Hb Hop. destruct op as [| | | |fh'| |fh' off size|ino fh' off data| | | | | |]; try done;
    injection Hop as ->; cbn [fuse]; unfold release, read, write, get_open; rewrite exec_bind;
    cbn [gets locked exec fst snd mbind option_bind]; destruct (opens (handles b) !! fh) as [h|];
    cbn [from_option]; try (by eexists _, _, _).
  - unfold submit_close. rewrite !exec_bind.
    edestruct (one_request answer PClose (Close (oh_device_id h) (oh_file_id h))) as (b' & o & ->); [done|exact Hb|].
    cbn. by eexists _, _, _.
  - unfold submit_read. rewrite !exec_bind.
    edestruct (one_request answer PRead (Read (oh_device_id h) (oh_file_id h) size off)) as (b' & o & ->);
      [done|exact Hb|].
    cbn. by eexists _, _, _.
  - unfold submit_write. rewrite !exec_bind.
    edestruct (one_request answer PWrite (Write (oh_device_id h) (oh_file_id h) off data)) as (b' & o & ->);
      [done|exact Hb|].
    cbn [mbind option_bind exec mret proc_mret]. destruct o as [[?|?|?|[n|st]|?|?]| |]; try (by eexists _, _, _).
    unfold path_for. rewrite exec_bind. cbn [gets locked exec fst snd mbind option_bind].
    destruct (ino_to_path (tables b') !! (oh_device_id h, ino)); cbn; by eexists _, _, _.
Qed.

(** C4. A change of owner leaves the kernel's handles to the bridge that takes over: when the
    connection that serves a mount goes and another member follows it, a read, a write or a release
    through a handle acts on the file that the new connection's bridge has under that number, and on
    none if it has none; what the handle stood for when the program opened it does not matter. *)
Theorem handoff_reuses_handles first_key answer order fits fuel w name slot k m b2 t op fh :
  slots (registry w) !! name = Some slot →
  first_key (delete (owner_conn slot) (members slot)) = Some k →
  delete (owner_conn slot) (members slot) !! k = Some m →
  bridges w !! mm_bridge m = Some b2 → mm_bridge m ≠ ab_bridge (active slot) → quiescent b2 →
  handle_of op = Some fh →
  let left := leave first_key name (owner_conn slot) (registry w) (bridges w) in
  ∃ log w' r,
    serve_op (logged answer) order fits fuel name t op []
      {| registry := left.1; bridges := left.2; joined_by := joined_by w |} = Some (log, w', r)
    ∧ omap acts_on log = from_option (λ h, [(oh_device_id h, oh_file_id h)]) [] (opens (handles b2) !! fh).
Proof.
  intros Hs Hk Hm Hb Hne Hq Hop left.
  assert (left = (set_slots (<[name := {| mount_point := mount_point slot; owner_conn := k;
      active := {| ab_bridge := mm_bridge m; ab_device_id := mm_device_id m |};
      members := delete (owner_conn slot) (members slot) |}]> (slots (registry w))) (registry w),
    alter (λ b, abort_pending (clear_opens b)) (ab_bridge (active slot))
      (alter (ensure_root (mm_device_id m)) (mm_bridge m) (bridges w)))) as ->.
  { subst left. unfold leave. rewrite Hs, decide_False by (intros E; by rewrite E, lookup_empty in Hm).
    by rewrite Z.eqb_refl, Hk, Hm. }
  unfold serve_op. cbn [fst snd registry bridges set_slots slots]. rewrite lookup_insert_eq.
  cbn [mbind option_bind active ab_bridge ab_device_id].
  rewrite lookup_alter_ne by done. rewrite lookup_alter_eq, Hb. cbn [fmap option_fmap option_map].
  set (b := ensure_root (mm_device_id m) b2).
  assert (quiescent b ∧ handles b = handles b2) as [Hqb Hh]
    by (unfold b, ensure_root; by destruct (path_to_ino _ !! _)).
  rewrite <-Hh. cbn [mbind option_bind].
  destruct (handle_op_acts answer order fits fuel (mm_device_id m) t op fh b Hqb Hop) as (log & b' & r & -> & Hl).
  cbn [mbind option_bind]. by eexists _, _, _.
Qed.

(** Each connection's client numbers its files as it likes and gives a file's content. *)
Definition drive_client (file_of : Z → Z) (content : Z → bytes) (s : unit) (c : DriveCommand) : unit * option Answer :=
  (s, match c with
      | Create d _ _ _ _ _ => Some (ACreate (inl {| cr_file_id := file_of d; information := 1 |}))
      | Close _ _ _ => Some (AClose 0)
      | Read _ f _ _ _ => Some (ARead (inl (content f)))
      | Write _ _ _ data _ => Some (AWrite (inl (len data)))
      | QueryDirectory _ _ _ _ => Some (AQueryDir (inl None))
      | SetInformation _ _ _ _ _ => Some (ASetInfo (inl tt))
      end).
(** Two connections share the mount C; a program creates and keeps open the file a, which gets the
    handle 1; the connection that serves it goes; another program creates the file b. *)
Definition handoff_scenario (file_of : Z → Z) (content : Z → bytes) : option (freply * freply * freply) :=
  let serve := serve_op (drive_client file_of content) map_to_list (λ _ _, true) 9 (lit "C") 0 in
  '(_, w, r1) ← serve (OpCreate 1 [97] 420 18 2) tt two_connections;
  let w := disconnect some_key some_names 1 w in
  '(_, w, r2) ← serve (OpCreate 1 [98] 420 18 2) tt w;
  '(_, _, r3) ← serve (OpRead 1 0 4096) tt w;
  Some (r1, r2, r3).
(** The second file gets the handle 1 too, and a read through the first file's handle returns the
    content of the second. *)
Example handoff_reads_other_file file_of content : ∃ a1 a2,
  handoff_scenario file_of content = Some (RCreated a1 1, RCreated a2 1, RData (content (file_of 20))).
Proof. eexists _, _. vm_compute. reflexivity. Qed.

(** Two connections share the mount C, the second has files 5 and 6 of its device 20 open under the
    handles 1 and 2 of its bridge; the first goes, and a program that was given the handle 2 before
    writes. *)
Definition shared_open : world :=
  {| registry := registry two_connections;
     bridges := alter (set_handles {| opens := {[1 := {| oh_device_id := 20; oh_file_id := 5 |};
                                                  2 := {| oh_device_id := 20; oh_file_id := 6 |}]}; next_fh := 3 |})
                  2 (bridges two_connections);
     joined_by := joined_by two_connections |}.
#[local] Instance quiescent_dec b : Decision (quiescent b).
Proof. unfold quiescent. apply _. Defined.

Lemma handoff_reuses_handles_witness :
  let left := leave some_key (lit "C") 1 (registry shared_open) (bridges shared_open) in
  ∃ log w' r,
    serve_op (logged (λ _, None)) map_to_list (λ _ _, true) 9 (lit "C") 0 (OpWrite 2 2 0 [1; 2; 3]) []
      {| registry := left.1; bridges := left.2; joined_by := joined_by shared_open |} = Some (log, w', r)
    ∧ omap acts_on log = [(20, 6)].
Proof.
  assert (option_map (λ s, (owner_conn s, some_key (delete (owner_conn s) (members s)),
      mm_bridge <$> delete (owner_conn s) (members s) !! 2, ab_bridge (active s)))
    (slots (registry shared_open) !! lit "C") = Some (1, Some 2, Some 2, 1)) as H by (vm_compute; reflexivity).
  assert (option_map (λ b, (bool_decide (quiescent b), oh_device_id <$> opens (handles b) !! 2,
      oh_file_id <$> opens (handles b) !! 2)) (bridges shared_open !! 2) = Some (true, Some 20, Some 6)) as Hq
    by (vm_compute; reflexivity).
  destruct (slots (registry shared_open) !! lit "C") as [slot|] eqn:Es; [|discriminate H].
  cbn in H. injection H as Ho Hk Hm Ha.
  destruct (delete (owner_conn slot) (members slot) !! 2) as [m|] eqn:Em; [|discriminate Hm].
  cbn in Hm. injection Hm as Hm.
  destruct (bridges shared_open !! 2) as [b2|] eqn:Eb; [|discriminate Hq].
  cbn [option_map] in Hq. injection Hq as Hqb Hd Hf. apply bool_decide_eq_true_1 in Hqb.
  destruct (handoff_reuses_handles some_key (λ _, None) map_to_list (λ _ _, true) 9 shared_open (lit "C") slot 2 m b2 0
    (OpWrite 2 2 0 [1; 2; 3]) 2) as (log & w' & r & E & Hl);
    [exact Es|exact Hk|exact Em|by rewrite Hm|by rewrite Hm, Ha|exact Hqb|exact eq_refl|].
  rewrite Ho in E. exists log, w', r. split; [exact E|]. rewrite Hl.
  destruct (opens (handles b2) !! 2) as [h|]; [|discriminate Hd].
  injection Hd as Hd. injection Hf as Hf. cbn. by rewrite Hd, Hf.
Defined.
