(* ===== verification/RdpdrSafety.v ===== *)
(** What [RdpdrChannel] promises its consumer: every command is answered once, whatever
    the client sends, and the tables stay bounded. *)
From S2P Require Import Prelude Cursor Utf Svc RdpdrPdu Rdpdr DriveSelfTest.

(** ** A consumer that keeps a log *)

(** A command, as its answer names it: the request and its tag. *)
Definition key (command : DriveCommand) : Z * Z := (command_request command 0).1.

Record logged (C : Type) := { base : C; issued : list (Z * Z); replied : list (Z * Z) }.
Arguments base {C} _.
Arguments issued {C} _.
Arguments replied {C} _.

Section logged.
Context {C : Type} `{!DriveConsumer C}.

(** The commands a call returns are issued; a reply answers its key. *)
Definition log_call (l : logged C) (answered : list (Z * Z)) (r : C * list DriveCommand)
  : logged C * list DriveCommand :=
  ({| base := r.1; issued := issued l ++ (key <$> r.2); replied := replied l ++ answered |}, r.2).

Global Instance logged_consumer : DriveConsumer (logged C) := {
  on_device_ready l d t n := log_call l [] (on_device_ready (base l) d t n);
  on_create_reply l tag r := log_call l [(IRP_MJ_CREATE, tag)] (on_create_reply (base l) tag r);
  on_close_reply l tag r := log_call l [(IRP_MJ_CLOSE, tag)] (on_close_reply (base l) tag r);
  on_read_reply l tag r := log_call l [(IRP_MJ_READ, tag)] (on_read_reply (base l) tag r);
  on_write_reply l tag r := log_call l [(IRP_MJ_WRITE, tag)] (on_write_reply (base l) tag r);
  on_query_directory_reply l tag r :=
    log_call l [(IRP_MJ_DIRECTORY_CONTROL, tag)] (on_query_directory_reply (base l) tag r);
  on_set_information_reply l tag r :=
    log_call l [(IRP_MJ_SET_INFORMATION, tag)] (on_set_information_reply (base l) tag r);
  poll_commands l := log_call l [] (poll_commands (base l))
}.

(** The consumer before any call. *)
Definition fresh (c : C) : logged C := {| base := c; issued := []; replied := [] |}.
End logged.

(** The requests on the wire that are not answered. *)
Definition op_key (p : PendingOp) : Z * Z := (major_function p, op_request_tag p).
Definition outstanding {C} (ch : RdpdrChannel C) : list (Z * Z) :=
  (λ x, op_key x.2) <$> map_to_list (pending ch).

(** ** Invariant *)

Definition is_major (m : Z) : Prop :=
  m ∈ [IRP_MJ_CREATE; IRP_MJ_CLOSE; IRP_MJ_READ; IRP_MJ_WRITE; IRP_MJ_DIRECTORY_CONTROL;
       IRP_MJ_SET_INFORMATION].

Section invariant.
Context {C : Type} `{!DriveConsumer C}.
Implicit Types (ch : RdpdrChannel (logged C)) (q : list DriveCommand).

(** With [q] in the queue and [lost] dropped.  Completion numbers are not used again
    before [2 ^ 32] commands. *)
Record channel_ok ch q (lost : list (Z * Z)) : Prop := {
  ok_buffer : len (incoming_buffer ch) ≤ MAX_RDPDR_MESSAGE_SIZE ∧ bytes_ok (incoming_buffer ch);
  ok_devices : Z.of_nat (size (devices ch)) ≤ MAX_DEVICES;
  ok_pending : Z.of_nat (size (pending ch)) ≤ MAX_PENDING_OPS;
  ok_majors : ∀ id p, pending ch !! id = Some p → is_major (major_function p);
  ok_balance : len (issued (consumer ch)) < 2 ^ 32 →
    issued (consumer ch) ≡ₚ replied (consumer ch) ++ outstanding ch ++ (key <$> q) ++ lost
    ∧ 0 ≤ next_completion_id ch ∧ next_completion_id ch + len q ≤ len (issued (consumer ch))
    ∧ ∀ id, is_Some (pending ch !! id) → id < next_completion_id ch }.

Lemma outstanding_insert ch id p next :
  pending ch !! id = None →
  outstanding (set_pending ch next (<[id := p]> (pending ch))) ≡ₚ op_key p :: outstanding ch.
Proof. intros H. exact (fmap_Permutation (λ x, op_key x.2) _ _ (map_to_list_insert _ _ p H)). Qed.

Lemma outstanding_delete ch id p next :
  pending ch !! id = Some p →
  outstanding ch ≡ₚ op_key p :: outstanding (set_pending ch next (delete id (pending ch))).
Proof.
  intros H. symmetry. exact (fmap_Permutation (λ x, op_key x.2) _ _ (map_to_list_delete _ _ _ H)).
Qed.

Lemma key_major command : is_major (key command).1.
Proof. unfold is_major. destruct command; cbn; set_solver. Qed.

Lemma key_request command id : (command_request command id).1 = key command.
Proof. by destruct command. Qed.

(** A call of the consumer that answers [answered] and returns the commands of [q']. *)
Lemma call_ok ch (f : logged C → logged C * list DriveCommand) g answered q lost ch' q' lost' :
  (∀ l, f l = log_call l answered (g l)) →
  call ch f = (ch', q') →
  channel_ok ch q lost → lost ≡ₚ answered ++ lost' →
  channel_ok ch' (q ++ q') lost'.
Proof.
  intros Hf Hc [Hbuf Hd Hp Hm Hb] Hl. unfold call in Hc. rewrite Hf in Hc. unfold log_call in Hc.
  injection Hc as <- <-. set (r := g (consumer ch)) in *.
  split; [done..|]. intros Hlen. cbn in *. rewrite len_app, len_fmap in Hlen.
  pose proof (len_nonneg r.2). destruct Hb as (Hb & Hn & Hn' & Hids); [lia|].
  split; [|rewrite !len_app, len_fmap; split_and!; done || lia].
  change (outstanding (set_consumer ch _)) with (outstanding ch). rewrite fmap_app.
  rewrite Hl in Hb. rewrite (Permutation_app_tail _ Hb). solve_Permutation.
Qed.

(** A command leaves the queue. *)
Lemma channel_pop ch command q lost :
  channel_ok ch (command :: q) lost → channel_ok ch q (key command :: lost).
Proof.
  intros [Hbuf Hd Hp Hm Hb]. split; [done..|]. intros Hlen. destruct (Hb Hlen) as (Hb' & Hn & Hn' & Hids).
  rewrite len_cons in Hn'. split_and!; [|done|lia|done].
  rewrite Hb'. rewrite fmap_cons. solve_Permutation.
Qed.

(** A request is put on the wire. *)
Lemma channel_issue ch command p q lost :
  channel_ok ch (command :: q) lost → op_key p = key command →
  ¬ MAX_PENDING_OPS ≤ Z.of_nat (size (pending ch)) →
  channel_ok (set_pending ch (as_u32 (next_completion_id ch + 1))
                (<[next_completion_id ch := p]> (pending ch))) q lost.
Proof.
  intros [Hbuf Hd Hp Hm Hb] Hk Hs. split; cbn.
  - done.
  - done.
  - rewrite map_size_insert. case_match; cbn [id]; lia.
  - intros id p' [[<- <-]|[_ H]]%lookup_insert_Some; [|by eapply Hm].
    pose proof (key_major command). by rewrite <-Hk in H.
  - intros Hlen. destruct (Hb Hlen) as (Hb' & Hn & Hn' & Hids). rewrite len_cons in Hn'.
    pose proof (len_nonneg q). rewrite as_u32_id by lia.
    assert (pending ch !! next_completion_id ch = None) as Hnone.
    { destruct (pending ch !! next_completion_id ch) eqn:E; [|done].
      assert (is_Some (pending ch !! next_completion_id ch)) as Hs' by (by rewrite E).
      specialize (Hids _ Hs'). lia. }
    split_and!; [|lia|lia|].
    + rewrite outstanding_insert, Hk by done. rewrite Hb', fmap_cons. solve_Permutation.
    + intros id Hid. destruct (decide (id = next_completion_id ch)) as [->|Hne]; [lia|].
      rewrite lookup_insert_ne in Hid by done. specialize (Hids id Hid). lia.
Qed.

Lemma logged_fail_reply command status :
  ∃ g, ∀ l : logged C, fail_reply command status l = log_call l [key command] (g l).
Proof. by eexists (λ l, fail_reply command status (base l)); destruct command. Qed.

Lemma encode_command_ok ch command q lost :
  channel_ok ch (command :: q) lost →
  match encode_command ch command with (ch', follow_up, _) => channel_ok ch' (q ++ follow_up) lost end.
Proof.
  intros Hok. unfold encode_command. destruct (Z.leb_spec MAX_PENDING_OPS (Z.of_nat (size (pending ch)))).
  - destruct (fail_command_without_issuing ch command STATUS_UNSUCCESSFUL) as [ch' fu] eqn:E.
    destruct (logged_fail_reply command STATUS_UNSUCCESSFUL) as [g Hg].
    eapply (call_ok ch _ g [key command]); [exact Hg|exact E|by apply channel_pop|done].
  - pose proof (key_request command (next_completion_id ch)) as Hk.
    destruct (command_request command (next_completion_id ch)) as [[major tag] bytes].
    rewrite app_nil_r. apply (channel_issue ch command); [done|by rewrite <-Hk|lia].
Qed.

Lemma encode_commands_ok fuel ch q lost out ch' out' :
  channel_ok ch q lost → encode_commands fuel ch q out = Some (ch', out') → channel_ok ch' [] lost.
Proof.
  revert ch q out. induction fuel as [|fuel IH]; intros ch [|command q] out Hok; cbn [encode_commands];
    [by intros [= <- <-]|done|by intros [= <- <-]|].
  pose proof (encode_command_ok ch command q lost Hok) as H.
  destruct (encode_command ch command) as [[ch1 fu] frames]. by apply IH.
Qed.

(** The queue of a call starts empty. *)
Lemma channel_delete ch id p lost :
  channel_ok ch [] lost → pending ch !! id = Some p →
  channel_ok (set_pending ch (next_completion_id ch) (delete id (pending ch))) [] (op_key p :: lost).
Proof.
  intros [Hbuf Hd Hp Hm Hb] Hid. split; cbn.
  - done.
  - done.
  - rewrite map_size_delete, Hid. cbn. lia.
  - intros id' p' [_ H]%lookup_delete_Some. by eapply Hm.
  - intros Hlen. destruct (Hb Hlen) as (Hb' & Hn & Hn' & Hids). split_and!; [|done|done|].
    + rewrite Hb'. rewrite (outstanding_delete ch id p (next_completion_id ch) Hid). solve_Permutation.
    + intros id' [p' [_ H]%lookup_delete_Some]. apply Hids. by eexists.
Qed.
End invariant.

(** ** Replies *)

Lemma create_reply_safe : safe decode_create_reply_from (λ _, True).
Proof. unfold decode_create_reply_from. safe_steps. done. Qed.
Lemma directory_entry_safe : safe decode_directory_entry (λ _, True).
Proof. unfold decode_directory_entry. safe_steps. done. Qed.
Lemma directory_reply_safe : safe decode_query_directory_reply_from (λ _, True).
Proof.
  unfold decode_query_directory_reply_from. safe_step. destruct (_ =? 0); [by apply safe_ret|].
  intros c Hc Hb. revert c Hc Hb.
  change (safe (entry_bytes ← read_slice a; lift_res (Some <$> run decode_directory_entry entry_bytes)) (λ _, True)).
  intros c Hc Hb. pose proof (read_slice_safe a ltac:(lia) c Hc Hb) as Hs.
  unfold mbind, reader_bind. destruct (read_slice a c) as [[s c']| |] eqn:E; [|done..].
  destruct Hs as (Hc' & Hb' & Hp & Hl & Hsb).
  assert (len s < 2 ^ 63) as Hls.
  { destruct Hc as [_ Hc]. revert E. unfold read_slice, mbind, reader_bind, ensure. case_decide; [done|].
    intros _. unfold remaining in *. lia. }
  unfold lift_res. pose proof (safe_run _ _ s directory_entry_safe Hsb Hls) as Hr.
  destruct (run decode_directory_entry s); [|done..]. split_and!; done || lia.
Qed.

Lemma decoded_ok {A} (m : reader A) (Q : A → Prop) body status :
  safe m Q → bytes_ok body → len body < 2 ^ 63 → ∃ r, decoded (run m body) status = Ok r.
Proof.
  intros Hm Hb Hl. pose proof (safe_run m Q body Hm Hb Hl). unfold decoded.
  destruct (run m body); [by eexists|by eexists|done].
Qed.

Lemma decode_replies_ok body status :
  bytes_ok body → len body < 2 ^ 63 →
  (∃ r, decoded (decode_create_reply body) status = Ok r)
  ∧ (∃ r, decoded (decode_read_reply body) status = Ok r)
  ∧ (∃ r, decoded (decode_write_reply body) status = Ok r)
  ∧ (∃ r, decoded (decode_query_directory_reply body) status = Ok r).
Proof.
  intros Hb Hl. split_and!.
  - by eapply decoded_ok; [apply create_reply_safe|..].
  - eapply (decoded_ok _ (λ _, True)); [|done..]. safe_step. eapply safe_weaken; [apply read_slice_safe; lia|done].
  - by eapply decoded_ok; [apply read_u32_le_safe|..].
  - unfold decode_query_directory_reply. case_bool_decide; [by eexists|].
    by eapply decoded_ok; [apply directory_reply_safe|..].
Qed.

Definition body_ok (body : bytes) : Prop := bytes_ok body ∧ len body < 2 ^ 63.
Lemma body_ok_nil : body_ok [].
Proof. split; [apply bytes_ok_nil|done]. Qed.

Definition message_ok (m : ClientMessage) : Prop :=
  match m with DeviceIoCompletion _ _ _ body => body_ok body | _ => True end.

Lemma announce_list_safe : safe decode_device_list_announce (λ _, True).
Proof.
  unfold decode_device_list_announce. do 2 safe_step. eapply safe_weaken; [|done].
  apply (read_many_safe _ _ (λ _, True)). unfold decode_device_announce. safe_steps. done.
Qed.
Lemma remove_list_safe : safe decode_device_list_remove (λ _, True).
Proof.
  unfold decode_device_list_remove. do 2 safe_step. eapply safe_weaken; [|done].
  apply (read_many_safe _ _ _ read_u32_le_safe).
Qed.
Lemma io_completion_safe : safe decode_io_completion message_ok.
Proof. unfold decode_io_completion. safe_steps. done. Qed.

(** A completion names the device its request went to. *)
Definition honest {C} (ch : RdpdrChannel C) (m : ClientMessage) : Prop :=
  match m with
  | DeviceIoCompletion device_id id _ _ =>
    match pending ch !! id with Some p => op_device_id p = device_id | None => True end
  | _ => True
  end.

Section messages.
Context {C : Type} `{!DriveConsumer C}.
Context (order : gmap Z PendingOp → list (Z * PendingOp)).
Implicit Types (ch : RdpdrChannel (logged C)).

(** A completion is one call that answers the request. *)
Lemma dispatch_completion_call ch p status body :
  is_major (major_function p) → body_ok body →
  ∃ f g, dispatch_completion ch p status body = Ok (call ch f)
  ∧ ∀ l, f l = log_call l [op_key p] (g l).
Proof.
  intros Hm [Hb Hl]. unfold dispatch_completion, op_key.
  destruct (decode_replies_ok body status Hb Hl) as ([r1 E1] & [r2 E2] & [r3 E3] & [r4 E4]).
  unfold is_major in Hm. set_unfold in Hm.
  destruct Hm as [->|[->|[->|[->|[->|[->|[]]]]]]]; cbn [Z.eqb Pos.eqb IRP_MJ_CREATE IRP_MJ_CLOSE IRP_MJ_READ
    IRP_MJ_WRITE IRP_MJ_DIRECTORY_CONTROL IRP_MJ_SET_INFORMATION]; rewrite ?E1, ?E2, ?E3, ?E4;
    repeat case_match; cbn [mbind res_bind]; by do 2 eexists.
Qed.

Lemma complete_ok fuel ch p status body out lost ch' r :
  channel_ok ch [] (op_key p :: lost) → is_major (major_function p) → body_ok body →
  complete fuel ch p status body out = Some (ch', r) →
  channel_ok ch' [] lost ∧ ∃ out', r = Ok out'.
Proof.
  intros Hok Hm Hb. unfold complete.
  destruct (dispatch_completion_call ch p status body Hm Hb) as (f & g & -> & Hf).
  destruct (call ch f) as [ch1 q] eqn:Ec.
  assert (channel_ok ch1 q lost) as H1.
  { by eapply (call_ok ch f g [op_key p] [] _ ch1 q lost). }
  destruct (encode_commands fuel ch1 q out) as [[ch2 out2]|] eqn:Ee; [|done].
  intros [= <- <-]. split; [by eapply encode_commands_ok|by eexists].
Qed.

Lemma announce_devices_ok fuel ds : ∀ ch out lost ch' out',
  channel_ok ch [] lost → announce_devices fuel ch ds out = Some (ch', out') → channel_ok ch' [] lost.
Proof.
  induction ds as [|d ds IH]; intros ch out lost ch' out' Hok; cbn [announce_devices]; [by intros [= <- <-]|].
  set (full := bool_decide _ && _). destruct (has_bits _ _ && negb full) eqn:Ea; [|by apply IH].
  apply andb_true_iff in Ea as [_ Hfull%negb_true_iff].
  set (ch1 := set_devices _ _). assert (channel_ok ch1 [] lost) as H1.
  { destruct Hok as [Hbuf Hd Hp Hm Hb]. split; [done| |done..]. subst ch1 full. cbn.
    rewrite map_size_insert. apply andb_false_iff in Hfull as [H|H].
    - apply bool_decide_eq_false in H. case_match; [cbn [id]; lia|congruence].
    - apply Z.leb_gt in H. case_match; cbn [id]; lia. }
  destruct (call ch1 _) as [ch2 q] eqn:Ec.
  assert (channel_ok ch2 q lost) as H2.
  { eapply (call_ok ch1 _ _ [] [] lost ch2 q lost); [intros l; reflexivity|exact Ec|done|done]. }
  destruct (encode_commands fuel ch2 q _) as [[ch3 out3]|] eqn:Ee; [|done]. cbn [mbind option_bind].
  apply IH. by eapply encode_commands_ok.
Qed.

Lemma fail_stale_ok fuel stale : ∀ ch out lost ch' r,
  channel_ok ch [] lost → fail_stale fuel ch stale out = Some (ch', r) →
  channel_ok ch' [] lost ∧ ∃ out', r = Ok out'.
Proof.
  induction stale as [|id stale IH]; intros ch out lost ch' r Hok; cbn [fail_stale].
  { intros [= <- <-]. eauto. }
  destruct (pending ch !! id) as [p|] eqn:Ep; [|by apply IH].
  pose proof (channel_delete ch id p lost Hok Ep) as H1. pose proof (ok_majors _ _ _ Hok id p Ep) as Hm.
  destruct (complete _ _ _ _ _ _) as [[ch2 r2]|] eqn:Ec; [|done]. cbn [mbind option_bind].
  destruct (complete_ok _ _ _ _ _ _ _ _ _ H1 Hm body_ok_nil Ec) as [H2 [out2 ->]]. by apply IH.
Qed.

Lemma rdpdr_on_message_ok fuel ch m lost ch' r :
  channel_ok ch [] lost → message_ok m → on_message order fuel ch m = Some (ch', r) →
  (∃ out, r = Ok out) ∧ ∃ dropped, channel_ok ch' [] (dropped ++ lost) ∧ (honest ch m → dropped = []).
Proof.
  intros Hok Hm. destruct m as [| | |ds|ids| |d id status body|]; cbn [on_message honest message_ok] in *;
    try (intros [= <- <-]; split; [by eexists|by exists []]).
  - destruct (announce_devices fuel ch ds []) as [[ch1 out]|] eqn:E; [|done]. intros [= <- <-].
    split; [by eexists|]. exists []. split; [by eapply announce_devices_ok|done].
  - unfold remove_devices. set (ch1 := set_devices _ _). intros E.
    assert (channel_ok ch1 [] lost) as H1.
    { destruct Hok as [Hbuf Hd Hp Hm' Hb]. split; [done| |done..]. subst ch1. cbn. etransitivity; [|exact Hd].
      apply inj_le. clear. generalize (devices ch). induction ids as [|id ids IH]; intros m; [done|]. cbn.
      etransitivity; [apply IH|]. rewrite map_size_delete. case_match; cbn [Datatypes.id]; lia. }
    destruct (fail_stale_ok _ _ _ _ _ _ _ H1 E) as [H2 Hr]. split; [done|]. by exists [].
  - destruct (pending ch !! id) as [p|] eqn:Ep; [|intros [= <- <-]; split; [by eexists|by exists []]].
    pose proof (channel_delete ch id p lost Hok Ep) as H1. pose proof (ok_majors _ _ _ Hok id p Ep) as Hmj.
    destruct (Z.eqb_spec (op_device_id p) d); cbn [negb].
    + intros E. destruct (complete_ok _ _ _ _ _ _ _ _ _ H1 Hmj Hm E) as [H2 Hr]. split; [done|]. by exists [].
    + intros [= <- <-]. split; [by eexists|]. exists [op_key p]. done.
Qed.

Lemma rdpdr_message_safe : safe decode_client_message_from message_ok.
Proof.
  unfold decode_client_message_from. do 2 safe_step. eapply safe_bind; [apply read_rest_safe|].
  intros body [Hb Hl].
  repeat (match goal with |- safe (if ?b then _ else _) _ => destruct b end; [try by apply safe_ret|]);
    try by apply safe_ret.
  - apply safe_lift_res. pose proof (safe_run _ _ body announce_list_safe Hb Hl). by destruct (run _ body).
  - apply safe_lift_res. pose proof (safe_run _ _ body remove_list_safe Hb Hl). by destruct (run _ body).
  - apply safe_lift_res. pose proof (safe_run _ _ body io_completion_safe Hb Hl). by destruct (run _ body).
Qed.
End messages.

(** ** Runs *)

Inductive event :=
  | Packet (payload : bytes)
  | Wake.
Definition event_ok (e : event) : Prop := match e with Packet p => body_ok p | Wake => True end.

(** A computation whose result does not depend on the fuel once there is enough. *)
Definition returns {A} (f : nat → option A) (r : A) : Prop :=
  ∃ n, ∀ fuel, (n ≤ fuel)%nat → f fuel = Some r.

Lemma returns_ret {A} (r : A) : returns (λ _, Some r) r.
Proof. by exists O. Qed.
Lemma returns_bind {A B} (f : nat → option A) (g : A → nat → option B) a b :
  returns f a → returns (g a) b → returns (λ fuel, x ← f fuel; g x fuel) b.
Proof.
  intros [n Hf] [m Hg]. exists (n + m)%nat. intros fuel H. rewrite Hf by lia. cbn. apply Hg. lia.
Qed.
Lemma returns_ext {A} (f g : nat → option A) r : (∀ n, f n = g n) → returns f r → returns g r.
Proof. intros H [n Hf]. exists n. intros fuel Hn. rewrite <-H. by apply Hf. Qed.

Section runs.
Context {C : Type} `{!DriveConsumer C}.
Context (order : gmap Z PendingOp → list (Z * PendingOp)).
Implicit Types (ch : RdpdrChannel C).

Definition run_event (fuel : nat) ch (e : event) : option (RdpdrChannel C * res DecodeError (list bytes)) :=
  match e with
  | Packet p => on_channel_data order fuel ch p
  | Wake => '(ch, out) ← flush_pending_commands fuel ch; Some (ch, Ok out)
  end.
Fixpoint run_events (fuel : nat) ch (es : list event)
  : option (RdpdrChannel C * list (res DecodeError (list bytes))) :=
  match es with
  | [] => Some (ch, [])
  | e :: es =>
    '(ch, r) ← run_event fuel ch e;
    '(ch, rs) ← run_events fuel ch es;
    Some (ch, r :: rs)
  end.

(** Every completion names the device its request went to. *)
Definition event_honest ch (e : event) : Prop :=
  match e with
  | Packet p =>
    match (reassemble (incoming_buffer ch) p MAX_RDPDR_MESSAGE_SIZE "rdpdr.incoming_buffer").2 with
    | Ok (Some message) =>
      match decode_client_message message with Ok m => honest ch m | _ => True end
    | _ => True
    end
  | Wake => True
  end.
Fixpoint all_honest (fuel : nat) ch (es : list event) : Prop :=
  match es with
  | [] => True
  | e :: es => event_honest ch e
               ∧ match run_event fuel ch e with Some (ch, _) => all_honest fuel ch es | None => True end
  end.
End runs.

(** ** Termination *)

Section termination.
Context {C : Type} `{!DriveConsumer C}.
Context (order : gmap Z PendingOp → list (Z * PendingOp)).
(** What a consumer asks for when a command fails is paid for. *)
Context (measure : C → nat).
Hypothesis settles : ∀ c command,
  let r := fail_reply command STATUS_UNSUCCESSFUL c in (measure r.1 + length r.2 ≤ measure c)%nat.
Implicit Types (ch : RdpdrChannel C).

Lemma encode_commands_returns_at fuel : ∀ fuel' ch q out,
  (length q + measure (consumer ch) ≤ fuel)%nat → (fuel ≤ fuel')%nat →
  ∃ r, encode_commands fuel ch q out = Some r ∧ encode_commands fuel' ch q out = Some r.
Proof.
  induction fuel as [|fuel IH]; intros [|fuel'] ch [|command q] out Hf Hle; cbn [length] in Hf;
    try lia; try (by eexists). cbn [encode_commands].
  destruct (encode_command ch command) as [[ch1 fu] frames] eqn:E. apply IH; [|lia].
  rewrite length_app. revert E. unfold encode_command. destruct (MAX_PENDING_OPS <=? _).
  - unfold fail_command_without_issuing, call. pose proof (settles (consumer ch) command) as H.
    destruct (fail_reply _ _ _) as [c cs]. cbn in H. intros [= <- <- <-]. cbn. lia.
  - destruct (command_request _ _) as [[? ?] ?]. intros [= <- <- <-]. cbn. lia.
Qed.

Lemma encode_commands_returns ch q out : ∃ r, returns (λ fuel, encode_commands fuel ch q out) r.
Proof.
  set (n := (length q + measure (consumer ch))%nat).
  destruct (encode_commands_returns_at n n ch q out) as (r & Er & _); [done..|].
  exists r, n. intros fuel Hn. destruct (encode_commands_returns_at n fuel ch q out) as (r' & E1 & E2); [done..|].
  congruence.
Qed.

Lemma complete_returns ch p status body out : ∃ r, returns (λ fuel, complete fuel ch p status body out) r.
Proof.
  unfold complete. destruct (dispatch_completion ch p status body) as [[ch1 q]|e|];
    [|eexists; apply returns_ret..].
  destruct (encode_commands_returns ch1 q out) as [[ch2 out2] H].
  eexists. eapply returns_bind; [exact H|]. apply returns_ret.
Qed.

Lemma announce_devices_returns ds : ∀ ch out, ∃ r, returns (λ fuel, announce_devices fuel ch ds out) r.
Proof.
  induction ds as [|d ds IH]; intros ch out; cbn [announce_devices]; [eexists; apply returns_ret|].
  destruct (_ && _); [|apply IH]. destruct (call _ _) as [ch1 q].
  destruct (encode_commands_returns ch1 q (out ++ wrap (set_devices ch
    (<[da_device_id d := (da_device_type d, preferred_dos_name d)]> (devices ch)))
    (encode_device_reply (da_device_id d) STATUS_SUCCESS))) as [[ch2 out2] H].
  destruct (IH ch2 out2) as [r Hr]. exists r. eapply returns_bind; [exact H|]. exact Hr.
Qed.

Lemma fail_stale_returns stale : ∀ ch out, ∃ r, returns (λ fuel, fail_stale fuel ch stale out) r.
Proof.
  induction stale as [|id stale IH]; intros ch out; cbn [fail_stale]; [eexists; apply returns_ret|].
  destruct (pending ch !! id) as [p|]; [|apply IH].
  destruct (complete_returns (set_pending ch (next_completion_id ch) (delete id (pending ch))) p
    STATUS_UNSUCCESSFUL [] out) as [[ch1 [out1|e|]] H].
  - destruct (IH ch1 out1) as [r Hr]. exists r. eapply returns_bind; [exact H|]. exact Hr.
  - eexists. eapply returns_bind; [exact H|]. apply returns_ret.
  - eexists. eapply returns_bind; [exact H|]. apply returns_ret.
Qed.

Lemma on_message_returns ch m : ∃ r, returns (λ fuel, on_message order fuel ch m) r.
Proof.
  destruct m as [| | |ds|ids| |d id status body|]; cbn [on_message]; try (eexists; apply returns_ret).
  - destruct (announce_devices_returns ds ch []) as [[ch1 out] H]. eexists.
    eapply returns_bind; [exact H|]. apply returns_ret.
  - apply fail_stale_returns.
  - destruct (pending ch !! id) as [p|]; [|eexists; apply returns_ret].
    destruct (negb _); [eexists; apply returns_ret|]. apply complete_returns.
Qed.

Lemma run_event_returns ch e : ∃ r, returns (λ fuel, run_event order fuel ch e) r.
Proof.
  destruct e as [p|]; cbn [run_event].
  - unfold on_channel_data. destruct (reassemble _ _ _ _) as [b [[m|]|e|]]; try (eexists; apply returns_ret).
    destruct (decode_client_message m) as [msg|e|]; try (eexists; apply returns_ret).
    apply on_message_returns.
  - unfold flush_pending_commands. destruct (call _ _) as [ch1 q].
    destruct (encode_commands_returns ch1 q []) as [[ch2 out] H].
    eexists. eapply returns_bind; [exact H|]. apply returns_ret.
Qed.

Lemma run_events_returns es : ∀ ch, ∃ r, returns (λ fuel, run_events order fuel ch es) r.
Proof.
  induction es as [|e es IH]; intros ch; cbn [run_events]; [eexists; apply returns_ret|].
  destruct (run_event_returns ch e) as [[ch1 r1] H1]. destruct (IH ch1) as [[ch2 rs] H2].
  eexists. eapply returns_bind; [exact H1|]. eapply returns_bind; [exact H2|]. apply returns_ret.
Qed.
End termination.

(** ** Answers *)

Section answers.
Context {C : Type} `{!DriveConsumer C}.
Context (order : gmap Z PendingOp → list (Z * PendingOp)).
Implicit Types (ch : RdpdrChannel (logged C)).

Lemma channel_incoming ch b q lost :
  channel_ok ch q lost → len b ≤ MAX_RDPDR_MESSAGE_SIZE → bytes_ok b →
  channel_ok (set_incoming ch b) q lost.
Proof. intros [Hbuf Hd Hp Hm Hb] Hl Hbb. by split. Qed.

Lemma run_event_ok fuel ch e lost ch' r :
  channel_ok ch [] lost → event_ok e → run_event order fuel ch e = Some (ch', r) →
  no_panic r ∧ ∃ dropped, channel_ok ch' [] (dropped ++ lost) ∧ (event_honest ch e → dropped = []).
Proof.
  intros Hok He. destruct e as [p|]; cbn [run_event event_ok event_honest] in *.
  - unfold on_channel_data. destruct He as [Hb Hl]. destruct (ok_buffer _ _ _ Hok) as [Hbl Hbb].
    pose proof (reassemble_spec (incoming_buffer ch) p MAX_RDPDR_MESSAGE_SIZE "rdpdr.incoming_buffer"
      Hb Hl ltac:(done) Hbl Hbb) as Hr.
    destruct (reassemble _ _ _ _) as [b [[m|]|e|]]; cbn [snd]; [| | |done].
    + destruct Hr as (-> & Hlm & Hbm). unfold MAX_RDPDR_MESSAGE_SIZE in Hlm.
      pose proof (channel_incoming ch [] [] lost Hok ltac:(done) bytes_ok_nil) as H1.
      pose proof (safe_run _ _ m rdpdr_message_safe Hbm ltac:(lia)) as Hd.
      unfold decode_client_message. destruct (run decode_client_message_from m) as [msg|e|]; [| |done].
      * intros E. destruct (rdpdr_on_message_ok order _ _ _ _ _ _ H1 Hd E) as [[out ->] H]. done.
      * intros [= <- <-]. split; [done|]. by exists [].
    + intros [= <- <-]. split; [done|]. exists []. split; [|done]. destruct Hr. by apply channel_incoming.
    + intros [= <- <-]. split; [done|]. exists []. split; [|done].
      destruct Hr as [-> | ->]; apply channel_incoming; done || apply bytes_ok_nil.
  - unfold flush_pending_commands. destruct (call ch poll_commands) as [ch1 q] eqn:Ec.
    assert (channel_ok ch1 q lost) as H1.
    { eapply (call_ok ch _ _ [] [] lost ch1 q lost); [intros l; reflexivity|exact Ec|done|done]. }
    destruct (encode_commands fuel ch1 q []) as [[ch2 out]|] eqn:Ee; [|done].
    intros [= <- <-]. split; [done|]. exists []. split; [by eapply encode_commands_ok|done].
Qed.

Lemma run_events_ok fuel es : ∀ ch lost ch' rs,
  channel_ok ch [] lost → Forall event_ok es → run_events order fuel ch es = Some (ch', rs) →
  Forall no_panic rs ∧ ∃ dropped, channel_ok ch' [] (dropped ++ lost) ∧ (all_honest order fuel ch es → dropped = []).
Proof.
  induction es as [|e es IH]; intros ch lost ch' rs Hok Hes; cbn [run_events all_honest].
  { intros [= <- <-]. split; [done|]. by exists []. }
  apply Forall_cons in Hes as [He Hes].
  destruct (run_event order fuel ch e) as [[ch1 r1]|] eqn:E1; [|done]. cbn [mbind option_bind].
  destruct (run_events order fuel ch1 es) as [[ch2 rs2]|] eqn:E2; [|done]. intros [= <- <-].
  destruct (run_event_ok fuel ch e lost ch1 r1 Hok He E1) as (Hr & d1 & H1 & Hh1).
  destruct (IH ch1 (d1 ++ lost) ch2 rs2 H1 Hes E2) as (Hrs & d2 & H2 & Hh2).
  split; [by constructor|]. exists (d2 ++ d1). rewrite <-(assoc_L (++)). split; [done|].
  intros [Hh Hhs]. by rewrite Hh1, Hh2.
Qed.

Lemma channel_new_ok cid uid supported (c : C) :
  channel_ok (RdpdrChannel_new cid uid supported (fresh c)).1 [] [].
Proof.
  split; cbn.
  - split; [done|apply bytes_ok_nil].
  - done.
  - done.
  - intros id p. by rewrite lookup_empty.
  - intros _. split_and!; [|done|done|]; [|intros id [p Hp]; by rewrite lookup_empty in Hp].
    unfold outstanding. cbn. by rewrite map_to_list_empty.
Qed.

(** C38. Every command is answered once.  Take any consumer whose commands after a failure
    are paid for, so that it does not retry forever.  Then whatever packets arrive, also
    garbage, and however often the consumer is polled, every call returns and none panics.
    No command is answered twice or without being asked for, at most 4096 requests and 256
    devices are open, and as long as each completion names the device of its request, the
    commands are exactly those answered and those still on the wire: none is dropped, not
    when the table is full, not when a device is unplugged.  Completion numbers are 32 bits
    wide, so this holds for fewer than [2 ^ 32] commands. *)
Theorem rdpdr_commands_answered (measure : C → nat) cid uid supported (c : C) es :
  (∀ c command, let r := fail_reply command STATUS_UNSUCCESSFUL c in
    (measure r.1 + length r.2 ≤ measure c)%nat) →
  Forall event_ok es →
  let ch0 := (RdpdrChannel_new cid uid supported (fresh c)).1 in
  ∃ n, ∀ fuel, (n ≤ fuel)%nat → ∃ ch rs, run_events order fuel ch0 es = Some (ch, rs)
  ∧ Forall no_panic rs
  ∧ Z.of_nat (size (pending ch)) ≤ MAX_PENDING_OPS ∧ Z.of_nat (size (devices ch)) ≤ MAX_DEVICES
  ∧ (len (issued (consumer ch)) < 2 ^ 32 →
      replied (consumer ch) ++ outstanding ch ⊆+ issued (consumer ch)
      ∧ (all_honest order fuel ch0 es →
          issued (consumer ch) ≡ₚ replied (consumer ch) ++ outstanding ch)).
Proof.
  intros Hm Hes ch0.
  destruct (run_events_returns order (λ l, measure (base l)) ltac:(intros l command;
    pose proof (Hm (base l) command); by destruct command) es ch0) as [[ch rs] [n Hn]].
  exists n. intros fuel Hf. exists ch, rs. pose proof (Hn fuel Hf) as Er. split; [done|].
  destruct (run_events_ok fuel es ch0 [] ch rs (channel_new_ok cid uid supported c) Hes Er)
    as (Hp & lost & [_ Hd Hpe _ Hb] & Hh). rewrite app_nil_r in Hb.
  split_and!; [done..|]. intros Hl. destruct (Hb Hl) as [Hi _]. cbn in Hi. split.
  - rewrite Hi, (assoc_L (++)). by apply submseteq_inserts_r.
  - intros Hall. rewrite Hi, (Hh Hall). by rewrite app_nil_r.
Qed.

(** A completion with the wrong device loses the command.  When a completion carries
    the number of an outstanding request but another device, [on_channel_data] takes the
    request out of the table and calls nobody.  From then on, whatever follows, that many
    answers are missing: the consumer never hears of the command again. *)
Theorem rdpdr_mismatch_loses_command cid uid supported (c : C) fuel es ch rs id p d status body es' ch' rs' :
  Forall event_ok es → Forall event_ok es' → body_ok body →
  run_events order fuel (RdpdrChannel_new cid uid supported (fresh c)).1 es = Some (ch, rs) →
  pending ch !! id = Some p → op_device_id p ≠ d →
  ∃ ch1, on_message order fuel ch (DeviceIoCompletion d id status body) = Some (ch1, Ok [])
  ∧ consumer ch1 = consumer ch
  ∧ (run_events order fuel ch1 es' = Some (ch', rs') → len (issued (consumer ch')) < 2 ^ 32 →
      op_key p :: replied (consumer ch') ++ outstanding ch' ⊆+ issued (consumer ch')).
Proof.
  intros Hes Hes' Hbody Er Ep Hd.
  destruct (run_events_ok fuel es _ [] ch rs (channel_new_ok cid uid supported c) Hes Er) as (_ & lost & Hok & _).
  rewrite app_nil_r in Hok. pose proof (channel_delete ch id p lost Hok Ep) as H1.
  eexists. cbn [on_message]. rewrite Ep. rewrite (proj2 (Z.eqb_neq _ _) Hd). cbn [negb].
  split; [done|]. split; [done|]. intros Er' Hl.
  destruct (run_events_ok fuel es' _ _ ch' rs' H1 Hes' Er') as (_ & d' & Hok' & _).
  destruct (ok_balance _ _ _ Hok' Hl) as [Hi _]. cbn [fmap list_fmap app] in Hi.
  rewrite Hi. trans (op_key p :: (replied (consumer ch') ++ outstanding ch') ++ d' ++ lost).
  - apply submseteq_skip. by apply submseteq_inserts_r.
  - apply Permutation_submseteq. solve_Permutation.
Qed.

End answers.

(** ** A session *)

(** A client that announces a drive, opens the root directory, refuses the test file,
    unplugs the drive, and sends garbage. *)
Definition rdpdr_packet (packet_id : Z) (body : bytes) : event :=
  let message := write_rdpdr_header packet_id ++ body in
  Packet (write_u32_le (len message) ++ write_u32_le (Z.lor CHANNEL_FLAG_FIRST CHANNEL_FLAG_LAST)
          ++ message).
Definition drive_announce : bytes :=
  write_u32_le 1 ++ write_u32_le RDPDR_DTYP_FILESYSTEM ++ write_u32_le 7 ++ lit "C:" ++ [0; 0; 0; 0; 0; 0]
  ++ write_u32_le 0.
Definition completion (device_id id status : Z) (body : bytes) : bytes :=
  write_u32_le device_id ++ write_u32_le id ++ write_u32_le status ++ body.
Definition drive_session : list event :=
  [rdpdr_packet PAKID_CORE_CLIENT_NAME []; Wake;
   rdpdr_packet PAKID_CORE_DEVICELIST_ANNOUNCE drive_announce;
   rdpdr_packet PAKID_CORE_DEVICE_IOCOMPLETION (completion 7 0 STATUS_SUCCESS (write_u32_le 42 ++ [1]));
   rdpdr_packet PAKID_CORE_DEVICE_IOCOMPLETION (completion 7 1 STATUS_UNSUCCESSFUL []);
   rdpdr_packet PAKID_CORE_DEVICELIST_REMOVE (write_u32_le 1 ++ write_u32_le 7);
   Packet [1; 2; 3]].
Definition session_channel : RdpdrChannel (logged DirectoryListingSelfTest) :=
  (RdpdrChannel_new 1005 1001 RDPDR_DTYP_FILESYSTEM (fresh DirectoryListingSelfTest_new)).1.

Lemma bytes_ok_b l : forallb (λ b, (0 <=? b) && (b <? 256)) l = true → bytes_ok l.
Proof.
  intros H. apply Forall_forall. intros b Hb. apply list_elem_of_In in Hb.
  pose proof (proj1 (forallb_forall _ _) H b Hb) as Hr. cbn beta in Hr. unfold byte_ok. lia.
Qed.

Lemma drive_session_ok : Forall event_ok drive_session.
Proof.
  unfold drive_session. repeat (constructor; [first [exact I|split; [apply bytes_ok_b; vm_compute; reflexivity
    |vm_compute; reflexivity]]|]). constructor.
Qed.

(** What the self-test asked for and was answered in it. *)
Example drive_session_answers :
  (λ x, (issued (consumer x.1), replied (consumer x.1), outstanding x.1))
    <$> run_events map_to_list 100 session_channel drive_session
  = Some ([(IRP_MJ_CREATE, 1); (IRP_MJ_CREATE, 7); (IRP_MJ_DIRECTORY_CONTROL, 2); (IRP_MJ_CLOSE, 5)],
          [(IRP_MJ_CREATE, 1); (IRP_MJ_CREATE, 7); (IRP_MJ_DIRECTORY_CONTROL, 2)],
          [(IRP_MJ_CLOSE, 5)]).
Proof. vm_compute. reflexivity. Qed.

Lemma rdpdr_commands_answered_witness :
  ∃ n, ∀ fuel, (n ≤ fuel)%nat → ∃ ch rs,
    run_events map_to_list fuel session_channel drive_session = Some (ch, rs)
  ∧ Forall no_panic rs
  ∧ Z.of_nat (size (pending ch)) ≤ MAX_PENDING_OPS ∧ Z.of_nat (size (devices ch)) ≤ MAX_DEVICES
  ∧ (len (issued (consumer ch)) < 2 ^ 32 →
      replied (consumer ch) ++ outstanding ch ⊆+ issued (consumer ch)
      ∧ (all_honest map_to_list fuel session_channel drive_session →
          issued (consumer ch) ≡ₚ replied (consumer ch) ++ outstanding ch)).
Proof.
  apply (rdpdr_commands_answered map_to_list open_handles 1005 1001 RDPDR_DTYP_FILESYSTEM
    DirectoryListingSelfTest_new drive_session self_test_settles drive_session_ok).
Defined.

Lemma rdpdr_mismatch_loses_command_witness :
  ∃ ch rs ch1 ch' rs',
    run_events map_to_list 100 session_channel (take 3 drive_session) = Some (ch, rs)
  ∧ on_message map_to_list 100 ch (DeviceIoCompletion 8 0 STATUS_SUCCESS []) = Some (ch1, Ok [])
  ∧ run_events map_to_list 100 ch1 (drop 3 drive_session) = Some (ch', rs')
  ∧ (IRP_MJ_CREATE, 1) :: replied (consumer ch') ++ outstanding ch' ⊆+ issued (consumer ch').
Proof.
  set (es := take 3 drive_session). set (es' := drop 3 drive_session).
  assert ((λ x, pending x.1 !! 0) <$> run_events map_to_list 100 session_channel es
    = Some (Some {| op_device_id := 7; major_function := IRP_MJ_CREATE; op_request_tag := 1 |})) as Ep.
  { vm_compute. reflexivity. }
  assert ((λ x, len (issued (consumer x.1))) <$> (x ← run_events map_to_list 100 session_channel es;
    y ← on_message map_to_list 100 x.1 (DeviceIoCompletion 8 0 STATUS_SUCCESS []);
    run_events map_to_list 100 y.1 es') = Some 2) as El.
  { vm_compute. reflexivity. }
  destruct (run_events map_to_list 100 session_channel es) as [[ch rs]|] eqn:Er; [|done].
  cbn [fmap option_fmap option_map fst mbind option_bind] in Ep, El. injection Ep as Ep.
  destruct (on_message map_to_list 100 ch (DeviceIoCompletion 8 0 STATUS_SUCCESS [])) as [[ch1 r1]|] eqn:E1;
    [|done]. cbn [mbind option_bind fst] in El.
  destruct (run_events map_to_list 100 ch1 es') as [[ch' rs']|] eqn:E2; [|done].
  injection El as El.
  pose proof (rdpdr_mismatch_loses_command map_to_list 1005 1001 RDPDR_DTYP_FILESYSTEM
    DirectoryListingSelfTest_new 100 es ch rs 0 _ 8 STATUS_SUCCESS [] es' ch' rs'
    ltac:(by apply Forall_take, drive_session_ok) ltac:(by apply Forall_drop, drive_session_ok)
    body_ok_nil Er Ep ltac:(done)) as (ch1' & E1' & _ & H).
  rewrite E1 in E1'. injection E1' as -> ->.
  exists ch, rs, ch1', ch', rs'. split_and!; [done|done|done|]. apply H; [done|]. by rewrite El.
Defined.
