(* ===== verification/Yuv.v ===== *)
(** [rdpcore-rdpegfx/src/encoder.rs]: the conversion of BGRX frames to the planes an H.264
    encoder reads, I420 and NV12. *)
From S2P Require Import Prelude Diff.

Inductive EncoderError :=
  | InvalidGeometry (reason : string).

Definition align16 (v : Z) : Z := Z.land (Z.min (v + 15) 65535) (Z.lnot 15).

(** [Ok]: the visible and the padded size. *)
Definition check_bgrx_geometry (width height stride : Z) (pixels : bytes) (out_w out_h : Z)
  : res EncoderError (Z * Z * Z * Z) :=
  if negb (Z.even out_w) || negb (Z.even out_h) then Err (InvalidGeometry "planar YUV size must be even")
  else if (out_w <? width) || (out_h <? height) then Err (InvalidGeometry "visible larger than padded")
  else
    let needed := saturating_add_usize (saturating_mul (saturating_sub height 1) stride)
                    (saturating_mul width 4) in
    if len pixels <? needed then Err (InvalidGeometry "pixel buffer too short")
    else Ok (width, height, out_w, out_h).

Definition bt601_y (r g b : Z) : Z :=
  as_u8 (Z.min (Z.shiftr (66 * r + 129 * g + 25 * b + 128) 8 + 16) 255).

Definition clamp_u8 (v : Z) : Z := as_u8 (Z.max 0 (Z.min v 255)).
Definition bt601_uv (samples : list (Z * Z * Z)) : Z * Z :=
  let sum f := foldl (λ a s, a + f s) 0 samples in
  let r := sum (λ s, s.1.1) / 4 in
  let g := sum (λ s, s.1.2) / 4 in
  let b := sum (λ s, s.2) / 4 in
  (clamp_u8 (Z.shiftr (-38 * r - 74 * g + 112 * b + 128) 8 + 128),
   clamp_u8 (Z.shiftr (112 * r - 94 * g - 18 * b + 128) 8 + 128)).

(** [slice[i]] and [slice[i] = v]. *)
Definition index {E} (l : bytes) (i : Z) : res E Z :=
  if i <? 0 then Panic else match l !! Z.to_nat i with Some b => Ok b | None => Panic end.
Definition store {E} (l : bytes) (i v : Z) : res E bytes :=
  if (i <? 0) || (len l <=? i) then Panic else Ok (<[Z.to_nat i := v]> l).

(** [&pixels[from..]]. *)
Definition slice_from {E} (l : bytes) (from : Z) : res E bytes :=
  if len l <? from then Panic else Ok (zdrop from l).

(** The sample at an offset of a row, [(r, g, b)]. *)
Definition sample_at {E} (row : bytes) (off : Z) : res E (Z * Z * Z) :=
  r ← index row (off + 2);
  g ← index row (off + 1);
  b ← index row off;
  Ok (r, g, b).

Section blocks.
Context {S : Type} (emit_y : S → Z → Z → Z → res EncoderError S)
  (emit_uv : S → Z → Z → Z → Z → res EncoderError S).

(** One block of two by two pixels. *)
Definition block (w h : Z) (row1_slice row2_slice : bytes) (row row2 : Z) (s : S) (col : Z)
  : res EncoderError S :=
  let has_row2 := row + 1 <? h in
  let has_col2 := col + 1 <? w in
  let col2 := col + (if has_col2 then 1 else 0) in
  let off0 := col * 4 in
  let off1 := col2 * 4 in
  s0 ← sample_at row1_slice off0;
  s1 ← sample_at row1_slice off1;
  s2 ← sample_at row2_slice off0;
  s3 ← sample_at row2_slice off1;
  let y (p : Z * Z * Z) := bt601_y p.1.1 p.1.2 p.2 in
  s ← emit_y s row col (y s0);
  s ← (if has_col2 then emit_y s row (col + 1) (y s1) else Ok s);
  s ← (if has_row2 then
         s ← emit_y s row2 col (y s2);
         if has_col2 then emit_y s row2 (col + 1) (y s3) else Ok s
       else Ok s);
  let '(u, v) := bt601_uv [s0; s1; s2; s3] in
  emit_uv s (row / 2) (col / 2) u v.

(** [(0..n).step_by(2)] *)
Definition evens (n : Z) : list Z := (λ i, 2 * Z.of_nat i) <$> seq 0 (Z.to_nat ((n + 1) / 2)).

Fixpoint fold_res {A} (f : S → A → res EncoderError S) (s : S) (l : list A) : res EncoderError S :=
  match l with
  | [] => Ok s
  | x :: l => s ← f s x; fold_res f s l
  end.

Definition for_each_block (w h stride : Z) (pixels : bytes) (s : S) : res EncoderError S :=
  fold_res (λ s row,
    let row2 := row + (if row + 1 <? h then 1 else 0) in
    row1_slice ← slice_from pixels (row * stride);
    row2_slice ← slice_from pixels (row2 * stride);
    fold_res (block w h row1_slice row2_slice row row2) s (evens w)) s (evens h).
End blocks.

(** ** I420 and NV12 *)

(** The planes, split where the code splits its buffer. *)
Record planes := { y_plane : bytes; u_plane : bytes; v_plane : bytes }.

Definition put_y {E} (ow : Z) (p : planes) (row col y : Z) : res E planes :=
  yp ← store (y_plane p) (row * ow + col) y;
  Ok {| y_plane := yp; u_plane := u_plane p; v_plane := v_plane p |}.
Definition put_uv {E} (uv_w : Z) (p : planes) (block_row block_col u v : Z) : res E planes :=
  let uv_index := block_row * uv_w + block_col in
  up ← store (u_plane p) uv_index u;
  vp ← store (v_plane p) uv_index v;
  Ok {| y_plane := y_plane p; u_plane := up; v_plane := vp |}.
Definition zeroes (n : Z) : bytes := replicate (Z.to_nat n) 0.

(** The contents of [out]: the three planes in a row. *)
Definition bgrx_to_i420_into (width height stride : Z) (pixels : bytes) (out_w out_h : Z)
  : res EncoderError bytes :=
  '(w, h, ow, oh) ← check_bgrx_geometry width height stride pixels out_w out_h;
  let y_size := ow * oh in
  let uv_w := ow / 2 in
  let uv_size := uv_w * (oh / 2) in
  p ← for_each_block (put_y ow) (put_uv uv_w) w h stride pixels
        {| y_plane := zeroes y_size; u_plane := zeroes uv_size; v_plane := zeroes uv_size |};
  Ok (y_plane p ++ u_plane p ++ v_plane p).
Definition bgrx_to_i420 := bgrx_to_i420_into.

(** Luma, and chroma with U and V interleaved. *)
Definition put_y2 {E} (pitch : Z) (p : bytes * bytes) (row col y : Z) : res E (bytes * bytes) :=
  yp ← store p.1 (row * pitch + col) y; Ok (yp, p.2).
Definition put_uv2 {E} (index : Z → Z → Z) (p : bytes * bytes) (block_row block_col u v : Z)
  : res E (bytes * bytes) :=
  let uv_index := index block_row block_col in
  c ← store p.2 uv_index u;
  c ← store c (uv_index + 1) v;
  Ok (p.1, c).

Definition bgrx_to_nv12 (width height stride : Z) (pixels : bytes) (out_w out_h : Z)
  : res EncoderError bytes :=
  '(w, h, ow, oh) ← check_bgrx_geometry width height stride pixels out_w out_h;
  let y_size := ow * oh in
  let uv_w := ow / 2 in
  let uv_size := uv_w * (oh / 2) in
  p ← for_each_block (put_y2 ow) (put_uv2 (λ r c, (r * uv_w + c) * 2)) w h stride pixels
        (zeroes y_size, zeroes (2 * uv_size));
  Ok (p.1 ++ p.2).

(** The caller's planes, written in place. *)
Definition bgrx_to_nv12_into (width height stride : Z) (pixels : bytes) (out_w out_h : Z)
    (y_plane : bytes) (y_pitch : Z) (uv_plane : bytes) (uv_pitch : Z) : res EncoderError (bytes * bytes) :=
  '(w, h, ow, oh) ← check_bgrx_geometry width height stride pixels out_w out_h;
  let y_needed := saturating_add_usize (saturating_mul (saturating_sub oh 1) y_pitch) ow in
  let uv_needed := saturating_add_usize (saturating_mul (saturating_sub (oh / 2) 1) uv_pitch) ow in
  if (y_pitch <? ow) || (uv_pitch <? ow) || (len y_plane <? y_needed) || (len uv_plane <? uv_needed)
  then Err (InvalidGeometry "NV12 dest too small")
  else for_each_block (put_y2 y_pitch) (put_uv2 (λ r c, r * uv_pitch + c * 2)) w h stride pixels
         (y_plane, uv_plane).

(** ** What is emitted *)

Inductive emission :=
  | EmitY (row col y : Z)
  | EmitUV (block_row block_col u v : Z).

(** The pixel at a row and a column, [(r, g, b)]. *)
Definition byte_at (pixels : bytes) (i : Z) : Z := nth (Z.to_nat i) pixels 0.
Definition pixel (stride : Z) (pixels : bytes) (row col : Z) : Z * Z * Z :=
  let off := row * stride + col * 4 in
  (byte_at pixels (off + 2), byte_at pixels (off + 1), byte_at pixels off).
Definition luma (stride : Z) (pixels : bytes) (row col : Z) : Z :=
  let p := pixel stride pixels row col in bt601_y p.1.1 p.1.2 p.2.
(** Row and column of the second pixel of a block; the last one again at an odd edge. *)
Definition next (n i : Z) : Z := i + (if i + 1 <? n then 1 else 0).
Definition chroma (w h stride : Z) (pixels : bytes) (block_row block_col : Z) : Z * Z :=
  let row := 2 * block_row in
  let col := 2 * block_col in
  bt601_uv [pixel stride pixels row col; pixel stride pixels row (next w col);
            pixel stride pixels (next h row) col; pixel stride pixels (next h row) (next w col)].

Definition block_emissions (w h stride : Z) (pixels : bytes) (row col : Z) : list emission :=
  let l := luma stride pixels in
  [EmitY row col (l row col)]
  ++ (if col + 1 <? w then [EmitY row (col + 1) (l row (col + 1))] else [])
  ++ (if row + 1 <? h then
        [EmitY (next h row) col (l (next h row) col)]
        ++ (if col + 1 <? w then [EmitY (next h row) (col + 1) (l (next h row) (col + 1))] else [])
      else [])
  ++ [EmitUV (row / 2) (col / 2) (chroma w h stride pixels (row / 2) (col / 2)).1
        (chroma w h stride pixels (row / 2) (col / 2)).2].
Definition emissions (w h stride : Z) (pixels : bytes) : list emission :=
  row ← evens h; col ← evens w; block_emissions w h stride pixels row col.

(** The frame holds every visible pixel. *)
Definition frame_ok (w h stride : Z) (pixels : bytes) : Prop :=
  0 ≤ w ∧ 0 ≤ h ∧ 0 ≤ stride ∧ (∀ row, 0 ≤ row < h → row * stride ≤ len pixels) ∧
  ∀ row col, 0 ≤ row < h → 0 ≤ col < w → row * stride + col * 4 + 4 ≤ len pixels.

Lemma evens_in n i : 0 ≤ n → i ∈ evens n ↔ 0 ≤ i < n ∧ i mod 2 = 0.
Proof.
  intros Hn. unfold evens. rewrite list_elem_of_fmap. split.
  - intros (k & -> & Hk%elem_of_seq). Z.to_euclidean_division_equations. lia.
  - intros [Hi Hm]. exists (Z.to_nat (i / 2)). rewrite elem_of_seq.
    Z.to_euclidean_division_equations. lia.
Qed.

Section fold.
Context {S : Type} (emit_y : S → Z → Z → Z → res EncoderError S)
  (emit_uv : S → Z → Z → Z → Z → res EncoderError S).

Definition emit (s : S) (e : emission) : res EncoderError S :=
  match e with EmitY r c y => emit_y s r c y | EmitUV r c u v => emit_uv s r c u v end.

Lemma fold_res_app {A} (f : S → A → res EncoderError S) s l k :
  fold_res f s (l ++ k) = s ← fold_res f s l; fold_res f s k.
Proof.
  revert s. induction l as [|x l IH]; intros s; [done|]. cbn. destruct (f s x); [|done..]. apply IH.
Qed.

Lemma fold_res_bind {A} (g : A → list emission) (f : S → A → res EncoderError S) l s :
  (∀ s x, x ∈ l → f s x = fold_res emit s (g x)) → fold_res f s l = fold_res emit s (l ≫= g).
Proof.
  revert s. induction l as [|x l IH]; intros s H; [done|]. cbn. rewrite fold_res_app, H by left.
  destruct (fold_res emit s (g x)); cbn; [|done..]. apply IH. intros s' y Hy. apply H. by right.
Qed.

Lemma sample_at_pixel w h stride pixels row col :
  frame_ok w h stride pixels → 0 ≤ row < h → 0 ≤ col < w →
  sample_at (zdrop (row * stride) pixels) (col * 4) = @Ok EncoderError _ (pixel stride pixels row col).
Proof.
  intros (Hw & Hh & Hs & _ & Hl) Hr Hc. specialize (Hl row col Hr Hc).
  assert (0 ≤ row * stride) by nia. pose proof (len_nonneg pixels).
  assert (∀ k, 0 ≤ k < 4 → index (zdrop (row * stride) pixels) (col * 4 + k)
    = @Ok EncoderError _ (byte_at pixels (row * stride + col * 4 + k))) as Hi.
  { intros k Hk. unfold index, byte_at, zdrop. rewrite (proj2 (Z.ltb_ge _ _)) by lia.
    rewrite lookup_drop.
    replace (Z.to_nat (row * stride) + Z.to_nat (col * 4 + k))%nat
      with (Z.to_nat (row * stride + col * 4 + k)) by lia.
    destruct (lookup_lt_is_Some_2 pixels (Z.to_nat (row * stride + col * 4 + k))) as [x Hx];
      [unfold len in *; lia|]. by rewrite Hx, (nth_lookup_Some _ _ _ _ Hx). }
  unfold sample_at, pixel. rewrite !Hi by lia. cbn [mbind res_bind].
  replace (index (zdrop (row * stride) pixels) (col * 4)) with
    (@Ok EncoderError _ (byte_at pixels (row * stride + col * 4))); [done|].
  specialize (Hi 0 ltac:(lia)). rewrite !Z.add_0_r in Hi. by rewrite Hi.
Qed.

Lemma block_emits w h stride pixels row col s :
  frame_ok w h stride pixels → 0 ≤ row < h → 0 ≤ col < w → row mod 2 = 0 → col mod 2 = 0 →
  block emit_y emit_uv w h (zdrop (row * stride) pixels) (zdrop (next h row * stride) pixels)
    row (next h row) s col
  = fold_res emit s (block_emissions w h stride pixels row col).
Proof.
  intros Hf Hr Hc Hr2 Hc2.
  assert (0 ≤ next h row < h) as Hr' by (unfold next; destruct (Z.ltb_spec (row + 1) h); lia).
  assert (0 ≤ next w col < w) as Hc' by (unfold next; destruct (Z.ltb_spec (col + 1) w); lia).
  unfold block. fold (next w col). rewrite !(sample_at_pixel w h) by done. cbn [mbind res_bind].
  unfold block_emissions, chroma.
  replace (2 * (row / 2)) with row by (Z.to_euclidean_division_equations; lia).
  replace (2 * (col / 2)) with col by (Z.to_euclidean_division_equations; lia).
  destruct (bt601_uv _) as [u v]. unfold luma, next.
  destruct (Z.ltb_spec (col + 1) w), (Z.ltb_spec (row + 1) h); cbn [app fold_res emit fst snd];
    rewrite ?Z.add_0_r;
    repeat match goal with |- context [emit_y ?s ?a ?b ?c] =>
      destruct (emit_y s a b c); cbn [mbind res_bind]; [|done..] end;
    by destruct (emit_uv _ _ _ _ _).
Qed.

Lemma for_each_block_emits w h stride pixels s :
  frame_ok w h stride pixels →
  for_each_block emit_y emit_uv w h stride pixels s = fold_res emit s (emissions w h stride pixels).
Proof.
  intros Hf. pose proof Hf as (Hw & Hh & Hs & Hl & _). unfold for_each_block, emissions.
  apply fold_res_bind. intros s' row [Hr Hr2]%evens_in; [|done]. fold (next h row).
  assert (0 ≤ next h row < h) as Hr' by (unfold next; destruct (Z.ltb_spec (row + 1) h); lia).
  pose proof (Hl row Hr). pose proof (Hl (next h row) Hr').
  unfold slice_from. rewrite !(proj2 (Z.ltb_ge _ _)) by lia. cbn [mbind res_bind].
  apply fold_res_bind. intros s2 col [Hc Hc2]%evens_in; [|done]. by apply block_emits.
Qed.
End fold.

Lemma check_bgrx_geometry_ok width height stride pixels out_w out_h r :
  u16_ok width → u16_ok height → 0 ≤ stride → len pixels < 2 ^ 63 →
  check_bgrx_geometry width height stride pixels out_w out_h = Ok r →
  r = (width, height, out_w, out_h) ∧ width ≤ out_w ∧ height ≤ out_h ∧ out_w mod 2 = 0 ∧ out_h mod 2 = 0
  ∧ frame_ok width height stride pixels.
Proof.
  intros Hw Hh Hs Hl. unfold check_bgrx_geometry.
  destruct (Z.even out_w) eqn:Ew; [|done]. destruct (Z.even out_h) eqn:Eh; [|done]. cbn [negb orb].
  destruct (Z.ltb_spec out_w width), (Z.ltb_spec out_h height); cbn [orb]; try done.
  destruct (Z.ltb_spec (len pixels) (saturating_add_usize (saturating_mul (saturating_sub height 1) stride)
    (saturating_mul width 4))) as [|Hn]; [done|]. intros [= <-].
  apply Z.even_spec in Ew as [a ->]. apply Z.even_spec in Eh as [b ->].
  split_and!; try done; try (rewrite Z.mul_comm; by rewrite Z.mod_mul).
  unfold saturating_add_usize, saturating_mul, saturating_sub, USIZE_MAX in Hn.
  assert (∀ row, 0 ≤ row < height → row * stride ≤ (height - 1) * stride) by nia.
  assert (0 < height → 0 ≤ (height - 1) * stride) by nia.
  split_and!; try lia.
  - intros row Hr. specialize (H1 row Hr). rewrite Z.max_r in Hn by lia. lia.
  - intros row col Hr Hc. specialize (H1 row Hr). rewrite Z.max_r in Hn by lia. lia.
Qed.

(** ** Writing planes *)

Definition apply_writes (ws : list (Z * Z)) (l : bytes) : bytes :=
  foldl (λ l w, <[Z.to_nat w.1 := w.2]> l) l ws.

Lemma len_apply_writes ws l : len (apply_writes ws l) = len l.
Proof.
  revert l. induction ws as [|w ws IH]; intros l; [done|]. unfold apply_writes in *. cbn [foldl].
  rewrite IH. unfold len. by rewrite length_insert.
Qed.

(** When the value is a function of the index, the order of the writes does not matter. *)
Lemma apply_writes_lookup (g : Z → Z) ws : ∀ l i,
  (∀ w, w ∈ ws → 0 ≤ w.1 ∧ w.2 = g w.1) → 0 ≤ i < len l →
  apply_writes ws l !! Z.to_nat i = if decide (i ∈ ws.*1) then Some (g i) else l !! Z.to_nat i.
Proof.
  induction ws as [|w ws IH] using rev_ind; intros l i Hw Hi; [done|].
  unfold apply_writes. rewrite foldl_snoc. fold (apply_writes ws l).
  destruct (Hw w) as [Hw1 Hw2]; [apply elem_of_app; right; by left|].
  assert (∀ v, v ∈ ws → 0 ≤ v.1 ∧ v.2 = g v.1) as Hws.
  { intros v Hv. apply Hw. apply elem_of_app. by left. }
  pose proof (len_apply_writes ws l) as Hlen.
  destruct (decide (w.1 = i)) as [<-|Hne].
  - rewrite list_lookup_insert_eq by (unfold len in *; lia). rewrite decide_True; [by rewrite Hw2|].
    rewrite fmap_app. apply elem_of_app. right. by left.
  - rewrite list_lookup_insert_ne by lia. rewrite IH by done.
    assert (i ∈ (ws ++ [w]).*1 ↔ i ∈ ws.*1) as Hin.
    { rewrite fmap_app, elem_of_app. split; [|auto]. intros [?|H%list_elem_of_singleton]; [done|by subst]. }
    destruct (decide (i ∈ ws.*1)), (decide (i ∈ (ws ++ [w]).*1)); tauto.
Qed.

Lemma store_write {E} l i v : 0 ≤ i < len l → store l i v = @Ok E _ (apply_writes [(i, v)] l).
Proof.
  intros Hi. unfold store. by rewrite (proj2 (Z.ltb_ge _ _)), (proj2 (Z.leb_gt _ _)) by lia.
Qed.
Lemma apply_writes_app ws1 ws2 l : apply_writes (ws1 ++ ws2) l = apply_writes ws2 (apply_writes ws1 l).
Proof. apply foldl_app. Qed.

Definition y_write (pitch : Z) (e : emission) : list (Z * Z) :=
  match e with EmitY r c y => [(r * pitch + c, y)] | _ => [] end.
Definition uv_write (index : Z → Z → Z) (f : Z → Z → Z) (k : Z) (e : emission) : list (Z * Z) :=
  match e with EmitUV r c u v => [(index r c + k, f u v)] | _ => [] end.
Definition uv2_write (index : Z → Z → Z) (e : emission) : list (Z * Z) :=
  match e with EmitUV r c u v => [(index r c, u); (index r c + 1, v)] | _ => [] end.

Definition in_range (n : Z) (ws : list (Z * Z)) : Prop := Forall (λ w, 0 ≤ w.1 < n) ws.

Lemma fold_planes ow uv_w es : ∀ p,
  in_range (len (y_plane p)) (es ≫= y_write ow) →
  in_range (len (u_plane p)) (es ≫= uv_write (λ r c, r * uv_w + c) (λ u _, u) 0) →
  in_range (len (v_plane p)) (es ≫= uv_write (λ r c, r * uv_w + c) (λ _ v, v) 0) →
  fold_res (emit (put_y ow) (put_uv uv_w)) p es
  = Ok {| y_plane := apply_writes (es ≫= y_write ow) (y_plane p);
          u_plane := apply_writes (es ≫= uv_write (λ r c, r * uv_w + c) (λ u _, u) 0) (u_plane p);
          v_plane := apply_writes (es ≫= uv_write (λ r c, r * uv_w + c) (λ _ v, v) 0) (v_plane p) |}.
Proof.
  induction es as [|e es IH]; intros p Hy Hu Hv; [by destruct p|].
  cbn [fold_res]. rewrite !bind_cons in *.
  apply Forall_app in Hy as [Hy1 Hy], Hu as [Hu1 Hu], Hv as [Hv1 Hv].
  rewrite !apply_writes_app. destruct e as [r c y|r c u v]; cbn [emit y_write uv_write app] in *.
  - apply Forall_cons_1 in Hy1 as [Hy1 _]; cbn [fst] in Hy1. unfold put_y. rewrite store_write by done. cbn [mbind res_bind].
    rewrite IH by (cbn [y_plane u_plane v_plane]; rewrite ?len_apply_writes; done). done.
  - apply Forall_cons_1 in Hu1 as [Hu1 _], Hv1 as [Hv1 _]; cbn [fst] in Hu1, Hv1. rewrite Z.add_0_r in *. unfold put_uv.
    rewrite !store_write by done. cbn [mbind res_bind].
    rewrite IH by (cbn [y_plane u_plane v_plane]; rewrite ?len_apply_writes; done). done.
Qed.

Lemma fold_planes2 pitch index es : ∀ p,
  in_range (len p.1) (es ≫= y_write pitch) → in_range (len p.2) (es ≫= uv2_write index) →
  fold_res (emit (put_y2 pitch) (put_uv2 index)) p es
  = Ok (apply_writes (es ≫= y_write pitch) p.1, apply_writes (es ≫= uv2_write index) p.2).
Proof.
  induction es as [|e es IH]; intros p Hy Hu; [by destruct p|].
  cbn [fold_res]. rewrite !bind_cons in *.
  apply Forall_app in Hy as [Hy1 Hy], Hu as [Hu1 Hu].
  rewrite !apply_writes_app. destruct e as [r c y|r c u v]; cbn [emit y_write uv2_write app] in *.
  - apply Forall_cons_1 in Hy1 as [Hy1 _]; cbn [fst] in Hy1. unfold put_y2.
    rewrite store_write by done. cbn [mbind res_bind]. rewrite IH by (cbn [fst snd]; rewrite ?len_apply_writes; done). done.
  - apply Forall_cons_1 in Hu1 as [Hu1 [Hu2 _]%Forall_cons_1]; cbn [fst] in Hu1, Hu2. unfold put_uv2.
    rewrite store_write by done. cbn [mbind res_bind].
    rewrite store_write by (rewrite len_apply_writes; done). cbn [mbind res_bind].
    rewrite IH by (cbn [fst snd]; rewrite ?len_apply_writes; done). cbn [fst snd]. by rewrite <-apply_writes_app.
Qed.

(** ** Membership *)

Lemma emissions_luma w h stride pixels r c y : 0 ≤ w → 0 ≤ h →
  EmitY r c y ∈ emissions w h stride pixels
  ↔ 0 ≤ r < h ∧ 0 ≤ c < w ∧ y = luma stride pixels r c.
Proof.
  intros Hw Hh. unfold emissions. rewrite list_elem_of_bind. setoid_rewrite list_elem_of_bind. split.
  - intros (row & (col & He & Hc) & Hr). apply evens_in in Hc, Hr; [|done..].
    unfold block_emissions, next in He.
    destruct (Z.ltb_spec (col + 1) w), (Z.ltb_spec (row + 1) h); cbn [app] in He;
      set_unfold; naive_solver lia.
  - intros (Hr & Hc & ->). exists (2 * (r / 2)). split.
    + exists (2 * (c / 2)). split; [|apply evens_in; Z.to_euclidean_division_equations; lia].
      unfold block_emissions, next.
      assert (r = 2 * (r / 2) ∨ r = 2 * (r / 2) + 1) as [Er|Er] by (Z.to_euclidean_division_equations; lia);
      assert (c = 2 * (c / 2) ∨ c = 2 * (c / 2) + 1) as [Ec|Ec] by (Z.to_euclidean_division_equations; lia);
      rewrite <-?Er, <-?Ec;
      rewrite ?(proj2 (Z.ltb_lt _ h)), ?(proj2 (Z.ltb_lt _ w)) by lia; cbn [app]; rewrite <-?Er, <-?Ec;
      set_unfold; tauto.
    + apply evens_in; Z.to_euclidean_division_equations; lia.
Qed.

Lemma emissions_chroma w h stride pixels r c u v : 0 ≤ w → 0 ≤ h →
  EmitUV r c u v ∈ emissions w h stride pixels
  ↔ 0 ≤ 2 * r < h ∧ 0 ≤ 2 * c < w ∧ (u, v) = chroma w h stride pixels r c.
Proof.
  intros Hw Hh. unfold emissions. rewrite list_elem_of_bind. setoid_rewrite list_elem_of_bind. split.
  - intros (row & (col & He & Hc) & Hr). apply evens_in in Hc, Hr; [|done..].
    unfold block_emissions in He.
    destruct (chroma w h stride pixels (row / 2) (col / 2)) as [u' v'] eqn:Ec.
    assert (EmitUV r c u v = EmitUV (row / 2) (col / 2) u' v') as [= -> -> -> ->].
    { destruct (col + 1 <? w), (row + 1 <? h); cbn [app fst snd] in He; set_unfold;
        repeat (destruct He as [He|He]); try discriminate He; by try exact He. }
    split_and!; try done; Z.to_euclidean_division_equations; lia.
  - intros (Hr & Hc & E). exists (2 * r). split; [|apply evens_in; Z.to_euclidean_division_equations; lia].
    exists (2 * c). split; [|apply evens_in; Z.to_euclidean_division_equations; lia].
    unfold block_emissions. rewrite !elem_of_app. right. right. right. apply list_elem_of_singleton.
    replace (2 * r / 2) with r by (Z.to_euclidean_division_equations; lia).
    replace (2 * c / 2) with c by (Z.to_euclidean_division_equations; lia). by rewrite <-E.
Qed.

(** ** The planes as tables *)

Definition table (n : Z) (f : Z → Z) : bytes := (λ i, f (Z.of_nat i)) <$> seq 0 (Z.to_nat n).

Lemma len_table n f : 0 ≤ n → len (table n f) = n.
Proof. intros Hn. unfold len, table. rewrite length_fmap, length_seq. lia. Qed.
Lemma table_lookup n f i : 0 ≤ i < n → table n f !! Z.to_nat i = Some (f i).
Proof.
  intros Hi. unfold table. rewrite list_lookup_fmap, lookup_seq_lt by lia. cbn. f_equal. f_equal. lia.
Qed.
Lemma len_zeroes n : 0 ≤ n → len (zeroes n) = n.
Proof. intros Hn. unfold len, zeroes. rewrite length_replicate. lia. Qed.

(** A buffer every index of which is known. *)
Lemma eq_table l n f : len l = n → (∀ i, 0 ≤ i < n → l !! Z.to_nat i = Some (f i)) → l = table n f.
Proof.
  intros Hl H. pose proof (len_nonneg l) as Hn. rewrite Hl in Hn.
  pose proof (len_table n f Hn) as Ht. apply list_eq. intros i.
  destruct (decide (Z.of_nat i < n)) as [Hi|Hi].
  - pose proof (H (Z.of_nat i) ltac:(lia)) as E. pose proof (table_lookup n f (Z.of_nat i) ltac:(lia)) as E'.
    rewrite Nat2Z.id in *. by rewrite E, E'.
  - rewrite !lookup_ge_None_2; [done|unfold len in *; lia..].
Qed.

Lemma apply_writes_table (P : Z → bool) (g : Z → Z) n ws :
  0 ≤ n → (∀ w, w ∈ ws → 0 ≤ w.1 ∧ w.2 = g w.1) → (∀ i, 0 ≤ i < n → i ∈ ws.*1 ↔ P i = true) →
  apply_writes ws (zeroes n) = table n (λ i, if P i then g i else 0).
Proof.
  intros Hn Hw HP. apply eq_table; [by rewrite len_apply_writes, len_zeroes|]. intros i Hi.
  rewrite (apply_writes_lookup g) by (rewrite ?len_zeroes; done). specialize (HP i Hi).
  destruct (decide (i ∈ ws.*1)) as [Hin|Hin].
  - by rewrite (proj1 HP Hin).
  - destruct (P i); [by destruct Hin; apply HP|]. unfold zeroes. by rewrite lookup_replicate_2 by lia.
Qed.

Lemma in_writes {A} (es : list A) (f : A → list (Z * Z)) w :
  w ∈ es ≫= f ↔ ∃ e, e ∈ es ∧ w ∈ f e.
Proof. rewrite list_elem_of_bind. naive_solver. Qed.

Section frame.
Context (w h stride : Z) (pixels : bytes) (Hw : 0 ≤ w) (Hh : 0 ≤ h).
Notation es := (emissions w h stride pixels).

Lemma y_writes pitch x : w ≤ pitch →
  x ∈ es ≫= y_write pitch
  ↔ ∃ r c, 0 ≤ r < h ∧ 0 ≤ c < w ∧ x = (r * pitch + c, luma stride pixels r c).
Proof.
  intros Hp. rewrite in_writes. split.
  - intros ([r c y|] & He & Hx); cbn in Hx; [|by apply elem_of_nil in Hx].
    apply list_elem_of_singleton in Hx as ->. apply emissions_luma in He as (Hr & Hc & ->); [|done..].
    by exists r, c.
  - intros (r & c & Hr & Hc & ->). exists (EmitY r c (luma stride pixels r c)).
    rewrite emissions_luma by done. split; [done|]. by left.
Qed.

Lemma uv_writes index f k x :
  x ∈ es ≫= uv_write index f k
  ↔ ∃ r c, 0 ≤ 2 * r < h ∧ 0 ≤ 2 * c < w
      ∧ x = (index r c + k, let p := chroma w h stride pixels r c in f p.1 p.2).
Proof.
  rewrite in_writes. split.
  - intros ([|r c u v] & He & Hx); cbn in Hx; [by apply elem_of_nil in Hx|].
    apply list_elem_of_singleton in Hx as ->.
    apply emissions_chroma in He as (Hr & Hc & E); [|done..]. exists r, c. by rewrite <-E.
  - intros (r & c & Hr & Hc & ->). destruct (chroma w h stride pixels r c) as [u v] eqn:E.
    exists (EmitUV r c u v). rewrite emissions_chroma by done. split; [done|]. by left.
Qed.

Lemma uv2_writes index x :
  x ∈ es ≫= uv2_write index
  ↔ x ∈ es ≫= uv_write index (λ u _, u) 0 ∨ x ∈ es ≫= uv_write index (λ _ v, v) 1.
Proof.
  rewrite !in_writes. split.
  - intros ([|r c u v] & He & Hx); cbn in Hx; [by apply elem_of_nil in Hx|].
    apply elem_of_cons in Hx as [->|Hx%list_elem_of_singleton]; [left|right; subst];
      exists (EmitUV r c u v); (split; [done|]); cbn; [rewrite Z.add_0_r|]; by left.
  - intros [([|r c u v] & He & Hx)|([|r c u v] & He & Hx)]; cbn in Hx; try (by apply elem_of_nil in Hx);
      apply list_elem_of_singleton in Hx as ->; exists (EmitUV r c u v); (split; [done|]); cbn.
    + rewrite Z.add_0_r. by left.
    + right. by left.
Qed.
End frame.

(** Row-major indices. *)
Lemma row_major pitch r c : 0 ≤ c < pitch → (r * pitch + c) / pitch = r ∧ (r * pitch + c) mod pitch = c.
Proof.
  intros Hc. rewrite (Z.add_comm _ c), Z.div_add, Z.mod_add, Z.div_small, Z.mod_small by lia. lia.
Qed.
Lemma row_major_range pitch rows r c : 0 ≤ r < rows → 0 ≤ c < pitch → 0 ≤ r * pitch + c < pitch * rows.
Proof. nia. Qed.

Definition luma_at (ow w h stride : Z) (pixels : bytes) (i : Z) : Z :=
  if (i / ow <? h) && (i mod ow <? w) then luma stride pixels (i / ow) (i mod ow) else 0.
Definition visible_block (uv_w w h i : Z) : bool := (2 * (i / uv_w) <? h) && (2 * (i mod uv_w) <? w).
Definition u_at (uv_w w h stride : Z) (pixels : bytes) (i : Z) : Z :=
  if visible_block uv_w w h i then (chroma w h stride pixels (i / uv_w) (i mod uv_w)).1 else 0.
Definition v_at (uv_w w h stride : Z) (pixels : bytes) (i : Z) : Z :=
  if visible_block uv_w w h i then (chroma w h stride pixels (i / uv_w) (i mod uv_w)).2 else 0.
Definition interleaved (u v : Z → Z) (i : Z) : Z := if Z.even i then u (i / 2) else v (i / 2).

Section tables.
Context (w h stride ow oh : Z) (pixels : bytes) (Hw : 0 ≤ w ≤ ow) (Hh : 0 ≤ h ≤ oh)
  (How : ow mod 2 = 0) (Hoh : oh mod 2 = 0).
Notation es := (emissions w h stride pixels).
Notation uv_w := (ow / 2).

Lemma y_in_range pitch n : ow ≤ pitch → (oh - 1) * pitch + ow ≤ n → in_range n (es ≫= y_write pitch).
Proof.
  intros Hp Hn. apply Forall_forall. intros x (r & c & Hr & Hc & ->)%y_writes; [|lia..]. cbn. nia.
Qed.
Lemma y_table : apply_writes (es ≫= y_write ow) (zeroes (ow * oh)) = table (ow * oh) (luma_at ow w h stride pixels).
Proof.
  apply (apply_writes_table (λ i, (i / ow <? h) && (i mod ow <? w))
    (λ i, luma stride pixels (i / ow) (i mod ow))); [nia|..].
  - intros x (r & c & Hr & Hc & ->)%y_writes; [|lia..]. cbn.
    destruct (row_major ow r c) as [-> ->]; [lia|]. split; [nia|done].
  - intros i Hi. rewrite andb_true_iff, !Z.ltb_lt, list_elem_of_fmap. split.
    + intros (x & -> & (r & c & Hr & Hc & ->)%y_writes); [|lia..]. cbn.
      destruct (row_major ow r c) as [-> ->]; lia.
    + intros [Hi1 Hi2]. exists (i, luma stride pixels (i / ow) (i mod ow)). split; [done|].
      apply y_writes; [lia..|]. exists (i / ow), (i mod ow).
      split_and!; try (Z.to_euclidean_division_equations; nia). f_equal.
      Z.to_euclidean_division_equations; lia.
Qed.

Lemma uv_in_range index f k n :
  (∀ r c, 0 ≤ 2 * r < h → 0 ≤ 2 * c < w → 0 ≤ index r c + k < n) →
  in_range n (es ≫= uv_write index f k).
Proof.
  intros Hi. apply Forall_forall. intros x (r & c & Hr & Hc & ->)%uv_writes; [|lia..]. cbn. by apply Hi.
Qed.
Lemma uv_index r c : 0 ≤ 2 * r < h → 0 ≤ 2 * c < w →
  0 ≤ r < oh / 2 ∧ 0 ≤ c < uv_w ∧ 0 ≤ r * uv_w + c < uv_w * (oh / 2).
Proof.
  intros Hr Hc.
  assert (0 ≤ r < oh / 2 ∧ 0 ≤ c < uv_w) as [? ?] by (Z.to_euclidean_division_equations; lia).
  split; [done|]. split; [done|]. by apply row_major_range.
Qed.
Lemma uv_size_nonneg : 0 ≤ uv_w * (oh / 2).
Proof. apply Z.mul_nonneg_nonneg; apply Z.div_pos; lia. Qed.
Lemma uv_w_pos i : 2 * (i mod uv_w) < w → 0 ≤ i < uv_w * (oh / 2) → 0 < uv_w.
Proof. pose proof (Z.div_pos ow 2). intros _ Hi. assert (uv_w ≠ 0) by (intros E; rewrite E in Hi; lia). lia. Qed.

(** A plane of one value per block; the index of a block in it is [m] times its number plus [k]. *)
Lemma uv_plane (f : Z → Z → Z) :
  apply_writes (es ≫= uv_write (λ r c, r * uv_w + c) f 0) (zeroes (uv_w * (oh / 2)))
  = table (uv_w * (oh / 2)) (λ i, if visible_block uv_w w h i
      then let p := chroma w h stride pixels (i / uv_w) (i mod uv_w) in f p.1 p.2 else 0).
Proof.
  apply apply_writes_table; [apply uv_size_nonneg|..].
  - intros x (r & c & Hr & Hc & ->)%uv_writes; [|lia..]. cbn [fst snd].
    pose proof (uv_index r c Hr Hc). rewrite Z.add_0_r.
    destruct (row_major uv_w r c) as [-> ->]; [lia|]. split; [lia|done].
  - intros i Hi. unfold visible_block. rewrite andb_true_iff, !Z.ltb_lt, list_elem_of_fmap. split.
    + intros (x & -> & (r & c & Hr & Hc & ->)%uv_writes); [|lia..]. cbn [fst]. rewrite Z.add_0_r.
      pose proof (uv_index r c Hr Hc). destruct (row_major uv_w r c) as [-> ->]; lia.
    + intros [Hi1 Hi2].
      assert (0 < uv_w) by (apply (uv_w_pos i); lia).
      pose proof (Z.mod_pos_bound i uv_w ltac:(lia)). pose proof (Z.div_pos i uv_w ltac:(lia) ltac:(lia)).
      pose proof (Z.div_mod i uv_w ltac:(lia)).
      eexists (i, _). split; [done|]. apply uv_writes; [lia..|].
      exists (i / uv_w), (i mod uv_w). split_and!; try lia. f_equal. lia.
Qed.

Lemma uv2_members index x :
  x ∈ es ≫= uv2_write index ↔
  ∃ r c k, 0 ≤ 2 * r < h ∧ 0 ≤ 2 * c < w ∧ 0 ≤ k < 2 ∧
    x = (index r c + k, let p := chroma w h stride pixels r c in if k =? 0 then p.1 else p.2).
Proof.
  rewrite uv2_writes, !uv_writes by lia. split.
  - intros [(r & c & Hr & Hc & ->)|(r & c & Hr & Hc & ->)]; [exists r, c, 0|exists r, c, 1];
      split_and!; lia || done.
  - intros (r & c & k & Hr & Hc & Hk & ->). assert (k = 0 ∨ k = 1) as [->| ->] by lia;
      [left|right]; exists r, c; done.
Qed.

Lemma uv2_index r c k : 0 ≤ 2 * r < h → 0 ≤ 2 * c < w → 0 ≤ k < 2 →
  ((r * uv_w + c) * 2 + k) / 2 / uv_w = r ∧ ((r * uv_w + c) * 2 + k) / 2 mod uv_w = c
  ∧ Z.even ((r * uv_w + c) * 2 + k) = (k =? 0).
Proof.
  intros Hr Hc Hk. pose proof (uv_index r c Hr Hc).
  replace (((r * uv_w + c) * 2 + k) / 2) with (r * uv_w + c) by (Z.to_euclidean_division_equations; lia).
  destruct (row_major uv_w r c) as [-> ->]; [lia|]. split_and!; try done.
  rewrite Z.add_comm, Z.mul_comm, Z.even_add_mul_2.
  assert (k = 0 ∨ k = 1) as [->| ->] by lia; done.
Qed.

Lemma uv2_plane :
  apply_writes (es ≫= uv2_write (λ r c, (r * uv_w + c) * 2)) (zeroes (2 * (uv_w * (oh / 2))))
  = table (2 * (uv_w * (oh / 2)))
      (interleaved (u_at uv_w w h stride pixels) (v_at uv_w w h stride pixels)).
Proof.
  set (g := λ i, let p := chroma w h stride pixels (i / 2 / uv_w) (i / 2 mod uv_w) in
    if Z.even i then p.1 else p.2).
  rewrite (apply_writes_table (λ i, visible_block uv_w w h (i / 2)) g).
  - unfold table. apply list_fmap_ext. intros ? i _. unfold g, interleaved, u_at, v_at.
    by destruct (visible_block _ _ _ _), (Z.even _).
  - pose proof uv_size_nonneg. lia.
  - intros x (r & c & k & Hr & Hc & Hk & ->)%uv2_members. cbn [fst snd]. pose proof (uv_index r c Hr Hc).
    unfold g. destruct (uv2_index r c k) as (-> & -> & ->); [done..|]. split; [lia|done].
  - intros i Hi. unfold visible_block. rewrite andb_true_iff, !Z.ltb_lt, list_elem_of_fmap. split.
    + intros (x & -> & (r & c & k & Hr & Hc & Hk & ->)%uv2_members). cbn [fst].
      destruct (uv2_index r c k) as (-> & -> & _); [done..|]. lia.
    + intros [Hi1 Hi2].
      assert (0 < uv_w) by (apply (uv_w_pos (i / 2)); Z.to_euclidean_division_equations; lia).
      pose proof (Z.mod_pos_bound (i / 2) uv_w ltac:(lia)).
      pose proof (Z.div_pos (i / 2) uv_w ltac:(Z.to_euclidean_division_equations; lia) ltac:(lia)).
      pose proof (Z.div_mod (i / 2) uv_w ltac:(lia)).
      eexists (i, _). split; [done|]. apply uv2_members.
      exists (i / 2 / uv_w), (i / 2 mod uv_w), (i mod 2).
      split_and!; try (Z.to_euclidean_division_equations; lia). f_equal.
      pose proof (Z.div_mod i 2 ltac:(lia)). lia.
Qed.
End tables.

Lemma clamp_u8_range lo hi v : 0 ≤ lo → hi < 256 → lo ≤ v ≤ hi → clamp_u8 v = v.
Proof. intros ???. unfold clamp_u8, as_u8. rewrite Z.mod_small; lia. Qed.

Lemma bt601_y_range r g b : u8_ok r → u8_ok g → u8_ok b →
  bt601_y r g b = Z.shiftr (66 * r + 129 * g + 25 * b + 128) 8 + 16 ∧ 16 ≤ bt601_y r g b ≤ 235.
Proof.
  intros ???. unfold bt601_y, as_u8. rewrite Z.shiftr_div_pow2 by lia. change (2 ^ 8) with 256.
  assert (16 ≤ (66 * r + 129 * g + 25 * b + 128) / 256 + 16 ≤ 235)
    by (Z.to_euclidean_division_equations; lia).
  rewrite Z.min_l, Z.mod_small by lia. lia.
Qed.

Definition rgb_ok (p : Z * Z * Z) : Prop := u8_ok p.1.1 ∧ u8_ok p.1.2 ∧ u8_ok p.2.

Lemma bt601_uv_range p q s t : rgb_ok p → rgb_ok q → rgb_ok s → rgb_ok t →
  16 ≤ (bt601_uv [p; q; s; t]).1 ≤ 240 ∧ 16 ≤ (bt601_uv [p; q; s; t]).2 ≤ 240.
Proof.
  intros (?&?&?) (?&?&?) (?&?&?) (?&?&?). unfold bt601_uv. cbn [foldl fst snd].
  rewrite !Z.shiftr_div_pow2 by lia. change (2 ^ 8) with 256.
  set (r := (0 + p.1.1 + q.1.1 + s.1.1 + t.1.1) / 4). set (g := (0 + p.1.2 + q.1.2 + s.1.2 + t.1.2) / 4).
  set (b := (0 + p.2 + q.2 + s.2 + t.2) / 4).
  assert (0 ≤ r < 256 ∧ 0 ≤ g < 256 ∧ 0 ≤ b < 256) as (?&?&?)
    by (subst r g b; split_and!; Z.to_euclidean_division_equations; lia).
  rewrite !(clamp_u8_range 16 240) by (Z.to_euclidean_division_equations; lia).
  Z.to_euclidean_division_equations; lia.
Qed.

Lemma byte_at_ok pixels i : bytes_ok pixels → u8_ok (byte_at pixels i).
Proof.
  intros H. unfold byte_at. destruct (nth_in_or_default (Z.to_nat i) pixels 0) as [Hin| ->]; [|lia].
  apply (proj1 (Forall_forall _ _) H). by apply list_elem_of_In.
Qed.
Lemma pixel_ok stride pixels r c : bytes_ok pixels → rgb_ok (pixel stride pixels r c).
Proof. intros H. split_and!; by apply byte_at_ok. Qed.

(** ** The theorems *)

Lemma check_bgrx_geometry_total width height stride pixels out_w out_h :
  check_bgrx_geometry width height stride pixels out_w out_h ≠ Panic.
Proof. unfold check_bgrx_geometry. by repeat case_match. Qed.

Lemma planar_tables w h stride pixels ow oh r :
  u16_ok w → u16_ok h → 0 ≤ stride → len pixels < 2 ^ 63 →
  check_bgrx_geometry w h stride pixels ow oh = Ok r →
  let n := ow / 2 * (oh / 2) in
  let y := table (ow * oh) (luma_at ow w h stride pixels) in
  let u := u_at (ow / 2) w h stride pixels in
  let v := v_at (ow / 2) w h stride pixels in
  0 ≤ ow * oh
  ∧ bgrx_to_i420 w h stride pixels ow oh = Ok (y ++ table n u ++ table n v)
  ∧ bgrx_to_nv12 w h stride pixels ow oh = Ok (y ++ table (2 * n) (interleaved u v)).
Proof.
  intros Hw Hh Hs Hl E n y u v. unfold bgrx_to_i420, bgrx_to_i420_into, bgrx_to_nv12. rewrite E.
  apply check_bgrx_geometry_ok in E as (-> & Hwo & Hho & Ho1 & Ho2 & Hf); [|done..].
  cbn [mbind res_bind]. rewrite !for_each_block_emits by done.
  assert (0 ≤ ow * oh) by nia. pose proof (uv_size_nonneg w h ow oh ltac:(lia) ltac:(lia)).
  rewrite fold_planes; cbn [y_plane u_plane v_plane]; rewrite ?len_zeroes by done.
  2-4: first [apply (y_in_range w h stride ow oh); lia
    |apply (uv_in_range w h stride ow oh pixels); [lia..|]; intros r c Hr Hc;
     pose proof (uv_index w h ow oh ltac:(lia) ltac:(lia) ltac:(lia) ltac:(lia) r c Hr Hc); lia].
  rewrite fold_planes2; cbn [fst snd]; rewrite ?len_zeroes by lia.
  2: apply (y_in_range w h stride ow oh); lia.
  2: { apply Forall_forall. intros x (r & c & k & Hr & Hc & Hk & ->)%(uv2_members w h stride ow oh); [|lia..].
       pose proof (uv_index w h ow oh ltac:(lia) ltac:(lia) ltac:(lia) ltac:(lia) r c Hr Hc). cbn. lia. }
  cbn [mbind res_bind y_plane u_plane v_plane].
  rewrite (y_table w h stride ow oh), !(uv_plane w h stride ow oh), (uv2_plane w h stride ow oh) by lia.
  done.
Qed.

(** C24. The two planar layouts hold the same picture: on a geometry that is accepted neither
    conversion panics, the I420 buffer is the luma plane, the U plane and the V plane and the NV12
    buffer the same luma plane with the same two chroma planes interleaved; the sample at an index is
    the luma of the visible pixel there, or the averaged chroma of its block of two by two pixels with
    the edge pixels doubled, and zero in the padding.  A geometry that is refused is refused by both
    with the same error. *)
Theorem planar_layouts_agree w h stride pixels ow oh :
  u16_ok w → u16_ok h → 0 ≤ stride → len pixels < 2 ^ 63 →
  match check_bgrx_geometry w h stride pixels ow oh with
  | Ok _ =>
      let n := ow / 2 * (oh / 2) in
      let y := table (ow * oh) (luma_at ow w h stride pixels) in
      let u := u_at (ow / 2) w h stride pixels in
      let v := v_at (ow / 2) w h stride pixels in
      bgrx_to_i420 w h stride pixels ow oh = Ok (y ++ table n u ++ table n v)
      ∧ bgrx_to_nv12 w h stride pixels ow oh = Ok (y ++ table (2 * n) (interleaved u v))
  | Err e => bgrx_to_i420 w h stride pixels ow oh = Err e ∧ bgrx_to_nv12 w h stride pixels ow oh = Err e
  | Panic => False
  end.
Proof.
  intros Hw Hh Hs Hl. destruct (check_bgrx_geometry w h stride pixels ow oh) as [r| |] eqn:E.
  - by apply (planar_tables w h stride pixels ow oh r).
  - unfold bgrx_to_i420, bgrx_to_i420_into, bgrx_to_nv12. by rewrite E.
  - by apply check_bgrx_geometry_total in E.
Qed.
Lemma planar_layouts_agree_witness :
  (let px := [10; 20; 30; 0; 40; 50; 60; 0; 70; 80; 90; 0] in
   bgrx_to_i420 3 1 12 px 4 2 = Ok [35; 61; 86; 0; 0; 0; 0; 0; 122; 122; 133; 133])
  ∧ bgrx_to_i420 3 1 12 [10; 20; 30; 0; 40; 50; 60; 0; 70; 80; 90; 0] 4 2
    = Ok (table (4 * 2) (luma_at 4 3 1 12 [10; 20; 30; 0; 40; 50; 60; 0; 70; 80; 90; 0])
          ++ table 2 (u_at 2 3 1 12 [10; 20; 30; 0; 40; 50; 60; 0; 70; 80; 90; 0])
          ++ table 2 (v_at 2 3 1 12 [10; 20; 30; 0; 40; 50; 60; 0; 70; 80; 90; 0])).
Proof.
  split; [vm_compute; reflexivity|].
  exact (proj1 (planar_layouts_agree 3 1 12 [10; 20; 30; 0; 40; 50; 60; 0; 70; 80; 90; 0] 4 2
    ltac:(lia) ltac:(lia) ltac:(lia) ltac:(vm_compute; reflexivity))).
Defined.

Lemma table_forall (P : Z → Prop) n f : (∀ i, 0 ≤ i < n → P (f i)) → Forall P (table n f).
Proof.
  intros H. apply Forall_forall. intros x (i & -> & Hi%elem_of_seq)%list_elem_of_fmap. apply H. lia.
Qed.

(** The colour arithmetic stays in the ranges of BT.601: whatever the pixels are, in an I420
    buffer every luma sample is 16 to 235, every chroma sample 16 to 240, or the zero of the padding;
    the clamps never take effect and no sample wraps around. *)
Theorem i420_sample_ranges w h stride pixels ow oh out :
  u16_ok w → u16_ok h → 0 ≤ stride → len pixels < 2 ^ 63 → bytes_ok pixels →
  bgrx_to_i420 w h stride pixels ow oh = Ok out →
  Forall (λ y, y = 0 ∨ 16 ≤ y ≤ 235) (ztake (ow * oh) out)
  ∧ Forall (λ c, c = 0 ∨ 16 ≤ c ≤ 240) (zdrop (ow * oh) out).
Proof.
  intros Hw Hh Hs Hl Hb Hout.
  destruct (check_bgrx_geometry w h stride pixels ow oh) as [r| |] eqn:E;
    [|unfold bgrx_to_i420, bgrx_to_i420_into in Hout; by rewrite E in Hout..].
  destruct (planar_tables w h stride pixels ow oh r) as (Hn & Hi & _); try done.
  rewrite Hi in Hout. injection Hout as <-.
  rewrite ztake_app_len, zdrop_app_len by (by rewrite len_table).
  assert (∀ br bc, 16 ≤ (chroma w h stride pixels br bc).1 ≤ 240 ∧ 16 ≤ (chroma w h stride pixels br bc).2 ≤ 240)
    as Hc by (intros; apply bt601_uv_range; by apply pixel_ok).
  split; [|apply Forall_app; split]; apply table_forall; intros i _; unfold luma_at, u_at, v_at;
    case_match; [right|by left|right|by left|right|by left].
  - destruct (pixel_ok stride pixels (i / ow) (i mod ow) Hb) as (?&?&?). by apply bt601_y_range.
  - exact (proj1 (Hc _ _)).
  - exact (proj2 (Hc _ _)).
Qed.
Lemma i420_sample_ranges_witness :
  Forall (λ y, y = 0 ∨ 16 ≤ y ≤ 235) (ztake (2 * 2) [235; 16; 0; 0; 128; 128])
  ∧ Forall (λ c, c = 0 ∨ 16 ≤ c ≤ 240) (zdrop (2 * 2) [235; 16; 0; 0; 128; 128]).
Proof.
  apply (i420_sample_ranges 2 1 8 [255; 255; 255; 255; 0; 0; 0; 0] 2 2);
    [lia..|vm_compute; reflexivity|repeat constructor; lia|vm_compute; reflexivity].
Defined.

(** Lookups after writes given by a function of the index. *)
Lemma apply_writes_hit (g : Z → Z) ws l i v :
  (∀ w, w ∈ ws → 0 ≤ w.1 ∧ w.2 = g w.1) → 0 ≤ i < len l → (i, v) ∈ ws →
  apply_writes ws l !! Z.to_nat i = Some v.
Proof.
  intros Hw Hi Hin. rewrite (apply_writes_lookup g) by done.
  destruct (Hw _ Hin) as [_ E]. cbn in E. rewrite E.
  rewrite decide_True; [done|]. apply list_elem_of_fmap. by exists (i, v).
Qed.
Lemma apply_writes_miss ws l i :
  (∀ w, w ∈ ws → 0 ≤ w.1) → 0 ≤ i → i ∉ ws.*1 → apply_writes ws l !! Z.to_nat i = l !! Z.to_nat i.
Proof.
  revert l. induction ws as [|w ws IH]; intros l Hw Hi Hn; [done|].
  unfold apply_writes in *. cbn [foldl]. rewrite IH; [|set_solver..].
  assert (0 ≤ w.1) by (apply Hw; by left). rewrite list_lookup_insert_ne; [done|].
  intros E. apply Hn. rewrite fmap_cons. apply elem_of_cons. left. lia.
Qed.

Lemma dest_fits rows row pitch (l : bytes) :
  0 ≤ rows → 0 ≤ row ≤ pitch → len l < 2 ^ 63 →
  saturating_add_usize (saturating_mul (saturating_sub rows 1) pitch) row ≤ len l →
  ∀ r k, 0 ≤ r < rows → 0 ≤ k < row → 0 ≤ r * pitch + k < len l.
Proof.
  intros Hr Hp Hl H r k Hr' Hk. unfold saturating_add_usize, saturating_mul, saturating_sub, USIZE_MAX in H.
  rewrite Z.max_r in H by lia. assert (0 ≤ r * pitch ≤ (rows - 1) * pitch) by nia. lia.
Qed.

(** The writes into the caller's planes are inside them, and are functions of the index. *)
Section into.
Context (w h stride ow oh : Z) (pixels y c : bytes) (y_pitch uv_pitch : Z)
  (Hw : 0 ≤ w ≤ ow) (Hh : 0 ≤ h ≤ oh) (How : ow mod 2 = 0) (Hoh : oh mod 2 = 0)
  (Hyp : ow ≤ y_pitch) (Hup : ow ≤ uv_pitch)
  (Hy : ∀ r k, 0 ≤ r < oh → 0 ≤ k < ow → 0 ≤ r * y_pitch + k < len y)
  (Hc : ∀ r k, 0 ≤ r < oh / 2 → 0 ≤ k < ow → 0 ≤ r * uv_pitch + k < len c).
Notation es := (emissions w h stride pixels).

Lemma into_y x : x ∈ es ≫= y_write y_pitch →
  0 ≤ x.1 < len y ∧ x.2 = luma stride pixels (x.1 / y_pitch) (x.1 mod y_pitch).
Proof.
  intros (r & k & Hr & Hk & ->)%y_writes; [|lia..]. cbn [fst snd].
  destruct (row_major y_pitch r k) as [-> ->]; [lia|]. split; [apply Hy; lia|done].
Qed.

Definition into_chroma (i : Z) : Z :=
  let p := chroma w h stride pixels (i / uv_pitch) (i mod uv_pitch / 2) in
  if i mod uv_pitch mod 2 =? 0 then p.1 else p.2.

Lemma into_uv x : x ∈ es ≫= uv2_write (λ r k, r * uv_pitch + k * 2) →
  0 ≤ x.1 < len c ∧ x.2 = into_chroma x.1.
Proof.
  intros (r & k & j & Hr & Hk & Hj & ->)%(uv2_members w h stride ow oh); [|lia..]. cbn [fst snd].
  destruct (uv_index w h ow oh Hw Hh How Hoh r k Hr Hk) as (Hr' & Hk' & _).
  assert (0 ≤ k * 2 + j < ow) as Hkj by (Z.to_euclidean_division_equations; lia).
  unfold into_chroma. rewrite <-Z.add_assoc. specialize (Hc r (k * 2 + j) Hr' Hkj).
  destruct (row_major uv_pitch r (k * 2 + j)) as [-> ->]; [lia|].
  rewrite (Z.add_comm (k * 2)), Z.div_add, Z.mod_add, Z.div_small, Z.mod_small in * by lia.
  split; [lia|done].
Qed.
End into.

(** What [bgrx_to_nv12_into] leaves in the caller's planes: a visible pixel's luma and a visible
    block's chroma at their places, every other byte as it was. *)
Theorem nv12_into_writes_visible w h stride pixels ow oh y y_pitch c uv_pitch y' c' :
  u16_ok w → u16_ok h → 0 ≤ stride → len pixels < 2 ^ 63 → len y < 2 ^ 63 → len c < 2 ^ 63 →
  bgrx_to_nv12_into w h stride pixels ow oh y y_pitch c uv_pitch = Ok (y', c') →
  len y' = len y ∧ len c' = len c
  ∧ (∀ row col, 0 ≤ row < h → 0 ≤ col < w →
       y' !! Z.to_nat (row * y_pitch + col) = Some (luma stride pixels row col))
  ∧ (∀ i, 0 ≤ i → (∀ row col, 0 ≤ row < h → 0 ≤ col < w → i ≠ row * y_pitch + col) →
       y' !! Z.to_nat i = y !! Z.to_nat i)
  ∧ (∀ br bc k, 0 ≤ 2 * br < h → 0 ≤ 2 * bc < w → 0 ≤ k < 2 →
       c' !! Z.to_nat (br * uv_pitch + bc * 2 + k) =
         Some (let p := chroma w h stride pixels br bc in if k =? 0 then p.1 else p.2))
  ∧ (∀ i, 0 ≤ i → (∀ br bc k, 0 ≤ 2 * br < h → 0 ≤ 2 * bc < w → 0 ≤ k < 2 →
                     i ≠ br * uv_pitch + bc * 2 + k) → c' !! Z.to_nat i = c !! Z.to_nat i).
Proof.
  intros Hw Hh Hs Hl Hly Hlc. unfold bgrx_to_nv12_into.
  destruct (check_bgrx_geometry w h stride pixels ow oh) as [r| |] eqn:E; [|done|done].
  apply check_bgrx_geometry_ok in E as (-> & Hwo & Hho & Ho1 & Ho2 & Hf); [|done..].
  cbn [mbind res_bind].
  destruct (Z.ltb_spec y_pitch ow) as [|Hyp], (Z.ltb_spec uv_pitch ow) as [|Hup]; try done. cbn [orb].
  destruct (Z.ltb_spec (len y) (saturating_add_usize (saturating_mul (saturating_sub oh 1) y_pitch) ow))
    as [|Hy]; [done|].
  destruct (Z.ltb_spec (len c)
    (saturating_add_usize (saturating_mul (saturating_sub (oh / 2) 1) uv_pitch) ow)) as [|Hc]; [done|].
  assert (0 ≤ oh / 2) by (Z.to_euclidean_division_equations; lia).
  pose proof (dest_fits oh ow y_pitch y ltac:(lia) ltac:(lia) Hly Hy) as Hy'.
  pose proof (dest_fits (oh / 2) ow uv_pitch c ltac:(lia) ltac:(lia) Hlc Hc) as Hc'.
  set (es := emissions w h stride pixels).
  pose proof (into_y w h stride ow oh pixels y y_pitch ltac:(lia) ltac:(lia) Hyp Hy') as Hys.
  pose proof (into_uv w h stride ow oh pixels c uv_pitch ltac:(lia) ltac:(lia) Ho1 Ho2 Hup Hc') as Hcs.
  cbn [orb]. rewrite for_each_block_emits by done. rewrite fold_planes2.
  2-3: apply Forall_forall; intros x Hx; first [apply (Hys x Hx)|apply (Hcs x Hx)].
  intros [= <- <-]. cbn [fst snd]. rewrite !len_apply_writes. split_and!; try done.
  - intros row col Hr Hk. apply (apply_writes_hit (λ i, luma stride pixels (i / y_pitch) (i mod y_pitch))).
    + intros x Hx. destruct (Hys x Hx) as [? ->]. split; [lia|done].
    + apply Hy'; lia.
    + apply y_writes; [lia..|]. by exists row, col.
  - intros i Hi Hn. apply apply_writes_miss; [|done|].
    + intros x Hx. apply (Hys x Hx).
    + intros ([j v] & -> & Hx)%list_elem_of_fmap. apply y_writes in Hx as (r & k & Hr & Hk & [= -> _]); [|lia..].
      by apply (Hn r k).
  - intros br bc k Hr Hb Hk. apply (apply_writes_hit (into_chroma w h stride pixels uv_pitch)).
    + intros x Hx. destruct (Hcs x Hx) as [? ->]. split; [lia|done].
    + rewrite <-Z.add_assoc.
      destruct (uv_index w h ow oh ltac:(lia) ltac:(lia) Ho1 Ho2 br bc Hr Hb) as (? & ? & _).
      apply Hc'; [done|]. Z.to_euclidean_division_equations; lia.
    + apply (uv2_members w h stride ow oh); [lia..|]. by exists br, bc, k.
  - intros i Hi Hn. apply apply_writes_miss; [|done|].
    + intros x Hx. apply (Hcs x Hx).
    + intros ([j v] & -> & Hx)%list_elem_of_fmap.
      apply (uv2_members w h stride ow oh) in Hx as (r & b & k & Hr & Hb & Hk & [= -> _]); [|lia..].
      by apply (Hn r b k).
Qed.
