(* ===== verification/H264Headers.v ===== *)
(** [rdpcore-rdpegfx/src/h264_headers.rs]: the sequence and picture parameter sets put before the
    slices of a hardware encoder that emits none. *)
From S2P Require Import Prelude.

(** ** The writer *)

Record BitWriter := { bw_bytes : bytes; bit : Z; cur : Z }.
Definition BitWriter_new : BitWriter := {| bw_bytes := []; bit := 0; cur := 0 |}.

Definition write_bit (v : Z) (b : BitWriter) : BitWriter :=
  let c := Z.lor (as_u8 (Z.shiftl (cur b) 1)) (Z.land v 1) in
  let n := bit b + 1 in
  if n =? 8 then {| bw_bytes := bw_bytes b ++ [c]; bit := 0; cur := 0 |}
  else {| bw_bytes := bw_bytes b; bit := n; cur := c |}.

(** The bits [n - 1] down to zero of [v]. *)
Fixpoint write_bits (v : Z) (n : nat) (b : BitWriter) : BitWriter :=
  match n with
  | O => b
  | S i => write_bits v i (write_bit (as_u8 (Z.land (Z.shiftr v (Z.of_nat i)) 1)) b)
  end.

Definition leading_zeros_u32 (v : Z) : Z := if v =? 0 then 32 else 31 - Z.log2 v.

(** [v + 1] overflows for the largest [v] only. *)
Definition write_ue {E} (v : Z) (b : BitWriter) : res E BitWriter :=
  if v =? 2 ^ 32 - 1 then Panic
  else
    let v := v + 1 in
    let zeros := 31 - leading_zeros_u32 v in
    let b := Nat.iter (Z.to_nat zeros) (write_bit 0) b in
    Ok (write_bits v (Z.to_nat (zeros + 1)) b).

Definition write_se {E} (v : Z) (b : BitWriter) : res E BitWriter :=
  if v <=? 0 then
    if -2 * v <? 2 ^ 31 then write_ue (as_u32 (-2 * v)) b else Panic
  else if 2 * v <? 2 ^ 31 then write_ue (as_u32 (2 * v - 1)) b else Panic.

(** The loop ends after at most seven bits. *)
Fixpoint pad_zeros (fuel : nat) (b : BitWriter) : BitWriter :=
  match fuel with
  | O => b
  | S fuel => if bit b =? 0 then b else pad_zeros fuel (write_bit 0 b)
  end.
Definition write_rbsp_trailing (b : BitWriter) : BitWriter := pad_zeros 8 (write_bit 1 b).

Definition into_bytes (b : BitWriter) : bytes := bw_bytes b.

(** ** The parameter sets *)

Definition sps_rbsp {E} (mb_width mb_height : Z) : res E bytes :=
  let b := BitWriter_new in
  let b := write_bits 66 8 b in
  let b := write_bits 192 8 b in
  let b := write_bits 41 8 b in
  b ← write_ue 0 b;
  b ← write_ue 0 b;
  b ← write_ue 0 b;
  b ← write_ue 0 b;
  b ← write_ue 1 b;
  let b := write_bit 0 b in
  b ← write_ue (Z.max 0 (mb_width - 1)) b;
  b ← write_ue (Z.max 0 (mb_height - 1)) b;
  let b := write_bit 1 b in
  let b := write_bit 1 b in
  let b := write_bit 0 b in
  let b := write_bit 0 b in
  Ok (into_bytes (write_rbsp_trailing b)).

Definition pps_rbsp {E} : res E bytes :=
  let b := BitWriter_new in
  b ← write_ue 0 b;
  b ← write_ue 0 b;
  let b := write_bit 0 b in
  let b := write_bit 0 b in
  b ← write_ue 0 b;
  b ← write_ue 0 b;
  b ← write_ue 0 b;
  let b := write_bit 0 b in
  let b := write_bits 0 2 b in
  b ← write_se 0 b;
  b ← write_se 0 b;
  b ← write_se 0 b;
  let b := write_bit 0 b in
  let b := write_bit 0 b in
  let b := write_bit 0 b in
  Ok (into_bytes (write_rbsp_trailing b)).

Definition annex_b_sps_pps {E} (coded_w coded_h : Z) : res E bytes :=
  let mb_w := Z.max (coded_w / 16) 1 in
  let mb_h := Z.max (coded_h / 16) 1 in
  sps ← sps_rbsp mb_w mb_h;
  pps ← pps_rbsp;
  Ok ([0; 0; 0; 1] ++ [103] ++ sps ++ [0; 0; 0; 1] ++ [104] ++ pps).

(** ** Bit strings *)

(** The low [n] bits of [v], the most significant first. *)
Fixpoint bits_of (n : nat) (v : Z) : list bool :=
  match n with O => [] | S n => Z.testbit v (Z.of_nat n) :: bits_of n v end.
Definition byte_bits (l : bytes) : list bool := l ≫= bits_of 8.

(** What has been written. *)
Definition written (b : BitWriter) : list bool :=
  byte_bits (bw_bytes b) ++ bits_of (Z.to_nat (bit b)) (cur b).
Definition writer_ok (b : BitWriter) : Prop := 0 ≤ bit b < 8 ∧ 0 ≤ cur b < 2 ^ bit b ∧ bytes_ok (bw_bytes b).

Lemma bits_of_snoc n v x : bits_of (S n) (2 * v + Z.b2z x) = bits_of n v ++ [x].
Proof.
  induction n as [|n IH].
  - cbn [bits_of app]. f_equal. by rewrite Z.testbit_0_r.
  - change (bits_of (S (S n)) (2 * v + Z.b2z x))
      with (Z.testbit (2 * v + Z.b2z x) (Z.of_nat (S n)) :: bits_of (S n) (2 * v + Z.b2z x)).
    rewrite IH. cbn [bits_of app]. f_equal. rewrite Nat2Z.inj_succ. apply Z.testbit_succ_r. lia.
Qed.

Lemma shl1_lor c v : 0 ≤ c < 128 → Z.lor (as_u8 (Z.shiftl c 1)) (Z.land v 1) = 2 * c + Z.b2z (Z.odd v).
Proof.
  intros Hc. rewrite Z.shiftl_mul_pow2 by lia. change (2 ^ 1) with 2. unfold as_u8.
  rewrite Z.mod_small, (Z.mul_comm c) by lia. change 1 with (Z.ones 1) at 1.
  rewrite Z.land_ones by lia. change (2 ^ 1) with 2. rewrite Zmod_odd.
  destruct c as [|p|p], (Z.odd v); done || lia.
Qed.

Lemma write_bit_ok v b : writer_ok b →
  writer_ok (write_bit v b) ∧ written (write_bit v b) = written b ++ [Z.odd v]
  ∧ bit (write_bit v b) = (bit b + 1) mod 8.
Proof.
  intros (Hb & Hc & Hl). unfold write_bit.
  assert (cur b < 128) as Hc' by (pose proof (Z.pow_le_mono_r 2 (bit b) 7); lia).
  rewrite shl1_lor by lia.
  assert (bits_of (Z.to_nat (bit b + 1)) (2 * cur b + Z.b2z (Z.odd v))
    = bits_of (Z.to_nat (bit b)) (cur b) ++ [Z.odd v]) as E.
  { replace (Z.to_nat (bit b + 1)) with (S (Z.to_nat (bit b))) by lia. apply bits_of_snoc. }
  assert (0 ≤ Z.b2z (Z.odd v) ≤ 1) by (destruct (Z.odd v); cbn; lia).
  destruct (Z.eqb_spec (bit b + 1) 8) as [H8|H8].
  - split_and!; cbn [bit cur bw_bytes]; try lia.
    + split_and!; cbn; try lia. apply bytes_ok_app. split; [done|]. apply Forall_singleton.
      unfold byte_ok. lia.
    + unfold written. cbn [bit cur bw_bytes]. rewrite <-app_assoc, <-E, H8.
      change (bits_of (Z.to_nat 0) 0) with (@nil bool). rewrite app_nil_r.
      unfold byte_bits. by rewrite bind_app.
    + by rewrite H8.
  - split_and!; cbn [bit cur bw_bytes]; try lia; try done.
    + split_and!; cbn; try lia; [|done]. rewrite Z.pow_add_r by lia. lia.
    + unfold written. cbn [bit cur bw_bytes]. by rewrite E, app_assoc.
    + rewrite Z.mod_small; lia.
Qed.

(** A computation on the writer that appends some bits. *)
Definition appends (f : BitWriter → BitWriter) (l : list bool) : Prop :=
  ∀ b, writer_ok b → writer_ok (f b) ∧ written (f b) = written b ++ l.
Definition appends_res {E} (f : BitWriter → res E BitWriter) (l : list bool) : Prop :=
  ∀ b, writer_ok b → ∃ b', f b = Ok b' ∧ writer_ok b' ∧ written b' = written b ++ l.

Lemma write_bit_appends v : appends (write_bit v) [Z.odd v].
Proof. intros b Hb. destruct (write_bit_ok v b Hb) as (? & ? & _). done. Qed.

Lemma write_bits_appends v n : appends (write_bits v n) (bits_of n v).
Proof.
  induction n as [|n IH]; intros b Hb; [by rewrite app_nil_r|]. cbn [write_bits bits_of].
  destruct (write_bit_appends (as_u8 (Z.land (Z.shiftr v (Z.of_nat n)) 1)) b Hb) as [Hb' E].
  destruct (IH _ Hb') as [Hb2 E2]. split; [done|]. rewrite E2, E, <-app_assoc. f_equal. cbn [app]. f_equal.
  change 1 with (Z.ones 1). rewrite Z.land_ones by lia. change (2 ^ 1) with 2. rewrite Zmod_odd.
  replace (Z.odd (Z.shiftr v (Z.of_nat n))) with (Z.testbit v (Z.of_nat n)).
  - by destruct (Z.testbit v (Z.of_nat n)).
  - by rewrite <-Z.bit0_odd, Z.shiftr_spec by lia.
Qed.

Lemma write_zeros_appends n : appends (Nat.iter n (write_bit 0)) (replicate n false).
Proof.
  induction n as [|n IH]; intros b Hb; [by rewrite app_nil_r|]. cbn [Nat.iter nat_rect].
  destruct (IH b Hb) as [Hb' E]. destruct (write_bit_appends 0 _ Hb') as [Hb2 E2].
  split; [done|]. etrans; [exact E2|]. rewrite E, <-app_assoc. f_equal.
  by rewrite (replicate_S_end n).
Qed.

(** The Exp-Golomb code of [v]: as many zeros as [v + 1] has bits after its first, then [v + 1]. *)
Definition ue_bits (v : Z) : list bool :=
  let k := Z.to_nat (Z.log2 (v + 1)) in replicate k false ++ bits_of (S k) (v + 1).
Definition se_code (v : Z) : Z := if v <=? 0 then -2 * v else 2 * v - 1.

Lemma write_ue_appends {E} v : 0 ≤ v < 2 ^ 32 - 1 → appends_res (@write_ue E v) (ue_bits v).
Proof.
  intros Hv b Hb. unfold write_ue. destruct (Z.eqb_spec v (2 ^ 32 - 1)); [lia|].
  assert (31 - leading_zeros_u32 (v + 1) = Z.log2 (v + 1)) as ->.
  { unfold leading_zeros_u32. destruct (Z.eqb_spec (v + 1) 0); lia. }
  pose proof (Z.log2_nonneg (v + 1)). replace (Z.to_nat (Z.log2 (v + 1) + 1)) with (S (Z.to_nat (Z.log2 (v + 1)))) by lia.
  eexists. split; [done|]. destruct (write_zeros_appends (Z.to_nat (Z.log2 (v + 1))) b Hb) as [Hb' E'].
  destruct (write_bits_appends (v + 1) (S (Z.to_nat (Z.log2 (v + 1)))) _ Hb') as [Hb2 E2].
  split; [done|]. unfold ue_bits. by rewrite E2, E', app_assoc.
Qed.

Lemma write_se_appends {E} v : - 2 ^ 30 < v < 2 ^ 30 → appends_res (@write_se E v) (ue_bits (se_code v)).
Proof.
  intros Hv. unfold write_se, se_code, appends_res. intros b Hb.
  destruct (Z.leb_spec v 0); (rewrite (proj2 (Z.ltb_lt _ _)) by lia); unfold as_u32; rewrite Z.mod_small by lia;
    apply write_ue_appends; lia || done.
Qed.

(** The stop bit and the zeros up to the end of the byte. *)
Lemma pad_zeros_aligns n : ∀ b, writer_ok b → (bit b = 0 ∨ 8 - bit b ≤ Z.of_nat n) →
  let k := if bit b =? 0 then O else Z.to_nat (8 - bit b) in
  bit (pad_zeros n b) = 0 ∧ writer_ok (pad_zeros n b)
  ∧ written (pad_zeros n b) = written b ++ replicate k false.
Proof.
  induction n as [|n IH]; intros b Hb Hn k; subst k.
  { destruct Hb as (? & ? & ?). assert (bit b = 0) as E by lia. cbn [pad_zeros]. rewrite E.
    rewrite app_nil_r. by split_and!. }
  cbn [pad_zeros]. destruct (Z.eqb_spec (bit b) 0) as [E|E].
  { rewrite app_nil_r. by split_and!. }
  pose proof Hb as (Hbit & _ & _). destruct (write_bit_ok 0 b Hb) as (Hb' & Ew & Ebit).
  destruct (IH (write_bit 0 b) Hb') as (E0 & Hok & Ek).
  { rewrite Ebit. destruct (decide (bit b = 7)) as [->|]; [by left|]. right. rewrite Z.mod_small; lia. }
  split_and!; try done. rewrite Ek, Ew, <-app_assoc. f_equal. rewrite Ebit.
  destruct (decide (bit b = 7)) as [->|H7]; [done|].
  rewrite Z.mod_small by lia. rewrite (proj2 (Z.eqb_neq _ _)) by lia.
  by replace (Z.to_nat (8 - bit b)) with (S (Z.to_nat (8 - (bit b + 1)))) by lia.
Qed.

Definition trailing (b : BitWriter) : list bool := true :: replicate (Z.to_nat (7 - bit b)) false.

Lemma write_rbsp_trailing_ok b : writer_ok b →
  bytes_ok (into_bytes (write_rbsp_trailing b))
  ∧ byte_bits (into_bytes (write_rbsp_trailing b)) = written b ++ trailing b.
Proof.
  intros Hb. pose proof Hb as (Hbit & _ & _). destruct (write_bit_ok 1 b Hb) as (Hb' & Ew & Ebit).
  destruct (pad_zeros_aligns 8 (write_bit 1 b) Hb') as (E0 & (_ & _ & Hok) & Ek).
  { right. rewrite Ebit. Z.to_euclidean_division_equations; lia. }
  unfold write_rbsp_trailing, into_bytes. split; [done|].
  replace (byte_bits (bw_bytes (pad_zeros 8 (write_bit 1 b)))) with (written (pad_zeros 8 (write_bit 1 b))).
  - rewrite Ek, Ew, <-app_assoc, Ebit. f_equal. unfold trailing. cbn [app]. f_equal.
    destruct (decide (bit b = 7)) as [->|H7]; [done|]. rewrite Z.mod_small by lia.
    rewrite (proj2 (Z.eqb_neq _ _)) by lia. do 2 f_equal. lia.
  - unfold written. rewrite E0. apply app_nil_r.
Qed.

(** ** Reading parameter sets *)

Definition read_bit (l : list bool) : option (bool * list bool) :=
  match l with x :: l => Some (x, l) | [] => None end.
Fixpoint read_bits (n : nat) (acc : Z) (l : list bool) : option (Z * list bool) :=
  match n with
  | O => Some (acc, l)
  | S n => match l with x :: l => read_bits n (2 * acc + Z.b2z x) l | [] => None end
  end.
(** [ue(v)]: [k] zeros, a one, and [k] bits; the value is [2 ^ k - 1] more than those bits. *)
Fixpoint read_ue_from (k : nat) (l : list bool) : option (Z * list bool) :=
  match l with
  | false :: l => read_ue_from (S k) l
  | true :: l => '(x, l) ← read_bits k 0 l; Some (2 ^ Z.of_nat k - 1 + x, l)
  | [] => None
  end.
Definition read_ue : list bool → option (Z * list bool) := read_ue_from 0.
Definition read_se (l : list bool) : option (Z * list bool) :=
  '(k, l) ← read_ue l; Some (if Z.odd k then (k + 1) / 2 else - (k / 2), l).
(** [rbsp_trailing_bits], and nothing after them. *)
Definition read_trailing (l : list bool) : option unit :=
  match l with
  | true :: l => if forallb negb l && (length l <? 8)%nat then Some tt else None
  | _ => None
  end.

Lemma read_bits_bits n : ∀ v acc l, read_bits n acc (bits_of n v ++ l)
  = Some (acc * 2 ^ Z.of_nat n + v mod 2 ^ Z.of_nat n, l).
Proof.
  induction n as [|n IH]; intros v acc l; cbn [read_bits bits_of app].
  - do 2 f_equal. change (2 ^ Z.of_nat 0) with 1. rewrite Z.mod_1_r. lia.
  - rewrite IH. do 2 f_equal. rewrite Nat2Z.inj_succ, Z.pow_succ_r by lia.
    assert (0 < 2 ^ Z.of_nat n) by lia.
    rewrite (Z.mul_comm 2 (2 ^ _)), Z.rem_mul_r by lia.
    rewrite <-Z.shiftr_div_pow2, <-(Z.bit0_mod (Z.shiftr _ _)), Z.shiftr_spec, Z.add_0_l by lia. lia.
Qed.

Lemma read_ue_bits v l : 0 ≤ v → read_ue (ue_bits v ++ l) = Some (v, l).
Proof.
  intros Hv. unfold read_ue, ue_bits. pose proof (Z.log2_nonneg (v + 1)).
  set (k := Z.to_nat (Z.log2 (v + 1))).
  assert (∀ n j r, read_ue_from j (replicate n false ++ r) = read_ue_from (n + j) r) as Hz.
  { induction n as [|n IH]; intros j r; [done|]. cbn [replicate app read_ue_from]. rewrite IH. f_equal. lia. }
  rewrite <-app_assoc, Hz, Nat.add_0_r. cbn [bits_of app].
  replace (Z.testbit (v + 1) (Z.of_nat k)) with true
    by (unfold k; rewrite Z2Nat.id by lia; symmetry; apply Z.bit_log2; lia).
  cbn [read_ue_from]. rewrite read_bits_bits. cbn [mbind option_bind]. do 2 f_equal.
  unfold k. rewrite Z2Nat.id by lia. destruct (Z.log2_spec (v + 1)); [lia|].
  rewrite Z.pow_succ_r in * by lia.
  rewrite (Z.mod_eq (v + 1)) by lia.
  assert ((v + 1) / 2 ^ Z.log2 (v + 1) = 1) as -> by (symmetry; apply Z.div_unique with (v + 1 - 2 ^ Z.log2 (v + 1)); lia).
  lia.
Qed.

(** The descriptors of the syntax tables: [u(n)], [ue(v)] and [se(v)]. *)
Inductive descriptor := Du (n : nat) | Due | Dse.
Definition read_field (d : descriptor) (l : list bool) : option (Z * list bool) :=
  match d with Du n => read_bits n 0 l | Due => read_ue l | Dse => read_se l end.
Fixpoint read_fields (ds : list descriptor) (l : list bool) : option (list Z * list bool) :=
  match ds with
  | [] => Some ([], l)
  | d :: ds => '(v, l) ← read_field d l; '(vs, l) ← read_fields ds l; Some (v :: vs, l)
  end.
Definition read_unit (ds : list descriptor) (rbsp : bytes) : option (list Z) :=
  '(vs, l) ← read_fields ds (byte_bits rbsp); _ ← read_trailing l; Some vs.

(** [seq_parameter_set_rbsp] for the Baseline profile with picture order count type 0 and frame
    macroblocks only: profile, constraint flags, level, id, frame number and picture order count
    sizes, reference frames, gaps, width and height in macroblocks less one, flags. *)
Definition sps_syntax : list descriptor :=
  [Du 8; Du 8; Du 8; Due; Due; Due; Due; Due; Du 1; Due; Due; Du 1; Du 1; Du 1; Du 1].
(** [pic_parameter_set_rbsp] with one slice group. *)
Definition pps_syntax : list descriptor :=
  [Due; Due; Du 1; Du 1; Due; Due; Due; Du 1; Du 2; Dse; Dse; Dse; Du 1; Du 1; Du 1].

Definition field_bits (d : descriptor) (v : Z) : list bool :=
  match d with Du n => bits_of n v | Due => ue_bits v | Dse => ue_bits (se_code v) end.
Definition field_ok (d : descriptor) (v : Z) : Prop :=
  match d with Du n => 0 ≤ v < 2 ^ Z.of_nat n | Due => 0 ≤ v < 2 ^ 32 - 1 | Dse => - 2 ^ 30 < v < 2 ^ 30 end.

Lemma read_field_bits d v l : field_ok d v → read_field d (field_bits d v ++ l) = Some (v, l).
Proof.
  intros H. destruct d as [n| |]; cbn in H |- *.
  - rewrite read_bits_bits, Z.mod_small by lia. done.
  - rewrite read_ue_bits by lia. done.
  - unfold read_se. rewrite read_ue_bits by (unfold se_code; destruct (Z.leb_spec v 0); lia).
    cbn [mbind option_bind]. do 2 f_equal. unfold se_code.
    destruct (Z.leb_spec v 0).
    + replace (-2 * v) with (2 * - v) by lia. rewrite Z.odd_mul. cbn [Z.odd andb].
      rewrite Z.mul_comm, Z.div_mul by lia. lia.
    + replace (2 * v - 1) with (1 + 2 * (v - 1)) by lia. rewrite Z.odd_add_mul_2. cbn [Z.odd].
      replace (1 + 2 * (v - 1) + 1) with (v * 2) by lia. by rewrite Z.div_mul by lia.
Qed.

Fixpoint fields_bits (ds : list descriptor) (vs : list Z) : list bool :=
  match ds, vs with d :: ds, v :: vs => field_bits d v ++ fields_bits ds vs | _, _ => [] end.

Lemma read_fields_bits ds : ∀ vs l, Forall2 field_ok ds vs →
  read_fields ds (fields_bits ds vs ++ l) = Some (vs, l).
Proof.
  induction ds as [|d ds IH]; intros vs l H; inversion H as [|? v ? vs' Hv Hvs]; subst; [done|].
  cbn [fields_bits read_fields]. rewrite <-app_assoc, read_field_bits by done.
  cbn [mbind option_bind]. by rewrite IH.
Qed.

Lemma read_unit_trailing ds vs b l : Forall2 field_ok ds vs → writer_ok b →
  byte_bits l = fields_bits ds vs ++ trailing b → read_unit ds l = Some vs.
Proof.
  intros Hv (Hb & _) E. unfold read_unit. rewrite E, read_fields_bits by done.
  cbn [mbind option_bind]. unfold trailing, read_trailing.
  rewrite length_replicate, (proj2 (Nat.ltb_lt _ _)) by lia.
  replace (forallb negb (replicate (Z.to_nat (7 - bit b)) false)) with true; [done|].
  induction (Z.to_nat (7 - bit b)); [done|]. cbn. done.
Qed.

(** A parameter set, one descriptor after the other. *)
Definition write_field {E} (d : descriptor) (v : Z) (b : BitWriter) : res E BitWriter :=
  match d with Du n => Ok (write_bits v n b) | Due => write_ue v b | Dse => write_se v b end.
Fixpoint write_fields {E} (ds : list descriptor) (vs : list Z) (b : BitWriter) : res E BitWriter :=
  match ds, vs with
  | d :: ds, v :: vs => b ← write_field d v b; write_fields ds vs b
  | _, _ => Ok b
  end.

Lemma write_fields_appends {E} ds vs : Forall2 field_ok ds vs →
  appends_res (@write_fields E ds vs) (fields_bits ds vs).
Proof.
  intros H b Hb. revert b Hb. induction H as [|d v ds vs Hv _ IH]; intros b Hb.
  { exists b. by rewrite app_nil_r. }
  cbn [write_fields fields_bits].
  assert (appends_res (@write_field E d v) (field_bits d v)) as Hf.
  { destruct d as [n| |]; cbn in Hv |- *; [|by apply write_ue_appends|by apply write_se_appends].
    intros b' Hb'. destruct (write_bits_appends v n b' Hb') as [? ?]. by eexists. }
  destruct (Hf b Hb) as (b' & -> & Hb' & E'). cbn [mbind res_bind].
  destruct (IH b' Hb') as (b2 & -> & Hb2 & E2). exists b2. by rewrite E2, E', app_assoc.
Qed.

Definition sps_fields (mb_width mb_height : Z) : list Z :=
  [66; 192; 41; 0; 0; 0; 0; 1; 0; Z.max 0 (mb_width - 1); Z.max 0 (mb_height - 1); 1; 1; 0; 0].
Definition pps_fields : list Z := replicate 15 0.

Lemma write_bits_0 b : write_bits 0 1 b = write_bit 0 b.
Proof. done. Qed.
Lemma write_bits_1 b : write_bits 1 1 b = write_bit 1 b.
Proof. done. Qed.
#[local] Hint Rewrite write_bits_0 write_bits_1 : h264.

(** The writer's calls are the fields in order. *)
Ltac same_fields :=
  cbn [write_fields write_field mbind res_bind];
  repeat (autorewrite with h264;
          match goal with |- ?m ≫= _ = _ => destruct m; cbn [mbind res_bind]; [|done..] end);
  autorewrite with h264; done.

Lemma sps_rbsp_fields {E} w h :
  sps_rbsp w h = b ← @write_fields E sps_syntax (sps_fields w h) BitWriter_new;
                 Ok (into_bytes (write_rbsp_trailing b)).
Proof. unfold sps_rbsp, sps_fields, sps_syntax. same_fields. Qed.
Lemma pps_rbsp_fields {E} :
  pps_rbsp = b ← @write_fields E pps_syntax pps_fields BitWriter_new;
             Ok (into_bytes (write_rbsp_trailing b)).
Proof. unfold pps_rbsp, pps_fields, pps_syntax. cbn [replicate]. same_fields. Qed.

Lemma BitWriter_new_ok : writer_ok BitWriter_new.
Proof. split_and!; cbn; try lia. constructor. Qed.

Lemma unit_ok {E} ds vs : Forall2 field_ok ds vs →
  ∃ b, @write_fields E ds vs BitWriter_new = Ok b ∧ writer_ok b
    ∧ byte_bits (into_bytes (write_rbsp_trailing b)) = fields_bits ds vs ++ trailing b.
Proof.
  intros H. destruct (write_fields_appends (E := E) ds vs H BitWriter_new BitWriter_new_ok) as (b & Hb & Hok & Hw).
  exists b. split_and!; [done..|]. rewrite (proj2 (write_rbsp_trailing_ok b Hok)). by rewrite Hw.
Qed.

Lemma sps_fields_ok w h : 0 ≤ w < 2 ^ 31 → 0 ≤ h < 2 ^ 31 → Forall2 field_ok sps_syntax (sps_fields w h).
Proof. intros. repeat constructor; cbn; lia. Qed.

(** ** Start codes *)

(** Three bytes that a byte stream must not have inside a unit. *)
Fixpoint no_emulation (l : bytes) : bool :=
  match l with
  | a :: (b :: c :: _) as l => negb ((a =? 0) && (b =? 0) && (c <=? 3)) && no_emulation l
  | _ => true
  end.

(** Such bytes are twenty-two zero bits at the start of a byte. *)
Definition zero22 (l : list bool) : bool := (22 <=? length l)%nat && forallb negb (take 22 l).
Fixpoint aligned_ok (n : nat) (l : list bool) : bool :=
  match n with O => true | S n => negb (zero22 l) && aligned_ok n (drop 8 l) end.

Lemma byte_bits_cons b l : byte_bits (b :: l) = bits_of 8 b ++ byte_bits l.
Proof. apply bind_cons. Qed.

Lemma aligned_no_emulation l n : (length l ≤ n)%nat → bytes_ok l →
  aligned_ok n (byte_bits l) = true → no_emulation l = true.
Proof.
  revert n. induction l as [|a l IH]; intros n Hn Hl H; [done|].
  destruct n as [|n]; [cbn in Hn; lia|]. cbn [aligned_ok] in H. apply andb_true_iff in H as [Hz H].
  apply bytes_ok_cons in Hl as [_ Hl]. rewrite byte_bits_cons in H, Hz.
  rewrite drop_app_length' in H by done. specialize (IH n ltac:(cbn in Hn; lia) Hl H).
  destruct l as [|b [|c l]]; [done..|]. cbn [no_emulation] in *. rewrite IH, andb_true_r.
  destruct (Z.eqb_spec a 0) as [->|]; [|done]. destruct (Z.eqb_spec b 0) as [->|]; [|done].
  destruct (Z.leb_spec c 3); [|done]. exfalso.
  apply bytes_ok_cons in Hl as [_ [Hc _]%bytes_ok_cons]. rewrite !byte_bits_cons in Hz.
  assert (c = 0 ∨ c = 1 ∨ c = 2 ∨ c = 3) as Hc' by lia.
  destruct Hc' as [->|[->|[->| ->]]]; discriminate Hz.
Qed.

(** Fewer ones make more start codes. *)
Definition le_bits : list bool → list bool → Prop := Forall2 (λ a b : bool, a = true → b = true).

Lemma le_bits_refl l : le_bits l l.
Proof. by induction l; constructor. Qed.
Lemma le_bits_zeros l n : n = length l → le_bits (replicate n false) l.
Proof. intros ->. induction l; constructor; done. Qed.
Lemma zero22_mono l l' : le_bits l l' → zero22 l' = true → zero22 l = true.
Proof.
  intros H. unfold zero22. rewrite !andb_true_iff, (Forall2_length _ _ _ H). intros [Hl Hz]. split; [done|].
  assert (le_bits (take 22 l) (take 22 l')) as Ht by by apply Forall2_take.
  revert Hz. induction Ht as [|a b k k' Hab _ IH]; [done|]. cbn. rewrite !andb_true_iff.
  intros [Hb Hk]. split; [|by apply IH]. destruct a, b; naive_solver.
Qed.
Lemma aligned_ok_mono n : ∀ l l', le_bits l l' → aligned_ok n l = true → aligned_ok n l' = true.
Proof.
  induction n as [|n IH]; intros l l' H; [done|]. cbn [aligned_ok]. rewrite !andb_true_iff.
  intros [Hz Hd]. split; [|by eapply IH; [apply Forall2_drop|]].
  destruct (zero22 l') eqn:E; [|done]. by rewrite (zero22_mono l l' H E) in Hz.
Qed.

Lemma length_bits_of n v : length (bits_of n v) = n.
Proof. induction n as [|n IH]; [done|]. cbn [bits_of length]. by rewrite IH. Qed.

Definition ue_min (k : nat) : list bool := replicate k false ++ true :: replicate k false.
Lemma ue_min_le v : 0 ≤ v → le_bits (ue_min (Z.to_nat (Z.log2 (v + 1)))) (ue_bits v).
Proof.
  intros Hv. unfold ue_bits, ue_min. apply Forall2_app; [apply le_bits_refl|]. cbn [bits_of].
  constructor.
  - intros _. rewrite Z2Nat.id by apply Z.log2_nonneg. apply Z.bit_log2. lia.
  - apply le_bits_zeros. by rewrite length_bits_of.
Qed.

Definition sps_head : list bool := fields_bits (take 9 sps_syntax) [66; 192; 41; 0; 0; 0; 0; 1; 0].
Definition sps_min (kw kh p : nat) : list bool :=
  sps_head ++ ue_min kw ++ ue_min kh ++ [true; true; false; false] ++ true :: replicate p false.

Lemma sps_min_ok kw kh p : (kw < 12)%nat → (kh < 12)%nat → (p < 8)%nat →
  aligned_ok 16 (sps_min kw kh p) = true ∧ (length (sps_min kw kh p) ≤ 128)%nat.
Proof.
  intros Hw Hh Hp.
  set (ok := λ kw kh p, aligned_ok 16 (sps_min kw kh p) && (length (sps_min kw kh p) <=? 128)%nat).
  assert (forallb (λ kw, forallb (λ kh, forallb (ok kw kh) (seq 0 8)) (seq 0 12)) (seq 0 12) = true) as H
    by (vm_compute; reflexivity).
  rewrite forallb_forall in H. specialize (H kw ltac:(apply in_seq; lia)).
  rewrite forallb_forall in H. specialize (H kh ltac:(apply in_seq; lia)).
  rewrite forallb_forall in H. specialize (H p ltac:(apply in_seq; lia)).
  apply andb_true_iff in H as [Ha Hl]. split; [done|]. by apply Nat.leb_le.
Qed.

Lemma length_byte_bits l : length (byte_bits l) = (8 * length l)%nat.
Proof.
  induction l as [|b l IH]; [done|]. rewrite byte_bits_cons, length_app, length_bits_of, IH. cbn [length]. lia.
Qed.

Lemma sps_no_emulation w h b : 1 ≤ w < 4096 → 1 ≤ h < 4096 → writer_ok b →
  let rbsp := into_bytes (write_rbsp_trailing b) in
  bytes_ok rbsp → byte_bits rbsp = fields_bits sps_syntax (sps_fields w h) ++ trailing b →
  no_emulation rbsp = true.
Proof.
  intros Hw Hh (Hb & _) rbsp Hok E.
  set (kw := Z.to_nat (Z.log2 w)). set (kh := Z.to_nat (Z.log2 h)).
  assert (∀ x, 1 ≤ x < 4096 → 0 ≤ Z.log2 x < 12) as Hlog.
  { intros x Hx. split; [apply Z.log2_nonneg|]. apply Z.log2_lt_pow2; lia. }
  pose proof (Hlog w Hw). pose proof (Hlog h Hh).
  destruct (sps_min_ok kw kh (Z.to_nat (7 - bit b))) as [Ha Hl]; [lia..|].
  assert (le_bits (sps_min kw kh (Z.to_nat (7 - bit b))) (byte_bits rbsp)) as Hle.
  { rewrite E. change (fields_bits sps_syntax (sps_fields w h)) with
      (sps_head ++ ue_bits (Z.max 0 (w - 1)) ++ ue_bits (Z.max 0 (h - 1)) ++ [true; true; false; false]).
    unfold sps_min. rewrite <-!app_assoc. rewrite !Z.max_r by lia.
    pose proof (ue_min_le (w - 1) ltac:(lia)) as Hmw. pose proof (ue_min_le (h - 1) ltac:(lia)) as Hmh.
    rewrite Z.sub_add in Hmw, Hmh.
    repeat (apply Forall2_app; [first [exact Hmw|exact Hmh|apply le_bits_refl]|]). apply le_bits_refl. }
  apply aligned_no_emulation with 16%nat; [|done|by eapply aligned_ok_mono].
  pose proof (Forall2_length _ _ _ Hle) as Hlen. rewrite length_byte_bits in Hlen. lia.
Qed.

(** What the client's decoder reads from the headers: for every coded size the two units follow
    their start codes, the sequence parameter set decodes to the fields written, with the size in
    macroblocks (at least one), the picture parameter set decodes to zeros, and neither unit holds
    three bytes that would be taken for a start code, although no emulation prevention is written. *)
Theorem annex_b_sps_pps_decodes {E} coded_w coded_h : u16_ok coded_w → u16_ok coded_h →
  ∃ sps pps, @annex_b_sps_pps E coded_w coded_h
      = Ok ([0; 0; 0; 1] ++ 103 :: sps ++ [0; 0; 0; 1] ++ 104 :: pps)
  ∧ read_unit sps_syntax sps
    = Some [66; 192; 41; 0; 0; 0; 0; 1; 0; Z.max (coded_w / 16) 1 - 1; Z.max (coded_h / 16) 1 - 1; 1; 1; 0; 0]
  ∧ read_unit pps_syntax pps = Some (replicate 15 0)
  ∧ no_emulation (103 :: sps) = true ∧ no_emulation (104 :: pps) = true.
Proof.
  intros Hw Hh. set (mw := Z.max (coded_w / 16) 1). set (mh := Z.max (coded_h / 16) 1).
  assert (1 ≤ mw < 4096 ∧ 1 ≤ mh < 4096) as [Hmw Hmh]
    by (subst mw mh; Z.to_euclidean_division_equations; lia).
  pose proof (sps_fields_ok mw mh ltac:(lia) ltac:(lia)) as Hf.
  destruct (unit_ok (E := E) sps_syntax (sps_fields mw mh) Hf) as (b & Eb & Hb & Hbits).
  exists (into_bytes (write_rbsp_trailing b)), [206; 56; 128].
  pose proof (write_rbsp_trailing_ok b Hb) as [Hok _].
  split_and!.
  - unfold annex_b_sps_pps. fold mw mh. rewrite sps_rbsp_fields, Eb. reflexivity.
  - rewrite (read_unit_trailing sps_syntax (sps_fields mw mh) b) by done.
    unfold sps_fields. by rewrite !Z.max_r by lia.
  - vm_compute. reflexivity.
  - pose proof (sps_no_emulation mw mh b Hmw Hmh Hb Hok Hbits) as Hn.
    destruct (into_bytes (write_rbsp_trailing b)) as [|x [|y l]]; [done..|]. cbn [no_emulation] in *. by rewrite Hn.
  - done.
Qed.
Lemma annex_b_sps_pps_decodes_witness :
  @annex_b_sps_pps unit 1920 1088 = Ok [0; 0; 0; 1; 103; 66; 192; 41; 244; 3; 192; 17; 50; 0; 0; 0; 1; 104; 206; 56; 128]
  ∧ ∃ sps pps, @annex_b_sps_pps unit 1920 1088 = Ok ([0; 0; 0; 1] ++ 103 :: sps ++ [0; 0; 0; 1] ++ 104 :: pps)
    ∧ read_unit sps_syntax sps = Some [66; 192; 41; 0; 0; 0; 0; 1; 0; 119; 67; 1; 1; 0; 0]
    ∧ read_unit pps_syntax pps = Some (replicate 15 0)
    ∧ no_emulation (103 :: sps) = true ∧ no_emulation (104 :: pps) = true.
Proof.
  split; [vm_compute; reflexivity|]. exact (annex_b_sps_pps_decodes 1920 1088 ltac:(lia) ltac:(lia)).
Defined.
