(* ===== verification/GfxPdu.v ===== *)
(** [rdpcore-rdpegfx/src/pdu.rs]: the graphics pipeline's wire format, and how a client
    reads it. *)
From S2P Require Import Prelude Cursor.

Definition CMD_WIRE_TO_SURFACE_1 : Z := 0x0001.
Definition CMD_CREATE_SURFACE : Z := 0x0009.
Definition CMD_DELETE_SURFACE : Z := 0x000a.
Definition CMD_START_FRAME : Z := 0x000b.
Definition CMD_END_FRAME : Z := 0x000c.
Definition CMD_FRAME_ACKNOWLEDGE : Z := 0x000d.
Definition CMD_RESET_GRAPHICS : Z := 0x000e.
Definition CMD_MAP_SURFACE_TO_OUTPUT : Z := 0x000f.
Definition CMD_CACHE_IMPORT_OFFER : Z := 0x0010.
Definition CMD_CAPS_ADVERTISE : Z := 0x0012.
Definition CMD_CAPS_CONFIRM : Z := 0x0013.
Definition CODEC_AVC420 : Z := 0x000b.
Definition PIXEL_FORMAT_XRGB : Z := 0x20.
Definition CAP_VERSION_8 : Z := 0x00080004.
Definition CAP_VERSION_81 : Z := 0x00080005.
Definition CAP_VERSION_10 : Z := 0x000a0002.
Definition CAP_VERSION_101 : Z := 0x000a0003.
Definition CAP_VERSION_102 : Z := 0x000a0004.
Definition CAP_VERSION_103 : Z := 0x000a0005.
Definition CAP_VERSION_104 : Z := 0x000a0006.
Definition CAP_VERSION_105 : Z := 0x000a0007.
Definition CAP_VERSION_106 : Z := 0x000a0600.
Definition CAP_VERSION_106_ERR : Z := 0x000a0601.
Definition CAP_VERSION_107 : Z := 0x000a0701.
Definition CAPS_FLAG_AVC420_ENABLED : Z := 0x10.
Definition CAPS_FLAG_AVC_DISABLED : Z := 0x20.
Definition SEGMENTED_SINGLE : Z := 0xe0.
Definition SEGMENTED_MULTIPART : Z := 0xe1.
Definition PACKET_COMPR_TYPE_RDP8 : Z := 0x04.
Definition ZGFX_MAX_SEGMENT_PAYLOAD : Z := 65535.
Definition RESET_GRAPHICS_TOTAL_SIZE : Z := 340.
Definition GFX_HEADER_SIZE : Z := 8.

(** ** Data *)

Record Rect16 := { r_left : Z; r_top : Z; r_right : Z; r_bottom : Z }.
Definition Rect16_encode (r : Rect16) : bytes :=
  write_u16_le (r_left r) ++ write_u16_le (r_top r) ++ write_u16_le (r_right r)
  ++ write_u16_le (r_bottom r).

Record MonitorDef := { m_left : Z; m_top : Z; m_right : Z; m_bottom : Z; primary : bool }.
Definition MonitorDef_encode (m : MonitorDef) : bytes :=
  write_i32_le (m_left m) ++ write_i32_le (m_top m) ++ write_i32_le (m_right m)
  ++ write_i32_le (m_bottom m) ++ write_u32_le (if primary m then 1 else 0).

Record RawCapabilitySet := { version : Z; cap_data : bytes }.
Definition flags (c : RawCapabilitySet) : Z :=
  if 4 <=? len (cap_data c) then from_le (ztake 4 (cap_data c)) else 0.
Definition flags_only (version flags : Z) : RawCapabilitySet :=
  {| version := version; cap_data := to_le 4 flags |}.
Definition encode_body (c : RawCapabilitySet) : bytes :=
  write_u32_le (version c) ++ write_u32_le (as_u32 (len (cap_data c))) ++ write_slice (cap_data c).
Definition RawCapabilitySet_decode : reader RawCapabilitySet :=
  version ← read_u32_le;
  n ← read_u32_le;
  data ← read_slice n;
  mret {| version := version; cap_data := data |}.

Definition supports_avc420 (c : RawCapabilitySet) : bool :=
  if version c =? CAP_VERSION_81 then negb (Z.land (flags c) CAPS_FLAG_AVC420_ENABLED =? 0)
  else if existsb (Z.eqb (version c))
            [CAP_VERSION_10; CAP_VERSION_101; CAP_VERSION_102; CAP_VERSION_103; CAP_VERSION_104;
             CAP_VERSION_105; CAP_VERSION_106; CAP_VERSION_106_ERR; CAP_VERSION_107]
       then Z.land (flags c) CAPS_FLAG_AVC_DISABLED =? 0
  else false.

Definition cap_rank (version : Z) : Z :=
  if version =? CAP_VERSION_107 then 11
  else if (version =? CAP_VERSION_106) || (version =? CAP_VERSION_106_ERR) then 10
  else if version =? CAP_VERSION_105 then 9
  else if version =? CAP_VERSION_104 then 8
  else if version =? CAP_VERSION_103 then 7
  else if version =? CAP_VERSION_102 then 6
  else if version =? CAP_VERSION_101 then 5
  else if version =? CAP_VERSION_10 then 4
  else if version =? CAP_VERSION_81 then 3
  else if version =? CAP_VERSION_8 then 1
  else 0.

(** [Iterator::max_by_key] keeps the last of equal elements. *)
Definition max_by_key {A} (key : A → Z) (l : list A) : option A :=
  foldl (λ best x, match best with
                   | Some b => if key b <=? key x then Some x else Some b
                   | None => Some x
                   end) None l.

Definition select_avc420_capability (sets : list RawCapabilitySet) : option RawCapabilitySet :=
  max_by_key (λ s, cap_rank (version s)) (filter (λ s, supports_avc420 s = true) sets).

(** ** Server messages *)

Definition write_header (cmd_id body_len : Z) : bytes :=
  write_u16_le cmd_id ++ write_u16_le 0 ++ write_u32_le (as_u32 (GFX_HEADER_SIZE + body_len)).

Definition encode_segmented (gfx_pdus : bytes) : res DecodeError bytes :=
  if len gfx_pdus <=? ZGFX_MAX_SEGMENT_PAYLOAD then
    Ok (write_u8 SEGMENTED_SINGLE ++ write_u8 PACKET_COMPR_TYPE_RDP8 ++ write_slice gfx_pdus)
  else
    let chunks := chunks ZGFX_MAX_SEGMENT_PAYLOAD gfx_pdus in
    debug_assert (len chunks <=? 65535) ;;
    Ok (write_u8 SEGMENTED_MULTIPART ++ write_u16_le (as_u16 (len chunks))
        ++ write_u32_le (as_u32 (len gfx_pdus))
        ++ concat ((λ chunk, write_u32_le (as_u32 (1 + len chunk))
                             ++ write_u8 PACKET_COMPR_TYPE_RDP8 ++ write_slice chunk) <$> chunks)).
Definition encode_segmented_single := encode_segmented.

(** A header and a body; every message is one. *)
Definition message (cmd_id : Z) (body : bytes) : bytes := write_header cmd_id (len body) ++ body.

Definition encode_caps_confirm (cap : RawCapabilitySet) : bytes := message CMD_CAPS_CONFIRM (encode_body cap).

(** [body.push(0)] up to the target, then [truncate]. *)
Definition resize_to (n : Z) (l : bytes) : bytes :=
  ztake n (l ++ replicate (Z.to_nat (n - len l)) 0).
Definition encode_reset_graphics (width height : Z) (monitors : list MonitorDef) : res DecodeError bytes :=
  let body_target := RESET_GRAPHICS_TOTAL_SIZE - GFX_HEADER_SIZE in
  let body := resize_to body_target
    (write_u32_le width ++ write_u32_le height ++ write_u32_le (as_u32 (len monitors))
     ++ concat (MonitorDef_encode <$> monitors)) in
  let out := message CMD_RESET_GRAPHICS body in
  debug_assert (len out =? RESET_GRAPHICS_TOTAL_SIZE) ;;
  Ok out.

Definition encode_create_surface (surface_id width height : Z) : bytes :=
  message CMD_CREATE_SURFACE
    (write_u16_le surface_id ++ write_u16_le width ++ write_u16_le height ++ write_u8 PIXEL_FORMAT_XRGB).
Definition encode_delete_surface (surface_id : Z) : bytes :=
  message CMD_DELETE_SURFACE (write_u16_le surface_id).
Definition encode_map_surface_to_output (surface_id x y : Z) : bytes :=
  message CMD_MAP_SURFACE_TO_OUTPUT
    (write_u16_le surface_id ++ write_u16_le 0 ++ write_u32_le x ++ write_u32_le y).
Definition encode_start_frame (timestamp_ms frame_id : Z) : bytes :=
  message CMD_START_FRAME (write_u32_le timestamp_ms ++ write_u32_le frame_id).
Definition encode_end_frame (frame_id : Z) : bytes := message CMD_END_FRAME (write_u32_le frame_id).

Definition encode_avc420_bitmap_stream (visible_width visible_height qp quality : Z) (h264 : bytes)
  : bytes :=
  write_u32_le 1 ++
  Rect16_encode {| r_left := 0; r_top := 0; r_right := visible_width; r_bottom := visible_height |} ++
  write_u8 (Z.lor (Z.land qp 0x3f) 0x80) ++ write_u8 quality ++ write_slice h264.

Definition encode_wire_to_surface_1_avc420 (surface_id dest_width dest_height : Z) (bitmap_data : bytes)
  : bytes :=
  message CMD_WIRE_TO_SURFACE_1
    (write_u16_le surface_id ++ write_u16_le CODEC_AVC420 ++ write_u8 PIXEL_FORMAT_XRGB ++
     Rect16_encode {| r_left := 0; r_top := 0; r_right := dest_width; r_bottom := dest_height |} ++
     write_u32_le (as_u32 (len bitmap_data)) ++ write_slice bitmap_data).

(** ** Client messages *)

Inductive ClientMessage :=
  | CapsAdvertise (sets : list RawCapabilitySet)
  | FrameAcknowledge (queue_depth frame_id total_frames_decoded : Z)
  | CacheImportOffer
  | Other (cmd_id : Z).

Definition decode_client_message_from : reader ClientMessage :=
  cmd_id ← read_u16_le;
  _ ← read_u16_le;
  pdu_length ← read_u32_le;
  reject_if (pdu_length <? GFX_HEADER_SIZE) "rdpegfx.pduLength" "smaller than header" ;;
  let body_len := pdu_length - GFX_HEADER_SIZE in
  ensure body_len ;;
  if cmd_id =? CMD_CAPS_ADVERTISE then
    count ← read_u16_le;
    sets ← read_many (Z.to_nat count) RawCapabilitySet_decode;
    mret (CapsAdvertise sets)
  else if cmd_id =? CMD_FRAME_ACKNOWLEDGE then
    queue_depth ← read_u32_le;
    frame_id ← read_u32_le;
    total_frames_decoded ← read_u32_le;
    mret (FrameAcknowledge queue_depth frame_id total_frames_decoded)
  else if cmd_id =? CMD_CACHE_IMPORT_OFFER then mret CacheImportOffer
  else mret (Other cmd_id).
Definition decode_client_message (input : bytes) : res DecodeError ClientMessage :=
  run decode_client_message_from input.

Lemma gfx_capability_safe : safe RawCapabilitySet_decode (λ _, True).
Proof. unfold RawCapabilitySet_decode. safe_steps. done. Qed.

Lemma gfx_message_safe : safe decode_client_message_from (λ _, True).
Proof.
  unfold decode_client_message_from. do 5 safe_step. destruct (_ =? CMD_CAPS_ADVERTISE).
  - safe_step. eapply safe_bind; [apply read_many_safe, gfx_capability_safe|]. intros. by apply safe_ret.
  - destruct (_ =? CMD_FRAME_ACKNOWLEDGE); safe_steps; done.
Qed.

(** ** Selection *)

Lemma max_by_key_spec {A} (key : A → Z) l :
  match max_by_key key l with
  | Some m => ∃ l1 l2, l = l1 ++ m :: l2 ∧ (∀ x, x ∈ l1 → key x ≤ key m) ∧ (∀ x, x ∈ l2 → key x < key m)
  | None => l = []
  end.
Proof.
  unfold max_by_key. induction l as [|x l IH] using rev_ind; [done|]. rewrite foldl_snoc.
  destruct (foldl _ None l) as [b|].
  - destruct IH as (l1 & l2 & -> & H1 & H2). destruct (Z.leb_spec (key b) (key x)).
    + exists (l1 ++ b :: l2), []. split; [done|]. split; [|by intros y ?%elem_of_nil].
      intros y [Hy|[->|Hy]%elem_of_cons]%elem_of_app; [specialize (H1 y Hy)| |specialize (H2 y Hy)]; lia.
    + exists l1, (l2 ++ [x]). split; [by rewrite <-(assoc_L (++))|]. split; [done|].
      intros y [Hy| ->%list_elem_of_singleton]%elem_of_app; [by apply H2|lia].
  - subst l. exists [], []. split; [done|]. by split; intros y ?%elem_of_nil.
Qed.

(** ** A client *)

Inductive server_message :=
  | SCapsConfirm
  | SResetGraphics (w h : Z)
  | SCreateSurface (id w h : Z)
  | SDeleteSurface (id : Z)
  | SMapSurface (id : Z)
  | SStartFrame (id : Z)
  | SEndFrame (id : Z)
  | SWireToSurface (id w h : Z).

(** One message that fills its buffer. *)
Definition server_message_decode : reader server_message :=
  cmd_id ← read_u16_le;
  _ ← read_u16_le;
  pdu_length ← read_u32_le;
  n ← get_remaining;
  reject_if (negb (n + 8 =? pdu_length)) "gfx" "length" ;;
  if cmd_id =? CMD_CAPS_CONFIRM then _ ← RawCapabilitySet_decode; mret SCapsConfirm
  else if cmd_id =? CMD_RESET_GRAPHICS then
    w ← read_u32_le; h ← read_u32_le; mret (SResetGraphics w h)
  else if cmd_id =? CMD_CREATE_SURFACE then
    id ← read_u16_le; w ← read_u16_le; h ← read_u16_le; mret (SCreateSurface id w h)
  else if cmd_id =? CMD_DELETE_SURFACE then id ← read_u16_le; mret (SDeleteSurface id)
  else if cmd_id =? CMD_MAP_SURFACE_TO_OUTPUT then id ← read_u16_le; mret (SMapSurface id)
  else if cmd_id =? CMD_START_FRAME then _ ← read_u32_le; id ← read_u32_le; mret (SStartFrame id)
  else if cmd_id =? CMD_END_FRAME then id ← read_u32_le; mret (SEndFrame id)
  else if cmd_id =? CMD_WIRE_TO_SURFACE_1 then
    id ← read_u16_le;
    _ ← read_u16_le;
    _ ← read_u8;
    _ ← read_u16_le;
    _ ← read_u16_le;
    w ← read_u16_le;
    h ← read_u16_le;
    _ ← read_u32_le;
    mret (SWireToSurface id w h)
  else invalid "gfx" "command".

(** One segment of at most the decompressor's buffer. *)
Definition segment_decode : reader bytes :=
  n ← read_u32_le;
  t ← read_u8;
  reject_if (negb (t =? PACKET_COMPR_TYPE_RDP8) || (ZGFX_MAX_SEGMENT_PAYLOAD + 1 <? n)) "zgfx" "segment" ;;
  read_slice (n - 1).
Definition unsegment_from : reader bytes :=
  d ← read_u8;
  if d =? SEGMENTED_SINGLE then
    t ← read_u8;
    n ← get_remaining;
    reject_if (negb (t =? PACKET_COMPR_TYPE_RDP8) || (ZGFX_MAX_SEGMENT_PAYLOAD <? n)) "zgfx" "single" ;;
    read_rest
  else if d =? SEGMENTED_MULTIPART then
    count ← read_u16_le;
    total ← read_u32_le;
    segments ← read_many (Z.to_nat count) segment_decode;
    reject_if (negb (len (concat segments) =? total)) "zgfx" "total" ;;
    mret (concat segments)
  else invalid "zgfx" "descriptor".
Definition unsegment (wire : bytes) : res DecodeError bytes := run unsegment_from wire.

Lemma segment_reads c l :
  0 < len c ≤ ZGFX_MAX_SEGMENT_PAYLOAD →
  reads segment_decode ((write_u32_le (as_u32 (1 + len c)) ++ write_u8 PACKET_COMPR_TYPE_RDP8
    ++ write_slice c) ++ l) c l.
Proof.
  unfold ZGFX_MAX_SEGMENT_PAYLOAD. intros Hc. rewrite as_u32_id by lia. unfold segment_decode.
  rewrite <-!(assoc_L (++)). eapply reads_bind; [apply read_u32_le_write; lia|cbn beta].
  eapply reads_bind; [apply read_u8_write|cbn beta]. eapply reads_bind.
  - apply reject_if_reads. rewrite (proj2 (Z.ltb_ge _ _)) by (unfold ZGFX_MAX_SEGMENT_PAYLOAD; lia). done.
  - cbn beta. apply read_slice_write. lia.
Qed.

(** Segments of any number come back as the payload. *)
Lemma unsegment_encode p :
  len p ≤ 65535 * 65535 → ∃ wire, encode_segmented p = Ok wire ∧ unsegment wire = Ok p.
Proof.
  intros Hp. unfold encode_segmented. destruct (Z.leb_spec (len p) ZGFX_MAX_SEGMENT_PAYLOAD) as [Hs|Hs].
  - eexists. split; [done|]. unfold ZGFX_MAX_SEGMENT_PAYLOAD in Hs.
    apply run_reads_whole; [len_lia|]. unfold unsegment_from. rewrite app_nil_r.
    eapply reads_bind; [apply read_u8_write|cbn beta]. change (SEGMENTED_SINGLE =? SEGMENTED_SINGLE) with true.
    cbn match. eapply reads_bind; [apply read_u8_write|cbn beta].
    eapply reads_bind; [apply get_remaining_reads|cbn beta].
    eapply reads_bind; [|apply read_rest_reads]. apply reject_if_reads. rewrite len_write_slice.
    rewrite (proj2 (Z.ltb_ge _ _)) by (unfold ZGFX_MAX_SEGMENT_PAYLOAD; lia). done.
  - pose proof (len_chunks ZGFX_MAX_SEGMENT_PAYLOAD ltac:(done) p) as Hn.
    pose proof (chunks_bound ZGFX_MAX_SEGMENT_PAYLOAD ltac:(done) p) as Hb.
    pose proof (concat_chunks ZGFX_MAX_SEGMENT_PAYLOAD ltac:(done) p) as Hcat.
    unfold ZGFX_MAX_SEGMENT_PAYLOAD in Hs.
    assert (0 ≤ len (chunks ZGFX_MAX_SEGMENT_PAYLOAD p) ≤ 65535) as Hc.
    { rewrite Hn. unfold div_ceil, ZGFX_MAX_SEGMENT_PAYLOAD. split; [apply Z.div_pos; lia|].
      apply Z.lt_succ_r, Z.div_lt_upper_bound; lia. }
    rewrite debug_assert_true by lia. cbn [mbind res_bind]. eexists. split; [done|].
    set (enc := λ c : bytes, write_u32_le (as_u32 (1 + len c)) ++ write_u8 PACKET_COMPR_TYPE_RDP8 ++ write_slice c).
    assert (∀ cs, len (concat (enc <$> cs)) = 5 * len cs + len (concat cs)) as Hlen.
    { induction cs as [|c cs IH]; [done|]. rewrite fmap_cons. cbn [concat].
      rewrite !len_app, IH, len_cons. unfold enc. len_lia. }
    apply run_reads_whole.
    { rewrite !len_app, Hlen, Hcat. len_lia. }
    unfold unsegment_from. rewrite <-!(assoc_L (++)).
    eapply reads_bind; [apply read_u8_write|cbn beta].
    change (SEGMENTED_MULTIPART =? SEGMENTED_SINGLE) with false.
    change (SEGMENTED_MULTIPART =? SEGMENTED_MULTIPART) with true. cbn match.
    rewrite as_u16_id, as_u32_id by lia.
    eapply reads_bind; [apply read_u16_le_write; lia|cbn beta].
    eapply reads_bind; [apply read_u32_le_write; lia|cbn beta].
    replace (Z.to_nat (len (chunks ZGFX_MAX_SEGMENT_PAYLOAD p)))
      with (length (chunks ZGFX_MAX_SEGMENT_PAYLOAD p)) by (unfold len; lia).
    eapply reads_bind.
    { apply (read_many_reads segment_decode enc). eapply Forall_impl; [exact Hb|].
      intros c Hcb l. by apply segment_reads. }
    cbn beta. rewrite Hcat. eapply reads_bind; [apply reject_if_reads; by rewrite Z.eqb_refl|].
    apply reads_ret.
Qed.

Lemma message_reads cmd body (k : Z → reader server_message) v l :
  u16_ok cmd → len body < 2 ^ 31 → reads (k cmd) body v l →
  reads (cmd_id ← read_u16_le; _ ← read_u16_le; pdu_length ← read_u32_le; n ← get_remaining;
         reject_if (negb (n + 8 =? pdu_length)) "gfx" "length" ;; k cmd_id) (message cmd body) v l.
Proof.
  intros Hcmd Hl Hk. pose proof (len_nonneg body). unfold message, write_header, GFX_HEADER_SIZE.
  rewrite as_u32_id by lia. rewrite <-!(assoc_L (++)).
  eapply reads_bind; [by apply read_u16_le_write|cbn beta].
  eapply reads_bind; [by apply read_u16_le_write|cbn beta].
  eapply reads_bind; [apply read_u32_le_write; lia|cbn beta].
  eapply reads_bind; [apply get_remaining_reads|cbn beta].
  eapply reads_bind; [apply reject_if_reads; by rewrite Z.add_comm, Z.eqb_refl|exact Hk].
Qed.

(** What the client decodes from each message. *)
Lemma run_message cmd body v l :
  u16_ok cmd → len body < 2 ^ 31 → reads server_message_decode (message cmd body) v l →
  run server_message_decode (message cmd body) = Ok v.
Proof.
  intros Hc Hl H. eapply reads_run; [|exact H]. unfold message. rewrite len_app.
  unfold write_header. len_lia.
Qed.

Lemma len_message cmd body : len (message cmd body) = 8 + len body.
Proof. unfold message, write_header. len_lia. Qed.

Ltac message_tac :=
  eapply run_message; [done|rewrite ?len_app; len_lia|]; apply message_reads; [done|len_lia|];
  cbv beta delta [CMD_CAPS_CONFIRM CMD_RESET_GRAPHICS CMD_CREATE_SURFACE CMD_DELETE_SURFACE
    CMD_MAP_SURFACE_TO_OUTPUT CMD_START_FRAME CMD_END_FRAME CMD_WIRE_TO_SURFACE_1];
  cbn [Z.eqb Pos.eqb]; rewrite <-?(assoc_L (++)).

Lemma create_surface_decode id w h :
  u16_ok id → u16_ok w → u16_ok h →
  run server_message_decode (encode_create_surface id w h) = Ok (SCreateSurface id w h).
Proof. intros. message_tac. reads_steps. done. Qed.
Lemma delete_surface_decode id :
  u16_ok id → run server_message_decode (encode_delete_surface id) = Ok (SDeleteSurface id).
Proof. intros. message_tac. rewrite <-(app_nil_r (write_u16_le id)). reads_steps. done. Qed.
Lemma map_surface_decode id x y :
  u16_ok id → run server_message_decode (encode_map_surface_to_output id x y) = Ok (SMapSurface id).
Proof. intros. message_tac. reads_steps. done. Qed.
Lemma start_frame_decode t id :
  u32_ok t → u32_ok id → run server_message_decode (encode_start_frame t id) = Ok (SStartFrame id).
Proof. intros. message_tac. rewrite <-(app_nil_r (write_u32_le id)). reads_steps. done. Qed.
Lemma end_frame_decode id :
  u32_ok id → run server_message_decode (encode_end_frame id) = Ok (SEndFrame id).
Proof. intros. message_tac. rewrite <-(app_nil_r (write_u32_le id)). reads_steps. done. Qed.
Lemma caps_confirm_decode c :
  u32_ok (version c) → len (cap_data c) < 2 ^ 30 →
  run server_message_decode (encode_caps_confirm c) = Ok SCapsConfirm.
Proof.
  intros Hv Hl. pose proof (len_nonneg (cap_data c)).
  assert (len (encode_body c) = 8 + len (cap_data c)) as Hb by (unfold encode_body; len_lia).
  eapply run_message; [done|lia|]. apply message_reads; [done|lia|].
  change (CMD_CAPS_CONFIRM =? CMD_CAPS_CONFIRM) with true. cbn match.
  unfold encode_body. rewrite as_u32_id by lia. eapply reads_bind; [|apply reads_ret].
  unfold RawCapabilitySet_decode. eapply reads_bind; [by apply read_u32_le_write|cbn beta].
  eapply reads_bind; [apply read_u32_le_write; lia|cbn beta].
  rewrite <-(app_nil_r (write_slice _)).
  eapply reads_bind; [by apply read_slice_write|cbn beta]. apply reads_ret.
Qed.
Lemma wire_to_surface_decode id w h data :
  u16_ok id → u16_ok w → u16_ok h → len data < 2 ^ 30 →
  run server_message_decode (encode_wire_to_surface_1_avc420 id w h data) = Ok (SWireToSurface id w h).
Proof.
  intros Hi Hw Hh Hd. pose proof (len_nonneg data). unfold encode_wire_to_surface_1_avc420.
  rewrite as_u32_id by lia. unfold Rect16_encode. cbn [r_left r_top r_right r_bottom].
  message_tac. reads_steps. done.
Qed.

Lemma reset_graphics_decode w h ms :
  u32_ok w → u32_ok h →
  ∃ out, encode_reset_graphics w h ms = Ok out ∧ len out = 340
  ∧ run server_message_decode out = Ok (SResetGraphics w h).
Proof.
  intros Hw Hh. unfold encode_reset_graphics.
  set (l := write_u32_le w ++ write_u32_le h ++ write_u32_le (as_u32 (len ms)) ++ concat (MonitorDef_encode <$> ms)).
  assert (len (resize_to (RESET_GRAPHICS_TOTAL_SIZE - GFX_HEADER_SIZE) l) = 332) as Hl.
  { unfold resize_to, RESET_GRAPHICS_TOTAL_SIZE, GFX_HEADER_SIZE. rewrite len_ztake; [done|].
    rewrite len_app, len_replicate. pose proof (len_nonneg l). lia. }
  rewrite debug_assert_true by (rewrite len_message, Hl; done). cbn [mbind res_bind].
  eexists. split; [done|]. rewrite len_message, Hl. split; [done|].
  assert (∃ t, resize_to (RESET_GRAPHICS_TOTAL_SIZE - GFX_HEADER_SIZE) l
    = write_u32_le w ++ write_u32_le h ++ t) as (t & Et).
  { unfold resize_to, l, ztake, zdrop. rewrite <-!(assoc_L (++)).
    change (Z.to_nat (RESET_GRAPHICS_TOTAL_SIZE - GFX_HEADER_SIZE)) with 332%nat. unfold write_u32_le.
    rewrite take_app_ge by (rewrite length_to_le; lia).
    rewrite take_app_ge by (rewrite !length_to_le; lia). eauto. }
  rewrite Et in *. eapply run_message; [done|lia|]. apply message_reads; [done|lia|].
  cbv beta delta [CMD_CAPS_CONFIRM CMD_RESET_GRAPHICS]. cbn [Z.eqb Pos.eqb]. reads_steps. done.
Qed.
