(* ===== verification/Gfx.v ===== *)
(** [rdpcore-rdpegfx/src/session.rs]: the graphics session, its surface, its frames and
    their acknowledgement, over the interface of an H.264 encoder. *)
From S2P Require Import Prelude Cursor GfxPdu.

Definition DEFAULT_SURFACE_ID : Z := 1.
Definition MAX_FRAMES_IN_FLIGHT : Z := 32.
Definition QUEUE_DEPTH_UNAVAILABLE : Z := 0xffffffff.
Definition IDR_INTERVAL_FRAMES : Z := 30.
Definition ENCODE_FAIL_FALLBACK : Z := 3.

(** ** The encoder *)

Record EncodedAu := { annex_b : bytes; qp : Z }.

(** [trait H264Encoder]: [encode_bgrx] takes width, height, stride, pixels and
    [force_idr]; [None] is an [EncoderError], whose text the session only logs. *)
Class H264Encoder (E : Type) := {
  encode_bgrx : E → Z → Z → Z → bytes → bool → E * option EncodedAu;
  encoder_reset : E → E
}.

(** The encoder of [GfxSession::mock] counts its frames, modulo [2 ^ 32]. *)
Record MockH264Encoder := { frames : Z }.
Global Instance mock_encoder : H264Encoder MockH264Encoder := {
  encode_bgrx enc _ _ _ _ force_idr :=
    let n := as_u32 (frames enc + 1) in
    ({| frames := n |},
     Some {| annex_b := [0x00; 0x00; 0x00; 0x01; if force_idr then 0x65 else 0x41] ++ to_le 4 n; qp := 22 |});
  encoder_reset enc := enc
}.

(** ** State *)

Inductive GfxFrameResult :=
  | Frames (pdus : list bytes)
  | Skip
  | Fallback (teardown : list bytes).

Inductive State := WaitCaps | Ready | Failed.
Global Instance State_eq_dec : EqDecision State.
Proof. solve_decision. Defined.

Record Inner := {
  g_state : State; surface_configured : bool; surface_id : Z; g_width : Z; g_height : Z;
  next_frame_id : Z; frames_in_flight : Z; frames_sent : Z; force_next_idr : bool;
  timestamp_ms : Z; encode_failures : Z }.

Definition Inner_new (width height : Z) : Inner :=
  {| g_state := WaitCaps; surface_configured := false; surface_id := DEFAULT_SURFACE_ID;
     g_width := width; g_height := height; next_frame_id := 1; frames_in_flight := 0;
     frames_sent := 0; force_next_idr := true; timestamp_ms := 0; encode_failures := 0 |}.

Definition is_ready (i : Inner) : bool := bool_decide (g_state i = Ready).

(** Assignments to the surface and to the counters. *)
Definition set_surface (i : Inner) (st : State) (configured : bool) (id w h : Z) : Inner :=
  {| g_state := st; surface_configured := configured; surface_id := id; g_width := w; g_height := h;
     next_frame_id := next_frame_id i; frames_in_flight := frames_in_flight i;
     frames_sent := frames_sent i; force_next_idr := force_next_idr i;
     timestamp_ms := timestamp_ms i; encode_failures := encode_failures i |}.
Definition set_counts (i : Inner) (in_flight sent failures : Z) (idr : bool) : Inner :=
  {| g_state := g_state i; surface_configured := surface_configured i; surface_id := surface_id i;
     g_width := g_width i; g_height := g_height i; next_frame_id := next_frame_id i;
     frames_in_flight := in_flight; frames_sent := sent; force_next_idr := idr;
     timestamp_ms := timestamp_ms i; encode_failures := failures |}.
Definition set_frame (i : Inner) (next timestamp : Z) : Inner :=
  {| g_state := g_state i; surface_configured := surface_configured i; surface_id := surface_id i;
     g_width := g_width i; g_height := g_height i; next_frame_id := next;
     frames_in_flight := frames_in_flight i; frames_sent := frames_sent i;
     force_next_idr := force_next_idr i; timestamp_ms := timestamp; encode_failures := encode_failures i |}.

(** [wrapping_add(1).max(1)] *)
Definition next_surface_id (id : Z) : Z := Z.max (as_u16 (id + 1)) 1.

(** ** Operations on the inner state *)

Section session.
Context {E : Type} `{!H264Encoder E}.

(** [setup_pdus], each in its segments. *)
Definition setup_pdus (i : Inner) : res DecodeError (list bytes) :=
  reset ← encode_reset_graphics (g_width i) (g_height i)
    [{| m_left := 0; m_top := 0; m_right := Z.max (g_width i - 1) (- 2 ^ 31);
        m_bottom := Z.max (g_height i - 1) (- 2 ^ 31); primary := true |}];
  Ok [reset; encode_create_surface (surface_id i) (g_width i) (g_height i);
      encode_map_surface_to_output (surface_id i) 0 0].

Definition on_caps (i : Inner) (enc : E) (sets : list RawCapabilitySet)
  : res DecodeError (Inner * E * list bytes) :=
  match select_avc420_capability sets with
  | None => Ok (set_surface i Failed (surface_configured i) (surface_id i) (g_width i) (g_height i), enc, [])
  | Some selected =>
    '(i, deleted) ←
      (if bool_decide (g_state i = Ready) && surface_configured i then
         d ← encode_segmented_single (encode_delete_surface (surface_id i));
         Ok (set_surface i (g_state i) (surface_configured i) (next_surface_id (surface_id i))
               (g_width i) (g_height i), [d])
       else Ok (i, []));
    let i := set_counts (set_surface i Ready (surface_configured i) (surface_id i) (g_width i) (g_height i))
               0 0 0 true in
    let enc := encoder_reset enc in
    confirm ← encode_segmented_single (encode_caps_confirm selected);
    if (0 <? g_width i) && (0 <? g_height i) then
      pdus ← setup_pdus i;
      setup ← mapM encode_segmented_single pdus;
      Ok (set_surface i (g_state i) true (surface_id i) (g_width i) (g_height i), enc,
          deleted ++ [confirm] ++ setup)
    else
      Ok (set_surface i (g_state i) false (surface_id i) (g_width i) (g_height i), enc,
          deleted ++ [confirm])
  end.

Definition on_frame_ack (i : Inner) (queue_depth frame_id : Z) : Inner :=
  set_counts i
    (if queue_depth =? QUEUE_DEPTH_UNAVAILABLE then 0 else Z.min queue_depth MAX_FRAMES_IN_FLIGHT)
    (frames_sent i) (encode_failures i) (force_next_idr i).

Definition Inner_resize (i : Inner) (enc : E) (width height : Z)
  : res DecodeError (Inner * E * option (list bytes)) :=
  if (width =? 0) || (height =? 0) then Ok (i, enc, None)
  else if surface_configured i && (g_width i =? width) && (g_height i =? height) then Ok (i, enc, None)
  else
    let enc := encoder_reset enc in
    let old_surface := surface_id i in
    let had_surface := surface_configured i in
    let id := if had_surface then next_surface_id (surface_id i) else surface_id i in
    let i := set_counts (set_surface i (g_state i) false id width height)
               0 (frames_sent i) (encode_failures i) true in
    if bool_decide (g_state i ≠ Ready) then Ok (i, enc, None)
    else
      deleted ← (if had_surface then
                   d ← encode_segmented_single (encode_delete_surface old_surface); Ok [d]
                 else Ok []);
      pdus ← setup_pdus i;
      setup ← mapM encode_segmented_single pdus;
      Ok (set_surface i (g_state i) true (surface_id i) (g_width i) (g_height i), enc,
          Some (deleted ++ setup)).

Definition abandon (i : Inner) : res DecodeError (Inner * list bytes) :=
  '(configured, out) ←
    (if surface_configured i then
       d ← encode_segmented_single (encode_delete_surface (surface_id i)); Ok (false, [d])
     else Ok (surface_configured i, []));
  Ok (set_surface i Failed configured (surface_id i) (g_width i) (g_height i), out).

Definition record_encode_failure (i : Inner) : res DecodeError (Inner * GfxFrameResult) :=
  let failures := Z.min (encode_failures i + 1) (2 ^ 32 - 1) in
  let i := set_counts i (frames_in_flight i) (frames_sent i) failures (force_next_idr i) in
  if ENCODE_FAIL_FALLBACK <=? encode_failures i then
    '(i, teardown) ← abandon i; Ok (i, Fallback teardown)
  else Ok (i, Skip).

(** [inl] is the early return, [inr (prefix, force_idr)] goes on to encode. *)
Definition begin_encode (i : Inner) (enc : E) (width height : Z)
  : res DecodeError (Inner * E * (GfxFrameResult + list bytes * bool)) :=
  if bool_decide (g_state i ≠ Ready) then Ok (i, enc, inl Skip)
  else if (width =? 0) || (height =? 0) then Ok (i, enc, inl Skip)
  else
    '(i, enc, prefix) ←
      (if negb (surface_configured i) || negb (g_width i =? width) || negb (g_height i =? height) then
         '(i, enc, pdus) ← Inner_resize i enc width height;
         Ok (i, enc, match pdus with
                     | Some pdus => Some pdus
                     | None => if bool_decide (g_state i ≠ Ready) then None else Some []
                     end)
       else Ok (i, enc, Some []));
    match prefix with
    | None => Ok (i, enc, inl Skip)
    | Some prefix =>
      if negb (surface_configured i) then Ok (i, enc, inl Skip)
      else if MAX_FRAMES_IN_FLIGHT <=? frames_in_flight i then Ok (i, enc, inl Skip)
      else
        let force_idr := force_next_idr i || (frames_sent i =? 0)
                         || (frames_sent i mod IDR_INTERVAL_FRAMES =? 0) in
        Ok (i, enc, inr (prefix, force_idr))
    end.

Definition finish_encode (i : Inner) (width height : Z) (encoded : EncodedAu)
  : res DecodeError (Inner * list bytes) :=
  let i := set_counts i (frames_in_flight i) (frames_sent i) 0 false in
  let frame_id := next_frame_id i in
  let i := set_frame i (Z.max (as_u32 (next_frame_id i + 1)) 1) (as_u32 (timestamp_ms i + 33)) in
  let i := set_counts i (Z.min (frames_in_flight i + 1) (2 ^ 32 - 1))
             (Z.min (frames_sent i + 1) (2 ^ 64 - 1)) (encode_failures i) (force_next_idr i) in
  let bitmap := encode_avc420_bitmap_stream width height (qp encoded) 100 (annex_b encoded) in
  frames ← mapM encode_segmented_single
    [encode_start_frame (timestamp_ms i) frame_id;
     encode_wire_to_surface_1_avc420 (surface_id i) width height bitmap;
     encode_end_frame frame_id];
  Ok (i, frames).

(** ** The shared session *)

Record GfxSession := { inner : Inner; encoder : E }.

(** A frame between the two sections of [encode_frame] under the lock of [inner]. *)
Record Pending := {
  p_width : Z; p_height : Z; p_stride : Z; p_pixels : bytes; p_prefix : list bytes; p_idr : bool }.

(** The first section. *)
Definition start_frame (s : GfxSession) (width height stride : Z) (pixels : bytes)
  : res DecodeError (GfxSession * (GfxFrameResult + Pending)) :=
  '(i, enc, r) ← begin_encode (inner s) (encoder s) width height;
  Ok ({| inner := i; encoder := enc |},
      match r with
      | inl result => inl result
      | inr (prefix, force_idr) =>
        inr {| p_width := width; p_height := height; p_stride := stride; p_pixels := pixels;
               p_prefix := prefix; p_idr := force_idr |}
      end).

(** [encode_once], under the lock of the encoder; an empty access unit counts as none. *)
Definition encode_once (enc : E) (p : Pending) (idr : bool) : E * option EncodedAu :=
  let '(enc, r) := encode_bgrx enc (p_width p) (p_height p) (p_stride p) (p_pixels p) idr in
  (enc, match r with Some au => if bool_decide (annex_b au = []) then None else Some au | None => None end).
(** The two attempts: the access unit, and [retried_idr]. *)
Definition encode_retry (enc : E) (p : Pending) : E * option EncodedAu * bool :=
  let '(enc, r) := encode_once enc p (p_idr p) in
  match r with
  | Some au => (enc, Some au, false)
  | None => let '(enc, r) := encode_once enc p true in (enc, r, true)
  end.

(** The last section. *)
Definition end_frame (s : GfxSession) (p : Pending) (au : option EncodedAu) (retried_idr : bool)
  : res DecodeError (GfxSession * GfxFrameResult) :=
  match au with
  | None =>
    let i := if retried_idr
             then set_counts (inner s) (frames_in_flight (inner s)) (frames_sent (inner s)) (encode_failures (inner s)) true
             else inner s in
    '(i, result) ← record_encode_failure i;
    Ok ({| inner := i; encoder := encoder s |}, result)
  | Some au =>
    '(i, frames) ← finish_encode (inner s) (p_width p) (p_height p) au;
    Ok ({| inner := i; encoder := encoder s |}, Frames (p_prefix p ++ frames))
  end.

(** The whole of it, when nothing else takes the locks in between. *)
Definition encode_frame (s : GfxSession) (width height stride : Z) (pixels : bytes)
  : res DecodeError (GfxSession * GfxFrameResult) :=
  '(s, r) ← start_frame s width height stride pixels;
  match r with
  | inl result => Ok (s, result)
  | inr p =>
    let '(enc, au, retried_idr) := encode_retry (encoder s) p in
    end_frame {| inner := inner s; encoder := enc |} p au retried_idr
  end.

Definition GfxSession_resize (s : GfxSession) (width height : Z)
  : res DecodeError (GfxSession * option (list bytes)) :=
  '(i, enc, out) ← Inner_resize (inner s) (encoder s) width height;
  Ok ({| inner := i; encoder := enc |}, out).

Definition handle_message (s : GfxSession) (msg : ClientMessage) : res DecodeError (GfxSession * list bytes) :=
  match msg with
  | CapsAdvertise sets =>
    '(i, enc, out) ← on_caps (inner s) (encoder s) sets;
    Ok ({| inner := i; encoder := enc |}, out)
  | FrameAcknowledge queue_depth frame_id _ =>
    Ok ({| inner := on_frame_ack (inner s) queue_depth frame_id; encoder := encoder s |}, [])
  | CacheImportOffer | Other _ => Ok (s, [])
  end.

(** The loop of [on_data]. *)
Fixpoint on_data_loop (fuel : nat) (s : GfxSession) (rest : bytes) (out : list bytes)
  : res DecodeError (GfxSession * list bytes) :=
  if bool_decide (rest = []) then Ok (s, out)
  else
    match fuel with
    | O => Panic
    | S fuel =>
      match decode_client_message rest with
      | Err _ => Ok (s, out)
      | Panic => Panic
      | Ok msg =>
        if len rest <? 8 then Ok (s, out)
        else
          let pdu_len := from_le (ztake 4 (zdrop 4 rest)) in
          if (pdu_len <? 8) || (len rest <? pdu_len) then Ok (s, out)
          else
            let rest := zdrop pdu_len rest in
            '(s, o) ← handle_message s msg;
            on_data_loop fuel s rest (out ++ o)
      end
    end.
Definition gfx_on_data (s : GfxSession) (data : bytes) : res DecodeError (GfxSession * list bytes) :=
  on_data_loop (length data) s data [].
End session.
Arguments GfxSession E : clear implicits.
