(* ===== verification/GfxSafety.v ===== *)
(** A client of the graphics pipeline, and the protocol the session keeps with it: which
    surfaces exist, which frame is open, how many frames are unacknowledged. *)
From S2P Require Import Prelude Cursor GfxPdu Gfx.

(** ** The client *)

(** Its surfaces with their sizes, and the frame between [StartFrame] and [EndFrame]. *)
Record gfx_client := { gc_surfaces : gmap Z (Z * Z); gc_frame : option Z }.

Definition client_step (c : gfx_client) (m : server_message) : option gfx_client :=
  match m with
  | SCapsConfirm | SResetGraphics _ _ => Some c
  | SCreateSurface id w h =>
    match gc_surfaces c !! id with
    | None => Some {| gc_surfaces := <[id := (w, h)]> (gc_surfaces c); gc_frame := gc_frame c |}
    | Some _ => None
    end
  | SDeleteSurface id =>
    match gc_surfaces c !! id with
    | Some _ => Some {| gc_surfaces := delete id (gc_surfaces c); gc_frame := gc_frame c |}
    | None => None
    end
  | SMapSurface id => match gc_surfaces c !! id with Some _ => Some c | None => None end
  | SStartFrame id =>
    match gc_frame c with
    | None => Some {| gc_surfaces := gc_surfaces c; gc_frame := Some id |}
    | Some _ => None
    end
  | SEndFrame id =>
    if bool_decide (gc_frame c = Some id)
    then Some {| gc_surfaces := gc_surfaces c; gc_frame := None |} else None
  | SWireToSurface id w h =>
    match gc_frame c, gc_surfaces c !! id with
    | Some _, Some size => if bool_decide (size = (w, h)) then Some c else None
    | _, _ => None
    end
  end.

(** A message as it arrives. *)
Definition client_wire (c : gfx_client) (wire : bytes) : option gfx_client :=
  match unsegment wire with
  | Ok p => match run server_message_decode p with Ok m => client_step c m | _ => None end
  | _ => None
  end.
Definition client_wires (c : option gfx_client) (wires : list bytes) : option gfx_client :=
  foldl (λ c w, c ← c; client_wire c w) c wires.
Definition client_run (c : option gfx_client) (ms : list server_message) : option gfx_client :=
  foldl (λ c m, c ← c; client_step c m) c ms.

(** The wires carry the messages. *)
Definition carries (wires : list bytes) (ms : list server_message) : Prop :=
  ∀ c, client_wires c wires = client_run c ms.

Lemma carries_nil : carries [] [].
Proof. by intros c. Qed.
Lemma carries_app w1 w2 m1 m2 : carries w1 m1 → carries w2 m2 → carries (w1 ++ w2) (m1 ++ m2).
Proof.
  intros H1 H2 c. transitivity (client_wires (client_wires c w1) w2); [apply foldl_app|].
  rewrite H1, H2. symmetry. apply foldl_app.
Qed.

Lemma segmented_carries p m :
  len p ≤ 65535 * 65535 → run server_message_decode p = Ok m →
  ∃ w, encode_segmented_single p = Ok w ∧ carries [w] [m].
Proof.
  intros Hl Hm. destruct (unsegment_encode p Hl) as (w & E & Ew). exists w. split; [done|].
  intros [c|]; [|done]. cbn. unfold client_wire. by rewrite Ew, Hm.
Qed.

Lemma mapM_carries ps ms :
  Forall2 (λ p m, len p ≤ 65535 * 65535 ∧ run server_message_decode p = Ok m) ps ms →
  ∃ ws, mapM encode_segmented_single ps = Ok ws ∧ carries ws ms ∧ length ws = length ps.
Proof.
  induction 1 as [|p m ps ms [Hl Hm] _ (ws & E & Hc & Hn)]; [exists []; split; [done|by split; [apply carries_nil|]]|].
  destruct (segmented_carries p m Hl Hm) as (w & Ew & Hw). exists (w :: ws). cbn [mapM].
  rewrite Ew. cbn [mbind res_bind]. rewrite E. split; [done|]. split; [by apply (carries_app [w] ws [m] ms)|].
  cbn. congruence.
Qed.

(** ** Invariant *)

(** The ranges of the counters, with at most [b] frames unacknowledged. *)
Record inner_ok (b : Z) (i : Inner) : Prop := {
  ok_id : 1 ≤ surface_id i < 2 ^ 16;
  ok_w : u16_ok (g_width i); ok_h : u16_ok (g_height i);
  ok_next : 1 ≤ next_frame_id i < 2 ^ 32; ok_time : u32_ok (timestamp_ms i);
  ok_flight : 0 ≤ frames_in_flight i ≤ b;
  ok_sent : 0 ≤ frames_sent i }.

(** A surface exists only while the pipeline is up. *)
Definition live (i : Inner) : Prop :=
  surface_configured i = true → g_state i = Ready ∧ 0 < g_width i ∧ 0 < g_height i.

(** What the client has when it has read everything the session wrote. *)
Definition client_of (i : Inner) : gfx_client :=
  {| gc_surfaces := if surface_configured i then {[surface_id i := (g_width i, g_height i)]} else ∅;
     gc_frame := None |}.

(** Messages that take the client of [i] to the client of [i']. *)
Definition moves (i i' : Inner) (ms : list server_message) : Prop :=
  live i' ∧ client_run (Some (client_of i)) ms = Some (client_of i').

Lemma moves_nil i i' : live i' → client_of i' = client_of i → moves i i' [].
Proof. intros H E. split; [done|]. cbn. by rewrite E. Qed.

Lemma inner_ok_mono b b' i : inner_ok b i → b ≤ b' → inner_ok b' i.
Proof. intros [] Hb. split; done || lia. Qed.

Lemma next_surface_id_ok id : 1 ≤ id < 2 ^ 16 → 1 ≤ next_surface_id id < 2 ^ 16 ∧ next_surface_id id ≠ id.
Proof.
  intros H. unfold next_surface_id, as_u16. destruct (decide (id = 65535)) as [->|]; [done|].
  rewrite Z.mod_small by lia. lia.
Qed.

(** ** Setting up a surface *)

Definition setup_messages (i : Inner) : list server_message :=
  [SResetGraphics (g_width i) (g_height i); SCreateSurface (surface_id i) (g_width i) (g_height i);
   SMapSurface (surface_id i)].

Lemma setup_carries b i :
  inner_ok b i → ∃ pdus ws, setup_pdus i = Ok pdus ∧ mapM encode_segmented_single pdus = Ok ws
  ∧ carries ws (setup_messages i) ∧ ws ≠ [].
Proof.
  intros []. unfold setup_pdus.
  destruct (reset_graphics_decode (g_width i) (g_height i)
    [{| m_left := 0; m_top := 0; m_right := Z.max (g_width i - 1) (- 2 ^ 31);
        m_bottom := Z.max (g_height i - 1) (- 2 ^ 31); primary := true |}])
    as (out & -> & Hl & Hd); [lia..|]. cbn [mbind res_bind].
  destruct (mapM_carries [out; encode_create_surface (surface_id i) (g_width i) (g_height i);
    encode_map_surface_to_output (surface_id i) 0 0] (setup_messages i)) as (ws & E & Hc & Hn).
  { unfold setup_messages. constructor; [split; [lia|done]|]. constructor.
    - split; [done|]. apply create_surface_decode; lia.
    - constructor; [|constructor]. split; [done|]. apply map_surface_decode. lia. }
  eexists _, ws. split_and!; [done..|by intros ->].
Qed.

Lemma setup_moves i :
  client_run (Some {| gc_surfaces := ∅; gc_frame := None |}) (setup_messages i)
  = Some {| gc_surfaces := {[surface_id i := (g_width i, g_height i)]}; gc_frame := None |}.
Proof.
  cbn. rewrite lookup_empty. cbn. rewrite insert_empty, lookup_singleton_eq. done.
Qed.

Lemma delete_moves i :
  surface_configured i = true →
  client_run (Some (client_of i)) [SDeleteSurface (surface_id i)]
  = Some {| gc_surfaces := ∅; gc_frame := None |}.
Proof.
  intros H. unfold client_of. rewrite H. cbn. rewrite lookup_singleton_eq. by rewrite delete_singleton_eq.
Qed.

Lemma delete_carries id :
  u16_ok id → ∃ w, encode_segmented_single (encode_delete_surface id) = Ok w ∧ carries [w] [SDeleteSurface id].
Proof. intros H. apply segmented_carries; [done|by apply delete_surface_decode]. Qed.

Lemma client_run_app c m1 m2 : client_run c (m1 ++ m2) = client_run (client_run c m1) m2.
Proof. apply foldl_app. Qed.

(** ** Operations *)

Ltac inner_tac :=
  split; cbn [set_surface set_counts set_frame g_state surface_configured surface_id g_width g_height
    next_frame_id frames_in_flight frames_sent timestamp_ms];
  unfold MAX_FRAMES_IN_FLIGHT in *; try done; try lia.

Definition cap_ok (s : RawCapabilitySet) : Prop := u32_ok (version s) ∧ len (cap_data s) < 2 ^ 30.

(** Taking the surface away, if there is one. *)
Lemma delete_if i (c : bool) : 1 ≤ surface_id i < 2 ^ 16 → (live i → c = surface_configured i) →
  ∃ wd, (if c then d ← encode_segmented_single (encode_delete_surface (surface_id i)); Ok [d] else Ok [])
    = (Ok wd : res DecodeError (list bytes))
  ∧ (live i → ∃ md, carries wd md ∧ client_run (Some (client_of i)) md = Some {| gc_surfaces := ∅; gc_frame := None |}).
Proof.
  intros Hid Hc. destruct c.
  - destruct (delete_carries (surface_id i)) as (wd & -> & Hwd); [lia|]. cbn [mbind res_bind].
    eexists [wd]. split; [done|]. intros Hl. eexists. split; [done|]. apply delete_moves. by rewrite Hc.
  - exists []. split; [done|]. intros Hl. exists []. split; [apply carries_nil|]. cbn. unfold client_of. by rewrite <-Hc.
Qed.

Section session.
Context {E : Type} `{!H264Encoder E}.

Lemma select_in sets sel :
  select_avc420_capability sets = Some sel → sel ∈ sets ∧ supports_avc420 sel = true.
Proof.
  unfold select_avc420_capability. intros H.
  pose proof (max_by_key_spec (λ s, cap_rank (version s)) (filter (λ s, supports_avc420 s = true) sets)) as Hm.
  rewrite H in Hm. destruct Hm as (l1 & l2 & El & _).
  assert (sel ∈ filter (λ s, supports_avc420 s = true) sets) as Hin.
  { rewrite El. apply elem_of_app. right. by left. }
  apply list_elem_of_filter in Hin as [Hs Hin]. done.
Qed.

Lemma on_caps_ok b i (enc : E) sets :
  0 ≤ b → inner_ok b i → Forall cap_ok sets →
  ∃ i' enc' ws, on_caps i enc sets = Ok (i', enc', ws) ∧ inner_ok b i'
  ∧ (live i → select_avc420_capability sets ≠ None → ∃ ms, carries ws ms ∧ moves i i' ms).
Proof.
  intros Hb Hi Hsets. unfold on_caps. pose proof Hi as [Hid Hw Hh Hn Ht Hf Hs].
  destruct (select_avc420_capability sets) as [sel|] eqn:Es.
  2: { do 3 eexists. split; [done|]. split; [by inner_tac|done]. }
  apply select_in in Es as [Hin _]. destruct (proj1 (Forall_forall _ _) Hsets sel Hin) as [Hv Hd].
  destruct (segmented_carries (encode_caps_confirm sel) SCapsConfirm) as (wc & Ec & Hc).
  { unfold encode_caps_confirm. rewrite len_message. unfold encode_body. pose proof (len_nonneg (cap_data sel)).
    len_lia. }
  { by apply caps_confirm_decode. }
  destruct (next_surface_id_ok _ Hid) as [Hnext _].
  set (c := bool_decide (g_state i = Ready) && surface_configured i).
  set (id' := if c then next_surface_id (surface_id i) else surface_id i).
  destruct (delete_if i c Hid) as (wd & Ewd & Hwd).
  { intros Hl. subst c. destruct (surface_configured i) eqn:Econf; [|by rewrite andb_false_r].
    destruct (Hl Econf) as (Er & _). by rewrite bool_decide_eq_true_2. }
  assert ((if c then d ← encode_segmented_single (encode_delete_surface (surface_id i));
         Ok (set_surface i (g_state i) (surface_configured i) (next_surface_id (surface_id i))
               (g_width i) (g_height i), [d])
       else Ok (i, []))
    = (Ok (set_surface i (g_state i) (surface_configured i) id' (g_width i) (g_height i), wd) : res DecodeError _)) as ->.
  { subst id'. destruct c.
    - destruct (encode_segmented_single (encode_delete_surface (surface_id i))) as [x|e|]; [|done..]. cbn [mbind res_bind] in Ewd |- *. by injection Ewd as <-.
    - injection Ewd as <-. by destruct i. }
  assert (1 ≤ id' < 2 ^ 16) as Hid' by (subst id'; case_match; lia).
  cbn [mbind res_bind set_surface set_counts surface_id surface_configured g_width g_height g_state].
  rewrite Ec. cbn [mbind res_bind].
  destruct ((0 <? g_width i) && (0 <? g_height i)) eqn:Ewh.
  - apply andb_true_iff in Ewh as [Hw0%Z.ltb_lt Hh0%Z.ltb_lt].
    match goal with |- context [setup_pdus ?i1] => set (i1' := i1) end.
    destruct (setup_carries b i1') as (pdus & ws & -> & Ews & Hws & _).
    { by inner_tac. }
    cbn [mbind res_bind]. rewrite Ews. cbn [mbind res_bind].
    do 3 eexists. split; [done|]. split; [by inner_tac|]. intros Hl _. destruct (Hwd Hl) as (md & Hmd & Hrun).
    exists (md ++ [SCapsConfirm] ++ setup_messages i1').
    split; [apply carries_app; [done|by apply carries_app]|].
    split; [done|].
    rewrite client_run_app, Hrun, client_run_app. cbn [client_run foldl mbind option_bind client_step].
    etransitivity; [apply (setup_moves i1')|]. done.
  - do 3 eexists. split; [done|]. split; [by inner_tac|]. intros Hl _. destruct (Hwd Hl) as (md & Hmd & Hrun).
    exists (md ++ [SCapsConfirm]). split; [by apply carries_app|]. split; [done|]. by rewrite client_run_app, Hrun.
Qed.

Lemma on_frame_ack_ok b i depth id :
  MAX_FRAMES_IN_FLIGHT ≤ b → inner_ok b i → u32_ok depth → inner_ok b (on_frame_ack i depth id).
Proof.
  intros Hb [] Hd. unfold on_frame_ack. split; cbn; try done. unfold MAX_FRAMES_IN_FLIGHT in *. case_match; lia.
Qed.

Lemma Inner_resize_ok b i (enc : E) w h :
  0 ≤ b → inner_ok b i → u16_ok w → u16_ok h →
  ∃ i' enc' out, Inner_resize i enc w h = Ok (i', enc', out) ∧ inner_ok b i' ∧ g_state i' = g_state i
  ∧ match out with
    | Some ws => ws ≠ [] ∧ surface_configured i' = true ∧ g_width i' = w ∧ g_height i' = h ∧ frames_in_flight i' = 0
        ∧ (live i → ∃ ms, carries ws ms ∧ moves i i' ms)
    | None => (live i → moves i i' [])
        ∧ (g_state i = Ready → w = 0 ∨ h = 0 ∨ surface_configured i = true ∧ g_width i = w ∧ g_height i = h)
    end.
Proof.
  intros Hb Hi Hw Hh. pose proof Hi as [Hid Hwi Hhi Hn Ht Hf Hs]. unfold Inner_resize.
  destruct ((w =? 0) || (h =? 0)) eqn:Ez.
  { do 3 eexists. do 3 (split; [done|]). split; [intros Hl; by apply moves_nil|]. intros _. lia. }
  destruct (surface_configured i && (g_width i =? w) && (g_height i =? h)) eqn:Em.
  { do 3 eexists. do 3 (split; [done|]). split; [intros Hl; by apply moves_nil|]. intros _. right. right.
    apply andb_true_iff in Em as [[? ?]%andb_true_iff ?]. split; [done|lia]. }
  destruct (next_surface_id_ok _ Hid) as [Hnext _].
  set (id' := if surface_configured i then next_surface_id (surface_id i) else surface_id i).
  assert (1 ≤ id' < 2 ^ 16) as Hid' by (subst id'; case_match; lia).
  set (i1 := set_counts (set_surface i (g_state i) false id' w h) 0 (frames_sent i) (encode_failures i) true).
  assert (inner_ok b i1) as Hi1 by inner_tac. change (g_state i1) with (g_state i).
  destruct (decide (g_state i = Ready)) as [Er|Er].
  2:{ rewrite bool_decide_eq_true_2 by done. do 3 eexists. do 3 (split; [done|]).
      split; [|done]. intros Hl. apply moves_nil; [done|]. unfold client_of.
      destruct (surface_configured i) eqn:Ec; [|done]. by destruct (Hl Ec). }
  rewrite bool_decide_eq_false_2 by auto.
  destruct (delete_if i (surface_configured i) Hid) as (wd & -> & Hwd); [done|].
  cbn [mbind res_bind]. destruct (setup_carries b i1 Hi1) as (pdus & ws & -> & Ews & Hws & Hne).
  cbn [mbind res_bind]. rewrite Ews. cbn [mbind res_bind]. do 3 eexists. split; [done|].
  split; [by inner_tac|]. split; [done|]. split; [by intros [_ ?]%app_nil|]. do 4 (split; [done|]).
  intros Hl. destruct (Hwd Hl) as (md & Hmd & Hrun).
  exists (md ++ setup_messages i1). split; [by apply carries_app|]. split.
  - intros _. cbn in *. split_and!; [done|lia..].
  - rewrite client_run_app, Hrun. apply setup_moves.
Qed.

(** ** Frames *)

Definition au_ok (au : EncodedAu) : Prop := len (annex_b au) < 2 ^ 29.

Lemma finish_encode_ok b i w h au :
  inner_ok b i → u16_ok w → u16_ok h → au_ok au → b < 2 ^ 32 - 1 →
  ∃ i' ws, finish_encode i w h au = Ok (i', ws) ∧ inner_ok (b + 1) i'
  ∧ carries ws [SStartFrame (next_frame_id i); SWireToSurface (surface_id i) w h; SEndFrame (next_frame_id i)]
  ∧ (live i → surface_configured i = true → g_width i = w → g_height i = h →
     moves i i' [SStartFrame (next_frame_id i); SWireToSurface (surface_id i) w h; SEndFrame (next_frame_id i)]).
Proof.
  intros Hi Hw Hh Hau Hb. pose proof Hi as [Hid Hwi Hhi Hn Ht Hf Hs]. unfold finish_encode.
  pose proof (as_u32_ok (timestamp_ms i + 33)). pose proof (as_u32_ok (next_frame_id i + 1)).
  set (bitmap := encode_avc420_bitmap_stream _ _ _ _ _).
  assert (len bitmap < 2 ^ 30) as Hbm.
  { subst bitmap. unfold encode_avc420_bitmap_stream, Rect16_encode, au_ok in *.
    pose proof (len_nonneg (annex_b au)). len_lia. }
  cbn [set_counts set_frame timestamp_ms surface_id next_frame_id frames_in_flight frames_sent].
  match goal with |- context [mapM encode_segmented_single ?ps] =>
    destruct (mapM_carries ps [SStartFrame (next_frame_id i);
      SWireToSurface (surface_id i) w h; SEndFrame (next_frame_id i)])
      as (ws & -> & Hws & _) end.
  { constructor; [split; [done|apply start_frame_decode; lia]|].
    constructor; [|constructor; [split; [done|apply end_frame_decode; lia]|constructor]].
    split; [|apply wire_to_surface_decode; done || lia].
    unfold encode_wire_to_surface_1_avc420. rewrite len_message. unfold Rect16_encode.
    pose proof (len_nonneg bitmap). len_lia. }
  cbn [mbind res_bind]. do 2 eexists. split; [done|]. split; [by inner_tac|]. split; [done|].
  intros Hl Hc <- <-. split; [done|].
  unfold client_of. rewrite Hc. cbn. rewrite Hc. rewrite lookup_singleton_eq.
  rewrite bool_decide_eq_true_2 by done. cbn. by rewrite bool_decide_eq_true_2.
Qed.

Lemma record_encode_failure_ok b i :
  inner_ok b i →
  ∃ i' r ws, record_encode_failure i = Ok (i', r) ∧ inner_ok b i' ∧ (r = Skip ∧ ws = [] ∨ r = Fallback ws)
  ∧ (live i → ∃ ms, carries ws ms ∧ moves i i' ms).
Proof.
  intros Hi. pose proof Hi as [Hid Hw Hh Hn Ht Hf Hs]. unfold record_encode_failure. cbn [encode_failures set_counts].
  destruct (ENCODE_FAIL_FALLBACK <=? _).
  2:{ do 2 eexists. exists []. split; [done|]. split; [by inner_tac|]. split; [by left|]. intros Hl.
      exists []. split; [apply carries_nil|]. by apply moves_nil. }
  unfold abandon. cbn [set_counts surface_configured surface_id].
  destruct (surface_configured i) eqn:Ec.
  - destruct (delete_carries (surface_id i)) as (wd & -> & Hwd); [lia|]. cbn [mbind res_bind].
    do 3 eexists. split; [done|]. split; [by inner_tac|]. split; [by right|]. intros Hl.
    exists [SDeleteSurface (surface_id i)]. split; [done|]. split; [done|]. by apply delete_moves.
  - cbn [mbind res_bind]. do 3 eexists. split; [done|]. split; [by inner_tac|]. split; [by right|]. intros Hl.
    exists []. split; [apply carries_nil|]. apply moves_nil; [done|]. unfold client_of. by rewrite Ec.
Qed.
End session.

(** ** What arrives *)

Definition message_ok (m : ClientMessage) : Prop :=
  match m with
  | CapsAdvertise sets => Forall cap_ok sets
  | FrameAcknowledge depth _ _ => u32_ok depth
  | _ => True
  end.

Lemma decode_client_message_ok input m :
  bytes_ok input → len input < 2 ^ 30 → decode_client_message input = Ok m → message_ok m.
Proof.
  intros Hb Hl. apply (sizes_run (2 ^ 30 - 1)); [|done|lia..].
  unfold decode_client_message_from.
  do 3 (eapply sizes_bind; [apply sizes_safe; eauto with safe|intros ? ?]).
  do 2 (eapply sizes_bind; [apply sizes_safe; eauto with safe|intros ? _]).
  destruct (_ =? CMD_CAPS_ADVERTISE).
  - eapply sizes_bind; [apply sizes_safe; eauto with safe|intros n _].
    eapply (sizes_bind _ _ _ (Forall cap_ok)); [|intros sets Hs; by apply sizes_safe, safe_ret].
    apply read_many_sizes. unfold RawCapabilitySet_decode.
    eapply sizes_bind; [apply sizes_safe, read_u32_le_safe|intros v Hv].
    eapply sizes_bind; [apply sizes_safe, read_u32_le_safe|intros k Hk]. cbn in Hk.
    eapply sizes_bind; [apply read_slice_sizes; lia|intros d Hd]. cbn in Hd.
    apply sizes_safe, safe_ret. split; [exact Hv|cbn; lia].
  - destruct (_ =? CMD_FRAME_ACKNOWLEDGE).
    + eapply sizes_bind; [apply sizes_safe, read_u32_le_safe|intros d Hd].
      apply sizes_safe. safe_steps. exact Hd.
    + destruct (_ =? CMD_CACHE_IMPORT_OFFER); by apply sizes_safe, safe_ret.
Qed.

(** The messages of a packet, up to the first that cannot be read. *)
Fixpoint messages_loop (fuel : nat) (rest : bytes) : list ClientMessage :=
  match fuel with
  | O => []
  | S fuel =>
    if bool_decide (rest = []) then []
    else
      match decode_client_message rest with
      | Ok msg =>
        let pdu_len := from_le (ztake 4 (zdrop 4 rest)) in
        if (len rest <? 8) || (pdu_len <? 8) || (len rest <? pdu_len) then []
        else msg :: messages_loop fuel (zdrop pdu_len rest)
      | _ => []
      end
  end.
Definition messages (data : bytes) : list ClientMessage := messages_loop (length data) data.

(** The client goes on offering AVC420. *)
Definition advert_ok (m : ClientMessage) : Prop :=
  match m with CapsAdvertise sets => select_avc420_capability sets ≠ None | _ => True end.
(** Anything but an advertisement. *)
Definition no_advert (m : ClientMessage) : Prop := match m with CapsAdvertise _ => False | _ => True end.

(** The surface is as it was. *)
Definition same_surface (i i' : Inner) : Prop :=
  g_state i' = g_state i ∧ surface_configured i' = surface_configured i ∧ surface_id i' = surface_id i
  ∧ g_width i' = g_width i ∧ g_height i' = g_height i.
Lemma same_surface_trans i1 i2 i3 : same_surface i1 i2 → same_surface i2 i3 → same_surface i1 i3.
Proof. unfold same_surface. intuition congruence. Qed.
Lemma same_client i i' : same_surface i i' → client_of i' = client_of i.
Proof. unfold client_of. by intros (_ & -> & -> & -> & ->). Qed.
Lemma same_live i i' : same_surface i i' → live i → live i'.
Proof. unfold live. by intros (-> & -> & _ & -> & ->). Qed.
Lemma moves_trans i1 i2 i3 m1 m2 : moves i1 i2 m1 → moves i2 i3 m2 → moves i1 i3 (m1 ++ m2).
Proof. intros [_ H1] [H2 H3]. split; [done|]. by rewrite client_run_app, H1. Qed.

Section steps.
Context {E : Type} `{!H264Encoder E}.
Implicit Types s : GfxSession E.

(** What a call sends: a change of surface that the client follows, if the advertisements are good;
    nothing at all, if there are none. *)
Definition answers (ms : list ClientMessage) (i i' : Inner) (ws : list bytes) : Prop :=
  (live i → Forall advert_ok ms → ∃ sm, carries ws sm ∧ moves i i' sm)
  ∧ (Forall no_advert ms → ws = [] ∧ same_surface i i').

Lemma answers_nothing ms i i' : same_surface i i' → answers ms i i' [].
Proof.
  intros H. split; [|done]. intros Hl _. exists []. split; [apply carries_nil|].
  apply moves_nil; [by eapply same_live|by apply same_client].
Qed.

Lemma handle_message_ok b s m :
  MAX_FRAMES_IN_FLIGHT ≤ b → inner_ok b (inner s) → message_ok m →
  ∃ s' ws, handle_message s m = Ok (s', ws) ∧ inner_ok b (inner s') ∧ answers [m] (inner s) (inner s') ws.
Proof.
  intros Hb Hi Hm. destruct m as [sets|d f t| |c]; cbn [handle_message message_ok] in *.
  - destruct (on_caps_ok b (inner s) (encoder s) sets) as (i' & enc' & ws & -> & Hi' & H);
      [unfold MAX_FRAMES_IN_FLIGHT in Hb; lia|done..|].
    exists {| inner := i'; encoder := enc' |}, ws. split; [done|]. split; [done|]. split.
    + intros Hl Ha. exact (H Hl (Forall_inv Ha)).
    + intros Ha. destruct (Forall_inv Ha).
  - eexists _, []. split; [done|]. split; [by apply on_frame_ack_ok|]. by apply answers_nothing.
  - exists s, []. split; [done|]. split; [done|]. by apply answers_nothing.
  - exists s, []. split; [done|]. split; [done|]. by apply answers_nothing.
Qed.

Lemma on_data_loop_ok b fuel s rest out :
  MAX_FRAMES_IN_FLIGHT ≤ b → inner_ok b (inner s) → bytes_ok rest → len rest < 2 ^ 30 → (length rest ≤ fuel)%nat →
  ∃ s' ws, on_data_loop fuel s rest out = Ok (s', out ++ ws) ∧ inner_ok b (inner s')
  ∧ answers (messages_loop fuel rest) (inner s) (inner s') ws.
Proof.
  intros Hfl. revert s rest out. induction fuel as [|fuel IH]; intros s rest out Hi Hb Hl Hf;
    cbn [on_data_loop messages_loop] in *.
  { destruct rest; [|cbn in Hf; lia]. exists s, []. rewrite app_nil_r. split; [done|]. split; [done|].
    by apply answers_nothing. }
  assert (∃ s' ws, (Ok (s, out) : res DecodeError _) = Ok (s', out ++ ws) ∧ inner_ok b (inner s')
    ∧ answers [] (inner s) (inner s') ws) as Hstop.
  { exists s, []. rewrite app_nil_r. split; [done|]. split; [done|]. by apply answers_nothing. }
  case_bool_decide; [done|].
  destruct (decode_client_message rest) as [msg| |] eqn:Ed; [|done|].
  2:{ pose proof (safe_run _ _ rest gfx_message_safe Hb ltac:(lia)) as Hs.
      unfold decode_client_message in Ed. by rewrite Ed in Hs. }
  destruct (len rest <? 8) eqn:E8; [done|]. cbn [orb].
  set (n := from_le (ztake 4 (zdrop 4 rest))) in *.
  destruct ((n <? 8) || (len rest <? n)) eqn:En; [done|].
  destruct (handle_message_ok b s msg Hfl Hi) as (s1 & w1 & -> & Hi1 & Hm1 & Hq1);
    [by eapply decode_client_message_ok|]. cbn [mbind res_bind].
  assert (len (zdrop n rest) = len rest - n) as Hz by (apply len_zdrop; lia).
  destruct (IH s1 (zdrop n rest) (out ++ w1)) as (s2 & w2 & -> & Hi2 & Hm2 & Hq2);
    [done|by apply Forall_drop|lia|unfold len in Hz; lia|].
  exists s2, (w1 ++ w2). rewrite <-(assoc_L (++)). split; [done|]. split; [done|]. split.
  - intros Hlive Hall. apply Forall_cons in Hall as [Ha Has]. destruct (Hm1 Hlive) as (m1 & Hc1 & Hv1); [by apply Forall_singleton|].
    destruct (Hm2 (proj1 Hv1) Has) as (m2 & Hc2 & Hv2). exists (m1 ++ m2).
    split; [by apply carries_app|]. by eapply moves_trans.
  - intros Hall. apply Forall_cons in Hall as [Ha Has]. destruct Hq1 as [-> Hs1]; [by apply Forall_singleton|].
    destruct (Hq2 Has) as [-> Hs2]. split; [done|]. by eapply same_surface_trans.
Qed.

(** ** Encoding a frame *)

Definition result_wires (r : GfxFrameResult) : list bytes :=
  match r with Frames l => l | Skip => [] | Fallback t => t end.

(** A frame that has begun: the surface has its size, and the client has it once it has read the
    frame's prefix. *)
Definition begun (i i' : Inner) (p : Pending) : Prop :=
  surface_configured i' = true ∧ g_width i' = p_width p ∧ g_height i' = p_height p
  ∧ (live i → live i' ∧ (p_prefix p = [] → client_of i' = client_of i)
     ∧ ∃ mp, carries (p_prefix p) mp ∧ client_run (Some (client_of i)) mp = Some (client_of i')).

Lemma start_frame_ok b s w h st px :
  0 ≤ b → inner_ok b (inner s) → u16_ok w → u16_ok h →
  ∃ s' r, start_frame s w h st px = Ok (s', r) ∧ inner_ok b (inner s')
  ∧ match r with
    | inl res => res = Skip ∧ inner s' = inner s
    | inr p => p_width p = w ∧ p_height p = h ∧ frames_in_flight (inner s') < MAX_FRAMES_IN_FLIGHT
        ∧ begun (inner s) (inner s') p
    end.
Proof.
  intros Hb Hi Hw Hh. unfold start_frame, begin_encode.
  destruct (decide (g_state (inner s) = Ready)) as [Er|Er].
  2:{ rewrite bool_decide_eq_true_2 by done. cbn [mbind res_bind]. by do 2 eexists. }
  rewrite bool_decide_eq_false_2 by auto.
  destruct ((w =? 0) || (h =? 0)) eqn:Ez; cbn [mbind res_bind]; [by do 2 eexists|].
  destruct (negb (surface_configured (inner s)) || negb (g_width (inner s) =? w)
    || negb (g_height (inner s) =? h)) eqn:En; cbn [mbind res_bind].
  - destruct (Inner_resize_ok b (inner s) (encoder s) w h Hb Hi Hw Hh) as (i1 & enc1 & out & -> & Hi1 & Est & Hout).
    cbn [mbind res_bind]. destruct out as [ws|].
    2:{ exfalso. destruct Hout as [_ Hout]. destruct (Hout Er) as [?|[?|(Hc & ? & ?)]]; [lia|lia|].
        rewrite Hc in En. cbn [negb orb] in En. lia. }
    destruct Hout as (Hne & Hc1 & Hw1 & Hh1 & Hf1 & Hm). rewrite Hc1. cbn [negb].
    rewrite Hf1. change (MAX_FRAMES_IN_FLIGHT <=? 0) with false. cbn [mbind res_bind].
    do 2 eexists. split; [done|]. split; [done|]. cbn [p_width p_height p_prefix inner].
    do 2 (split; [done|]). split; [by rewrite Hf1|]. split_and!; [done..|]. cbn [p_prefix].
    intros Hl. destruct (Hm Hl) as (ms & Hcar & Hl1 & Hrun). split; [done|]. split; [by intros ->|]. by exists ms.
  - apply orb_false_iff in En as [[E1 E2]%orb_false_iff E3].
    apply negb_false_iff in E1, E2, E3. apply Z.eqb_eq in E2, E3. rewrite E1. cbn [negb].
    destruct (Z.leb_spec MAX_FRAMES_IN_FLIGHT (frames_in_flight (inner s))); cbn [mbind res_bind];
      [by do 2 eexists|].
    do 2 eexists. split; [done|]. split; [done|]. cbn [p_width p_height p_prefix inner].
    do 3 (split; [done|]). split_and!; [done..|]. cbn [p_prefix]. intros Hl. split; [done|]. split; [done|].
    exists []. split; [apply carries_nil|done].
Qed.

Lemma end_frame_ok b s p au retried :
  inner_ok b (inner s) → b < 2 ^ 32 - 1 → u16_ok (p_width p) → u16_ok (p_height p) →
  match au with Some au => au_ok au | None => True end →
  ∃ s' r, end_frame s p au retried = Ok (s', r) ∧ inner_ok (b + 1) (inner s')
  ∧ (live (inner s) → surface_configured (inner s) = true → g_width (inner s) = p_width p →
     g_height (inner s) = p_height p →
     match au with
     | Some _ => ∃ ws ms, r = Frames (p_prefix p ++ ws) ∧ carries ws ms ∧ moves (inner s) (inner s') ms
     | None => ∃ ms, carries (result_wires r) ms ∧ moves (inner s) (inner s') ms
     end).
Proof.
  intros Hi Hb Hw Hh Hau. unfold end_frame. destruct au as [au|].
  - destruct (finish_encode_ok b (inner s) _ _ au Hi Hw Hh Hau Hb) as (i' & ws & -> & Hi' & Hc & Hm).
    cbn [mbind res_bind]. do 2 eexists. split; [done|]. split; [done|]. intros Hl Hcf Ew Eh.
    eexists ws, _. split; [done|]. split; [done|]. by apply Hm.
  - set (i := if retried then _ else _).
    assert (inner_ok b i ∧ same_surface (inner s) i) as [Hi2 Hs].
    { subst i. destruct retried; [|done]. destruct Hi. split; [by inner_tac|done]. }
    destruct (record_encode_failure_ok b i Hi2) as (i' & r & ws & -> & Hi' & Hr & Hm).
    cbn [mbind res_bind]. do 2 eexists. split; [done|]. split; [eapply inner_ok_mono; [done|lia]|].
    intros Hl _ _ _. destruct (Hm (same_live _ _ Hs Hl)) as (ms & Hc & Hl' & Hrun). exists ms.
    split; [by destruct Hr as [[-> ->]| ->]|]. split; [done|]. by rewrite <-(same_client _ _ Hs).
Qed.
End steps.

(** ** Sessions *)

(** The calls of the encoder that a frame has yet to make. *)
Inductive EncodeStage := ToEncode | ToRetry | ToFinish (au : option EncodedAu) (retried : bool).

(** [GFrame] runs the first section of [encode_frame], and [GEncode] one more of its parts: a call of
    the encoder, or the last section.  Between them the locks are free. *)
Inductive gfx_event :=
  | GData (data : bytes)
  | GResize (width height : Z)
  | GFrame (width height stride : Z) (pixels : bytes)
  | GEncode.

Section run.
Context {E : Type} `{!H264Encoder E}.

Record gfx_sys := { gs_session : GfxSession E; gs_encoding : option (Pending * EncodeStage) }.
Implicit Types s : gfx_sys.

Definition GfxSession_new (enc : E) (width height : Z) : GfxSession E :=
  {| inner := Inner_new width height; encoder := enc |}.
Definition gfx_start (enc : E) (width height : Z) : gfx_sys :=
  {| gs_session := GfxSession_new enc width height; gs_encoding := None |}.

Definition with_encoder (s : GfxSession E) (enc : E) : GfxSession E := {| inner := inner s; encoder := enc |}.

(** One call, or part of a call, and the messages it sends; the connection encodes one frame at a
    time. *)
Definition gfx_step s (e : gfx_event) : res DecodeError (gfx_sys * list bytes) :=
  let g := gs_session s in
  match e, gs_encoding s with
  | GData data, en => '(g, out) ← gfx_on_data g data; Ok ({| gs_session := g; gs_encoding := en |}, out)
  | GResize w h, en =>
    '(g, out) ← GfxSession_resize g w h; Ok ({| gs_session := g; gs_encoding := en |}, default [] out)
  | GFrame w h st px, None =>
    '(g, r) ← start_frame g w h st px;
    match r with
    | inl result => Ok ({| gs_session := g; gs_encoding := None |}, result_wires result)
    | inr p => Ok ({| gs_session := g; gs_encoding := Some (p, ToEncode) |}, [])
    end
  | GEncode, Some (p, ToEncode) =>
    let '(enc, r) := encode_once (encoder g) p (p_idr p) in
    let stage := match r with Some au => ToFinish (Some au) false | None => ToRetry end in
    Ok ({| gs_session := with_encoder g enc; gs_encoding := Some (p, stage) |}, [])
  | GEncode, Some (p, ToRetry) =>
    let '(enc, r) := encode_once (encoder g) p true in
    Ok ({| gs_session := with_encoder g enc; gs_encoding := Some (p, ToFinish r true) |}, [])
  | GEncode, Some (p, ToFinish au retried) =>
    '(g, r) ← end_frame g p au retried; Ok ({| gs_session := g; gs_encoding := None |}, result_wires r)
  | GFrame _ _ _ _, Some _ | GEncode, None => Ok (s, [])
  end.
Fixpoint gfx_run s (es : list gfx_event) : res DecodeError (gfx_sys * list bytes) :=
  match es with
  | [] => Ok (s, [])
  | e :: es =>
    '(s, out) ← gfx_step s e;
    '(s, outs) ← gfx_run s es;
    Ok (s, out ++ outs)
  end.

(** With nothing in between, the parts are [encode_frame]. *)
Lemma encode_frame_parts g w h st px g' r :
  encode_frame g w h st px = Ok (g', r) →
  gfx_run {| gs_session := g; gs_encoding := None |} [GFrame w h st px; GEncode; GEncode; GEncode]
  = Ok ({| gs_session := g'; gs_encoding := None |}, result_wires r).
Proof.
  unfold encode_frame. cbn [gfx_run gfx_step gs_session gs_encoding].
  destruct (start_frame g w h st px) as [[g1 [res|p]]| |]; [| |done..]; cbn [mbind res_bind].
  { intros [= <- <-]. cbn [gfx_step gs_encoding mbind res_bind]. by rewrite !app_nil_r. }
  unfold encode_retry. cbn [gfx_step gs_session gs_encoding].
  destruct (encode_once (encoder g1) p (p_idr p)) as [enc1 [au|]]; cbn [mbind res_bind gfx_step gs_session gs_encoding].
  - intros E1. unfold with_encoder. rewrite E1. cbn [mbind res_bind gfx_step gs_encoding]. by rewrite !app_nil_r.
  - cbn [with_encoder encoder]. destruct (encode_once enc1 p true) as [enc2 au].
    cbn [mbind res_bind gfx_step gs_session gs_encoding].
    intros E1. unfold with_encoder. cbn [inner]. rewrite E1. cbn [mbind res_bind]. by rewrite !app_nil_r.
Qed.

(** Packets are shorter than a gigabyte. *)
Definition gfx_event_ok (e : gfx_event) : Prop :=
  match e with
  | GData data => bytes_ok data ∧ len data < 2 ^ 30
  | GResize w h | GFrame w h _ _ => u16_ok w ∧ u16_ok h
  | GEncode => True
  end.

(** What the protocol asks besides: advertisements offer AVC420; while a frame is being encoded there
    is neither an advertisement nor a resize; and a frame that changed the surface is encoded. *)
Definition gfx_event_clean s (e : gfx_event) : Prop :=
  match e, gs_encoding s with
  | GData data, None => Forall advert_ok (messages data)
  | GData data, Some _ => Forall no_advert (messages data)
  | GResize _ _, Some _ => False
  | GEncode, Some (p, ToFinish None _) => p_prefix p = []
  | _, _ => True
  end.
Fixpoint gfx_clean s (es : list gfx_event) : Prop :=
  match es with
  | [] => True
  | e :: es => gfx_event_clean s e ∧ ∀ s' out, gfx_step s e = Ok (s', out) → gfx_clean s' es
  end.

(** While a frame is under way there is room for it. *)
Definition sys_ok s : Prop :=
  match gs_encoding s with
  | None => inner_ok (MAX_FRAMES_IN_FLIGHT + 1) (inner (gs_session s))
  | Some (p, stage) =>
    inner_ok MAX_FRAMES_IN_FLIGHT (inner (gs_session s)) ∧ u16_ok (p_width p) ∧ u16_ok (p_height p)
    ∧ match stage with ToFinish (Some au) _ => au_ok au | _ => True end
  end.
(** What the client [c] has. *)
Definition in_step (c : gfx_client) s : Prop :=
  let i := inner (gs_session s) in
  live i
  ∧ match gs_encoding s with
    | None => c = client_of i
    | Some (p, _) =>
      gc_frame c = None ∧ surface_configured i = true ∧ g_width i = p_width p ∧ g_height i = p_height p
      ∧ (p_prefix p = [] → client_of i = c)
      ∧ ∃ mp, carries (p_prefix p) mp ∧ client_run (Some c) mp = Some (client_of i)
    end.

Hypothesis encoder_small : ∀ (enc : E) w h st px idr au,
  (encode_bgrx enc w h st px idr).2 = Some au → au_ok au.

Lemma encode_once_small enc p idr :
  match (encode_once enc p idr).2 with Some au => au_ok au | None => True end.
Proof.
  unfold encode_once. pose proof (encoder_small enc (p_width p) (p_height p) (p_stride p) (p_pixels p) idr) as H.
  destruct (encode_bgrx _ _ _ _ _ _) as [enc' [au|]]; [|done]. cbn in H |- *. case_bool_decide; [done|by apply H].
Qed.

(** A step that the client follows, when it is clean. *)
Definition follows s s' (e : gfx_event) (ws : list bytes) : Prop :=
  ∀ c, in_step c s → gfx_event_clean s e → ∃ c', client_wires (Some c) ws = Some c' ∧ in_step c' s'.

Lemma stage_follows s p st st' e enc :
  gs_encoding s = Some (p, st) →
  follows s {| gs_session := with_encoder (gs_session s) enc; gs_encoding := Some (p, st') |} e [].
Proof. intros Es c [Hl Hc] _. rewrite Es in Hc. exists c. split; [done|]. by split. Qed.

Lemma data_step_ok s data : sys_ok s → gfx_event_ok (GData data) →
  ∃ s' ws, gfx_step s (GData data) = Ok (s', ws) ∧ sys_ok s' ∧ follows s s' (GData data) ws.
Proof.
  intros Hs [Hb Hl]. cbn [gfx_step]. unfold gfx_on_data, sys_ok, follows, in_step, gfx_event_clean in *.
  destruct (gs_encoding s) as [[p st]|] eqn:Es.
  - destruct Hs as (Hi & Hp).
    destruct (on_data_loop_ok _ (length data) (gs_session s) data [] (Z.le_refl _) Hi Hb Hl) as (g' & ws & -> & Hi' & _ & Hq);
      [lia|]. cbn [mbind res_bind]. do 2 eexists. split; [done|]. split; [done|].
    intros c [Hlive Hc] Hna. cbn [gs_session gs_encoding]. destruct (Hq Hna) as [-> Hsame]. exists c. split; [done|].
    split; [by eapply same_live|]. rewrite (same_client _ _ Hsame). destruct Hsame as (_ & -> & _ & -> & ->). done.
  - destruct (on_data_loop_ok _ (length data) (gs_session s) data []
      (ltac:(lia) : MAX_FRAMES_IN_FLIGHT ≤ MAX_FRAMES_IN_FLIGHT + 1) Hs Hb Hl) as (g' & ws & -> & Hi' & Hm & _); [lia|].
    cbn [mbind res_bind]. do 2 eexists. split; [done|]. split; [done|].
    intros c [Hlive ->] Ha. destruct (Hm Hlive Ha) as (ms & Hcar & Hl' & Hrun). cbn [app].
    eexists. split; [rewrite Hcar; exact Hrun|]. by split.
Qed.

Lemma resize_step_ok s w h : sys_ok s → gfx_event_ok (GResize w h) →
  ∃ s' ws, gfx_step s (GResize w h) = Ok (s', ws) ∧ sys_ok s' ∧ follows s s' (GResize w h) ws.
Proof.
  intros Hs [Hw Hh]. cbn [gfx_step]. unfold GfxSession_resize.
  set (b := if gs_encoding s then MAX_FRAMES_IN_FLIGHT else MAX_FRAMES_IN_FLIGHT + 1).
  assert (inner_ok b (inner (gs_session s))) as Hi by (unfold sys_ok, b in *; destruct (gs_encoding s) as [[p st]|]; tauto).
  destruct (Inner_resize_ok b (inner (gs_session s)) (encoder (gs_session s)) w h) as (i' & enc' & out & -> & Hi' & _ & Hout);
    [subst b; unfold MAX_FRAMES_IN_FLIGHT; case_match; lia|done..|]. cbn [mbind res_bind].
  do 2 eexists. split; [done|]. split.
  { unfold sys_ok, b in *. cbn [gs_encoding gs_session inner]. destruct (gs_encoding s) as [[p st]|]; tauto. }
  intros c [Hlive Hc] Hcl. unfold gfx_event_clean in Hcl. unfold in_step. cbn [gs_encoding gs_session inner].
  destruct (gs_encoding s) as [[p st]|]; [done|]. subst c. destruct out as [ws|].
  - destruct Hout as (_ & _ & _ & _ & _ & Hm). destruct (Hm Hlive) as (ms & Hcar & Hl' & Hrun).
    eexists. split; [cbn [default]; rewrite Hcar; exact Hrun|]. by split.
  - destruct Hout as [Hm _]. destruct (Hm Hlive) as [Hl' Hrun]. eexists. split; [done|]. split; [done|]. cbn in Hrun.
    by injection Hrun.
Qed.

Lemma frame_step_ok s w h st px : sys_ok s → gfx_event_ok (GFrame w h st px) →
  ∃ s' ws, gfx_step s (GFrame w h st px) = Ok (s', ws) ∧ sys_ok s' ∧ follows s s' (GFrame w h st px) ws.
Proof.
  intros Hs [Hw Hh]. cbn [gfx_step]. destruct (gs_encoding s) as [[p stage]|] eqn:Es.
  { exists s, []. split; [done|]. split; [done|]. intros c Hc _. by exists c. }
  unfold sys_ok in Hs. rewrite Es in Hs.
  destruct (start_frame_ok _ (gs_session s) w h st px (ltac:(done) : 0 ≤ MAX_FRAMES_IN_FLIGHT + 1) Hs Hw Hh)
    as (g' & r & -> & Hi' & Hr).
  cbn [mbind res_bind]. destruct r as [res|p].
  - destruct Hr as [-> Heq]. do 2 eexists. split; [done|]. split; [done|].
    intros c [Hlive Hc] _. rewrite Es in Hc. exists c. split; [done|]. split; cbn [gs_session gs_encoding]; by rewrite Heq.
  - destruct Hr as (Epw & Eph & Hfl & Hc1 & Hw1 & Hh1 & Hbeg). do 2 eexists. split; [done|]. split.
    { cbn. split; [destruct Hi'; split; try done; lia|]. by rewrite Epw, Eph. }
    intros c [Hlive Hc] _. rewrite Es in Hc. subst c. destruct (Hbeg Hlive) as (Hl' & Hnil & Hmp).
    eexists. split; [done|]. split; [done|]. cbn [gs_encoding gs_session]. by split_and!.
Qed.

Lemma encode_step_ok s : sys_ok s →
  ∃ s' ws, gfx_step s GEncode = Ok (s', ws) ∧ sys_ok s' ∧ follows s s' GEncode ws.
Proof.
  intros Hs. cbn [gfx_step]. unfold sys_ok in Hs. destruct (gs_encoding s) as [[p stage]|] eqn:Es.
  2: { exists s, []. split; [done|]. split; [unfold sys_ok; by rewrite Es|]. intros c Hc _. by exists c. }
  destruct Hs as (Hi & Hw & Hh & Hau). destruct stage as [| |au retried].
  - pose proof (encode_once_small (encoder (gs_session s)) p (p_idr p)) as Hsm.
    destruct (encode_once _ p (p_idr p)) as [enc r]. do 2 eexists. split; [done|]. split; [|by eapply stage_follows].
    cbn. do 3 (split; [done|]). by destruct r.
  - pose proof (encode_once_small (encoder (gs_session s)) p true) as Hsm.
    destruct (encode_once _ p true) as [enc r]. do 2 eexists. split; [done|]. split; [|by eapply stage_follows].
    cbn. do 3 (split; [done|]). exact Hsm.
  - destruct (end_frame_ok _ (gs_session s) p au retried Hi) as (g' & r & -> & Hi' & Hm); [done..|].
    cbn [mbind res_bind]. do 2 eexists. split; [done|]. split; [done|].
    intros c [Hlive Hc] Hcl. unfold gfx_event_clean in Hcl. rewrite Es in Hc, Hcl.
    destruct Hc as (_ & Hc1 & Hw1 & Hh1 & Hnil & mp & Hcar & Hrun). specialize (Hm Hlive Hc1 Hw1 Hh1).
    destruct au as [au|].
    + destruct Hm as (ws & ms & -> & Hws & Hl' & Hrun'). cbn [result_wires].
      eexists. split; [rewrite (carries_app _ _ mp ms Hcar Hws), client_run_app, Hrun; exact Hrun'|]. by split.
    + destruct Hm as (ms & Hws & Hl' & Hrun'). rewrite <-(Hnil Hcl).
      eexists. split; [rewrite Hws; exact Hrun'|]. by split.
Qed.

Lemma gfx_step_ok s e : sys_ok s → gfx_event_ok e →
  ∃ s' ws, gfx_step s e = Ok (s', ws) ∧ sys_ok s' ∧ follows s s' e ws.
Proof.
  intros Hs He. destruct e; [by apply data_step_ok|by apply resize_step_ok|by apply frame_step_ok|by apply encode_step_ok].
Qed.

Lemma client_wires_app c w1 w2 : client_wires c (w1 ++ w2) = client_wires (client_wires c w1) w2.
Proof. apply foldl_app. Qed.

Lemma gfx_run_ok s es : sys_ok s → Forall gfx_event_ok es →
  ∃ s' ws, gfx_run s es = Ok (s', ws) ∧ sys_ok s'
  ∧ ∀ c, in_step c s → gfx_clean s es → ∃ c', client_wires (Some c) ws = Some c' ∧ in_step c' s'.
Proof.
  intros Hs Hes. revert s Hs. induction Hes as [|e es He _ IH]; intros s Hs.
  { exists s, []. split; [done|]. split; [done|]. intros c Hc _. by exists c. }
  destruct (gfx_step_ok s e Hs He) as (s1 & w1 & E1 & Hs1 & Hf1). destruct (IH s1 Hs1) as (s2 & w2 & E2 & Hs2 & Hf2).
  exists s2, (w1 ++ w2). cbn [gfx_run]. rewrite E1. cbn [mbind res_bind]. rewrite E2. split; [done|]. split; [done|].
  intros c Hc [Hcl Hcls]. destruct (Hf1 c Hc Hcl) as (c1 & Ec1 & Hc1). rewrite client_wires_app, Ec1.
  apply Hf2; [done|]. by eapply Hcls.
Qed.

Lemma gfx_start_ok enc w h : u16_ok w → u16_ok h → sys_ok (gfx_start enc w h).
Proof. intros Hw Hh. split; cbn; unfold DEFAULT_SURFACE_ID, MAX_FRAMES_IN_FLIGHT; try done; lia. Qed.

(** C37. The graphics session keeps the protocol. Whatever packets arrive (also garbage, also
    advertisements without AVC420), whatever resizes and frames follow, whatever the encoder does
    (packets have less than 2^30 bytes, access units less than 2^29), and whatever of this comes
    between the two sections under the lock and the calls of the encoder that make up
    [encode_frame]: no call panics, and at most 33 frames are unacknowledged (32 when a frame
    begins). And a client that decompresses and decodes the messages in order accepts every one,
    if it does not withdraw AVC420, if nothing but acknowledgements comes while a frame is encoded
    (the connection's loop waits for the encoder), and if a frame that changes the surface is
    encoded: a surface is created only while it does not exist, deleted, mapped and drawn on only
    while it does and at its size, frames are opened and closed in pairs, and between frames the
    client has exactly the session's surface. *)
Theorem gfx_session_protocol enc w h es :
  u16_ok w → u16_ok h → Forall gfx_event_ok es →
  ∃ s wires, gfx_run (gfx_start enc w h) es = Ok (s, wires)
  ∧ 0 ≤ frames_in_flight (inner (gs_session s)) ≤ MAX_FRAMES_IN_FLIGHT + 1
  ∧ (gfx_clean (gfx_start enc w h) es →
     ∃ c, client_wires (Some {| gc_surfaces := ∅; gc_frame := None |}) wires = Some c ∧ gc_frame c = None
        ∧ (gs_encoding s = None → c = client_of (inner (gs_session s)))).
Proof.
  intros Hw Hh Hes.
  destruct (gfx_run_ok (gfx_start enc w h) es) as (s & ws & Er & Hs & Hf); [by apply gfx_start_ok|done|].
  exists s, ws. split; [done|]. split.
  { unfold sys_ok in Hs. destruct (gs_encoding s) as [[p st]|]; [destruct Hs as [Hi _]|rename Hs into Hi]; destruct Hi; lia. }
  intros Hcl. destruct (Hf {| gc_surfaces := ∅; gc_frame := None |}) as (c & Ec & Hl & Hc); [done|done|].
  exists c. split; [done|]. destruct (gs_encoding s) as [[p st]|]; [|by subst c].
  by destruct Hc.
Qed.
End run.


(** A client that offers version 10.2, two frames of which the first is acknowledged while the
    second is encoded, a resize, a frame that changes the surface and garbage. *)
Definition sample_advert : bytes :=
  write_u16_le CMD_CAPS_ADVERTISE ++ write_u16_le 0 ++ write_u32_le 22 ++ write_u16_le 1
  ++ encode_body (flags_only CAP_VERSION_102 0).
Definition sample_ack : bytes :=
  write_u16_le CMD_FRAME_ACKNOWLEDGE ++ write_u16_le 0 ++ write_u32_le 20 ++ write_u32_le 1
  ++ write_u32_le 1 ++ write_u32_le 1.
Definition sample_gfx : list gfx_event :=
  [GFrame 64 32 256 []; GData sample_advert; GFrame 64 32 256 []; GEncode; GEncode; GFrame 64 32 256 [];
   GData (sample_ack ++ sample_ack); GEncode; GData sample_ack; GEncode; GResize 32 32;
   GFrame 48 32 192 []; GEncode; GEncode; GData (sample_advert ++ [1; 2])].

Lemma gfx_session_protocol_witness :
  gfx_clean (gfx_start {| frames := 0 |} 64 32) sample_gfx
  ∧ ∃ s wires, gfx_run (gfx_start {| frames := 0 |} 64 32) sample_gfx = Ok (s, wires)
  ∧ 0 ≤ frames_in_flight (inner (gs_session s)) ≤ MAX_FRAMES_IN_FLIGHT + 1
  ∧ (gfx_clean (gfx_start {| frames := 0 |} 64 32) sample_gfx →
     ∃ c, client_wires (Some {| gc_surfaces := ∅; gc_frame := None |}) wires = Some c ∧ gc_frame c = None
        ∧ (gs_encoding s = None → c = client_of (inner (gs_session s)))).
Proof.
  split.
  - unfold sample_gfx.
    repeat (split; [vm_compute; repeat constructor; done|];
            intros s' out E'; vm_compute in E'; injection E' as <- <-). exact I.
  - apply gfx_session_protocol; [|lia..|].
    + intros enc w h st px idr au [= <-]. done.
    + repeat apply Forall_cons_2; try apply Forall_nil_2; first [exact I | cbn; lia | split; [apply (bool_decide_eq_true_1 _); vm_compute; reflexivity|done]].
Defined.

(** Two sections and no lock between them: a resize during the encode, which the connection's loop
    never makes, would have the frame drawn at the old size. *)
Example resize_during_encode_rejected :
  match gfx_run (gfx_start {| frames := 0 |} 64 32)
    [GData sample_advert; GFrame 64 32 256 []; GResize 32 32; GEncode; GEncode] with
  | Ok (_, wires) =>
    match client_wires (Some {| gc_surfaces := ∅; gc_frame := None |}) wires with None => true | Some _ => false end
  | _ => false
  end = true.
Proof. vm_compute. reflexivity. Qed.

(** ** A lost surface *)

Section lost.
Context {E : Type} `{!H264Encoder E}.
Hypothesis encoder_small : ∀ (enc : E) w h st px idr au,
  (encode_bgrx enc w h st px idr).2 = Some au → au_ok au.
Implicit Types s : GfxSession E.

Lemma Inner_resize_id i enc w h i' enc' ws :
  surface_configured i = true → Inner_resize i enc w h = Ok (i', enc', Some ws) →
  surface_id i' = next_surface_id (surface_id i).
Proof.
  intros Ec. unfold Inner_resize. destruct ((w =? 0) || (h =? 0)); [done|].
  destruct (surface_configured i && (g_width i =? w) && (g_height i =? h)); [done|].
  rewrite Ec. case_bool_decide; [done|].
  destruct (encode_segmented_single _); [|done|done]. cbn [mbind res_bind].
  destruct (setup_pdus _); [|done|done]. cbn [mbind res_bind].
  destruct (mapM _ _); [|done|done]. cbn [mbind res_bind]. by intros [= <- <- <-].
Qed.

(** The first section for a frame of another size: the session has a surface of its own. *)
Lemma resizing_start_frame b s w h st px :
  0 ≤ b → inner_ok b (inner s) → g_state (inner s) = Ready → surface_configured (inner s) = true →
  0 < w < 2 ^ 16 → 0 < h < 2 ^ 16 → ¬ (g_width (inner s) = w ∧ g_height (inner s) = h) →
  ∃ s1 p, start_frame s w h st px = Ok (s1, inr p) ∧ inner_ok b (inner s1)
  ∧ g_state (inner s1) = Ready ∧ surface_configured (inner s1) = true
  ∧ surface_id (inner s1) = next_surface_id (surface_id (inner s))
  ∧ g_width (inner s1) = w ∧ g_height (inner s1) = h ∧ frames_in_flight (inner s1) = 0.
Proof.
  intros Hb Hi Er Ec Hw Hh Hne. unfold start_frame, begin_encode.
  rewrite bool_decide_eq_false_2 by (rewrite Er; auto).
  replace ((w =? 0) || (h =? 0)) with false by lia.
  replace (negb (surface_configured (inner s)) || negb (g_width (inner s) =? w)
    || negb (g_height (inner s) =? h)) with true by (rewrite Ec; cbn; lia).
  destruct (Inner_resize_ok b (inner s) (encoder s) w h Hb Hi ltac:(lia) ltac:(lia))
    as (i1 & enc1 & [ws|] & Eq & Hi1 & Es & Ho); [|destruct Ho as [_ Ho]; specialize (Ho Er); lia].
  destruct Ho as (_ & Hc1 & Hw1 & Hh1 & Hf1 & _). pose proof (Inner_resize_id _ _ _ _ _ _ _ Ec Eq) as Hid.
  rewrite Eq. cbn [mbind res_bind]. rewrite Hc1, Hf1. cbn [negb]. change (MAX_FRAMES_IN_FLIGHT <=? 0) with false.
  cbn [mbind res_bind]. do 2 eexists. split; [done|]. cbn [inner]. by rewrite Es.
Qed.

(** After a skipped frame of another size the session draws on that surface. *)
Lemma skipped_resize_surface b s w h st px s1 :
  0 ≤ b → inner_ok b (inner s) → g_state (inner s) = Ready → surface_configured (inner s) = true →
  0 < w < 2 ^ 16 → 0 < h < 2 ^ 16 → ¬ (g_width (inner s) = w ∧ g_height (inner s) = h) →
  encode_frame s w h st px = Ok (s1, Skip) →
  inner_ok b (inner s1) ∧ g_state (inner s1) = Ready ∧ surface_configured (inner s1) = true
  ∧ surface_id (inner s1) = next_surface_id (surface_id (inner s))
  ∧ g_width (inner s1) = w ∧ g_height (inner s1) = h ∧ frames_in_flight (inner s1) = 0.
Proof.
  intros Hb Hi Er Ec Hw Hh Hne. unfold encode_frame.
  destruct (resizing_start_frame b s w h st px Hb Hi Er Ec Hw Hh Hne) as (s0 & p & -> & Hi0 & E0 & Hrest).
  cbn [mbind res_bind]. destruct (encode_retry _ p) as [[enc2 [au|]] retried]; unfold end_frame; cbn [inner encoder].
  { by destruct (finish_encode _ _ _ _) as [[]| |]. }
  set (i2 := if retried then _ else _). unfold record_encode_failure.
  assert (inner_ok b i2 ∧ g_state i2 = Ready ∧ same_surface (inner s0) i2
    ∧ frames_in_flight i2 = frames_in_flight (inner s0)) as (H2 & E2 & Hsame & Hf2).
  { subst i2. destruct retried; [|done]. destruct Hi0. split; [inner_tac|]. by cbn. }
  destruct (ENCODE_FAIL_FALLBACK <=? _); [by destruct (abandon _) as [[]| |]|]. cbn [mbind res_bind].
  intros [= <-]. cbn [inner]. destruct H2. split; [inner_tac|]. cbn.
  destruct Hsame as (_ & -> & -> & -> & ->). by rewrite Hf2.
Qed.

(** A frame on a surface the client does not have. *)
Lemma frame_on_missing_surface b s w h st px s2 ws c :
  inner_ok b (inner s) → b < 2 ^ 32 - 1 → g_state (inner s) = Ready → surface_configured (inner s) = true →
  0 < w → 0 < h → g_width (inner s) = w → g_height (inner s) = h →
  frames_in_flight (inner s) = 0 → gc_surfaces c !! surface_id (inner s) = None → gc_frame c = None →
  encode_frame s w h st px = Ok (s2, Frames ws) → client_wires (Some c) ws = None.
Proof.
  intros Hi Hb Er Ec Hw Hh Ew Eh Hf Hc Hfr. unfold encode_frame, start_frame, begin_encode.
  rewrite Er, Ec, Ew, Eh, !Z.eqb_refl. rewrite bool_decide_eq_false_2 by auto.
  replace ((w =? 0) || (h =? 0)) with false by lia. cbn [negb orb mbind res_bind].
  rewrite Ec. cbn [negb]. rewrite Hf. change (MAX_FRAMES_IN_FLIGHT <=? 0) with false. cbn [mbind res_bind].
  unfold encode_retry. cbn [encoder].
  match goal with |- context [encode_once (encoder s) ?p ?idr] =>
    pose proof (encode_once_small encoder_small (encoder s) p idr) as H1;
    destruct (encode_once (encoder s) p idr) as [enc1 r1];
    pose proof (encode_once_small encoder_small enc1 p true) as H2;
    destruct (encode_once enc1 p true) as [enc2 r2] end.
  assert (∀ p enc au retried, p_width p = w → p_height p = h → p_prefix p = [] →
    match au with Some au => au_ok au | None => True end →
    end_frame {| inner := inner s; encoder := enc |} p au retried = Ok (s2, Frames ws) →
    client_wires (Some c) ws = None) as Hend.
  { intros p enc [au|] retried Hpw Hph Hp Hau; unfold end_frame; cbn [inner encoder].
    - rewrite Hpw, Hph, Hp. destruct (finish_encode_ok b (inner s) w h au) as (i' & ws' & -> & _ & Hws & _);
        [done|destruct Hi; lia..|done|done|].
      cbn [mbind res_bind app]. intros [= <- <-]. rewrite (Hws (Some c)). cbn. rewrite Hfr. cbn. by rewrite Hc.
    - destruct (record_encode_failure _) as [[i' r]| |] eqn:Erf; [|done|done]. cbn [mbind res_bind].
      intros [= _ ->]. revert Erf. unfold record_encode_failure.
      destruct (ENCODE_FAIL_FALLBACK <=? _); [|done]. by destruct (abandon _) as [[]| |]. }
  destruct r1 as [au|]; apply Hend; done.
Qed.

(** A failed encode loses the surface.  When the desktop has changed its size and the
    encoder fails on the first frame of the new size, [encode_frame] answers [Skip] and
    drops the messages that delete the old surface and create the new one, but the session
    keeps the new surface as configured.  The client then still has the old surface alone,
    and the next frame that is encoded draws on one it was never told to create. *)
Theorem gfx_failed_encode_loses_surface s w h st px s1 st' px' s2 ws :
  inner_ok MAX_FRAMES_IN_FLIGHT (inner s) → g_state (inner s) = Ready → surface_configured (inner s) = true →
  0 < w < 2 ^ 16 → 0 < h < 2 ^ 16 → ¬ (g_width (inner s) = w ∧ g_height (inner s) = h) →
  encode_frame s w h st px = Ok (s1, Skip) →
  encode_frame s1 w h st' px' = Ok (s2, Frames ws) →
  client_of (inner s1) ≠ client_of (inner s)
  ∧ client_wires (Some (client_of (inner s))) ws = None.
Proof.
  intros Hi Er Ec Hw Hh Hne H1 H2.
  destruct (skipped_resize_surface MAX_FRAMES_IN_FLIGHT s w h st px s1 ltac:(done) Hi Er Ec Hw Hh Hne H1)
    as (Hi1 & Er1 & Ec1 & Eid & Ew1 & Eh1 & Hf1).
  destruct (next_surface_id_ok (surface_id (inner s))) as [_ Hid]; [apply Hi|].
  assert (gc_surfaces (client_of (inner s)) !! surface_id (inner s1) = None) as Hnone.
  { unfold client_of. rewrite Ec, Eid. cbn. by rewrite lookup_singleton_ne by congruence. }
  split.
  - intros Ecl. apply (f_equal gc_surfaces) in Ecl. rewrite <-Ecl in Hnone. revert Hnone.
    unfold client_of. rewrite Ec1. cbn. by rewrite lookup_singleton_eq.
  - by apply (frame_on_missing_surface MAX_FRAMES_IN_FLIGHT s1 w h st' px' s2 ws); try (done || lia).
Qed.
End lost.

(** An encoder that fails its first calls. *)
Definition failing_encoder : H264Encoder nat :=
  {| encode_bgrx n _ _ _ _ _ :=
       match n with O => (O, Some {| annex_b := [0; 0; 0; 1; 0x65]; qp := 22 |}) | S n => (n, None) end;
     encoder_reset n := n |}.

Lemma gfx_failed_encode_loses_surface_witness :
  ∃ s1 s2 ws, let s := {| inner := set_surface (Inner_new 64 32) Ready true 1 64 32; encoder := 2%nat |} in
  encode_frame (H264Encoder0 := failing_encoder) s 32 32 128 [] = Ok (s1, Skip)
  ∧ encode_frame (H264Encoder0 := failing_encoder) s1 32 32 128 [] = Ok (s2, Frames ws)
  ∧ client_of (inner s1) ≠ client_of (inner s)
  ∧ client_wires (Some (client_of (inner s))) ws = None.
Proof.
  do 3 eexists. cbv zeta. split; [vm_compute; reflexivity|]. split; [vm_compute; reflexivity|].
  eapply (gfx_failed_encode_loses_surface (H264Encoder0 := failing_encoder)) with (s := {| inner := set_surface (Inner_new 64 32) Ready true 1 64 32; encoder := 2%nat |})
    (w := 32) (h := 32) (st := 128) (px := []) (st' := 128) (px' := []);
    [|by split|done|done|lia|lia|cbn; lia|vm_compute; reflexivity|vm_compute; reflexivity].
  intros [|n] w h st px idr au; [by intros [= <-]|done].
Defined.
