(* ===== verification/Connector.v ===== *)
(** [rdpcore-connector/src/lib.rs]: [Acceptor], the server side of the connection
    sequence from the X.224 Connection Request to the end of finalization, and
    the resize that reopens it. *)
From S2P Require Import Prelude Cursor Utf Framing Ber Per Mcs.
From S2P Require Import Headers ClientInfo Gcc Capability Finalization.

Definition USER_CHANNEL_ID : Z := BASE_CHANNEL_ID + 1.
Definition IO_CHANNEL_ID : Z := USER_CHANNEL_ID + 1.
Definition SHARE_ID : Z := 0x00010000.
Definition MAX_CONFIRM_ACTIVE_LEN : Z := 1024 * 1024.

(** ** Data *)

Inductive ConnectorError :=
  | Decode (e : DecodeError)
  | AlreadyFinished
  | NotReady.

Record ClientCredentials := { cr_domain : rstring; cr_username : rstring; cr_password : rstring }.

Record AcceptedConnection := {
  ac_io_channel_id : Z; ac_user_channel_id : Z; static_channels : list (rstring * Z);
  ac_share_id : Z; ac_desktop_width : Z; ac_desktop_height : Z; ac_client_name : rstring;
  ac_nscodec : option NsCodecNegotiated; ac_max_request_size : option Z }.

Inductive AcceptorEvent :=
  | EvNone
  | EvRejected
  | EvTlsUpgrade
  | EvClientInfoReceived (c : ClientCredentials)
  | EvAccepted (c : AcceptedConnection).

Record StepResult := { response : bytes; event : AcceptorEvent }.
Definition just (r : bytes) : StepResult := {| response := r; event := EvNone |}.
Definition with_event (r : bytes) (e : AcceptorEvent) : StepResult :=
  {| response := r; event := e |}.

(** [FinalizationProgress] is its one flag. *)
Inductive State :=
  | WaitConnectionRequest | WaitConnectInitial | WaitErectDomainRequest | WaitAttachUserRequest
  | WaitChannelJoinRequest (remaining : Z) | WaitClientInfo | WaitAuthApproval
  | WaitConfirmActive | WaitFinalization (granted_control_sent : bool) | Accepted | Rejected.

Record Acceptor := {
  state : State; a_width : Z; a_height : Z; static_channel_names : list rstring;
  message_channel_id : option Z; a_client_name : rstring; client_requested : Z;
  selected_protocol : Z; require_nla : bool; confirm_active_buf : bytes;
  nscodec : option NsCodecNegotiated; max_request_size : option Z }.

(** ** Assignments *)

Definition set_state (s : State) (a : Acceptor) : Acceptor :=
  Build_Acceptor s (a_width a) (a_height a) (static_channel_names a) (message_channel_id a)
    (a_client_name a) (client_requested a) (selected_protocol a) (require_nla a)
    (confirm_active_buf a) (nscodec a) (max_request_size a).
Definition set_size (w h : Z) (a : Acceptor) : Acceptor :=
  Build_Acceptor (state a) w h (static_channel_names a) (message_channel_id a)
    (a_client_name a) (client_requested a) (selected_protocol a) (require_nla a)
    (confirm_active_buf a) (nscodec a) (max_request_size a).
Definition set_client (name : rstring) (channels : list rstring) (message : option Z) (a : Acceptor)
  : Acceptor :=
  Build_Acceptor (state a) (a_width a) (a_height a) channels message name (client_requested a)
    (selected_protocol a) (require_nla a) (confirm_active_buf a) (nscodec a) (max_request_size a).
Definition set_protocol (requested selected : Z) (a : Acceptor) : Acceptor :=
  Build_Acceptor (state a) (a_width a) (a_height a) (static_channel_names a)
    (message_channel_id a) (a_client_name a) requested selected (require_nla a)
    (confirm_active_buf a) (nscodec a) (max_request_size a).
Definition set_buf (b : bytes) (a : Acceptor) : Acceptor :=
  Build_Acceptor (state a) (a_width a) (a_height a) (static_channel_names a)
    (message_channel_id a) (a_client_name a) (client_requested a) (selected_protocol a)
    (require_nla a) b (nscodec a) (max_request_size a).
Definition set_caps (n : option NsCodecNegotiated) (m : option Z) (a : Acceptor) : Acceptor :=
  Build_Acceptor (state a) (a_width a) (a_height a) (static_channel_names a)
    (message_channel_id a) (a_client_name a) (client_requested a) (selected_protocol a)
    (require_nla a) (confirm_active_buf a) n m.

(** ** Operations on [&mut self] that return [Result]: the state persists when an
    error is returned. *)

Definition act (A : Type) : Type := Acceptor → Acceptor * res ConnectorError A.
Global Instance act_ret : MRet act := λ A x a, (a, Ok x).
Global Instance act_bind : MBind act := λ A B k m a,
  match m a with
  | (a, Ok x) => k x a
  | (a, Err e) => (a, Err e)
  | (a, Panic) => (a, Panic)
  end.
Global Instance act_fmap : FMap act := λ A B f m a,
  match m a with
  | (a, Ok x) => (a, Ok (f x))
  | (a, Err e) => (a, Err e)
  | (a, Panic) => (a, Panic)
  end.
Definition get : act Acceptor := λ a, (a, Ok a).
Definition modify (f : Acceptor → Acceptor) : act unit := λ a, (f a, Ok tt).
Definition throw {A} (e : ConnectorError) : act A := λ a, (a, Err e).
Definition panic {A} : act A := λ a, (a, Panic).
(** [m?] of a [DecodeError]. *)
Definition decoded {A} (m : res DecodeError A) : act A := λ a, (a, res_map_err Decode m).
(** [decode_from_cursor(cursor)?] on a cursor of the caller. *)
Definition from_cursor {A} (m : reader A) (c : ReadCursor) : act (A * ReadCursor) := decoded (m c).

(** ** Encoders *)

Definition send_io_indication (body : bytes) : bytes :=
  wrap_data (encode_indication
    {| sd_initiator := USER_CHANNEL_ID; sd_channel_id := IO_CHANNEL_ID; sd_data := body;
       sd_complete := true |}).

Definition data_pdu_bytes (t : ShareDataPduType) (body : bytes) : bytes :=
  DataPdu_encode {| d_share_id := SHARE_ID; d_pdu_source := IO_CHANNEL_ID;
                    stream_id := STREAM_UNDEFINED; pdu_type2 := t; d_body := body |}.
Definition server_synchronize_pdu : bytes :=
  data_pdu_bytes TSynchronize (SynchronizePdu_encode_body USER_CHANNEL_ID).
Definition server_cooperate_pdu : bytes :=
  data_pdu_bytes TControl
    (ControlPdu_encode_body {| action := COOPERATE; grant_id := 0; control_id := 0 |}).
Definition server_granted_control_pdu : bytes :=
  data_pdu_bytes TControl
    (ControlPdu_encode_body {| action := GRANTED_CONTROL; grant_id := USER_CHANNEL_ID;
                               control_id := USER_CHANNEL_ID |}).
Definition server_font_map_pdu : bytes :=
  data_pdu_bytes TFontMap (FontPdu_encode_body font_map_default).
Definition server_save_session_info_plain_notify : bytes :=
  data_pdu_bytes TSaveSessionInfo encode_save_session_info_plain_notify.

Definition server_capabilities (a : Acceptor) : ServerCapabilities :=
  {| general := {| extra_flags := FASTPATH_OUTPUT_SUPPORTED; refresh_rect_support := true;
                   suppress_output_support := true |};
     bitmap := {| preferred_bits_per_pixel := 32; Capability.desktop_width := a_width a;
                  Capability.desktop_height := a_height a; desktop_resize_flag := true |};
     pointer := {| color_pointer_cache_size := 2048; pointer_cache_size := 2048 |};
     input := {| input_flags := Z.lor (Z.lor (Z.lor SCANCODES FASTPATH_INPUT) FASTPATH_INPUT_2)
                                  INPUT_UNICODE;
                 Capability.keyboard_layout := 0; Capability.keyboard_type := 0;
                 Capability.keyboard_subtype := 0; Capability.keyboard_function_key := 0 |};
     virtual_channel := 0; multifragment_update := 8 * 1024 * 1024;
     bitmap_codecs := BitmapCodecsCapability_default |}.
Definition demand_active (a : Acceptor) : bytes :=
  DemandActive_encode {| da_share_id := SHARE_ID; da_pdu_source := IO_CHANNEL_ID;
                         da_capabilities := server_capabilities a |}.

(** ** The acceptor *)

Definition Acceptor_new (desktop_width desktop_height : Z) : Acceptor :=
  {| state := WaitConnectionRequest; a_width := desktop_width; a_height := desktop_height;
     static_channel_names := []; message_channel_id := None; a_client_name := [];
     client_requested := PROTOCOL_SSL; selected_protocol := PROTOCOL_SSL; require_nla := false;
     confirm_active_buf := []; nscodec := None; max_request_size := None |}.
Definition with_require_nla (r : bool) (a : Acceptor) : Acceptor :=
  Build_Acceptor (state a) (a_width a) (a_height a) (static_channel_names a)
    (message_channel_id a) (a_client_name a) (client_requested a) (selected_protocol a) r
    (confirm_active_buf a) (nscodec a) (max_request_size a).
Definition requires_credssp (a : Acceptor) : bool :=
  protocol_contains (selected_protocol a) PROTOCOL_HYBRID.
Definition is_finished (a : Acceptor) : bool :=
  match state a with Accepted | Rejected => true | _ => false end.

Definition approve_client_info : act bytes :=
  a ← get;
  match state a with
  | WaitAuthApproval =>
    modify (set_state WaitConfirmActive) ;;
    mret (send_io_indication (demand_active a))
  | _ => throw NotReady
  end.

Definition reject_client_info (a : Acceptor) : Acceptor :=
  match state a with WaitAuthApproval => set_state Rejected a | _ => a end.

Definition begin_resize (w h : Z) : act bytes :=
  a ← get;
  match state a with
  | Accepted =>
    modify (set_size w h) ;;
    a ← get;
    let r := send_io_indication (DeactivateAllPdu_encode SHARE_ID IO_CHANNEL_ID)
             ++ send_io_indication (demand_active a) in
    modify (λ a, set_state WaitConfirmActive (set_buf [] a)) ;;
    mret r
  | _ => throw NotReady
  end.

Definition on_connection_request (input : bytes) : act StepResult :=
  request ← decoded (ConnectionRequest_decode input);
  a ← get;
  let selected :=
    if protocol_contains (cr_protocol request) PROTOCOL_HYBRID then Some PROTOCOL_HYBRID
    else if negb (require_nla a) && protocol_contains (cr_protocol request) PROTOCOL_SSL
    then Some PROTOCOL_SSL else None in
  match selected with
  | None =>
    modify (set_state Rejected) ;;
    let code := if require_nla a then HYBRID_REQUIRED_BY_SERVER else SSL_REQUIRED_BY_SERVER in
    mret (with_event (ConnectionConfirm_encode (ConfirmFailure code)) EvRejected)
  | Some selected =>
    modify (λ a, set_state WaitConnectInitial (set_protocol (cr_protocol request) selected a)) ;;
    mret (with_event (ConnectionConfirm_encode (ConfirmResponse 0 selected)) EvTlsUpgrade)
  end.

Definition on_connect_initial (input : bytes) : act StepResult :=
  payload ← decoded (unwrap_data input);
  connect_initial ← decoded (ConnectInitial_decode payload);
  request ← decoded (ConferenceCreateRequest_decode (ci_user_data connect_initial));
  client_blocks ← decoded (ClientGccBlocks_decode request);
  let names := match network client_blocks with Some n => name <$> n | None => [] end in
  let ids := (λ i : nat, as_u16 (IO_CHANNEL_ID + 1 + Z.of_nat i)) <$> seq 0 (length names) in
  let message := (λ _, as_u16 (IO_CHANNEL_ID + 1 + len names)) <$> message_channel client_blocks in
  modify (set_client (client_name (core client_blocks)) names message) ;;
  a ← get;
  let server_blocks :=
    {| s_core := {| server_version := 0x00080004;
                    client_requested_protocols := Some (client_requested a);
                    server_early_capability_flags := None |};
       s_network := {| io_channel_id := IO_CHANNEL_ID; channel_ids := ids |};
       s_message_channel := message |} in
  let conference :=
    {| node_id := USER_CHANNEL_ID; server_gcc_blocks := ServerGccBlocks_encode server_blocks |} in
  let connect_response :=
    {| called_connect_id := 0; domain_parameters := DomainParameters_target;
       cresp_user_data := ConferenceCreateResponse_encode conference |} in
  modify (set_state WaitErectDomainRequest) ;;
  mret (just (wrap_data (ConnectResponse_encode connect_response))).

Definition handle_erect_domain_request (c : ReadCursor) : act (StepResult * ReadCursor) :=
  '(_, c) ← from_cursor ErectDomainRequest_decode_from_cursor c;
  modify (set_state WaitAttachUserRequest) ;;
  mret (just [], c).

Definition handle_attach_user_request (c : ReadCursor) : act (StepResult * ReadCursor) :=
  '(_, c) ← from_cursor AttachUserRequest_decode_from_cursor c;
  a ← get;
  let remaining := 2 + len (static_channel_names a)
                   + match message_channel_id a with Some _ => 1 | None => 0 end in
  modify (set_state (WaitChannelJoinRequest remaining)) ;;
  mret (just (wrap_data (AttachUserConfirm_encode
                {| auc_result := 0; auc_initiator := USER_CHANNEL_ID |})), c).

Definition handle_channel_join_request (c : ReadCursor) (remaining : Z)
  : act (StepResult * ReadCursor) :=
  '(request, c) ← from_cursor ChannelJoinRequest_decode_from_cursor c;
  let confirm :=
    {| cjc_result := 0; cjc_initiator := cjr_initiator request;
       cjc_requested_channel_id := cjr_channel_id request;
       cjc_channel_id := cjr_channel_id request |} in
  let remaining := saturating_sub remaining 1 in
  modify (set_state (if remaining =? 0 then WaitClientInfo else WaitChannelJoinRequest remaining)) ;;
  mret (just (wrap_data (ChannelJoinConfirm_encode confirm)), c).

Definition peek_domain_pdu (c : ReadCursor) : res DecodeError (option DomainMcsPdu) :=
  if remaining c =? 0 then Ok None
  else match peek_slice 1 c with
       | Ok (b, _) => byte ← index b 0; Ok (DomainMcsPdu_from_u8 (Z.shiftr byte 2))
       | Err _ => Ok None
       | Panic => Panic
       end.

(** The [match] on [mem::replace(&mut self.state, State::Rejected)]: a handler runs,
    and fails, in state [Rejected]. *)
Definition domain_pdu (c : ReadCursor) : act (StepResult * ReadCursor) :=
  a ← get;
  modify (set_state Rejected) ;;
  match state a with
  | WaitErectDomainRequest => handle_erect_domain_request c
  | WaitAttachUserRequest => handle_attach_user_request c
  | WaitChannelJoinRequest remaining => handle_channel_join_request c remaining
  | other => modify (set_state other) ;; throw NotReady
  end.

(** The [while] loop; [fuel] bounds its turns by the bytes left, and running out
    of it would be a [Panic]. *)
Fixpoint domain_loop (fuel : nat) (c : ReadCursor) (out : bytes) : act StepResult :=
  if 0 <? remaining c then
    match fuel with
    | O => panic
    | S fuel =>
      pdu ← decoded (peek_domain_pdu c);
      if decide (pdu = Some PduDisconnectProviderUltimatum) then
        modify (set_state Rejected) ;;
        throw (Decode (InvalidValue "mcs.domain_pdu" "client disconnected during MCS domain setup"))
      else
        '(result, c) ← domain_pdu c;
        let out := out ++ response result in
        match event result with
        | EvNone =>
          a ← get;
          match state a with
          | WaitClientInfo => mret (with_event out EvNone)
          | _ => domain_loop fuel c out
          end
        | ev => mret (with_event out ev)
        end
    end
  else mret (with_event out EvNone).

Definition step_mcs_domain_pdus (input : bytes) : act StepResult :=
  payload ← decoded (unwrap_data input);
  domain_loop (length payload) (cursor_new payload) [].

Definition on_client_info (input : bytes) : act StepResult :=
  payload ← decoded (unwrap_data input);
  send_data ← decoded (decode_request payload);
  client_info ← decoded (ClientInfoPdu_decode (sd_data send_data));
  let credentials :=
    {| cr_domain := domain client_info; cr_username := username client_info;
       cr_password := password client_info |} in
  modify (set_state WaitAuthApproval) ;;
  mret (with_event (send_io_indication encode_valid_client) (EvClientInfoReceived credentials)).

Definition try_decode_confirm_active (data : bytes) : res DecodeError ConfirmActive :=
  match ConfirmActive_decode data with
  | Ok c => Ok c
  | Panic => Panic
  | Err first =>
    if 14 <=? len data then
      match slice data 4 (len data) ≫= ConfirmActive_decode with
      | Ok c => Ok c
      | Err _ => Err first
      | Panic => Panic
      end
    else Err first
  end.

(** [if let Ok((header, _)) = ShareControlHeader::decode(..) && header.pdu_type != t] *)
Definition other_pdu_type (data : bytes) (t : ShareControlPduType) : res DecodeError bool :=
  match run ShareControlHeader_decode data with
  | Ok (header, _) => Ok (bool_decide (pdu_type header ≠ t))
  | Err _ => Ok false
  | Panic => Panic
  end.

Definition on_confirm_active_send_data (d : SendData) : act StepResult :=
  if negb (sd_channel_id d =? IO_CHANNEL_ID) then
    modify (set_state WaitConfirmActive) ;; mret (just [])
  else
    other ← decoded (other_pdu_type (sd_data d) PduConfirmActive);
    if (other : bool) then modify (set_state WaitConfirmActive) ;; mret (just [])
    else
      a ← get;
      if MAX_CONFIRM_ACTIVE_LEN <? saturating_add_usize (len (confirm_active_buf a)) (len (sd_data d))
      then
        modify (set_buf []) ;;
        throw (Decode (InvalidValue "confirm_active.reassembly"
                         "exceeded maximum allowed reassembled size"))
      else
        modify (set_buf (confirm_active_buf a ++ sd_data d)) ;;
        if negb (sd_complete d) then
          modify (set_state WaitConfirmActive) ;; mret (just [])
        else
          let data := confirm_active_buf a ++ sd_data d in
          modify (set_buf []) ;;
          confirm ← decoded (try_decode_confirm_active data);
          nscodec ← decoded (parse_client_nscodec (capabilities confirm) 3);
          max_request_size ← decoded (parse_client_max_request_size (capabilities confirm));
          modify (set_caps nscodec max_request_size) ;;
          let r := send_io_indication server_synchronize_pdu
                   ++ send_io_indication server_cooperate_pdu in
          modify (set_state (WaitFinalization false)) ;;
          mret (just r).

Definition accepted_connection (a : Acceptor) : AcceptedConnection :=
  {| ac_io_channel_id := IO_CHANNEL_ID; ac_user_channel_id := USER_CHANNEL_ID;
     static_channels :=
       imap (λ i name, (name, as_u16 (IO_CHANNEL_ID + 1 + Z.of_nat i))) (static_channel_names a);
     ac_share_id := SHARE_ID; ac_desktop_width := a_width a; ac_desktop_height := a_height a;
     ac_client_name := a_client_name a; ac_nscodec := nscodec a;
     ac_max_request_size := max_request_size a |}.

Definition on_finalization_send_data (d : SendData) (granted_control_sent : bool) : act StepResult :=
  let ignore := modify (set_state (WaitFinalization granted_control_sent)) ;; mret (just []) in
  if negb (sd_channel_id d =? IO_CHANNEL_ID) then ignore
  else
    other ← decoded (other_pdu_type (sd_data d) PduData);
    if (other : bool) then ignore
    else
      data_pdu ← decoded (ok (DataPdu_decode (sd_data d)));
      match data_pdu with
      | None => ignore
      | Some p =>
        match pdu_type2 p with
        | TControl =>
          control ← decoded (ok (ControlPdu_decode_body (d_body p)));
          let grant :=
            match control with
            | Some control => (action control =? REQUEST_CONTROL) && negb granted_control_sent
            | None => false
            end in
          modify (set_state (WaitFinalization (granted_control_sent || grant))) ;;
          mret (just (if grant then send_io_indication server_granted_control_pdu else []))
        | TFontList =>
          a ← get;
          modify (set_state Accepted) ;;
          mret (with_event
                  (send_io_indication server_font_map_pdu
                   ++ send_io_indication server_save_session_info_plain_notify)
                  (EvAccepted (accepted_connection a)))
        | _ => ignore
        end
      end.

(** The [while] loop of [step_reactivation]. *)
Fixpoint reactivation_loop (fuel : nat) (c : ReadCursor) (out : bytes) : act StepResult :=
  if 0 <? remaining c then
    match fuel with
    | O => panic
    | S fuel =>
      a ← get;
      match state a with
      | Accepted | Rejected => mret (with_event out EvNone)
      | _ =>
        '(send_data, c) ← from_cursor decode_request_from_cursor c;
        a ← get;
        step ← match state a with
               | WaitConfirmActive => Some <$> on_confirm_active_send_data send_data
               | WaitFinalization g => Some <$> on_finalization_send_data send_data g
               | Accepted | Rejected => mret None
               | _ => throw NotReady
               end;
        match step with
        | None => mret (with_event out EvNone)
        | Some step =>
          let out := out ++ response step in
          match event step with
          | EvAccepted x => mret (with_event out (EvAccepted x))
          | _ => reactivation_loop fuel c out
          end
        end
      end
    end
  else mret (with_event out EvNone).

Definition step_reactivation (input : bytes) : act StepResult :=
  payload ← decoded (unwrap_data input);
  reactivation_loop (length payload) (cursor_new payload) [].

(** [mem::replace] with [Rejected], the handler, and the restoration of the phase
    when it failed in [Rejected]. *)
Definition restoring (m : act StepResult) : act StepResult := λ a,
  match m (set_state Rejected a) with
  | (a', Err e) =>
    (match state a' with Rejected => set_state (state a) a' | _ => a' end, Err e)
  | r => r
  end.

Definition step (input : bytes) : act StepResult :=
  a ← get;
  match state a with
  | WaitErectDomainRequest | WaitAttachUserRequest | WaitChannelJoinRequest _ =>
    step_mcs_domain_pdus input
  | Accepted | Rejected => throw AlreadyFinished
  | WaitConfirmActive | WaitFinalization _ => step_reactivation input
  | WaitConnectionRequest => restoring (on_connection_request input)
  | WaitConnectInitial => restoring (on_connect_initial input)
  | WaitClientInfo => restoring (on_client_info input)
  | WaitAuthApproval => restoring (throw NotReady)
  end.

Definition handshake_phase (a : Acceptor) : string :=
  match state a with
  | WaitConnectionRequest => "connection-request"
  | WaitConnectInitial => "connect-initial"
  | WaitErectDomainRequest => "erect-domain"
  | WaitAttachUserRequest => "attach-user"
  | WaitChannelJoinRequest _ => "channel-join"
  | WaitClientInfo => "client-info"
  | WaitAuthApproval => "auth-approval"
  | WaitConfirmActive => "confirm-active"
  | WaitFinalization _ => "finalization"
  | Accepted => "accepted"
  | Rejected => "rejected"
  end.
