(* ===== verification/ConnectorSafety.v ===== *)
(** What the acceptor guarantees whatever the client sends: a program logic for its
    state-and-error monad, the invariants of its state, and that every call keeps them. *)
From S2P Require Import Prelude Cursor Utf Framing Ber Per Mcs.
From S2P Require Import Headers ClientInfo Gcc Capability Finalization Connector.

(** ** A program logic for [act] *)

(** From [a], [m] does not panic; its result satisfies [Q] and, if it fails, the
    state it leaves satisfies [E]. *)
Definition wp {A} (m : act A) (Q : A → Acceptor → Prop) (E : Acceptor → Prop) (a : Acceptor) : Prop :=
  match m a with
  | (a', Ok x) => Q x a'
  | (a', Err _) => E a'
  | (_, Panic) => False
  end.

Section wp.
Context {A B : Type}.
Implicit Types (E : Acceptor → Prop) (a : Acceptor).

Lemma wp_bind (m : act A) (k : A → act B) Q E a :
  wp m (λ x a', wp (k x) Q E a') E a → wp (m ≫= k) Q E a.
Proof. unfold wp, mbind, act_bind. destruct (m a) as [a' [x|e|]]; auto. Qed.
Lemma wp_fmap (f : A → B) (m : act A) Q E a :
  wp m (λ x a', Q (f x) a') E a → wp (f <$> m) Q E a.
Proof. unfold wp, fmap, act_fmap. destruct (m a) as [a' [x|e|]]; auto. Qed.
Lemma wp_ret (x : A) (Q : A → Acceptor → Prop) E a : Q x a → wp (mret x) Q E a.
Proof. done. Qed.
Lemma wp_get (Q : Acceptor → Acceptor → Prop) E a : Q a a → wp get Q E a.
Proof. done. Qed.
Lemma wp_modify f (Q : unit → Acceptor → Prop) E a : Q tt (f a) → wp (modify f) Q E a.
Proof. done. Qed.
Lemma wp_throw e (Q : A → Acceptor → Prop) E a : E a → wp (throw e) Q E a.
Proof. done. Qed.
Lemma wp_decoded (m : res DecodeError A) (P : A → Prop) (Q : A → Acceptor → Prop) E a :
  match m with Ok x => P x | Err _ => True | Panic => False end →
  (∀ x, P x → Q x a) → E a → wp (decoded m) Q E a.
Proof. unfold wp, decoded. destruct m; cbn; auto. Qed.
Lemma wp_weaken (m : act A) (Q Q' : A → Acceptor → Prop) E E' a :
  wp m Q E a → (∀ x a', Q x a' → Q' x a') → (∀ a', E a' → E' a') → wp m Q' E' a.
Proof. unfold wp. destruct (m a) as [a' [x|e|]]; auto. Qed.
Lemma wp_from_cursor (m : reader A) (P : A → Prop) (Q : A * ReadCursor → Acceptor → Prop) E c a :
  safe m P → eats 1 m → cursor_ok c → bytes_ok (buf c) →
  (∀ x c', P x → cursor_ok c' → buf c' = buf c → remaining c' < remaining c → Q (x, c') a) →
  E a → wp (from_cursor m c) Q E a.
Proof.
  intros Hm He Hc Hb HQ HE. specialize (Hm c Hc Hb). specialize (He c Hc Hb).
  unfold wp, from_cursor, decoded. destruct (m c) as [[x c']| |]; cbn; [|done|done].
  destruct Hm as (Hc' & Hb' & _ & Hx). apply HQ; [done|done|done|].
  unfold remaining. rewrite Hb'. lia.
Qed.
End wp.

(** ** Invariants *)

(** Credentials have been approved. *)
Definition post_auth (a : Acceptor) : Prop :=
  match state a with WaitConfirmActive | WaitFinalization _ | Accepted => True | _ => False end.

Definition negotiated (a : Acceptor) : Prop :=
  match state a with WaitConnectionRequest | Rejected => False | _ => True end.

(** A connection that needs NLA negotiated it, and the protocol is one the client
    offered. *)
Definition protocol_ok (a : Acceptor) : Prop :=
  (require_nla a = true → requires_credssp a = true)
  ∧ protocol_contains (client_requested a) (selected_protocol a) = true.

(** What a client can make the server remember: a bounded reassembly buffer, at most
    31 channel names, and codec parameters in range. *)
Definition stored_ok (a : Acceptor) : Prop :=
  bytes_ok (confirm_active_buf a) ∧ len (confirm_active_buf a) ≤ MAX_CONFIRM_ACTIVE_LEN
  ∧ len (static_channel_names a) ≤ CHANNELS_MAX
  ∧ match nscodec a with
    | Some c => u8_ok (codec_id c) ∧ 1 ≤ color_loss_level c ≤ 7 | None => True end
  ∧ match max_request_size a with Some n => 0 < n < 2 ^ 32 | None => True end.

Definition acceptor_ok (a : Acceptor) : Prop := stored_ok a ∧ (negotiated a → protocol_ok a).

(** What the calls after Connect Initial leave as it was. *)
Definition same_client (a a' : Acceptor) : Prop :=
  a_width a' = a_width a ∧ a_height a' = a_height a
  ∧ static_channel_names a' = static_channel_names a ∧ a_client_name a' = a_client_name a
  ∧ client_requested a' = client_requested a ∧ selected_protocol a' = selected_protocol a
  ∧ require_nla a' = require_nla a.

Lemma same_client_refl a : same_client a a.
Proof. done. Qed.
Lemma same_client_protocol a a' : same_client a a' → protocol_ok a → protocol_ok a'.
Proof.
  unfold same_client, protocol_ok, requires_credssp. intros (_ & _ & _ & _ & -> & -> & ->). done.
Qed.

Lemma unwrap_data_spec input :
  bytes_ok input → len input < 2 ^ 63 →
  match unwrap_data input with
  | Ok p => bytes_ok p ∧ len p < 2 ^ 63 | Err _ => True | Panic => False end.
Proof.
  intros Hb Hl. apply (safe_run _ (λ p, bytes_ok p ∧ len p < 2 ^ 63)); [|done|done].
  unfold unwrap_data. eapply safe_bind; [apply decode_x224_header_safe|]. intros ? _.
  apply read_rest_safe.
Qed.

Lemma ConnectInitial_decode_spec input :
  bytes_ok input → len input < 2 ^ 63 →
  match ConnectInitial_decode input with
  | Ok p => bytes_ok (ci_user_data p) ∧ len (ci_user_data p) < 2 ^ 63
  | Err _ => True | Panic => False end.
Proof.
  intros Hb Hl. apply (safe_run _ (λ p, bytes_ok (ci_user_data p) ∧ len (ci_user_data p) < 2 ^ 63)); [|done..].
  eapply safe_bind; [apply read_application_tag_safe|]. intros ? _.
  do 2 (eapply safe_bind; [apply ber_read_octet_string_safe|]; intros ? _).
  eapply safe_bind; [apply read_boolean_safe|]. intros ? _.
  do 3 (eapply safe_bind; [apply DomainParameters_decode_safe|]; intros ? _).
  eapply safe_bind; [apply ber_read_octet_string_safe|]. intros u [Hu Hlu]. apply safe_ret.
  cbn [ci_user_data]. split; [done|lia].
Qed.

Lemma conference_request_spec input :
  bytes_ok input → len input < 2 ^ 63 →
  match ConferenceCreateRequest_decode input with
  | Ok p => bytes_ok p ∧ len p < 2 ^ 63 | Err _ => True | Panic => False end.
Proof.
  intros Hb Hl. eapply safe_run; [|done..]. eapply safe_weaken; [apply ConferenceCreateRequest_safe|].
  intros p [? ?]. split; [done|lia].
Qed.

Lemma decode_request_safe :
  safe decode_request_from_cursor (λ d, bytes_ok (sd_data d) ∧ len (sd_data d) < 2 ^ 15).
Proof. eapply safe_weaken; [apply SendData_decode_safe|]. intros d (_ & _ & Hd). exact Hd. Qed.

Lemma read_choice_byte_eats e : eats 1 (read_choice_byte e).
Proof.
  eapply eats_bind; [apply read_u8_safe|apply read_u8_eats|]. intros b Hb.
  eapply (safe_bind _ _ _ (λ _, True)); [apply reject_if_safe|]. intros. by apply safe_ret.
Qed.
Lemma ErectDomainRequest_eats : eats 1 ErectDomainRequest_decode_from_cursor.
Proof.
  eapply (eats_bind _ _ _ _ (λ _, True)); [apply read_choice_byte_safe|apply read_choice_byte_eats|].
  intros o Ho. safe_steps. done.
Qed.
Lemma AttachUserRequest_eats : eats 1 AttachUserRequest_decode_from_cursor.
Proof.
  eapply (eats_bind _ _ _ _ (λ _, True)); [apply read_choice_byte_safe|apply read_choice_byte_eats|].
  intros o Ho. apply skip_optional_non_standard_safe.
Qed.
Lemma ChannelJoinRequest_eats : eats 1 ChannelJoinRequest_decode_from_cursor.
Proof.
  eapply (eats_bind _ _ _ _ (λ _, True)); [apply read_choice_byte_safe|apply read_choice_byte_eats|].
  intros o Ho. safe_steps. done.
Qed.
Lemma decode_request_eats : eats 1 decode_request_from_cursor.
Proof.
  eapply (eats_bind _ _ _ _ (λ _, True)); [apply read_choice_byte_safe|apply read_choice_byte_eats|].
  intros o Ho. safe_steps. done.
Qed.

(** ** The MCS domain phase *)

Definition domain_state (a : Acceptor) : Prop :=
  match state a with
  | WaitErectDomainRequest | WaitAttachUserRequest | WaitChannelJoinRequest _ | WaitClientInfo
  | Rejected => True
  | _ => False
  end.
Definition domain_inv (a0 a : Acceptor) : Prop :=
  domain_state a ∧ stored_ok a ∧ same_client a0 a.

Lemma domain_pdu_wp a0 c a :
  domain_inv a0 a → cursor_ok c → bytes_ok (buf c) →
  wp (domain_pdu c)
    (λ x a', domain_inv a0 a' ∧ event x.1 = EvNone ∧ cursor_ok x.2 ∧ buf x.2 = buf c
             ∧ remaining x.2 < remaining c)
    (domain_inv a0) a.
Proof.
  intros (Hs & Hm & Hn) Hc Hb. unfold domain_pdu. apply wp_bind, wp_get, wp_bind, wp_modify.
  assert (∀ s, domain_state (set_state s a) → domain_inv a0 (set_state s a)) as Hset
    by (intros s H; exact (conj H (conj Hm Hn))).
  assert (∀ s s', domain_state (set_state s a) → domain_inv a0 (set_state s (set_state s' a))) as Hset2
    by (intros s s' H; exact (conj H (conj Hm Hn))).
  destruct (state a) eqn:Es; try (apply wp_bind, wp_modify, wp_throw; apply Hset2; unfold domain_state in *; rewrite Es in Hs; by cbn).
  - apply wp_bind. eapply wp_from_cursor; [apply ErectDomainRequest_decode_safe|apply ErectDomainRequest_eats
      |done|done| |by apply Hset].
    intros x c' _ Hc' Hb' Hlt. apply wp_bind, wp_modify, wp_ret.
    split_and!; first [done|by apply Hset2].
  - apply wp_bind. eapply wp_from_cursor; [apply AttachUserRequest_decode_safe|apply AttachUserRequest_eats
      |done|done| |by apply Hset].
    intros x c' _ Hc' Hb' Hlt. apply wp_bind, wp_get, wp_bind, wp_modify, wp_ret.
    split_and!; first [done|by apply Hset2].
  - apply wp_bind. eapply wp_from_cursor; [apply ChannelJoinRequest_decode_safe|apply ChannelJoinRequest_eats
      |done|done| |by apply Hset].
    intros x c' _ Hc' Hb' Hlt. apply wp_bind, wp_modify, wp_ret.
    split_and!; try done. apply Hset2. unfold domain_state; cbn. by destruct (_ =? _).
Qed.

Lemma peek_domain_pdu_no_panic c :
  cursor_ok c → bytes_ok (buf c) → no_panic (peek_domain_pdu c).
Proof.
  intros Hc Hb. unfold peek_domain_pdu. destruct (_ =? 0); [done|].
  pose proof (peek_slice_safe 1 ltac:(lia) c Hc Hb) as H.
  destruct (peek_slice 1 c) as [[b c']| |]; [|done..]. destruct H as (_ & _ & _ & Hl & _).
  destruct (index_in b 0 ltac:(lia)) as (x & -> & _). done.
Qed.

Lemma domain_loop_wp a0 fuel c out a :
  domain_inv a0 a → cursor_ok c → bytes_ok (buf c) → remaining c ≤ Z.of_nat fuel →
  wp (domain_loop fuel c out) (λ x a', domain_inv a0 a' ∧ event x = EvNone) (domain_inv a0) a.
Proof.
  revert c out a. induction fuel as [|fuel IH]; intros c out a Hi Hc Hb Hf; cbn [domain_loop];
    (destruct (Z.ltb_spec 0 (remaining c)); [|by apply wp_ret]); [lia|].
  apply wp_bind. apply (wp_decoded _ (λ _, True)); [|intros pdu _|done].
  { pose proof (peek_domain_pdu_no_panic c Hc Hb). by destruct (peek_domain_pdu c). }
  destruct (decide _).
  { apply wp_bind, wp_modify, wp_throw. destruct Hi as (_ & Hi). exact (conj I Hi). }
  apply wp_bind. eapply wp_weaken; [by apply domain_pdu_wp| |done].
  intros [x c'] a' (Hi' & Ev & Hc' & Hb' & Hlt); cbn [fst snd] in *. cbn beta iota zeta.
  rewrite Ev. apply wp_bind, wp_get.
  assert (wp (domain_loop fuel c' (out ++ response x)) (λ x a', domain_inv a0 a' ∧ event x = EvNone)
    (domain_inv a0) a') as Hrec by (apply IH; [done|done|by rewrite Hb'|lia]).
  destruct (state a'); done.
Qed.

Lemma step_mcs_domain_pdus_wp a0 input a :
  domain_inv a0 a → bytes_ok input → len input < 2 ^ 63 →
  wp (step_mcs_domain_pdus input) (λ x a', domain_inv a0 a' ∧ event x = EvNone) (domain_inv a0) a.
Proof.
  intros Ha Hb Hl. unfold step_mcs_domain_pdus. apply wp_bind.
  eapply wp_decoded; [by apply unwrap_data_spec| |done]. intros p [Hp Hlp].
  apply domain_loop_wp; [done|by apply cursor_new_ok|done|].
  unfold remaining, cursor_new, len; cbn. lia.
Qed.

(** ** Reactivation *)

Definition react_inv (a0 a : Acceptor) : Prop :=
  post_auth a ∧ stored_ok a ∧ same_client a0 a.

Lemma react_inv_set a0 a s :
  stored_ok a → same_client a0 a → post_auth (set_state s a) → react_inv a0 (set_state s a).
Proof. intros H1 H2 H3. exact (conj H3 (conj H1 H2)). Qed.

Lemma other_pdu_type_no_panic data t :
  bytes_ok data → len data < 2 ^ 63 → no_panic (other_pdu_type data t).
Proof.
  intros Hb Hl. unfold other_pdu_type.
  pose proof (safe_run _ _ _ ShareControlHeader_safe Hb Hl) as H.
  by destruct (run _ data) as [[]| |].
Qed.

Lemma no_panic_True {A} (m : res DecodeError A) :
  no_panic m → match m with Ok _ => True | Err _ => True | Panic => False end.
Proof. by destruct m. Qed.

Lemma try_decode_confirm_active_spec data :
  bytes_ok data → len data < 2 ^ 63 →
  match try_decode_confirm_active data with
  | Ok c => Forall set_ok (capabilities c) | Err _ => True | Panic => False end.
Proof.
  intros Hb Hl. unfold try_decode_confirm_active.
  pose proof (ConfirmActive_decode_spec data Hb Hl) as H.
  destruct (ConfirmActive_decode data) as [c|e|]; [done| |done].
  destruct (Z.leb_spec 14 (len data)); [|done]. rewrite slice_from by lia. cbn.
  pose proof (ConfirmActive_decode_spec (zdrop 4 data)) as H2.
  destruct (ConfirmActive_decode (zdrop 4 data)); try done; apply H2.
  all: try (rewrite len_zdrop by lia; lia). all: by apply Forall_drop.
Qed.

Lemma stored_ok_buf b a :
  stored_ok a → bytes_ok b → len b ≤ MAX_CONFIRM_ACTIVE_LEN → stored_ok (set_buf b a).
Proof. intros (_ & _ & H) ? ?. exact (conj H0 (conj H1 H)). Qed.
Lemma stored_ok_caps n m a :
  stored_ok a →
  match n with Some c => u8_ok (codec_id c) ∧ 1 ≤ color_loss_level c ≤ 7 | None => True end →
  match m with Some v => 0 < v < 2 ^ 32 | None => True end →
  stored_ok (set_caps n m a).
Proof. intros (H1 & H2 & H3 & _) ? ?. exact (conj H1 (conj H2 (conj H3 (conj H H0)))). Qed.

Lemma react_inv_buf a0 a b :
  react_inv a0 a → bytes_ok b → len b ≤ MAX_CONFIRM_ACTIVE_LEN → react_inv a0 (set_buf b a).
Proof. intros (Hp & Hs & Hc) ? ?. exact (conj Hp (conj (stored_ok_buf _ _ Hs H H0) Hc)). Qed.
Lemma react_inv_next a0 a s :
  react_inv a0 a → post_auth (set_state s a) → react_inv a0 (set_state s a).
Proof. intros (_ & Hs & Hc) ?. by apply react_inv_set. Qed.

Definition data_ok (d : SendData) : Prop := bytes_ok (sd_data d) ∧ len (sd_data d) < 2 ^ 15.

Lemma on_confirm_active_wp a0 d a :
  react_inv a0 a → data_ok d →
  wp (on_confirm_active_send_data d) (λ x a', react_inv a0 a' ∧ event x = EvNone) (react_inv a0) a.
Proof.
  intros Ha [Hb Hl]. unfold on_confirm_active_send_data.
  assert (wp (modify (set_state WaitConfirmActive) ;; mret (just []))
    (λ x a', react_inv a0 a' ∧ event x = EvNone) (react_inv a0) a) as Hskip
    by (apply wp_bind, wp_modify, wp_ret; split; [by apply react_inv_next|done]).
  destruct (negb _); [exact Hskip|]. apply wp_bind.
  eapply (wp_decoded _ (λ _, True)); [by apply no_panic_True, other_pdu_type_no_panic; [|lia]| |done].
  intros other _. destruct other; [exact Hskip|]. apply wp_bind, wp_get.
  destruct (Z.ltb_spec MAX_CONFIRM_ACTIVE_LEN (saturating_add_usize (len (confirm_active_buf a)) (len (sd_data d)))) as [|Hmax].
  { apply wp_bind, wp_modify, wp_throw. apply react_inv_buf; [done|constructor|by vm_compute]. }
  assert (bytes_ok (confirm_active_buf a ++ sd_data d) ∧
    len (confirm_active_buf a ++ sd_data d) ≤ MAX_CONFIRM_ACTIVE_LEN) as [Hbb Hbl].
  { destruct Ha as (_ & (Hba & Hla & _) & _). split; [by apply bytes_ok_app|].
    rewrite len_app. unfold saturating_add_usize, USIZE_MAX, MAX_CONFIRM_ACTIVE_LEN in *. lia. }
  apply wp_bind, wp_modify. destruct (negb _).
  { apply wp_bind, wp_modify, wp_ret. split; [|done]. by apply react_inv_next; [apply react_inv_buf|]. }
  assert (∀ b, react_inv a0 (set_buf [] (set_buf b a))) as Hcl.
  { intros b. change (set_buf [] (set_buf b a)) with (set_buf [] a).
    apply react_inv_buf; [done|constructor|by vm_compute]. }
  apply wp_bind, wp_modify, wp_bind.
  assert (len (confirm_active_buf a ++ sd_data d) < 2 ^ 63) as Hll
    by (unfold MAX_CONFIRM_ACTIVE_LEN in Hbl; lia).
  eapply wp_decoded; [by apply try_decode_confirm_active_spec| |by apply Hcl]. intros confirm Hcaps.
  destruct (parse_client_nscodec_safe (capabilities confirm) 3 ltac:(lia) Hcaps) as (n & En & Hn).
  destruct (parse_client_max_request_size_safe _ Hcaps) as (m & Em & Hm).
  rewrite En, Em. apply wp_bind, wp_ret, wp_bind, wp_ret, wp_bind, wp_modify, wp_bind, wp_modify, wp_ret.
  split; [|done]. apply react_inv_next; [|done]. destruct (Hcl (confirm_active_buf a ++ sd_data d)) as (H1 & H2 & H3).
  exact (conj H1 (conj (stored_ok_caps _ _ _ H2 Hn Hm) H3)).
Qed.

(** What the events of a reactivation step say. *)
Definition accepts (a : Acceptor) (e : AcceptorEvent) : Prop :=
  e = EvNone ∨ (state a = Accepted ∧ e = EvAccepted (accepted_connection a)).

Lemma ok_spec {A} (m : res DecodeError A) (P : A → Prop) :
  match m with Ok x => P x | Err _ => True | Panic => False end →
  match ok m with Ok (Some x) => P x | Ok None => True | Err _ => True | Panic => False end.
Proof. by destruct m. Qed.

Lemma on_finalization_wp a0 d g a :
  react_inv a0 a → data_ok d →
  wp (on_finalization_send_data d g) (λ x a', react_inv a0 a' ∧ accepts a' (event x)) (react_inv a0) a.
Proof.
  intros Ha [Hb Hl]. unfold on_finalization_send_data.
  assert (wp (modify (set_state (WaitFinalization g)) ;; mret (just []))
    (λ x a', react_inv a0 a' ∧ accepts a' (event x)) (react_inv a0) a) as Hskip
    by (apply wp_bind, wp_modify, wp_ret; split; [by apply react_inv_next|by left]).
  destruct (negb _); [exact Hskip|]. apply wp_bind.
  eapply (wp_decoded _ (λ _, True)); [by apply no_panic_True, other_pdu_type_no_panic; [|lia]| |done].
  intros other _. destruct other; [exact Hskip|]. apply wp_bind.
  eapply (wp_decoded _ (λ o, match o with Some p => bytes_ok (d_body p) ∧ len (d_body p) < 2 ^ 63 | None => True end));
    [| |done].
  { pose proof (DataPdu_decode_spec (sd_data d) Hb ltac:(lia)) as H. by destruct (DataPdu_decode _). }
  intros [p|] Hp; [|exact Hskip]. destruct Hp as [Hpb Hpl].
  destruct (pdu_type2 p); try exact Hskip.
  - apply wp_bind. eapply (wp_decoded _ (λ _, True)); [| |done].
    { pose proof (safe_run _ _ _ ControlPdu_safe Hpb Hpl) as H. unfold ControlPdu_decode_body.
      by destruct (run _ _). }
    intros control _. apply wp_bind, wp_modify, wp_ret. split; [by apply react_inv_next|by left].
  - apply wp_bind, wp_get, wp_bind, wp_modify, wp_ret. split; [by apply react_inv_next|by right].
Qed.

Lemma reactivation_loop_wp a0 fuel c out a :
  react_inv a0 a → cursor_ok c → bytes_ok (buf c) → remaining c ≤ Z.of_nat fuel →
  wp (reactivation_loop fuel c out) (λ x a', react_inv a0 a' ∧ accepts a' (event x)) (react_inv a0) a.
Proof.
  revert c out a. induction fuel as [|fuel IH]; intros c out a Ha Hc Hb Hf; cbn [reactivation_loop];
    (destruct (Z.ltb_spec 0 (remaining c)); [|by apply wp_ret; split; [|left]]); [lia|].
  apply wp_bind, wp_get. assert (∀ x, wp (mret (with_event out EvNone))
    (λ x a', react_inv a0 a' ∧ accepts a' (event x)) x a) as Hend by (intros; apply wp_ret; by split; [|left]).
  assert (wp ('(send_data, c) ← from_cursor decode_request_from_cursor c;
     a ← get;
     step ← match state a with
            | WaitConfirmActive => Some <$> on_confirm_active_send_data send_data
            | WaitFinalization g => Some <$> on_finalization_send_data send_data g
            | Accepted | Rejected => mret None
            | _ => throw NotReady
            end;
     match step with
     | None => mret (with_event out EvNone)
     | Some step =>
       let out := out ++ response step in
       match event step with
       | EvAccepted x => mret (with_event out (EvAccepted x))
       | _ => reactivation_loop fuel c out
       end
     end) (λ x a', react_inv a0 a' ∧ accepts a' (event x)) (react_inv a0) a) as Hbody.
  { apply wp_bind. eapply wp_from_cursor; [apply decode_request_safe|apply decode_request_eats|done|done| |done].
    intros d c' Hd Hc' Hb' Hlt. apply wp_bind, wp_get, wp_bind.
    assert (∀ x a', react_inv a0 a' ∧ accepts a' (event x) →
      wp (match event x with
          | EvAccepted y => mret (with_event (out ++ response x) (EvAccepted y))
          | _ => reactivation_loop fuel c' (out ++ response x)
          end) (λ x a', react_inv a0 a' ∧ accepts a' (event x)) (react_inv a0) a') as Hk.
    { intros x a' [Ha' [->|[Hs He]]]; [apply IH; rewrite ?Hb'; done || lia|].
      rewrite He. apply wp_ret. split; [done|by right]. }
    destruct (state a) eqn:Es; try (by destruct Ha as [Hp _]; unfold post_auth in Hp; rewrite Es in Hp).
    - apply wp_fmap. eapply wp_weaken; [by apply on_confirm_active_wp| |done].
      intros x a' [Ha' He]. apply Hk. split; [done|by left].
    - apply wp_fmap. eapply wp_weaken; [by apply on_finalization_wp| |done]. exact Hk.
    - apply wp_ret. by split; [|left]. }
  destruct (state a); try exact Hbody; apply Hend.
Qed.

Lemma step_reactivation_wp a0 input a :
  react_inv a0 a → bytes_ok input → len input < 2 ^ 63 →
  wp (step_reactivation input) (λ x a', react_inv a0 a' ∧ accepts a' (event x)) (react_inv a0) a.
Proof.
  intros Ha Hb Hl. unfold step_reactivation. apply wp_bind.
  eapply wp_decoded; [by apply unwrap_data_spec| |done]. intros p [Hp Hlp].
  apply reactivation_loop_wp; [done|by apply cursor_new_ok|done|].
  unfold remaining, cursor_new, len; cbn. lia.
Qed.

(** ** One step *)

(** What one [step] from [a] to [a'] guarantees; [e] is its event, [None] for an error. *)
Record step_post (a : Acceptor) (e : option AcceptorEvent) (a' : Acceptor) : Prop := {
  post_ok : acceptor_ok a';
  post_config : require_nla a' = require_nla a;
  post_post_auth : post_auth a' ↔ post_auth a;
  post_rejected : state a = Rejected → state a' = Rejected;
  post_approval : state a' = WaitAuthApproval ↔
    match e with Some (EvClientInfoReceived _) => True | _ => state a = WaitAuthApproval end;
  post_received : match e with Some (EvClientInfoReceived _) => state a = WaitClientInfo | _ => True end;
  post_accepted : match e with
    | Some (EvAccepted x) => post_auth a ∧ state a' = Accepted ∧ x = accepted_connection a'
    | _ => True end }.

Lemma step_post_refl a : acceptor_ok a → step_post a None a.
Proof. by split. Qed.

(** A handler that fails leaves the phase as it was. *)
Lemma restoring_wp (m : act StepResult) (Q : StepResult → Acceptor → Prop) (E : Acceptor → Prop) a :
  wp m Q (λ a', a' = set_state Rejected a) (set_state Rejected a) → E a → wp (restoring m) Q E a.
Proof.
  unfold wp, restoring. destruct (m (set_state Rejected a)) as [a' [x|e|]]; try done.
  intros -> HE. change (state (set_state Rejected a)) with Rejected. cbn iota beta.
  by destruct a.
Qed.

Lemma on_connection_request_wp input a :
  state a = WaitConnectionRequest → acceptor_ok a → bytes_ok input → len input < 2 ^ 63 →
  wp (restoring (on_connection_request input)) (λ x, step_post a (Some (event x))) (step_post a None) a.
Proof.
  intros Es [Ha _] Hb Hl. apply restoring_wp; [|by apply step_post_refl; split; [|unfold negotiated; rewrite Es]].
  assert (∀ s e p q, (negotiated (set_state s (set_protocol p q (set_state Rejected a))) →
      protocol_ok (set_state s (set_protocol p q (set_state Rejected a)))) →
    match s with WaitConnectInitial | Rejected => True | _ => False end →
    match e with EvRejected | EvTlsUpgrade => True | _ => False end →
    step_post a (Some e) (set_state s (set_protocol p q (set_state Rejected a)))) as Hpost.
  { intros s e p q Hp Hs He. split.
    - split; [exact Ha|exact Hp].
    - done.
    - unfold post_auth; rewrite Es. by destruct s.
    - by rewrite Es.
    - rewrite Es. destruct s; try done; by destruct e.
    - by destruct e.
    - by destruct e. }
  unfold on_connection_request. apply wp_bind.
  eapply (wp_decoded _ (λ _, True)); [by apply no_panic_True, ConnectionRequest_decode_no_panic| |done].
  intros request _. apply wp_bind, wp_get.
  destruct (protocol_contains (cr_protocol request) PROTOCOL_HYBRID) eqn:Eh; cbn beta iota zeta.
  - apply wp_bind, wp_modify, wp_ret. apply Hpost; [|done..]. intros _. split; [done|exact Eh].
  - destruct (require_nla (set_state Rejected a)) eqn:Er; cbn [negb andb].
    + apply wp_bind, wp_modify, wp_ret.
      by apply (Hpost Rejected EvRejected (client_requested a) (selected_protocol a)).
    + destruct (protocol_contains (cr_protocol request) PROTOCOL_SSL) eqn:E2.
      * apply wp_bind, wp_modify, wp_ret. apply Hpost; [|done..]. intros _. split; [|exact E2].
        change (require_nla a = false) in Er. cbn. congruence.
      * apply wp_bind, wp_modify, wp_ret.
        by apply (Hpost Rejected EvRejected (client_requested a) (selected_protocol a)).
Qed.

Lemma on_connect_initial_wp input a :
  state a = WaitConnectInitial → acceptor_ok a → bytes_ok input → len input < 2 ^ 63 →
  wp (restoring (on_connect_initial input)) (λ x, step_post a (Some (event x))) (step_post a None) a.
Proof.
  intros Es [Ha Hn] Hb Hl. apply restoring_wp; [|by apply step_post_refl; split].
  unfold on_connect_initial. apply wp_bind.
  eapply wp_decoded; [by apply unwrap_data_spec| |done]. intros p [Hp Hlp]. apply wp_bind.
  eapply wp_decoded; [by apply ConnectInitial_decode_spec| |done]. intros ci [Hu Hlu]. apply wp_bind.
  eapply wp_decoded; [by apply conference_request_spec| |done]. intros r [Hr Hlr]. apply wp_bind.
  eapply (wp_decoded _ (λ b, channels_bounded (network b))); [by apply ClientGccBlocks_decode_safe| |done].
  intros b Hch. cbn zeta. apply wp_bind, wp_modify, wp_bind, wp_get, wp_bind, wp_modify, wp_ret. split.
  - split; [|intros _; apply Hn; unfold negotiated; by rewrite Es].
    destruct Ha as (H1 & H2 & _ & H4). split_and!; [exact H1|exact H2| |apply H4..].
    change (len match network b with Some n => name <$> n | None => [] end ≤ CHANNELS_MAX).
    unfold channels_bounded in Hch. destruct (network b); [by rewrite len_fmap|by vm_compute].
  - done.
  - unfold post_auth; by rewrite Es.
  - by rewrite Es.
  - by rewrite Es.
  - done.
  - done.
Qed.

Lemma on_client_info_wp input a :
  state a = WaitClientInfo → acceptor_ok a → bytes_ok input → len input < 2 ^ 63 →
  wp (restoring (on_client_info input)) (λ x, step_post a (Some (event x))) (step_post a None) a.
Proof.
  intros Es [Ha Hn] Hb Hl. apply restoring_wp; [|by apply step_post_refl; split].
  unfold on_client_info. apply wp_bind.
  eapply wp_decoded; [by apply unwrap_data_spec| |done]. intros p [Hp Hlp]. apply wp_bind.
  eapply (wp_decoded _ data_ok); [apply (safe_run _ _ _ decode_request_safe Hp Hlp)| |done].
  intros d [Hd Hld]. apply wp_bind.
  eapply (wp_decoded _ (λ _, True)); [by apply no_panic_True, ClientInfoPdu_decode_no_panic; [|lia]| |done].
  intros ci _. cbn zeta. apply wp_bind, wp_modify, wp_ret. split.
  - split; [exact Ha|]. intros _. apply Hn. unfold negotiated; by rewrite Es.
  - done.
  - unfold post_auth; by rewrite Es.
  - by rewrite Es.
  - done.
  - done.
  - done.
Qed.

Lemma domain_phase_wp input a :
  match state a with
  | WaitErectDomainRequest | WaitAttachUserRequest | WaitChannelJoinRequest _ => True | _ => False end →
  acceptor_ok a → bytes_ok input → len input < 2 ^ 63 →
  wp (step_mcs_domain_pdus input) (λ x, step_post a (Some (event x))) (step_post a None) a.
Proof.
  intros Es [Ha Hn] Hb Hl.
  assert (protocol_ok a) as Hp by (apply Hn; unfold negotiated; by destruct (state a)).
  assert (∀ a' e, domain_inv a a' → e = None ∨ e = Some EvNone → step_post a e a') as Hpost.
  { intros a' e (Hs & Hst & Hc) He. pose proof (same_client_protocol _ _ Hc Hp).
    split; [by split|by apply Hc|unfold post_auth, domain_state in *; by destruct (state a), (state a')|..].
    - by intros E; rewrite E in Es.
    - unfold domain_state in Hs. destruct He as [->| ->]; by destruct (state a), (state a').
    - by destruct He as [->| ->].
    - by destruct He as [->| ->]. }
  eapply wp_weaken; [apply (step_mcs_domain_pdus_wp a); [|done|done]|..].
  - split_and!; [unfold domain_state; by destruct (state a)|done..].
  - intros x a' [Hi ->]. apply Hpost; [done|by right].
  - intros a' Hi. apply Hpost; [done|by left].
Qed.

Lemma reactivation_phase_wp input a :
  match state a with WaitConfirmActive | WaitFinalization _ => True | _ => False end →
  acceptor_ok a → bytes_ok input → len input < 2 ^ 63 →
  wp (step_reactivation input) (λ x, step_post a (Some (event x))) (step_post a None) a.
Proof.
  intros Es [Ha Hn] Hb Hl.
  assert (protocol_ok a) as Hp by (apply Hn; unfold negotiated; by destruct (state a)).
  assert (post_auth a) as Hpa by (unfold post_auth; by destruct (state a)).
  assert (∀ a' e, react_inv a a' → e = None ∨ (∃ x, e = Some x ∧ accepts a' x) → step_post a e a') as Hpost.
  { intros a' e (Hs & Hst & Hc) He. pose proof (same_client_protocol _ _ Hc Hp).
    split; [by split|by apply Hc|by split|..].
    - by intros E; rewrite E in Es.
    - destruct He as [->|(x & -> & [->|[_ ->]])];
        unfold post_auth in Hs; by destruct (state a), (state a').
    - by destruct He as [->|(x & -> & [->|[_ ->]])].
    - by destruct He as [->|(x & -> & [->|[? ->]])]. }
  eapply wp_weaken; [by apply (step_reactivation_wp a)|..].
  - intros x a' [Hi He]. apply Hpost; [done|right; by exists (event x)].
  - intros a' Hi. apply Hpost; [done|by left].
Qed.

Lemma step_wp input a :
  acceptor_ok a → bytes_ok input → len input < 2 ^ 63 →
  wp (step input) (λ x, step_post a (Some (event x))) (step_post a None) a.
Proof.
  intros Ha Hb Hl. unfold step. apply wp_bind, wp_get.
  destruct (state a) eqn:Es;
    first [ by apply on_connection_request_wp | by apply on_connect_initial_wp
          | by apply on_client_info_wp | apply domain_phase_wp; by rewrite ?Es
          | apply reactivation_phase_wp; by rewrite ?Es
          | apply wp_throw; by apply step_post_refl | idtac ].
  apply restoring_wp; [by apply wp_throw|by apply step_post_refl].
Qed.

(** ** Runs *)

(** The calls of the server's handshake and session. *)
Inductive call :=
  | CallStep (input : bytes)
  | CallApprove
  | CallReject
  | CallResize (w h : Z).

(** The acceptor with what its caller saw: the credentials received, those in hand at
    an approval, whether a pending login was turned down, the connections accepted,
    and whether a call panicked. *)
Record connection := {
  acceptor : Acceptor; received : option ClientCredentials; approved : option ClientCredentials;
  declined : bool; accepted : list AcceptedConnection; panicked : bool }.

Definition is_panic {E A} (r : res E A) : bool := match r with Panic => true | _ => false end.

Definition connect (a : Acceptor) : connection :=
  {| acceptor := a; received := None; approved := None; declined := false; accepted := [];
     panicked := false |}.

Definition run_call (s : connection) (c : call) : connection :=
  match c with
  | CallStep input =>
    let '(a, r) := step input (acceptor s) in
    let e := match r with Ok x => event x | _ => EvNone end in
    {| acceptor := a;
       received := match e with EvClientInfoReceived c => Some c | _ => received s end;
       approved := approved s; declined := declined s;
       accepted := accepted s ++ match e with EvAccepted x => [x] | _ => [] end;
       panicked := panicked s || is_panic r |}
  | CallApprove =>
    let '(a, r) := approve_client_info (acceptor s) in
    {| acceptor := a; received := received s;
       approved := match r with Ok _ => received s | _ => approved s end;
       declined := declined s; accepted := accepted s; panicked := panicked s || is_panic r |}
  | CallReject =>
    {| acceptor := reject_client_info (acceptor s); received := received s; approved := approved s;
       declined := declined s || match state (acceptor s) with WaitAuthApproval => true | _ => false end;
       accepted := accepted s; panicked := panicked s |}
  | CallResize w h =>
    let '(a, r) := begin_resize w h (acceptor s) in
    {| acceptor := a; received := received s; approved := approved s; declined := declined s;
       accepted := accepted s; panicked := panicked s || is_panic r |}
  end.
Definition run_calls (cs : list call) (s : connection) : connection := foldl run_call s cs.

Definition call_ok (c : call) : Prop :=
  match c with CallStep input => bytes_ok input ∧ len input < 2 ^ 63 | _ => True end.
Global Instance call_ok_dec c : Decision (call_ok c).
Proof. destruct c; apply _. Defined.

Record run_inv (nla : bool) (s : connection) : Prop := {
  inv_acceptor : acceptor_ok (acceptor s);
  inv_nla : require_nla (acceptor s) = nla;
  inv_approved : post_auth (acceptor s) → ∃ c, received s = Some c ∧ approved s = Some c;
  inv_not_approved : ¬ post_auth (acceptor s) → approved s = None ∧ accepted s = [];
  inv_pending : state (acceptor s) = WaitAuthApproval → is_Some (received s);
  inv_declined : declined s = true → state (acceptor s) = Rejected;
  inv_panicked : panicked s = false }.

Global Instance post_auth_dec a : Decision (post_auth a).
Proof. unfold post_auth. destruct (state a); apply _. Defined.

Lemma connect_inv a :
  acceptor_ok a → state a = WaitConnectionRequest → run_inv (require_nla a) (connect a).
Proof. intros Ha Es. split; try done; cbn [connect acceptor]; unfold post_auth; by rewrite Es. Qed.

Lemma run_step_inv nla s input :
  run_inv nla s → bytes_ok input → len input < 2 ^ 63 → run_inv nla (run_call s (CallStep input)).
Proof.
  intros [Hok Hn Hap Hna Hpe Hde Hpa] Hb Hl. pose proof (step_wp input _ Hok Hb Hl) as H.
  unfold wp in H. cbn [run_call]. destruct (step input (acceptor s)) as [a' r].
  set (e := match r with Ok x => event x | _ => EvNone end).
  assert (∃ o, step_post (acceptor s) o a' ∧ e = default EvNone o ∧ is_panic r = false) as (o & Hp & He & Hr).
  { destruct r as [x|x|]; [by exists (Some (event x))|by exists None|done]. }
  clearbody e. clear H. destruct Hp as [P1 P2 P3 P4 P5 P6 P7]. split; cbn.
  - exact P1.
  - congruence.
  - intros Hp. rewrite P3 in Hp. destruct (Hap Hp) as (c & Hc & Hc').
    exists c. split; [|done]. subst e. destruct o as [[| | |c1|x1]|]; try done.
    unfold post_auth in Hp. by rewrite P6 in Hp.
  - intros Hp. rewrite P3 in Hp. destruct (Hna Hp) as [-> ->]. split; [done|].
    subst e. destruct o as [[| | |c1|x1]|]; try done. by destruct P7.
  - intros E. apply P5 in E. subst e. destruct o as [[| | |c1|x1]|]; try (by apply Hpe). by eexists.
  - intros E. by apply P4, Hde.
  - by rewrite Hpa, Hr.
Qed.

Lemma run_call_inv nla s c : run_inv nla s → call_ok c → run_inv nla (run_call s c).
Proof.
  intros Hi Hc. destruct c as [input| | |w h]; [by apply run_step_inv; [|apply Hc..]|..];
    destruct Hi as [Hok Hn Hap Hna Hpe Hde Hpa]; destruct s as [a re ap de ac pa]; cbn in *.
  - unfold approve_client_info, mbind, act_bind, get. destruct (state a) eqn:Es; cbn;
      try (split; cbn; by rewrite ?Es, ?Hpa). destruct Hok as [H1 H2]. split; cbn.
    + split; [exact H1|]. intros _. apply H2. unfold negotiated. by rewrite Es.
    + done.
    + intros _. destruct (Hpe eq_refl) as [c ->]. by exists c.
    + intros H. by destruct H.
    + done.
    + intros E. by specialize (Hde E).
    + by rewrite Hpa.
  - unfold reject_client_info. destruct (state a) eqn:Es;
      try (split; cbn; by rewrite ?Es, ?orb_false_r). destruct Hok as [H1 H2]. split; cbn; try done.
    intros _. apply Hna. unfold post_auth. rewrite Es; tauto.
  - unfold begin_resize, mbind, act_bind, get. destruct (state a) eqn:Es; cbn;
      try (split; cbn; by rewrite ?Es, ?Hpa). destruct Hok as [H1 H2]. split; cbn.
    + split; [by apply (stored_ok_buf [] a); [|constructor|vm_compute]|]. intros _. apply H2. unfold negotiated. by rewrite Es.
    + done.
    + intros _. apply Hap. unfold post_auth. by rewrite Es.
    + intros H. by destruct H.
    + done.
    + intros E. by specialize (Hde E).
    + by rewrite Hpa.
Qed.

Lemma run_calls_inv nla cs s : Forall call_ok cs → run_inv nla s → run_inv nla (run_calls cs s).
Proof.
  intros Hcs. revert s. induction Hcs as [|c cs Hc _ IH]; intros s Hs; [done|].
  by apply IH, run_call_inv.
Qed.

Lemma new_acceptor_ok w h nla : acceptor_ok (with_require_nla nla (Acceptor_new w h)).
Proof. split; [|done]. split_and!; done || constructor. Qed.
