(* ===== verification/ConnectorFlow.v ===== *)
(** What the acceptor does with the messages of a client that follows the protocol,
    however it packs them into packets: the connection is accepted with what the
    client asked for, and a resize of it is accepted with the new size. *)
From S2P Require Import Prelude Cursor Utf Framing Ber Per Mcs.
From S2P Require Import Headers ClientInfo Gcc Capability Finalization Connector ConnectorSafety.

(** ** Total correctness *)

(** [m] returns from [a], with a result that satisfies [Q]. *)
Notation succeeds m Q a := (wp m Q (λ _, False) a).

Section succeeds.
Context {A B : Type}.

Lemma wp_decoded_Ok (m : res DecodeError A) x (Q : A → Acceptor → Prop) E a :
  m = Ok x → Q x a → wp (decoded m) Q E a.
Proof. by intros ->. Qed.
Lemma wp_read (m : reader A) x l (Q : A * ReadCursor → Acceptor → Prop) E c a :
  reads m (rest c) x l → cursor_ok c →
  (∀ c', cursor_ok c' → rest c' = l → Q (x, c') a) → wp (from_cursor m c) Q E a.
Proof.
  intros Hm Hc HQ. destruct (Hm c Hc eq_refl) as (c' & E' & Hc' & Hr & _).
  unfold wp, from_cursor, decoded. rewrite E'. by apply HQ.
Qed.
End succeeds.

Lemma remaining_rest c : cursor_ok c → remaining c = len (rest c).
Proof. intros Hc. by rewrite rest_len. Qed.

(** ** MCS domain PDUs *)

Definition erect_ok (p : ErectDomainRequest) : Prop := u32_ok (sub_height p) ∧ u32_ok (sub_interval p).
Definition join_ok (p : ChannelJoinRequest) : Prop :=
  u16_ok (cjr_initiator p) ∧ u16_ok (cjr_channel_id p).

(** The PDUs the acceptor still expects of the domain phase. *)
Definition domain_due (a0 : Acceptor) (ps : list bytes) (a : Acceptor) : Prop :=
  same_client a0 a ∧ message_channel_id a = message_channel_id a0
  ∧ confirm_active_buf a = confirm_active_buf a0 ∧
  let joins := 2 + len (static_channel_names a)
               + match message_channel_id a with Some _ => 1 | None => 0 end in
  match state a with
  | WaitErectDomainRequest => ∃ e js, erect_ok e ∧ Forall join_ok js ∧ len js = joins ∧
      ps = ErectDomainRequest_encode e :: AttachUserRequest_encode :: (ChannelJoinRequest_encode <$> js)
  | WaitAttachUserRequest => ∃ js, Forall join_ok js ∧ len js = joins ∧
      ps = AttachUserRequest_encode :: (ChannelJoinRequest_encode <$> js)
  | WaitChannelJoinRequest n => ∃ js, Forall join_ok js ∧ len js = n ∧ 0 < n ∧
      ps = ChannelJoinRequest_encode <$> js
  | WaitClientInfo => ps = []
  | _ => False
  end.

Lemma peek_domain c t b l :
  cursor_ok c → rest c = b :: l → DomainMcsPdu_from_u8 (Z.shiftr b 2) = Some t →
  peek_domain_pdu c = Ok (Some t).
Proof.
  intros Hc Hr Ht. unfold peek_domain_pdu. rewrite remaining_rest, Hr, len_cons by done.
  pose proof (len_nonneg l). rewrite (proj2 (Z.eqb_neq _ _)) by lia.
  destruct (peek_slice_reads 1 [b] l eq_refl c Hc Hr) as (c' & -> & _).
  change (Ok (DomainMcsPdu_from_u8 (Z.shiftr b 2)) = (Ok (Some t) : res DecodeError _)). by rewrite Ht.
Qed.

Lemma domain_pdu_due a0 p ps c l a :
  domain_due a0 (p :: ps) a → cursor_ok c → rest c = p ++ l →
  (∃ t, peek_domain_pdu c = Ok (Some t) ∧ t ≠ PduDisconnectProviderUltimatum) ∧ 1 ≤ len p
  ∧ succeeds (domain_pdu c) (λ x a', domain_due a0 ps a' ∧ event x.1 = EvNone ∧ cursor_ok x.2
                                     ∧ rest x.2 = l) a.
Proof.
  intros (Hs & Hm & Hb & Hd) Hc Hr. cbn zeta in Hd.
  destruct (state a) eqn:Es; try done.
  - destruct Hd as (e & js & He & Hjs & Hl & [= -> ->]). split_and!.
    + eexists. split; [by eapply peek_domain; [done|exact Hr|]|done].
    + unfold ErectDomainRequest_encode. rewrite len_app. pose proof (len_nonneg (Per.write_u32 (sub_height e) ++ Per.write_u32 (sub_interval e))).
      change (len (write_choice_byte PduErectDomainRequest 0)) with 1. lia.
    + unfold domain_pdu. apply wp_bind, wp_get, wp_bind, wp_modify. rewrite Es. apply wp_bind.
      eapply wp_read; [rewrite Hr; apply ErectDomainRequest_reads; apply He|done|].
      intros c' Hc' Hr'. apply wp_bind, wp_modify, wp_ret. split_and!; try done.
      refine (conj Hs (conj Hm (conj Hb _))). by exists js.
  - destruct Hd as (js & Hjs & Hl & [= -> ->]). split_and!.
    + eexists. split; [by eapply peek_domain; [done|exact Hr|]|done].
    + done.
    + unfold domain_pdu. apply wp_bind, wp_get, wp_bind, wp_modify. rewrite Es. apply wp_bind.
      eapply wp_read; [rewrite Hr; apply AttachUserRequest_reads|done|].
      intros c' Hc' Hr'. apply wp_bind, wp_get, wp_bind, wp_modify, wp_ret. split_and!; try done.
      refine (conj Hs (conj Hm (conj Hb _))). exists js. split_and!; [done|exact Hl| |done].
      change (0 < 2 + len (static_channel_names a) + match message_channel_id a with Some _ => 1 | None => 0 end).
      pose proof (len_nonneg (static_channel_names a)). destruct (message_channel_id a); lia.
  - destruct Hd as (js & Hjs & Hl & Hn & Hps). destruct js as [|j js]; [done|].
    injection Hps as -> ->. inversion_clear Hjs as [|? ? Hj Hjs']. split_and!.
    + eexists. split; [by eapply peek_domain; [done|exact Hr|]|done].
    + unfold ChannelJoinRequest_encode. rewrite len_app.
      pose proof (len_nonneg (Per.write_u16 (cjr_initiator j) BASE_CHANNEL_ID ++ Per.write_u16 (cjr_channel_id j) 0)).
      change (len (write_choice_byte PduChannelJoinRequest 0)) with 1. lia.
    + unfold domain_pdu. apply wp_bind, wp_get, wp_bind, wp_modify. rewrite Es. apply wp_bind.
      eapply wp_read; [rewrite Hr; apply ChannelJoinRequest_reads; apply Hj|done|].
      intros c' Hc' Hr'. apply wp_bind, wp_modify, wp_ret. split_and!; try done.
      refine (conj Hs (conj Hm (conj Hb _))).
      rewrite len_cons in Hl. pose proof (len_nonneg js). unfold saturating_sub. cbn [state set_state].
      destruct (Z.eqb_spec (Z.max 0 (remaining - 1)) 0).
      * cbn. destruct js; [done|]. rewrite len_cons in *. pose proof (len_nonneg js). lia.
      * cbn. exists js. split_and!; done || lia.
Qed.

Lemma domain_loop_due a0 ps qs fuel c out a :
  domain_due a0 (ps ++ qs) a → cursor_ok c → rest c = mjoin ps → remaining c ≤ Z.of_nat fuel →
  succeeds (domain_loop fuel c out) (λ x a', domain_due a0 qs a' ∧ event x = EvNone) a.
Proof.
  revert ps c out a. induction fuel as [|fuel IH]; intros ps c out a Ha Hc Hr Hf; cbn [domain_loop].
  all: destruct ps as [|p ps];
    [rewrite remaining_rest, Hr by done; by apply wp_ret|].
  all: destruct (domain_pdu_due a0 p (ps ++ qs) c (mjoin ps) a Ha Hc Hr) as ((t & Ht & Hnt) & Hlen & Hpdu).
  all: assert (remaining c = len p + len (mjoin ps)) as Hrem
    by (rewrite remaining_rest, Hr by done; apply len_app).
  all: pose proof (len_nonneg (mjoin ps)); destruct (Z.ltb_spec 0 (remaining c)); [|lia].
  { lia. }
  apply wp_bind. eapply wp_decoded_Ok; [exact Ht|]. rewrite decide_False by congruence.
  apply wp_bind. eapply wp_weaken; [exact Hpdu| |done].
  intros [x c'] a' (Hd & Ev & Hc' & Hr'); cbn [fst snd] in *. cbn beta iota zeta. rewrite Ev.
  assert (succeeds (domain_loop fuel c' (out ++ response x))
    (λ x a', domain_due a0 qs a' ∧ event x = EvNone) a') as Hrec.
  { eapply IH; [exact Hd|done|done|]. rewrite (remaining_rest c' Hc'), Hr'.
    change (len (mjoin ps) ≤ Z.of_nat fuel). lia. }
  apply wp_bind, wp_get. destruct (state a') eqn:Es'; try exact Hrec.
  apply wp_ret. split; [|done]. destruct Hd as (H1 & H2 & H3 & H4). cbn zeta in H4. rewrite Es' in H4.
  apply app_nil in H4 as [_ ->]. refine (conj H1 (conj H2 (conj H3 _))). by rewrite Es'.
Qed.

Lemma domain_step_due a0 g qs a :
  domain_due a0 (g ++ qs) a → g ≠ [] → len (mjoin g) < 2 ^ 62 →
  succeeds (step (wrap_data (mjoin g))) (λ x a', domain_due a0 qs a' ∧ event x = EvNone) a.
Proof.
  intros Ha Hg Hl. unfold step. apply wp_bind, wp_get.
  assert (succeeds (step_mcs_domain_pdus (wrap_data (mjoin g)))
    (λ x a', domain_due a0 qs a' ∧ event x = EvNone) a) as H.
  { unfold step_mcs_domain_pdus. apply wp_bind. eapply wp_decoded_Ok; [by apply unwrap_wrap_data|].
    eapply domain_loop_due; [exact Ha|apply cursor_new_ok; lia| |unfold remaining, cursor_new, len; cbn; lia].
    apply drop_0. }
  destruct Ha as (_ & _ & _ & Hd). cbn zeta in Hd.
  destruct (state a); try done. by destruct g.
Qed.

(** ** Reactivation *)

(** Send Data Requests of a client in the finalization phase: anything on other
    channels, Data PDUs, and at last the Font List. *)
Inductive finishes : list SendData → Prop :=
  | fin_other d l : sd_channel_id d ≠ IO_CHANNEL_ID → finishes l → finishes (d :: l)
  | fin_data d p l :
      sd_channel_id d = IO_CHANNEL_ID → sd_data d = DataPdu_encode p → DataPdu_ok p →
      pdu_type2 p ≠ TFontList → finishes l → finishes (d :: l)
  | fin_font d p :
      sd_channel_id d = IO_CHANNEL_ID → sd_data d = DataPdu_encode p → DataPdu_ok p →
      pdu_type2 p = TFontList → finishes [d].

(** The same before the Confirm Active, which offers the codec [n] and the size [m]. *)
Inductive activates (n : option NsCodecNegotiated) (m : option Z) : list SendData → Prop :=
  | act_other d l : sd_channel_id d ≠ IO_CHANNEL_ID → activates n m l → activates n m (d :: l)
  | act_stray d p l :
      sd_channel_id d = IO_CHANNEL_ID → sd_data d = DataPdu_encode p → DataPdu_ok p →
      activates n m l → activates n m (d :: l)
  | act_confirm d c l :
      sd_channel_id d = IO_CHANNEL_ID → ConfirmActive_decode (sd_data d) = Ok c →
      parse_client_nscodec (capabilities c) 3 = Ok n →
      parse_client_max_request_size (capabilities c) = Ok m → finishes l → activates n m (d :: l).

Definition react_due (a0 : Acceptor) (n : option NsCodecNegotiated) (m : option Z)
    (ds : list SendData) (a : Acceptor) : Prop :=
  same_client a0 a ∧ confirm_active_buf a = [] ∧
  match state a with
  | WaitConfirmActive => activates n m ds
  | WaitFinalization _ => nscodec a = n ∧ max_request_size a = m ∧ finishes ds
  | Accepted => nscodec a = n ∧ max_request_size a = m ∧ ds = []
  | _ => False
  end.

Definition accept_event (a : Acceptor) : AcceptorEvent :=
  match state a with Accepted => EvAccepted (accepted_connection a) | _ => EvNone end.

Lemma other_pdu_type_reads data h n l t :
  len data < 2 ^ 63 → reads ShareControlHeader_decode data (h, n) l →
  other_pdu_type data t = Ok (bool_decide (pdu_type h ≠ t)).
Proof.
  intros Hl H. unfold other_pdu_type, run.
  destruct (H (cursor_new data)) as (c & -> & _); [by apply cursor_new_ok|apply drop_0|done].
Qed.

Lemma DataPdu_other_pdu_type p t :
  DataPdu_ok p → other_pdu_type (DataPdu_encode p) t = Ok (bool_decide (PduData ≠ t)).
Proof.
  intros (Hs & Hi & Hl). pose proof (len_nonneg (d_body p)).
  unfold DataPdu_encode, write_slice. eapply (other_pdu_type_reads _ {| pdu_type := PduData; pdu_source := d_pdu_source p; share_id := d_share_id p |} _ _ t);
    [|apply ShareControlHeader_reads; cbn [pdu_source share_id]; rewrite ?len_app; try done].
  all: change (len (ShareDataHeader_write _ _)) with 8; rewrite ?len_app;
    change (len (ShareControlHeader_write _ _)) with 10; rewrite ?len_app;
    change (len (ShareDataHeader_write _ _)) with 8; lia.
Qed.

Lemma ConfirmActive_other_pdu_type data c t :
  ConfirmActive_decode data = Ok c → other_pdu_type data t = Ok (bool_decide (PduConfirmActive ≠ t)).
Proof.
  unfold ConfirmActive_decode, other_pdu_type, run, ConfirmActive_decode_from, mbind, reader_bind.
  destruct (ShareControlHeader_decode (cursor_new data)) as [[[h n] c1]| |]; [|done..].
  unfold reject_if. case_bool_decide as Hp; [done|]. intros _. by rewrite Hp.
Qed.

Definition send_ok (d : SendData) : Prop := SendData_ok d ∧ sd_complete d = true ∧ bytes_ok (sd_data d).

Lemma on_confirm_active_confirms n m d c a :
  confirm_active_buf a = [] → send_ok d → sd_channel_id d = IO_CHANNEL_ID →
  ConfirmActive_decode (sd_data d) = Ok c → parse_client_nscodec (capabilities c) 3 = Ok n →
  parse_client_max_request_size (capabilities c) = Ok m →
  succeeds (on_confirm_active_send_data d)
    (λ x a', a' = set_state (WaitFinalization false) (set_caps n m (set_buf [] a)) ∧ event x = EvNone) a.
Proof.
  intros Hb ((_ & _ & Hl) & Hc & _) Hch Hcd Hn Hm. unfold on_confirm_active_send_data.
  rewrite Hch. apply wp_bind. eapply wp_decoded_Ok; [by eapply ConfirmActive_other_pdu_type|].
  rewrite bool_decide_false by tauto. cbn [negb Z.eqb]. apply wp_bind, wp_get. rewrite Hb, app_nil_l.
  pose proof (len_nonneg (sd_data d)).
  rewrite (proj2 (Z.ltb_ge _ _)) by (change (len (@nil Z)) with 0; unfold saturating_add_usize,
    USIZE_MAX, MAX_CONFIRM_ACTIVE_LEN; lia).
  apply wp_bind, wp_modify. rewrite Hc. cbn [negb]. apply wp_bind, wp_modify, wp_bind.
  eapply wp_decoded_Ok; [unfold try_decode_confirm_active; by rewrite Hcd|].
  apply wp_bind. eapply wp_decoded_Ok; [exact Hn|]. apply wp_bind.
  eapply wp_decoded_Ok; [exact Hm|]. by apply wp_bind, wp_modify, wp_bind, wp_modify, wp_ret.
Qed.

Lemma on_confirm_active_due a0 n m d ds a :
  react_due a0 n m (d :: ds) a → state a = WaitConfirmActive → send_ok d →
  succeeds (on_confirm_active_send_data d) (λ x a', react_due a0 n m ds a' ∧ event x = accept_event a') a.
Proof.
  intros (Hs & Hb & Hd) Es Hok. rewrite Es in Hd. unfold on_confirm_active_send_data.
  assert (activates n m ds → succeeds (modify (set_state WaitConfirmActive) ;; mret (just []))
    (λ x a', react_due a0 n m ds a' ∧ event x = accept_event a') a) as Hskip
    by (intros; apply wp_bind, wp_modify, wp_ret; by split_and!).
  inversion Hd as [d' l Hch Hrest|d' p l Hch Hp Hpo Hrest|d' c l Hch Hcd Hn Hm Hrest]; subst.
  - rewrite (proj2 (Z.eqb_neq _ _)) by done. by apply Hskip.
  - rewrite Hch. apply wp_bind. eapply wp_decoded_Ok; [rewrite Hp; by apply DataPdu_other_pdu_type|].
    by apply Hskip.
  - eapply wp_weaken; [by eapply (on_confirm_active_confirms n m d c a)| |done].
    intros x a' [-> ->]. by split_and!.
Qed.

Lemma on_finalization_due a0 n m d ds g a :
  react_due a0 n m (d :: ds) a → state a = WaitFinalization g → send_ok d →
  succeeds (on_finalization_send_data d g) (λ x a', react_due a0 n m ds a' ∧ event x = accept_event a') a.
Proof.
  intros (Hs & Hb & Hd) Es ((_ & _ & Hl) & _ & Hok). rewrite Es in Hd. destruct Hd as (Hn & Hm & Hd).
  unfold on_finalization_send_data.
  assert (∀ g r, finishes ds → succeeds (modify (set_state (WaitFinalization g)) ;; mret (just r))
    (λ x a', react_due a0 n m ds a' ∧ event x = accept_event a') a) as Hskip
    by (intros; apply wp_bind, wp_modify, wp_ret; by split_and!).
  inversion Hd as [d' l Hch Hrest|d' p l Hch Hp Hpo Ht Hrest|d' p Hch Hp Hpo Ht]; subst.
  1: rewrite (proj2 (Z.eqb_neq _ _)) by done; by apply Hskip.
  all: rewrite Hch; cbn [negb Z.eqb]; rewrite Hp; apply wp_bind;
    (eapply wp_decoded_Ok; [by apply DataPdu_other_pdu_type|]); cbn beta iota;
    apply wp_bind; (eapply wp_decoded_Ok; [by rewrite DataPdu_decode_encode|]); cbn beta iota.
  - destruct (pdu_type2 p); try done; try by apply Hskip.
    pose proof (DataPdu_decode_spec (sd_data d) Hok ltac:(lia)) as Hbody.
    rewrite Hp, DataPdu_decode_encode in Hbody by done. destruct Hbody as [Hbb Hbl].
    pose proof (safe_run _ _ _ ControlPdu_safe Hbb Hbl) as Hctl.
    unfold ControlPdu_decode_body. destruct (run ControlPdu_decode (d_body p)); [..|done];
      (apply wp_bind; eapply wp_decoded_Ok; [done|]); by apply Hskip.
  - rewrite Ht. apply wp_bind, wp_get, wp_bind, wp_modify, wp_ret. by split_and!.
Qed.

Lemma react_loop_due a0 n m ds es fuel c out a :
  react_due a0 n m (ds ++ es) a → state a ≠ Accepted → Forall send_ok ds →
  cursor_ok c → rest c = mjoin (encode_request <$> ds) → remaining c ≤ Z.of_nat fuel →
  succeeds (reactivation_loop fuel c out) (λ x a', react_due a0 n m es a' ∧ event x = accept_event a') a.
Proof.
  revert ds c out a. induction fuel as [|fuel IH]; intros ds c out a Ha Hna Hds Hc Hr Hf;
    cbn [reactivation_loop].
  all: destruct ds as [|d ds]; [rewrite remaining_rest, Hr by done; apply wp_ret; split; [done|];
    unfold accept_event; by destruct (state a)|].
  all: apply Forall_cons in Hds as [Hd Hds].
  all: assert (remaining c = len (encode_request d) + len (mjoin (encode_request <$> ds))) as Hrem
    by (rewrite remaining_rest, Hr by done; apply len_app).
  all: assert (1 ≤ len (encode_request d)) as Hlen by (unfold encode_request, SendData_encode;
    rewrite len_app; pose proof (len_nonneg (Per.write_u16 (sd_initiator d) BASE_CHANNEL_ID ++ Per.write_u16 (sd_channel_id d) 0
      ++ write_u8 SEND_DATA_PRIORITY_AND_SEGMENTATION ++ Per.write_length (len (sd_data d)) ++ write_slice (sd_data d)));
    change (len (write_choice_byte PduSendDataRequest 0)) with 1; lia).
  all: pose proof (len_nonneg (mjoin (encode_request <$> ds)));
    destruct (Z.ltb_spec 0 (remaining c)); [|lia].
  { lia. }
  apply wp_bind, wp_get. cbn [app] in Ha.
  assert (∀ x a', react_due a0 n m (ds ++ es) a' ∧ event x = accept_event a' → ∀ c',
    cursor_ok c' → rest c' = mjoin (encode_request <$> ds) →
    succeeds (match event x with
        | EvAccepted y => mret (with_event (out ++ response x) (EvAccepted y))
        | _ => reactivation_loop fuel c' (out ++ response x)
        end) (λ x a', react_due a0 n m es a' ∧ event x = accept_event a') a') as Hk.
  { intros x a' [Ha' He] c' Hc' Hr'. assert (state a' ≠ Accepted →
      succeeds (reactivation_loop fuel c' (out ++ response x))
        (λ x a', react_due a0 n m es a' ∧ event x = accept_event a') a') as Hrec.
    { intros. eapply IH; try done. rewrite (remaining_rest c' Hc'), Hr'.
      change (len (mjoin (encode_request <$> ds)) ≤ Z.of_nat fuel). lia. }
    rewrite He. unfold accept_event. destruct (state a') eqn:Es'; try by apply Hrec.
    apply wp_ret. destruct Ha' as (H1 & H2 & H3). rewrite Es' in H3.
    destruct H3 as (H3 & H4 & [-> ->]%app_nil). split; [|by rewrite Es'].
    refine (conj H1 (conj H2 _)). by rewrite Es'. }
  destruct Hd as (Hsd & Hcomp & Hbd).
  destruct (state a) eqn:Es; try (by destruct Ha as (_ & _ & Ha); rewrite Es in Ha).
  all: apply wp_bind; eapply wp_read; [rewrite Hr; by apply SendData_reads|done|].
  all: intros c' Hc' Hr'; apply wp_bind, wp_get, wp_bind; rewrite Es; apply wp_fmap.
  - eapply wp_weaken; [by apply (on_confirm_active_due a0 n m d (ds ++ es))| |done].
    intros x a' Hx. by apply Hk.
  - eapply wp_weaken; [by apply (on_finalization_due a0 n m d (ds ++ es))| |done].
    intros x a' Hx. by apply Hk.
Qed.

Definition packet (ds : list SendData) : bytes := wrap_data (mjoin (encode_request <$> ds)).

Lemma react_step_due a0 n m ds es a :
  react_due a0 n m (ds ++ es) a → state a ≠ Accepted → Forall send_ok ds →
  len (mjoin (encode_request <$> ds)) < 2 ^ 62 →
  succeeds (step (packet ds)) (λ x a', react_due a0 n m es a' ∧ event x = accept_event a') a.
Proof.
  intros Ha Hna Hds Hl. unfold step. apply wp_bind, wp_get.
  assert (succeeds (step_reactivation (packet ds))
    (λ x a', react_due a0 n m es a' ∧ event x = accept_event a') a) as H.
  { unfold step_reactivation, packet. apply wp_bind. eapply wp_decoded_Ok; [by apply unwrap_wrap_data|].
    eapply react_loop_due; [exact Ha|done|done|apply cursor_new_ok; lia|apply drop_0|].
    unfold remaining, cursor_new, len; cbn; lia. }
  destruct Ha as (_ & _ & Hd). destruct (state a); done.
Qed.

(** ** Runs *)

(** What the caller observed. *)
Definition observed (s : connection) :=
  (received s, approved s, declined s, accepted s, panicked s).

Lemma run_step_succeeds input (Q : StepResult → Acceptor → Prop) s :
  succeeds (step input) Q (acceptor s) →
  let s' := run_call s (CallStep input) in
  ∃ x, Q x (acceptor s')
    ∧ observed s' = (match event x with EvClientInfoReceived c => Some c | _ => received s end,
        approved s, declined s,
        accepted s ++ match event x with EvAccepted y => [y] | _ => [] end, panicked s).
Proof.
  unfold wp. cbn [run_call]. destruct (step input (acceptor s)) as [a' [x|e|]]; [|done..].
  intros HQ. exists x. split; [done|]. unfold observed. cbn. by rewrite orb_false_r.
Qed.

Definition domain_packet (g : list bytes) : bytes := wrap_data (mjoin g).

Lemma domain_run a0 gs s :
  domain_due a0 (mjoin gs) (acceptor s) → Forall (λ g, g ≠ [] ∧ len (mjoin g) < 2 ^ 62) gs →
  let s' := run_calls (CallStep ∘ domain_packet <$> gs) s in
  domain_due a0 [] (acceptor s') ∧ observed s' = observed s.
Proof.
  intros Hd Hgs. revert s Hd. induction Hgs as [|g gs [Hg Hl] _ IH]; intros s Hd; [done|].
  destruct (run_step_succeeds (domain_packet g) _ s
    (domain_step_due a0 g (mjoin gs) _ Hd Hg Hl)) as (x & [Hd' Ev] & Hobs).
  destruct (IH _ Hd') as [H1 H2]. split; [exact H1|].
  etrans; [exact H2|]. rewrite Hobs, Ev. unfold observed. cbn. by rewrite app_nil_r.
Qed.

Lemma react_due_accepted a0 n m ds a :
  react_due a0 n m ds a → (state a = Accepted ↔ ds = []).
Proof.
  intros (_ & _ & H). destruct (state a); try done.
  - split; [done|]. intros ->. inversion H.
  - destruct H as (_ & _ & H). split; [done|]. intros ->. inversion H.
  - by destruct H as (_ & _ & ->).
Qed.

Lemma react_run a0 n m gs s :
  react_due a0 n m (mjoin gs) (acceptor s) → state (acceptor s) ≠ Accepted →
  Forall (λ ds, ds ≠ [] ∧ Forall send_ok ds ∧ len (mjoin (encode_request <$> ds)) < 2 ^ 62) gs →
  let s' := run_calls (CallStep ∘ packet <$> gs) s in
  react_due a0 n m [] (acceptor s')
  ∧ observed s' = (received s, approved s, declined s,
      accepted s ++ [accepted_connection (acceptor s')], panicked s).
Proof.
  intros Hd Hna Hgs. revert s Hd Hna. induction Hgs as [|g gs (Hg & Hok & Hl) Hgs IH]; intros s Hd Hna.
  { apply react_due_accepted in Hd. by rewrite Hd in Hna. }
  destruct (run_step_succeeds (packet g) _ s
    (react_step_due a0 n m g (mjoin gs) _ Hd Hna Hok Hl)) as (x & [Hd' Ev] & Hobs).
  unfold run_calls in *. cbn [fmap list_fmap foldl compose] in *.
  set (s1 := run_call s (CallStep (packet g))) in *.
  destruct (decide (mjoin gs = [])) as [He|He].
  - assert (gs = []) as ->.
    { destruct Hgs as [|g' gs' (Hg' & _) _]; [done|]. cbn in He. by apply app_nil in He as [? _]. }
    cbn [foldl list_fmap fmap]. pose proof (proj2 (react_due_accepted _ _ _ _ _ Hd') eq_refl) as Hst.
    split; [done|]. rewrite Hobs, Ev. unfold accept_event. by rewrite Hst.
  - assert (state (acceptor s1) ≠ Accepted) as Hna1 by (rewrite (react_due_accepted _ _ _ _ _ Hd'); done).
    destruct (IH s1 Hd' Hna1) as [H1 H2]. split; [exact H1|]. etrans; [exact H2|].
    unfold observed in Hobs. injection Hobs as -> -> -> -> ->. rewrite Ev. unfold accept_event.
    destruct (state (acceptor s1)); try done; cbn; by rewrite app_nil_r.
Qed.

(** ** A client that follows the protocol *)

Record client := {
  c_request : ConnectionRequest; c_target : DomainParameters; c_min : DomainParameters;
  c_max : DomainParameters; c_blocks : ClientGccBlocks; c_erect : ErectDomainRequest;
  c_joins : list ChannelJoinRequest; c_initiator : Z; c_info : ClientInfo }.

Definition c_channels (c : client) : list rstring :=
  match network (c_blocks c) with Some n => name <$> n | None => [] end.
Definition c_connect_initial (c : client) : ConnectInitial :=
  {| target_parameters := c_target c; min_parameters := c_min c; max_parameters := c_max c;
     ci_user_data := ConferenceCreateRequest_encode (ClientGccBlocks_encode (c_blocks c)) |}.
Definition c_domain_pdus (c : client) : list bytes :=
  ErectDomainRequest_encode (c_erect c) :: AttachUserRequest_encode
  :: (ChannelJoinRequest_encode <$> c_joins c).
Definition c_client_info (c : client) : bytes :=
  encode_request {| sd_initiator := c_initiator c; sd_channel_id := IO_CHANNEL_ID;
                    sd_data := ClientInfoPdu_encode (c_info c); sd_complete := true |}.
Definition c_credentials (c : client) : ClientCredentials :=
  {| cr_domain := domain (c_info c); cr_username := username (c_info c);
     cr_password := password (c_info c) |}.

(** Its messages are in the range of their encodings, it offers a protocol the
    server accepts, and it joins the user, I/O, static and message channels. *)
Definition client_ok (nla : bool) (c : client) : Prop :=
  ConnectionRequest_ok (c_request c)
  ∧ (protocol_contains (cr_protocol (c_request c)) PROTOCOL_HYBRID
     || negb nla && protocol_contains (cr_protocol (c_request c)) PROTOCOL_SSL = true)
  ∧ params_ok (c_target c) ∧ params_ok (c_min c) ∧ params_ok (c_max c)
  ∧ ClientGccBlocks_ok (c_blocks c) ∧ len (ClientGccBlocks_encode (c_blocks c)) + 12 < 2 ^ 15
  ∧ len (ci_user_data (c_connect_initial c)) ≤ 65000
  ∧ len (ConnectInitial_encode (c_connect_initial c)) < 2 ^ 62
  ∧ erect_ok (c_erect c) ∧ Forall join_ok (c_joins c)
  ∧ len (c_joins c) = 2 + len (c_channels c)
      + match message_channel (c_blocks c) with Some _ => 1 | None => 0 end
  ∧ u16_ok (c_initiator c) ∧ ClientInfo_ok (c_info c) ∧ len (ClientInfoPdu_encode (c_info c)) < 2 ^ 15.

Definition selected (nla : bool) (c : client) : Z :=
  if protocol_contains (cr_protocol (c_request c)) PROTOCOL_HYBRID then PROTOCOL_HYBRID
  else PROTOCOL_SSL.

(** The acceptor at the start of the domain phase. *)
Definition initial_acceptor (w h : Z) (nla : bool) (c : client) : Acceptor :=
  set_state WaitErectDomainRequest
    (set_client (client_name (core (c_blocks c))) (c_channels c)
       ((λ _, as_u16 (IO_CHANNEL_ID + 1 + len (c_channels c))) <$> message_channel (c_blocks c))
       (set_protocol (cr_protocol (c_request c)) (selected nla c)
          (with_require_nla nla (Acceptor_new w h)))).

Lemma restoring_succeeds (m : act StepResult) Q a :
  succeeds m Q (set_state Rejected a) → succeeds (restoring m) Q a.
Proof. unfold wp, restoring. by destruct (m (set_state Rejected a)) as [a' [x|e|]]. Qed.

Lemma connection_request_succeeds w h nla c :
  client_ok nla c →
  succeeds (step (ConnectionRequest_encode (c_request c)))
    (λ x a, a = set_state WaitConnectInitial (set_protocol (cr_protocol (c_request c)) (selected nla c)
                  (with_require_nla nla (Acceptor_new w h))) ∧ event x = EvTlsUpgrade)
    (with_require_nla nla (Acceptor_new w h)).
Proof.
  intros (Hr & Hp & _). unfold step. apply wp_bind, wp_get. apply restoring_succeeds.
  unfold on_connection_request. apply wp_bind.
  eapply wp_decoded_Ok; [by apply ConnectionRequest_decode_encode|]. apply wp_bind, wp_get.
  unfold selected. destruct (protocol_contains (cr_protocol (c_request c)) PROTOCOL_HYBRID).
  - by apply wp_bind, wp_modify, wp_ret.
  - change (require_nla (set_state Rejected (with_require_nla nla (Acceptor_new w h)))) with nla.
    cbn [orb] in Hp. rewrite Hp. by apply wp_bind, wp_modify, wp_ret.
Qed.

Lemma connect_initial_succeeds w h nla c :
  client_ok nla c →
  succeeds (step (wrap_data (ConnectInitial_encode (c_connect_initial c))))
    (λ x a, a = initial_acceptor w h nla c ∧ event x = EvNone)
    (set_state WaitConnectInitial (set_protocol (cr_protocol (c_request c)) (selected nla c)
       (with_require_nla nla (Acceptor_new w h)))).
Proof.
  intros (_ & _ & Ht & Hmn & Hmx & Hbk & Hl1 & Hl2 & Hl3 & _).
  unfold step. apply wp_bind, wp_get. apply restoring_succeeds.
  unfold on_connect_initial. apply wp_bind. eapply wp_decoded_Ok; [by apply unwrap_wrap_data|].
  apply wp_bind. eapply wp_decoded_Ok; [by apply ConnectInitial_decode_encode|]. apply wp_bind.
  eapply wp_decoded_Ok; [by apply conference_request_decode|]. apply wp_bind.
  eapply wp_decoded_Ok; [apply client_blocks_decode; [done|lia]|].
  apply wp_bind, wp_modify, wp_bind, wp_get, wp_bind, wp_modify, wp_ret. done.
Qed.

Lemma client_info_succeeds nla c a :
  client_ok nla c → state a = WaitClientInfo →
  succeeds (step (wrap_data (c_client_info c)))
    (λ x a', a' = set_state WaitAuthApproval a ∧ event x = EvClientInfoReceived (c_credentials c)) a.
Proof.
  intros Hc Es. destruct Hc as (_ & _ & _ & _ & _ & _ & _ & _ & _ & _ & _ & _ & Hi & Hinfo & Hl).
  unfold step. apply wp_bind, wp_get. rewrite Es. apply restoring_succeeds.
  unfold on_client_info. apply wp_bind.
  assert (len (c_client_info c) < 2 ^ 17) as Hlen.
  { unfold c_client_info, encode_request. eapply Z.le_lt_trans; [apply len_SendData_encode|].
    cbn [sd_data]. lia. }
  eapply wp_decoded_Ok; [apply unwrap_wrap_data; lia|]. apply wp_bind.
  eapply wp_decoded_Ok.
  { apply run_reads_whole; [eapply Z.lt_trans; [exact Hlen|done]|]. apply SendData_reads; [|done].
    split; [exact Hi|split; [done|exact Hl]]. }
  apply wp_bind. eapply wp_decoded_Ok; [apply ClientInfoPdu_decode_encode; [done|]|].
  { lia. }
  apply wp_bind, wp_modify, wp_ret. done.
Qed.

(** The calls of the server on the packets of client [c], which packs its domain
    PDUs as [gs] and its activation PDUs as [rs]. *)
Definition honest_calls (c : client) (gs : list (list bytes)) (rs : list (list SendData)) : list call :=
  [CallStep (ConnectionRequest_encode (c_request c));
   CallStep (wrap_data (ConnectInitial_encode (c_connect_initial c)))]
  ++ (CallStep ∘ domain_packet <$> gs)
  ++ [CallStep (wrap_data (c_client_info c)); CallApprove]
  ++ (CallStep ∘ packet <$> rs).

Definition domain_groups_ok (gs : list (list bytes)) : Prop :=
  Forall (λ g, g ≠ [] ∧ len (mjoin g) < 2 ^ 62) gs.
Definition react_groups_ok (rs : list (list SendData)) : Prop :=
  Forall (λ ds, ds ≠ [] ∧ Forall send_ok ds ∧ len (mjoin (encode_request <$> ds)) < 2 ^ 62) rs.

(** The connection the caller is told of, after a client named [name] with static
    channels [names] was activated. *)
Definition connection_of (w h : Z) (name : rstring) (names : list rstring)
    (n : option NsCodecNegotiated) (m : option Z) : AcceptedConnection :=
  {| ac_io_channel_id := IO_CHANNEL_ID; ac_user_channel_id := USER_CHANNEL_ID;
     static_channels := imap (λ i name, (name, as_u16 (IO_CHANNEL_ID + 1 + Z.of_nat i))) names;
     ac_share_id := SHARE_ID; ac_desktop_width := w; ac_desktop_height := h;
     ac_client_name := name; ac_nscodec := n; ac_max_request_size := m |}.

Lemma run_calls_app cs cs' s : run_calls (cs ++ cs') s = run_calls cs' (run_calls cs s).
Proof. apply foldl_app. Qed.

Lemma react_accepted a0 n m a :
  react_due a0 n m [] a →
  state a = Accepted ∧ accepted_connection a =
    connection_of (a_width a0) (a_height a0) (a_client_name a0) (static_channel_names a0) n m.
Proof.
  intros Hd. pose proof (proj2 (react_due_accepted _ _ _ _ _ Hd) eq_refl) as Hs. split; [done|].
  destruct Hd as ((Hw & Hh & Hn & Hc & _) & _ & Hd). rewrite Hs in Hd. destruct Hd as (Hnn & Hm & _).
  unfold accepted_connection, connection_of. by rewrite Hw, Hh, Hn, Hc, Hnn, Hm.
Qed.

(** The phases up to the approval. *)
Lemma honest_login w h nla c gs s :
  client_ok nla c → mjoin gs = c_domain_pdus c → domain_groups_ok gs →
  s = connect (with_require_nla nla (Acceptor_new w h)) →
  let s' := run_calls ([CallStep (ConnectionRequest_encode (c_request c));
      CallStep (wrap_data (ConnectInitial_encode (c_connect_initial c)))]
     ++ (CallStep ∘ domain_packet <$> gs)
     ++ [CallStep (wrap_data (c_client_info c)); CallApprove]) s in
  state (acceptor s') = WaitConfirmActive ∧ same_client (initial_acceptor w h nla c) (acceptor s')
  ∧ confirm_active_buf (acceptor s') = []
  ∧ observed s' = (Some (c_credentials c), Some (c_credentials c), false, [], false).
Proof.
  intros Hc Hgs Hg ->. pose proof Hc as (_ & _ & _ & _ & _ & _ & _ & _ & _ & He & Hj & Hl & _).
  cbn zeta. rewrite !run_calls_app. cbn [run_calls foldl].
  destruct (run_step_succeeds _ _ _ (connection_request_succeeds w h nla c Hc :
    wp _ _ _ (acceptor (connect (with_require_nla nla (Acceptor_new w h)))))) as (x1 & [E1 V1] & O1).
  set (s1 := run_call (connect _) _) in *. rewrite V1 in O1. change (observed s1 =
    (None, None, false, [], false)) in O1. clearbody s1.
  destruct (run_step_succeeds (wrap_data (ConnectInitial_encode (c_connect_initial c)))
    (λ x a, a = initial_acceptor w h nla c ∧ event x = EvNone) s1) as (x2 & [E2 V2] & O2).
  { rewrite E1. by apply connect_initial_succeeds. }
  set (s2 := run_call s1 _) in *. rewrite V2, app_nil_r in O2. fold (observed s1) in O2. clearbody s2.
  destruct (domain_run (initial_acceptor w h nla c) gs s2) as [Hd O3]; [|exact Hg|].
  { rewrite E2, Hgs. split_and!; try done. exists (c_erect c), (c_joins c). split_and!; try done.
    rewrite Hl. cbn [initial_acceptor static_channel_names message_channel_id set_client set_state].
    by destruct (message_channel (c_blocks c)). }
  unfold run_calls in *. set (s3 := foldl _ s2 _) in *. rewrite O2, O1 in O3. clearbody s3.
  destruct Hd as (Hsc & Hm & Hbuf & Hst). cbn zeta in Hst.
  assert (state (acceptor s3) = WaitClientInfo) as Es3.
  { destruct (state (acceptor s3)); try done.
    - by destruct Hst as (? & ? & _ & _ & _ & ?).
    - by destruct Hst as (? & _ & _ & ?).
    - destruct Hst as ([|j js] & _ & Hl' & Hpos & Heq); [cbn in Hl'; unfold len in Hl'; cbn in Hl'; lia|done]. }
  destruct (run_step_succeeds _ _ s3 (client_info_succeeds nla c _ Hc Es3)) as (x4 & [E4 V4] & O4).
  set (s4 := run_call s3 _) in *. rewrite V4, app_nil_r in O4. clearbody s4.
  unfold observed in O3, O4. injection O3 as O31 O32 O33 O34 O35. rewrite O32, O33, O34, O35 in O4.
  injection O4 as O41 O42 O43 O44 O45.
  cbn [run_call]. rewrite E4. unfold approve_client_info, mbind, act_bind, get.
  change (state (set_state WaitAuthApproval (acceptor s3))) with WaitAuthApproval. cbn.
  split; [done|]. split; [exact Hsc|]. split; [exact Hbuf|].
  unfold observed. cbn [received approved declined accepted panicked]. rewrite O41, O43, O44, O45. done.
Qed.

(** C19. A client that follows the protocol is accepted: whatever the packets in which
    it packs its MCS domain PDUs and its activation PDUs, and whatever traffic on
    other channels or stray Data PDUs it interleaves with the activation, after the
    approval the server reports one connection, with the desktop size it was created
    with, the client's name and capabilities, and its static channels in order, each
    with the identifier given to it; the credentials approved are those of its Client
    Info. *)
Theorem connector_accepts (w h : Z) (nla : bool) (c : client) (gs : list (list bytes))
    (rs : list (list SendData)) (n : option NsCodecNegotiated) (m : option Z) :
  client_ok nla c → mjoin gs = c_domain_pdus c → domain_groups_ok gs →
  activates n m (mjoin rs) → react_groups_ok rs →
  let s := run_calls (honest_calls c gs rs) (connect (with_require_nla nla (Acceptor_new w h))) in
  state (acceptor s) = Accepted ∧ panicked s = false
  ∧ approved s = Some (c_credentials c)
  ∧ accepted s = [connection_of w h (client_name (core (c_blocks c))) (c_channels c) n m].
Proof.
  intros Hc Hgs Hg Hrs Hr. cbn zeta. unfold honest_calls.
  rewrite !(assoc_L (++)), run_calls_app, <-!(assoc_L (++)).
  destruct (honest_login w h nla c gs _ Hc Hgs Hg eq_refl) as (Es & Hsc & Hb & Ho).
  set (s1 := run_calls _ (connect _)) in *. clearbody s1.
  destruct (react_run (initial_acceptor w h nla c) n m rs s1) as [Hd Ho2]; [|by rewrite Es|exact Hr|].
  { split; [exact Hsc|]. split; [exact Hb|]. by rewrite Es. }
  set (s2 := run_calls _ s1) in *. clearbody s2. apply react_accepted in Hd as [Hs Hcon].
  unfold observed in Ho, Ho2. injection Ho as H1 H2 H3 H4 H5. rewrite H1, H2, H3, H4, H5, Hcon in Ho2.
  injection Ho2 as G1 G2 G3 G4 G5. by split_and!.
Qed.

(** A resize completes: from any accepted connection, after [begin_resize] a client
    that answers the Demand Active, in whatever packets and interleaved with whatever
    traffic on other channels or stray Data PDUs (such as retransmitted finalization),
    is accepted again with the new size, the capabilities it now confirms, and its
    name and static channels unchanged. *)
Theorem connector_resizes (s : connection) (w h : Z) (rs : list (list SendData))
    (n : option NsCodecNegotiated) (m : option Z) :
  state (acceptor s) = Accepted → activates n m (mjoin rs) → react_groups_ok rs →
  let s' := run_calls (CallResize w h :: (CallStep ∘ packet <$> rs)) s in
  state (acceptor s') = Accepted ∧ panicked s' = panicked s ∧ approved s' = approved s
  ∧ accepted s' = accepted s
      ++ [connection_of w h (a_client_name (acceptor s)) (static_channel_names (acceptor s)) n m].
Proof.
  intros Es Hrs Hr. cbn zeta.
  change (run_calls (CallResize w h :: (CallStep ∘ packet <$> rs)) s) with
    (run_calls (CallStep ∘ packet <$> rs) (run_call s (CallResize w h))).
  set (a1 := set_state WaitConfirmActive (set_buf [] (set_size w h (acceptor s)))).
  assert (acceptor (run_call s (CallResize w h)) = a1
    ∧ observed (run_call s (CallResize w h)) = observed s) as [E1 O1].
  { cbn [run_call]. unfold begin_resize, mbind, act_bind, get. rewrite Es. split; [done|].
    unfold observed, modify, mret, act_ret. cbn iota beta.
    cbn [received approved declined accepted panicked is_panic]. by rewrite orb_false_r. }
  set (s1 := run_call s _) in *. clearbody s1.
  destruct (react_run a1 n m rs s1) as [Hd Ho]; [by rewrite E1|by rewrite E1|exact Hr|].
  set (s2 := run_calls _ s1) in *. clearbody s2. apply react_accepted in Hd as [Hs Hcon].
  unfold observed in O1, Ho. injection O1 as H1 H2 H3 H4 H5. rewrite H1, H2, H3, H4, H5, Hcon in Ho.
  injection Ho as G1 G2 G3 G4 G5. by split_and!.
Qed.

(** ** Authentication and robustness *)

(** The authentication gate: whatever the client sends and in whatever order the
    server steps, approves, rejects or resizes, the acceptor goes past the login (and
    reports an accepted connection) only after the server approved the credentials of
    the one Client Info it received; once a pending login is rejected the acceptor
    stays rejected; and when NLA is required, every state past the negotiation is one
    in which CredSSP was negotiated, with a protocol the client offered. *)
Theorem connector_auth_gate (w h : Z) (nla : bool) (cs : list call) :
  Forall call_ok cs →
  let s := run_calls cs (connect (with_require_nla nla (Acceptor_new w h))) in
  (post_auth (acceptor s) ∨ accepted s ≠ [] → ∃ c, received s = Some c ∧ approved s = Some c)
  ∧ (declined s = true → state (acceptor s) = Rejected ∧ accepted s = [])
  ∧ (negotiated (acceptor s) →
       (nla = true → requires_credssp (acceptor s) = true)
       ∧ protocol_contains (client_requested (acceptor s)) (selected_protocol (acceptor s)) = true).
Proof.
  intros Hcs s. assert (run_inv nla s) as [Hok Hn Hap Hna Hpe Hde Hpa]
    by (apply run_calls_inv; [done|apply (connect_inv (with_require_nla nla _)); [apply new_acceptor_ok|done]]).
  split_and!.
  - intros H. apply Hap. destruct (decide (post_auth (acceptor s))) as [|Hp]; [done|].
    destruct H as [|H]; [done|]. by destruct (Hna Hp).
  - intros Hd. specialize (Hde Hd). split; [done|]. apply Hna. unfold post_auth. rewrite Hde. tauto.
  - intros Hg. destruct Hok as [_ Hok]. specialize (Hok Hg) as [H1 H2].
    split; [|done]. intros Ht. apply H1. congruence.
Qed.

(** The acceptor is robust: whatever bytes the client sends and whatever the server
    calls, no call panics, the loops over packed PDUs end, the reassembly buffer stays
    within 1 MiB, at most 31 static channels are recorded, and the codec parameters
    taken from the client are in range. *)
Theorem connector_robust (w h : Z) (nla : bool) (cs : list call) :
  Forall call_ok cs →
  let s := run_calls cs (connect (with_require_nla nla (Acceptor_new w h))) in
  panicked s = false
  ∧ len (confirm_active_buf (acceptor s)) ≤ MAX_CONFIRM_ACTIVE_LEN
  ∧ len (static_channel_names (acceptor s)) ≤ CHANNELS_MAX
  ∧ match nscodec (acceptor s) with
    | Some c => u8_ok (codec_id c) ∧ 1 ≤ color_loss_level c ≤ 7 | None => True end
  ∧ match max_request_size (acceptor s) with Some v => 0 < v < 2 ^ 32 | None => True end.
Proof.
  intros Hcs s. assert (run_inv nla s) as [[(_ & H) _] _ _ _ _ _ Hpa]
    by (apply run_calls_inv; [done|apply (connect_inv (with_require_nla nla _)); [apply new_acceptor_ok|done]]).
  by split.
Qed.

(** ** A lost answer *)

Lemma decode_request_noise b l c :
  cursor_ok c → rest c = b :: l → DomainMcsPdu_from_u8 (Z.shiftr b 2) ≠ Some PduSendDataRequest →
  ∃ e, decode_request_from_cursor c = Err e.
Proof.
  intros Hc Hr Hb. unfold decode_request_from_cursor, SendData_decode_from_cursor, read_choice_byte,
    Per.read_choice. destruct (read_u8_reads b l c Hc Hr) as (c' & E & _).
  unfold mbind, reader_bind. rewrite E. unfold reject_if.
  rewrite bool_decide_true by done. by eexists.
Qed.

(** The handler of one Send Data Request. *)
Definition react_one (a : Acceptor) (d : SendData) : act StepResult :=
  match state a with
  | WaitConfirmActive => on_confirm_active_send_data d
  | WaitFinalization g => on_finalization_send_data d g
  | _ => throw NotReady
  end.

Lemma len_encode_request d : send_ok d → 1 ≤ len (encode_request d) < 2 ^ 16.
Proof.
  intros ((_ & _ & Hl) & _). pose proof (len_SendData_encode PduSendDataRequest d).
  unfold encode_request. lia.
Qed.

(** A step on a packet that starts with [d]: its handler, then the loop on the rest. *)
Lemma step_first_pdu d tail Q E a :
  match state a with WaitConfirmActive | WaitFinalization _ => True | _ => False end →
  send_ok d → len tail < 2 ^ 61 →
  wp (react_one a d) (λ x a', ∀ fuel c, cursor_ok c → rest c = tail → len tail ≤ Z.of_nat fuel →
    wp (match event x with
        | EvAccepted y => mret (with_event (response x) (EvAccepted y))
        | _ => reactivation_loop fuel c (response x)
        end) Q E a') E a →
  wp (step (wrap_data (encode_request d ++ tail))) Q E a.
Proof.
  intros Ha Hd Hl H. pose proof (len_encode_request d Hd) as Hlen. pose proof (len_nonneg tail).
  unfold step. apply wp_bind, wp_get.
  cut (wp (step_reactivation (wrap_data (encode_request d ++ tail))) Q E a);
    [intros Hx; destruct (state a); try (exfalso; exact Ha); exact Hx|].
  unfold step_reactivation. apply wp_bind.
  eapply wp_decoded_Ok; [apply unwrap_wrap_data; rewrite len_app; lia|].
  set (payload := encode_request d ++ tail).
  assert (cursor_ok (cursor_new payload)) as Hc0
    by (apply cursor_new_ok; unfold payload; rewrite len_app; lia).
  assert (rest (cursor_new payload) = payload) as Hr0 by apply drop_0.
  assert (∃ f, length payload = S f) as [f Hf].
  { exists (length payload - 1)%nat. unfold payload, len in *. rewrite length_app. lia. }
  rewrite Hf.
  cbn [reactivation_loop]. rewrite (remaining_rest _ Hc0), Hr0.
  rewrite (proj2 (Z.ltb_lt _ _)) by (unfold payload; rewrite len_app; lia).
  apply wp_bind, wp_get. destruct Hd as (Hsd & Hcomp & _).
  unfold react_one in H. destruct (state a) eqn:Es; try done.
  all: apply wp_bind; (eapply wp_read; [rewrite Hr0; by apply SendData_reads|done|]); intros c1 Hc1 Hr1.
  all: apply wp_bind, wp_get, wp_bind; rewrite Es; apply wp_fmap.
  all: eapply wp_weaken; [exact H| |done]; intros x a' Hx; apply Hx; try done.
  all: unfold payload in Hf; rewrite length_app in Hf; unfold len in *; lia.
Qed.

(** An error loses the answers to the PDUs before it: when a packet holds the Confirm
    Active and then bytes that are no Send Data Request, the step fails, so that the
    server's Synchronize and Cooperate are not sent, but the acceptor is left in the
    finalization phase, where the same Confirm Active sent again is answered with
    nothing: a client that waits for the server's Synchronize waits forever. *)
Theorem reactivation_error_loses_answers (a : Acceptor) (d : SendData) (c : ConfirmActive)
    (b : Z) (l : bytes) :
  state a = WaitConfirmActive → confirm_active_buf a = [] →
  send_ok d → sd_channel_id d = IO_CHANNEL_ID → ConfirmActive_decode (sd_data d) = Ok c →
  DomainMcsPdu_from_u8 (Z.shiftr b 2) ≠ Some PduSendDataRequest → len l < 2 ^ 60 →
  ∃ a' e, step (wrap_data (encode_request d ++ b :: l)) a = (a', Err e)
    ∧ state a' = WaitFinalization false
    ∧ step (packet [d]) a' = (a', Ok (just [])).
Proof.
  intros Es Hb Hd Hch Hdec Hnoise Hl. pose proof Hd as ((_ & _ & Hld) & _ & Hbd).
  assert (wp (step (wrap_data (encode_request d ++ b :: l))) (λ _ _, False)
    (λ a', state a' = WaitFinalization false) a) as H1.
  { apply step_first_pdu; [by rewrite Es|done|rewrite len_cons; lia|]. unfold react_one. rewrite Es.
    pose proof (ConfirmActive_decode_spec (sd_data d) Hbd ltac:(lia)) as Hcaps. rewrite Hdec in Hcaps.
    destruct (parse_client_nscodec_safe _ 3 ltac:(lia) Hcaps) as (n & Hn & _).
    destruct (parse_client_max_request_size_safe _ Hcaps) as (m & Hm & _).
    eapply wp_weaken; [by apply (on_confirm_active_confirms n m d c)| |done].
    intros x a1 [-> ->] fuel c1 Hc1 Hr1 Hf. pose proof (len_nonneg l). rewrite len_cons in Hf.
    destruct (decode_request_noise b l c1 Hc1 Hr1 Hnoise) as [e He].
    destruct fuel; [lia|]. cbn [reactivation_loop].
    rewrite (remaining_rest _ Hc1), Hr1, (proj2 (Z.ltb_lt _ _)) by (rewrite len_cons; lia).
    apply wp_bind, wp_get, wp_bind. unfold wp, from_cursor, decoded. by rewrite He. }
  unfold wp in H1. destruct (step _ a) as [a' [x|e|]] eqn:E1; [done| |done].
  exists a', e. split; [done|]. split; [done|].
  assert (succeeds (step (packet [d])) (λ x a'', a'' = a' ∧ x = just []) a') as H2.
  { apply (step_first_pdu d []); [by rewrite H1|done|done|]. unfold react_one. rewrite H1.
    unfold on_finalization_send_data. rewrite Hch. apply wp_bind.
    eapply wp_decoded_Ok; [by eapply ConfirmActive_other_pdu_type|]. cbn beta iota.
    apply wp_bind, wp_modify, wp_ret. intros fuel c1 Hc1 Hr1 _. cbn beta iota zeta.
    destruct fuel; cbn [reactivation_loop]; rewrite (remaining_rest _ Hc1), Hr1; apply wp_ret;
      (split; [|done]); rewrite <-H1; by destruct a'. }
  unfold wp in H2. destruct (step (packet [d]) a') as [a'' [x|e2|]]; [|done..].
  by destruct H2 as [-> ->].
Qed.

(** ** Examples *)

Definition sample_client : client :=
  {| c_request := {| cr_cookie := None; cr_flags := 0; cr_protocol := 3 |};
     c_target := DomainParameters_target; c_min := DomainParameters_min; c_max := DomainParameters_max;
     c_blocks := sample_client_blocks; c_erect := {| sub_height := 1; sub_interval := 1 |};
     c_joins := (λ i, {| cjr_initiator := USER_CHANNEL_ID; cjr_channel_id := i |})
                <$> [1002; 1003; 1004; 1005];
     c_initiator := USER_CHANNEL_ID; c_info := sample_info |}.

Definition on_io (data : bytes) : SendData :=
  {| sd_initiator := USER_CHANNEL_ID; sd_channel_id := IO_CHANNEL_ID; sd_data := data;
     sd_complete := true |}.
Definition on_io_data (t : ShareDataPduType) (body : bytes) : SendData :=
  on_io (DataPdu_encode {| d_share_id := SHARE_ID; d_pdu_source := USER_CHANNEL_ID;
                           stream_id := STREAM_UNDEFINED; pdu_type2 := t; d_body := body |}).

(** A Confirm Active with one capability set, a 64 KiB fragment limit. *)
Definition sample_confirm : bytes :=
  let body := write_u16_le 0x3EA ++ write_u16_le 0 ++ write_u16_le 12 ++ write_u16_le 1 ++ write_u16_le 0
    ++ RawCapabilitySet_write {| set_type := CAPSET_MULTIFRAGMENT_UPDATE; body := write_u32_le 65536 |} in
  ShareControlHeader_write
    {| pdu_type := PduConfirmActive; pdu_source := USER_CHANNEL_ID; share_id := SHARE_ID |} (len body)
  ++ body.

(** The activation PDUs, with a chunk of a static channel between them, as one client
    batches them. *)
Definition sample_activation : list (list SendData) :=
  [ [ {| sd_initiator := USER_CHANNEL_ID; sd_channel_id := 1005; sd_data := [1; 2; 3]; sd_complete := true |};
      on_io sample_confirm ];
    [ on_io_data TSynchronize (SynchronizePdu_encode_body 1002);
      on_io_data TControl (ControlPdu_encode_body {| action := COOPERATE; grant_id := 0; control_id := 0 |});
      on_io_data TControl (ControlPdu_encode_body {| action := REQUEST_CONTROL; grant_id := 0; control_id := 0 |});
      on_io_data TFontList (FontPdu_encode_body font_map_default) ] ].

Lemma sample_data_ok t body : len body ≤ 16 →
  DataPdu_ok {| d_share_id := SHARE_ID; d_pdu_source := USER_CHANNEL_ID;
                stream_id := STREAM_UNDEFINED; pdu_type2 := t; d_body := body |}.
Proof. intros H. split; [done|]. split; [done|]. cbn [d_body]. lia. Qed.

Lemma sample_activates : activates None (Some 65536) (mjoin sample_activation).
Proof.
  apply act_other; [done|].
  eapply act_confirm; [done|vm_compute; reflexivity|vm_compute; reflexivity|vm_compute; reflexivity|].
  do 3 (eapply fin_data; [done|reflexivity|by apply sample_data_ok|done|]).
  eapply fin_font; [done|reflexivity|by apply sample_data_ok|done].
Qed.

Lemma sample_activation_ok : react_groups_ok sample_activation.
Proof.
  unfold react_groups_ok, send_ok, SendData_ok. repeat constructor; try done.
  all: apply (bool_decide_unpack _); vm_compute; exact I.
Qed.

Lemma sample_client_ok : client_ok true sample_client.
Proof.
  unfold client_ok. split_and!; try (apply (bool_decide_unpack _); vm_compute; exact I); try done.
Qed.

Lemma sample_groups_ok : domain_groups_ok [c_domain_pdus sample_client].
Proof. unfold domain_groups_ok. repeat constructor; done. Qed.

Lemma connector_accepts_witness :
  accepted (run_calls (honest_calls sample_client [c_domain_pdus sample_client] sample_activation)
      (connect (with_require_nla true (Acceptor_new 1280 720))))
    = [connection_of 1280 720 (lit "pc") [lit "rdpsnd"; lit "drdynvc"] None (Some 65536)].
Proof.
  apply (connector_accepts 1280 720 true sample_client [c_domain_pdus sample_client] sample_activation
    None (Some 65536)); [exact sample_client_ok|apply app_nil_r|exact sample_groups_ok
    |exact sample_activates|exact sample_activation_ok].
Defined.

(** That connection. *)
Definition sample_session : connection :=
  run_calls (honest_calls sample_client [c_domain_pdus sample_client] sample_activation)
    (connect (with_require_nla true (Acceptor_new 1280 720))).

Lemma sample_session_eq :
  sample_session = run_calls (honest_calls sample_client [c_domain_pdus sample_client] sample_activation)
    (connect (with_require_nla true (Acceptor_new 1280 720))).
Proof. reflexivity. Qed.
Lemma sample_session_accepted : state (acceptor sample_session) = Accepted.
Proof. vm_compute. reflexivity. Qed.

Lemma connector_resizes_witness :
  accepted (run_calls (CallResize 1920 1080 :: (CallStep ∘ packet <$> sample_activation)) sample_session)
  = accepted sample_session
    ++ [connection_of 1920 1080 (a_client_name (acceptor sample_session))
          (static_channel_names (acceptor sample_session)) None (Some 65536)].
Proof.
  destruct (connector_resizes sample_session 1920 1080 sample_activation None (Some 65536)
    sample_session_accepted sample_activates sample_activation_ok) as (_ & _ & _ & E).
  exact E.
Defined.

Lemma sample_calls_ok :
  Forall call_ok (honest_calls sample_client [c_domain_pdus sample_client] sample_activation).
Proof.
  apply (bool_decide_unpack _). vm_compute. exact I.
Qed.

Lemma connector_auth_gate_witness :
  post_auth (acceptor sample_session)
  ∧ ∃ c, received sample_session = Some c ∧ approved sample_session = Some c.
Proof.
  assert (post_auth (acceptor sample_session)) as H by (vm_compute; exact I).
  split; [exact H|].
  pose proof (connector_auth_gate 1280 720 true
    (honest_calls sample_client [c_domain_pdus sample_client] sample_activation) sample_calls_ok) as G.
  cbv zeta in G. rewrite <-sample_session_eq in G. apply (proj1 G). left. exact H.
Defined.

Lemma connector_robust_witness : panicked sample_session = false.
Proof.
  pose proof (connector_robust 1280 720 true
    (honest_calls sample_client [c_domain_pdus sample_client] sample_activation) sample_calls_ok) as G.
  cbv zeta in G. rewrite <-sample_session_eq in G. exact (proj1 G).
Defined.

(** The acceptor waiting for the Confirm Active, and a packet with one trailing byte. *)
Definition waiting : Acceptor := set_state WaitConfirmActive (Acceptor_new 1280 720).

Lemma reactivation_error_loses_answers_witness :
  ∃ a' e, step (wrap_data (encode_request (on_io sample_confirm) ++ [0])) waiting = (a', Err e)
    ∧ state a' = WaitFinalization false
    ∧ step (packet [on_io sample_confirm]) a' = (a', Ok (just [])).
Proof.
  assert (send_ok (on_io sample_confirm)) as H.
  { unfold send_ok, SendData_ok. apply (bool_decide_unpack _). vm_compute. exact I. }
  assert (∃ c, ConfirmActive_decode (sd_data (on_io sample_confirm)) = Ok c) as [c Hc]
    by (eexists; vm_compute; reflexivity).
  apply (reactivation_error_loses_answers waiting (on_io sample_confirm) c 0 []);
    [done|done|exact H|done|exact Hc|done|done].
Defined.
