(* ===== verification/RdpsndPdu.v ===== *)
(** [rdpcore-rdpsnd/src/pdu.rs]: the MS-RDPEA wire format of the audio output
    channel: format lists, training, the two wave encodings, negotiation. *)
From Stdlib Require Import Sorted.
From S2P Require Import Prelude Cursor.

Definition SNDC_WAVE : Z := 0x02.
Definition SNDC_WAVE2 : Z := 0x0D.
Definition SNDC_WAVECONFIRM : Z := 0x05.
Definition SNDC_TRAINING : Z := 0x06.
Definition SNDC_FORMATS : Z := 0x07.
Definition SNDC_QUALITYMODE : Z := 0x0C.
Definition VERSION_V2 : Z := 0x02.
Definition VERSION_V6 : Z := 0x06.
Definition VERSION_V8 : Z := 0x08.
Definition SERVER_VERSION : Z := VERSION_V8.
Definition WAVE_FORMAT_PCM : Z := 0x0001.

(** ** Data *)

Record AudioFormat := {
  format_tag : Z; n_channels : Z; n_samples_per_sec : Z; n_avg_bytes_per_sec : Z;
  n_block_align : Z; bits_per_sample : Z; extra_data : option bytes }.

Global Instance AudioFormat_eq_dec : EqDecision AudioFormat.
Proof. solve_decision. Defined.

Record ClientAudioFormats := { caf_formats : list AudioFormat; caf_version : Z }.

Record NegotiatedFormat := { format : AudioFormat; format_no : Z }.

Inductive ClientMessage :=
  | AudioFormats (f : ClientAudioFormats)
  | TrainingConfirm
  | QualityMode
  | WaveConfirm (timestamp block_no : Z)
  | Other.

(** ** Operations *)

Definition write_header (msg_type body_len : Z) : bytes :=
  write_u8 msg_type ++ write_u8 0 ++ write_u16_le (as_u16 body_len).

(** [u16] and [u32] products, with the wrap-around of a release build. *)
Definition AudioFormat_pcm (n_channels n_samples_per_sec bits_per_sample : Z) : AudioFormat :=
  let block_align := as_u16 (n_channels * (bits_per_sample / 8)) in
  {| format_tag := WAVE_FORMAT_PCM; n_channels := n_channels;
     n_samples_per_sec := n_samples_per_sec;
     n_avg_bytes_per_sec := as_u32 (n_samples_per_sec * block_align);
     n_block_align := block_align; bits_per_sample := bits_per_sample; extra_data := None |}.

Definition AudioFormat_encode (f : AudioFormat) : bytes :=
  let extra := default [] (extra_data f) in
  write_u16_le (format_tag f) ++ write_u16_le (n_channels f) ++
  write_u32_le (n_samples_per_sec f) ++ write_u32_le (n_avg_bytes_per_sec f) ++
  write_u16_le (n_block_align f) ++ write_u16_le (bits_per_sample f) ++
  write_u16_le (as_u16 (len extra)) ++ write_slice extra.

Definition AudioFormat_decode : reader AudioFormat :=
  format_tag ← read_u16_le;
  n_channels ← read_u16_le;
  n_samples_per_sec ← read_u32_le;
  n_avg_bytes_per_sec ← read_u32_le;
  n_block_align ← read_u16_le;
  bits_per_sample ← read_u16_le;
  cb_size ← read_u16_le;
  extra_data ← (if cb_size =? 0 then mret None else e ← read_slice cb_size; mret (Some e));
  mret {| format_tag := format_tag; n_channels := n_channels;
          n_samples_per_sec := n_samples_per_sec; n_avg_bytes_per_sec := n_avg_bytes_per_sec;
          n_block_align := n_block_align; bits_per_sample := bits_per_sample;
          extra_data := extra_data |}.

Definition negotiation_eq (f other : AudioFormat) : bool :=
  (format_tag f =? format_tag other) && (n_channels f =? n_channels other)
  && (n_samples_per_sec f =? n_samples_per_sec other)
  && (bits_per_sample f =? bits_per_sample other)
  && bool_decide (extra_data f = extra_data other).

Definition formats_body (formats : list AudioFormat) : bytes :=
  write_u32_le 0 ++ write_u32_le 0 ++ write_u32_le 0 ++ write_u16_le 0 ++
  write_u16_le (as_u16 (len formats)) ++ write_u8 0 ++ write_u16_le SERVER_VERSION ++
  write_u8 0 ++ concat (AudioFormat_encode <$> formats).

Definition encode_server_audio_formats (formats : list AudioFormat) : bytes :=
  let body := formats_body formats in
  write_header SNDC_FORMATS (len body) ++ write_slice body.

Definition MIN_FORMAT_BYTES : Z := 2 + 2 + 4 + 4 + 2 + 2 + 2.

Definition decode_client_audio_formats_from : reader ClientAudioFormats :=
  _ ← read_u32_le;
  _ ← read_u32_le;
  _ ← read_u32_le;
  _ ← read_u16_be;
  count ← read_u16_le;
  _ ← read_u8;
  version ← read_u16_le;
  _ ← read_u8;
  ensure_count count MIN_FORMAT_BYTES "rdpsnd.formatCount" ;;
  formats ← read_many (Z.to_nat count) AudioFormat_decode;
  mret {| caf_formats := formats; caf_version := version |}.

Definition decode_client_audio_formats (body : bytes) : res DecodeError ClientAudioFormats :=
  run decode_client_audio_formats_from body.

Definition encode_training : bytes :=
  write_header SNDC_TRAINING 4 ++ write_u16_le 0 ++ write_u16_le 0.

Definition MAX_WAVE2_CHUNK_BYTES : Z := 65535 - 12.
Definition MAX_WAVE_INFO_CHUNK_BYTES : Z := 65535 - 8.

Definition encode_wave_info (format_no block_no timestamp_ms : Z) (pcm : bytes)
  : res DecodeError bytes :=
  debug_assert (4 <=? len pcm) ;;
  debug_assert (len pcm <=? MAX_WAVE_INFO_CHUNK_BYTES) ;;
  first ← slice pcm 0 4;
  mret (write_header SNDC_WAVE (8 + len pcm) ++ write_u16_le timestamp_ms ++
        write_u16_le format_no ++ write_u8 block_no ++ write_slice [0; 0; 0] ++
        write_slice first).

Definition encode_wave_rest (pcm : bytes) : res DecodeError bytes :=
  debug_assert (4 <=? len pcm) ;;
  tail ← slice pcm 4 (len pcm);
  mret (write_u32_le 0 ++ write_slice tail).

Definition encode_wave2 (format_no block_no timestamp_ms : Z) (data : bytes)
  : res DecodeError bytes :=
  debug_assert (len data <=? MAX_WAVE2_CHUNK_BYTES) ;;
  mret (write_header SNDC_WAVE2 (12 + len data) ++ write_u16_le (as_u16 timestamp_ms) ++
        write_u16_le format_no ++ write_u8 block_no ++ write_slice [0; 0; 0] ++
        write_u32_le timestamp_ms ++ write_slice data).

(** The first server format that matches the client's [i]-th one. *)
Definition negotiate_one (server_formats : list AudioFormat) (i : nat) (c : AudioFormat)
  : option NegotiatedFormat :=
  s ← snd <$> list_find (λ s, negotiation_eq s c = true) server_formats;
  mret {| format := s; format_no := as_u16 (Z.of_nat i) |}.

Definition negotiate_formats (server_formats client_formats : list AudioFormat)
  : list NegotiatedFormat :=
  omap id (imap (negotiate_one server_formats) client_formats).

(** The [match msg_type] on the body. *)
Definition decode_client_body (msg_type : Z) (body : bytes) : res DecodeError ClientMessage :=
  if msg_type =? SNDC_FORMATS then AudioFormats <$> decode_client_audio_formats body
  else if msg_type =? SNDC_TRAINING then Ok TrainingConfirm
  else if msg_type =? SNDC_QUALITYMODE then Ok QualityMode
  else if msg_type =? SNDC_WAVECONFIRM then
    run (timestamp ← read_u16_le; block_no ← read_u8; mret (WaveConfirm timestamp block_no)) body
  else Ok Other.

Definition decode_client_message_from : reader ClientMessage :=
  msg_type ← read_u8;
  _ ← read_u8;
  body_len ← read_u16_le;
  body ← read_slice body_len;
  lift_res (decode_client_body msg_type body).

Definition decode_client_message (input : bytes) : res DecodeError ClientMessage :=
  run decode_client_message_from input.

(** ** Well-formed formats *)

(** The ranges of the Rust types; the extra data fits its 16-bit length and is
    [None] rather than empty, the form [decode] produces. *)
Definition AudioFormat_ok (f : AudioFormat) : Prop :=
  u16_ok (format_tag f) ∧ u16_ok (n_channels f) ∧ u32_ok (n_samples_per_sec f)
  ∧ u32_ok (n_avg_bytes_per_sec f) ∧ u16_ok (n_block_align f) ∧ u16_ok (bits_per_sample f)
  ∧ match extra_data f with Some e => e ≠ [] ∧ len e < 2 ^ 16 | None => True end.

(** ** Lemmas *)

Lemma len_write_header t n : len (write_header t n) = 4.
Proof. done. Qed.

Lemma len_AudioFormat_encode f : len (AudioFormat_encode f) = 18 + len (default [] (extra_data f)).
Proof. unfold AudioFormat_encode, write_slice. autorewrite with len. lia. Qed.
#[local] Hint Rewrite len_write_header len_AudioFormat_encode : len.

Lemma AudioFormat_reads f l :
  AudioFormat_ok f → reads AudioFormat_decode (AudioFormat_encode f ++ l) f l.
Proof.
  intros (? & ? & ? & ? & ? & ? & He). unfold AudioFormat_decode, AudioFormat_encode.
  rewrite <-!(assoc_L (++)). do 6 reads_step. destruct f as [? ? ? ? ? ? [e|]]; cbn in *.
  - destruct He as [Hne He]. pose proof (len_nonneg e). rewrite as_u16_id by lia.
    eapply reads_bind; [by apply read_u16_le_write|]. cbn beta.
    destruct (Z.eqb_spec (len e) 0) as [E|_]; [by apply len_zero_nil in E|].
    eapply reads_bind; [reads_steps; reflexivity|]. by apply reads_ret.
  - eapply reads_bind; [by apply read_u16_le_write|]. by apply reads_ret.
Qed.

Lemma AudioFormat_decode_safe : safe AudioFormat_decode AudioFormat_ok.
Proof.
  unfold AudioFormat_decode. do 7 safe_step.
  eapply safe_bind with (P := λ e, match e with Some e => e ≠ [] ∧ len e < 2 ^ 16 | None => True end).
  - destruct (Z.eqb_spec a5 0); [by apply safe_ret|].
    eapply safe_bind; [apply read_slice_safe; lia|]. intros e [He _]. apply safe_ret.
    split; [intros ->; rewrite (@len_nil Z) in He; lia|lia].
  - intros e He. apply safe_ret. unfold AudioFormat_ok; cbn. tauto.
Qed.

Lemma formats_length fs : 18 * len fs ≤ len (concat (AudioFormat_encode <$> fs)).
Proof.
  induction fs as [|f fs IH]; [done|]. rewrite fmap_cons. cbn [concat].
  autorewrite with len. pose proof (len_nonneg (default [] (extra_data f))). lia.
Qed.

(** Decoding the body of a format list. *)
Lemma formats_body_reads fs :
  Forall AudioFormat_ok fs → len fs < 2 ^ 16 → len (formats_body fs) < 2 ^ 62 →
  decode_client_audio_formats (formats_body fs)
  = Ok {| caf_formats := fs; caf_version := SERVER_VERSION |}.
Proof.
  intros Hok Hn Hl. pose proof (len_nonneg fs).
  eapply (reads_run _ _ _ []); [lia|].
  unfold decode_client_audio_formats_from, formats_body in *. rewrite as_u16_id by lia.
  set (cs := concat _) in *. rewrite <-(app_nil_r cs).
  do 3 reads_step. eapply reads_bind; [apply (read_u16_be_write 0); done|]. cbn beta.
  do 4 reads_step. eapply reads_bind.
  { apply ensure_count_reads; [|autorewrite with len in *; lia].
    pose proof (formats_length fs). subst cs. unfold MIN_FORMAT_BYTES.
    autorewrite with len. lia. }
  cbn beta. eapply reads_bind; [|by apply reads_ret].
  unfold len. rewrite Nat2Z.id. apply read_many_reads. eapply Forall_impl; [exact Hok|].
  intros. by apply AudioFormat_reads.
Qed.

(** Any message: a header that announces the body's length exactly, the body. *)
Lemma decode_client_message_header t body m :
  len body < 2 ^ 16 → decode_client_body t body = Ok m →
  decode_client_message (write_header t (len body) ++ body) = Ok m.
Proof.
  intros Hl Hm. pose proof (len_nonneg body). unfold write_header. rewrite as_u16_id by lia.
  eapply (reads_run _ _ _ []); [autorewrite with len; lia|].
  unfold decode_client_message_from. rewrite <-!(assoc_L (++)), <-(app_nil_r body).
  do 2 reads_step. rewrite app_nil_r at 1. reads_step. eapply reads_bind.
  { by apply read_slice_reads. }
  cbn beta. rewrite ?app_nil_r. intros c Hc Hr. unfold lift_res. rewrite Hm. by exists c.
Qed.

Lemma decode_client_audio_formats_safe :
  safe decode_client_audio_formats_from (λ f, Forall AudioFormat_ok (caf_formats f)).
Proof.
  unfold decode_client_audio_formats_from. do 9 safe_step.
  eapply safe_bind; [apply read_many_safe, AudioFormat_decode_safe|].
  intros fs [_ Hfs]. by apply safe_ret.
Qed.

(** What a decoded message guarantees to the state machine. *)
Definition ClientMessage_ok (m : ClientMessage) : Prop :=
  match m with
  | AudioFormats f => Forall AudioFormat_ok (caf_formats f)
  | WaveConfirm t b => u16_ok t ∧ u8_ok b
  | _ => True
  end.

Lemma decode_client_body_safe t body :
  bytes_ok body → len body < 2 ^ 63 →
  match decode_client_body t body with
  | Ok m => ClientMessage_ok m | Err _ => True | Panic => False end.
Proof.
  intros Hb Hl. unfold decode_client_body, decode_client_audio_formats.
  destruct (t =? SNDC_FORMATS).
  { pose proof (safe_run _ _ body decode_client_audio_formats_safe Hb Hl) as H.
    by destruct (run _ body). }
  destruct (t =? SNDC_TRAINING); [done|]. destruct (t =? SNDC_QUALITYMODE); [done|].
  destruct (t =? SNDC_WAVECONFIRM); [|done]. apply safe_run; [|done..]. safe_steps. done.
Qed.

Lemma snd_client_message_safe input :
  bytes_ok input → len input < 2 ^ 63 →
  match decode_client_message input with
  | Ok m => ClientMessage_ok m | Err _ => True | Panic => False end.
Proof.
  intros Hb Hl. apply safe_run; [|done..]. unfold decode_client_message_from.
  do 3 safe_step. eapply safe_bind; [apply read_slice_safe; lia|]. intros body [Hbl Hbb].
  apply safe_lift_res. apply decode_client_body_safe; [done|lia].
Qed.

(** ** Negotiation *)

Lemma negotiate_one_Some server i c n :
  negotiate_one server i c = Some n ↔
  ∃ j, list_find (λ s, negotiation_eq s c = true) server = Some (j, format n)
    ∧ format_no n = as_u16 (Z.of_nat i).
Proof.
  unfold negotiate_one. split.
  - destruct (list_find _ server) as [[j s]|] eqn:E; [|done]. cbn. intros [= <-]. by exists j.
  - intros (j & -> & E). cbn. destruct n; cbn in *. by rewrite E.
Qed.

Lemma elem_of_negotiate server client n :
  n ∈ negotiate_formats server client ↔
  ∃ i c, client !! i = Some c ∧ negotiate_one server i c = Some n.
Proof.
  unfold negotiate_formats. rewrite list_elem_of_omap. split.
  - intros (x & Hx & E). cbn in E. subst x.
    apply elem_of_lookup_imap_1 in Hx as (i & c & E & Hc). by exists i, c.
  - intros (i & c & Hc & E). exists (Some n). split; [|done]. rewrite <-E.
    by apply elem_of_lookup_imap_2.
Qed.

Lemma omap_id_cons {A} (x : option A) l :
  omap id (x :: l) = match x with Some a => a :: omap id l | None => omap id l end.
Proof. done. Qed.

(** The entries come in the client's order. *)
Lemma negotiate_sorted server client k :
  Z.of_nat k + len client ≤ 2 ^ 16 →
  StronglySorted Z.lt (format_no <$> omap id (imap (λ i, negotiate_one server (k + i)) client)).
Proof.
  revert k; induction client as [|c client IH]; intros k Hk; [constructor|].
  rewrite len_cons in Hk. pose proof (len_nonneg client). rewrite imap_cons.
  rewrite (imap_ext _ (λ i, negotiate_one server (S k + i))) by (intros; cbn; f_equal; lia).
  specialize (IH (S k) ltac:(lia)).
  rewrite omap_id_cons.
  destruct (negotiate_one server (k + 0) c) as [n|] eqn:En; [|exact IH].
  rewrite fmap_cons. constructor; [exact IH|]. apply Forall_forall.
  intros z Hz. apply list_elem_of_fmap in Hz as (m & -> & Hm).
  apply list_elem_of_omap in Hm as (x & Hx & Ex). cbn in Ex. subst x.
  apply elem_of_lookup_imap_1 in Hx as (i & c' & Ei & Hi). symmetry in Ei.
  apply negotiate_one_Some in En as (_ & _ & ->). apply negotiate_one_Some in Ei as (_ & _ & ->).
  apply lookup_lt_Some in Hi. unfold len in Hk.
  rewrite !as_u16_id by lia. lia.
Qed.

(** Format negotiation answers exactly the formats both sides support, each
    under the client's own index for it (the [wFormatNo] every wave carries) and
    with the first server format that agrees with it on tag, channels, rate,
    sample width and extra data; nothing is listed twice and the client's order
    of preference is kept. *)
Theorem negotiate_formats_spec server client :
  len client < 2 ^ 16 →
  (∀ n, n ∈ negotiate_formats server client ↔
     ∃ c j, client !! Z.to_nat (format_no n) = Some c ∧ 0 ≤ format_no n
       ∧ server !! j = Some (format n) ∧ negotiation_eq (format n) c = true
       ∧ ∀ j' s', (j' < j)%nat → server !! j' = Some s' → negotiation_eq s' c = false)
  ∧ StronglySorted Z.lt (format_no <$> negotiate_formats server client).
Proof.
  intros Hl. split; [|apply (negotiate_sorted server client 0); lia].
  intros n. rewrite elem_of_negotiate. split.
  - intros (i & c & Hc & E). apply negotiate_one_Some in E as (j & E & Hi).
    apply list_find_Some in E as (Hj & Hm & Hfirst). pose proof (lookup_lt_Some _ _ _ Hc).
    unfold len in Hl. rewrite as_u16_id in Hi by lia. exists c, j.
    rewrite Hi, Nat2Z.id. split_and!; try done; [lia|]. intros j' s' Hj' Hs'.
    apply not_true_is_false. by eapply Hfirst.
  - intros (c & j & Hc & H0 & Hj & Hm & Hfirst). exists (Z.to_nat (format_no n)), c.
    split; [done|]. apply negotiate_one_Some. exists j. pose proof (lookup_lt_Some _ _ _ Hc).
    unfold len in Hl. rewrite as_u16_id by lia. split; [|lia]. apply list_find_Some.
    split_and!; [done..|]. intros j' s' Hs' Hj'. rewrite (Hfirst j' s'); done.
Qed.

Lemma negotiate_formats_spec_witness :
  negotiate_formats [AudioFormat_pcm 2 48000 16] [AudioFormat_pcm 1 8000 8; AudioFormat_pcm 2 48000 16]
    = [{| format := AudioFormat_pcm 2 48000 16; format_no := 1 |}]
  ∧ StronglySorted Z.lt (format_no <$> negotiate_formats [AudioFormat_pcm 2 48000 16]
       [AudioFormat_pcm 1 8000 8; AudioFormat_pcm 2 48000 16]).
Proof.
  split; [vm_compute; reflexivity|].
  exact (proj2 (negotiate_formats_spec [AudioFormat_pcm 2 48000 16]
    [AudioFormat_pcm 1 8000 8; AudioFormat_pcm 2 48000 16] ltac:(vm_compute; reflexivity))).
Defined.

(** The format list survives the wire: what a peer decodes from an encoded
    list (the two directions share the layout) is the list, with the version
    that selects Wave2 and Quality Mode, provided the body fits its 16-bit
    length. *)
Theorem audio_formats_roundtrip (formats : list AudioFormat) :
  Forall AudioFormat_ok formats → len (formats_body formats) < 2 ^ 16 →
  decode_client_message (encode_server_audio_formats formats)
  = Ok (AudioFormats {| caf_formats := formats; caf_version := VERSION_V8 |}).
Proof.
  intros Hok Hl. unfold encode_server_audio_formats, write_slice.
  apply decode_client_message_header; [done|]. unfold decode_client_body. cbn [Z.eqb SNDC_FORMATS].
  rewrite formats_body_reads; [done|done| |lia].
  pose proof (formats_length formats). unfold formats_body in Hl. autorewrite with len in Hl. lia.
Qed.

Lemma audio_formats_roundtrip_witness :
  let fs := [AudioFormat_pcm 2 48000 16;
             {| format_tag := 0x11; n_channels := 1; n_samples_per_sec := 8000;
                n_avg_bytes_per_sec := 4000; n_block_align := 256; bits_per_sample := 4;
                extra_data := Some [1; 2] |}] in
  decode_client_message (encode_server_audio_formats fs)
  = Ok (AudioFormats {| caf_formats := fs; caf_version := 8 |}).
Proof.
  intros fs. apply (audio_formats_roundtrip fs); [|vm_compute; reflexivity].
  repeat constructor; vm_compute; congruence.
Defined.

(** ** The waves, as a peer reads them *)

(** MS-RDPEA 2.2.3.10: format, block, time stamp, and the samples that fill the
    announced body. *)
Definition read_wave2 : reader (Z * Z * Z * bytes) :=
  t ← read_u8;
  _ ← read_u8;
  body_len ← read_u16_le;
  _ ← read_u16_le;
  format_no ← read_u16_le;
  block_no ← read_u8;
  _ ← read_slice 3;
  timestamp ← read_u32_le;
  data ← read_slice (body_len - 12);
  mret (format_no, block_no, timestamp, data).

(** MS-RDPEA 2.2.3.3: the first four bytes of samples and how many follow in
    the next PDU. *)
Definition read_wave_info : reader (Z * Z * Z * bytes * Z) :=
  t ← read_u8;
  _ ← read_u8;
  body_len ← read_u16_le;
  timestamp ← read_u16_le;
  format_no ← read_u16_le;
  block_no ← read_u8;
  _ ← read_slice 3;
  first ← read_slice 4;
  mret (format_no, block_no, timestamp, first, body_len - 12).

(** MS-RDPEA 2.2.3.4: four bytes of padding replace the first samples. *)
Definition read_wave (n : Z) : reader bytes := _ ← read_slice 4; read_slice n.

Lemma encode_wave2_reads fmt blk ts data :
  u16_ok fmt → u8_ok blk → u32_ok ts → len data ≤ MAX_WAVE2_CHUNK_BYTES →
  ∃ p, encode_wave2 fmt blk ts data = Ok p ∧ run read_wave2 p = Ok (fmt, blk, ts, data)
    ∧ len p = 16 + len data.
Proof.
  intros Hf Hb Ht Hd. unfold encode_wave2. rewrite (debug_assert_true (_ <=? _)) by lia.
  unfold MAX_WAVE2_CHUNK_BYTES in Hd. pose proof (len_nonneg data).
  eexists; split; [reflexivity|]. unfold write_slice, write_header.
  split; [|autorewrite with len; cbn; lia]. rewrite as_u16_id by lia.
  eapply (reads_run _ _ _ []); [autorewrite with len; cbn; lia|]. unfold read_wave2.
  rewrite <-!(assoc_L (++)), <-(app_nil_r data).
  do 2 reads_step. eapply reads_bind; [apply read_u16_le_write; autorewrite with len; lia|]. cbn beta.
  eapply reads_bind; [apply read_u16_le_write, as_u16_ok|]. cbn beta.
  do 2 reads_step. eapply reads_bind; [by apply read_slice_reads|]. cbn beta. reads_step.
  eapply reads_bind; [apply read_slice_reads; autorewrite with len; lia|].
  apply reads_ret_eq. by rewrite app_nil_r.
Qed.

Lemma encode_wave_info_reads fmt blk ts pcm :
  u16_ok fmt → u8_ok blk → u16_ok ts → 4 ≤ len pcm ≤ MAX_WAVE_INFO_CHUNK_BYTES →
  ∃ p q, encode_wave_info fmt blk ts pcm = Ok p ∧ encode_wave_rest pcm = Ok q
    ∧ run read_wave_info p = Ok (fmt, blk, ts, ztake 4 pcm, len pcm - 4)
    ∧ run (read_wave (len pcm - 4)) q = Ok (zdrop 4 pcm).
Proof.
  intros Hf Hb Ht Hd. unfold encode_wave_info, encode_wave_rest.
  rewrite !debug_assert_true by lia. unfold MAX_WAVE_INFO_CHUNK_BYTES in Hd.
  rewrite slice_to, slice_from by lia.
  assert (len (ztake 4 pcm) = 4) as E4 by (apply len_ztake; lia).
  assert (len (zdrop 4 pcm) = len pcm - 4) as Er by (apply len_zdrop; lia).
  revert E4 Er. generalize (ztake 4 pcm) (zdrop 4 pcm). intros first tail E4 Er.
  eexists _, _; split_and!; [reflexivity..| |]; unfold write_slice, write_header.
  - rewrite as_u16_id by lia.
    eapply (reads_run _ _ _ []); [autorewrite with len; cbn; lia|]. unfold read_wave_info.
    rewrite <-!(assoc_L (++)), <-(app_nil_r first). do 2 reads_step.
    eapply reads_bind; [apply read_u16_le_write; lia|]. cbn beta. do 3 reads_step.
    eapply reads_bind; [by apply (read_slice_reads 3 [0; 0; 0])|]. cbn beta.
    eapply reads_bind; [apply read_slice_reads; lia|].
    apply reads_ret_eq. rewrite ?app_nil_r. f_equal. lia.
  - eapply (reads_run _ _ _ []); [autorewrite with len; cbn; lia|]. unfold read_wave.
    rewrite <-(app_nil_r tail). eapply reads_bind; [by apply (read_slice_reads 4 (to_le 4 0))|].
    cbn beta. rewrite ?app_nil_r. rewrite <-(app_nil_r tail) at 1. apply read_slice_reads. lia.
Qed.
