(* ===== verification/AudioInput.v ===== *)
(** [rdpcore-rdpeai]: the microphone, its PDUs ([pdu.rs]) and [AudioInputHandler]
    ([lib.rs]), a handler of a dynamic virtual channel. *)
From S2P Require Import Prelude Cursor Utf RdpsndPdu DvcPdu Dvc.

Definition MSG_SNDIN_VERSION : Z := 0x01.
Definition MSG_SNDIN_FORMATS : Z := 0x02.
Definition MSG_SNDIN_OPEN : Z := 0x03.
Definition MSG_SNDIN_OPEN_REPLY : Z := 0x04.
Definition MSG_SNDIN_DATA_INCOMING : Z := 0x05.
Definition MSG_SNDIN_DATA : Z := 0x06.
Definition MSG_SNDIN_FORMATCHANGE : Z := 0x07.
Definition CHANNEL_NAME : rstring := lit "AUDIO_INPUT".
Definition VERSION_2 : Z := 2.

(** ** PDUs *)

Definition encode_version (version : Z) : bytes := write_u8 MSG_SNDIN_VERSION ++ write_u32_le version.
Definition encode_formats (formats : list AudioFormat) : bytes :=
  let formats_bytes := concat (AudioFormat_encode <$> formats) in
  write_u8 MSG_SNDIN_FORMATS ++ write_u32_le (as_u32 (len formats))
  ++ write_u32_le (as_u32 (len formats_bytes)) ++ write_slice formats_bytes.
Definition encode_open (frames_per_packet initial_format_index : Z) (capture_format : AudioFormat)
  : bytes :=
  write_u8 MSG_SNDIN_OPEN ++ write_u32_le frames_per_packet ++ write_u32_le initial_format_index
  ++ AudioFormat_encode capture_format.

Inductive ClientMessage :=
  | Version (version : Z)
  | Formats (formats : list AudioFormat)
  | OpenReply (result : Z)
  | DataIncoming
  | Data (data : bytes)
  | FormatChange (new_format : Z)
  | Other.

Definition decode_client_message_from : reader ClientMessage :=
  message_id ← read_u8;
  if message_id =? MSG_SNDIN_VERSION then v ← read_u32_le; mret (Version v)
  else if message_id =? MSG_SNDIN_FORMATS then
    num_formats ← read_u32_le;
    _ ← read_u32_le;
    ensure_count num_formats (2 + 2 + 4 + 4 + 2 + 2 + 2) "rdpeai.numFormats" ;;
    formats ← read_many (Z.to_nat num_formats) AudioFormat_decode;
    mret (Formats formats)
  else if message_id =? MSG_SNDIN_OPEN_REPLY then r ← read_u32_le; mret (OpenReply r)
  else if message_id =? MSG_SNDIN_DATA_INCOMING then mret DataIncoming
  else if message_id =? MSG_SNDIN_DATA then d ← read_rest; mret (Data d)
  else if message_id =? MSG_SNDIN_FORMATCHANGE then n ← read_u32_le; mret (FormatChange n)
  else mret Other.
Definition decode_client_message (input : bytes) : res DecodeError ClientMessage :=
  run decode_client_message_from input.

(** ** The handler *)

Class AudioInputBackend (B : Type) := { on_audio_data : B → AudioFormat → bytes → B }.

Definition negotiate (server_formats client_formats : list AudioFormat) : option Z :=
  (λ index, as_u32 (Z.of_nat index))
    <$> position (λ s, existsb (negotiation_eq s) client_formats) server_formats.

Inductive State := WaitVersion | WaitFormats | WaitOpenReply | Streaming.

Record AudioInputHandler (B : Type) := {
  server_formats : list AudioFormat; frames_per_packet : Z; state : State;
  negotiated : option AudioFormat; backend : B }.
Arguments server_formats {B} _.
Arguments frames_per_packet {B} _.
Arguments state {B} _.
Arguments negotiated {B} _.
Arguments backend {B} _.

Section handler.
Context {B : Type} `{!AudioInputBackend B}.
Implicit Types h : AudioInputHandler B.

Definition AudioInputHandler_new (backend : B) : AudioInputHandler B :=
  {| server_formats := [AudioFormat_pcm 2 48000 16]; frames_per_packet := 480; state := WaitVersion;
     negotiated := None; backend := backend |}.

Definition set_state h st n :=
  Build_AudioInputHandler B (server_formats h) (frames_per_packet h) st n (backend h).

Definition on_message h (m : ClientMessage) : res DecodeError (AudioInputHandler B * list bytes) :=
  match m, state h with
  | Version _, WaitVersion => Ok (set_state h WaitFormats (negotiated h), [encode_formats (server_formats h)])
  | Formats formats, WaitFormats =>
    match negotiate (server_formats h) formats with
    | Some index =>
      match server_formats h !! Z.to_nat index with
      | Some format =>
        Ok (set_state h WaitOpenReply (Some format), [encode_open (frames_per_packet h) index format])
      | None => Panic
      end
    | None => Ok (h, [])
    end
  | OpenReply _, WaitOpenReply => Ok (set_state h Streaming (negotiated h), [])
  | Data data, Streaming =>
    match negotiated h with
    | Some format =>
      Ok (Build_AudioInputHandler B (server_formats h) (frames_per_packet h) (state h) (negotiated h)
            (on_audio_data (backend h) format data), [])
    | None => Ok (h, [])
    end
  | _, _ => Ok (h, [])
  end.

(** [on_data]; an undecodable message is ignored. *)
Definition handle_data h (data : bytes) : res DecodeError (AudioInputHandler B * list bytes) :=
  match decode_client_message data with
  | Ok m => on_message h m
  | Err _ => Ok (h, [])
  | Panic => Panic
  end.
End handler.

(** ** Lemmas *)

Lemma audio_message_safe : safe decode_client_message_from (λ _, True).
Proof.
  unfold decode_client_message_from. safe_step. destruct (a =? _); [safe_steps; done|].
  destruct (a =? _).
  { do 3 safe_step. eapply safe_bind; [apply read_many_safe, AudioFormat_decode_safe|].
    intros fs _. by apply safe_ret. }
  repeat (match goal with |- safe (if ?b then _ else _) _ => destruct b end); safe_steps; done.
Qed.

Lemma negotiate_spec fs cs :
  len fs < 2 ^ 32 →
  match negotiate fs cs with
  | Some index => ∃ i f, index = Z.of_nat i ∧ fs !! i = Some f ∧ existsb (negotiation_eq f) cs = true
      ∧ ∀ j g, (j < i)%nat → fs !! j = Some g → existsb (negotiation_eq g) cs = false
  | None => Forall (λ f, existsb (negotiation_eq f) cs = false) fs
  end.
Proof.
  intros Hl. unfold negotiate.
  destruct (position (λ s, existsb (negotiation_eq s) cs) fs) as [i|] eqn:E; cbn.
  - apply position_Some in E as (f & Hi & Hf & Hj). exists i, f. split_and!; try done.
    apply as_u32_id. apply lookup_lt_Some in Hi. unfold len in Hl. lia.
  - by apply position_None in E.
Qed.

(** ** What reaches the backend *)

Definition packets_ok (ps : list bytes) : Prop := Forall (λ p, bytes_ok p ∧ len p < 2 ^ 63) ps.
(** The messages of the packets that can be read. *)
Definition messages (ps : list bytes) : list ClientMessage :=
  omap (λ p, match decode_client_message p with Ok m => Some m | _ => None end) ps.

(** What follows the first message that satisfies [p]. *)
Fixpoint after (p : ClientMessage → bool) (ms : list ClientMessage) : list ClientMessage :=
  match ms with
  | [] => []
  | m :: ms => if p m then ms else after p ms
  end.
Definition is_version (m : ClientMessage) : bool := match m with Version _ => true | _ => false end.
Definition is_open_reply (m : ClientMessage) : bool := match m with OpenReply _ => true | _ => false end.
Definition is_compatible (fs : list AudioFormat) (m : ClientMessage) : bool :=
  match m with Formats cs => bool_decide (negotiate fs cs ≠ None) | _ => false end.
Definition audio (ms : list ClientMessage) : list bytes :=
  omap (λ m, match m with Data d => Some d | _ => None end) ms.

Section streams.
Context {B : Type} `{!AudioInputBackend B}.
Implicit Types h : AudioInputHandler B.

Fixpoint run_messages h (ms : list ClientMessage) : res DecodeError (AudioInputHandler B * list bytes) :=
  match ms with
  | [] => Ok (h, [])
  | m :: ms =>
    '(h, out) ← on_message h m;
    '(h, outs) ← run_messages h ms;
    Ok (h, out ++ outs)
  end.
Fixpoint run_packets h (ps : list bytes) : res DecodeError (AudioInputHandler B * list bytes) :=
  match ps with
  | [] => Ok (h, [])
  | p :: ps =>
    '(h, out) ← handle_data h p;
    '(h, outs) ← run_packets h ps;
    Ok (h, out ++ outs)
  end.

Lemma run_packets_messages h ps : packets_ok ps → run_packets h ps = run_messages h (messages ps).
Proof.
  intros Hps. revert h. induction Hps as [|p ps [Hb Hl] _ IH]; intros h; [done|].
  cbn [run_packets]. unfold messages. cbn [omap list_omap]. unfold handle_data.
  pose proof (safe_run _ _ p audio_message_safe Hb Hl) as Hs. unfold decode_client_message in *.
  destruct (run decode_client_message_from p) as [m|e|]; [| |done].
  - cbn [run_messages]. destruct (on_message h m) as [[h' out]| |]; cbn; [|done..]. by rewrite IH.
  - cbn. rewrite IH. unfold messages, decode_client_message.
    by destruct (run_messages h _) as [[? ?]| |].
Qed.

Lemma run_streaming ms : ∀ h f,
  state h = Streaming → negotiated h = Some f →
  ∃ h', run_messages h ms = Ok (h', []) ∧ negotiated h' = Some f ∧ state h' = Streaming
  ∧ backend h' = foldl (λ b d, on_audio_data b f d) (backend h) (audio ms).
Proof.
  induction ms as [|m ms IH]; intros h f Hs Hn; [by exists h|].
  cbn [run_messages]. destruct m; cbn [on_message audio omap list_omap]; rewrite ?Hs, ?Hn; cbn;
    try (destruct (IH h f Hs Hn) as (h' & -> & H); exists h'; done).
  destruct (IH (Build_AudioInputHandler B (server_formats h) (frames_per_packet h) Streaming (Some f)
    (on_audio_data (backend h) f data)) f eq_refl eq_refl) as (h' & -> & H). by exists h'.
Qed.

Lemma run_wait_open ms : ∀ h f,
  state h = WaitOpenReply → negotiated h = Some f →
  ∃ h', run_messages h ms = Ok (h', []) ∧ negotiated h' = Some f
  ∧ backend h' = foldl (λ b d, on_audio_data b f d) (backend h) (audio (after is_open_reply ms)).
Proof.
  induction ms as [|m ms IH]; intros h f Hs Hn; [by exists h|].
  cbn [run_messages]. destruct m; cbn [on_message after is_open_reply]; rewrite ?Hs; cbn;
    try (destruct (IH h f Hs Hn) as (h' & -> & H); exists h'; done).
  destruct (run_streaming ms (set_state h Streaming (negotiated h)) f) as (h' & -> & H1 & _ & H2); [done|done|].
  exists h'. done.
Qed.

(** The formats to offer and the open request for the first that a client has. *)
Definition open_sent h (f : AudioFormat) (out : bytes) : Prop :=
  ∃ i cs, server_formats h !! i = Some f ∧ existsb (negotiation_eq f) cs = true
  ∧ (∀ j g, (j < i)%nat → server_formats h !! j = Some g → existsb (negotiation_eq g) cs = false)
  ∧ out = encode_open (frames_per_packet h) (Z.of_nat i) f.

Lemma run_wait_formats ms : ∀ h,
  state h = WaitFormats → negotiated h = None → len (server_formats h) < 2 ^ 32 →
  ∃ h' outs, run_messages h ms = Ok (h', outs)
  ∧ match negotiated h' with
    | Some f => (∃ out, outs = [out] ∧ open_sent h f out)
      ∧ backend h' = foldl (λ b d, on_audio_data b f d) (backend h)
          (audio (after is_open_reply (after (is_compatible (server_formats h)) ms)))
    | None => outs = [] ∧ backend h' = backend h
    end.
Proof.
  induction ms as [|m ms IH]; intros h Hs Hn Hl; [exists h, []; by rewrite Hn|].
  cbn [run_messages]. destruct m as [v|cs|r| |d|n|]; cbn [on_message after is_compatible]; rewrite ?Hs;
    cbn [mbind res_bind];
    try (destruct (IH h Hs Hn Hl) as (h' & outs & -> & H); exists h', outs; done).
  pose proof (negotiate_spec (server_formats h) cs Hl) as Hneg.
  destruct (negotiate (server_formats h) cs) as [index|]; cbn [mbind res_bind].
  - destruct Hneg as (i & f & -> & Hi & Hf & Hj). rewrite Nat2Z.id, Hi. cbn [mbind res_bind].
    rewrite bool_decide_eq_true_2 by done.
    destruct (run_wait_open ms (set_state h WaitOpenReply (Some f)) f) as (h' & -> & H1 & H2); [done|done|].
    cbn [mbind res_bind]. eexists h', _. split; [done|]. rewrite H1. split; [|done].
    eexists. split; [done|]. by exists i, cs.
  - rewrite bool_decide_eq_false_2 by auto.
    destruct (IH h Hs Hn Hl) as (h' & outs & -> & H). exists h', outs. done.
Qed.

Lemma run_wait_version ms : ∀ h,
  state h = WaitVersion → negotiated h = None → len (server_formats h) < 2 ^ 32 →
  ∃ h' outs, run_messages h ms = Ok (h', outs)
  ∧ match negotiated h' with
    | Some f => (∃ out, outs = [encode_formats (server_formats h); out] ∧ open_sent h f out)
      ∧ backend h' = foldl (λ b d, on_audio_data b f d) (backend h)
          (audio (after is_open_reply (after (is_compatible (server_formats h)) (after is_version ms))))
    | None => (outs = [] ∨ outs = [encode_formats (server_formats h)]) ∧ backend h' = backend h
    end.
Proof.
  induction ms as [|m ms IH]; intros h Hs Hn Hl; [exists h, []; rewrite Hn; auto|].
  cbn [run_messages]. destruct m as [v|cs|r| |d|n|]; cbn [on_message after is_version]; rewrite ?Hs;
    cbn [mbind res_bind];
    try (destruct (IH h Hs Hn Hl) as (h' & outs & -> & H); exists h', outs; done).
  destruct (run_wait_formats ms (set_state h WaitFormats (negotiated h))) as (h' & outs & -> & H); [done..|].
  cbn [mbind res_bind]. eexists h', _. split; [done|].
  destruct (negotiated h') as [f|].
  - destruct H as ((out & -> & Hout) & H). split; [by exists out|done].
  - destruct H as [-> H]. auto.
Qed.

(** C40. The microphone reaches its backend only through the handshake.  For any packets,
    garbage included, the handler never panics; it offers its formats after the first
    Version and sends one Open, for the first of its own formats that a client list
    received after that contains; and the backend receives, in order and unchanged, exactly
    the Data payloads that follow the first OpenReply after that Open, in the format that
    was opened.  Audio sent before or out of sequence never reaches it. *)
Theorem audio_input_streams h ps :
  state h = WaitVersion → negotiated h = None → len (server_formats h) < 2 ^ 32 → packets_ok ps →
  ∃ h' outs, run_packets h ps = Ok (h', outs)
  ∧ match negotiated h' with
    | Some f => (∃ out, outs = [encode_formats (server_formats h); out] ∧ open_sent h f out)
      ∧ backend h' = foldl (λ b d, on_audio_data b f d) (backend h)
          (audio (after is_open_reply (after (is_compatible (server_formats h))
            (after is_version (messages ps)))))
    | None => (outs = [] ∨ outs = [encode_formats (server_formats h)]) ∧ backend h' = backend h
    end.
Proof. intros Hs Hn Hl Hp. rewrite run_packets_messages by done. by apply run_wait_version. Qed.
End streams.

(** As the handler of its channel; it does not panic. *)
Global Instance audio_input_dvc {B} `{!AudioInputBackend B} : DvcHandler (AudioInputHandler B) := {
  Dvc.channel_name _ := CHANNEL_NAME;
  Dvc.on_open h := (h, [encode_version VERSION_2]);
  Dvc.on_data h d := match handle_data h d with Ok r => r | _ => (h, []) end
}.

(** A backend that records what it is given. *)
Global Instance record_backend : AudioInputBackend (list bytes) := { on_audio_data b _ d := b ++ [d] }.
Definition sample_packets : list bytes :=
  [write_u8 MSG_SNDIN_DATA ++ [1]; encode_version 2; [9; 9];
   encode_formats [AudioFormat_pcm 1 8000 8; AudioFormat_pcm 2 48000 16];
   write_u8 MSG_SNDIN_DATA ++ [2]; write_u8 MSG_SNDIN_OPEN_REPLY ++ write_u32_le 0;
   write_u8 MSG_SNDIN_DATA ++ [3; 4]; write_u8 MSG_SNDIN_DATA ++ [5]].

Lemma audio_input_streams_witness :
  ∃ h' outs, run_packets (AudioInputHandler_new ([] : list bytes)) sample_packets = Ok (h', outs)
  ∧ negotiated h' = Some (AudioFormat_pcm 2 48000 16) ∧ backend h' = [[3; 4]; [5]].
Proof.
  destruct (audio_input_streams (AudioInputHandler_new ([] : list bytes)) sample_packets)
    as (h' & outs & E & H); [done|done|done| |].
  { repeat constructor; vm_compute; try done; by split. }
  exists h', outs. split; [done|].
  assert ((λ x, (negotiated x.1, backend x.1)) <$> run_packets (AudioInputHandler_new ([] : list bytes)) sample_packets
    = Ok (Some (AudioFormat_pcm 2 48000 16), [[3; 4]; [5]])) as Ev by (vm_compute; reflexivity).
  rewrite E in Ev. cbn in Ev. by injection Ev as -> ->.
Defined.
