(* ===== verification/Rdpsnd.v ===== *)
(** [rdpcore-rdpsnd/src/lib.rs]: [RdpsndChannel], one connection's audio channel:
    format negotiation, the window of unacknowledged blocks, the estimate of the
    client's play queue and the two wave encodings.  The backend is the interface
    [RdpsndServerHandler]; every theorem is proved against it. *)
From S2P Require Import Prelude Cursor Framing Per Mcs Svc RdpsndPdu.

(** ** The backend and the clock *)

(** [RdpsndServerHandler]: the audio backend a server plugs in.  [start]'s
    result is discarded by the channel, so only its effect is kept. *)
Class RdpsndServerHandler (H : Type) := {
  get_formats : H → list AudioFormat;
  choose_format : H → list NegotiatedFormat → option NegotiatedFormat * H;
  start : H → NegotiatedFormat → H;
  stop : H → H;
}.

(** The successive readings of [clock.elapsed().as_millis()] during one call. *)
Definition Clock : Type := nat → Z.
Definition now_ms (elapsed : Z) : Z := as_u32 elapsed.
Definition later (n : nat) (clock : Clock) : Clock := λ i, clock (n + i)%nat.

(** ** State *)

Inductive State := WaitFormats | WaitQualityMode | WaitTrainingConfirm | Ready.

(** The arrays [[_; 256]] are lists of length 256, indexed by a [u8]. *)
Record RdpsndChannel (H : Type) := {
  channel_id : Z;
  user_channel_id : Z;
  handler : H;
  state : State;
  negotiated : option NegotiatedFormat;
  client_version : Z;
  block_no : Z;
  sent_at_ms : list Z;
  block_pending : list bool;
  best_confirm_rtt_ms : option Z;
  last_confirm_rtt_ms : option Z;
  sent_wtimestamp : list Z;
  receive_ack_count : Z;
  playback_hold_ms : option Z;
  hold_at_ms : Z;
  sent_ms_at_hold : Z;
  total_sent_ms : Z }.
Arguments Build_RdpsndChannel {H}.
Arguments channel_id {H}. Arguments user_channel_id {H}. Arguments handler {H}.
Arguments state {H}. Arguments negotiated {H}. Arguments client_version {H}.
Arguments block_no {H}. Arguments sent_at_ms {H}. Arguments block_pending {H}.
Arguments best_confirm_rtt_ms {H}. Arguments last_confirm_rtt_ms {H}.
Arguments sent_wtimestamp {H}. Arguments receive_ack_count {H}.
Arguments playback_hold_ms {H}. Arguments hold_at_ms {H}.
Arguments sent_ms_at_hold {H}. Arguments total_sent_ms {H}.

Definition MAX_UNACKED_BLOCKS : Z := 4.
Definition MIN_PLAYBACK_RTT_MS : Z := 40.
Definition MAX_PLAUSIBLE_HOLD_MS : Z := 5000.
Definition TARGET_HOLD_MS : Z := 80.

Section channel.
Context {H : Type} `{!RdpsndServerHandler H}.
Implicit Types ch : RdpsndChannel H.

(** ** Assignments, by the group of fields an operation changes *)

Definition set_session ch (h : H) (s : State) (n : option NegotiatedFormat) (v : Z)
  : RdpsndChannel H :=
  Build_RdpsndChannel (channel_id ch) (user_channel_id ch) h s n v (block_no ch)
    (sent_at_ms ch) (block_pending ch) (best_confirm_rtt_ms ch) (last_confirm_rtt_ms ch)
    (sent_wtimestamp ch) (receive_ack_count ch) (playback_hold_ms ch) (hold_at_ms ch)
    (sent_ms_at_hold ch) (total_sent_ms ch).
Definition set_window ch (no : Z) (at_ : list Z) (pend : list bool) (ts : list Z)
  : RdpsndChannel H :=
  Build_RdpsndChannel (channel_id ch) (user_channel_id ch) (handler ch) (state ch)
    (negotiated ch) (client_version ch) no at_ pend (best_confirm_rtt_ms ch)
    (last_confirm_rtt_ms ch) ts (receive_ack_count ch) (playback_hold_ms ch) (hold_at_ms ch)
    (sent_ms_at_hold ch) (total_sent_ms ch).
Definition set_rtt ch (best last : option Z) (acks : Z) : RdpsndChannel H :=
  Build_RdpsndChannel (channel_id ch) (user_channel_id ch) (handler ch) (state ch)
    (negotiated ch) (client_version ch) (block_no ch) (sent_at_ms ch) (block_pending ch)
    best last (sent_wtimestamp ch) acks (playback_hold_ms ch) (hold_at_ms ch)
    (sent_ms_at_hold ch) (total_sent_ms ch).
Definition set_hold ch (hold : option Z) (at_ sent total : Z) : RdpsndChannel H :=
  Build_RdpsndChannel (channel_id ch) (user_channel_id ch) (handler ch) (state ch)
    (negotiated ch) (client_version ch) (block_no ch) (sent_at_ms ch) (block_pending ch)
    (best_confirm_rtt_ms ch) (last_confirm_rtt_ms ch) (sent_wtimestamp ch)
    (receive_ack_count ch) hold at_ sent total.

(** ** Operations *)

Definition channel_new (channel_id user_channel_id : Z) (h : H)
  : RdpsndChannel H * list bytes :=
  (Build_RdpsndChannel channel_id user_channel_id h WaitFormats None 0 0
     (replicate 256 0) (replicate 256 false) None None (replicate 256 0) 0 None 0 0 0,
   wrap_indication user_channel_id channel_id (encode_server_audio_formats (get_formats h))).

Definition pending_count ch : Z := as_u8 (len (filter (λ p, p = true) (block_pending ch))).

Definition saturating_add_u32 (a b : Z) : Z := Z.min (a + b) (2 ^ 32 - 1).

Definition pcm_duration_ms ch (bytes_ : Z) : Z :=
  match negotiated ch with
  | None => 0
  | Some n =>
    let bps := Z.max (n_avg_bytes_per_sec (format n)) 1 in
    as_u32 (as_u64 (bytes_ * 1000) / bps)
  end.

Definition estimated_hold_ms ch (now : Z) : Z :=
  match playback_hold_ms ch with
  | None => 0
  | Some hold =>
    let sent := saturating_sub (total_sent_ms ch) (sent_ms_at_hold ch) in
    let wall := saturating_sub (now_ms now) (hold_at_ms ch) in
    saturating_sub (saturating_add_u32 hold sent) wall
  end.

Definition confirm_rtt_is_behind ch (now : Z) : bool :=
  TARGET_HOLD_MS <? estimated_hold_ms ch now.

(** [PlayQueueStats]; [play_queue_stats] reads the clock twice. *)
Record PlayQueueStats := {
  pqs_pending_blocks : Z; pqs_last_confirm_rtt_ms : option Z;
  pqs_best_confirm_rtt_ms : option Z; pqs_ready : bool; pqs_rtt_behind : bool;
  pqs_receive_ack_count : Z; pqs_estimated_hold_ms : Z }.

Definition play_queue_stats ch (clock : Clock) : PlayQueueStats :=
  {| pqs_pending_blocks := pending_count ch;
     pqs_last_confirm_rtt_ms := last_confirm_rtt_ms ch;
     pqs_best_confirm_rtt_ms := best_confirm_rtt_ms ch;
     pqs_ready := match state ch with Ready => true | _ => false end;
     pqs_rtt_behind := confirm_rtt_is_behind ch (clock 0%nat);
     pqs_receive_ack_count := receive_ack_count ch;
     pqs_estimated_hold_ms := estimated_hold_ms ch (clock 1%nat) |}.

Definition note_receive_ack ch (rtt : Z) : RdpsndChannel H :=
  set_rtt ch (match best_confirm_rtt_ms ch with None => Some rtt | b => b end) (Some rtt)
    (saturating_add_u32 (receive_ack_count ch) 1).

Definition note_playback_hold ch (rtt now : Z) : RdpsndChannel H :=
  set_hold
    (set_rtt ch
       (Some match best_confirm_rtt_ms ch with
             | Some best => if best <? MIN_PLAYBACK_RTT_MS then rtt else Z.min best rtt
             | None => rtt
             end) (Some rtt) (receive_ack_count ch))
    (Some rtt) (now_ms now) (total_sent_ms ch) (total_sent_ms ch).

Definition on_wave_confirm ch (block_no_ timestamp : Z) (clock : Clock) : RdpsndChannel H :=
  let idx := Z.to_nat block_no_ in
  let hold_from_ts := as_u16 (timestamp - sent_wtimestamp ch !!! idx) in
  let plausible_hold :=
    if hold_from_ts <=? MAX_PLAUSIBLE_HOLD_MS then Some hold_from_ts else None in
  if (block_pending ch !!! idx : bool) then
    let ch := set_window ch (block_no ch) (sent_at_ms ch) (<[idx := false]> (block_pending ch))
                (sent_wtimestamp ch) in
    let wall_rtt := saturating_sub (now_ms (clock 0%nat)) (sent_at_ms ch !!! idx) in
    let rtt := match plausible_hold with
               | Some hold => Z.max wall_rtt hold
               | None => wall_rtt
               end in
    if MIN_PLAYBACK_RTT_MS <=? rtt then note_playback_hold ch rtt (clock 1%nat)
    else note_receive_ack ch rtt
  else
    match plausible_hold with
    | Some hold =>
      if MIN_PLAYBACK_RTT_MS <=? hold then note_playback_hold ch hold (clock 1%nat) else ch
    | None => ch
    end.

Definition should_skip_send ch (now : Z) : bool :=
  if MAX_UNACKED_BLOCKS <=? pending_count ch then true
  else TARGET_HOLD_MS <? estimated_hold_ms ch now.

Definition note_send ch (block_no_ timestamp_ms pcm_bytes now : Z) : RdpsndChannel H :=
  let idx := Z.to_nat block_no_ in
  let ch' := set_window ch (block_no ch) (<[idx := now_ms now]> (sent_at_ms ch))
               (<[idx := true]> (block_pending ch))
               (<[idx := as_u16 timestamp_ms]> (sent_wtimestamp ch)) in
  set_hold ch' (playback_hold_ms ch) (hold_at_ms ch) (sent_ms_at_hold ch)
    (saturating_add_u32 (total_sent_ms ch) (pcm_duration_ms ch pcm_bytes)).

Definition training_frames ch : list bytes :=
  wrap_indication (user_channel_id ch) (channel_id ch) encode_training.

(** The [match] of [on_channel_data] on the decoded message and the state. *)
Definition on_message ch (m : ClientMessage) (clock : Clock) : RdpsndChannel H * list bytes :=
  match m, state ch with
  | AudioFormats client_formats, WaitFormats =>
    let common := negotiate_formats (get_formats (handler ch)) (caf_formats client_formats) in
    let '(negotiated, h) := choose_format (handler ch) common in
    let version := caf_version client_formats in
    if VERSION_V6 <=? version then (set_session ch h WaitQualityMode negotiated version, [])
    else
      let ch := set_session ch h WaitTrainingConfirm negotiated version in
      (ch, training_frames ch)
  | QualityMode, WaitQualityMode =>
    let ch := set_session ch (handler ch) WaitTrainingConfirm (negotiated ch) (client_version ch) in
    (ch, training_frames ch)
  | TrainingConfirm, WaitTrainingConfirm =>
    let h := match negotiated ch with Some n => start (handler ch) n | None => handler ch end in
    (set_session ch h Ready (negotiated ch) (client_version ch), [])
  | WaveConfirm timestamp block_no, _ => (on_wave_confirm ch block_no timestamp clock, [])
  | _, _ => (ch, [])
  end.

Definition on_channel_data ch (payload : bytes) (clock : Clock)
  : res DecodeError (RdpsndChannel H * list bytes) :=
  '(_, _, body) ← dechunkify payload;
  m ← decode_client_message body;
  mret (on_message ch m clock).

Definition bump_block_no ch : RdpsndChannel H :=
  set_window ch (as_u8 (block_no ch + 1)) (sent_at_ms ch) (block_pending ch) (sent_wtimestamp ch).

(** [v.resize(4, 0)] of a chunk shorter than four bytes. *)
Definition pad4 (chunk : bytes) : bytes :=
  if len chunk <? 4 then chunk ++ replicate (4 - length chunk) 0 else chunk.

(** The [for chunk in chunks] of [encode_wave2_frames]; each turn reads the
    clock in [should_skip_send] and in [note_send]. *)
Fixpoint wave2_loop ch (chunks : list bytes) (format_no timestamp_ms : Z) (clock : Clock)
    (out : list bytes) : res DecodeError (RdpsndChannel H * list bytes) :=
  match chunks with
  | [] => Ok (ch, out)
  | chunk :: chunks =>
    if should_skip_send ch (clock 0%nat) then Ok (ch, out) else
    let no := block_no ch in
    let ch := note_send ch no timestamp_ms (len chunk) (clock 1%nat) in
    body ← encode_wave2 format_no no timestamp_ms chunk;
    let ch := bump_block_no ch in
    wave2_loop ch chunks format_no timestamp_ms (later 2 clock)
      (out ++ wrap_indication (user_channel_id ch) (channel_id ch) body)
  end.

Definition encode_wave2_frames ch (pcm : bytes) (format_no timestamp_ms : Z) (clock : Clock)
  : res DecodeError (RdpsndChannel H * list bytes) :=
  let cs := if bool_decide (pcm = []) then [[]] else chunks MAX_WAVE2_CHUNK_BYTES pcm in
  wave2_loop ch cs format_no timestamp_ms clock [].

Fixpoint wave_info_loop ch (chunks : list bytes) (format_no timestamp_ms : Z) (clock : Clock)
    (out : list bytes) : res DecodeError (RdpsndChannel H * list bytes) :=
  match chunks with
  | [] => Ok (ch, out)
  | chunk :: chunks =>
    if should_skip_send ch (clock 0%nat) then Ok (ch, out) else
    let chunk := pad4 chunk in
    let no := block_no ch in
    let ch := note_send ch no timestamp_ms (len chunk) (clock 1%nat) in
    info ← encode_wave_info format_no no (as_u16 timestamp_ms) chunk;
    rest ← encode_wave_rest chunk;
    let ch := bump_block_no ch in
    wave_info_loop ch chunks format_no timestamp_ms (later 2 clock)
      (out ++ wrap_indication (user_channel_id ch) (channel_id ch) info
           ++ wrap_indication (user_channel_id ch) (channel_id ch) rest)
  end.

Definition encode_wave_info_frames ch (pcm : bytes) (format_no timestamp_ms : Z) (clock : Clock)
  : res DecodeError (RdpsndChannel H * list bytes) :=
  wave_info_loop ch (chunks MAX_WAVE_INFO_CHUNK_BYTES (pad4 pcm)) format_no timestamp_ms clock [].

Definition encode_wave ch (pcm : bytes) (capture_timestamp_ms : Z) (clock : Clock)
  : res DecodeError (RdpsndChannel H * list bytes) :=
  match state ch with
  | Ready =>
    if should_skip_send ch (clock 0%nat) then Ok (ch, []) else
    match format_no <$> negotiated ch with
    | None => Ok (ch, [])
    | Some format_no =>
      let timestamp_ms := now_ms (clock 1%nat) in
      if VERSION_V8 <=? client_version ch
      then encode_wave2_frames ch pcm format_no timestamp_ms (later 2 clock)
      else encode_wave_info_frames ch pcm format_no timestamp_ms (later 2 clock)
    end
  | _ => Ok (ch, [])
  end.

(** [Drop]: the backend is stopped; only its state survives. *)
Definition drop_channel ch : H := stop (handler ch).
End channel.

(** ** The window of unacknowledged blocks *)

Definition pend (l : list bool) : nat := length (filter (λ p, p = true) l).

Lemma pend_insert l i (b : bool) :
  (pend (<[i := b]> l) ≤ pend l + if b then 1 else 0)%nat.
Proof.
  revert i; induction l as [|x l IH]; intros i; unfold pend in *; [destruct b, i; cbn; lia|].
  destruct i as [|i];
    [change (<[0%nat := b]> (x :: l)) with (b :: l)
    |change (<[S i := b]> (x :: l)) with (x :: <[i := b]> l); specialize (IH i)];
    rewrite !filter_cons; repeat case_decide; destruct b; cbn [length]; simplify_eq; try lia.
Qed.

Lemma pend_set l i : (pend (<[i := true]> l) ≤ pend l + 1)%nat.
Proof. exact (pend_insert l i true). Qed.
Lemma pend_clear l i : (pend (<[i := false]> l) ≤ pend l)%nat.
Proof. rewrite <-(Nat.add_0_r (pend l)). exact (pend_insert l i false). Qed.

Lemma pend_le l : (pend l ≤ length l)%nat.
Proof. apply length_filter. Qed.

Section channel_invariant.
Context {H : Type} `{!RdpsndServerHandler H}.
Implicit Types ch : RdpsndChannel H.

(** Ranges of the types and the bound on the window. *)
Definition window_ok ch : Prop :=
  length (block_pending ch) = 256%nat ∧ u8_ok (block_no ch)
  ∧ (pend (block_pending ch) ≤ 4)%nat
  ∧ match negotiated ch with Some n => u16_ok (format_no n) | None => True end.

(** What the wave path leaves alone. *)
Definition same_session ch ch' : Prop :=
  channel_id ch' = channel_id ch ∧ user_channel_id ch' = user_channel_id ch
  ∧ handler ch' = handler ch ∧ state ch' = state ch ∧ negotiated ch' = negotiated ch
  ∧ client_version ch' = client_version ch.

Lemma same_session_refl ch : same_session ch ch.
Proof. repeat split. Qed.
Lemma same_session_trans a b c : same_session a b → same_session b c → same_session a c.
Proof. unfold same_session. intuition congruence. Qed.

Lemma pending_count_eq ch : window_ok ch → pending_count ch = Z.of_nat (pend (block_pending ch)).
Proof. intros (_ & _ & Hp & _). unfold pending_count, len. fold (pend (block_pending ch)). cast_lia. Qed.

Lemma should_skip_false ch now :
  window_ok ch → should_skip_send ch now = false →
  (pend (block_pending ch) < 4)%nat ∧ estimated_hold_ms ch now ≤ TARGET_HOLD_MS.
Proof.
  intros Hok. unfold should_skip_send. rewrite pending_count_eq by done.
  unfold MAX_UNACKED_BLOCKS. destruct (Z.leb_spec 4 (Z.of_nat (pend (block_pending ch)))); [done|].
  intros ?%Z.ltb_ge. lia.
Qed.

(** Recording a block that was let through and moving to the next number. *)
Definition sent_block ch (ts n now : Z) : RdpsndChannel H :=
  bump_block_no (note_send ch (block_no ch) ts n now).

Lemma sent_block_ok ch ts n now :
  window_ok ch → (pend (block_pending ch) < 4)%nat → window_ok (sent_block ch ts n now).
Proof.
  intros (Hl & Hb & Hp & Hn) Hlt. unfold window_ok.
  change (block_pending (sent_block ch ts n now))
    with (<[Z.to_nat (block_no ch) := true]> (block_pending ch)).
  pose proof (pend_set (block_pending ch) (Z.to_nat (block_no ch))).
  rewrite length_insert. split; [done|]. split; [apply as_u8_ok|]. split; [lia|done].
Qed.

Lemma sent_block_session ch ts n now : same_session ch (sent_block ch ts n now).
Proof. repeat split. Qed.

Lemma on_wave_confirm_session ch b t clock : same_session ch (on_wave_confirm ch b t clock).
Proof. unfold on_wave_confirm. repeat case_match; repeat split. Qed.

(** A confirm can only clear the bit of its own block. *)
Lemma on_wave_confirm_window ch b t clock :
  block_no (on_wave_confirm ch b t clock) = block_no ch
  ∧ block_pending (on_wave_confirm ch b t clock) = <[Z.to_nat b := false]> (block_pending ch)
  ∨ on_wave_confirm ch b t clock = ch
  ∨ block_no (on_wave_confirm ch b t clock) = block_no ch
    ∧ block_pending (on_wave_confirm ch b t clock) = block_pending ch.
Proof. unfold on_wave_confirm. repeat case_match; auto. Qed.

Lemma on_wave_confirm_ok ch b t clock : window_ok ch → window_ok (on_wave_confirm ch b t clock).
Proof.
  intros Hok. destruct (on_wave_confirm_session ch b t clock) as (_ & _ & _ & _ & En & _).
  pose proof (pend_clear (block_pending ch) (Z.to_nat b)) as Hi.
  destruct (on_wave_confirm_window ch b t clock) as [[E1 E2]|[E|[E1 E2]]]; [|by rewrite E|];
    destruct Hok as (Hl & Hb & Hp & Hn); unfold window_ok; rewrite E1, E2, En, ?length_insert;
    (split; [done|]; split; [done|]; split; [lia|done]).
Qed.

(** ** The two wave loops *)

(** The blocks of a call: format, consecutive block numbers, time stamp, samples. *)
Definition blocks ch (fmt ts : Z) (cs : list bytes) : list (Z * Z * Z * bytes) :=
  imap (λ i c, (fmt, as_u8 (block_no ch + Z.of_nat i), ts, c)) cs.

Lemma blocks_cons ch ch' fmt ts c cs :
  u8_ok (block_no ch) → block_no ch' = as_u8 (block_no ch + 1) →
  blocks ch fmt ts (c :: cs) = (fmt, block_no ch, ts, c) :: blocks ch' fmt ts cs.
Proof.
  intros Hb E. unfold blocks. rewrite imap_cons, Z.add_0_r, as_u8_id by done. f_equal.
  apply imap_ext. intros i x _. cbn. rewrite E. do 2 f_equal.
  unfold as_u8. rewrite Zplus_mod_idemp_l. do 2 f_equal. lia.
Qed.

Lemma wave2_loop_spec cs ch fmt ts clock out :
  window_ok ch → u16_ok fmt → u32_ok ts → Forall (λ c, len c ≤ MAX_WAVE2_CHUNK_BYTES) cs →
  ∃ ch' k bodies,
    wave2_loop ch cs fmt ts clock out
      = Ok (ch', out ++ concat (wrap_indication (user_channel_id ch) (channel_id ch) <$> bodies))
    ∧ window_ok ch' ∧ same_session ch ch'
    ∧ Forall2 (λ p b, run read_wave2 p = Ok b) bodies (blocks ch fmt ts (take k cs)) ∧ k = length bodies
    ∧ (cs ≠ [] → should_skip_send ch (clock 0%nat) = false → (0 < k)%nat).
Proof.
  intros Hok Hf Ht Hcs. revert ch clock out Hok.
  induction Hcs as [|c cs Hc _ IH]; intros ch clock out Hok; cbn [wave2_loop].
  { exists ch, 0%nat, []. rewrite app_nil_r.
    split_and!; [done|done|apply same_session_refl|constructor|done|done]. }
  destruct (should_skip_send ch (clock 0%nat)) eqn:Hskip.
  { exists ch, 0%nat, []. rewrite app_nil_r.
    split_and!; [done|done|apply same_session_refl|constructor|done|done]. }
  destruct (should_skip_false _ _ Hok Hskip) as [Hlt _].
  destruct (encode_wave2_reads fmt (block_no ch) ts c) as (p & E & Hp & _); [done|apply Hok|done..|].
  rewrite E. cbn [mbind res_bind]. fold (sent_block ch ts (len c) (clock 1%nat)).
  set (ch1 := sent_block ch ts (len c) (clock 1%nat)).
  destruct (IH ch1 (later 2 clock) (out ++ wrap_indication (user_channel_id ch1) (channel_id ch1) p))
    as (ch' & k & bodies & Eloop & Hok' & Hs & Hb & Ek & _); [by apply sent_block_ok|].
  exists ch', (S k), (p :: bodies). rewrite Eloop. split_and!.
  - rewrite fmap_cons. cbn [concat]. by rewrite <-(assoc_L (++)).
  - done.
  - eapply same_session_trans; [apply sent_block_session|exact Hs].
  - cbn [take]. rewrite (blocks_cons ch ch1); [by constructor|apply Hok|done].
  - cbn. by rewrite Ek.
  - lia.
Qed.

Lemma pad4_len c : len c ≤ MAX_WAVE_INFO_CHUNK_BYTES → 4 ≤ len (pad4 c) ≤ MAX_WAVE_INFO_CHUNK_BYTES.
Proof.
  unfold pad4, MAX_WAVE_INFO_CHUNK_BYTES. intros Hc. destruct (Z.ltb_spec (len c) 4); [|lia].
  rewrite len_app, len_replicate. unfold len in *. lia.
Qed.

Lemma pad4_nonempty c : pad4 c ≠ [].
Proof.
  unfold pad4. destruct (Z.ltb_spec (len c) 4); [|by intros ->].
  intros E%(f_equal length). rewrite length_app, length_replicate in E. unfold len in *.
  cbn [length] in E. lia.
Qed.

(** The pair of PDUs that carries one block to an older client. *)
Definition reads_wave_pair (pq : bytes * bytes) (b : Z * Z * Z * bytes) : Prop :=
  let '(fmt, no, ts, data) := b in
  run read_wave_info pq.1 = Ok (fmt, no, ts, ztake 4 data, len data - 4)
  ∧ run (read_wave (len data - 4)) pq.2 = Ok (zdrop 4 data).

Lemma wave_info_loop_spec cs ch fmt ts clock out :
  window_ok ch → u16_ok fmt → Forall (λ c, len c ≤ MAX_WAVE_INFO_CHUNK_BYTES) cs →
  ∃ ch' k bodies,
    wave_info_loop ch cs fmt ts clock out
      = Ok (ch', out ++ concat ((λ pq,
           wrap_indication (user_channel_id ch) (channel_id ch) pq.1
           ++ wrap_indication (user_channel_id ch) (channel_id ch) pq.2) <$> bodies))
    ∧ window_ok ch' ∧ same_session ch ch'
    ∧ Forall2 reads_wave_pair bodies (blocks ch fmt (as_u16 ts) (pad4 <$> take k cs))
    ∧ k = length bodies
    ∧ (cs ≠ [] → should_skip_send ch (clock 0%nat) = false → (0 < k)%nat).
Proof.
  intros Hok Hf Hcs. revert ch clock out Hok.
  induction Hcs as [|c cs Hc _ IH]; intros ch clock out Hok; cbn [wave_info_loop].
  { exists ch, 0%nat, []. rewrite app_nil_r.
    split_and!; [done|done|apply same_session_refl|constructor|done|done]. }
  destruct (should_skip_send ch (clock 0%nat)) eqn:Hskip.
  { exists ch, 0%nat, []. rewrite app_nil_r.
    split_and!; [done|done|apply same_session_refl|constructor|done|done]. }
  destruct (should_skip_false _ _ Hok Hskip) as [Hlt _].
  destruct (encode_wave_info_reads fmt (block_no ch) (as_u16 ts) (pad4 c))
    as (p & q & E & E' & Hp & Hq); [done|apply Hok|apply as_u16_ok|by apply pad4_len|].
  rewrite E. cbn [mbind res_bind]. rewrite E'. cbn [mbind res_bind].
  fold (sent_block ch ts (len (pad4 c)) (clock 1%nat)).
  set (ch1 := sent_block ch ts (len (pad4 c)) (clock 1%nat)).
  edestruct (IH ch1 (later 2 clock)) as (ch' & k & bodies & Eloop & Hok' & Hs & Hb & Ek & _);
    [by apply sent_block_ok|].
  exists ch', (S k), ((p, q) :: bodies). rewrite Eloop. split_and!.
  - rewrite fmap_cons. cbn [concat fst snd]. by rewrite <-!(assoc_L (++)).
  - done.
  - eapply same_session_trans; [apply sent_block_session|exact Hs].
  - cbn [take]. rewrite fmap_cons, (blocks_cons ch ch1); [by constructor|apply Hok|done].
  - cbn. by rewrite Ek.
  - lia.
Qed.
End channel_invariant.

(** ** Sessions *)

Lemma negotiated_u16 server client :
  Forall (λ n, u16_ok (format_no n)) (negotiate_formats server client).
Proof.
  apply Forall_forall. intros n (i & c & _ & (j & _ & ->)%negotiate_one_Some)%elem_of_negotiate.
  apply as_u16_ok.
Qed.

(** [format_no] is a [u16] in whatever format a backend chooses. *)
Class HandlerTyped (H : Type) `{!RdpsndServerHandler H} :=
  choose_typed (h : H) l : Forall (λ n, u16_ok (format_no n)) l →
    match fst (choose_format h l) with Some n => u16_ok (format_no n) | None => True end.

(** What a connection does with its channel: messages arrive, samples are sent.
    A message that does not decode leaves the channel as it is. *)
Inductive channel_step {H} `{!RdpsndServerHandler H} : RdpsndChannel H → RdpsndChannel H → Prop :=
  | step_data ch payload clock ch' out :
      bytes_ok payload → len payload < 2 ^ 63 →
      on_channel_data ch payload clock = Ok (ch', out) → channel_step ch ch'
  | step_wave ch pcm ts clock ch' out :
      encode_wave ch pcm ts clock = Ok (ch', out) → channel_step ch ch'.

Section sessions.
Context {H : Type} `{!RdpsndServerHandler H, !HandlerTyped H}.
Implicit Types ch : RdpsndChannel H.

Definition reachable (channel_id user_channel_id : Z) (h0 : H) ch : Prop :=
  rtc channel_step (fst (channel_new channel_id user_channel_id h0)) ch.

(** The calls the backend has received, as its state shows them. *)
Definition session_history (h0 : H) ch : Prop :=
  let chosen fs := choose_format h0 (negotiate_formats (get_formats h0) fs) in
  match state ch with
  | WaitFormats => handler ch = h0 ∧ negotiated ch = None
  | WaitQualityMode => ∃ fs, (negotiated ch, handler ch) = chosen fs ∧ VERSION_V6 ≤ client_version ch
  | WaitTrainingConfirm => ∃ fs, (negotiated ch, handler ch) = chosen fs
  | Ready => ∃ fs n h, chosen fs = (n, h) ∧ negotiated ch = n
      ∧ handler ch = match n with Some n => start h n | None => h end
  end.

Lemma encode_wave_total ch pcm ts clock :
  window_ok ch →
  ∃ ch' out, encode_wave ch pcm ts clock = Ok (ch', out) ∧ window_ok ch' ∧ same_session ch ch'.
Proof.
  intros Hok. unfold encode_wave.
  assert (∃ ch' (out : list bytes), Ok (E := DecodeError) (ch, []) = Ok (ch', out)
    ∧ window_ok ch' ∧ same_session ch ch') as Hstay by (exists ch, []; repeat split; apply Hok).
  destruct (state ch); try done. destruct (should_skip_send _ _); [done|].
  destruct (negotiated ch) as [n|] eqn:En; cbn [fmap option_fmap option_map]; [|done].
  assert (u16_ok (format_no n)) as Hn by (destruct Hok as (_ & _ & _ & Hn); by rewrite En in Hn).
  destruct (VERSION_V8 <=? client_version ch).
  - edestruct (wave2_loop_spec
      (if bool_decide (pcm = []) then [[]] else chunks MAX_WAVE2_CHUNK_BYTES pcm)
      ch (format_no n) (now_ms (clock 1%nat)) (later 2 clock) [])
      as (ch' & k & bodies & E & ? & ? & _ & _ & _); [done|done|apply as_u32_ok| |].
    { case_bool_decide; [by repeat constructor|].
      eapply Forall_impl; [by apply chunks_bound|]. cbn. lia. }
    eexists _, _. split; [exact E|done].
  - edestruct (wave_info_loop_spec (chunks MAX_WAVE_INFO_CHUNK_BYTES (pad4 pcm))
      ch (format_no n) (now_ms (clock 1%nat)) (later 2 clock) [])
      as (ch' & k & bodies & E & ? & ? & _ & _ & _); [done|done| |].
    { eapply Forall_impl; [by apply chunks_bound|]. cbn. lia. }
    eexists _, _. split; [exact E|done].
Qed.

Lemma on_message_ok ch m clock : window_ok ch → window_ok (fst (on_message ch m clock)).
Proof.
  intros Hok. unfold on_message. destruct m as [f| | |t b|]; [| | |by apply on_wave_confirm_ok|done].
  - destruct (state ch); try done.
    pose proof (choose_typed (handler ch) _
      (negotiated_u16 (get_formats (handler ch)) (caf_formats f))) as Ht.
    destruct (choose_format _ _) as [n h]. cbn in Ht. destruct Hok as (? & ? & ? & _).
    destruct (VERSION_V6 <=? caf_version f); (split; [|split; [|split]]); done.
  - destruct (state ch); done.
  - destruct (state ch); done.
Qed.

Lemma on_message_history h0 ch m clock :
  session_history h0 ch → session_history h0 (fst (on_message ch m clock)).
Proof.
  unfold on_message. destruct m as [f| | |t b|]; try done.
  - intros Hh. unfold session_history in Hh. destruct (state ch) eqn:Es; cbn [fst];
      try (unfold session_history; rewrite Es; exact Hh).
    destruct Hh as [-> _]. destruct (choose_format _ _) as [n h] eqn:Ec.
    destruct (Z.leb_spec VERSION_V6 (caf_version f)); cbn; [|by exists (caf_formats f)].
    exists (caf_formats f). done.
  - intros Hh. unfold session_history in Hh. destruct (state ch) eqn:Es; cbn [fst];
      try (unfold session_history; rewrite Es; exact Hh).
    destruct Hh as [fs E]. cbn. by exists fs, (negotiated ch), (handler ch).
  - intros Hh. unfold session_history in Hh. destruct (state ch) eqn:Es; cbn [fst];
      try (unfold session_history; rewrite Es; exact Hh).
    destruct Hh as [fs [E _]]. cbn. by exists fs.
  - intros Hh. cbn [fst]. unfold session_history.
    destruct (on_wave_confirm_session ch b t clock) as (_ & _ & Eh & Es & En & Ev).
    rewrite Eh, Es, En, Ev. exact Hh.
Qed.

(** Both invariants along any run. *)
Lemma reachable_inv cid uid h0 ch : reachable cid uid h0 ch → window_ok ch ∧ session_history h0 ch.
Proof.
  intros Hr. assert (window_ok (fst (channel_new cid uid h0))
    ∧ session_history h0 (fst (channel_new cid uid h0))) as Hi.
  { split; [|done]. split; [done|]. split; [done|]. split; [|done].
    change (pend (replicate 256 false) ≤ 4)%nat. vm_compute. lia. }
  revert Hi. induction Hr as [ch|ch1 ch2 ch3 Hs _ IH]; [done|]. intros [Hok Hh]. apply IH.
  clear IH ch3. destruct Hs as [ch payload clock ch' out Hb Hl E|ch pcm ts clock ch' out E].
  - unfold on_channel_data in E. destruct (dechunkify payload) as [[[? ?] body]| |]; [|done..].
    cbn in E. destruct (decode_client_message body) as [m| |]; [|done..].
    pose proof (on_message_ok ch m clock Hok). pose proof (on_message_history h0 ch m clock Hh).
    assert (on_message ch m clock = (ch', out)) as Em by (by injection E). by rewrite Em in *.
  - destruct (encode_wave_total ch pcm ts clock Hok) as (ch2 & out2 & E2 & Hok2 & Hs).
    rewrite E in E2. simplify_eq. split; [done|]. destruct Hs as (_ & _ & Eh & Es & En & Ev).
    unfold session_history in *. rewrite Eh, Es, En, Ev. exact Hh.
Qed.

(** C34. The window of unacknowledged audio is bounded: whatever the client
    sends (confirms for blocks never sent, duplicates, messages out of order)
    and however block numbers wrap, a connection never has more than
    [MAX_UNACKED_BLOCKS] blocks waiting for a confirm, and the [u8] the code
    computes is that number. *)
Theorem rdpsnd_window_bounded cid uid (h0 : H) ch :
  reachable cid uid h0 ch →
  pending_count ch = Z.of_nat (pend (block_pending ch)) ∧ pending_count ch ≤ MAX_UNACKED_BLOCKS.
Proof.
  intros [Hok _]%reachable_inv. rewrite pending_count_eq by done.
  destruct Hok as (_ & _ & Hp & _). unfold MAX_UNACKED_BLOCKS. lia.
Qed.

(** The audio backend sees one well-ordered session: until the client's
    format list arrives it is untouched, its choice is asked for exactly once,
    about the formats both sides support, and it is started at most once, with
    the chosen format, when training is confirmed; the client's Quality Mode is
    awaited exactly when its version asks for it. *)
Theorem rdpsnd_backend_protocol cid uid (h0 : H) ch :
  reachable cid uid h0 ch → session_history h0 ch.
Proof. by intros [_ Hh]%reachable_inv. Qed.

(** No input and no sample buffer panics the channel: in every reachable
    state a payload of any bytes is handled or rejected with an error, and any
    samples are encoded, whatever their length (the two size assertions of the
    encoders and the slice of the first four samples always hold). *)
Theorem rdpsnd_never_panics cid uid (h0 : H) ch :
  reachable cid uid h0 ch →
  (∀ payload clock, bytes_ok payload → len payload < 2 ^ 63 →
     no_panic (on_channel_data ch payload clock))
  ∧ (∀ pcm ts clock, ∃ ch' out, encode_wave ch pcm ts clock = Ok (ch', out)).
Proof.
  intros [Hok _]%reachable_inv. split.
  - intros payload clock Hb Hl. unfold on_channel_data.
    pose proof (dechunkify_spec payload Hb Hl) as Hd.
    destruct (dechunkify payload) as [[[? ?] body]| |]; [|done..].
    pose proof (snd_client_message_safe body) as Hm.
    specialize (Hm ltac:(tauto) ltac:(tauto)).
    change (no_panic (m ← decode_client_message body;
      mret (M := res DecodeError) (on_message ch m clock))).
    destruct (decode_client_message body); [exact I|exact I|done].
  - intros pcm ts clock. destruct (encode_wave_total ch pcm ts clock Hok) as (? & ? & ? & _). eauto.
Qed.
End sessions.

Section waves.
Context {H : Type} `{!RdpsndServerHandler H, !HandlerTyped H}.
Implicit Types ch : RdpsndChannel H.

(** The static-channel frames of a sequence of messages. *)
Definition frames ch (msgs : list bytes) : list bytes :=
  concat (wrap_indication (user_channel_id ch) (channel_id ch) <$> msgs).

Lemma frames_pairs ch (pqs : list (bytes * bytes)) :
  concat ((λ pq, wrap_indication (user_channel_id ch) (channel_id ch) pq.1
                 ++ wrap_indication (user_channel_id ch) (channel_id ch) pq.2) <$> pqs)
  = frames ch (concat ((λ pq, [pq.1; pq.2]) <$> pqs)).
Proof.
  unfold frames. induction pqs as [|[p q] pqs IH]; [done|].
  rewrite !fmap_cons. cbn [concat fst snd]. rewrite IH, !fmap_app. cbn [fmap list_fmap].
  rewrite concat_app. cbn [concat]. by rewrite app_nil_r.
Qed.

(** What [encode_wave] produces. *)
Definition wave_output ch pcm (clock : Clock) ch' out : Prop :=
  match state ch, should_skip_send ch (clock 0%nat), negotiated ch with
  | Ready, false, Some n =>
    let ts := now_ms (clock 1%nat) in
    ∃ cs k, (should_skip_send ch (clock 2%nat) = false → (0 < k)%nat) ∧
    if VERSION_V8 <=? client_version ch then
      concat cs = pcm ∧ ∃ msgs, out = frames ch msgs
        ∧ Forall2 (λ m b, run read_wave2 m = Ok b) msgs (blocks ch (format_no n) ts (take k cs))
        ∧ k = length msgs
    else
      concat cs = pad4 pcm ∧ ∃ pairs, out = frames ch (concat ((λ pq, [pq.1; pq.2]) <$> pairs))
        ∧ Forall2 reads_wave_pair pairs
            (blocks ch (format_no n) (as_u16 ts) (pad4 <$> take k cs))
        ∧ k = length pairs
  | _, _, _ => out = [] ∧ ch' = ch
  end.

Lemma encode_wave_spec ch pcm ts clock :
  window_ok ch →
  ∃ ch' out, encode_wave ch pcm ts clock = Ok (ch', out) ∧ wave_output ch pcm clock ch' out.
Proof.
  intros Hok. unfold encode_wave, wave_output.
  destruct (state ch); try (by eexists _, _); []. destruct (should_skip_send ch _); [by eexists _, _|].
  destruct (negotiated ch) as [n|] eqn:En; [|by eexists _, _]. cbn [fmap option_fmap option_map].
  assert (u16_ok (format_no n)) as Hn by (destruct Hok as (_ & _ & _ & Hn); by rewrite En in Hn).
  destruct (VERSION_V8 <=? client_version ch).
  - set (cs := if bool_decide (pcm = []) then [[]] else chunks MAX_WAVE2_CHUNK_BYTES pcm).
    assert (concat cs = pcm ∧ cs ≠ [] ∧ Forall (λ c, len c ≤ MAX_WAVE2_CHUNK_BYTES) cs)
      as (Hc & Hne & Hb).
    { subst cs. case_bool_decide; [subst; split_and!; [done|done|by repeat constructor]|].
      split_and!; [by apply concat_chunks|by rewrite chunks_step|].
      eapply Forall_impl; [by apply chunks_bound|]. cbn. lia. }
    destruct (wave2_loop_spec cs ch (format_no n) (now_ms (clock 1%nat)) (later 2 clock) [])
      as (ch' & k & msgs & E & _ & _ & Hm & Ek & Hk); [done|done|apply as_u32_ok|done|].
    eexists _, _. split; [exact E|]. exists cs, k. split; [auto|]. split; [done|]. by exists msgs.
  - set (cs := chunks MAX_WAVE_INFO_CHUNK_BYTES (pad4 pcm)).
    destruct (wave_info_loop_spec cs ch (format_no n) (now_ms (clock 1%nat)) (later 2 clock) [])
      as (ch' & k & pairs & E & _ & _ & Hm & Ek & Hk); [done|done| |].
    { eapply Forall_impl; [by apply chunks_bound|]. cbn. lia. }
    eexists _, _. split; [exact E|]. exists cs, k. split.
    { apply Hk. subst cs. rewrite chunks_step; [done|done|]. apply pad4_nonempty. }
    split; [by apply concat_chunks|]. exists pairs. split; [by rewrite <-frames_pairs|done].
Qed.

(** C35. Audio on the wire.  A buffer of samples is sent only by a channel that
    finished the handshake, has a format and is not holding back; then a v8
    client reads, from Wave2 messages, and an older one, from WaveInfo and Wave
    pairs, the first [k] pieces of the buffer in order and unaltered (an older
    client gets at least four bytes per piece, padded with zeros), each under
    the negotiated format number and its own consecutive block number, and
    [k] is not zero if the channel still is not holding back when the loop
    starts. *)
Theorem rdpsnd_wave_delivered cid uid (h0 : H) ch pcm ts clock :
  reachable cid uid h0 ch →
  ∃ ch' out, encode_wave ch pcm ts clock = Ok (ch', out) ∧ wave_output ch pcm clock ch' out.
Proof. intros [Hok _]%reachable_inv. by apply encode_wave_spec. Qed.

(** The clock shows that what the client was last measured to hold, and all that
    was sent since, has played down to the target. *)
Definition played_down ch (now : Z) : Prop :=
  0 ≤ now < 2 ^ 32 ∧
  match playback_hold_ms ch with
  | Some hold => hold_at_ms ch + hold + saturating_sub (total_sent_ms ch) (sent_ms_at_hold ch)
                   ≤ now + TARGET_HOLD_MS
  | None => True
  end.

Lemma played_down_sends ch now :
  pending_count ch < MAX_UNACKED_BLOCKS → played_down ch now → should_skip_send ch now = false.
Proof.
  intros Hp [Hn Hh]. unfold should_skip_send. rewrite (proj2 (Z.leb_gt _ _)) by done.
  apply Z.ltb_ge. unfold estimated_hold_ms, TARGET_HOLD_MS in *.
  destruct (playback_hold_ms ch) as [hold|]; [|lia].
  unfold now_ms. rewrite as_u32_id by lia.
  unfold saturating_sub, saturating_add_u32 in *. lia.
Qed.

Lemma frames_nonempty ch m msgs : frames ch (m :: msgs) ≠ [].
Proof.
  unfold frames. rewrite fmap_cons. cbn [concat]. intros [E _]%app_eq_nil.
  unfold wrap_indication in E. apply fmap_nil_inv in E. by apply chunkify_nonempty in E.
Qed.

(** Holding back ends by itself: with the handshake done, a format chosen and
    the window open, once the clock shows that the measured play queue has
    played down to the target the next samples are sent; no further message
    from the client is needed. *)
Theorem rdpsnd_sending_resumes cid uid (h0 : H) ch pcm ts now :
  reachable cid uid h0 ch → state ch = Ready → is_Some (negotiated ch) →
  pending_count ch < MAX_UNACKED_BLOCKS → played_down ch now →
  ∃ ch' out, encode_wave ch pcm ts (λ _, now) = Ok (ch', out) ∧ out ≠ [].
Proof.
  intros [Hok _]%reachable_inv Es [n En] Hp Hd.
  pose proof (played_down_sends ch now Hp Hd) as Hskip.
  destruct (encode_wave_spec ch pcm ts (λ _, now) Hok) as (ch' & out & E & Hw).
  exists ch', out. split; [done|]. unfold wave_output in Hw. rewrite Es, Hskip, En in Hw.
  destruct Hw as (cs & k & Hk & Hw). specialize (Hk eq_refl).
  destruct (VERSION_V8 <=? client_version ch).
  - destruct Hw as (_ & [|m msgs] & -> & _ & ->); [cbn in Hk; lia|]. apply frames_nonempty.
  - destruct Hw as (_ & [|[p q] pairs] & -> & _ & ->); [cbn in Hk; lia|]. apply frames_nonempty.
Qed.

(** The millisecond clock is a [u32] that wraps after 49.7 days: for as long
    after the wrap as the last measurement was old before it, no time seems to
    pass, so a channel whose measured queue plus what it sent since exceeds the
    target sends nothing. *)
Theorem rdpsnd_clock_wrap_holds_back ch hold now :
  playback_hold_ms ch = Some hold → hold < 2 ^ 32 →
  2 ^ 32 ≤ now ≤ 2 ^ 32 + hold_at_ms ch → hold_at_ms ch < 2 ^ 32 →
  TARGET_HOLD_MS < hold + saturating_sub (total_sent_ms ch) (sent_ms_at_hold ch) →
  should_skip_send ch now = true.
Proof.
  intros Eh Hh Hn Hat Hover. unfold should_skip_send. destruct (_ <=? _); [done|].
  apply Z.ltb_lt. unfold estimated_hold_ms. rewrite Eh.
  unfold now_ms, as_u32, saturating_sub, saturating_add_u32, TARGET_HOLD_MS in *.
  destruct (decide (now = 2 ^ 32 + 2 ^ 32)) as [->|]; [lia|].
  replace (now mod 2 ^ 32) with (now - 2 ^ 32); [lia|].
  apply Z.mod_unique_pos with 1; lia.
Qed.
End waves.

(** ** A concrete session *)

(** A backend that offers one format, takes the first common one and logs. *)
Record SampleBackend := { sb_started : list NegotiatedFormat; sb_stopped : bool }.

#[local] Instance sample_backend : RdpsndServerHandler SampleBackend := {
  get_formats _ := [AudioFormat_pcm 2 48000 16];
  choose_format h l := (head l, h);
  start h n := {| sb_started := n :: sb_started h; sb_stopped := sb_stopped h |};
  stop h := {| sb_started := sb_started h; sb_stopped := true |};
}.

#[local] Instance sample_backend_typed : HandlerTyped SampleBackend.
Proof. intros h l Hl. destruct Hl; done. Qed.

Section playing.
Context {H : Type} `{!RdpsndServerHandler H, !HandlerTyped H}.

Definition play_data (ch : RdpsndChannel H) (payload : bytes) : RdpsndChannel H :=
  match on_channel_data ch payload (λ _, 0) with Ok (ch', _) => ch' | _ => ch end.
Definition play_wave (ch : RdpsndChannel H) (pcm : bytes) (now : Z) : RdpsndChannel H :=
  match encode_wave ch pcm 0 (λ _, now) with Ok (ch', _) => ch' | _ => ch end.

Lemma play_data_reachable cid uid h0 ch payload :
  forallb (λ b, (0 <=? b) && (b <? 256)) payload = true → len payload < 2 ^ 63 →
  reachable cid uid h0 ch → reachable cid uid h0 (play_data ch payload).
Proof.
  intros Hb Hl Hr. unfold play_data.
  destruct (on_channel_data ch payload _) as [[ch' out]| |] eqn:E; [|done..].
  eapply rtc_r; [exact Hr|]. eapply step_data; [|done|exact E].
  apply Forall_forall. intros b Hin. rewrite forallb_forall in Hb.
  apply list_elem_of_In, Hb in Hin. unfold byte_ok. lia.
Qed.

Lemma play_wave_reachable cid uid h0 ch pcm now :
  reachable cid uid h0 ch → reachable cid uid h0 (play_wave ch pcm now).
Proof.
  intros Hr. unfold play_wave. destruct (encode_wave ch pcm _ _) as [[ch' out]| |] eqn:E; [|done..].
  eapply rtc_r; [exact Hr|]. by eapply step_wave.
Qed.
End playing.

(** The messages of a v8 client: its formats, Quality Mode, training confirm. *)
Definition hello : list bytes :=
  (λ m, write_u32_le 0 ++ write_u32_le 3 ++ m) <$>
    [encode_server_audio_formats [AudioFormat_pcm 2 48000 16];
     write_header SNDC_QUALITYMODE 0; write_header SNDC_TRAINING 0].

Definition sample_start : RdpsndChannel SampleBackend :=
  fst (channel_new 1005 1002 {| sb_started := []; sb_stopped := false |}).
Definition sample_ready : RdpsndChannel SampleBackend := foldl play_data sample_start hello.
Definition sample_playing : RdpsndChannel SampleBackend := play_wave sample_ready [1; 2; 3; 4] 20.

Lemma sample_ready_reachable :
  reachable 1005 1002 {| sb_started := []; sb_stopped := false |} sample_ready.
Proof.
  unfold sample_ready, hello. cbn [fmap list_fmap foldl].
  apply play_data_reachable; [vm_compute; reflexivity|vm_compute; reflexivity|].
  apply play_data_reachable; [vm_compute; reflexivity|vm_compute; reflexivity|].
  apply play_data_reachable; [vm_compute; reflexivity|vm_compute; reflexivity|].
  apply rtc_refl.
Qed.

Lemma sample_playing_reachable :
  reachable 1005 1002 {| sb_started := []; sb_stopped := false |} sample_playing.
Proof. apply play_wave_reachable, sample_ready_reachable. Qed.

Lemma rdpsnd_window_bounded_witness :
  pending_count sample_playing = 1
  ∧ pending_count sample_playing = Z.of_nat (pend (block_pending sample_playing))
  ∧ pending_count sample_playing ≤ MAX_UNACKED_BLOCKS.
Proof.
  split; [vm_compute; reflexivity|].
  exact (rdpsnd_window_bounded 1005 1002 _ sample_playing sample_playing_reachable).
Defined.

Lemma rdpsnd_backend_protocol_witness :
  state sample_playing = Ready ∧ length (sb_started (handler sample_playing)) = 1%nat
  ∧ session_history {| sb_started := []; sb_stopped := false |} sample_playing.
Proof.
  split; [vm_compute; reflexivity|]. split; [vm_compute; reflexivity|].
  exact (rdpsnd_backend_protocol 1005 1002 _ sample_playing sample_playing_reachable).
Defined.

Lemma rdpsnd_never_panics_witness :
  (∀ payload clock, bytes_ok payload → len payload < 2 ^ 63 →
     no_panic (on_channel_data sample_playing payload clock))
  ∧ (∀ pcm ts clock, ∃ ch' out, encode_wave sample_playing pcm ts clock = Ok (ch', out)).
Proof. exact (rdpsnd_never_panics 1005 1002 _ sample_playing sample_playing_reachable). Defined.

Lemma rdpsnd_wave_delivered_witness :
  ∃ ch' out, encode_wave sample_ready [1; 2; 3; 4] 0 (λ _, 20) = Ok (ch', out)
    ∧ wave_output sample_ready [1; 2; 3; 4] (λ _, 20) ch' out.
Proof.
  exact (rdpsnd_wave_delivered 1005 1002 _ sample_ready [1; 2; 3; 4] 0 (λ _, 20)
           sample_ready_reachable).
Defined.

Lemma rdpsnd_sending_resumes_witness :
  ∃ ch' out, encode_wave sample_playing [1; 2; 3; 4] 0 (λ _, 40) = Ok (ch', out) ∧ out ≠ [].
Proof.
  apply (rdpsnd_sending_resumes 1005 1002 _ sample_playing [1; 2; 3; 4] 0 40
           sample_playing_reachable); [vm_compute; reflexivity| | |].
  - eexists. vm_compute. reflexivity.
  - vm_compute. reflexivity.
  - split; [lia|]. vm_compute. exact I.
Defined.

(** A client that confirmed a block after playing it, then the wrap of the clock. *)
Definition sample_held : RdpsndChannel SampleBackend :=
  set_hold sample_ready (Some 100) 1000 0 0.

Lemma rdpsnd_clock_wrap_holds_back_witness :
  should_skip_send sample_held (2 ^ 32 + 900) = true.
Proof.
  apply (rdpsnd_clock_wrap_holds_back sample_held 100 (2 ^ 32 + 900)); vm_compute; try reflexivity.
  split; congruence.
Defined.
