(* ===== verification/WaveChannel.v ===== *)
(** [rdpcore-rdpsnd/src/lib.rs], [wave_channel]: the latest-wins mailbox between
    the capture thread(s) and the session task.  A slot behind a mutex holds the
    newest wave; a tokio channel of depth one wakes the subscriber.  The model
    interleaves any number of publishers with one subscriber at the granularity
    of their atomic actions. *)
From S2P Require Import Prelude.

(** [RdpsndServerMessage::Wave]. *)
Record Wave := { wave_pcm : bytes; wave_timestamp : Z }.

(** ** The wake-up channel *)

Inductive TrySend := SendOk | SendFull | SendClosed.

(** [tokio::sync::mpsc::channel(1)], as its documentation describes it while the
    receiver is alive: [try_send] queues a message or reports that one is
    already queued, and [recv] completes, taking it, when one is queued. *)
Class NotifyChannel (C : Type) := {
  notify_new : C;
  try_send : C → TrySend * C;
  recv : C → option C;
  receiver_alive : C → Prop;
  new_alive : receiver_alive notify_new;
  send_alive c : receiver_alive c → receiver_alive (snd (try_send c));
  recv_alive c c' : recv c = Some c' → receiver_alive c → receiver_alive c';
  send_ok c c' : try_send c = (SendOk, c') → is_Some (recv c');
  send_full c c' : try_send c = (SendFull, c') → c' = c ∧ is_Some (recv c);
  send_closed c c' : try_send c = (SendClosed, c') → ¬ receiver_alive c;
}.

Section mailbox.
Context {C : Type} `{!NotifyChannel C}.

(** ** State *)

(** Where the task that calls [WaveSubscriber::recv] is. *)
Inductive Subscriber := Idle | Checking | Waiting.

(** [latest] and [notify] are the shared state; [sending] counts the publishers
    that have stored their wave and not yet called [try_send]; [published] and
    [delivered] record the history, newest first. *)
Record Mailbox := {
  latest : option Wave; notify : C; sending : nat; subscriber : Subscriber;
  published : list Wave; delivered : list Wave }.

(** ** The atomic actions *)

Definition wave_channel : Mailbox :=
  {| latest := None; notify := notify_new; sending := 0; subscriber := Idle;
     published := []; delivered := [] |}.

(** [publish], first half: overwrite the slot. *)
Definition publish_store (w : Wave) (m : Mailbox) : Mailbox :=
  {| latest := Some w; notify := notify m; sending := S (sending m);
     subscriber := subscriber m; published := w :: published m; delivered := delivered m |}.

(** [publish], second half: wake the subscriber; [false] if it is gone. *)
Definition publish_notify (m : Mailbox) : bool * Mailbox :=
  let '(r, c) := try_send (notify m) in
  (match r with SendOk | SendFull => true | SendClosed => false end,
   {| latest := latest m; notify := c; sending := pred (sending m);
      subscriber := subscriber m; published := published m; delivered := delivered m |}).

Definition take_latest (m : Mailbox) : option Wave * Mailbox :=
  (latest m, {| latest := None; notify := notify m; sending := sending m;
                subscriber := subscriber m; published := published m;
                delivered := match latest m with Some w => w :: delivered m | None => delivered m end |}).

Definition set_subscriber (s : Subscriber) (m : Mailbox) : Mailbox :=
  {| latest := latest m; notify := notify m; sending := sending m; subscriber := s;
     published := published m; delivered := delivered m |}.

(** One turn of [recv]'s loop up to its await point: return the newest wave, or
    wait. *)
Definition recv_check (m : Mailbox) : Mailbox :=
  match take_latest m with
  | (Some _, m) => set_subscriber Idle m
  | (None, m) => set_subscriber Waiting m
  end.

(** [notify.recv().await] completes. *)
Definition recv_wake (m : Mailbox) : option Mailbox :=
  c ← recv (notify m);
  mret {| latest := latest m; notify := c; sending := sending m; subscriber := Checking;
          published := published m; delivered := delivered m |}.

Inductive mailbox_step : Mailbox → Mailbox → Prop :=
  | step_store w m : mailbox_step m (publish_store w m)
  | step_notify m : sending m ≠ 0%nat → mailbox_step m (snd (publish_notify m))
  | step_call m : subscriber m = Idle → mailbox_step m (set_subscriber Checking m)
  | step_check m : subscriber m = Checking → mailbox_step m (recv_check m)
  | step_wake m m' : subscriber m = Waiting → recv_wake m = Some m' → mailbox_step m m'.

(** ** Invariant *)

Definition mailbox_inv (m : Mailbox) : Prop :=
  receiver_alive (notify m)
  ∧ (is_Some (latest m) → subscriber m = Waiting →
       sending m ≠ 0%nat ∨ is_Some (recv (notify m)))
  ∧ match latest m with
    | Some w => ∃ older, published m = w :: older ∧ delivered m `sublist_of` older
    | None => delivered m `sublist_of` published m
    end.

Lemma publish_notify_queued m :
  receiver_alive (notify m) →
  fst (publish_notify m) = true ∧ is_Some (recv (notify (snd (publish_notify m)))).
Proof.
  unfold publish_notify. intros Ha. destruct (try_send (notify m)) as [[] c] eqn:E; cbn.
  - split; [done|]. by eapply send_ok.
  - split; [done|]. by apply send_full in E as [-> ?].
  - by apply send_closed in E.
Qed.

Lemma mailbox_step_inv m m' : mailbox_step m m' → mailbox_inv m → mailbox_inv m'.
Proof.
  intros Hs (Ha & Hw & Hd). destruct Hs as [w m|m Hn|m Hs|m Hs|m m' Hs Hr].
  - split; [done|]. split; [intros _ _; by left|]. cbn. exists (published m). split; [done|].
    destruct (latest m) as [w'|]; [|done]. destruct Hd as (older & -> & Hd).
    by apply sublist_cons.
  - destruct (publish_notify_queued m Ha) as [_ Hq].
    pose proof (send_alive _ Ha) as Ha'. revert Hq Ha'. unfold publish_notify.
    destruct (try_send (notify m)) as [r c]. cbn. intros Hq Ha'.
    split; [done|]. split; [by right|done].
  - by split.
  - unfold recv_check, take_latest. destruct (latest m) as [w|] eqn:El; cbn.
    + split; [done|]. split; [by intros []|]. cbn. destruct Hd as (older & -> & Hd).
      by apply sublist_skip.
    + split; [done|]. split; [by intros []|done].
  - unfold recv_wake in Hr. destruct (recv (notify m)) as [c|] eqn:Er; [|done].
    injection Hr as <-. split; [exact (recv_alive _ _ Er Ha)|]. split; [by intros _ [=]|done].
Qed.

Lemma reachable_mailbox_inv m : rtc mailbox_step wave_channel m → mailbox_inv m.
Proof.
  intros Hr. assert (mailbox_inv wave_channel) as Hi.
  { split; [apply new_alive|]. split; [by intros []|constructor]. }
  revert Hi. induction Hr as [|m1 m2 m3 Hs _ IH]; [done|]. intros Hi.
  by apply IH, (mailbox_step_inv m1).
Qed.

(** C36. No wave is stranded.  However publishers and the subscriber interleave,
    whenever a wave sits in the slot the subscriber can move: it is not waiting,
    or its wake-up is already queued, or the publisher that stored the wave has
    yet to send it, and that send succeeds and leaves the wake-up queued. *)
Theorem wave_channel_no_lost_wakeup m :
  rtc mailbox_step wave_channel m → is_Some (latest m) →
  subscriber m ≠ Waiting ∨ is_Some (recv_wake m)
  ∨ (sending m ≠ 0%nat ∧ fst (publish_notify m) = true
     ∧ is_Some (recv_wake (snd (publish_notify m)))).
Proof.
  intros (Ha & Hw & _)%reachable_mailbox_inv Hl.
  assert (∀ m0 : Mailbox, is_Some (recv (notify m0)) → is_Some (recv_wake m0)) as Hwake.
  { intros m0 [c E]. unfold recv_wake. rewrite E. by eexists. }
  destruct (subscriber m) eqn:Es; [by left|by left|right].
  destruct (Hw Hl eq_refl) as [Hn|Hq]; [right|left; by apply Hwake].
  destruct (publish_notify_queued m Ha) as [? ?]. auto.
Qed.

(** Latest wins, once.  What a subscriber takes is the newest wave published
    so far, and the waves it has taken are a subsequence of those published: a
    wave is never delivered twice, out of order or after a newer one. *)
Theorem wave_channel_latest_wins m :
  rtc mailbox_step wave_channel m →
  delivered m `sublist_of` published m
  ∧ match fst (take_latest m) with
    | Some w => head (published m) = Some w
        ∧ delivered (snd (take_latest m)) `sublist_of` published m
    | None => True
    end.
Proof.
  intros (_ & _ & Hd)%reachable_mailbox_inv. unfold take_latest. cbn.
  destruct (latest m) as [w|]; [|done]. destruct Hd as (older & -> & Hd).
  split; [by apply sublist_cons|]. split; [done|]. by apply sublist_skip.
Qed.
End mailbox.
Arguments Mailbox C : clear implicits.

(** ** A concrete channel of depth one *)

#[local] Instance bool_channel : NotifyChannel bool.
Proof.
  refine {| notify_new := false;
    try_send c := if c then (SendFull, c) else (SendOk, true);
    recv c := if c then Some false else None;
    receiver_alive _ := True |}; try (by intros); try (by intros []).
  - intros [] c' [= <-]; by eexists.
  - intros [] c' [= <-]; by split.
Defined.

Definition sample_wave : Wave := {| wave_pcm := [1; 2]; wave_timestamp := 20 |}.

(** The subscriber went to sleep, then a wave was stored. *)
Definition sample_mailbox : Mailbox bool :=
  publish_store sample_wave (recv_check (set_subscriber Checking wave_channel)).

Lemma sample_mailbox_reachable : rtc mailbox_step wave_channel sample_mailbox.
Proof.
  unfold sample_mailbox. eapply rtc_l; [by apply (step_call wave_channel)|].
  eapply rtc_l; [by apply step_check|]. eapply rtc_l; [apply (step_store sample_wave)|].
  apply rtc_refl.
Qed.

Lemma wave_channel_no_lost_wakeup_witness :
  subscriber sample_mailbox = Waiting ∧
  (subscriber sample_mailbox ≠ Waiting ∨ is_Some (recv_wake sample_mailbox)
   ∨ (sending sample_mailbox ≠ 0%nat ∧ fst (publish_notify sample_mailbox) = true
     ∧ is_Some (recv_wake (snd (publish_notify sample_mailbox))))).
Proof.
  split; [reflexivity|].
  apply (wave_channel_no_lost_wakeup sample_mailbox sample_mailbox_reachable). by eexists.
Defined.

Lemma wave_channel_latest_wins_witness :
  delivered sample_mailbox `sublist_of` published sample_mailbox
  ∧ match fst (take_latest sample_mailbox) with
    | Some w => head (published sample_mailbox) = Some w
        ∧ delivered (snd (take_latest sample_mailbox)) `sublist_of` published sample_mailbox
    | None => True
    end.
Proof. exact (wave_channel_latest_wins sample_mailbox sample_mailbox_reachable). Defined.
