(* ===== verification/Transport.v ===== *)
(** [rdpcore-server/src/transport.rs]: where one frame ends and the next begins in the bytes of a
    client, during the connection sequence and after it. *)
From S2P Require Import Prelude Cursor Framing Per Finalization Fastpath.

(** ** Reading from the client *)

Inductive IoError := UnexpectedEof | InvalidData (msg : string).

(** A reader of the bytes that are still to come, as a stream that ends: [read_exact] waits for
    bytes, and fails where there are no more. *)
Definition stream (A : Type) : Type := bytes → res IoError (A * bytes).
Global Instance stream_ret : MRet stream := λ A a s, Ok (a, s).
Global Instance stream_bind : MBind stream := λ A B k m s,
  match m s with Ok (a, s) => k a s | Err e => Err e | Panic => Panic end.
Definition stream_fail {A} (e : IoError) : stream A := λ _, Err e.

Definition read_exact (n : Z) : stream bytes := λ s,
  if decide (n ≤ len s) then Ok (ztake n s, zdrop n s) else Err UnexpectedEof.

(** [l[i]] *)
Definition byte_of (l : bytes) (i : nat) : stream Z := λ s,
  match l !! i with Some b => Ok (b, s) | None => Panic end.
(** [vec![0u8; n - m]] on [usize]. *)
Definition usize_sub (n m : Z) : stream Z := λ s, if decide (m ≤ n) then Ok (n - m, s) else Panic.

Definition invalid_framing {A} (msg : string) : stream A := stream_fail (InvalidData msg).

Definition read_tpkt_frame : stream bytes :=
  header ← read_exact 4;
  h2 ← byte_of header 2;
  h3 ← byte_of header 3;
  let packet_length := from_be [h2; h3] in
  if packet_length <? 4 then invalid_framing "TPKT length shorter than header" else
  n ← usize_sub packet_length 4;
  rest ← read_exact n;
  mret (header ++ rest).

Definition read_fastpath_frame_after (header_byte : Z) : stream bytes :=
  b ← read_exact 1;
  b1 ← byte_of b 0;
  let buf := [header_byte; b1] in
  '(buf, total_length) ←
    (if Z.land b1 0x80 =? 0 then mret (buf, b1)
     else
       third ← read_exact 1;
       b2 ← byte_of third 0;
       mret (buf ++ [b2], Z.lor (Z.shiftl (Z.land b1 0x7F) 8) b2));
  if total_length <? len buf then invalid_framing "fast-path length shorter than header" else
  n ← usize_sub total_length (len buf);
  rest ← read_exact n;
  mret (buf ++ rest).

Definition read_tpkt_frame_after : stream bytes :=
  rest_of_header ← read_exact 3;
  h1 ← byte_of rest_of_header 1;
  h2 ← byte_of rest_of_header 2;
  let packet_length := from_be [h1; h2] in
  if packet_length <? 4 then invalid_framing "TPKT length shorter than header" else
  n ← usize_sub packet_length 4;
  rest ← read_exact n;
  mret (0x03 :: rest_of_header ++ rest).

Inductive SteadyStateFrame := FastPathInput (frame : bytes) | SlowPath (frame : bytes).

Definition read_steady_state_frame : stream SteadyStateFrame :=
  header_byte ← read_exact 1;
  h ← byte_of header_byte 0;
  if h =? 0x03 then frame ← read_tpkt_frame_after; mret (SlowPath frame)
  else frame ← read_fastpath_frame_after h; mret (FastPathInput frame).

Definition frame_bytes_of (f : SteadyStateFrame) : bytes :=
  match f with FastPathInput b => b | SlowPath b => b end.

(** The frames a session reads until the first error; [fuel] bounds their number. *)
Fixpoint read_frames (fuel : nat) (s : bytes) : list SteadyStateFrame * res IoError unit :=
  match fuel with
  | O => ([], Panic)
  | S fuel =>
    match read_steady_state_frame s with
    | Ok (f, s) => let '(fs, e) := read_frames fuel s in (f :: fs, e)
    | Err e => ([], Err e)
    | Panic => ([], Panic)
    end
  end.

(** ** On any bytes *)

Lemma read_exact_spec n s : 0 ≤ n →
  (∃ a s', read_exact n s = Ok (a, s') ∧ s = a ++ s' ∧ len a = n) ∨ read_exact n s = Err UnexpectedEof.
Proof.
  intros Hn. unfold read_exact. case_decide; [left|by right].
  exists (ztake n s), (zdrop n s). split; [done|]. split; [by rewrite ztake_zdrop|]. by apply len_ztake.
Qed.

Lemma read_exact_app n a s : len a = n → read_exact n (a ++ s) = Ok (a, s).
Proof.
  intros <-. unfold read_exact. pose proof (len_nonneg s). rewrite decide_True by (rewrite len_app; lia).
  by rewrite ztake_app_len, zdrop_app_len.
Qed.

Lemma len_1 {A} (l : list A) : len l = 1 → ∃ x, l = [x].
Proof. unfold len. intros H. destruct l as [|x [|]]; cbn in H; try lia. by exists x. Qed.
Lemma len_3 {A} (l : list A) : len l = 3 → ∃ x y z, l = [x; y; z].
Proof. unfold len. intros H. destruct l as [|x [|y [|z [|]]]]; cbn in H; try lia. by exists x, y, z. Qed.

(** A frame is what was consumed for it, its first byte included. *)
Definition splits (h s : bytes) (r : res IoError (bytes * bytes)) : Prop :=
  match r with Ok (f, s') => h ++ s = f ++ s' ∧ len h ≤ len f | Err _ => True | Panic => False end.

Lemma tpkt_rest_splits h l s :
  splits h s ((if l <? 4 then invalid_framing "TPKT length shorter than header" else
    n ← usize_sub l 4; rest ← read_exact n; mret (h ++ rest)) s).
Proof.
  destruct (Z.ltb_spec l 4); [done|]. unfold mbind, stream_bind, usize_sub. rewrite decide_True by lia.
  destruct (read_exact_spec (l - 4) s) as [(a & s' & -> & -> & _)| ->]; [lia| |done]. cbn.
  rewrite app_assoc. split; [done|]. pose proof (len_nonneg a). rewrite len_app. lia.
Qed.

Lemma tpkt_after_splits s : splits [0x03] s (read_tpkt_frame_after s).
Proof.
  unfold read_tpkt_frame_after, mbind, stream_bind.
  destruct (read_exact_spec 3 s) as [(a & s' & -> & -> & Ha)| ->]; [lia| |done].
  apply len_3 in Ha as (x & y & z & ->). cbn [byte_of lookup list_lookup].
  pose proof (tpkt_rest_splits [0x03; x; y; z] (from_be [y; z]) s') as H.
  destruct (_ <? 4); [done|]. unfold mbind, stream_bind in H.
  destruct (usize_sub _ 4 s') as [[n s2]| |]; [..|done|done].
  destruct (read_exact n s2) as [[r s3]| |]; [|done..]. cbn in *. destruct H as [E _].
  split; [exact E|]. unfold len. cbn. lia.
Qed.

Lemma fastpath_rest_splits (buf : bytes) total s :
  splits buf s ((if total <? len buf then invalid_framing "fast-path length shorter than header" else
    n ← usize_sub total (len buf); rest ← read_exact n; mret (buf ++ rest)) s).
Proof.
  destruct (Z.ltb_spec total (len buf)); [done|]. unfold mbind, stream_bind, usize_sub. rewrite decide_True by lia.
  destruct (read_exact_spec (total - len buf) s) as [(a & s' & -> & -> & _)| ->]; [lia| |done]. cbn.
  rewrite app_assoc. split; [done|]. pose proof (len_nonneg a). rewrite len_app. lia.
Qed.

Lemma splits_weaken h x s r : splits (h ++ x) s r → splits h (x ++ s) r.
Proof.
  unfold splits. destruct r as [[f s']| |]; [|done..]. intros [<- Hl]. rewrite <-app_assoc. split; [done|].
  pose proof (len_nonneg x). rewrite len_app in Hl. lia.
Qed.

Lemma fastpath_after_splits h s : splits [h] s (read_fastpath_frame_after h s).
Proof.
  unfold read_fastpath_frame_after. unfold mbind at 1, stream_bind at 1.
  destruct (read_exact_spec 1 s) as [(a & s' & -> & -> & Ha)| ->]; [lia| |done].
  apply len_1 in Ha as [b1 ->]. unfold mbind at 1, stream_bind at 1. cbn [byte_of lookup list_lookup].
  unfold mbind at 1, stream_bind at 1. destruct (Z.land b1 0x80 =? 0).
  - exact (splits_weaken [h] [b1] s' _ (fastpath_rest_splits [h; b1] b1 s')).
  - unfold mbind at 1, stream_bind at 1.
    destruct (read_exact_spec 1 s') as [(a & s2 & -> & -> & Ha)| ->]; [lia| |done].
    apply len_1 in Ha as [b2 ->].
    exact (splits_weaken [h] [b1; b2] s2 _ (fastpath_rest_splits [h; b1; b2] (Z.lor (Z.shiftl (Z.land b1 0x7F) 8) b2) s2)).
Qed.

Lemma steady_frame_splits s :
  match read_steady_state_frame s with
  | Ok (f, s') => s = frame_bytes_of f ++ s' ∧ 1 ≤ len (frame_bytes_of f)
  | Err _ => True
  | Panic => False
  end.
Proof.
  unfold read_steady_state_frame, mbind, stream_bind.
  destruct (read_exact_spec 1 s) as [(a & s' & -> & -> & Ha)| ->]; [lia| |done].
  apply len_1 in Ha as [h ->]. cbn [byte_of lookup list_lookup]. destruct (Z.eqb_spec h 0x03) as [->|_].
  - pose proof (tpkt_after_splits s') as H. destruct (read_tpkt_frame_after s') as [[f s2]| |]; [|done..]. exact H.
  - pose proof (fastpath_after_splits h s') as H. destruct (read_fastpath_frame_after h s') as [[f s2]| |]; [|done..].
    exact H.
Qed.

(** The frames read are the beginning of the stream, and reading them ends. *)
Lemma read_frames_splits fuel s : (length s < fuel)%nat →
  let '(fs, r) := read_frames fuel s in
  (∃ e, r = Err e) ∧ ∃ rest, s = concat (frame_bytes_of <$> fs) ++ rest.
Proof.
  revert s. induction fuel as [|fuel IH]; intros s Hn; [lia|]. cbn [read_frames].
  pose proof (steady_frame_splits s) as H. destruct (read_steady_state_frame s) as [[f s']|e|]; [| |done].
  - destruct H as [-> Hf]. specialize (IH s'). unfold len in Hf. rewrite length_app in Hn.
    destruct (read_frames fuel s') as [fs r]. destruct IH as [He [rest ->]]; [lia|].
    split; [done|]. exists rest. cbn. by rewrite app_assoc.
  - split; [by exists e|]. by exists s.
Qed.

(** ** A client's frames *)

Lemma read_tpkt_after_frame payload s : 7 + len payload ≤ 65535 →
  read_steady_state_frame (wrap_data payload ++ s) = Ok (SlowPath (wrap_data payload), s).
Proof.
  intros Hl. pose proof (len_nonneg payload).
  assert (∃ h1 h2 rest, wrap_data payload = [0x03; 0; h1; h2] ++ rest
    ∧ from_be [h1; h2] = 7 + len payload ∧ len rest = 3 + len payload) as (h1 & h2 & rest & -> & Eh & Er).
  { unfold wrap_data, TpktHeader_write, TPKT_HEADER_SIZE. cbn [packet_length].
    rewrite Z.min_l, as_u16_id by lia. unfold write_u16_be.
    destruct (to_be 2 (4 + 3 + len payload)) as [|h1 [|h2 [|]]] eqn:E;
      try (apply (f_equal length) in E; rewrite length_to_be in E; done).
    exists h1, h2. eexists. split; [by rewrite <-!(assoc_L (++))|]. rewrite <-E, from_to_be. split.
    - apply Z.mod_small. lia.
    - rewrite len_app, len_write_slice. unfold TpduHeader_write. cbn [code li]. rewrite Z.eqb_refl.
      autorewrite with len. lia. }
  unfold read_steady_state_frame, mbind, stream_bind.
  rewrite <-app_assoc. change ([3; 0; h1; h2] ++ ?r) with ([3] ++ [0; h1; h2] ++ r) at 1.
  rewrite read_exact_app by done. cbn [byte_of lookup list_lookup Z.eqb Pos.eqb].
  unfold read_tpkt_frame_after, mbind, stream_bind. rewrite read_exact_app by done.
  cbn [byte_of lookup list_lookup]. rewrite Eh. destruct (Z.ltb_spec (7 + len payload) 4); [lia|].
  unfold usize_sub. rewrite decide_True by lia. rewrite read_exact_app by lia. done.
Qed.

Lemma fastpath_length n : 0 ≤ n < 2 ^ 15 →
  (write_length n = [n] ∧ Z.land n 0x80 = 0)
  ∨ ∃ a b, write_length n = [a; b] ∧ Z.land a 0x80 ≠ 0 ∧ Z.lor (Z.shiftl (Z.land a 0x7F) 8) b = n.
Proof.
  intros Hn. unfold write_length. destruct (Z.leb_spec n 0x7F); [left|right].
  - rewrite as_u8_id by lia. split; [done|]. pose proof (u8_high_bit n ltac:(lia)) as E%eqb_prop.
    rewrite (proj2 (Z.ltb_lt _ _)) in E by lia. by apply Z.eqb_eq.
  - change 0x8000 with (2 ^ 15). rewrite as_u16_id, (lor_pow2_add n 15) by lia.
    unfold write_u16_be. rewrite to_be_2 by lia. do 2 eexists. split; [done|].
    assert (128 ≤ (n + 2 ^ 15) / 256 < 2 ^ 8) by (Z.to_euclidean_division_equations; lia).
    pose proof (u8_high_bit ((n + 2 ^ 15) / 256) ltac:(lia)) as E%eqb_prop.
    rewrite (proj2 (Z.ltb_ge _ _)) in E by lia. split; [by apply Z.eqb_neq|].
    change 0x7F with (2 ^ 7 - 1). rewrite land_ones_mod by lia.
    rewrite lor_shiftl_add by (Z.to_euclidean_division_equations; lia).
    Z.to_euclidean_division_equations; lia.
Qed.

Lemma fastpath_rest_reads (buf rest s : bytes) total : total = len buf + len rest →
  (if total <? len buf then invalid_framing "fast-path length shorter than header" else
    n ← usize_sub total (len buf); rest ← read_exact n; mret (buf ++ rest)) (rest ++ s) = Ok (buf ++ rest, s).
Proof.
  intros ->. pose proof (len_nonneg rest). destruct (Z.ltb_spec (len buf + len rest) (len buf)); [lia|].
  unfold mbind, stream_bind, usize_sub. rewrite decide_True by lia. by rewrite read_exact_app by lia.
Qed.

Lemma read_fastpath_frame_encode b pre inner s :
  b ≠ 0x03 → u8_ok b → let frame := encode_fastpath_frame b pre inner in
  len frame < 2 ^ 15 → read_steady_state_frame (frame ++ s) = Ok (FastPathInput frame, s).
Proof.
  intros Hb Hu frame Hl. pose proof (len_fastpath_frame b pre inner) as El. fold frame in El.
  pose proof (len_nonneg pre). pose proof (len_nonneg inner).
  assert (frame = [b] ++ write_length (len frame) ++ pre ++ inner) as Ef.
  { rewrite El. unfold frame, encode_fastpath_frame, write_slice. unfold write_u8.
    assert (∀ x y, x = y → [b] ++ write_length x ++ pre ++ inner = [b] ++ write_length y ++ pre ++ inner) as H' by (by intros x y ->).
    apply H'. case_match; lia. }
  pose proof (fastpath_length (len frame) ltac:(split; [apply len_nonneg|done])) as Hcase.
  rewrite Ef at 1. unfold read_steady_state_frame, mbind, stream_bind. rewrite <-app_assoc, read_exact_app by done.
  cbn [byte_of lookup list_lookup]. rewrite (proj2 (Z.eqb_neq _ _)) by done.
  enough (read_fastpath_frame_after b ((write_length (len frame) ++ pre ++ inner) ++ s) = Ok (frame, s)) as -> by done.
  unfold read_fastpath_frame_after.
  destruct Hcase as [[E Hbit]|(x & y & E & Hbit & Hlen)]; rewrite E in *.
  - change (([len frame] ++ pre ++ inner) ++ s) with ([len frame] ++ (pre ++ inner) ++ s).
    unfold mbind at 1, stream_bind at 1. rewrite read_exact_app by done.
    unfold mbind at 1, stream_bind at 1. cbn [byte_of lookup list_lookup]. rewrite Hbit.
    assert (len frame = len [b; len frame] + len (pre ++ inner)) as Hlen by (rewrite Ef at 1; by rewrite <-len_app).
    pose proof (fastpath_rest_reads [b; len frame] (pre ++ inner) s (len frame) Hlen) as Hr.
    change ([b; len frame] ++ pre ++ inner) with ([b] ++ [len frame] ++ pre ++ inner) in Hr. rewrite <-Ef in Hr. exact Hr.
  - change (([x; y] ++ pre ++ inner) ++ s) with ([x] ++ [y] ++ (pre ++ inner) ++ s).
    unfold mbind at 1, stream_bind at 1. rewrite read_exact_app by done.
    unfold mbind at 1, stream_bind at 1. cbn [byte_of lookup list_lookup]. rewrite (proj2 (Z.eqb_neq _ _)) by done.
    unfold mbind at 1, stream_bind at 1. unfold mbind at 1, stream_bind at 1. rewrite read_exact_app by done.
    unfold mbind at 1, stream_bind at 1. cbn [byte_of lookup list_lookup]. rewrite Hlen.
    assert (len frame = len [b; x; y] + len (pre ++ inner)) as Hn by (rewrite Ef at 1; by rewrite <-len_app).
    pose proof (fastpath_rest_reads [b; x; y] (pre ++ inner) s (len frame) Hn) as Hr.
    change ([b; x; y] ++ pre ++ inner) with ([b] ++ [x; y] ++ pre ++ inner) in Hr. rewrite <-Ef in Hr. exact Hr.
Qed.

(** What a client sends at steady state: X.224 data and input events. *)
Inductive client_packet := SlowPacket (payload : bytes) | InputPacket (events : list FastPathInputEvent).

Definition client_packet_ok (p : client_packet) : Prop :=
  match p with
  | SlowPacket payload => 7 + len payload ≤ 65535
  | InputPacket es => Forall input_event_ok es ∧ len es ≤ 255
  end.
Definition encode_packet (p : client_packet) : bytes :=
  match p with SlowPacket payload => wrap_data payload | InputPacket es => FastPathInput_encode es end.

(** A frame in which the session finds the packet again. *)
Definition carries_packet (p : client_packet) (f : SteadyStateFrame) : Prop :=
  match p, f with
  | SlowPacket payload, SlowPath frame => unwrap_data frame = Ok payload
  | InputPacket es, FastPathInput frame => FastPathInput_decode frame = Ok es
  | _, _ => False
  end.

Lemma FastPathInput_frame es : len es ≤ 255 → ∃ b pre inner, FastPathInput_encode es = encode_fastpath_frame b pre inner
  ∧ b ≠ 0x03 ∧ u8_ok b ∧ len pre + len inner ≤ 1 + 7 * len es.
Proof.
  intros Hn. pose proof (len_nonneg es). pose proof (len_concat_bounds FastPathInputEvent_encode 1 7 es len_input_event).
  assert (∀ n, 0 ≤ n < 15 → as_u8 (Z.shiftl n 2) ≠ 0x03 ∧ u8_ok (as_u8 (Z.shiftl n 2))) as Hb.
  { intros n Hn'. destruct (input_nibble n Hn') as [E _]. split; [|apply as_u8_ok]. intros E'. by rewrite E' in E. }
  unfold FastPathInput_encode. rewrite as_u8_id by lia.
  destruct (Z.ltb_spec 0 (len es)), (Z.ltb_spec (len es) 15); cbn [andb];
    do 3 eexists; (split; [done|]); (split; [apply Hb; lia|]); (split; [apply Hb; lia|]);
    rewrite ?len_nil, ?len_cons, ?len_nil; lia.
Qed.

Lemma read_packet p s : client_packet_ok p →
  ∃ f, read_steady_state_frame (encode_packet p ++ s) = Ok (f, s) ∧ carries_packet p f ∧ frame_bytes_of f = encode_packet p.
Proof.
  destruct p as [payload|es]; cbn [client_packet_ok encode_packet].
  - intros Hl. exists (SlowPath (wrap_data payload)). split; [by apply read_tpkt_after_frame|].
    split; [apply unwrap_wrap_data; lia|done].
  - intros [Hes Hn]. exists (FastPathInput (FastPathInput_encode es)).
    split; [|split; [by apply FastPathInput_decode_encode|done]].
    destruct (FastPathInput_frame es Hn) as (b & pre & inner & -> & Hb & Hu & Hl).
    apply read_fastpath_frame_encode; [done..|]. rewrite len_fastpath_frame. case_match; lia.
Qed.

(** ** Properties *)

(** A session finds every packet of its client.  Whatever sequence of X.224 data and input a
    client sends, and whatever bytes follow, also garbage or a frame cut off, reading ends with an
    error of the stream and without a panic; the frames read are consecutive parts of the stream;
    and the first of them are the client's packets, each recognised as what it is and decoded to
    what was sent. *)
Theorem client_stream_read (ps : list client_packet) (garbage : bytes) :
  Forall client_packet_ok ps →
  let s := concat (encode_packet <$> ps) ++ garbage in
  ∃ fs more e rest, read_frames (S (length s)) s = (fs ++ more, Err e)
  ∧ Forall2 carries_packet ps fs ∧ s = concat (frame_bytes_of <$> fs ++ more) ++ rest.
Proof.
  intros Hps s. assert (∀ fuel, (length s < fuel)%nat →
    ∃ fs more e rest, read_frames fuel s = (fs ++ more, Err e)
      ∧ Forall2 carries_packet ps fs ∧ s = concat (frame_bytes_of <$> fs ++ more) ++ rest) as H; [|apply H; lia].
  subst s. induction Hps as [|p ps Hp _ IH]; intros fuel Hf; cbn [fmap list_fmap concat app] in *.
  - pose proof (read_frames_splits fuel garbage Hf) as H. destruct (read_frames fuel garbage) as [more r].
    destruct H as [[e ->] [rest ->]]. by exists [], more, e, rest.
  - rewrite <-(assoc_L (++)) in *. destruct (read_packet p (concat (encode_packet <$> ps) ++ garbage) Hp) as (f & E & Hc & Hb).
    destruct fuel as [|fuel]; [lia|]. cbn [read_frames]. rewrite E.
    destruct (IH fuel) as (fs & more & e & rest & -> & Hfs & Hs).
    { pose proof (steady_frame_splits (encode_packet p ++ concat (encode_packet <$> ps) ++ garbage)) as Hsp.
      rewrite E in Hsp. destruct Hsp as [_ Hn]. rewrite Hb in Hn. unfold len in Hn. rewrite length_app in Hf. lia. }
    exists (f :: fs), more, e, rest. split; [done|]. split; [by constructor|]. rewrite Hs at 1.
    cbn [app fmap list_fmap concat]. rewrite Hb. by rewrite app_assoc.
Qed.

Lemma client_stream_read_witness :
  let ps := [InputPacket [EvScancode 0 30; EvMouse 0x8000 5 6]; SlowPacket [1; 2; 3]] in
  let s := concat (encode_packet <$> ps) ++ [3; 0; 0; 9; 1] in
  ∃ fs more e rest, read_frames (S (length s)) s = (fs ++ more, Err e)
  ∧ Forall2 carries_packet ps fs ∧ s = concat (frame_bytes_of <$> fs ++ more) ++ rest.
Proof.
  apply (client_stream_read [InputPacket [EvScancode 0 30; EvMouse 0x8000 5 6]; SlowPacket [1; 2; 3]] [3; 0; 0; 9; 1]).
  repeat constructor; vm_compute; congruence.
Defined.
