(* ===== verification/StaticChannel.v ===== *)
(** What the session asks of a static virtual channel, as an interface, and the four channels of
    the server that provide it: [rdpcore-rdpsnd], [rdpcore-cliprdr], [rdpcore-dvc] and
    [rdpcore-rdpdr], with any backend behind them. *)
From stdpp Require Import gmap.
From S2P Require Import Prelude Cursor Svc Dvc Cliprdr Rdpdr DriveSelfTest RdpdrSafety Rdpsnd.

(** ** The interface *)

(** [E] is what a call reads besides its arguments: a clock, or the fuel of a loop of the model.
    Whatever bytes arrive, a channel in order has an environment to handle them in, and in any
    such environment handles them without a panic and stays in order. *)
Class StaticChannel (E S : Type) := {
  sc_channel_id : S → Z;
  sc_on_channel_data : E → S → bytes → S * res DecodeError (list bytes);
  sc_ok : S → Prop;
  sc_env : S → bytes → E → Prop;
  sc_env_exists s p : sc_ok s → bytes_ok p → len p < 2 ^ 62 → ∃ e, sc_env s p e;
  sc_keeps s p e : sc_ok s → sc_env s p e → bytes_ok p → len p < 2 ^ 62 →
    let '(s', r) := sc_on_channel_data e s p in sc_ok s' ∧ no_panic r
}.

(** ** Audio output *)

Section rdpsnd.
Context {H : Type} `{!RdpsndServerHandler H, !HandlerTyped H}.

(** The channel of a message that fails is as it was. *)
Definition rdpsnd_data (clock : Clock) (ch : RdpsndChannel H) (p : bytes)
  : RdpsndChannel H * res DecodeError (list bytes) :=
  match Rdpsnd.on_channel_data ch p clock with
  | Ok (ch, out) => (ch, Ok out)
  | Err e => (ch, Err e)
  | Panic => (ch, Panic)
  end.

#[export] Program Instance rdpsnd_static : StaticChannel Clock (RdpsndChannel H) := {
  sc_channel_id := Rdpsnd.channel_id;
  sc_on_channel_data := rdpsnd_data;
  sc_ok ch := ∃ cid uid h0, reachable cid uid h0 ch;
  sc_env _ _ _ := True
}.
Next Obligation. by exists (λ _, 0). Qed.
Next Obligation.
  intros ch p clock (cid & uid & h0 & Hr) _ Hb Hl.
  destruct (rdpsnd_never_panics cid uid h0 ch Hr) as [Hn _]. specialize (Hn p clock Hb ltac:(lia)).
  unfold rdpsnd_data. destruct (Rdpsnd.on_channel_data ch p clock) as [[ch' out]|e|] eqn:E; [| |done].
  - split; [|done]. exists cid, uid, h0. eapply rtc_r; [exact Hr|]. by eapply step_data; [..|exact E]; [|lia].
  - split; [|done]. by exists cid, uid, h0.
Qed.
End rdpsnd.

(** ** The clipboard *)

Section cliprdr.
Context {B : Type} `{!CliprdrBackend B}.

#[export] Program Instance cliprdr_static : StaticChannel unit (CliprdrChannel B) := {
  sc_channel_id := Cliprdr.channel_id;
  sc_on_channel_data _ ch p := Cliprdr.on_channel_data ch p;
  sc_ok ch := len (Cliprdr.incoming_buffer ch) ≤ MAX_CLIPRDR_MESSAGE_SIZE ∧ bytes_ok (Cliprdr.incoming_buffer ch);
  sc_env _ _ _ := True
}.
Next Obligation. by exists tt. Qed.
Next Obligation.
  intros ch p [] [Hl Hb] _ Hp Hpl. pose proof (cliprdr_never_panics ch p Hp ltac:(lia) Hl Hb) as H.
  destruct (Cliprdr.on_channel_data ch p). tauto.
Qed.
End cliprdr.

(** ** Dynamic channels *)

Section dvc.
Context {H : Type} `{!DvcHandler H}.

#[export] Program Instance dvc_static : StaticChannel unit (DvcMux H) := {
  sc_channel_id := Dvc.channel_id;
  sc_on_channel_data _ m p := Dvc.on_channel_data m p;
  sc_ok m := ∃ n, mux_ok (λ _, True) n m ∧ n < 2 ^ 32 - 1;
  sc_env _ _ _ := True
}.
Next Obligation. by exists tt. Qed.
Next Obligation.
  intros m p [] (n & Hm & Hn) _ Hp Hpl.
  pose proof (Dvc.on_channel_data_ok (λ _, True) (λ _ _, I) (λ _ _ _ _, I) n m p Hm Hn Hp Hpl) as [H1 H2].
  destruct (Dvc.on_channel_data m p). split; [by exists n|done].
Qed.
End dvc.

(** ** Device redirection *)

(** What the consumer of the drives asks for when a command fails is paid for, so that the
    loop over its commands ends. *)
Class Settles (C : Type) `{!DriveConsumer C} := {
  owed : C → nat;
  settles c command :
    let r := fail_reply command RdpdrPdu.STATUS_UNSUCCESSFUL c in (owed r.1 + length r.2 ≤ owed c)%nat
}.

#[export] Program Instance logged_settles {C : Type} `{!DriveConsumer C, !Settles C} : Settles (logged C) := {
  owed l := owed (base l)
}.
Next Obligation. intros C ? ? l command. pose proof (settles (base l) command) as H. by destruct command. Qed.

#[export] Instance self_test_owed : Settles DirectoryListingSelfTest := {
  owed := open_handles; settles := self_test_settles }.

Section rdpdr.
Context {C : Type} `{!DriveConsumer C}.
(** The order a hash map of the channel is iterated in. *)
Context (order : gmap Z PendingOp → list (Z * PendingOp)).

Definition rdpdr_data (fuel : nat) (ch : RdpdrChannel (logged C)) (p : bytes)
  : RdpdrChannel (logged C) * res DecodeError (list bytes) :=
  default (ch, Panic) (Rdpdr.on_channel_data order fuel ch p).

Context `{!Settles (logged C)}.

#[export] Program Instance rdpdr_static : StaticChannel nat (RdpdrChannel (logged C)) := {
  sc_channel_id := Rdpdr.channel_id;
  sc_on_channel_data := rdpdr_data;
  sc_ok ch := ∃ lost, channel_ok ch [] lost;
  sc_env ch p fuel := is_Some (Rdpdr.on_channel_data order fuel ch p)
}.
Next Obligation.
  intros ch p _ _ _. destruct (run_event_returns order owed settles ch (Packet p)) as [r [n Hn]].
  exists n. exists r. by apply Hn.
Qed.
Next Obligation.
  intros ch p fuel [lost Hok] [[ch' r] E] Hp Hpl. unfold rdpdr_data. rewrite E. cbn.
  assert (RdpdrSafety.event_ok (Packet p)) as He by (split; [done|lia]).
  destruct (run_event_ok order fuel ch (Packet p) lost ch' r Hok He E) as (Hr & dropped & Hok' & _).
  split; [by exists (dropped ++ lost)|done].
Qed.
End rdpdr.
