(* ===== verification/SlowPath.v ===== *)
(** [rdpcore-server/src/server/slow_path.rs], [input_handler.rs] and the arms of [session_loop.rs]
    that read the client and resize: what a frame of the client does to the session.  The static
    channels are behind the interface [StaticChannel]; the graphics pipeline is left out of the
    resize. *)
From stdpp Require Import gmap.
From S2P Require Import Svc Dvc Cliprdr Rdpdr DriveSelfTest RdpdrSafety Rdpsnd StaticChannel.
From S2P Require Import Prelude Cursor Utf Framing Mcs Finalization Fastpath Display Scheduler Input Transport.
From S2P Require Import Headers Capability Connector ConnectorSafety ConnectorFlow BitmapSync.

(** ** Input events *)

Definition WHEEL_NEGATIVE : Z := 0x0100.
Definition VERTICAL_WHEEL : Z := 0x0200.
Definition HORIZONTAL_WHEEL : Z := 0x0400.
Definition LEFT_BUTTON : Z := 0x1000.
Definition RIGHT_BUTTON : Z := 0x2000.
Definition MIDDLE_BUTTON : Z := 0x4000.
Definition DOWN : Z := 0x8000.

Definition has (flags bit : Z) : bool := negb (Z.land flags bit =? 0).

Definition wheel_value (pointer_flags : Z) : Z :=
  let raw := Z.land pointer_flags 0xFF in
  if has pointer_flags WHEEL_NEGATIVE then raw - 256 else raw.

Definition translate_mouse (pointer_flags x y : Z) : MouseEvent :=
  if has pointer_flags VERTICAL_WHEEL then VerticalScroll (wheel_value pointer_flags)
  else if has pointer_flags HORIZONTAL_WHEEL then HorizontalScroll (wheel_value pointer_flags)
  else
    let down := has pointer_flags DOWN in
    if has pointer_flags LEFT_BUTTON then if down then LeftPressed else LeftReleased
    else if has pointer_flags RIGHT_BUTTON then if down then RightPressed else RightReleased
    else if has pointer_flags MIDDLE_BUTTON then if down then MiddlePressed else MiddleReleased
    else Move x y.

Definition dispatch_input_event (input : ConnectionScopedInput) (event : FastPathInputEvent)
  : ConnectionScopedInput * list input_event :=
  match event with
  | EvScancode flags code =>
    let extended := has flags (Z.lor EXTENDED EXTENDED1) in
    ConnectionScopedInput_keyboard input
      (if has flags RELEASE then Released code extended else Pressed code extended)
  | EvMouse pointer_flags x y => ConnectionScopedInput_mouse input (translate_mouse pointer_flags x y)
  | EvSync _ => (input, [])
  | EvUnicode flags code =>
    if has flags RELEASE then (input, []) else ConnectionScopedInput_keyboard input (UnicodePressed code)
  end.

Fixpoint dispatch_input_events (input : ConnectionScopedInput) (events : list FastPathInputEvent)
  : ConnectionScopedInput * list input_event :=
  match events with
  | [] => (input, [])
  | event :: events =>
    let '(input, out) := dispatch_input_event input event in
    let '(input, out') := dispatch_input_events input events in
    (input, out ++ out')
  end.

(** ** The session *)

(** What a step sends to the writer, and what it forwards to the shared input. *)
Record effects := { frames_sent : list Frame; injected : list input_event }.
Definition nothing : effects := {| frames_sent := []; injected := [] |}.

Section session.
Context {ER R EC C ED D EP P : Type}.
Context `{!StaticChannel ER R, !StaticChannel EC C, !StaticChannel ED D, !StaticChannel EP P}.

Record ClientState := {
  display : BitmapSync.session; scoped_input : ConnectionScopedInput;
  rdpsnd : option R; cliprdr : option C; dvc : option D; rdpdr : option P }.

(** What the channels read of their environment, whether the writer still takes frames, and
    whether a bitmap kept back during a resize can be encoded and sent. *)
Record environment := {
  env_rdpsnd : ER; env_cliprdr : EC; env_dvc : ED; env_rdpdr : EP; writer_open : bool; flush_ok : bool }.

Implicit Types (s : ClientState) (e : environment).

Definition set_display s d := Build_ClientState d (scoped_input s) (rdpsnd s) (cliprdr s) (dvc s) (rdpdr s).
Definition set_input s i := Build_ClientState (display s) i (rdpsnd s) (cliprdr s) (dvc s) (rdpdr s).
Definition set_rdpsnd s r := Build_ClientState (display s) (scoped_input s) r (cliprdr s) (dvc s) (rdpdr s).
Definition set_cliprdr s c := Build_ClientState (display s) (scoped_input s) (rdpsnd s) c (dvc s) (rdpdr s).
Definition set_dvc s d := Build_ClientState (display s) (scoped_input s) (rdpsnd s) (cliprdr s) d (rdpdr s).
Definition set_rdpdr s p := Build_ClientState (display s) (scoped_input s) (rdpsnd s) (cliprdr s) (dvc s) p.

(** ** [handle_slow_path_frame] *)

(** The arm of the I/O channel.  What it paints is sent as graphics ([BitmapSync]). *)
Definition on_io_data s (data : bytes) : ClientState * res DecodeError effects :=
  match DataPdu_decode data with
  | Panic => (s, Panic)
  | Err _ => (s, Ok nothing)
  | Ok data_pdu =>
    match pdu_type2 data_pdu with
    | TInput =>
      match decode_slowpath_input (d_body data_pdu) with
      | Panic => (s, Panic)
      | Err _ => (s, Ok nothing)
      | Ok events =>
        let '(input, out) := dispatch_input_events (scoped_input s) events in
        (set_input s input, Ok {| frames_sent := []; injected := out |})
      end
    | TSuppressOutput =>
      match decode_suppress_output (d_body data_pdu) with
      | Panic => (s, Panic)
      | Err _ => (s, Ok nothing)
      | Ok allow => (set_display s (on_suppress_output (display s) allow), Ok nothing)
      end
    | TRefreshRect =>
      match decode_refresh_rect (d_body data_pdu) with
      | Panic => (s, Panic)
      | Err _ => (s, Ok nothing)
      | Ok rects => (set_display s (on_refresh_rect (display s) rects), Ok nothing)
      end
    | _ => (s, Ok nothing)
    end
  end.

(** The arm of a static channel. *)
Definition on_static {E S} `{!StaticChannel E S} (env : E) (channel : S) (priority : Priority)
    (put : S → ClientState) (data : bytes) : ClientState * res DecodeError effects :=
  let id := sc_channel_id channel in
  let '(channel, r) := sc_on_channel_data env channel data in
  (put channel,
   responses ← r;
   Ok {| frames_sent := (λ response, Build_Frame (Static id) priority response) <$> responses;
         injected := [] |}).

Definition addressed {E S} `{!StaticChannel E S} (channel : option S) (id : Z) : option S :=
  match channel with Some c => if id =? sc_channel_id c then Some c else None | None => None end.

Definition dispatch (io_channel_id : Z) e s (send_data : SendData) : ClientState * res DecodeError effects :=
  let id := sd_channel_id send_data in
  let data := sd_data send_data in
  if id =? io_channel_id then on_io_data s data
  else match addressed (rdpsnd s) id with
  | Some ch => on_static (env_rdpsnd e) ch Latency (λ ch, set_rdpsnd s (Some ch)) data
  | None =>
  match addressed (cliprdr s) id with
  | Some ch => on_static (env_cliprdr e) ch Bulk (λ ch, set_cliprdr s (Some ch)) data
  | None =>
  match addressed (dvc s) id with
  | Some ch => on_static (env_dvc e) ch Latency (λ ch, set_dvc s (Some ch)) data
  | None =>
  match addressed (rdpdr s) id with
  | Some ch => on_static (env_rdpdr e) ch Latency (λ ch, set_rdpdr s (Some ch)) data
  | None => (s, Ok nothing)
  end end end end.

Definition handle_slow_path_frame (io_channel_id : Z) e s (frame : bytes)
  : ClientState * res DecodeError effects :=
  match unwrap_data frame ≫= decode_request with
  | Ok send_data => dispatch io_channel_id e s send_data
  | Err err => (s, Err err)
  | Panic => (s, Panic)
  end.

(** ** The loop *)

Record Session := {
  peer : ClientState; session_acceptor : Acceptor; resizing : bool;
  pending_after_resize : option BitmapUpdate }.

Implicit Types (t : Session).

Definition set_peer t c := Build_Session c (session_acceptor t) (resizing t) (pending_after_resize t).
Definition set_acceptor t a := Build_Session (peer t) a (resizing t) (pending_after_resize t).
Definition set_resizing t b p := Build_Session (peer t) (session_acceptor t) b p.

(** How a turn of the loop ends. *)
Inductive turn := Continue (t : Session) (fx : effects) | Ended | Panicked.

(** [flush_pending_resize_bitmap]; [None] when it fails. *)
Definition flush_pending_resize_bitmap e t : option Session :=
  let flushed := set_resizing t (resizing t) None in
  if negb (display_updates_allowed (display (peer t))) then Some flushed
  else match pending_after_resize t with
  | None => Some t
  | Some bitmap =>
    if flush_ok e then
      Some (set_peer flushed
              (set_display (peer t) (set_screen (display (peer t)) (paint (screen (display (peer t))) bitmap))))
    else None
  end.

(** [handle_slow_path_frame], whose error is dropped. *)
Definition slow_path e t (frame : bytes) : turn :=
  match handle_slow_path_frame IO_CHANNEL_ID e (peer t) frame with
  | (c, Ok fx) => Continue (set_peer t c) fx
  | (c, Err _) => Continue (set_peer t c) nothing
  | (_, Panic) => Panicked
  end.

Definition resize_done e t (k : Session → turn) : turn :=
  match flush_pending_resize_bitmap e (set_resizing t false (pending_after_resize t)) with
  | Some t => k t
  | None => Ended
  end.

Definition is_accepted_event (ev : AcceptorEvent) : bool :=
  match ev with EvAccepted _ => true | _ => false end.
Definition is_already_finished (err : ConnectorError) : bool :=
  match err with AlreadyFinished => true | _ => false end.

(** The arm [SlowPath(bytes) if resizing]. *)
Definition slow_path_resizing e t (frame : bytes) : turn :=
  if is_finished (session_acceptor t) then resize_done e t (λ t, slow_path e t frame)
  else
    let '(a, r) := step frame (session_acceptor t) in
    let t := set_acceptor t a in
    match r with
    | Panic => Panicked
    | Ok result =>
      let fx := {| frames_sent := match response result with
                                  | [] => [] | r => [Build_Frame Io Latency r] end;
                   injected := [] |} in
      match frames_sent fx, writer_open e with
      | _ :: _, false => Ended
      | _, _ =>
        if is_finished a || is_accepted_event (Connector.event result)
        then resize_done e t (λ t, Continue t fx) else Continue t fx
      end
    | Err err =>
      if is_finished a || is_already_finished err
      then resize_done e t (λ t, slow_path e t frame) else Continue t nothing
    end.

Definition fast_path t (frame : bytes) : turn :=
  match FastPathInput_decode frame with
  | Ok events =>
    let '(input, out) := dispatch_input_events (scoped_input (peer t)) events in
    Continue (set_peer t (set_input (peer t) input)) {| frames_sent := []; injected := out |}
  | Err _ => Continue t nothing
  | Panic => Panicked
  end.

Definition on_client_frame e t (frame : SteadyStateFrame) : turn :=
  match frame with
  | FastPathInput frame => fast_path t frame
  | SlowPath frame => if resizing t then slow_path_resizing e t frame else slow_path e t frame
  end.

(** The arm of [DisplayUpdate::Resized]. *)
Definition on_resized e t (w h : Z) : turn :=
  if resizing t then Continue t nothing
  else
    let '(a, r) := begin_resize w h (session_acceptor t) in
    let t := set_acceptor t a in
    match r with
    | Panic => Panicked
    | Err _ => Continue t nothing
    | Ok response =>
      let d := display (peer t) in
      let d := {| sync := reset (sync d); deferred_bitmap := None; bitmap_gate_open := bitmap_gate_open d;
                  display_updates_allowed := display_updates_allowed d; resize_desktop := (w, h);
                  latest_full_frame := latest_full_frame d; screen := screen d; unread := unread d |} in
      if writer_open e then
        Continue (set_resizing (set_peer t (set_display (peer t) d)) true None)
          {| frames_sent := [Build_Frame Io Latency response]; injected := [] |}
      else Ended
    end.

(** The arm of [DisplayUpdate::Bitmap] during a resize; outside of one it is [BitmapSync]'s. *)
Definition on_bitmap_resizing t (bitmap : BitmapUpdate) : turn :=
  if resizing t then
    let '(w, h) := resize_desktop (display (peer t)) in
    Continue (set_resizing t true (retain_bitmap_during_resize (pending_after_resize t) bitmap w h true)) nothing
  else Continue t nothing.

Inductive session_event :=
  | ClientFrame (frame : SteadyStateFrame)
  | Resized (w h : Z)
  | BitmapResizing (bitmap : BitmapUpdate).

Definition on_event e t (ev : session_event) : turn :=
  match ev with
  | ClientFrame frame => on_client_frame e t frame
  | Resized w h => on_resized e t w h
  | BitmapResizing bitmap => on_bitmap_resizing t bitmap
  end.

Fixpoint run_session (evs : list (environment * session_event)) t : turn :=
  match evs with
  | [] => Continue t nothing
  | (e, ev) :: evs =>
    match on_event e t ev with
    | Continue t fx =>
      match run_session evs t with
      | Continue t fx' =>
        Continue t {| frames_sent := frames_sent fx ++ frames_sent fx'; injected := injected fx ++ injected fx' |}
      | r => r
      end
    | r => r
    end
  end.

(** ** What holds of a session *)

Definition channel_ok {E S} `{!StaticChannel E S} (channel : option S) : Prop :=
  match channel with Some c => sc_ok c | None => True end.
Definition channel_env {E S} `{!StaticChannel E S} (channel : option S) (data : bytes) (env : E) : Prop :=
  match channel with Some c => sc_env c data env | None => True end.

Record client_ok s : Prop := {
  client_rdpsnd : channel_ok (rdpsnd s); client_cliprdr : channel_ok (cliprdr s);
  client_dvc : channel_ok (dvc s); client_rdpdr : channel_ok (rdpdr s) }.

Record data_env s (data : bytes) e : Prop := {
  data_rdpsnd : channel_env (rdpsnd s) data (env_rdpsnd e);
  data_cliprdr : channel_env (cliprdr s) data (env_cliprdr e);
  data_dvc : channel_env (dvc s) data (env_dvc e);
  data_rdpdr : channel_env (rdpdr s) data (env_rdpdr e) }.

Record session_fine t : Prop := {
  fine_client : client_ok (peer t);
  fine_acceptor : acceptor_ok (session_acceptor t);
  fine_authorized : post_auth (session_acceptor t) }.

(** The frames the transport reads. *)
Definition event_fine (ev : session_event) : Prop :=
  match ev with
  | ClientFrame (FastPathInput frame | SlowPath frame) => bytes_ok frame ∧ len frame < 2 ^ 16
  | Resized w h => u16_ok w ∧ u16_ok h
  | BitmapResizing _ => True
  end.

#[export] Instance event_fine_dec ev : Decision (event_fine ev).
Proof. destruct ev as [[]| |]; apply _. Defined.

Definition env_fine t e (ev : session_event) : Prop :=
  match ev with
  | ClientFrame (SlowPath frame) =>
    ∀ d, unwrap_data frame ≫= decode_request = Ok d → data_env (peer t) (sd_data d) e
  | _ => True
  end.

Fixpoint admissible (evs : list (environment * session_event)) t : Prop :=
  match evs with
  | [] => True
  | (e, ev) :: evs =>
    event_fine ev ∧ env_fine t e ev ∧ ∀ t' fx, on_event e t ev = Continue t' fx → admissible evs t'
  end.

(** A turn that is fine: it goes on with a fine session, or ends because of the writer. *)
Definition turn_fine e (r : turn) : Prop :=
  match r with
  | Continue t _ => session_fine t
  | Ended => writer_open e = false ∨ flush_ok e = false
  | Panicked => False
  end.

Lemma set_display_ok s d : client_ok s → client_ok (set_display s d).
Proof. by intros []. Qed.
Lemma set_input_ok s i : client_ok s → client_ok (set_input s i).
Proof. by intros []. Qed.

(** What a handler of the slow path leaves. *)
Definition handled (r : ClientState * res DecodeError effects) : Prop := client_ok r.1 ∧ no_panic r.2.

Lemma on_io_data_handled s data :
  client_ok s → bytes_ok data → len data < 2 ^ 63 → handled (on_io_data s data).
Proof.
  intros Hs Hb Hl. unfold on_io_data, handled. pose proof (DataPdu_decode_spec data Hb Hl) as Hd.
  destruct (DataPdu_decode data) as [p| |]; [|done..]. destruct Hd as [Hbb Hbl].
  destruct (pdu_type2 p); cbn [fst snd]; try done.
  - pose proof (safe_run_no_panic _ _ (d_body p) decode_refresh_rect_safe Hbb Hbl) as Hn.
    unfold decode_refresh_rect. destruct (run _ _); [|done..]. split; [by apply set_display_ok|done].
  - pose proof (safe_run_no_panic _ _ (d_body p) decode_suppress_output_safe Hbb Hbl) as Hn.
    unfold decode_suppress_output. destruct (run _ _); [|done..]. split; [by apply set_display_ok|done].
  - pose proof (decode_slowpath_input_no_panic (d_body p) Hbb Hbl) as Hn.
    destruct (decode_slowpath_input (d_body p)); [|done..].
    destruct (dispatch_input_events _ _). split; [by apply set_input_ok|done].
Qed.

Lemma on_static_handled {E S} `{!StaticChannel E S} (env : E) (c : S) priority put data :
  (∀ c', sc_ok c' → client_ok (put c')) → sc_ok c → sc_env c data env → bytes_ok data → len data < 2 ^ 62 →
  handled (on_static env c priority put data).
Proof.
  intros Hput Hc He Hb Hl. unfold on_static, handled. pose proof (sc_keeps c data env Hc He Hb Hl) as H.
  destruct (sc_on_channel_data env c data) as [c' r]. destruct H as [Hc' Hr]. cbn [fst snd].
  split; [by apply Hput|]. by destruct r.
Qed.

Lemma addressed_Some {E S} `{!StaticChannel E S} (channel : option S) id c :
  addressed channel id = Some c → channel = Some c ∧ sc_channel_id c = id.
Proof. unfold addressed. destruct channel as [c'|]; [|done]. destruct (Z.eqb_spec id (sc_channel_id c')); [|done]. by intros [= <-]. Qed.

Lemma dispatch_handled io e s d :
  client_ok s → data_env s (sd_data d) e → bytes_ok (sd_data d) → len (sd_data d) < 2 ^ 62 →
  handled (dispatch io e s d).
Proof.
  intros Hs He Hb Hl. unfold dispatch. case_match; [apply on_io_data_handled; [done..|lia]|].
  destruct Hs as [H1 H2 H3 H4], He as [E1 E2 E3 E4].
  destruct (addressed (rdpsnd s) _) as [c|] eqn:A1.
  { apply addressed_Some in A1 as [A1 _]. rewrite A1 in H1, E1. by apply on_static_handled. }
  destruct (addressed (cliprdr s) _) as [c|] eqn:A2.
  { apply addressed_Some in A2 as [A2 _]. rewrite A2 in H2, E2. by apply on_static_handled. }
  destruct (addressed (dvc s) _) as [c|] eqn:A3.
  { apply addressed_Some in A3 as [A3 _]. rewrite A3 in H3, E3. by apply on_static_handled. }
  destruct (addressed (rdpdr s) _) as [c|] eqn:A4; [|by split].
  apply addressed_Some in A4 as [A4 _]. rewrite A4 in H4, E4. by apply on_static_handled.
Qed.

Lemma frame_data frame : bytes_ok frame → len frame < 2 ^ 16 →
  match unwrap_data frame ≫= decode_request with
  | Ok d => bytes_ok (sd_data d) ∧ len (sd_data d) < 2 ^ 62 | Err _ => True | Panic => False end.
Proof.
  intros Hb Hl. pose proof (unwrap_data_spec frame Hb ltac:(lia)) as H.
  destruct (unwrap_data frame) as [p| |]; cbn [mbind res_bind]; [|done..]. destruct H as [Hbp Hlp].
  pose proof (safe_run _ _ p decode_request_safe Hbp Hlp) as H.
  unfold decode_request, SendData_decode. unfold decode_request_from_cursor in H.
  destruct (run _ p); [|done..]. destruct H. split; [done|lia].
Qed.

Lemma slow_path_fine e t frame :
  session_fine t → bytes_ok frame → len frame < 2 ^ 16 → env_fine t e (ClientFrame (SlowPath frame)) →
  turn_fine e (slow_path e t frame).
Proof.
  intros [H1 H2 H3] Hb Hl He. unfold slow_path, handle_slow_path_frame. pose proof (frame_data frame Hb Hl) as Hf.
  cbn [env_fine] in He. destruct (_ ≫= _) as [d| |]; [|by split|done]. destruct Hf as [Hbd Hld].
  pose proof (dispatch_handled IO_CHANNEL_ID e (peer t) d H1 (He d eq_refl) Hbd Hld) as [Hc Hn].
  destruct (dispatch _ _ _ _) as [c [fx|err|]]; [by split|by split|done].
Qed.

(** A frame is admitted by the peer it is given to, whatever else the session holds. *)
Lemma env_fine_peer t t' e frame :
  peer t' = set_display (peer t) (display (peer t')) →
  env_fine t e (ClientFrame (SlowPath frame)) → env_fine t' e (ClientFrame (SlowPath frame)).
Proof.
  cbn [env_fine]. intros -> He d Hd. by destruct (He d Hd).
Qed.

Lemma resize_done_fine e t k :
  session_fine t →
  (∀ t', session_fine t' → peer t' = set_display (peer t) (display (peer t')) → turn_fine e (k t')) →
  turn_fine e (resize_done e t k).
Proof.
  intros [H1 H2 H3] Hk. unfold resize_done, flush_pending_resize_bitmap.
  assert (∀ d b p, session_fine (set_resizing (set_peer t (set_display (peer t) d)) b p)) as Hd
    by (split; [by apply set_display_ok|done..]).
  destruct (negb _). { apply Hk; [by split|]. by destruct t as [[] ? ? ?]. }
  cbn. destruct (pending_after_resize t). 2: { apply Hk; [by split|]. by destruct t as [[] ? ? ?]. }
  destruct (flush_ok e) eqn:Ef; [|by right].
  apply Hk; [|done]. apply Hd.
Qed.

Lemma slow_path_resizing_fine e t frame :
  session_fine t → bytes_ok frame → len frame < 2 ^ 16 → env_fine t e (ClientFrame (SlowPath frame)) →
  turn_fine e (slow_path_resizing e t frame).
Proof.
  intros Ht Hb Hl He. pose proof Ht as [H1 H2 H3]. unfold slow_path_resizing.
  assert (∀ t', session_fine t' → peer t' = peer t → turn_fine e (resize_done e t' (λ t, slow_path e t frame))) as Hs.
  { intros t' Ht' Hp. apply resize_done_fine; [done|]. intros t2 H2' Hp2. apply slow_path_fine; [done..|].
    apply (env_fine_peer t); [congruence|done]. }
  destruct (is_finished _); [by apply Hs|].
  pose proof (step_wp frame _ H2 Hb ltac:(lia)) as Hstep. unfold wp in Hstep.
  destruct (step frame (session_acceptor t)) as [a [x|err|]]; [| |done]; destruct Hstep as [P1 _ P3 _ _ _ _].
  - assert (session_fine (set_acceptor t a)) as Hta by (split; [done..|by apply P3]). cbn [frames_sent].
    set (fx := {| frames_sent := _ |}). assert (turn_fine e (if is_finished a || is_accepted_event (Connector.event x)
      then resize_done e (set_acceptor t a) (λ t, Continue t fx) else Continue (set_acceptor t a) fx)) as Hturn.
    { destruct (_ || _); [|done]. by apply resize_done_fine. }
    destruct (response x); [done|]. destruct (writer_open e) eqn:Ew; [done|]. by left.
  - assert (session_fine (set_acceptor t a)) as Hta by (split; [done..|by apply P3]).
    destruct (_ || _); [by apply Hs|done].
Qed.

Lemma begin_resize_keeps w h a : acceptor_ok a → post_auth a →
  let '(a', r) := begin_resize w h a in acceptor_ok a' ∧ post_auth a' ∧ r ≠ Panic.
Proof.
  intros [H1 H2] Ha. unfold begin_resize, mbind, act_bind, get. destruct (state a) eqn:Es; try done.
  cbn. split; [|done]. split; [|by intros _; apply H2; unfold negotiated; rewrite Es].
  by apply (stored_ok_buf [] a); [|constructor|vm_compute].
Qed.

Lemma on_resized_fine e t w h : session_fine t → turn_fine e (on_resized e t w h).
Proof.
  intros Ht. unfold on_resized. destruct (resizing t); [done|]. destruct Ht as [H1 H2 H3].
  pose proof (begin_resize_keeps w h _ H2 H3) as H.
  destruct (begin_resize _ _ _) as [a [response|err|]]; destruct H as (Ha & Hp & Hr); [|done|done].
  destruct (writer_open e) eqn:Ew; [|by left]. split; [by apply set_display_ok|done..].
Qed.

Lemma fast_path_fine e t frame :
  session_fine t → bytes_ok frame → len frame < 2 ^ 16 → turn_fine e (fast_path t frame).
Proof.
  intros [H1 H2 H3] Hb Hl. unfold fast_path.
  pose proof (safe_run_no_panic _ _ frame FastPathInput_safe Hb ltac:(lia)) as Hn.
  unfold FastPathInput_decode. destruct (run _ frame); [|done..].
  destruct (dispatch_input_events _ _). split; [by apply set_input_ok|done..].
Qed.

Lemma on_event_fine e t ev :
  session_fine t → event_fine ev → env_fine t e ev → turn_fine e (on_event e t ev).
Proof.
  intros Ht Hev He. destruct ev as [[frame|frame]|w h|bitmap]; cbn [on_event on_client_frame].
  - destruct Hev. by apply fast_path_fine.
  - destruct Hev. destruct (resizing t); [by apply slow_path_resizing_fine|by apply slow_path_fine].
  - by apply on_resized_fine.
  - unfold on_bitmap_resizing. destruct (resizing t); [|done]. destruct (resize_desktop _).
    by destruct Ht.
Qed.

Lemma channel_env_exists {E S} `{!StaticChannel E S} `{!Inhabited E} (channel : option S) data :
  channel_ok channel → bytes_ok data → len data < 2 ^ 62 → ∃ env, channel_env channel data env.
Proof. destruct channel as [c|]; [apply sc_env_exists|by exists inhabitant]. Qed.

Context `{!Inhabited ER, !Inhabited EC, !Inhabited ED, !Inhabited EP}.

Lemma env_fine_exists t ev : session_fine t → event_fine ev →
  ∃ e, env_fine t e ev ∧ writer_open e = true ∧ flush_ok e = true.
Proof.
  intros [[H1 H2 H3 H4] _ _] Hev. set (e0 := Build_environment inhabitant inhabitant inhabitant inhabitant true true).
  destruct ev as [[frame|frame]|w h|bitmap]; [by exists e0| |by exists e0..].
  destruct Hev as [Hb Hl]. pose proof (frame_data frame Hb Hl) as Hf. cbn [env_fine].
  destruct (_ ≫= _) as [d| |]; [|by exists e0..]. destruct Hf as [Hd Hdl].
  destruct (channel_env_exists (rdpsnd (peer t)) (sd_data d) H1 Hd Hdl) as [e1 E1].
  destruct (channel_env_exists (cliprdr (peer t)) (sd_data d) H2 Hd Hdl) as [e2 E2].
  destruct (channel_env_exists (dvc (peer t)) (sd_data d) H3 Hd Hdl) as [e3 E3].
  destruct (channel_env_exists (rdpdr (peer t)) (sd_data d) H4 Hd Hdl) as [e4 E4].
  exists (Build_environment e1 e2 e3 e4 true true). split; [|done]. by intros d' [= <-].
Qed.

(** ** Properties *)

(** C6. No client brings a session down.  Whatever frames the client sends, well-formed or not, and
    whatever resizes and captured bitmaps come between them, the session does not panic; its
    static channels, whichever they are, keep their invariants, as does the acceptor that
    reactivates the client, which never leaves the phases after the login; and the session ends
    only where the writer or the encoder of a bitmap failed: a frame that cannot be decoded is
    dropped.  From every state so reached, the next event can be handled by a session whose writer
    works. *)
Theorem session_survives (evs : list (environment * session_event)) (t : Session) :
  session_fine t → admissible evs t →
  match run_session evs t with
  | Continue t' _ => session_fine t' ∧ ∀ ev, event_fine ev →
      ∃ e t'' fx, env_fine t' e ev ∧ on_event e t' ev = Continue t'' fx ∧ session_fine t''
  | Ended => ∃ e ev, (e, ev) ∈ evs ∧ (writer_open e = false ∨ flush_ok e = false)
  | Panicked => False
  end.
Proof.
  revert t. induction evs as [|[e ev] evs IH]; intros t Ht Hadm; cbn [run_session].
  - split; [done|]. intros ev Hev. destruct (env_fine_exists t ev Ht Hev) as (e & He & Hw & Hf).
    pose proof (on_event_fine e t ev Ht Hev He) as H. exists e.
    destruct (on_event e t ev) as [t'' fx| |]; [by exists t'', fx|destruct H as [H|H]; congruence|done].
  - destruct Hadm as (Hev & He & Hadm). pose proof (on_event_fine e t ev Ht Hev He) as H.
    destruct (on_event e t ev) as [t' fx| |]; [| |done].
    + specialize (IH t' H (Hadm t' fx eq_refl)). destruct (run_session evs t'); [done| |done].
      destruct IH as (e' & ev' & Hin & Hc). exists e', ev'. split; [by right|done].
    + exists e, ev. split; [by left|done].
Qed.

Lemma unwrap_request d : send_ok d →
  unwrap_data (wrap_data (encode_request d)) ≫= decode_request = Ok d.
Proof.
  intros Hd. pose proof (len_encode_request d Hd) as Hl. rewrite unwrap_wrap_data by lia.
  cbn [mbind res_bind]. destruct Hd as (Hd & Hc & _). unfold decode_request, SendData_decode, encode_request in *.
  eapply (reads_run _ _ _ []); [lia|]. rewrite <-(app_nil_r (SendData_encode _ _)). by apply SendData_reads.
Qed.

Lemma step_ignores d a :
  send_ok d → sd_channel_id d ≠ IO_CHANNEL_ID →
  match state a with WaitConfirmActive | WaitFinalization _ => True | _ => False end →
  step (wrap_data (encode_request d)) a = (a, Ok (just [])).
Proof.
  intros Hd Hch Hst.
  assert (wp (step (wrap_data (encode_request d ++ []))) (λ x a', a' = a ∧ x = just []) (λ _, False) a) as H.
  { apply step_first_pdu; [done..|]. unfold react_one, on_confirm_active_send_data, on_finalization_send_data.
    rewrite (proj2 (Z.eqb_neq _ _) Hch). cbn [negb].
    destruct (state a) eqn:Es; try done; apply wp_bind, wp_modify, wp_ret; intros fuel c1 Hc1 Hr1 _; cbn beta iota zeta;
      destruct fuel; cbn [reactivation_loop]; rewrite (remaining_rest _ Hc1), Hr1; apply wp_ret;
      (split; [rewrite <-Es; by destruct a|done]). }
  rewrite app_nil_r in H. unfold wp in H. destruct (step _ a) as [a' [x| |]]; [|done..]. by destruct H as [-> ->].
Qed.

(** C7. A resize loses what a client sends on its static channels.  The session's only reader of
    frames hands them to the acceptor, which ignores every channel but the I/O channel: from the
    resize until the client's Font List, a clipboard chunk, the completion of a drive request or
    the confirmation of a wave is dropped without an answer, the same frame that outside of the
    resize goes to the channel that owns it.  The client sends such frames before it has read
    the Deactivate All PDU. *)
Theorem resize_drops_channel_data (e : environment) (t : Session) (d : SendData) :
  send_ok d → sd_channel_id d ≠ IO_CHANNEL_ID →
  match state (session_acceptor t) with WaitConfirmActive | WaitFinalization _ => True | _ => False end →
  let frame := ClientFrame (SlowPath (wrap_data (encode_request d))) in
  let idle b := set_resizing t b (pending_after_resize t) in
  on_event e (idle true) frame = Continue (idle true) nothing
  ∧ on_event e (idle false) frame =
    match dispatch IO_CHANNEL_ID e (peer t) d with
    | (c, Ok fx) => Continue (set_peer (idle false) c) fx
    | (c, Err _) => Continue (set_peer (idle false) c) nothing
    | (_, Panic) => Panicked
    end.
Proof.
  intros Hd Hch Hst. cbn [on_event on_client_frame resizing set_resizing]. split.
  - unfold slow_path_resizing. cbn [session_acceptor set_resizing]. rewrite (step_ignores d) by done.
    destruct t as [p a r b]. unfold is_finished. cbn [session_acceptor] in *. by destruct (state a).
  - unfold slow_path, handle_slow_path_frame. by rewrite unwrap_request.
Qed.
End session.

(** ** A concrete session *)

#[local] Existing Instance Rdpsnd.sample_backend.
#[local] Existing Instance Rdpsnd.sample_backend_typed.
#[local] Existing Instance Dvc.echo_handler.
#[local] Instance sample_rdpdr : StaticChannel nat (RdpdrChannel (logged DirectoryListingSelfTest)) :=
  rdpdr_static map_to_list.

(** The server's channels, after the login of [ConnectorFlow]'s client. *)
Definition sample_channels : ClientState (R := RdpsndChannel SampleBackend) (C := CliprdrChannel Cliprdr.sample_backend)
    (D := DvcMux (list bytes)) (P := RdpdrChannel (logged DirectoryListingSelfTest)) :=
  {| display := BitmapSync.session_new 1280 720 true black; scoped_input := ConnectionScopedInput_new;
     rdpsnd := Some (Rdpsnd.channel_new 1004 1002 {| sb_started := []; sb_stopped := false |}).1;
     cliprdr := Some {| Cliprdr.channel_id := 1007; Cliprdr.user_channel_id := 1002;
                        Cliprdr.backend := {| copies := []; texts := [] |}; Cliprdr.incoming_buffer := [] |};
     dvc := Some (DvcMux_new 1006 1002).1; rdpdr := Some session_channel |}.

Definition sample_start : Session := {|
  peer := sample_channels; session_acceptor := ConnectorSafety.acceptor sample_session; resizing := false;
  pending_after_resize := None |}.

Definition sample_env : environment (ER := Clock) (EC := unit) (ED := unit) (EP := nat) :=
  Build_environment (λ _, 0) tt tt 100%nat true true.

Definition to_channel (id : Z) (data : bytes) : session_event :=
  ClientFrame (SlowPath (wrap_data (encode_request
    {| sd_initiator := 1002; sd_channel_id := id; sd_data := data; sd_complete := true |}))).

(** The client answers the capabilities of the dynamic channels, moves the mouse, sends bytes that
    are no frame of it, and answers again after the server has begun a resize; then it reactivates
    and answers a third time. *)
Definition capabilities_response : bytes := [4; 0; 0; 0; 3; 0; 0; 0; 80; 0; 2; 0].
Definition sample_before : list session_event :=
  [to_channel 1006 capabilities_response;
   ClientFrame (FastPathInput (FastPathInput_encode [EvMouse 0x0800 640 360]));
   ClientFrame (SlowPath [3; 0; 0; 4]); Resized 1920 1080; to_channel 1007 [1; 2; 3]].
Definition sample_after : list session_event :=
  ((λ ds, ClientFrame (SlowPath (packet ds))) <$> sample_activation)
  ++ [to_channel 1007 [1; 2; 3]; to_channel 1005 [1; 2; 3]].

Definition observe_turn (r : turn (R := RdpsndChannel SampleBackend) (C := CliprdrChannel Cliprdr.sample_backend)
    (D := DvcMux (list bytes)) (P := RdpdrChannel (logged DirectoryListingSelfTest))) :=
  match r with
  | Continue t fx => Some (resizing t, capability_negotiated <$> dvc (peer t), ((λ f, (channel f, len (frame_bytes f))) <$> frames_sent fx), injected fx)
  | _ => None
  end.

Example sample_turns :
  let run evs := observe_turn (run_session ((λ ev, (sample_env, ev)) <$> evs) sample_start) in
  run sample_before = Some (true, Some true, [(Io, 357)], [Mouse (Move 640 360)])
  ∧ run (sample_before ++ sample_after)
    = Some (false, Some true, [(Io, 357); (Io, 76); (Io, 693)], [Mouse (Move 640 360)]).
Proof. vm_compute. done. Qed.

Lemma sample_start_fine : session_fine sample_start.
Proof.
  assert (run_inv true sample_session) as [Ha _ _ _ _ _ _].
  { apply run_calls_inv; [exact sample_calls_ok|]. apply (connect_inv (with_require_nla true (Acceptor_new 1280 720))); [apply new_acceptor_ok|done]. }
  split; [split|exact Ha|by vm_compute].
  - exists 1004, 1002, {| sb_started := []; sb_stopped := false |}. apply rtc_refl.
  - split; [by vm_compute|constructor].
  - exists 0. split; [apply DvcMux_new_ok|done].
  - exists []. apply channel_new_ok.
Qed.

Lemma session_survives_witness :
  match run_session ((λ ev, (sample_env, ev)) <$> take 4 sample_before) sample_start with
  | Continue t' _ => session_fine t' ∧ ∀ ev, event_fine ev →
      ∃ e t'' fx, env_fine t' e ev ∧ on_event e t' ev = Continue t'' fx ∧ session_fine t''
  | Ended => ∃ e ev, (e, ev) ∈ (λ ev, (sample_env, ev)) <$> take 4 sample_before ∧ (writer_open e = false ∨ flush_ok e = false)
  | Panicked => False
  end.
Proof.
  apply session_survives; [exact sample_start_fine|]. cbn [fmap list_fmap take sample_before admissible].
  split; [apply (bool_decide_unpack _); vm_compute; exact I|]. split.
  { intros d Hd. vm_compute in Hd. injection Hd as <-. split; try exact I. cbn. by eexists. }
  intros ? ? _. split; [apply (bool_decide_unpack _); vm_compute; exact I|]. split; [exact I|].
  intros ? ? _. split; [apply (bool_decide_unpack _); vm_compute; exact I|]. split; [intros d Hd; by vm_compute in Hd|].
  intros ? ? _. split; [apply (bool_decide_unpack _); vm_compute; exact I|]. by split.
Defined.

(** The answer to the capabilities of the dynamic channels, lost during a resize. *)
Lemma resize_drops_channel_data_witness :
  let t := set_acceptor sample_start waiting in
  let frame := to_channel 1006 capabilities_response in
  on_event sample_env (set_resizing t true None) frame = Continue (set_resizing t true None) nothing
  ∧ (capability_negotiated <$> dvc (peer t)) = Some false
  ∧ observe_turn (on_event sample_env (set_resizing t false None) frame) = Some (false, Some true, [], []).
Proof.
  intros t frame. edestruct (resize_drops_channel_data sample_env t
    {| sd_initiator := 1002; sd_channel_id := 1006; sd_data := capabilities_response; sd_complete := true |}) as [H1 H2].
  - split; [|split; [done|apply (bool_decide_unpack _); vm_compute; exact I]]. by vm_compute.
  - done.
  - exact I.
  - split; [exact H1|]. split; [by vm_compute|]. etransitivity; [apply (f_equal observe_turn H2)|by vm_compute].
Defined.
