(* ===== verification/Credentials.v ===== *)
(** [rdpcore-server/src/credentials.rs] and [credssp.rs]: which identity a client claims, whether
    it is the configured one, and the exchange of CredSSP up to its cryptography.  The crates
    [subtle] and [sspi] are interfaces. *)
From stdpp Require Import pretty.
From S2P Require Import Prelude Cursor Utf FusePath Transport.

(** ** [subtle] *)

(** Equality in constant time: of slices, where a different length is a difference, and of [u64]. *)
Class ConstantTimeEq := {
  ct_eq : bytes → bytes → bool;
  ct_eq_u64 : Z → Z → bool;
  ct_eq_spec a b : ct_eq a b = true ↔ a = b;
  ct_eq_u64_spec n m : ct_eq_u64 n m = true ↔ n = m
}.

(** ** Identities *)

Record Credentials := { username : rstring; password : rstring; domain : option rstring }.

Definition to_ascii_lowercase (c : Z) : Z := if (65 <=? c) && (c <=? 90) then c + 32 else c.

(** [str::trim], [str::strip_prefix] and [str::split_once]. *)
Definition trim : rstring → rstring := trim_matches is_whitespace.
Definition strip_prefix (pre s : rstring) : option rstring :=
  if decide (take (length pre) s = pre) then Some (drop (length pre) s) else None.
Fixpoint split_once (sep : Z) (s : rstring) : option (rstring * rstring) :=
  match s with
  | [] => None
  | c :: s =>
    if c =? sep then Some ([], s)
    else match split_once sep s with Some (a, b) => Some (c :: a, b) | None => None end
  end.

(** The domain and the user. *)
Definition normalize_client_identity (username domain : rstring) : rstring * rstring :=
  let username := trim username in
  let domain := trim domain in
  match strip_prefix (lit ".\") username with
  | Some user => ([], user)
  | None =>
    match split_once BACKSLASH username with
    | Some (d, u) => (d, u)
    | None =>
      match rsplit_once 64 username with
      | Some (u, d) => (d, u)
      | None => (domain, username)
      end
    end
  end.

Section subtle.
Context `{!ConstantTimeEq}.

(** [pa[..a.len()].copy_from_slice(&a)] on zeros. *)
Definition padded (n : nat) (a : bytes) : bytes := a ++ replicate (n - length a) 0.

Definition eq_ignore_ascii_case_ct (a b : rstring) : bool :=
  let a := to_ascii_lowercase <$> as_bytes a in
  let b := to_ascii_lowercase <$> as_bytes b in
  let n := Nat.max (length a) (length b) in
  let body := ct_eq (padded n a) (padded n b) in
  let lens := ct_eq_u64 (len a) (len b) in
  body && lens.

(** [CredentialValidator::validate]: user name, password and domain. *)
Definition CredentialValidator : Type := rstring → rstring → rstring → bool.

Definition ExactMatchCredentialValidator (expected : Credentials) : CredentialValidator :=
  λ user pass dom,
  let '(client_domain, client_user) := normalize_client_identity user dom in
  let password_matches := ct_eq (as_bytes (password expected)) (as_bytes pass) in
  if negb (eq_ignore_ascii_case_ct client_user (username expected)) || negb password_matches then false
  else match domain expected with
  | Some expected_domain => eq_ignore_ascii_case_ct client_domain expected_domain
  | None => true
  end.

Definition client_info_is_authorized (nla_authenticated_user : option rstring)
    (validator : option CredentialValidator) (user pass dom : rstring) : bool :=
  match nla_authenticated_user with
  | Some nla_user =>
    let '(_, client_user) := normalize_client_identity user dom in
    if decide (client_user = []) then true else eq_ignore_ascii_case_ct client_user nla_user
  | None =>
    match validator with
    | Some validate => validate user pass dom
    | None => false
    end
  end.

(** ** The accounts of CredSSP *)

Record ConfiguredCredentials := { expected : Credentials; dummy_password : rstring }.

(** [String::len] *)
Definition str_len (s : rstring) : Z := len (as_bytes s).

Definition dummy_nla_password (real : rstring) : rstring :=
  let dummy := 1 :: lit "kmsrdp-nla-dummy" ++ 1 :: lit (pretty (Z.to_N (str_len real)))
               ++ 1 :: replicate (Z.to_nat (str_len real + 1)) 2 in
  if decide (dummy = real) then dummy ++ [3] else dummy.

Definition ConfiguredCredentials_new (expected : Credentials) : ConfiguredCredentials :=
  {| expected := expected; dummy_password := dummy_nla_password (password expected) |}.

Definition password_for (c : ConfiguredCredentials) (client_user client_domain : rstring) : rstring :=
  let user_ok := eq_ignore_ascii_case_ct client_user (username (expected c)) in
  let domain_ok := match domain (expected c) with
                   | Some expected_domain => eq_ignore_ascii_case_ct client_domain expected_domain
                   | None => true
                   end in
  if user_ok && domain_ok then password (expected c) else dummy_password c.

(** ** What holds of them *)

(** Equal up to the case of ASCII letters. *)
Definition same_name (a b : rstring) : Prop :=
  to_ascii_lowercase <$> as_bytes a = to_ascii_lowercase <$> as_bytes b.

Lemma eq_ignore_ascii_case_spec a b : eq_ignore_ascii_case_ct a b = true ↔ same_name a b.
Proof.
  unfold eq_ignore_ascii_case_ct, same_name.
  set (x := to_ascii_lowercase <$> as_bytes a). set (y := to_ascii_lowercase <$> as_bytes b).
  rewrite andb_true_iff, ct_eq_spec, ct_eq_u64_spec. unfold padded, len. split; [|by intros <-].
  intros [Hb Hl]. apply Nat2Z.inj in Hl. rewrite <-Hl in Hb. by apply app_inj_1 in Hb as [? _].
Qed.

Lemma as_bytes_inj a b : str_ok a → str_ok b → as_bytes a = as_bytes b → a = b.
Proof.
  intros Ha Hb E. apply (inj Some). by rewrite <-(from_utf8_as_bytes a Ha), <-(from_utf8_as_bytes b Hb), E.
Qed.

(** A login by password: the user is the configured one up to case, the password is it exactly,
    and the domain is it up to case where one is configured. *)
Lemma validator_spec expected user pass dom : str_ok (password expected) → str_ok pass →
  ExactMatchCredentialValidator expected user pass dom = true ↔
  let '(client_domain, client_user) := normalize_client_identity user dom in
  same_name client_user (username expected) ∧ pass = password expected
  ∧ match domain expected with Some d => same_name client_domain d | None => True end.
Proof.
  intros He Hp. unfold ExactMatchCredentialValidator. destruct (normalize_client_identity user dom) as [d u].
  assert (ct_eq (as_bytes (password expected)) (as_bytes pass) = true ↔ pass = password expected) as Hpass.
  { rewrite ct_eq_spec. split; [intros E; by apply as_bytes_inj|by intros ->]. }
  rewrite <-eq_ignore_ascii_case_spec, <-Hpass.
  destruct (eq_ignore_ascii_case_ct u _), (ct_eq _ _); cbn [negb orb]; [|by split; [|intros (? & ? & ?)]..].
  destruct (domain expected); [rewrite <-eq_ignore_ascii_case_spec|]; tauto.
Qed.

(** After CredSSP the user of the Client Info PDU is the account proved there, or left out; else the
    validator decides, and without one nobody is let in. *)
Lemma client_info_is_authorized_spec nla validator user pass dom :
  client_info_is_authorized nla validator user pass dom = true ↔
  match nla with
  | Some account => let client_user := (normalize_client_identity user dom).2 in
                    client_user = [] ∨ same_name client_user account
  | None => ∃ validate, validator = Some validate ∧ validate user pass dom = true
  end.
Proof.
  unfold client_info_is_authorized. destruct nla as [account|].
  - destruct (normalize_client_identity user dom) as [d u]. cbn [snd].
    rewrite <-eq_ignore_ascii_case_spec. case_decide; naive_solver.
  - destruct validator; naive_solver.
Qed.

Lemma len_utf8_char c : 1 ≤ len (utf8_char c).
Proof. unfold utf8_char, len. repeat case_match; cbn; lia. Qed.
Lemma length_as_bytes s : (length s ≤ length (as_bytes s))%nat.
Proof.
  induction s as [|c s IH]; [done|]. cbn. rewrite length_app. pose proof (len_utf8_char c). unfold len in *. fold (as_bytes s). lia.
Qed.

(** The password of an unknown account is never the configured one. *)
Lemma dummy_nla_password_differs real : dummy_nla_password real ≠ real.
Proof.
  intros E. pose proof (f_equal length E) as Hl. pose proof (length_as_bytes real) as Hb. revert Hl.
  unfold dummy_nla_password, str_len, len in *. clear E.
  assert (∀ (x y : rstring) n, length (1 :: x ++ 1 :: y ++ 1 :: replicate n 2) = (3 + length x + length y + n)%nat) as Hlen.
  { intros. cbn. rewrite !length_app; cbn. rewrite !length_app; cbn. rewrite length_replicate. lia. }
  case_decide; rewrite ?length_app, Hlen; lia.
Qed.

(** CredSSP is given the configured password for the configured account alone. *)
Lemma password_for_spec account user dom :
  password_for (ConfiguredCredentials_new account) user dom = password account ↔
  same_name user (username account)
  ∧ match domain account with Some d => same_name dom d | None => True end.
Proof.
  unfold password_for. cbn [expected ConfiguredCredentials_new dummy_password].
  rewrite <-eq_ignore_ascii_case_spec. pose proof (dummy_nla_password_differs (password account)) as Hd.
  destruct (eq_ignore_ascii_case_ct user _); cbn [andb]; [|naive_solver].
  destruct (domain account) as [d|]; [|tauto]. rewrite <-eq_ignore_ascii_case_spec.
  destruct (eq_ignore_ascii_case_ct dom d); naive_solver.
Qed.
End subtle.

(** The password of an unknown account can contain the configured one. *)
Example dummy_contains_real : ∃ before after,
  dummy_nla_password (lit "dummy") = before ++ lit "dummy" ++ after.
Proof. exists (1 :: lit "kmsrdp-nla-"), (1 :: lit "5" ++ 1 :: replicate 6 2). vm_compute. reflexivity. Qed.

(** Equality as it is. *)
Program Definition plain_eq : ConstantTimeEq := {| ct_eq a b := bool_decide (a = b); ct_eq_u64 := Z.eqb |}.
Next Obligation. intros. apply bool_decide_eq_true. Qed.
Next Obligation. intros. apply Z.eqb_eq. Qed.

Example identities :
  normalize_client_identity (lit " WORKGROUP\kmsrdp ") [] = (lit "WORKGROUP", lit "kmsrdp")
  ∧ normalize_client_identity (lit ".\kmsrdp") (lit "PC") = ([], lit "kmsrdp")
  ∧ normalize_client_identity (lit "a@b@c") [] = (lit "c", lit "a@b").
Proof. vm_compute. done. Qed.
