(* ===== verification/Wire.v ===== *)
(** A connection during its handshake, as the code that awaits on it sees it: the bytes its client
    sends, what becomes of what is written, the clock, the limiter it shares with the other
    connections, and a record of what decided over it.  A state monad whose computations return,
    fail, or are cancelled by the timeout at an await; a program logic for it. *)
From stdpp Require Import gmap.
From S2P Require Import Prelude Cursor Utf Transport AuthLimit Connector.

(** What an await of the code comes to: a result, an error of the connection, or nothing before
    the timeout drops the computation. *)
Inductive ServerError := EIo (e : IoError) | EConnector (e : ConnectorError) | EUnexpected (e : AcceptorEvent).
Inductive io (A : Type) := Done (x : A) | Failed (e : ServerError) | Cancelled | Panicked.
Arguments Done {A} _.
Arguments Failed {A} _.
Arguments Cancelled {A}.
Arguments Panicked {A}.

(** What the client and the network do.  A client that has sent its bytes hangs up or is silent;
    the TLS handshake does not end, fails, or gives the bytes sent under it; the [n]th write does
    not end, fails or succeeds. *)
Record net := {
  hangs_up : bool; tls_accept : option (option bytes); write_ends : nat → option bool; clock : nat → Z }.

(** What decided over a connection, in order. *)
Inductive decision :=
  | ProvedByCredssp (account : rstring)
  | ReceivedClientInfo (c : ClientCredentials)
  | RecordedFailure (now : Z)
  | RecordedSuccess.

Section wire.
Context {IpAddr : Type} `{Countable IpAddr}.
Context (iter : gmap IpAddr FailureState → list (IpAddr * FailureState)).
Context (n : net) (peer_ip : IpAddr).

Record world := {
  input : bytes; writes : nat; ticks : nat; limiter : gmap IpAddr FailureState; authenticated : bool;
  log : list decision }.
Implicit Types (w : world).

Definition set_input w i := Build_world i (writes w) (ticks w) (limiter w) (authenticated w) (log w).
Definition count_write w := Build_world (input w) (S (writes w)) (ticks w) (limiter w) (authenticated w) (log w).
Definition set_limiter w m d := Build_world (input w) (writes w) (S (ticks w)) m (authenticated w) (log w ++ [d]).
Definition set_authenticated w := Build_world (input w) (writes w) (ticks w) (limiter w) true (log w).
Definition note_in w d := Build_world (input w) (writes w) (ticks w) (limiter w) (authenticated w) (log w ++ [d]).

Definition act (A : Type) : Type := world → world * io A.
#[global] Instance act_ret : MRet act := λ A x w, (w, Done x).
#[global] Instance act_bind : MBind act := λ A B k m w,
  match m w with
  | (w, Done x) => k x w
  | (w, Failed e) => (w, Failed e)
  | (w, Cancelled) => (w, Cancelled)
  | (w, Panicked) => (w, Panicked)
  end.
Definition throw {A} (e : ServerError) : act A := λ w, (w, Failed e).
Definition panic {A} : act A := λ w, (w, Panicked).
Definition get_world : act world := λ w, (w, Done w).
Definition note (d : decision) : act unit := λ w, (note_in w d, Done tt).
Definition authenticate : act unit := λ w, (set_authenticated w, Done tt).

(** A read from the client, its error as a value. *)
Definition try_read {A} (m : stream A) : act (res IoError A) := λ w,
  match m (input w) with
  | Ok (x, rest) => (set_input w rest, Done (Ok x))
  | Err UnexpectedEof => if hangs_up n then (w, Done (Err UnexpectedEof)) else (w, Cancelled)
  | Err e => (w, Done (Err e))
  | Panic => (w, Panicked)
  end.
Definition try_write (_ : bytes) : act bool := λ w,
  match write_ends n (writes w) with
  | Some ok => (count_write w, Done ok)
  | None => (w, Cancelled)
  end.

Definition io_result {A} (r : res IoError A) : act A :=
  match r with Ok x => mret x | Err e => throw (EIo e) | Panic => panic end.
Definition read {A} (m : stream A) : act A := r ← try_read m; io_result r.
(** [write_all] and [flush]; the error of a broken connection is any. *)
Definition write (b : bytes) : act unit :=
  ok ← try_write b; if (ok : bool) then mret tt else throw (EIo UnexpectedEof).
Definition write_response (b : bytes) : act unit := match b with [] => mret tt | _ => write b end.

Definition accept_tls : act unit := λ w,
  match tls_accept n with
  | Some (Some bytes) => (set_input w bytes, Done tt)
  | Some None => (w, Failed (EIo UnexpectedEof))
  | None => (w, Cancelled)
  end.

Definition note_failure : act unit := λ w,
  let now := clock n (ticks w) in
  (set_limiter w (record_failure iter (limiter w) peer_ip now) (RecordedFailure now), Done tt).
Definition note_success : act unit := λ w,
  (set_limiter w (record_success (limiter w) peer_ip) RecordedSuccess, Done tt).

Definition on_acceptor {A} (m : Connector.act A) (a : Acceptor) : act (Acceptor * A) :=
  match m a with
  | (a, Ok x) => mret (a, x)
  | (_, Err e) => throw (EConnector e)
  | (_, Panic) => panic
  end.

(** ** A program logic *)

(** From [w], [m] does not panic; what it returns satisfies [Q], and where it fails or is cancelled
    [E] holds. *)
Definition wp {A} (m : act A) (Q : A → world → Prop) (E : world → Prop) w : Prop :=
  match m w with
  | (w, Done x) => Q x w
  | (w, Failed _) | (w, Cancelled) => E w
  | (_, Panicked) => False
  end.

Lemma io_ret {A} (x : A) (Q : A → world → Prop) E w : Q x w → wp (mret x) Q E w.
Proof. done. Qed.
Lemma io_bind {A B} (m : act A) (k : A → act B) Q E w :
  wp m (λ x w, wp (k x) Q E w) E w → wp (m ≫= k) Q E w.
Proof. unfold wp, mbind, act_bind. destruct (m w) as [w' [x|e| |]]; auto. Qed.
Lemma io_weaken {A} (m : act A) (Q Q' : A → world → Prop) (E E' : world → Prop) w :
  wp m Q E w → (∀ x w, Q x w → Q' x w) → (∀ w, E w → E' w) → wp m Q' E' w.
Proof. unfold wp. destruct (m w) as [w' [x|e| |]]; auto. Qed.
Lemma io_throw {A} e (Q : A → world → Prop) (E : world → Prop) w : E w → wp (throw e) Q E w.
Proof. done. Qed.

(** A predicate on what decided, which reading and writing leave alone. *)
Definition decided (P : list decision → bool → gmap IpAddr FailureState → nat → Prop) w : Prop :=
  P (log w) (authenticated w) (limiter w) (ticks w) ∧ bytes_ok (input w) ∧ len (input w) < 2 ^ 63.

(** A reader that takes a part of its stream. *)
Definition takes {A} (m : stream A) (least : Z) : Prop := ∀ s,
  match m s with
  | Ok (_, rest) => ∃ taken, s = taken ++ rest ∧ least ≤ len taken
  | Err _ => True
  | Panic => False
  end.

Lemma decided_rest P w taken rest :
  decided P w → input w = taken ++ rest → decided P (set_input w rest).
Proof.
  intros (HP & Hb & Hl) E. rewrite E in Hb, Hl. split; [exact HP|]. apply Forall_app in Hb as [_ Hb].
  split; [exact Hb|]. rewrite len_app in Hl. pose proof (len_nonneg taken). cbn. lia.
Qed.

Lemma wp_try_read {A} (m : stream A) least P (Q : res IoError A → world → Prop) E w :
  takes m least → decided P w →
  (∀ x rest taken, m (input w) = Ok (x, rest) → input w = taken ++ rest → least ≤ len taken →
    decided P (set_input w rest) → Q (Ok x) (set_input w rest)) →
  (∀ e, Q (Err e) w) → E w → wp (try_read m) Q E w.
Proof.
  intros Hm Hw HQ He HE. specialize (Hm (input w)). unfold wp, try_read.
  destruct (m (input w)) as [[x rest]|[]|] eqn:Er; [|by destruct (hangs_up n)|apply He|done].
  destruct Hm as (taken & Ei & Hl). apply (HQ x rest taken); try done. by eapply decided_rest.
Qed.

Lemma io_read {A} (m : stream A) least P (Q : A → world → Prop) (E : world → Prop) w :
  takes m least → decided P w → (∀ w, decided P w → E w) →
  (∀ x rest taken, m (input w) = Ok (x, rest) → input w = taken ++ rest → least ≤ len taken →
    decided P (set_input w rest) → Q x (set_input w rest)) →
  wp (read m) Q E w.
Proof.
  intros Hm Hw HE HQ. apply io_bind. eapply wp_try_read; [exact Hm|exact Hw| | |by apply HE].
  - intros x rest taken E1 E2 E3 E4. apply io_ret. by eapply HQ.
  - intros e. apply io_throw. by apply HE.
Qed.

Lemma wp_write b P (Q : unit → world → Prop) (E : world → Prop) w :
  decided P w → (∀ w, decided P w → E w) → (∀ w', decided P w' → input w' = input w → Q tt w') → wp (write b) Q E w.
Proof.
  intros Hw HE HQ. unfold write. apply io_bind. unfold wp at 1, try_write.
  destruct (write_ends n (writes w)) as [[]|]; [apply io_ret, HQ; done|apply HE, Hw|apply HE, Hw].
Qed.
Lemma wp_write_response b P (Q : unit → world → Prop) (E : world → Prop) w :
  decided P w → (∀ w, decided P w → E w) → (∀ w', decided P w' → input w' = input w → Q tt w') →
  wp (write_response b) Q E w.
Proof. intros Hw HE HQ. destruct b; [by apply io_ret, HQ|by eapply wp_write]. Qed.
End wire.
