(* ===== verification/Credssp.v ===== *)
(** [rdpcore-server/src/credssp.rs]: the exchange of CredSSP over the TLS stream.  The crate [sspi],
    which does NTLM and encodes its messages, is an interface; what this code does is to frame the
    messages, to bound them, to answer the questions about accounts and to stop. *)
From stdpp Require Import gmap.
From S2P Require Import Prelude Cursor Utf FusePath Transport AuthLimit Connector Credentials Wire.

(** ** [sspi] *)

Inductive UsernameParts :=
  | DownLevelLogonName (account_name : rstring) (netbios_domain : option rstring)
  | UserPrincipalName (account_name suffix : rstring).

Record AuthIdentity (U : Type) := { id_username : U; id_password : rstring }.
Arguments id_username {U} _.
Arguments id_password {U} _.

(** [CredentialsProxy] *)
Record CredentialsProxy (U : Type) := {
  auth_data_by_user : U → AuthIdentity U; auth_data : option (list (AuthIdentity U)) }.
Arguments auth_data_by_user {U} _ _.
Arguments auth_data {U} _.

(** [TsRequest::read_length]: the length of the message that starts so, or that more of it is
    needed, or an error. *)
Inductive ts_length := LengthIs (n : Z) | LengthUnknown | LengthError.

(** What a generator of [process] comes to. *)
Inductive process_result (R U : Type) :=
  | Suspended | ReplyNeeded (r : R) | Finished (identity : AuthIdentity U) | ProcessError.
Arguments Suspended {R U}.
Arguments ReplyNeeded {R U} _.
Arguments Finished {R U} _.
Arguments ProcessError {R U}.

Class Sspi := {
  Username : Type;
  username_parts : Username → UsernameParts;
  account_name : Username → rstring;
  parse_username : rstring → option Username;
  TsRequest : Type;
  read_length : bytes → ts_length;
  from_buffer : bytes → option TsRequest;
  encode_ts_request : TsRequest → option bytes;
  CredSspServer : Type;
  server_new : bytes → rstring → option CredSspServer;
  process : CredentialsProxy Username → CredSspServer → TsRequest → CredSspServer * process_result TsRequest Username
}.

Inductive CredSspError :=
  | ServerInit | Process | RequestTooLarge (n : Z) | TsLength | TsDecode | TsEncode | CredIo (e : IoError).

Definition MAX_TS_REQUEST_LEN : Z := 65536.

Section credssp.
Context `{!ConstantTimeEq, !Sspi}.

(** ** Accounts *)

Definition proxy_auth_data_by_user (c : ConfiguredCredentials) (user : Username) : AuthIdentity Username :=
  let '(account, domain) := match username_parts user with
                            | DownLevelLogonName a d => (a, default [] d)
                            | UserPrincipalName a s => (a, s)
                            end in
  let '(client_domain, client_user) := normalize_client_identity account domain in
  {| id_username := user; id_password := password_for c client_user client_domain |}.

Definition proxy_auth_data (c : ConfiguredCredentials) : option (list (AuthIdentity Username)) :=
  user ← parse_username (username (expected c));
  Some [{| id_username := user; id_password := password (expected c) |}].

Definition proxy (c : ConfiguredCredentials) : CredentialsProxy Username :=
  {| auth_data_by_user := proxy_auth_data_by_user c; auth_data := proxy_auth_data c |}.

(** ** Messages *)

Context {IpAddr : Type} `{Countable IpAddr}.
Context (iter : gmap IpAddr FailureState → list (IpAddr * FailureState)).
Context (n : net) (peer_ip : IpAddr).
Abbreviation act := (Wire.act (IpAddr := IpAddr)).
Abbreviation world := (Wire.world (IpAddr := IpAddr)).

(** [?] on the errors of this module. *)
Definition and_then {A B} (m : act (res CredSspError A)) (k : A → act (res CredSspError B))
  : act (res CredSspError B) :=
  r ← m; match r with Ok x => k x | Err e => mret (Err e) | Panic => panic end.
Definition cred_read {A} (m : stream A) : act (res CredSspError A) :=
  r ← try_read n m; mret (res_map_err CredIo r).

(** The [loop] that finds the length, with what has been read. *)
Fixpoint ts_request_length (fuel : nat) (buf : bytes) : act (res CredSspError (bytes * Z)) :=
  match fuel with
  | O => panic
  | S fuel =>
    and_then (cred_read (read_exact 1)) (λ byte,
    let buf := buf ++ byte in
    if MAX_TS_REQUEST_LEN <? len buf then mret (Err (RequestTooLarge MAX_TS_REQUEST_LEN))
    else match read_length buf with
    | LengthIs l =>
      if MAX_TS_REQUEST_LEN <? l then mret (Err (RequestTooLarge MAX_TS_REQUEST_LEN)) else mret (Ok (buf, l))
    | LengthUnknown => ts_request_length fuel buf
    | LengthError => mret (Err TsLength)
    end)
  end.

Definition read_ts_request : act (res CredSspError TsRequest) :=
  and_then (ts_request_length (Z.to_nat (MAX_TS_REQUEST_LEN + 1)) []) (λ '(buf, total),
  and_then (if len buf <? total then cred_read (read_exact (total - len buf)) else mret (Ok [])) (λ rest,
  match from_buffer (buf ++ rest) with
  | Some request => mret (Ok request)
  | None => mret (Err TsDecode)
  end)).

Definition write_ts_request (r : TsRequest) : act (res CredSspError unit) :=
  match encode_ts_request r with
  | None => mret (Err TsEncode)
  | Some buf =>
    ok ← try_write n buf;
    mret (if (ok : bool) then Ok tt else Err (CredIo UnexpectedEof))
  end.

(** [resolve_credssp_generator]: a request for the network is an error. *)
Definition resolve (r : process_result TsRequest Username) : res CredSspError (process_result TsRequest Username) :=
  match r with Suspended | ProcessError => Err Process | _ => Ok r end.

(** The [loop] of [run_credssp_nla]. *)
Fixpoint credssp_loop (fuel : nat) (p : CredentialsProxy Username) (server : CredSspServer)
  : act (res CredSspError rstring) :=
  match fuel with
  | O => panic
  | S fuel =>
    and_then read_ts_request (λ request,
    let '(server, result) := process p server request in
    match resolve result with
    | Ok (ReplyNeeded r) => and_then (write_ts_request r) (λ _, credssp_loop fuel p server)
    | Ok (Finished identity) => mret (Ok (account_name (id_username identity)))
    | _ => mret (Err Process)
    end)
  end.

Definition run_credssp_nla (public_key : bytes) (account : Credentials) (computer_name : rstring)
  : act (res CredSspError rstring) :=
  match server_new public_key computer_name with
  | None => mret (Err ServerInit)
  | Some server =>
    w ← get_world;
    credssp_loop (S (length (input w))) (proxy (ConfiguredCredentials_new account)) server
  end.

(** ** It ends, within its bounds *)

Implicit Types (w : world) (P : list decision → bool → gmap IpAddr FailureState → nat → Prop).

Lemma takes_read_exact k : 0 ≤ k → takes (read_exact k) k.
Proof.
  intros Hk s. destruct (read_exact_spec k s Hk) as [(a & s' & -> & -> & Ha)| ->]; [|done].
  exists a. split; [done|lia].
Qed.

Lemma wp_and_then {A B} (m : act (res CredSspError A)) (k : A → act (res CredSspError B)) Q E w :
  wp m (λ r w, match r with Ok x => wp (k x) Q E w | Err e => Q (Err e) w | Panic => False end) E w →
  wp (and_then m k) Q E w.
Proof.
  intros Hm. apply io_bind. eapply io_weaken; [exact Hm| |done]. by intros [x|e|] w'.
Qed.

Lemma wp_cred_read k P (Q : res CredSspError bytes → world → Prop) (E : world → Prop) w :
  0 ≤ k → decided P w → E w → (∀ e, Q (Err e) w) →
  (∀ x rest, input w = x ++ rest → len x = k → decided P (set_input w rest) → Q (Ok x) (set_input w rest)) →
  wp (cred_read (read_exact k)) Q E w.
Proof.
  intros Hk Hw HE He HQ. apply io_bind. eapply wp_try_read; [by apply takes_read_exact|exact Hw| | |exact HE].
  - intros x rest taken Er _ _ Hd. apply io_ret. cbn.
    destruct (read_exact_spec k (input w) Hk) as [(a & s' & Er' & Ei & Ha)|Er']; rewrite Er' in Er; [|done].
    injection Er as <- <-. by apply HQ.
  - intros e. apply io_ret. cbn. apply He.
Qed.

(** Reading a message takes at least a byte and at most the limit. *)
Definition took w (r : res CredSspError TsRequest) w' : Prop :=
  match r with
  | Ok _ => ∃ taken, input w = taken ++ input w' ∧ 1 ≤ len taken ≤ MAX_TS_REQUEST_LEN
  | Err _ => True
  | Panic => False
  end.

Lemma ts_request_length_spec P E fuel : ∀ buf w,
  decided P w → (∀ w, decided P w → E w) → MAX_TS_REQUEST_LEN < len buf + Z.of_nat fuel →
  len buf ≤ MAX_TS_REQUEST_LEN →
  wp (ts_request_length fuel buf) (λ r w', decided P w' ∧
    match r with
    | Ok (buf', total) => total ≤ MAX_TS_REQUEST_LEN ∧ ∃ taken, buf' = buf ++ taken
        ∧ input w = taken ++ input w' ∧ 1 ≤ len taken ∧ len buf' ≤ MAX_TS_REQUEST_LEN
    | Err _ => True
    | Panic => False
    end) E w.
Proof.
  induction fuel as [|fuel IH]; intros buf w Hw HE Hf Hb; [lia|]. cbn [ts_request_length].
  apply wp_and_then, (wp_cred_read 1 P); [lia|done|by apply HE|done|]. intros x rest Ei Hx Hd.
  assert (len (buf ++ x) = len buf + 1) as Hlen by (rewrite len_app; lia).
  destruct (Z.ltb_spec MAX_TS_REQUEST_LEN (len (buf ++ x))); [by apply io_ret|].
  destruct (read_length (buf ++ x)) as [l| |]; [| |by apply io_ret].
  - destruct (Z.ltb_spec MAX_TS_REQUEST_LEN l); [by apply io_ret|]. apply io_ret. split; [done|]. split; [done|].
    exists x. split; [done|]. split; [done|]. lia.
  - eapply io_weaken; [apply (IH (buf ++ x)); [done|done|lia|lia]| |done].
    intros [[buf' total]|e|] w' [Hd' Hr]; (split; [exact Hd'|]); [|done..].
    destruct Hr as (Ht & taken & -> & Ei' & Hone & Hmax). split; [done|]. exists (x ++ taken).
    rewrite <-!(assoc_L (++)) in *. split; [done|]. cbn in Ei'. rewrite Ei, Ei'. split; [done|].
    rewrite (len_app x). pose proof (len_nonneg x). lia.
Qed.

Lemma read_ts_request_spec P E w :
  decided P w → (∀ w, decided P w → E w) →
  wp read_ts_request (λ r w', decided P w' ∧ took w r w') E w.
Proof.
  intros Hw HE. apply wp_and_then.
  eapply io_weaken; [apply (ts_request_length_spec P E); [done|done|unfold len; cbn [length]; lia|done]| |done].
  intros [[buf total]|e|] w1 [Hd Hr]; [|by split|done]. destruct Hr as (Ht & taken & E1 & Ei & Hone & Hmax).
  cbn [app] in E1. subst taken. apply wp_and_then.
  destruct (Z.ltb_spec (len buf) total) as [Hlt|Hge].
  - apply (wp_cred_read _ P); [lia|done|by apply HE|done|]. intros x rest Ei1 Hx Hd1.
    destruct (from_buffer _); apply io_ret; (split; [exact Hd1|]); [|done].
    exists (buf ++ x). rewrite <-(assoc_L (++)), len_app. cbn. rewrite <-Ei1. split; [done|lia].
  - apply io_ret. destruct (from_buffer _); apply io_ret; (split; [exact Hd|]); [|done].
    exists buf. split; [done|lia].
Qed.

Lemma wp_write_ts_request P E r w :
  decided P w → (∀ w, decided P w → E w) →
  wp (write_ts_request r) (λ x w', decided P w' ∧ input w' = input w ∧ x ≠ Panic) E w.
Proof.
  intros Hw HE. unfold write_ts_request. destruct (encode_ts_request r); [|by apply io_ret].
  apply io_bind. unfold wp at 1, try_write. destruct (write_ends n (writes w)) as [[]|]; [..|by apply HE];
    apply io_ret; (split; [exact Hw|done]).
Qed.

Lemma credssp_loop_spec P E p fuel : ∀ server w,
  decided P w → (∀ w, decided P w → E w) → (length (input w) < fuel)%nat →
  wp (credssp_loop fuel p server) (λ r w', decided P w' ∧ r ≠ Panic) E w.
Proof.
  induction fuel as [|fuel IH]; intros server w Hw HE Hf; [lia|]. cbn [credssp_loop].
  apply wp_and_then. eapply io_weaken; [by apply read_ts_request_spec| |done].
  intros [request|e|] w1 [Hd Ht]; [|by split|done]. destruct Ht as (taken & Ei & Hl).
  assert (length (input w1) < length (input w))%nat as Hlt.
  { rewrite Ei, length_app. unfold len in Hl. lia. }
  destruct (process p server request) as [server' result].
  destruct result as [|r|identity|]; cbn [resolve]; [by apply io_ret| |by apply io_ret..].
  apply wp_and_then. eapply io_weaken; [by apply (wp_write_ts_request P)| |done].
  intros [[]|e|] w2 (Hd2 & Ei2 & Hx); [|by split|done]. apply IH; [done|done|]. rewrite Ei2. lia.
Qed.

(** Whatever the client sends, the exchange comes to an end and touches nothing but the stream. *)
Lemma run_credssp_nla_spec P E public_key account computer_name w :
  decided P w → (∀ w, decided P w → E w) →
  wp (run_credssp_nla public_key account computer_name) (λ r w', decided P w' ∧ r ≠ Panic) E w.
Proof.
  intros Hw HE. unfold run_credssp_nla. destruct (server_new _ _); [|by apply io_ret].
  apply io_bind. unfold wp at 1, get_world. apply credssp_loop_spec; [done..|lia].
Qed.
End credssp.
