(* ===== verification/Handshake.v ===== *)
(** [rdpcore-server/src/server/handshake.rs] and the part of [server/mod.rs] that serves one
    connection up to its session: who is let in, and what the limiter is told. *)
From stdpp Require Import gmap.
From S2P Require Import Prelude Cursor Utf Framing Transport AuthLimit Headers Capability Connector ConnectorSafety.
From S2P Require Import ConnectorFlow Credentials Wire Credssp.

Section handshake.
Context `{!ConstantTimeEq, Hsspi : !Sspi}.
Context {IpAddr : Type} `{Hcount : Countable IpAddr}.
Context (iter : gmap IpAddr FailureState → list (IpAddr * FailureState)).
Context (n : net) (peer_ip : IpAddr).
Abbreviation act := (Wire.act (IpAddr := IpAddr)).
Abbreviation world := (Wire.world (IpAddr := IpAddr)).

(** [HandshakeParams]; the limiter is in the world. *)
Record HandshakeParams := {
  desktop : Z * Z; hp_require_nla : bool; tls_public_key : bytes;
  nla_credentials : option Credentials; credential_validator : option CredentialValidator }.
Context (params : HandshakeParams).

Definition authorized (nla : option rstring) (c : ClientCredentials) : bool :=
  client_info_is_authorized nla (credential_validator params) (cr_username c) (cr_password c) (cr_domain c).

(** The NLA phase: [None] ends the connection, else the account proved, if any. *)
Definition nla_phase (a : Acceptor) : act (option (option rstring)) :=
  if requires_credssp a then
    match nla_credentials params with
    | None => mret None
    | Some credentials =>
      match tls_public_key params with
      | [] => mret None
      | public_key =>
        r ← run_credssp_nla n public_key credentials (lit "kmsrdp");
        match r with
        | Ok user => note (ProvedByCredssp user) ;; mret (Some (Some user))
        | Err _ => note_failure iter n peer_ip ;; mret None
        | Panic => panic
        end
      end
    end
  else mret (Some None).

(** The [loop] over the frames under TLS. *)
Fixpoint handshake_loop (fuel : nat) (nla : option rstring) (a : Acceptor)
  : act (option (Acceptor * AcceptedConnection)) :=
  match fuel with
  | O => panic
  | S fuel =>
    frame ← read n read_tpkt_frame;
    '(a, result) ← on_acceptor (Connector.step frame) a;
    match Connector.event result with
    | EvNone | EvTlsUpgrade => write_response n (response result) ;; handshake_loop fuel nla a
    | EvClientInfoReceived credentials =>
      note (ReceivedClientInfo credentials) ;;
      if negb (authorized nla credentials) then
        note_failure iter n peer_ip ;;
        let _ := reject_client_info a in
        mret None
      else
        note_success peer_ip ;; authenticate ;;
        write_response n (response result) ;;
        '(a, approval) ← on_acceptor approve_client_info a;
        write n approval ;;
        handshake_loop fuel nla a
    | EvAccepted accepted => write_response n (response result) ;; mret (Some (a, accepted))
    | EvRejected => mret None
    end
  end.

Definition negotiate : act (option (Acceptor * AcceptedConnection)) :=
  let a := with_require_nla (hp_require_nla params) (Acceptor_new (desktop params).1 (desktop params).2) in
  frame ← read n read_tpkt_frame;
  '(a, result) ← on_acceptor (Connector.step frame) a;
  write n (response result) ;;
  match Connector.event result with
  | EvTlsUpgrade =>
    accept_tls n ;;
    nla ← nla_phase a;
    match nla with
    | None => mret None
    | Some nla => w ← get_world; handshake_loop (S (length (input w))) nla a
    end
  | EvRejected => mret None
  | other => throw (EUnexpected other)
  end.

(** How a connection leaves [handle_connection]. *)
Inductive verdict :=
  | Refused | Closed | TimedOut | Errored (e : ServerError) | NoSlot | Crashed
  | Steady (a : Acceptor) (accepted : AcceptedConnection).

(** [slot]: whether a session slot is free when it is asked for. *)
Definition handle_connection (slot : bool) (w : world) : world * verdict :=
  let now := clock n (ticks w) in
  let '(m, blocked) := is_blocked (limiter w) peer_ip now in
  let w := Build_world (input w) (writes w) (S (ticks w)) m (authenticated w) (log w) in
  if blocked then (w, Refused)
  else
    match negotiate w with
    | (w, Done None) => (w, Closed)
    | (w, Done (Some (a, accepted))) => (w, if slot then Steady a accepted else NoSlot)
    | (w, Failed e) => (w, Errored e)
    | (w, Cancelled) =>
      (if authenticated w then w else (note_failure iter n peer_ip w).1, TimedOut)
    | (w, Panicked) => (w, Crashed)
    end.

(** ** What can decide over a connection *)

Definition proved (nla : option rstring) : list decision :=
  match nla with Some user => [ProvedByCredssp user] | None => [] end.

Section course.
Context (m0 : gmap IpAddr FailureState) (t0 : nat).
Let now := clock n t0.

(** The decisions of one connection, whether it counts as authenticated, what is left of the
    limiter, and how often it was told something. *)
Inductive course : list decision → bool → gmap IpAddr FailureState → nat → Prop :=
  | undecided nla : course (proved nla) false m0 t0
  | failed_proof : course [RecordedFailure now] false (record_failure iter m0 peer_ip now) (S t0)
  | timed_out nla : course (proved nla ++ [RecordedFailure now]) false (record_failure iter m0 peer_ip now) (S t0)
  | turned_down nla c : authorized nla c = false →
      course (proved nla ++ [ReceivedClientInfo c; RecordedFailure now]) false
        (record_failure iter m0 peer_ip now) (S t0)
  | let_in nla c : authorized nla c = true → (hp_require_nla params = true → is_Some nla) →
      course (proved nla ++ [ReceivedClientInfo c; RecordedSuccess]) true (record_success m0 peer_ip) (S t0).

Definition is_undecided (nla : option rstring) l (b : bool) (m : gmap IpAddr FailureState) t : Prop :=
  l = proved nla ∧ b = false ∧ m = m0 ∧ t = t0.
Definition is_let_in (nla : option rstring) l (b : bool) (m : gmap IpAddr FailureState) t : Prop :=
  ∃ c, authorized nla c = true ∧ l = proved nla ++ [ReceivedClientInfo c; RecordedSuccess] ∧ b = true
    ∧ m = record_success m0 peer_ip ∧ t = S t0.

(** What fails or is cancelled has not been turned down. *)
Definition open_course (w : world) : Prop :=
  ∃ nla, decided (is_undecided nla) w
    ∨ decided (is_let_in nla) w ∧ (hp_require_nla params = true → is_Some nla).
Definition closed_course (w : world) : Prop :=
  course (log w) (authenticated w) (limiter w) (ticks w).
Definition result_course (r : option (Acceptor * AcceptedConnection)) (w : world) : Prop :=
  closed_course w ∧ ∀ a accepted, r = Some (a, accepted) →
    authenticated w = true ∧ state a = Accepted ∧ accepted = accepted_connection a.

Lemma open_closed w : open_course w → closed_course w.
Proof.
  intros (nla & [(Hd & _)|[(Hd & _) Hn]]); unfold closed_course.
  - destruct Hd as (-> & -> & -> & ->). constructor.
  - destruct Hd as (c & Hc & -> & -> & -> & ->). by constructor.
Qed.
Lemma undecided_open nla w : decided (is_undecided nla) w → open_course w.
Proof. intros Hw. exists nla. by left. Qed.

(** The loop's invariant. *)
Definition loop_inv (nla : option rstring) (a : Acceptor) (w : world) : Prop :=
  acceptor_ok a ∧
  (¬ post_auth a ∧ state a ≠ WaitAuthApproval ∧ decided (is_undecided nla) w
   ∨ post_auth a ∧ decided (is_let_in nla) w).

(** ** One step of the acceptor *)

Implicit Types (w : world).

Lemma tpkt_frame_splits s :
  match read_tpkt_frame s with
  | Ok (f, rest) => s = f ++ rest ∧ 4 ≤ len f | Err _ => True | Panic => False end.
Proof.
  unfold read_tpkt_frame, mbind, stream_bind.
  destruct (read_exact_spec 4 s) as [(h & s' & -> & -> & Hh)| ->]; [lia| |done].
  destruct h as [|h0 [|h1 [|h2 [|h3 [|]]]]]; try (unfold len in Hh; cbn in Hh; lia).
  cbn [byte_of lookup list_lookup].
  pose proof (tpkt_rest_splits [h0; h1; h2; h3] (from_be [h2; h3]) s') as Hs.
  unfold mbind, stream_bind in Hs. destruct (_ <? 4); [done|]. destruct (usize_sub _ _ s') as [[k s2]| |]; [|done..].
  destruct (read_exact k s2) as [[r s3]| |]; [|done..]. exact Hs.
Qed.

Lemma frame_read w x rest : bytes_ok (input w) → len (input w) < 2 ^ 63 →
  read_tpkt_frame (input w) = Ok (x, rest) → bytes_ok x ∧ len x < 2 ^ 63.
Proof.
  intros Hb Hl E. pose proof (tpkt_frame_splits (input w)) as Hs. rewrite E in Hs. destruct Hs as [Ei _].
  rewrite Ei in Hb, Hl. rewrite len_app in Hl. apply Forall_app in Hb as [Hb _].
  split; [exact Hb|]. pose proof (len_nonneg rest). lia.
Qed.

Lemma takes_tpkt : takes read_tpkt_frame 4.
Proof.
  intros s. pose proof (tpkt_frame_splits s) as Hs. destruct (read_tpkt_frame s) as [[f rest]| |]; [|done..].
  destruct Hs. by exists f.
Qed.

Lemma wp_on_acceptor {A} (m : Connector.act A) (Q' : A → Acceptor → Prop) (E' : Acceptor → Prop)
    (Q : Acceptor * A → world → Prop) (E : world → Prop) a w :
  ConnectorSafety.wp m Q' E' a → (∀ x a', Q' x a' → Q (a', x) w) → E w → wp (on_acceptor m a) Q E w.
Proof.
  unfold ConnectorSafety.wp, on_acceptor. intros Hm HQ HE. destruct (m a) as [a' [x|e|]]; [|done..].
  apply io_ret. by apply HQ.
Qed.

(** Reading a frame and giving it to the acceptor. *)
Lemma wp_frame_step {B} P a (k : Acceptor * StepResult → act B) (Q : B → world → Prop) (E : world → Prop) w :
  acceptor_ok a → decided P w → (∀ w, decided P w → E w) →
  (∀ frame a' x w', Connector.step frame a = (a', Ok x) → step_post a (Some (Connector.event x)) a' →
    decided P w' → (length (input w') < length (input w))%nat → wp (k (a', x)) Q E w') →
  wp (frame ← read n read_tpkt_frame; on_acceptor (Connector.step frame) a ≫= k) Q E w.
Proof.
  intros Ha Hw HE HQ. apply io_bind. eapply io_read; [apply takes_tpkt|exact Hw|exact HE|].
  intros frame rest taken Er Ei Ht Hd. pose proof Hw as (_ & Hb & Hl).
  destruct (frame_read w frame rest Hb Hl Er) as [Hbf Hlf].
  pose proof (step_wp frame a Ha Hbf Hlf) as Hs. apply io_bind. unfold on_acceptor, ConnectorSafety.wp in *.
  destruct (Connector.step frame a) as [a' [x|e|]] eqn:Es; [|by apply io_throw, HE|done].
  apply io_ret, (HQ frame); [done..|]. cbn. rewrite Ei, length_app. unfold len in Ht. lia.
Qed.

(** The first frame decides the protocol: where NLA is required it is negotiated, or the
    connection is rejected. *)
Lemma first_step frame (width height : Z) a' x :
  Connector.step frame (with_require_nla (hp_require_nla params) (Acceptor_new width height)) = (a', Ok x) →
  match Connector.event x with
  | EvTlsUpgrade => state a' = WaitConnectInitial ∧ (hp_require_nla params = true → requires_credssp a' = true)
  | EvRejected => True
  | _ => False
  end.
Proof.
  unfold Connector.step, on_connection_request, restoring, decoded, mbind, Connector.act_bind, Connector.get.
  cbn. destruct (ConnectionRequest_decode frame) as [r|e|]; cbn; [|done..].
  destruct (protocol_contains (cr_protocol r) PROTOCOL_HYBRID) eqn:Eh; cbn.
  - intros [= <- <-]. by split.
  - destruct (hp_require_nla params) eqn:En; cbn; [intros [= <- <-]; done|].
    destruct (protocol_contains (cr_protocol r) PROTOCOL_SSL); cbn; intros [= <- <-]; [by split|done].
Qed.

Lemma approve_spec a : acceptor_ok a → state a = WaitAuthApproval →
  ConnectorSafety.wp approve_client_info (λ _ a', acceptor_ok a' ∧ post_auth a') (λ _, False) a.
Proof.
  intros [Hs Hp] Es. unfold approve_client_info. apply ConnectorSafety.wp_bind, ConnectorSafety.wp_get.
  rewrite Es. apply ConnectorSafety.wp_bind, ConnectorSafety.wp_modify, ConnectorSafety.wp_ret.
  split; [|done]. split; [exact Hs|]. intros _. apply Hp. unfold negotiated. by rewrite Es.
Qed.

(** ** The handshake *)

(** Before the Client Info PDU the acceptor only moves among the phases before it. *)
Lemma step_undecided a x a' :
  ¬ post_auth a → state a ≠ WaitAuthApproval → step_post a (Some x) a' →
  match x with
  | EvClientInfoReceived _ => state a' = WaitAuthApproval
  | EvAccepted _ => False
  | _ => ¬ post_auth a' ∧ state a' ≠ WaitAuthApproval
  end.
Proof.
  intros Hp Hs [_ _ P3 _ P5 _ P7]. destruct x as [| | |c|y]; try (rewrite P3, P5; done).
  - by apply P5.
  - by destruct P7.
Qed.

Lemma step_let_in a x a' :
  post_auth a → step_post a (Some x) a' →
  match x with
  | EvClientInfoReceived _ => False
  | EvAccepted y => post_auth a' ∧ state a' = Accepted ∧ y = accepted_connection a'
  | _ => post_auth a'
  end.
Proof.
  intros Hp [_ _ P3 _ _ P6 P7]. destruct x as [| | |c|y]; try (by rewrite P3).
  unfold post_auth in Hp. by rewrite P6 in Hp.
Qed.

Lemma none_result nla w :
  (hp_require_nla params = true → is_Some nla) →
  decided (is_undecided nla) w ∨ decided (is_let_in nla) w → result_course None w.
Proof. intros Hn Hw. split; [|done]. apply open_closed. exists nla. naive_solver. Qed.

Lemma let_in_open nla w : (hp_require_nla params = true → is_Some nla) → decided (is_let_in nla) w → open_course w.
Proof. intros Hn Hw. exists nla. by right. Qed.

Lemma admit_spec fuel nla a x c w :
  (∀ a w, loop_inv nla a w → (length (input w) < fuel)%nat →
    wp (handshake_loop fuel nla a) result_course open_course w) →
  (hp_require_nla params = true → is_Some nla) → acceptor_ok a → state a = WaitAuthApproval →
  decided (is_undecided nla) w → (length (input w) < fuel)%nat → authorized nla c = true →
  wp (note_success peer_ip ;; authenticate ;; write_response n x ;;
      '(a, approval) ← on_acceptor approve_client_info a; write n approval ;; handshake_loop fuel nla a)
    result_course open_course (note_in w (ReceivedClientInfo c)).
Proof.
  intros IH Hn Ha Es ((El & Eb & Em & Et) & Hb & Hl) Hf Hauth.
  do 2 (apply io_bind; unfold wp at 1, note_success, authenticate). set (w1 := set_authenticated _).
  assert (decided (is_let_in nla) w1) as Hw1.
  { split; [|done]. exists c. split; [done|]. cbn. by rewrite El, Em, Et, <-(assoc_L (++)). }
  assert (length (input w1) < fuel)%nat as Hf1 by done. clearbody w1. clear Hb Hl.
  apply io_bind. eapply wp_write_response; [exact Hw1|intros; by eapply let_in_open|]. intros w2 Hw2 Ei2.
  apply io_bind. eapply wp_on_acceptor; [by apply approve_spec| |by eapply let_in_open].
  intros approval a' [Ha' Hp']. apply io_bind. eapply wp_write; [exact Hw2|intros; by eapply let_in_open|].
  intros w3 Hw3 Ei3. apply IH; [|congruence]. split; [done|]. by right.
Qed.

Lemma handshake_loop_spec nla fuel : (hp_require_nla params = true → is_Some nla) → ∀ a w,
  loop_inv nla a w → (length (input w) < fuel)%nat →
  wp (handshake_loop fuel nla a) result_course open_course w.
Proof.
  intros Hn. induction fuel as [|fuel IH]; intros a w [Ha Hinv] Hf; [lia|]. cbn [handshake_loop].
  destruct Hinv as [(Hp & Hs & Hw)|(Hp & Hw)].
  - apply (wp_frame_step (is_undecided nla)); [done|done|by apply undecided_open|].
    intros frame a' x w' _ Hpost Hw' Hlt. pose proof (step_undecided _ _ _ Hp Hs Hpost) as Hx.
    pose proof (post_ok _ _ _ Hpost) as Ha'. cbn beta iota.
    destruct (Connector.event x) as [| | |c|acc]; [|apply io_ret; eapply none_result; [done|by left]| | |done].
    1,2: apply io_bind; eapply wp_write_response; [exact Hw'|by apply undecided_open|]; intros w2 Hw2 Ei2;
      apply IH; [split; [done|]; left; tauto|rewrite Ei2; lia].
    apply io_bind. unfold wp at 1, note. destruct (authorized nla c) eqn:Hc; cbn [negb].
    + apply (admit_spec fuel nla a' (response x) c w'); try done. lia.
    + apply io_bind. unfold wp at 1, note_failure. apply io_ret. split; [|done].
      destruct Hw' as ((El & Eb & Em & Et) & _). unfold closed_course. cbn.
      rewrite El, Eb, Em, Et, <-(assoc_L (++)). by constructor.
  - apply (wp_frame_step (is_let_in nla)); [done|done|intros; by eapply let_in_open|].
    intros frame a' x w' _ Hpost Hw' Hlt. pose proof (step_let_in _ _ _ Hp Hpost) as Hx.
    pose proof (post_ok _ _ _ Hpost) as Ha'. cbn beta iota.
    destruct (Connector.event x) as [| | |c|acc]; [|apply io_ret; eapply none_result; [done|by right]| |done|].
    1,2: apply io_bind; eapply wp_write_response; [exact Hw'|intros; by eapply let_in_open|]; intros w2 Hw2 Ei2;
      apply IH; [split; [done|]; by right|rewrite Ei2; lia].
    apply io_bind; eapply wp_write_response; [exact Hw'|intros; by eapply let_in_open|]; intros w2 Hw2 Ei2.
    apply io_ret. split; [apply open_closed; by eapply let_in_open|]. intros a2 acc2 [= <- <-].
    destruct Hw2 as ((? & _ & _ & -> & _) & _). tauto.
Qed.

(** The exchange of CredSSP leaves an account, or ends the connection; where the acceptor asks for it
    nobody passes without an account. *)
Lemma nla_phase_spec a w : decided (is_undecided None) w →
  wp (nla_phase a) (λ r w', match r with
    | None => closed_course w'
    | Some nla => decided (is_undecided nla) w' ∧ (requires_credssp a = true → is_Some nla)
    end) open_course w.
Proof.
  intros Hw. unfold nla_phase. destruct (requires_credssp a); [|by apply io_ret].
  pose proof (open_closed w (undecided_open None w Hw)) as Hc.
  destruct (nla_credentials params) as [account|]; [|by apply io_ret].
  destruct (tls_public_key params) as [|k ks]; [by apply io_ret|]. apply io_bind.
  eapply io_weaken; [eapply (run_credssp_nla_spec n) with (P := is_undecided None) (E := open_course); [done|by apply undecided_open]| |done].
  intros [user|e|] w1 [((El & Eb & Em & Et) & Hi) Hr]; [..|done].
  - apply io_bind. unfold wp at 1, note. apply io_ret. split; [|by eexists]. split; [|exact Hi].
    cbn. by rewrite El, Eb, Em, Et.
  - apply io_bind. unfold wp at 1, note_failure. apply io_ret. unfold closed_course. cbn.
    rewrite El, Eb, Em, Et. apply failed_proof.
Qed.

(** A client whose TLS stream is one of bytes, as long as memory. *)
Definition net_ok : Prop :=
  match tls_accept n with Some (Some b) => bytes_ok b ∧ len b < 2 ^ 63 | _ => True end.

Lemma handshake_spec w : net_ok → decided (is_undecided None) w → wp negotiate result_course open_course w.
Proof.
  intros Hnet Hw. unfold negotiate. set (a0 := with_require_nla _ _).
  pose proof (new_acceptor_ok (desktop params).1 (desktop params).2 (hp_require_nla params)) as Ha0. fold a0 in Ha0.
  apply (wp_frame_step (is_undecided None)); [done|done|by apply undecided_open|].
  intros frame a x w1 Es Hpost Hw1 _. apply first_step in Es. cbn beta iota.
  apply io_bind. eapply wp_write; [exact Hw1|by apply undecided_open|]. intros w2 Hw2 _.
  pose proof (open_closed w2 (undecided_open None w2 Hw2)) as Hc.
  destruct (Connector.event x) eqn:Ex; [done|by apply io_ret; split| |done..]. destruct Es as [Es Hreq].
  apply io_bind. unfold net_ok in Hnet. unfold wp at 1, accept_tls.
  destruct (tls_accept n) as [[b|]|]; [|by apply (undecided_open None)..].
  assert (decided (is_undecided None) (set_input w2 b)) as Hw3 by (split; [apply Hw2|exact Hnet]).
  apply io_bind. eapply io_weaken; [by apply nla_phase_spec| |done].
  intros [nla|] w3 H3; [|by apply io_ret; split]. destruct H3 as [Hd Hnla].
  apply io_bind. unfold wp at 1, get_world. apply handshake_loop_spec; [intros; by apply Hnla, Hreq| |lia].
  split; [by eapply post_ok|]. left. split; [unfold post_auth; rewrite Es; tauto|]. split; [by rewrite Es|done].
Qed.
End course.

(** The start of a connection: nothing is decided. *)
Definition start (m : gmap IpAddr FailureState) (cleartext : bytes) : world :=
  {| input := cleartext; writes := 0; ticks := 0; limiter := m; authenticated := false; log := [] |}.

(** What [handle_connection] does, for both properties below. *)
Definition verdict_ok (m : gmap IpAddr FailureState) (blocked : bool) (w : world) (v : verdict) : Prop :=
  course m 1 (log w) (authenticated w) (limiter w) (ticks w)
  ∧ match v with
    | Crashed => False
    | Refused => blocked = true ∧ limiter w = m ∧ log w = []
    | TimedOut => blocked = false ∧ (authenticated w = false → ∃ now, RecordedFailure now ∈ log w)
    | Steady a accepted => blocked = false ∧ authenticated w = true ∧ state a = Accepted ∧ accepted = accepted_connection a
    | _ => blocked = false
    end.

Lemma handle_connection_ok slot m cleartext :
  net_ok → bytes_ok cleartext → len cleartext < 2 ^ 63 →
  let '(m', blocked) := is_blocked m peer_ip (clock n 0) in
  let '(w, v) := handle_connection slot (start m cleartext) in verdict_ok m' blocked w v.
Proof.
  intros Hnet Hb Hl. unfold handle_connection. cbn [ticks start limiter].
  destruct (is_blocked m peer_ip (clock n 0)) as [m1 blocked] eqn:Eb.
  set (w1 := Build_world _ _ _ _ _ _). assert (decided (is_undecided m1 1 None) w1) as Hw1 by done.
  destruct blocked; [by split; [apply (undecided m1 1 None)|]|].
  pose proof (handshake_spec m1 1 w1 Hnet Hw1) as Hneg. unfold wp in Hneg.
  destruct (negotiate w1) as [w2 [[[a accepted]|]|e| |]]; [| | | |done].
  - destruct Hneg as [Hc Hr]. specialize (Hr a accepted eq_refl). destruct slot; by split.
  - by destruct Hneg.
  - split; [by apply open_closed|done].
  - destruct Hneg as (nla & [((El & Eb' & Em & Et) & _)|Hlet]).
    + rewrite Eb'. split; [cbn; rewrite El, Eb', Em, Et; apply timed_out|]. split; [done|]. intros _.
      eexists. cbn. apply elem_of_app. right. by left.
    + pose proof Hlet as [((c & _ & _ & Eauth & _) & _) _]. rewrite Eauth. split; [|by split; [|congruence]].
      apply open_closed. exists nla. by right.
Qed.

(** C10. Who is let in.  Whatever bytes a client sends before and under TLS, wherever it stops, and
    whatever [sspi], the network and the other connections do, serving a connection ends without a
    panic; it is refused exactly when the limiter blocks its address; what decides over it is one of
    the five courses, in which the limiter is told at most one thing: a failure when CredSSP fails,
    the credentials are not accepted or the time runs out before they are, a success when they
    are.  It becomes a session only if the acceptor completed and the Client Info PDU was authorized:
    as the account proved by CredSSP, or by the validator where CredSSP was not negotiated, which it
    is wherever the server requires it. *)
Theorem connection_admits (slot : bool) (m : gmap IpAddr FailureState) (cleartext : bytes) :
  net_ok → bytes_ok cleartext → len cleartext < 2 ^ 63 →
  let '(m', blocked) := is_blocked m peer_ip (clock n 0) in
  let '(w, v) := handle_connection slot (start m cleartext) in
  v ≠ Crashed ∧ (v = Refused ↔ blocked = true)
  ∧ (v = TimedOut → authenticated w = false → ∃ now, RecordedFailure now ∈ log w)
  ∧ course m' 1 (log w) (authenticated w) (limiter w) (ticks w)
  ∧ ∀ a accepted, v = Steady a accepted →
      ∃ nla c, log w = proved nla ++ [ReceivedClientInfo c; RecordedSuccess] ∧ authorized nla c = true
        ∧ (hp_require_nla params = true → is_Some nla)
        ∧ state a = Accepted ∧ accepted = accepted_connection a.
Proof.
  intros Hnet Hb Hl. pose proof (handle_connection_ok slot m cleartext Hnet Hb Hl) as Hok.
  destruct (is_blocked m peer_ip (clock n 0)) as [m' blocked].
  destruct (handle_connection slot (start m cleartext)) as [w v]. destruct Hok as [Hc Hv].
  split; [by intros ->|]. split; [destruct v; naive_solver|].
  split; [intros ->; apply Hv|]. split; [exact Hc|].
  intros a accepted ->. destruct Hv as (_ & Hauth & Hs & Ha).
  destruct Hc; try done. by exists nla, c.
Qed.

(** What the limiter was told by a connection. *)
Definition told (l : list decision) : list (Z * AuthLimit.event (IpAddr := IpAddr)) :=
  (clock n 0, Query peer_ip) ::
  (l ≫= λ d, match d with
             | RecordedFailure now => [(now, Failure peer_ip)]
             | RecordedSuccess => [(clock n 1, Success peer_ip)]
             | _ => []
             end).

Lemma told_limiter slot m cleartext : net_ok → bytes_ok cleartext → len cleartext < 2 ^ 63 →
  let '(w, v) := handle_connection slot (start m cleartext) in
  limiter w = run_events iter m (told (log w)).
Proof.
  intros Hnet Hb Hl. pose proof (handle_connection_ok slot m cleartext Hnet Hb Hl) as Hok.
  destruct (is_blocked m peer_ip (clock n 0)) as [m' blocked] eqn:Eb.
  destruct (handle_connection slot (start m cleartext)) as [w v]. destruct Hok as [Hc _].
  unfold told. cbn [run_events AuthLimit.step]. rewrite Eb. cbn [fst].
  by destruct Hc as [[]| |[]|[] c|[] c].
Qed.
End handshake.

(** ** Connections one after the other *)

Section attempts.
Context `{!ConstantTimeEq, Hsspi : !Sspi}.
Context {IpAddr : Type} `{Hcount : Countable IpAddr}.
Context (iter : gmap IpAddr FailureState → list (IpAddr * FailureState)) (params : HandshakeParams).

Record attempt := { at_net : net; at_ip : IpAddr; at_cleartext : bytes; at_slot : bool }.

Definition attempt_ok (t : attempt) : Prop :=
  net_ok (at_net t) ∧ bytes_ok (at_cleartext t) ∧ len (at_cleartext t) < 2 ^ 63.

Definition serve (m : gmap IpAddr FailureState) (t : attempt) :=
  handle_connection iter (at_net t) (at_ip t) params (at_slot t) (start m (at_cleartext t)).

Fixpoint serve_all (m : gmap IpAddr FailureState) (ts : list attempt) : gmap IpAddr FailureState :=
  match ts with [] => m | t :: ts => serve_all (limiter (serve m t).1) ts end.
Fixpoint history (m : gmap IpAddr FailureState) (ts : list attempt) : list (Z * AuthLimit.event) :=
  match ts with
  | [] => []
  | t :: ts => told (at_net t) (at_ip t) (log (serve m t).1) ++ history (limiter (serve m t).1) ts
  end.

Lemma limiter_run_app m es es' : run_events iter m (es ++ es') = run_events iter (run_events iter m es) es'.
Proof. revert m. induction es as [|[now e] es IH]; intros m; [done|]. apply IH. Qed.

Lemma serve_all_history ts m : Forall attempt_ok ts → serve_all m ts = run_events iter m (history m ts).
Proof.
  intros Hts. revert m. induction Hts as [|t ts (Hn & Hb & Hl) _ IH]; intros m; [done|].
  cbn [serve_all history]. rewrite limiter_run_app, IH. f_equal.
  pose proof (told_limiter iter (at_net t) (at_ip t) params (at_slot t) m (at_cleartext t) Hn Hb Hl) as E.
  unfold serve. destruct (handle_connection _ _ _ _ _ _) as [w v]. exact E.
Qed.

(** Guessing is locked out, end to end.  When five connections from one address, among any others
    and whatever each of them sends, have failed within a minute (a failed proof, credentials turned
    down, or a handshake that ran out of time), and none of that address was let in, then any
    connection from it until at least five minutes after that minute began is refused before a byte
    of it is read, as long as the limiter's table has not filled up. *)
Theorem guesses_lock_out (iter_perm : ∀ m, iter m ≡ₚ map_to_list m) (ip : IpAddr) (m : gmap IpAddr FailureState) (ts : list attempt) (t : attempt) t0 t1 :
  Forall attempt_ok ts → m !! ip = None → times_ok t0 (history m ts) t1 → t1 ≤ t0 + WINDOW →
  (size m + length (history m ts) < MAX_TRACKED)%nat → Forall (λ e, e.2 ≠ Success ip) (history m ts) →
  MAX_FAILURES ≤ failures ip 0 (history m ts) →
  at_ip t = ip → t1 ≤ clock (at_net t) 0 < t0 + LOCKOUT →
  let '(w, v) := serve (serve_all m ts) t in v = Refused ∧ input w = at_cleartext t ∧ log w = [].
Proof.
  intros Hts Hm Ht Hw Hs Hsucc Hf <- Hnow.
  pose proof (auth_lockout iter iter_perm (at_ip t) m (history m ts) t0 t1 _ Hm Ht Hw Hs Hsucc Hf Hnow) as Hb.
  rewrite <-serve_all_history in Hb by done. unfold serve, handle_connection. cbn [ticks start limiter].
  destruct (is_blocked _ _ _) as [m' blocked]. cbn in Hb. by subst blocked.
Qed.
End attempts.

(** ** Concrete connections *)

#[local] Existing Instance plain_eq.

(** An exchange of one message of one byte, which proves the account [user] when it is right. *)
#[local] Instance one_byte_sspi : Sspi := {
  Username := rstring; username_parts u := DownLevelLogonName u None; account_name u := u;
  parse_username := Some; TsRequest := Z; read_length _ := LengthIs 1; from_buffer := head;
  encode_ts_request r := Some [r]; CredSspServer := unit; server_new _ _ := Some tt;
  process p s r := (s, if r =? 1 then Finished (auth_data_by_user p (lit "user")) else ProcessError) }.

Definition sample_inputs : list bytes :=
  omap (λ c, match c with CallStep input => Some input | _ => None end)
    (honest_calls sample_client [c_domain_pdus sample_client] sample_activation).
Definition sample_net (proof : Z) (t0 : Z) : net :=
  {| hangs_up := false; tls_accept := Some (Some (proof :: concat (tail sample_inputs)));
     write_ends _ := Some true; clock k := t0 + Z.of_nat k |}.
Definition sample_params : HandshakeParams :=
  {| desktop := (1280, 720); hp_require_nla := true; tls_public_key := [1];
     nla_credentials := Some {| username := lit "user"; password := lit "secret"; domain := None |};
     credential_validator := None |}.
Definition is_steady (v : verdict) : bool := match v with Steady _ _ => true | _ => false end.
Definition sample_attempt (proof t0 : Z) : attempt (IpAddr := Z) :=
  {| at_net := sample_net proof t0; at_ip := 7; at_cleartext := default [] (head sample_inputs); at_slot := true |}.
Definition sample_serve := serve (IpAddr := Z) map_to_list sample_params.

Lemma sample_attempt_ok proof t0 : byte_ok proof → attempt_ok (sample_attempt proof t0).
Proof.
  intros Hp. split; [|split; [apply (bool_decide_unpack _); vm_compute; exact I|by vm_compute]].
  unfold net_ok. cbn [sample_attempt at_net sample_net tls_accept]. split.
  - constructor; [exact Hp|]. apply (bool_decide_unpack _). vm_compute. exact I.
  - rewrite len_cons. by vm_compute.
Qed.

Lemma one_ok : byte_ok 1.
Proof. by vm_compute. Qed.

Lemma connection_admits_witness :
  let r := sample_serve ∅ (sample_attempt 1 0) in
  is_steady r.2 = true ∧ ∃ nla c, log r.1 = proved nla ++ [ReceivedClientInfo c; RecordedSuccess]
    ∧ authorized sample_params nla c = true ∧ is_Some nla.
Proof.
  assert (is_steady (sample_serve ∅ (sample_attempt 1 0)).2 = true) as Hv by (vm_compute; reflexivity).
  split; [exact Hv|].
  pose proof (sample_attempt_ok 1 0 one_ok) as Hok.
  pose proof (connection_admits map_to_list (sample_net 1 0) 7 sample_params true ∅ (default [] (head sample_inputs))
    (proj1 Hok) (proj1 (proj2 Hok)) (proj2 (proj2 Hok))) as H.
  clear Hok. revert H Hv. unfold sample_serve, serve. cbn [sample_attempt at_net at_ip at_cleartext at_slot].
  generalize (handle_connection map_to_list (sample_net 1 0) 7 sample_params true (start ∅ (default [] (head sample_inputs)))).
  generalize (is_blocked (∅ : gmap Z FailureState) 7 (clock (sample_net 1 0) 0)).
  intros [m' blocked] [w v] (_ & _ & _ & _ & H) Hv. cbn [fst snd] in *. destruct v as [| | | | | |a accepted]; try discriminate Hv.
  destruct (H a accepted eq_refl) as (nla & c & Hlog & Hc & Hnla & _). exists nla, c.
  split; [exact Hlog|]. split; [exact Hc|]. exact (Hnla eq_refl).
Defined.

Lemma guesses_lock_out_witness :
  let guesses := sample_attempt 2 <$> [0; 10; 20; 30; 40] in
  let '(w, v) := sample_serve (serve_all map_to_list sample_params ∅ guesses) (sample_attempt 1 (200 * 10 ^ 9)) in
  v = Refused ∧ input w = default [] (head sample_inputs) ∧ log w = [].
Proof.
  apply (guesses_lock_out map_to_list sample_params (λ m, Permutation_refl _) 7 ∅ (sample_attempt 2 <$> [0; 10; 20; 30; 40])
    (sample_attempt 1 (200 * 10 ^ 9)) 0 50).
  - apply Forall_fmap, Forall_forall. intros t0 _. apply sample_attempt_ok. by vm_compute.
  - reflexivity.
  - vm_compute. repeat split; congruence.
  - by vm_compute.
  - apply Nat.ltb_lt. vm_compute. reflexivity.
  - vm_compute. repeat constructor; discriminate.
  - by vm_compute.
  - reflexivity.
  - by vm_compute.
Defined.
