(* ===== verification/Capture.v ===== *)
(** [kmsrdp/src/capture]: the frames of the capture side ([types.rs]), their comparison with the
    frame before ([pixel_diff.rs]), and the composition of several heads into one desktop
    ([drm_capturer.rs]).  Where the pixels come from (DRM, NvFBC) is left out. *)
From S2P Require Import Prelude Diff Display.

(** ** Frames *)

Record MonitorGeom := { mon_left : Z; mon_top : Z; mon_right : Z; mon_bottom : Z; mon_primary : bool }.

Record RawFrame := {
  raw_width : Z; raw_height : Z; raw_stride : Z; raw_data : bytes; force_full : bool;
  raw_monitors : list MonitorGeom; raw_unchanged : bool; raw_dirty_rects : option (list Rect) }.

Record CaptureCompare := { cmp_width : Z; cmp_height : Z; cmp_stride : Z; cmp_data : bytes }.

Definition take_pixels (src : bytes) (src_stride width height : Z) (force_full : bool)
    (prev : option CaptureCompare) : outcome (bytes * bool * option (list Rect)) :=
  let whole := Ok (src, false, None) in
  if force_full then whole
  else match prev with
  | Some prev =>
    if (cmp_width prev =? width) && (cmp_height prev =? height) then
      dirty ← find_dirty_rects (cmp_data prev) (cmp_stride prev) src src_stride width height 4;
      Ok (if bool_decide (dirty = []) then ([], true, Some []) else (src, false, Some dirty))
    else whole
  | None => whole
  end.

Definition check_nvfbc_frame_len (width height len : Z) : Z + Z :=
  let stride := width * 4 in
  let expected_len := saturating_mul stride height in
  if len =? expected_len then inl stride else inr expected_len.

(** ** What a frame says of the desktop *)

(** The whole of a buffer as an update. *)
Definition whole_frame (w h stride : Z) (data : bytes) : BitmapUpdate :=
  {| bm_x := 0; bm_y := 0; bm_width := w; bm_height := h; format := BgrX32; bm_data := data;
     bm_stride := stride; src_x := 0; src_y := 0 |}.

(** A buffer that holds a desktop of [w]x[h]. *)
Definition image_ok (w h stride : Z) (data : bytes) : Prop := full_frame w h (whole_frame w h stride data).

Lemma image_ok_intro w h stride data :
  0 < w < 2 ^ 16 → 0 < h < 2 ^ 16 → w * 4 ≤ stride < 2 ^ 40 → (h - 1) * stride + w * 4 ≤ len data < 2 ^ 63 →
  image_ok w h stride data.
Proof. by split. Qed.

(** The frame [prev] and the desktop [u] differ in pixels of the rectangles only. *)
Definition differ_within (f u : BitmapUpdate) (rects : list Rect) : Prop :=
  ∀ px py c, in_update u px py → 0 ≤ c < 4 → ¬ (∃ q, q ∈ rects ∧ in_rect q px py) →
    pixel_byte f px py c = pixel_byte u px py c.

(** What the capture side promises of a frame, when the desktop is [image] and the frame before it
    was [prev]: it holds the desktop, unless it says that the desktop has not changed; and the
    rectangles it names, if any, contain every change. *)
Record honest (prev : option BitmapUpdate) (image : BitmapUpdate) (r : RawFrame) : Prop := {
  honest_image : full_frame (raw_width r) (raw_height r) image;
  honest_data : raw_unchanged r = false → image = whole_frame (raw_width r) (raw_height r) (raw_stride r) (raw_data r);
  honest_unchanged : raw_unchanged r = true →
    ∃ f, prev = Some f ∧ bm_width f = raw_width r ∧ bm_height f = raw_height r ∧ differ_within f image [];
  honest_rects rects : raw_unchanged r = false → raw_dirty_rects r = Some rects →
    ∃ f, prev = Some f ∧ bm_width f = raw_width r ∧ bm_height f = raw_height r
      ∧ Forall (rect_in (raw_width r) (raw_height r)) rects ∧ len rects ≤ raw_width r * raw_height r
      ∧ differ_within f image rects }.

Definition compare_of (f : BitmapUpdate) : CaptureCompare :=
  {| cmp_width := bm_width f; cmp_height := bm_height f; cmp_stride := bm_stride f; cmp_data := bm_data f |}.

(** Disjoint rectangles of a frame are no more than its pixels. *)
Lemma disjoint_rects_few w h rects :
  0 ≤ w → 0 ≤ h → Forall (rect_in w h) rects →
  ForallOrdPairs (λ q1 q2, ∀ px py, ¬ (in_rect q1 px py ∧ in_rect q2 px py)) rects → len rects ≤ w * h.
Proof.
  intros Hw Hh Hin Hdis. set (corner q := rect_y q * w + rect_x q).
  assert (∀ q, q ∈ rects → 0 ≤ corner q < w * h) as Hrange.
  { intros q Hq. rewrite Forall_forall in Hin. destruct (Hin q Hq) as (? & ? & ? & ? & ? & ?). unfold corner. nia. }
  assert (NoDup (corner <$> rects)) as Hnd.
  { clear Hrange. induction Hdis as [|q rects Hq _ IH]; [constructor|]. inversion Hin as [|? ? Hq0 Hin']; subst.
    cbn. constructor; [|by apply IH]. intros (q' & E & Hq')%list_elem_of_fmap. rewrite Forall_forall in Hq, Hin'.
    destruct Hq0 as (? & ? & ? & ? & ? & ?), (Hin' q' Hq') as (? & ? & ? & ? & ? & ?). unfold corner in E.
    assert (rect_y q = rect_y q') as Ey by nia. rewrite Ey in E.
    apply (Hq q' Hq' (rect_x q) (rect_y q)). unfold in_rect. lia. }
  assert (corner <$> rects ⊆+ seqZ 0 (w * h)) as Hsub.
  { apply NoDup_submseteq; [done|]. intros k (q & -> & Hq)%list_elem_of_fmap. apply elem_of_seqZ.
    specialize (Hrange q Hq). lia. }
  apply submseteq_length in Hsub. rewrite length_fmap, length_seqZ in Hsub.
  unfold len. nia.
Qed.

Lemma dirty_rects_cover w h f u : full_frame w h f → full_frame w h u →
  ∃ rects, find_dirty_rects (bm_data f) (bm_stride f) (bm_data u) (bm_stride u) w h 4 = Ok rects
    ∧ Forall (rect_in w h) rects ∧ len rects ≤ w * h ∧ differ_within f u rects.
Proof.
  intros Hf Hu. pose proof (full_frame_sizes _ _ _ _ Hf Hu) as Hs.
  destruct (find_dirty_rects_tiles (bm_data f) (bm_stride f) (bm_data u) (bm_stride u) w h 4 Hs)
    as (rects & E & Hin & Hcov & Hdis).
  assert (Forall (rect_in w h) rects) as Hr.
  { eapply Forall_impl; [exact Hin|]. unfold rect_in. intros q Hq. cbn beta in Hq. tauto. }
  exists rects. split; [done|]. split; [done|]. split; [by apply disjoint_rects_few; destruct Hf; try lia|]. intros px py c Hp Hc Hno. apply (full_in_update w h) in Hp as [Hpx Hpy]; [|done].
    rewrite (full_pixel w h f), (full_pixel w h u) by done.
    apply (tile_same_bytes _ _ _ _ w h 4 px py); [done..|lia|].
    rewrite (Hcov px py Hpx Hpy) in Hno. by apply not_true_is_false.
Qed.

(** Comparing before copying keeps the promise. *)
Lemma take_pixels_honest w h stride src force prev monitors :
  image_ok w h stride src → (∀ f, prev = Some f → full_frame (bm_width f) (bm_height f) f) →
  ∃ data unchanged dirty, take_pixels src stride w h force (compare_of <$> prev) = Ok (data, unchanged, dirty)
  ∧ honest prev (whole_frame w h stride src)
      {| raw_width := w; raw_height := h; raw_stride := stride; raw_data := data; force_full := force;
         raw_monitors := monitors; raw_unchanged := unchanged; raw_dirty_rects := dirty |}.
Proof.
  intros Hi Hprev. unfold take_pixels. set (u := whole_frame w h stride src) in *.
  assert (honest prev u {| raw_width := w; raw_height := h; raw_stride := stride; raw_data := src; force_full := force;
    raw_monitors := monitors; raw_unchanged := false; raw_dirty_rects := None |}) as Hwhole by (by split).
  destruct force; [by eexists _, _, _|].
  destruct prev as [f|]; [|by eexists _, _, _].
  cbn [fmap option_fmap option_map compare_of cmp_width cmp_height cmp_data cmp_stride].
  destruct (_ && _) eqn:E; [|by eexists _, _, _].
  apply andb_true_iff in E as [Ew%Z.eqb_eq Eh%Z.eqb_eq]. pose proof (Hprev f eq_refl) as Hf. rewrite Ew, Eh in Hf.
  destruct (dirty_rects_cover w h f u Hf Hi) as (rects & Er & Hin & Hfew & Hd). cbn [u whole_frame bm_data bm_stride] in Er.
  rewrite Er. cbn [mbind res_bind]. case_bool_decide as Hr; (eexists _, _, _; split; [done|]); split; try done.
  - intros _. exists f. by subst rects.
  - intros rects' _ [= <-]. by exists f.
Qed.
