(* ===== verification/DrmCapture.v ===== *)
(** [kmsrdp/src/capture/drm_capturer.rs] and [blit_bgrx] of [pixel_diff.rs]: several heads captured
    one after the other and composed into one desktop, the framebuffer of each remembered, and a
    failed capture retried on a fresh list of heads.  The DRM calls (which heads there are, and
    what a plane shows) are arguments. *)
From S2P Require Import Prelude Diff Display Capture.
From Stdlib Require Import String.
Local Open Scope Z_scope.

(** Checked arithmetic of [i32] and [usize]. *)
Definition i32 (z : Z) : outcome Z := if decide (- 2 ^ 31 ≤ z < 2 ^ 31) then Ok z else Panic.
Definition usize (z : Z) : outcome Z := if decide (0 ≤ z ≤ USIZE_MAX) then Ok z else Panic.

Section blit.
Context (dst_stride dst_w dst_h : Z) (src : bytes) (src_stride src_w src_h dst_x dst_y : Z).

(** One row of the copy. *)
Definition blit_row (row : Z) (dst : bytes) : outcome bytes :=
  dy ← i32 (dst_y + row);
  if (dy <? 0) || (dst_h <=? dy) then Ok dst
  else
    '(src_col0, dst_col0, copy_w) ←
      (if dst_x <? 0 then
         src_col0 ← i32 (- dst_x);
         copy_w ← i32 (src_w + dst_x);
         Ok (src_col0, 0, copy_w)
       else Ok (0, dst_x, src_w));
    right ← i32 (dst_col0 + copy_w);
    copy_w ← (if dst_w <? right then i32 (dst_w - dst_col0) else Ok copy_w);
    if (copy_w <=? 0) || (src_w <=? src_col0) then Ok dst
    else
      bytes ← usize (copy_w * 4);
      s ← usize (row * src_stride + src_col0 * 4);
      d ← usize (dy * dst_stride + dst_col0 * 4);
      s_end ← usize (s + bytes);
      d_end ← usize (d + bytes);
      Ok (if (s_end <=? len src) && (d_end <=? len dst) then copy_into dst d (ztake bytes (zdrop s src)) else dst).

Definition blit_rows (dst : bytes) : outcome bytes := for_range (Z.to_nat src_h) 0 blit_row dst.
End blit.

Definition blit_bgrx (dst : bytes) (dst_stride dst_w dst_h : Z) (src : bytes)
    (src_stride src_w src_h dst_x dst_y : Z) : outcome bytes :=
  let src_w := as_i32 src_w in
  let src_h := as_i32 src_h in
  let dst_w := as_i32 dst_w in
  let dst_h := as_i32 dst_h in
  let total_bytes := saturating_mul (as_u64 src_h) src_stride in
  if (dst_x =? 0) && (dst_y =? 0) && (src_w =? dst_w) && (src_h =? dst_h) && (src_stride =? dst_stride)
     && (total_bytes <=? len src) && (total_bytes <=? len dst)
  then Ok (copy_into dst 0 (ztake total_bytes src))
  else blit_rows dst_stride dst_w dst_h src src_stride src_w src_h dst_x dst_y dst.

(** ** Heads *)

Record EnumeratedHead := { card_idx : Z; crtc : Z; connector : string; at_x : Z; at_y : Z }.
Record HeadFbState := { fb_connector : string; last_fb : option Z }.

Record CapturedHead := {
  head_x : Z; head_y : Z; head_width : Z; head_height : Z; head_stride : Z; head_data : bytes;
  head_force_full : bool; head_unchanged : bool; head_dirty_rects : option (list Rect); head_connector : string }.

Definition HEAD_REFRESH_INTERVAL : Z := 250.

(** Instants are milliseconds of a monotonic clock. *)
Definition should_refresh_heads (last : option Z) (now : Z) (cached_empty force : bool) : bool :=
  force || cached_empty
  || match last with None => true | Some t => HEAD_REFRESH_INTERVAL <=? saturating_sub now t end.

Definition list_min (l : list Z) : Z := match l with [] => 0 | x :: l => foldl Z.min x l end.
Definition list_max (l : list Z) : Z := match l with [] => 0 | x :: l => foldl Z.max x l end.

(** [iter().map(f).collect()] where [f] can panic. *)
Fixpoint try_map {A B} (f : A → outcome B) (l : list A) : outcome (list B) :=
  match l with [] => Ok [] | x :: l => y ← f x; ys ← try_map f l; Ok (y :: ys) end.

Definition key_lt (a b : Z * string) : bool :=
  (a.1 <? b.1) || ((a.1 =? b.1) && String.ltb a.2 b.2).

Definition head_key (h : CapturedHead) : outcome (Z * string) :=
  xx ← i32 (head_x h * head_x h); yy ← i32 (head_y h * head_y h); d ← i32 (xx + yy); Ok (d, head_connector h).

(** [min_by_key], which keeps the first of equal keys. *)
Definition primary_of (keys : list (Z * string)) : Z :=
  match keys with
  | [] => 0
  | k :: keys =>
    (foldl (λ '(i, best, besti) k, if key_lt k best then (i + 1, k, i) else (i + 1, best, besti)) (1, k, 0) keys).2
  end.

(** The loop that paints the heads on the canvas. *)
Fixpoint paint_heads (heads : list CapturedHead) (i primary_idx min_x min_y stride canvas_w canvas_h : Z)
    (canvas : bytes) (monitors : list MonitorGeom) : outcome (bytes * list MonitorGeom) :=
  match heads with
  | [] => Ok (canvas, monitors)
  | head :: heads =>
    dx ← i32 (head_x head - min_x);
    dy ← i32 (head_y head - min_y);
    canvas ← blit_bgrx canvas stride canvas_w canvas_h (head_data head) (head_stride head)
               (head_width head) (head_height head) dx dy;
    right ← i32 (dx + as_i32 (head_width head)); right ← i32 (right - 1);
    bottom ← i32 (dy + as_i32 (head_height head)); bottom ← i32 (bottom - 1);
    paint_heads heads (i + 1) primary_idx min_x min_y stride canvas_w canvas_h canvas
      (monitors ++ [{| mon_left := dx; mon_top := dy; mon_right := right; mon_bottom := bottom;
                       mon_primary := i =? primary_idx |}])
  end.

Definition compose_heads (heads : list CapturedHead) (prev : option CaptureCompare) : outcome RawFrame :=
  let min_x := list_min (head_x <$> heads) in
  let min_y := list_min (head_y <$> heads) in
  rights ← try_map (λ h, i32 (head_x h + as_i32 (head_width h))) heads;
  bottoms ← try_map (λ h, i32 (head_y h + as_i32 (head_height h))) heads;
  w ← i32 (list_max rights - min_x);
  h ← i32 (list_max bottoms - min_y);
  let canvas_w := as_u32 (Z.max w 1) in
  let canvas_h := as_u32 (Z.max h 1) in
  stride ← usize (canvas_w * 4);
  size ← usize (stride * canvas_h);
  let force := existsb head_force_full heads in
  keys ← try_map head_key heads;
  '(canvas, monitors) ←
    paint_heads heads 0 (primary_of keys) min_x min_y stride canvas_w canvas_h (replicate (Z.to_nat size) 0) [];
  '(data, unchanged, dirty_rects) ← take_pixels canvas stride canvas_w canvas_h force prev;
  Ok {| raw_width := canvas_w; raw_height := canvas_h; raw_stride := stride; raw_data := data; force_full := force;
        raw_monitors := monitors; raw_unchanged := unchanged; raw_dirty_rects := dirty_rects |}.

(** ** The capturer *)

(** What DRM finds on the primary plane of a head: the framebuffer, and its pixels (width, height,
    stride, bytes), unless it cannot be read or its format is not supported. *)
Record Grab := { grab_fb : Z; grab_pixels : option (Z * Z * Z * bytes) }.

Record DrmCapturer := {
  head_fb : list HeadFbState; cached_heads : list EnumeratedHead; last_head_refresh : option Z }.

Definition find_fb (connector : string) (fbs : list HeadFbState) : option Z :=
  match List.find (λ s, String.eqb (fb_connector s) connector) fbs with Some s => last_fb s | None => None end.

(** The first entry of this name remembers the framebuffer. *)
Fixpoint set_fb (connector : string) (fb : Z) (fbs : list HeadFbState) : list HeadFbState :=
  match fbs with
  | [] => []
  | s :: fbs => if String.eqb (fb_connector s) connector then {| fb_connector := fb_connector s; last_fb := Some fb |} :: fbs
                else s :: set_fb connector fb fbs
  end.

Definition sync_head_fb (fbs : list HeadFbState) (heads : list EnumeratedHead) : list HeadFbState :=
  foldl (λ fbs h, if existsb (λ s, String.eqb (fb_connector s) (connector h)) fbs then fbs
                  else fbs ++ [{| fb_connector := connector h; last_fb := None |}])
    (filter (λ s, existsb (λ h, String.eqb (connector h) (fb_connector s)) heads = true) fbs) heads.

Section capturer.
(** The calls into DRM, successive ones with a counter. *)
Context (refresh_heads : nat → option (list EnumeratedHead)) (grab : nat → EnumeratedHead → option Grab).

Definition capture_head (tick : nat) (fbs : list HeadFbState) (head : EnumeratedHead) (hint : option CaptureCompare)
  : outcome (list HeadFbState * option CapturedHead) :=
  match grab tick head with
  | None => Ok (fbs, None)
  | Some g =>
    let force := match find_fb (connector head) fbs with Some p => negb (p =? grab_fb g) | None => false end in
    let fbs := set_fb (connector head) (grab_fb g) fbs in
    match grab_pixels g with
    | None => Ok (fbs, None)
    | Some (width, height, stride, src) =>
      '(data, unchanged, dirty_rects) ← take_pixels src stride width height force hint;
      Ok (fbs, Some {| head_x := at_x head; head_y := at_y head; head_width := width; head_height := height;
                       head_stride := stride; head_data := data; head_force_full := force;
                       head_unchanged := unchanged; head_dirty_rects := dirty_rects;
                       head_connector := connector head |})
    end
  end.

Fixpoint capture_each (tick : nat) (fbs : list HeadFbState) (heads : list EnumeratedHead) (hint : option CaptureCompare)
  : outcome (list HeadFbState * option (list CapturedHead)) :=
  match heads with
  | [] => Ok (fbs, Some [])
  | head :: heads =>
    '(fbs, c) ← capture_head tick fbs head hint;
    match c with
    | None => Ok (fbs, None)
    | Some c => '(fbs, cs) ← capture_each tick fbs heads hint; Ok (fbs, option_map (cons c) cs)
    end
  end.

Definition capture_heads (tick : nat) (fbs : list HeadFbState) (heads : list EnumeratedHead) (prev : option CaptureCompare)
  : outcome (list HeadFbState * option RawFrame) :=
  let hint := match heads with [_] => prev | _ => None end in
  '(fbs, captured) ← capture_each tick fbs heads hint;
  match captured with
  | None => Ok (fbs, None)
  | Some [c] =>
    Ok (fbs, Some {| raw_width := head_width c; raw_height := head_height c; raw_stride := head_stride c;
                     raw_data := head_data c; force_full := head_force_full c; raw_unchanged := head_unchanged c;
                     raw_dirty_rects := head_dirty_rects c;
                     raw_monitors := [{| mon_left := 0; mon_top := 0;
                                         mon_right := as_i32 (saturating_sub (head_width c) 1);
                                         mon_bottom := as_i32 (saturating_sub (head_height c) 1); mon_primary := true |}] |})
  | Some cs => r ← compose_heads cs prev; Ok (fbs, Some r)
  end.

Definition heads_for_tick (tick : nat) (d : DrmCapturer) (now : Z) (force : bool)
  : DrmCapturer * option (list EnumeratedHead) :=
  let cached_empty := match cached_heads d with [] => true | _ => false end in
  if negb (should_refresh_heads (last_head_refresh d) now cached_empty force) then (d, Some (cached_heads d))
  else
    match refresh_heads tick with
    | Some heads => ({| head_fb := sync_head_fb (head_fb d) heads; cached_heads := heads; last_head_refresh := Some now |},
                     Some heads)
    | None => (d, if negb force && negb cached_empty then Some (cached_heads d) else None)
    end.

Definition with_fbs (d : DrmCapturer) (fbs : list HeadFbState) : DrmCapturer :=
  {| head_fb := fbs; cached_heads := cached_heads d; last_head_refresh := last_head_refresh d |}.

Definition attempt_heads (tick : nat) (d : DrmCapturer) (heads : list EnumeratedHead) (prev : option CaptureCompare)
  : outcome (DrmCapturer * option RawFrame) :=
  '(fbs, r) ← capture_heads tick (head_fb d) heads prev; Ok (with_fbs d fbs, r).

(** [capture], at the instants [now] and, for the retry, [later]. *)
Definition drm_capture (tick : nat) (d : DrmCapturer) (now later : Z) (prev : option CaptureCompare)
  : outcome (DrmCapturer * option RawFrame) :=
  let '(d, heads) := heads_for_tick tick d now false in
  match heads with
  | None => Ok (d, None)
  | Some heads =>
    '(d, r) ← attempt_heads tick d heads prev;
    match r with
    | Some frame => Ok (d, Some frame)
    | None =>
      let '(d, heads) := heads_for_tick (S tick) d later true in
      match heads with
      | Some heads => attempt_heads (S tick) d heads prev
      | None => Ok (d, None)
      end
    end
  end.
End capturer.

(** ** Copying a head *)

Lemma rows_apart t W : 0 < W → t = 0 ∨ t * W ≤ - W ∨ W ≤ t * W.
Proof. intros. destruct (Z.lt_trichotomy t 0) as [?|[?|?]]; [right; left; nia|by left|right; right; nia]. Qed.

Section blit_proofs.
Context (W H : Z) (src : bytes) (stride w h dx dy : Z).
Context (HW : 0 < W < 2 ^ 16) (HH : 0 < H < 2 ^ 16) (Hsrc : image_ok w h stride src).
Context (Hdx : 0 ≤ dx ∧ dx + w ≤ W) (Hdy : 0 ≤ dy ∧ dy + h ≤ H).

Definition in_head (px py : Z) : Prop := dx ≤ px < dx + w ∧ dy ≤ py < dy + h.
Local Instance in_head_dec px py : Decision (in_head px py).
Proof. unfold in_head. apply _. Defined.

Lemma i32_ok z : - 2 ^ 31 ≤ z < 2 ^ 31 → i32 z = Ok z.
Proof. intros Hz. unfold i32. by rewrite decide_True. Qed.
Lemma usize_ok z : 0 ≤ z ≤ USIZE_MAX → usize z = Ok z.
Proof. intros Hz. unfold usize. by rewrite decide_True. Qed.

Lemma head_sizes : 0 < w < 2 ^ 16 ∧ 0 < h < 2 ^ 16 ∧ w * 4 ≤ stride < 2 ^ 40 ∧ (h - 1) * stride + w * 4 ≤ len src.
Proof. destruct Hsrc as [_ _ _ _ _ _ ? ? ? ?]. cbn in *. lia. Qed.

Lemma blit_row_spec row dst : 0 ≤ row < h → len dst = W * 4 * H →
  ∃ dst', blit_row (W * 4) W H src stride w dx dy row dst = Ok dst' ∧ len dst' = W * 4 * H
  ∧ ∀ px py c, 0 ≤ px < W → 0 ≤ py < H → 0 ≤ c < 4 →
      byte_at (W * 4) dst' px py c
      = if decide (dx ≤ px < dx + w ∧ py = dy + row) then byte_at stride src (px - dx) row c else byte_at (W * 4) dst px py c.
Proof.
  intros Hrow Hdst. pose proof head_sizes as (Hw & Hh & Hst & Hlen).
  assert (0 ≤ row * stride ≤ (h - 1) * stride) as Hs by nia.
  assert ((h - 1) * stride ≤ 2 ^ 16 * 2 ^ 40) as Hs' by nia.
  assert (0 ≤ (dy + row) * (W * 4) ∧ (dy + row) * (W * 4) + W * 4 ≤ W * 4 * H) as Hd by nia.
  assert (W * 4 * H ≤ 2 ^ 34) as Hd' by nia.
  set (d := (dy + row) * (W * 4) + dx * 4). set (s := row * stride + 0 * 4).
  exists (copy_into dst d (ztake (w * 4) (zdrop s src))).
  assert (len (ztake (w * 4) (zdrop s src)) = w * 4) as Hc.
  { rewrite len_ztake; [done|]. rewrite len_zdrop; unfold s; lia. }
  split; [|split; [by rewrite len_copy_into|]].
  - unfold blit_row. rewrite (i32_ok (dy + row)) by lia. cbn [mbind res_bind].
    rewrite (proj2 (Z.ltb_ge (dy + row) 0)), (proj2 (Z.leb_gt H _)), (proj2 (Z.ltb_ge dx 0)) by lia. cbn [orb mbind res_bind].
    rewrite (i32_ok (dx + w)) by lia. cbn [mbind res_bind]. rewrite (proj2 (Z.ltb_ge W _)) by lia. cbn [mbind res_bind].
    rewrite !(proj2 (Z.leb_gt _ _)) by lia. cbn [orb]. fold d s. unfold USIZE_MAX in *.
    rewrite (usize_ok (w * 4)) by (unfold USIZE_MAX; lia). cbn [mbind res_bind].
    rewrite (usize_ok s) by (unfold s, USIZE_MAX; lia). cbn [mbind res_bind].
    rewrite (usize_ok d) by (unfold d, USIZE_MAX; lia). cbn [mbind res_bind].
    rewrite (usize_ok (s + w * 4)) by (unfold s, USIZE_MAX; lia). cbn [mbind res_bind].
    rewrite (usize_ok (d + w * 4)) by (unfold d, USIZE_MAX; lia). cbn [mbind res_bind].
    by rewrite !(proj2 (Z.leb_le _ _)) by (unfold d, s; lia).
  - intros px py c Hpx Hpy Hcc. unfold byte_at.
    assert (0 ≤ py * (W * 4)) as Hpos by nia. rewrite copy_into_lookup; [|unfold d; lia|unfold d; lia|lia]. rewrite Hc.
    assert (d ≤ py * (W * 4) + (px * 4 + c) < d + w * 4 ↔ dx ≤ px < dx + w ∧ py = dy + row) as Hiff.
    { unfold d. split; [|intros [? ->]; lia]. intros Hr.
      destruct (rows_apart (py - (dy + row)) (W * 4) ltac:(lia)) as [E|Hap]; [split; [|lia]|rewrite Z.mul_sub_distr_r in Hap; lia].
      assert (py = dy + row) as -> by lia. lia. }
    rewrite (decide_ext _ _ _ _ Hiff). case_decide as Hin; [|done]. destruct Hin as [Hx ->].
    unfold ztake, zdrop. rewrite lookup_take_lt, lookup_drop by (unfold d; lia). f_equal. unfold d, s. lia.
Qed.

Lemma as_i32_small z : 0 ≤ z < 2 ^ 31 → as_i32 z = z.
Proof. intros Hz. unfold as_i32. rewrite Z.mod_small by lia. lia. Qed.

(** The canvas [dst'] shows the head over what [dst] shows. *)
Definition head_over (dst dst' : bytes) : Prop :=
  ∀ px py c, 0 ≤ px < W → 0 ≤ py < H → 0 ≤ c < 4 →
    byte_at (W * 4) dst' px py c
    = if decide (in_head px py) then byte_at stride src (px - dx) (py - dy) c else byte_at (W * 4) dst px py c.

Lemma blit_rows_spec dst : len dst = W * 4 * H →
  ∃ dst', blit_rows (W * 4) W H src stride w h dx dy dst = Ok dst' ∧ len dst' = W * 4 * H ∧ head_over dst dst'.
Proof.
  intros Hdst. pose proof head_sizes as (Hw & Hh & _).
  destruct (for_range_ind (λ row dst', len dst' = W * 4 * H ∧ ∀ px py c, 0 ≤ px < W → 0 ≤ py < H → 0 ≤ c < 4 →
      byte_at (W * 4) dst' px py c
      = if decide (dx ≤ px < dx + w ∧ dy ≤ py < dy + row) then byte_at stride src (px - dx) (py - dy) c
        else byte_at (W * 4) dst px py c) (Z.to_nat h) 0 (blit_row (W * 4) W H src stride w dx dy) dst) as (dst' & E & Hl & Hp).
  - split; [done|]. intros px py c _ _ _. by rewrite decide_False by lia.
  - intros row d1 Hrow [Hl1 Hp1]. destruct (blit_row_spec row d1) as (d2 & E & Hl2 & Hp2); [lia|done|].
    exists d2. split; [done|]. split; [done|]. intros px py c Hpx Hpy Hc. rewrite Hp2 by done.
    case_decide as Hin; [destruct Hin as [? ->]; rewrite decide_True by lia; f_equal; lia|].
    rewrite Hp1 by done. by apply decide_ext; lia.
  - exists dst'. split; [done|]. split; [done|]. intros px py c Hpx Hpy Hc. rewrite Hp by done.
    apply decide_ext. unfold in_head. rewrite Z2Nat.id by lia. done.
Qed.

Lemma blit_bgrx_spec dst : len dst = W * 4 * H →
  ∃ dst', blit_bgrx dst (W * 4) W H src stride w h dx dy = Ok dst' ∧ len dst' = W * 4 * H ∧ head_over dst dst'.
Proof.
  intros Hdst. pose proof head_sizes as (Hw & Hh & Hst & Hlen). unfold blit_bgrx. rewrite !as_i32_small by lia.
  destruct (_ && _) eqn:E; [|by apply blit_rows_spec].
  rewrite !andb_true_iff, !Z.eqb_eq, !Z.leb_le in E. destruct E as ((((((Ex & Ey) & Ew) & Eh) & Es) & Hts) & Htd).
  assert (saturating_mul (as_u64 h) stride = W * 4 * H) as Et.
  { unfold as_u64. rewrite Z.mod_small by lia. unfold saturating_mul, USIZE_MAX. rewrite Z.min_l; nia. }
  rewrite Et in *. eexists. split; [done|]. split; [by rewrite len_copy_into|]. intros px py c Hpx Hpy Hc.
  rewrite decide_True by (unfold in_head; lia). unfold byte_at.
  assert (0 ≤ py * (W * 4) ∧ py * (W * 4) + W * 4 ≤ W * 4 * H) as Hpos by nia.
  assert (len (ztake (W * 4 * H) src) = W * 4 * H) as Hc' by (rewrite len_ztake; lia).
  rewrite copy_into_lookup by lia. rewrite Hc', decide_True by lia. unfold ztake. rewrite lookup_take_lt by lia.
  f_equal. rewrite Ex, Ey, Es. lia.
Qed.
End blit_proofs.

(** ** The desktop of several heads *)

Section compose_proofs.
Context (min_x min_y W H : Z) (HW : 0 < W < 2 ^ 16) (HH : 0 < H < 2 ^ 16).

(** The head lies on the canvas, and holds its own pixels. *)
Record head_ok (hd : CapturedHead) : Prop := {
  ok_image : image_ok (head_width hd) (head_height hd) (head_stride hd) (head_data hd);
  ok_x : min_x ≤ head_x hd ∧ head_x hd + head_width hd ≤ min_x + W;
  ok_y : min_y ≤ head_y hd ∧ head_y hd + head_height hd ≤ min_y + H }.

Definition on_head (hd : CapturedHead) (px py : Z) : Prop :=
  in_head (head_width hd) (head_height hd) (head_x hd - min_x) (head_y hd - min_y) px py.
Global Instance on_head_dec hd px py : Decision (on_head hd px py).
Proof. unfold on_head, in_head. apply _. Defined.

(** What the canvas is to show: the last head there, or [under]. *)
Fixpoint shown (heads : list CapturedHead) (under : Z → Z → Z → option Z) (px py c : Z) : option Z :=
  match heads with
  | [] => under px py c
  | hd :: heads =>
    shown heads (λ px py c, if decide (on_head hd px py)
                            then byte_at (head_stride hd) (head_data hd) (px - (head_x hd - min_x)) (py - (head_y hd - min_y)) c
                            else under px py c) px py c
  end.

Lemma shown_ext heads under under' px py c :
  under px py c = under' px py c → shown heads under px py c = shown heads under' px py c.
Proof. revert under under'. induction heads as [|hd heads IH]; intros under under' E; cbn; [done|]. apply IH. by rewrite E. Qed.

Lemma paint_heads_spec heads i primary canvas monitors :
  Forall head_ok heads → len canvas = W * 4 * H →
  ∃ canvas' monitors', paint_heads heads i primary min_x min_y (W * 4) W H canvas monitors = Ok (canvas', monitors')
  ∧ len canvas' = W * 4 * H
  ∧ ∀ px py c, 0 ≤ px < W → 0 ≤ py < H → 0 ≤ c < 4 →
      byte_at (W * 4) canvas' px py c = shown heads (byte_at (W * 4) canvas) px py c.
Proof.
  intros Hok. revert i canvas monitors. induction Hok as [|hd heads [Hi Hx Hy] _ IH]; intros i canvas monitors Hl; [by eexists _, _|].
  destruct (head_sizes _ _ _ _ Hi) as (Hw & Hh & _).
  destruct (blit_bgrx_spec W H (head_data hd) (head_stride hd) (head_width hd) (head_height hd) (head_x hd - min_x) (head_y hd - min_y)
    HW HH Hi ltac:(lia) ltac:(lia) canvas Hl) as (c1 & E1 & Hl1 & Hp1).
  cbn [paint_heads]. rewrite !(i32_ok (_ - min_x)), !(i32_ok (_ - min_y)) by lia. cbn [mbind res_bind]. rewrite E1. cbn [mbind res_bind].
  rewrite !as_i32_small by lia. rewrite (i32_ok (head_x hd - min_x + head_width hd)) by lia. cbn [mbind res_bind].
  rewrite (i32_ok (head_x hd - min_x + head_width hd - 1)) by lia. cbn [mbind res_bind].
  rewrite (i32_ok (head_y hd - min_y + head_height hd)) by lia. cbn [mbind res_bind].
  rewrite (i32_ok (head_y hd - min_y + head_height hd - 1)) by lia. cbn [mbind res_bind].
  destruct (IH (i + 1) c1 (monitors ++ [{| mon_left := head_x hd - min_x; mon_top := head_y hd - min_y;
    mon_right := head_x hd - min_x + head_width hd - 1; mon_bottom := head_y hd - min_y + head_height hd - 1;
    mon_primary := i =? primary |}]) Hl1) as (c2 & m2 & E2 & Hl2 & Hp2).
  exists c2, m2. split; [exact E2|]. split; [done|]. intros px py c Hpx Hpy Hc. rewrite Hp2 by done. cbn [shown]. apply shown_ext.
  by rewrite Hp1.
Qed.
End compose_proofs.

Lemma list_min_le l x : x ∈ l → list_min l ≤ x.
Proof.
  assert (∀ l a, foldl Z.min a l ≤ a ∧ ∀ y, y ∈ l → foldl Z.min a l ≤ y) as H.
  { clear. induction l as [|b l IH]; intros a; cbn; [split; [lia|by intros y ?%elem_of_nil]|].
    destruct (IH (Z.min a b)) as [H1 H2]. split; [lia|]. intros y [->|Hy]%elem_of_cons; [lia|by apply H2]. }
  destruct l as [|a l]; [by intros ?%elem_of_nil|]. destruct (H l a) as [H1 H2]. intros [->|Hx]%elem_of_cons; [done|by apply H2].
Qed.

Lemma list_max_ge l x : x ∈ l → x ≤ list_max l.
Proof.
  assert (∀ l a, a ≤ foldl Z.max a l ∧ ∀ y, y ∈ l → y ≤ foldl Z.max a l) as H.
  { clear. induction l as [|b l IH]; intros a; cbn; [split; [lia|by intros y ?%elem_of_nil]|].
    destruct (IH (Z.max a b)) as [H1 H2]. split; [lia|]. intros y [->|Hy]%elem_of_cons; [lia|by apply H2]. }
  destruct l as [|a l]; [by intros ?%elem_of_nil|]. destruct (H l a) as [H1 H2]. intros [->|Hx]%elem_of_cons; [done|by apply H2].
Qed.

Lemma try_map_ok {A B} (f : A → outcome B) (g : A → B) l : Forall (λ x, f x = Ok (g x)) l → try_map f l = Ok (g <$> l).
Proof. induction 1 as [|x l E _ IH]; cbn; [done|]. rewrite E. cbn. by rewrite IH. Qed.

(** The corners of the desktop. *)
Definition left_of (heads : list CapturedHead) : Z := list_min (head_x <$> heads).
Definition top_of (heads : list CapturedHead) : Z := list_min (head_y <$> heads).
Definition width_of (heads : list CapturedHead) : Z := list_max ((λ h, head_x h + head_width h) <$> heads) - left_of heads.
Definition height_of (heads : list CapturedHead) : Z := list_max ((λ h, head_y h + head_height h) <$> heads) - top_of heads.

(** Heads with readable pixels, on a desktop of less than 65536 pixels a side. *)
Record layout_ok (heads : list CapturedHead) : Prop := {
  lay_heads : Forall (λ h, image_ok (head_width h) (head_height h) (head_stride h) (head_data h)
                         ∧ - 2 ^ 15 < head_x h < 2 ^ 15 ∧ - 2 ^ 15 < head_y h < 2 ^ 15) heads;
  lay_size : 0 < width_of heads < 2 ^ 16 ∧ 0 < height_of heads < 2 ^ 16 }.

Lemma layout_heads heads : layout_ok heads → Forall (head_ok (left_of heads) (top_of heads) (width_of heads) (height_of heads)) heads.
Proof.
  intros [Hh _]. rewrite Forall_forall in Hh |- *. intros hd Hin. destruct (Hh hd Hin) as (Hi & _ & _). split; [done|..].
  - pose proof (list_min_le (head_x <$> heads) (head_x hd) ltac:(by apply list_elem_of_fmap_2)).
    pose proof (list_max_ge ((λ h, head_x h + head_width h) <$> heads) _ ltac:(by apply (list_elem_of_fmap_2 _ _ hd))).
    unfold width_of, left_of in *. cbn in *. lia.
  - pose proof (list_min_le (head_y <$> heads) (head_y hd) ltac:(by apply list_elem_of_fmap_2)).
    pose proof (list_max_ge ((λ h, head_y h + head_height h) <$> heads) _ ltac:(by apply (list_elem_of_fmap_2 _ _ hd))).
    unfold height_of, top_of in *. cbn in *. lia.
Qed.

(** The sums that [compose_heads] takes of heads of a desktop do not overflow. *)
Lemma layout_sums heads : layout_ok heads →
  try_map (λ h, i32 (head_x h + as_i32 (head_width h))) heads = Ok ((λ h, head_x h + head_width h) <$> heads)
  ∧ try_map (λ h, i32 (head_y h + as_i32 (head_height h))) heads = Ok ((λ h, head_y h + head_height h) <$> heads)
  ∧ try_map head_key heads = Ok ((λ h, (head_x h * head_x h + head_y h * head_y h, head_connector h)) <$> heads).
Proof.
  intros [Hh _]. split_and!; apply try_map_ok; (eapply Forall_impl; [exact Hh|]); cbn beta; intros hd (Hi & Hx & Hy);
    destruct (head_sizes _ _ _ _ Hi) as (Hw & Hhe & _).
  - rewrite as_i32_small by lia. by rewrite i32_ok by lia.
  - rewrite as_i32_small by lia. by rewrite i32_ok by lia.
  - assert (0 ≤ head_x hd * head_x hd < 2 ^ 30 ∧ 0 ≤ head_y hd * head_y hd < 2 ^ 30) as [? ?] by nia.
    unfold head_key. rewrite (i32_ok (head_x hd * _)) by lia. cbn [mbind res_bind].
    rewrite (i32_ok (head_y hd * _)) by lia. cbn [mbind res_bind]. by rewrite i32_ok by lia.
Qed.

(** The desktop [u] shows the heads. *)
Definition shows_heads (u : BitmapUpdate) (heads : list CapturedHead) : Prop :=
  bm_width u = width_of heads ∧ bm_height u = height_of heads
  ∧ ∀ px py c, in_update u px py → 0 ≤ c < 4 →
      pixel_byte u px py c = shown (left_of heads) (top_of heads) heads (λ _ _ _, Some 0) px py c.

Lemma compose_heads_spec heads prev :
  heads ≠ [] → layout_ok heads → (∀ f, prev = Some f → full_frame (bm_width f) (bm_height f) f) →
  ∃ r u, compose_heads heads (compare_of <$> prev) = Ok r ∧ honest prev u r ∧ shows_heads u heads.
Proof.
  intros Hne Hlay Hprev. pose proof (layout_heads heads Hlay) as Hok. destruct (layout_sums heads Hlay) as (Er & Eb & Ek).
  pose proof (lay_size _ Hlay) as [HW HH]. set (W := width_of heads) in *. set (H := height_of heads) in *.
  assert (0 ≤ W * 4 * H ≤ 2 ^ 34) as Hsz by nia.
  set (blank := replicate (Z.to_nat (W * 4 * H)) (0 : Z)).
  assert (len blank = W * 4 * H) as Hl by (unfold blank, len; rewrite length_replicate; lia).
  destruct (paint_heads_spec (left_of heads) (top_of heads) W H HW HH heads 0
    (primary_of ((λ h, (head_x h * head_x h + head_y h * head_y h, head_connector h)) <$> heads)) blank [] Hok Hl)
    as (canvas & monitors & Ep & Hlc & Hp).
  assert (image_ok W H (W * 4) canvas) as Hi by (apply image_ok_intro; lia).
  destruct (take_pixels_honest W H (W * 4) canvas (existsb head_force_full heads) prev monitors Hi Hprev) as (data & un & dr & Et & Hh).
  eexists _, _. split; [|split; [exact Hh|split; [done|split; [done|]]]].
  - unfold compose_heads. rewrite Er. cbn [mbind res_bind]. rewrite Eb. cbn [mbind res_bind].
    fold (left_of heads) (top_of heads). fold (width_of heads) (height_of heads). fold W H.
    rewrite (i32_ok W) by lia. cbn [mbind res_bind]. rewrite (i32_ok H) by lia. cbn [mbind res_bind]. cbv zeta.
    rewrite !(Z.max_l _ 1) by lia. rewrite !as_u32_id by lia. rewrite (usize_ok (W * 4)) by (unfold USIZE_MAX; lia). cbn [mbind res_bind].
    rewrite (usize_ok (W * 4 * H)) by (unfold USIZE_MAX; lia). cbn [mbind res_bind]. rewrite Ek. cbn [mbind res_bind].
    fold blank. rewrite Ep. cbn [mbind res_bind]. rewrite Et. done.
  - intros px py c Hpx Hc. pose proof Hpx as [Hx Hy]%(full_in_update W H); [|done].
    rewrite (full_pixel W H) by done. cbn [whole_frame bm_data bm_stride]. change (canvas !! _) with (byte_at (W * 4) canvas px py c).
    rewrite Hp by done. apply shown_ext. unfold byte_at, blank.
    assert (0 ≤ py * (W * 4) ∧ py * (W * 4) + W * 4 ≤ W * 4 * H) by nia.
    rewrite lookup_replicate_2; [done|]. lia.
Qed.

(** ** The capturer *)

Section capturer_proofs.
Context (refresh_heads : nat → option (list EnumeratedHead)) (grab : nat → EnumeratedHead → option Grab).

(** A head with the pixels DRM finds. *)
Definition seen_head (tick : nat) (head : EnumeratedHead) : option CapturedHead :=
  g ← grab tick head;
  '(width, height, stride, src) ← grab_pixels g;
  Some {| head_x := at_x head; head_y := at_y head; head_width := width; head_height := height; head_stride := stride;
          head_data := src; head_force_full := false; head_unchanged := false; head_dirty_rects := None;
          head_connector := connector head |}.

(** Equal but for what the comparison adds. *)
Definition same_head (c d : CapturedHead) : Prop :=
  head_x c = head_x d ∧ head_y c = head_y d ∧ head_width c = head_width d ∧ head_height c = head_height d
  ∧ head_stride c = head_stride d ∧ head_data c = head_data d ∧ head_connector c = head_connector d.

Lemma same_fmap {A} (f : CapturedHead → A) cs ds :
  Forall2 same_head cs ds → (∀ c d, same_head c d → f c = f d) → f <$> cs = f <$> ds.
Proof. intros Hs Hf. induction Hs as [|c d cs ds E _ IH]; [done|]. rewrite !fmap_cons. by f_equal; [apply Hf|]. Qed.

Lemma same_corners cs ds : Forall2 same_head cs ds →
  left_of cs = left_of ds ∧ top_of cs = top_of ds ∧ width_of cs = width_of ds ∧ height_of cs = height_of ds.
Proof.
  intros Hs. unfold width_of, height_of, left_of, top_of.
  rewrite (same_fmap head_x cs ds Hs), (same_fmap head_y cs ds Hs) by (by intros c d (? & ? & _)).
  rewrite (same_fmap (λ h, head_x h + head_width h) cs ds Hs) by (by intros c d (-> & _ & -> & _)).
  by rewrite (same_fmap (λ h, head_y h + head_height h) cs ds Hs) by (by intros c d (_ & -> & _ & -> & _)).
Qed.

Lemma same_layout cs ds : Forall2 same_head cs ds → layout_ok ds → layout_ok cs.
Proof.
  intros Hs [Hh Hsz]. destruct (same_corners _ _ Hs) as (_ & _ & Ew & Eh). split; [|by rewrite Ew, Eh]. clear Hsz Ew Eh.
  induction Hs as [|c d cs ds (E1 & E2 & E3 & E4 & E5 & E6 & _) _ IH]; [constructor|].
  inversion Hh; subst. constructor; [by rewrite E1, E2, E3, E4, E5, E6|by apply IH].
Qed.

Lemma same_shown cs ds u : Forall2 same_head cs ds → shows_heads u cs → shows_heads u ds.
Proof.
  intros Hs (Ew & Eh & Hp). destruct (same_corners _ _ Hs) as (El & Et & E1 & E2).
  split; [by rewrite <- E1|]. split; [by rewrite <- E2|]. intros px py c Hin Hc. rewrite (Hp px py c Hin Hc), El, Et.
  generalize (left_of ds), (top_of ds). intros x0 y0. clear - Hs.
  generalize (λ _ _ _ : Z, Some 0 : option Z). revert px py c.
  induction Hs as [|c0 d cs0 ds0 (E1 & E2 & E3 & E4 & E5 & E6 & _) _ IH]; intros px py c under; [done|]. cbn [shown].
  rewrite IH. apply shown_ext. rewrite E1, E2, E5, E6.
  apply decide_ext. unfold on_head. by rewrite E1, E2, E3, E4.
Qed.

(** A head that DRM cannot read fails the capture. *)
Lemma unseen_head {A} (m : list HeadFbState) tick hd heads (P : A → Prop) :
  match grab tick hd with Some g => grab_pixels g = None | None => True end →
  ∃ fbs' r, Ok (m, None) = Ok (E := Empty_set) (fbs', r)
  ∧ (is_Some (mapM (seen_head tick) (hd :: heads)) → is_Some r) ∧ ∀ cs, r = Some cs → P cs.
Proof.
  intros Hg. eexists _, _. split; [done|]. split; [|done]. intros Hs. exfalso. cbn in Hs.
  assert (seen_head tick hd = None) as En by (unfold seen_head; destruct (grab tick hd) as [g|]; cbn; [by rewrite Hg|done]).
  rewrite En in Hs. by destruct Hs.
Qed.

(** Capturing every head, without a comparison. *)
Lemma capture_each_spec tick fbs heads :
  ∃ fbs' r, capture_each grab tick fbs heads None = Ok (fbs', r)
  ∧ (is_Some (mapM (seen_head tick) heads) → is_Some r)
  ∧ ∀ cs, r = Some cs → ∃ seen, mapM (seen_head tick) heads = Some seen ∧ Forall2 same_head cs seen.
Proof.
  revert fbs. induction heads as [|hd heads IH]; intros fbs.
  { eexists _, _. split; [done|]. split; [by eexists|]. intros cs [= <-]. by exists []. }
  cbn [capture_each]. unfold capture_head.
  destruct (grab tick hd) as [[fb [[[[w h] stride] src]|]]|] eqn:Eg; cbn -[take_pixels mapM]; [|by apply unseen_head; rewrite Eg..].
  assert (∀ force, take_pixels src stride w h force None = Ok (src, false, None)) as E by (by intros []).
  rewrite E. cbn -[mapM]. destruct (IH (set_fb (connector hd) fb fbs)) as (fbs2 & r2 & -> & Hsome & Hr). cbn -[mapM].
  eexists _, _. split; [done|]. split.
  { intros Hs. destruct Hsome as [cs2 ->]; [|by eexists]. cbn in Hs.
    destruct (mapM (seen_head tick) heads); [by eexists|]. destruct (seen_head tick hd); by destruct Hs. }
  intros cs Ecs. destruct r2 as [cs2|]; [|done]. injection Ecs as <-.
  destruct (Hr cs2 eq_refl) as (seen & Em & Hs).
  destruct (seen_head tick hd) as [d|] eqn:Ed; pose proof Ed as Ed'; unfold seen_head in Ed; rewrite Eg in Ed; [|done].
  exists (d :: seen). split; [cbn; by rewrite Ed', Em|].
  injection Ed as <-. by constructor.
Qed.

(** A desktop of one head is the head. *)
Lemma one_head_shown hd : layout_ok [hd] →
  shows_heads (whole_frame (head_width hd) (head_height hd) (head_stride hd) (head_data hd)) [hd].
Proof.
  intros [Hh _]. inversion Hh as [|? ? (Hi & _) _]; subst.
  unfold shows_heads, width_of, height_of, left_of, top_of. cbn. split; [lia|]. split; [lia|]. intros px py c Hin Hc.
  assert (0 ≤ px < head_width hd ∧ 0 ≤ py < head_height hd) as [Hx Hy] by (by apply (full_in_update _ _ _ _ _ Hi)).
  rewrite (full_pixel _ _ _ _ _ _ Hi Hx Hy Hc). rewrite decide_True by (unfold on_head, in_head; lia).
  unfold byte_at. cbn. do 2 f_equal. lia.
Qed.

Context (prev : option BitmapUpdate) (Hprev : ∀ f, prev = Some f → full_frame (bm_width f) (bm_height f) f).

(** The frame is an honest account of the heads that DRM shows. *)
Definition accounts_for (tick : nat) (heads : list EnumeratedHead) (frame : RawFrame) : Prop :=
  ∃ seen u, mapM (seen_head tick) heads = Some seen ∧ shows_heads u seen ∧ honest prev u frame.

Lemma capture_one_spec tick fbs hd :
  (∀ seen, mapM (seen_head tick) [hd] = Some seen → layout_ok seen) →
  ∃ fbs' r, capture_heads grab tick fbs [hd] (compare_of <$> prev) = Ok (fbs', r)
  ∧ (is_Some (mapM (seen_head tick) [hd]) → is_Some r) ∧ ∀ frame, r = Some frame → accounts_for tick [hd] frame.
Proof.
  intros Hlay. unfold capture_heads, capture_each, capture_head.
  destruct (grab tick hd) as [[fb [[[[w h] stride] src]|]]|] eqn:Eg; cbn -[take_pixels mapM]; [|by apply unseen_head; rewrite Eg..].
  set (force := match find_fb (connector hd) fbs with Some p => negb (p =? fb) | None => false end).
  set (d := {| head_x := at_x hd; head_y := at_y hd; head_width := w; head_height := h; head_stride := stride; head_data := src;
               head_force_full := false; head_unchanged := false; head_dirty_rects := None; head_connector := connector hd |}).
  assert (mapM (seen_head tick) [hd] = Some [d]) as Em by (cbn; unfold seen_head; by rewrite Eg).
  pose proof (Hlay _ Em) as Hl. assert (image_ok w h stride src) as Hi by (destruct Hl as [Hh _]; inversion Hh as [|? ? (? & _) _]; done).
  destruct (take_pixels_honest w h stride src force prev [{| mon_left := 0; mon_top := 0; mon_right := as_i32 (saturating_sub w 1);
    mon_bottom := as_i32 (saturating_sub h 1); mon_primary := true |}] Hi Hprev) as (data & un & dr & Et & Hh).
  rewrite Et. cbn -[mapM]. eexists _, _. split; [done|]. split; [by eexists|].
  intros frame [= <-]. exists [d], (whole_frame w h stride src).
  split; [done|]. split; [by apply (one_head_shown d)|]. exact Hh.
Qed.

Lemma capture_heads_spec tick fbs heads :
  heads ≠ [] → (∀ seen, mapM (seen_head tick) heads = Some seen → layout_ok seen) →
  ∃ fbs' r, capture_heads grab tick fbs heads (compare_of <$> prev) = Ok (fbs', r)
  ∧ (is_Some (mapM (seen_head tick) heads) → is_Some r) ∧ ∀ frame, r = Some frame → accounts_for tick heads frame.
Proof.
  intros Hne Hlay. destruct heads as [|hd [|hd' heads]]; [done|by apply capture_one_spec|].
  destruct (capture_each_spec tick fbs (hd :: hd' :: heads)) as (fbs' & r & E & Hsome & Hr). unfold capture_heads. rewrite E. cbn [mbind res_bind].
  destruct r as [cs|]; [|eexists _, _; split; [done|]; split; [intros Hs; by destruct (Hsome Hs)|done]]. destruct (Hr cs eq_refl) as (seen & Em & Hs).
  pose proof (length_mapM _ _ _ Em) as Hl. pose proof (Forall2_length _ _ _ Hs) as Hl'.
  destruct cs as [|c [|c' cs]]; [cbn in *; lia..|].
  destruct (compose_heads_spec (c :: c' :: cs) prev) as (frame & u & Ec & Hh & Hu); [done|by eapply same_layout, Hlay|done|].
  rewrite Ec. cbn -[mapM]. eexists _, _. split; [done|]. split; [by eexists|]. intros frame' [= <-]. exists seen, u. split; [done|].
  split; [by eapply same_shown|done].
Qed.

(** The heads of a tick are the cached ones, or those DRM has now. *)
Lemma heads_for_tick_spec tick d now force :
  ∃ d' r, heads_for_tick refresh_heads tick d now force = (d', r)
  ∧ (cached_heads d' = cached_heads d ∨ refresh_heads tick = Some (cached_heads d'))
  ∧ (∀ heads, r = Some heads → (heads = cached_heads d ∧ heads ≠ []) ∨ refresh_heads tick = Some heads)
  ∧ (if force then r = refresh_heads tick else cached_heads d ≠ [] → is_Some r).
Proof.
  unfold heads_for_tick. destruct (negb _) eqn:E.
  - eexists _, _. split; [done|]. split; [by left|]. apply negb_true_iff in E. unfold should_refresh_heads in E.
    destruct force; [done|]. split; [|by eexists]. intros heads [= <-]. left. split; [done|]. intros Ec. by rewrite Ec in E.
  - destruct (refresh_heads tick) as [heads|] eqn:Er.
    { eexists _, _. split; [done|]. split; [by right|]. split; [intros heads' [= <-]; by right|].
      destruct force; [done|by eexists]. }
    eexists _, _. split; [done|]. split; [by left|]. destruct force; cbn; [done|].
    destruct (cached_heads d) as [|h0 hs]; cbn; [done|]. split; [|by eexists]. intros heads [= <-]. by left.
Qed.

(** C14. A capture is an honest account of the heads.  Take DRM calls that report at least one head
    whenever they succeed, and heads whose pixels, when they can all be read, fill their rectangle
    of a desktop below 65536 pixels a side.  However framebuffers change, heads come and go, and
    reads fail, [capture] does not panic; a frame it returns was captured in one of its two attempts, from
    the heads cached or those DRM lists then, and is an honest account of their desktop, in which each pixel is that of the
    last head over it and black where there is none.  When the heads listed for the second attempt
    can all be read, a capturer that has heads cached does return a frame. *)
Theorem drm_capture_honest tick d now later :
  (∀ t, refresh_heads t ≠ Some []) →
  (∀ t heads seen, heads = cached_heads d ∨ (∃ t', refresh_heads t' = Some heads) → heads ≠ [] →
     mapM (seen_head t) heads = Some seen → layout_ok seen) →
  ∃ d' r, drm_capture refresh_heads grab tick d now later (compare_of <$> prev) = Ok (d', r)
  ∧ (∀ frame, r = Some frame → ∃ t heads, (t = tick ∨ t = S tick)
       ∧ (heads = cached_heads d ∨ refresh_heads t = Some heads) ∧ accounts_for t heads frame)
  ∧ (cached_heads d ≠ [] → ∀ heads, refresh_heads (S tick) = Some heads →
       is_Some (mapM (seen_head (S tick)) heads) → is_Some r).
Proof.
  intros Hrefresh Hlay. unfold drm_capture.
  destruct (heads_for_tick_spec tick d now false) as (d1 & r1 & -> & _ & Hh1 & Hs1).
  destruct r1 as [heads|]; [|eexists _, _; split; [done|]; split; [done|]; intros Hc; by destruct (Hs1 Hc)].
  assert (heads ≠ [] ∧ (heads = cached_heads d ∨ refresh_heads tick = Some heads)) as [Hne Hfrom].
  { destruct (Hh1 heads eq_refl) as [[? ?]|E]; [by auto|]. split; [intros ->; by apply (Hrefresh tick)|by right]. }
  assert (heads = cached_heads d ∨ ∃ t', refresh_heads t' = Some heads) as Hlisted by (destruct Hfrom; [by left|right; by eexists]).
  unfold attempt_heads. destruct (capture_heads_spec tick (head_fb d1) heads Hne (λ seen, Hlay tick heads seen Hlisted Hne)) as (fbs1 & r & E1 & _ & Hr1).
  rewrite E1. cbn [mbind res_bind]. destruct r as [frame|].
  { eexists _, _. split; [done|]. split; [|by eexists]. intros frame' [= <-]. exists tick, heads. split; [by left|]. split; [done|by apply Hr1]. }
  destruct (heads_for_tick_spec (S tick) (with_fbs d1 fbs1) later true) as (d2 & r2 & -> & _ & _ & ->).
  destruct (refresh_heads (S tick)) as [heads2|] eqn:Er2; [|by eexists _, _].
  assert (heads2 ≠ []) as Hne2 by (intros ->; by apply (Hrefresh (S tick))).
  destruct (capture_heads_spec (S tick) (head_fb d2) heads2 Hne2
    (λ seen, Hlay (S tick) heads2 seen (or_intror (ex_intro _ _ Er2)) Hne2)) as (fbs2 & r & E2 & Hs2 & Hr2).
  rewrite E2. cbn [mbind res_bind]. eexists _, _. split; [done|]. split.
  - intros frame Ef. exists (S tick), heads2. split; [by right|]. split; [by right|by apply Hr2].
  - intros _ heads' [= <-]. exact Hs2.
Qed.
End capturer_proofs.

(** Two heads of one pixel each; the second is to the left of the first. *)
Definition two_heads : list EnumeratedHead :=
  [{| card_idx := 0; crtc := 1; connector := "DP-1"; at_x := 1; at_y := 0 |};
   {| card_idx := 0; crtc := 2; connector := "DP-2"; at_x := 0; at_y := 0 |}].
Definition two_grab (t : nat) (head : EnumeratedHead) : option Grab :=
  Some {| grab_fb := 7; grab_pixels := Some (1, 1, 4, [crtc head; crtc head; crtc head; 0]) |}.
Definition two_capturer : DrmCapturer := {| head_fb := []; cached_heads := two_heads; last_head_refresh := None |}.

Lemma two_layout t seen : mapM (seen_head two_grab t) two_heads = Some seen → layout_ok seen.
Proof. cbn. intros [= <-]. split; [|by vm_compute]. repeat (apply Forall_cons; split); try apply Forall_nil_2; (split; [by split|by cbn]). Qed.

Lemma drm_capture_honest_witness :
  ∃ d' frame, drm_capture (λ _, Some two_heads) two_grab 0 two_capturer 0 0 None = Ok (d', Some frame)
  ∧ raw_data frame = [2; 2; 2; 0; 1; 1; 1; 0] ∧ ∃ t, accounts_for two_grab None t two_heads frame.
Proof.
  assert (∀ f : BitmapUpdate, None = Some f → full_frame (bm_width f) (bm_height f) f) as Hprev by done.
  destruct (drm_capture_honest (λ _, Some two_heads) two_grab None Hprev 0 two_capturer 0 0) as (d' & r & E & Hr & _).
  - done.
  - intros t heads seen [->|(t' & [= <-])] _; apply two_layout.
  - cbn [fmap option_fmap option_map] in E. destruct r as [frame|]; [|vm_compute in E; discriminate E].
    exists d', frame. split; [exact E|]. destruct (Hr frame eq_refl) as (t & heads & _ & Hheads & Hacc).
    vm_compute in E. injection E as _ Ef. split; [by rewrite <- Ef|]. exists t.
    destruct Hheads as [->|[= <-]]; exact Hacc.
Defined.
