(* ===== verification/DisplayHub.v ===== *)
(** [kmsrdp/src/display_hub.rs]: one capture loop that fans the desktop out to every session over
    a broadcast channel, and the reader each session polls.

    The broadcast channel of tokio is the class [Broadcast]; what the capture side promises of a
    frame is [Capture.honest].  The capture loop and the readers run concurrently: [hub_step]
    interleaves them between any two of their accesses to the shared state. *)
From S2P Require Import Prelude Diff Display Capture.
From stdpp Require Import relations.
Open Scope Z_scope.

Record DesktopSize := { desk_width : Z; desk_height : Z }.
Global Instance DesktopSize_eq_dec : EqDecision DesktopSize.
Proof. solve_decision. Defined.

Record MonitorLayoutEntry := { e_left : Z; e_top : Z; e_right : Z; e_bottom : Z; e_primary : bool }.

Inductive DisplayUpdate := DBitmap (b : BitmapUpdate) | DResized (size : DesktopSize).

(** ** The broadcast channel *)

(** What [Receiver::recv] finds: a value, that the oldest [n] unread values are gone, nothing yet
    (it waits), or that the senders are gone. *)
Inductive Recv T := Received (v : T) | Lagged (n : nat) | Empty | Closed.
Arguments Received {T} v.
Arguments Lagged {T} n.
Arguments Empty {T}.
Arguments Closed {T}.

Class Broadcast (T C R : Type) := {
  b_channel : Z → C;
  b_send : C → T → C;
  b_subscribe : C → C * R;
  b_recv : C → R → Recv T * R }.

(** As documented: a receiver sees every value sent after it subscribed, in order, except that one
    that falls behind is told how many values it has lost and goes on from the oldest one kept.
    The hub holds a sender, so the channel is never closed. *)
Class BroadcastLaws (T C R : Type) `{!Broadcast T C R} := {
  unread : C → R → list T;
  live : C → R → Prop;
  subscribe_law c : let '(c', r) := b_subscribe c in live c' r ∧ unread c' r = [];
  subscribe_other c r : live c r → live (b_subscribe c).1 r ∧ unread (b_subscribe c).1 r = unread c r;
  send_law c r v : live c r → live (b_send c v) r ∧ unread (b_send c v) r = unread c r ++ [v];
  recv_law c r : live c r →
    match b_recv c r with
    | (Received v, r') => live c r' ∧ unread c r = v :: unread c r'
    | (Lagged n, r') => live c r' ∧ (0 < n ≤ length (unread c r))%nat ∧ unread c r' = drop n (unread c r)
    | (Empty, r') => r' = r ∧ unread c r = []
    | (Closed, _) => False
    end }.

Definition BROADCAST_CAPACITY : Z := 256.
Definition FULL_FRAME_DIRTY_RATIO_NUM : Z := 1.
Definition FULL_FRAME_DIRTY_RATIO_DEN : Z := 16.

(** ** The capture loop *)

(** In seconds. *)
Definition capture_retry_backoff (consecutive : Z) : Z := Z.max (Z.min consecutive 8) 1.

Definition should_log_capture_failure (consecutive : Z) : bool :=
  (consecutive =? 1) || (consecutive mod 20 =? 0).

(** The sum of [usize]s must not overflow. *)
Definition dirty_area (rects : list Rect) : outcome Z :=
  foldl (λ acc rect, a ← acc;
           let a' := a + saturating_mul (rect_width rect) (rect_height rect) in
           if a' <=? USIZE_MAX then Ok a' else Panic) (Ok 0) rects.

Definition coalesce_dirty_rects (rects : list Rect) (width height : Z) : outcome (list Rect) :=
  match rects with
  | [] => Ok rects
  | _ =>
    let frame_area := saturating_mul width height in
    if frame_area =? 0 then Ok rects
    else
      area ← dirty_area rects;
      Ok (if saturating_mul frame_area FULL_FRAME_DIRTY_RATIO_NUM
             <=? saturating_mul area FULL_FRAME_DIRTY_RATIO_DEN
          then [Rect_new 0 0 width height] else rects)
  end.

Record PrevFrame := { prev_width : Z; prev_height : Z; prev_stride : Z; prev_data : bytes }.

Section hub.
Context {C R : Type} `{!Broadcast DisplayUpdate C R}.

(** The hub, and the variables of [run_capture_loop] (from [previous] on). *)
Record DisplayHub := {
  hub_size : DesktopSize; hub_tx : C; hub_mouse_scale : Z * Z;
  latest_full : option BitmapUpdate; hub_monitors : list MonitorLayoutEntry;
  previous : option PrevFrame; negotiated_size : DesktopSize; consecutive_failures : Z }.

Definition DisplayHub_start (width height : Z) (mouse_scale : Z * Z) (monitors : list MonitorLayoutEntry) : DisplayHub :=
  let size := {| desk_width := width; desk_height := height |} in
  {| hub_size := size; hub_tx := b_channel BROADCAST_CAPACITY; hub_mouse_scale := mouse_scale;
     latest_full := None; hub_monitors := monitors;
     previous := None; negotiated_size := size; consecutive_failures := 0 |}.

Definition with_tx (h : DisplayHub) (tx : C) : DisplayHub :=
  {| hub_size := hub_size h; hub_tx := tx; hub_mouse_scale := hub_mouse_scale h; latest_full := latest_full h;
     hub_monitors := hub_monitors h; previous := previous h; negotiated_size := negotiated_size h;
     consecutive_failures := consecutive_failures h |}.

Definition with_failures (h : DisplayHub) (n : Z) : DisplayHub :=
  {| hub_size := hub_size h; hub_tx := hub_tx h; hub_mouse_scale := hub_mouse_scale h; latest_full := latest_full h;
     hub_monitors := hub_monitors h; previous := previous h; negotiated_size := negotiated_size h;
     consecutive_failures := n |}.

Definition with_monitors (h : DisplayHub) (m : list MonitorLayoutEntry) : DisplayHub :=
  {| hub_size := hub_size h; hub_tx := hub_tx h; hub_mouse_scale := hub_mouse_scale h; latest_full := latest_full h;
     hub_monitors := m; previous := previous h; negotiated_size := negotiated_size h;
     consecutive_failures := consecutive_failures h |}.

Definition entry_of (m : MonitorGeom) : MonitorLayoutEntry :=
  {| e_left := mon_left m; e_top := mon_top m; e_right := mon_right m; e_bottom := mon_bottom m;
     e_primary := mon_primary m |}.

Definition u32_saturating_succ (n : Z) : Z := Z.min (n + 1) (2 ^ 32 - 1).

(** What one turn of the capture loop leaves: the hub, what it is about to broadcast, how long it
    sleeps (milliseconds), and whether it logs a failure. *)
Record Turn := { turn_hub : DisplayHub; turn_send : option DisplayUpdate; turn_sleep : list Z; turn_warns : bool }.

Definition quiet_turn (h : DisplayHub) : Turn :=
  {| turn_hub := h; turn_send := None; turn_sleep := []; turn_warns := false |}.

(** The hint passed to [capture_with_hint]. *)
Definition capture_hint (h : DisplayHub) : option CaptureCompare :=
  match previous h with
  | Some p => Some {| cmp_width := prev_width p; cmp_height := prev_height p; cmp_stride := prev_stride p;
                      cmp_data := prev_data p |}
  | None => None
  end.

(** The rectangles of a frame that is to be published. *)
Definition turn_dirty_rects (h : DisplayHub) (raw : RawFrame) : outcome (list Rect) :=
  match raw_dirty_rects raw with
  | Some rects => coalesce_dirty_rects rects (raw_width raw) (raw_height raw)
  | None =>
    let whole := Ok [Rect_new 0 0 (raw_width raw) (raw_height raw)] in
    match previous h with
    | Some prev =>
      if negb (force_full raw) && (prev_width prev =? raw_width raw) && (prev_height prev =? raw_height raw) then
        rects ← find_dirty_rects (prev_data prev) (prev_stride prev) (raw_data raw) (raw_stride raw)
                  (raw_width raw) (raw_height raw) 4;
        coalesce_dirty_rects rects (raw_width raw) (raw_height raw)
      else whole
    | None => whole
    end
  end.

(** The hub once a frame is published, the broadcast apart. *)
Definition publish (h : DisplayHub) (full : BitmapUpdate) (raw : RawFrame) : DisplayHub :=
  {| hub_size := hub_size h; hub_tx := hub_tx h; hub_mouse_scale := hub_mouse_scale h;
     latest_full := Some full; hub_monitors := hub_monitors h;
     previous := Some {| prev_width := raw_width raw; prev_height := raw_height raw; prev_stride := raw_stride raw;
                         prev_data := raw_data raw |};
     negotiated_size := negotiated_size h; consecutive_failures := consecutive_failures h |}.

(** The [Ok(raw)] arm, up to its broadcast. *)
Definition on_frame (h : DisplayHub) (raw : RawFrame) : outcome Turn :=
  let h := with_monitors (with_failures h 0) (entry_of <$> raw_monitors raw) in
  let current_size := {| desk_width := as_u16 (raw_width raw); desk_height := as_u16 (raw_height raw) |} in
  if bool_decide (current_size ≠ negotiated_size h) then
    Ok {| turn_hub := {| hub_size := current_size; hub_tx := hub_tx h;
                         hub_mouse_scale := (desk_width current_size, desk_height current_size);
                         latest_full := None; hub_monitors := hub_monitors h; previous := None;
                         negotiated_size := current_size; consecutive_failures := consecutive_failures h |};
          turn_send := Some (DResized current_size); turn_sleep := [50]; turn_warns := false |}
  else if raw_unchanged raw then Ok (quiet_turn h)
  else
    match non_zero_u16 (raw_width raw), non_zero_u16 (raw_height raw), raw_stride raw =? 0 with
    | Some width, Some height, false =>
      let full := {| bm_x := 0; bm_y := 0; bm_width := width; bm_height := height; format := BgrX32;
                     bm_data := raw_data raw; bm_stride := raw_stride raw; src_x := 0; src_y := 0 |} in
      dirty_rects ← turn_dirty_rects h raw;
      let merged := foldl (merge_rect full) None dirty_rects in
      Ok {| turn_hub := publish h full raw; turn_send := DBitmap <$> merged; turn_sleep := []; turn_warns := false |}
    | _, _, _ =>
      let n := u32_saturating_succ (consecutive_failures h) in
      Ok {| turn_hub := with_failures h n; turn_send := None; turn_sleep := [50];
            turn_warns := should_log_capture_failure n |}
    end.

(** What the blocking capture task comes back with: a frame, an error, or a panic, after which the
    capturer is opened again, with [failed] attempts that fail before one succeeds. *)
Inductive Capture := Captured (raw : RawFrame) | CaptureFailed | CapturePanicked (failed : nat).

Fixpoint reopen (failed : nat) (h : DisplayHub) (slept : list Z) (warns : bool) : Turn :=
  match failed with
  | O => {| turn_hub := h; turn_send := None; turn_sleep := slept; turn_warns := warns |}
  | S failed =>
    let n := u32_saturating_succ (consecutive_failures h) in
    reopen failed (with_failures h n) (slept ++ [1000 * capture_retry_backoff n])
      (warns || should_log_capture_failure n)
  end.

(** One turn of the loop, up to its broadcast. *)
Definition capture_turn (h : DisplayHub) (result : Capture) : outcome Turn :=
  match result with
  | Captured raw => on_frame h raw
  | CaptureFailed =>
    let n := u32_saturating_succ (consecutive_failures h) in
    Ok {| turn_hub := with_failures h n; turn_send := None; turn_sleep := []; turn_warns := should_log_capture_failure n |}
  | CapturePanicked failed => Ok (reopen failed h [] true)
  end.

(** The broadcast that ends a turn. *)
Definition broadcast (h : DisplayHub) (msg : option DisplayUpdate) : DisplayHub :=
  match msg with Some m => with_tx h (b_send (hub_tx h) m) | None => h end.

Definition run_capture_loop (h : DisplayHub) (results : list Capture) : outcome DisplayHub :=
  foldl (λ acc result, h ← acc; t ← capture_turn h result; Ok (broadcast (turn_hub t) (turn_send t))) (Ok h) results.

(** ** The reader of a session *)

Record DisplayUpdates := { initial : option BitmapUpdate; rx : R }.

(** [subscribe] looks at the latest frame and then joins the channel.  The guard that [Self::lock]
    gives is a temporary of the tail expression [DisplayUpdates { .. }], a struct expression ends no
    temporary scope, and so the lock on the latest frame is held until the receiver exists. *)
Definition subscribe_look (h : DisplayHub) : option BitmapUpdate := latest_full h.
Definition subscribe_join (h : DisplayHub) (first : option BitmapUpdate) : DisplayHub * DisplayUpdates :=
  let '(tx, r) := b_subscribe (hub_tx h) in
  (with_tx h tx, {| initial := first; rx := r |}).
Definition subscribe (h : DisplayHub) : DisplayHub * DisplayUpdates := subscribe_join h (subscribe_look h).

(** One pass of [next_update] up to where it returns, waits, or has lagged. *)
Inductive Polled := Returns (u : option DisplayUpdate) | Waits | HasLagged.

Definition poll (tx : C) (d : DisplayUpdates) : Polled * DisplayUpdates :=
  match initial d with
  | Some full => (Returns (Some (DBitmap full)), {| initial := None; rx := rx d |})
  | None =>
    let '(got, r) := b_recv tx (rx d) in
    (match got with
     | Received update => Returns (Some update)
     | Lagged _ => HasLagged
     | Empty => Waits
     | Closed => Returns None
     end, {| initial := None; rx := r |})
  end.

(** After a lag: the latest frame, or once more around the loop. *)
Definition after_lag (h : DisplayHub) : option DisplayUpdate := DBitmap <$> latest_full h.

Fixpoint next_update (fuel : nat) (h : DisplayHub) (d : DisplayUpdates) : Polled * DisplayUpdates :=
  match fuel with
  | O => (HasLagged, d)
  | S fuel =>
    let '(p, d) := poll (hub_tx h) d in
    match p with
    | HasLagged => match after_lag h with Some u => (Returns (Some u), d) | None => next_update fuel h d end
    | _ => (p, d)
    end
  end.

Definition latest_full_frame (h : DisplayHub) : option BitmapUpdate := latest_full h.
Definition Display_size (h : DisplayHub) : DesktopSize := hub_size h.
Definition monitor_layout (h : DisplayHub) : list MonitorLayoutEntry := hub_monitors h.
End hub.
Arguments DisplayHub C : clear implicits.
Arguments DisplayUpdates R : clear implicits.
Arguments Turn C : clear implicits.

(** ** What a session shows *)

Definition blank : canvas := λ _ _ _, None.

Definition apply_update (cv : canvas) (u : DisplayUpdate) : canvas :=
  match u with DBitmap b => paint cv b | DResized _ => blank end.

(** The update decides what is shown at this position. *)
Definition touches (u : DisplayUpdate) (px py : Z) : Prop :=
  match u with DBitmap b => in_update b px py | DResized _ => True end.
Global Instance touches_dec u px py : Decision (touches u px py).
Proof. destruct u; cbn; apply _. Defined.

Lemma apply_untouched cv u px py c : ¬ touches u px py → apply_update cv u px py c = cv px py c.
Proof. destruct u as [b|]; cbn; [|done]. intros H. unfold paint. by rewrite decide_False. Qed.

Lemma apply_touched cv cv' u px py c : touches u px py → apply_update cv u px py c = apply_update cv' u px py c.
Proof. destruct u as [b|]; cbn; [|done]. intros H. unfold paint. by rewrite !decide_True. Qed.

(** A screen [cv] that has the updates [L] ahead of it tracks the byte [v]: whatever part of [L] is
    lost, the position ends up right if any update that is left touches it; and unless updates
    have been lost, it is right already or touched. *)
Record tracks (L : list DisplayUpdate) (lag : bool) (cv : canvas) (px py c : Z) (v : option Z) : Prop := {
  tracks_good k cv' : Exists (λ u, touches u px py) (drop k L) → foldl apply_update cv' (drop k L) px py c = v;
  tracks_behind : lag = false → Exists (λ u, touches u px py) L ∨ cv px py c = v }.

Section tracks.
Context (px py c : Z) (v : option Z).

Lemma tracks_snoc_touch L lag cv u :
  touches u px py → (∀ cv', apply_update cv' u px py c = v) → tracks (L ++ [u]) lag cv px py c v.
Proof.
  intros Ht Hu. split.
  - intros k cv' Hex. rewrite drop_app in *. destruct (k - length L)%nat as [|n] eqn:E.
    + rewrite foldl_app. cbn. apply Hu.
    + exfalso. rewrite drop_ge in Hex by lia. cbn in Hex. rewrite drop_nil in Hex. by inversion Hex.
  - intros _. left. apply Exists_app. right. by constructor.
Qed.

Lemma tracks_snoc_miss L lag cv u : ¬ touches u px py → tracks L lag cv px py c v → tracks (L ++ [u]) lag cv px py c v.
Proof.
  intros Ht [Hg Hb]. split.
  - intros k cv' Hex. rewrite drop_app in *. rewrite foldl_app.
    assert (Exists (λ u, touches u px py) (drop k L)) as Hex'.
    { apply Exists_app in Hex as [?|Hex]; [done|]. exfalso. destruct (k - length L)%nat; cbn in Hex.
      - inversion Hex as [? ? Hx|? ? Hx]; subst; [done|by inversion Hx].
      - rewrite drop_nil in Hex. by inversion Hex. }
    destruct (k - length L)%nat as [|n]; cbn; rewrite ?drop_nil; cbn; [rewrite apply_untouched by done|]; by apply Hg.
  - intros Hl. destruct (Hb Hl) as [?|?]; [left|by right]. apply Exists_app. by left.
Qed.

Lemma tracks_read L cv u : tracks (u :: L) false cv px py c v → tracks L false (apply_update cv u) px py c v.
Proof.
  intros [Hg Hb]. split; [intros k; exact (Hg (S k))|]. intros _.
  destruct (decide (Exists (λ u, touches u px py) L)) as [?|Hno]; [by left|]. right.
  assert (∀ M cv', ¬ Exists (λ u, touches u px py) M → foldl apply_update cv' M px py c = cv' px py c) as Huntouched.
  { intros M. induction M as [|w M IH]; intros cv' HM; [done|]. cbn. rewrite IH by (intros ?; apply HM; by right).
    apply apply_untouched. intros ?. apply HM. by left. }
  destruct (decide (touches u px py)) as [Ht|Ht].
  - rewrite <- (Hg 0%nat cv) by (by left). cbn. by rewrite Huntouched.
  - rewrite apply_untouched by done. destruct (Hb eq_refl) as [Hex|?]; [|done].
    by inversion Hex.
Qed.

Lemma tracks_drop L lag cv cv' n : tracks L lag cv px py c v → tracks (drop n L) true cv' px py c v.
Proof. intros [Hg _]. split; [|done]. intros k cv''. rewrite drop_drop. apply Hg. Qed.

Lemma tracks_resync L lag cv cv' : tracks L lag cv px py c v → cv' px py c = v → tracks L false cv' px py c v.
Proof. intros [Hg _] E. split; [done|]. by right. Qed.

Lemma tracks_done cv : tracks [] false cv px py c v → cv px py c = v.
Proof. intros [_ Hb]. destruct (Hb eq_refl) as [Hex|?]; [by inversion Hex|done]. Qed.
End tracks.

(** ** The rectangles of a frame *)

Global Instance in_rect_dec q px py : Decision (in_rect q px py).
Proof. unfold in_rect. apply _. Defined.

Lemma dirty_area_small w h rects :
  0 < w < 2 ^ 16 → 0 < h < 2 ^ 16 → Forall (rect_in w h) rects → len rects ≤ w * h →
  ∃ area, dirty_area rects = Ok area.
Proof.
  intros Hw Hh Hr Hl. pose proof (len_nonneg rects) as Hn.
  assert (0 ≤ w * h ≤ (2 ^ 16 - 1) * (2 ^ 16 - 1)) as Hwh by (split; [lia|apply Z.mul_le_mono_nonneg; lia]).
  assert (len rects * (w * h) ≤ USIZE_MAX) as Hmax.
  { transitivity (((2 ^ 16 - 1) * (2 ^ 16 - 1)) * ((2 ^ 16 - 1) * (2 ^ 16 - 1))); [apply Z.mul_le_mono_nonneg; lia|done]. }
  assert (∀ acc, 0 ≤ acc → acc + len rects * (w * h) ≤ USIZE_MAX →
    ∃ area, foldl (λ acc rect, a ← acc; let a' := a + saturating_mul (rect_width rect) (rect_height rect) in
      if a' <=? USIZE_MAX then Ok a' else Panic) (Ok acc) rects = Ok (E := Empty_set) area) as Hgen.
  { clear Hmax Hl Hn. induction Hr as [|q rects Hq _ IH]; intros acc Ha Hmax; [by eexists|].
    destruct Hq as (? & ? & ? & ? & ? & ?). rewrite len_cons in Hmax.
    assert (0 ≤ rect_width q * rect_height q ≤ w * h) as Hm by (split; [lia|apply Z.mul_le_mono_nonneg; lia]).
    assert (0 ≤ saturating_mul (rect_width q) (rect_height q) ≤ w * h) as Hs by (unfold saturating_mul, USIZE_MAX; lia).
    pose proof (len_nonneg rects). cbn [foldl mbind res_bind]. cbv zeta. rewrite (proj2 (Z.leb_le _ _)) by nia.
    apply IH; nia. }
  apply (Hgen 0); lia.
Qed.

Lemma whole_rect_in w h : 0 < w < 2 ^ 16 → 0 < h < 2 ^ 16 → rect_in w h (Rect_new 0 0 w h).
Proof. unfold rect_in. cbn. lia. Qed.

(** Collapsing keeps every dirty pixel. *)
Lemma coalesce_spec w h rects :
  0 < w < 2 ^ 16 → 0 < h < 2 ^ 16 → Forall (rect_in w h) rects → len rects ≤ w * h →
  ∃ rects', coalesce_dirty_rects rects w h = Ok rects' ∧ Forall (rect_in w h) rects'
    ∧ ∀ px py, (∃ q, q ∈ rects ∧ in_rect q px py) → ∃ q, q ∈ rects' ∧ in_rect q px py.
Proof.
  intros Hw Hh Hr Hl. destruct (dirty_area_small w h rects Hw Hh Hr Hl) as (area & Ea).
  unfold coalesce_dirty_rects. destruct rects as [|q0 rects0] eqn:Er; [by eexists|]. rewrite <- Er in *.
  destruct (_ =? 0); [by eexists|]. rewrite Ea. cbn [mbind res_bind].
  destruct (_ <=? _); [|by eexists]. eexists. split; [done|]. split; [by constructor; [apply whole_rect_in|]|].
  intros px py (q & Hq & Hin). exists (Rect_new 0 0 w h). split; [by left|].
  rewrite Forall_forall in Hr. destruct (Hr q Hq) as (? & ? & ? & ? & ? & ?). unfold in_rect in *. cbn. lia.
Qed.

(** ** The capture loop against the desktop *)

Definition prev_frame (p : PrevFrame) : BitmapUpdate := whole_frame (prev_width p) (prev_height p) (prev_stride p) (prev_data p).

Definition same_pixels (f u : BitmapUpdate) : Prop :=
  ∀ px py c, in_update u px py → 0 ≤ c < 4 → pixel_byte f px py c = pixel_byte u px py c.

Lemma differ_nowhere f u : differ_within f u [] → same_pixels f u.
Proof. intros H px py c Hp Hc. apply H; [done..|]. intros (q & Hq & _). by apply elem_of_nil in Hq. Qed.

Section turn.
Context {C R : Type} `{!Broadcast DisplayUpdate C R}.

Definition hub_previous (h : DisplayHub C) : option BitmapUpdate := prev_frame <$> previous h.

(** The latest frame is the one captures are compared with, has the announced size, and shows the
    desktop [img] that was captured last. *)
Definition hub_inv (h : DisplayHub C) (img : option BitmapUpdate) : Prop :=
  hub_previous h = latest_full h
  ∧ ∀ f, latest_full h = Some f →
      full_frame (desk_width (negotiated_size h)) (desk_height (negotiated_size h)) f
      ∧ ∃ u, img = Some u ∧ full_frame (desk_width (negotiated_size h)) (desk_height (negotiated_size h)) u ∧ same_pixels f u.

(** The capture side keeps its promise. *)
Definition honest_result (h : DisplayHub C) (result : Capture) (old new : option BitmapUpdate) : Prop :=
  match result with
  | Captured raw => ∃ u, new = Some u ∧ honest (hub_previous h) u raw
  | _ => new = old
  end.

(** The rectangles account for what the frame [prev] does not show of the desktop. *)
Definition accounts (prev : option BitmapUpdate) (u : BitmapUpdate) (rects : list Rect) : Prop :=
  ∀ px py c, in_update u px py → 0 ≤ c < 4 →
    (∃ q, q ∈ rects ∧ in_rect q px py)
    ∨ ∃ f, prev = Some f ∧ in_update f px py ∧ pixel_byte f px py c = pixel_byte u px py c.

Lemma whole_accounts w h prev u :
  full_frame w h u → Forall (rect_in w h) [Rect_new 0 0 w h] ∧ accounts prev u [Rect_new 0 0 w h].
Proof.
  intros Hu. split; [constructor; [apply whole_rect_in; apply Hu|done]|]. intros px py c Hp Hc. left.
  exists (Rect_new 0 0 w h). split; [by left|]. apply (full_in_update w h u) in Hp; [|done]. unfold in_rect. cbn. lia.
Qed.

Lemma coalesce_accounts w h f u rects :
  full_frame w h f → full_frame w h u → Forall (rect_in w h) rects → len rects ≤ w * h → differ_within f u rects →
  ∃ rects', coalesce_dirty_rects rects w h = Ok rects' ∧ Forall (rect_in w h) rects' ∧ accounts (Some f) u rects'.
Proof.
  intros Hf Hu Hr Hl Hd. destruct (coalesce_spec w h rects) as (r' & E & Hr' & Hcov); [apply Hu..|done|done|].
  exists r'. do 2 (split; [done|]). intros px py c Hp Hc.
  destruct (decide (Exists (λ q, in_rect q px py) rects)) as [Hq|Hq]; rewrite Exists_exists in Hq; [by left; apply Hcov|].
  right. exists f. split; [done|]. split; [|by apply Hd].
  apply (full_in_update w h); [done|]. by apply (full_in_update w h u).
Qed.

Lemma turn_dirty_spec (h : DisplayHub C) u raw :
  (∀ f, hub_previous h = Some f → full_frame (bm_width f) (bm_height f) f) →
  honest (hub_previous h) u raw → raw_unchanged raw = false →
  ∃ rects, turn_dirty_rects h raw = Ok rects ∧ Forall (rect_in (raw_width raw) (raw_height raw)) rects
    ∧ accounts (hub_previous h) u rects.
Proof.
  intros Hprev [Hu Hdata _ Hrects] Hun. unfold turn_dirty_rects. destruct (raw_dirty_rects raw) as [rects|].
  { destruct (Hrects rects Hun eq_refl) as (f & Ef & Ew & Eh & Hr & Hl & Hd). rewrite Ef.
    apply coalesce_accounts; [|done..]. rewrite <- Ew, <- Eh. by apply Hprev. }
  pose proof (whole_accounts _ _ (hub_previous h) u Hu) as Hwhole.
  destruct (previous h) as [p|] eqn:Ep; [|by eexists]. destruct (_ && _) eqn:Ec; [|by eexists].
  apply andb_true_iff in Ec as [[_ Ew%Z.eqb_eq]%andb_true_iff Eh%Z.eqb_eq].
  assert (hub_previous h = Some (prev_frame p)) as Efp by (unfold hub_previous; by rewrite Ep). rewrite Efp.
  pose proof (Hprev _ Efp) as Hf. change (full_frame (prev_width p) (prev_height p) (prev_frame p)) in Hf. rewrite Ew, Eh in Hf.
  destruct (dirty_rects_cover _ _ (prev_frame p) u Hf Hu) as (rects & Ed & Hr & Hl & Hd).
  pose proof Ed as Ed'. rewrite (Hdata Hun) in Ed'. cbn [prev_frame whole_frame bm_data bm_stride] in Ed'.
  rewrite Ed'. cbn [mbind res_bind]. by apply (coalesce_accounts _ _ (prev_frame p)).
Qed.

(** What is broadcast repaints what the rectangles name, and the rest is as in the frame before. *)
Lemma merged_effect w h u prev rects :
  full_frame w h u → Forall (rect_in w h) rects → accounts prev u rects →
  ∀ px py c, in_update u px py → 0 ≤ c < 4 →
    (∃ b, foldl (merge_rect u) None rects = Some b ∧ in_update b px py ∧ pixel_byte b px py c = pixel_byte u px py c)
    ∨ (∀ b, foldl (merge_rect u) None rects = Some b → ¬ in_update b px py)
      ∧ ∃ f, prev = Some f ∧ in_update f px py ∧ pixel_byte f px py c = pixel_byte u px py c.
Proof.
  intros Hu Hr Ha px py c Hp Hc. destruct (merge_rects_spec w h u Hu rects None) as [Hsome Hnone]; [done..|].
  destruct (foldl (merge_rect u) None rects) as [b|] eqn:Eb.
  - destruct (Hsome b eq_refl) as [Hview Hcov]. destruct (decide (in_update b px py)) as [Hin|Hout].
    + left. exists b. split; [done|]. split; [done|]. by apply (view_pixel w h).
    + right. split; [by intros b' [= <-]|]. destruct (Ha px py c Hp Hc) as [Hq|?]; [|done]. by destruct Hout; apply Hcov; left.
  - right. split; [done|]. destruct (Hnone eq_refl) as [-> _]. destruct (Ha px py c Hp Hc) as [(q & Hq & _)|?]; [|done].
    by apply elem_of_nil in Hq.
Qed.

(** What a turn broadcasts takes a session from the latest frame before to the one after. *)
Definition turn_effect (h : DisplayHub C) (t : Turn C) : Prop :=
  ∀ f', latest_full (turn_hub t) = Some f' → ∀ px py c, in_update f' px py → 0 ≤ c < 4 →
    (∃ m, turn_send t = Some m ∧ touches m px py ∧ ∀ cv, apply_update cv m px py c = pixel_byte f' px py c)
    ∨ (∀ m, turn_send t = Some m → ¬ touches m px py)
      ∧ ∃ f, latest_full h = Some f ∧ in_update f px py ∧ pixel_byte f px py c = pixel_byte f' px py c.

Lemma hub_inv_prev (h : DisplayHub C) img f :
  hub_inv h img → hub_previous h = Some f → full_frame (bm_width f) (bm_height f) f.
Proof.
  intros [Ep Hf] E. rewrite Ep in E. destruct (Hf f E) as [H _].
  by rewrite (full_width _ _ _ H), (full_height _ _ _ H).
Qed.

Lemma still_effect (h : DisplayHub C) t :
  turn_send t = None → latest_full (turn_hub t) = latest_full h → turn_effect h t.
Proof. intros Es El f' Ef px py c Hp Hc. right. rewrite Es, <- El. split; [done|]. by exists f'. Qed.

(** The size a frame announces. *)
Definition frame_size (raw : RawFrame) : DesktopSize :=
  {| desk_width := as_u16 (raw_width raw); desk_height := as_u16 (raw_height raw) |}.

Lemma frame_size_eq w h raw u : full_frame w h u → raw_width raw = w → raw_height raw = h →
  frame_size raw = {| desk_width := w; desk_height := h |}.
Proof. intros Hu Ew Eh. unfold frame_size. rewrite Ew, Eh. pose proof (full_w _ _ _ Hu). pose proof (full_h _ _ _ Hu). by rewrite !as_u16_id by lia. Qed.

Lemma on_frame_publish (h : DisplayHub C) img0 u raw :
  hub_inv h img0 → honest (hub_previous h) u raw → raw_unchanged raw = false → frame_size raw = negotiated_size h →
  ∃ t, on_frame h raw = Ok t ∧ hub_tx (turn_hub t) = hub_tx h ∧ latest_full (turn_hub t) = Some u
    ∧ negotiated_size (turn_hub t) = negotiated_size h
    ∧ hub_previous (turn_hub t) = Some u ∧ turn_effect h t.
Proof.
  intros Hinv Hh Hun Hsz. pose proof (honest_image _ _ _ Hh) as Hu. pose proof (honest_data _ _ _ Hh Hun) as Eu.
  destruct (turn_dirty_spec h u raw) as (rects & Er & Hr & Ha); [by intros f; eapply hub_inv_prev|done..|].
  pose proof (merged_effect _ _ u _ rects Hu Hr Ha) as Hm.
  unfold on_frame. fold (frame_size raw). cbn [with_monitors with_failures negotiated_size]. rewrite Hsz, bool_decide_eq_false_2 by (intros H; by apply H).
  rewrite Hun. unfold non_zero_u16. pose proof (full_w _ _ _ Hu) as Hw. pose proof (full_h _ _ _ Hu) as Hh'.
  rewrite !as_u16_id by lia. rewrite !(proj2 (Z.eqb_neq _ 0)); [|destruct (full_stride _ _ _ Hu); rewrite Eu in *; cbn in *; lia|lia..].
  change (turn_dirty_rects (with_monitors _ _) raw) with (turn_dirty_rects h raw). rewrite Er. cbn [mbind res_bind].
  rewrite Eu in Hm |- *. unfold whole_frame in *. eexists. split; [done|]. do 4 (split; [done|]).
  intros f' [= <-] px py c Hp Hc. cbn [turn_send].
  destruct (Hm px py c Hp Hc) as [(b & Eb & Hb & Epx)|[Hb Hf]]; rewrite ?Eb.
  - left. exists (DBitmap b). split; [done|]. split; [done|]. intros cv. cbn. unfold paint. by rewrite decide_True.
  - right. split; [|by rewrite <- (proj1 Hinv)].
    intros m. destruct (foldl _ _ _) as [b|]; [|done]. intros [= <-]. by apply Hb.
Qed.

Lemma on_frame_spec (h : DisplayHub C) img0 u raw :
  hub_inv h img0 → honest (hub_previous h) u raw →
  ∃ t, on_frame h raw = Ok t ∧ hub_tx (turn_hub t) = hub_tx h ∧ hub_inv (turn_hub t) (Some u) ∧ turn_effect h t
    ∧ (frame_size raw = negotiated_size h → is_Some (latest_full (turn_hub t))).
Proof.
  intros Hinv Hh. pose proof (honest_image _ _ _ Hh) as Hu.
  pose proof (frame_size_eq _ _ raw u Hu eq_refl eq_refl) as Esz.
  destruct (decide (frame_size raw = negotiated_size h)) as [Hsz|Hsz]; [destruct (raw_unchanged raw) eqn:Hun|].
  - unfold on_frame. fold (frame_size raw). cbn [with_monitors with_failures negotiated_size].
    rewrite bool_decide_eq_false_2, Hun by (intros H; by apply H). eexists. split; [done|]. split; [done|].
    destruct (honest_unchanged _ _ _ Hh Hun) as (f & Ef & _ & _ & Hd). destruct Hinv as [Ep Hlat].
    assert (latest_full h = Some f) as El by (by rewrite <- Ep).
    split; [|split; [by apply still_effect|by intros _; exists f]]. split; [done|]. intros f' Ef'. cbn in Ef' |- *.
    rewrite El in Ef'. injection Ef' as <-. split; [by apply Hlat|]. exists u. split; [done|].
    rewrite <- Hsz, Esz. split; [done|]. by apply differ_nowhere.
  - destruct (on_frame_publish h img0 u raw) as (t & Et & Etx & El & En & Ep & He); [done..|].
    exists t. split; [done|]. split; [done|]. split; [|split; [done|by intros _; rewrite El]].
    split; [by rewrite Ep, El|]. rewrite El, En, <- Hsz, Esz. intros f' [= <-]. split; [done|]. by exists u.
  - unfold on_frame. fold (frame_size raw). cbn [with_monitors with_failures negotiated_size].
    rewrite bool_decide_eq_true_2 by done. eexists. split; [done|]. by split_and!.
Qed.

Lemma capture_turn_spec (h : DisplayHub C) result old new :
  hub_inv h old → honest_result h result old new →
  ∃ t, capture_turn h result = Ok t ∧ hub_tx (turn_hub t) = hub_tx h ∧ hub_inv (turn_hub t) new ∧ turn_effect h t
    ∧ (∀ raw, result = Captured raw → frame_size raw = negotiated_size h → is_Some (latest_full (turn_hub t))).
Proof.
  intros Hinv Hres. destruct result as [raw| |failed]; cbn in Hres |- *.
  - destruct Hres as (u & -> & Hh). destruct (on_frame_spec h old u raw Hinv Hh) as (t & ? & ? & ? & ? & ?).
    exists t. split_and!; [done..|]. by intros raw' [= <-].
  - subst new. eexists. split_and!; [done..| |done]. by apply still_effect.
  - subst new. eexists. split; [done|]. assert (∀ n h' s w, hub_inv h' old → latest_full h' = latest_full h → hub_tx h' = hub_tx h →
      let t := reopen n h' s w in hub_tx (turn_hub t) = hub_tx h ∧ hub_inv (turn_hub t) old
      ∧ latest_full (turn_hub t) = latest_full h ∧ turn_send t = None) as Hre.
    { induction n as [|n IH]; intros h' s w Hi El Etx; cbn; [done|]. by apply IH. }
    destruct (Hre failed h [] true Hinv eq_refl eq_refl) as (? & ? & ? & ?). split_and!; [done..| |done]. by apply still_effect.
Qed.
End turn.

(** ** The hub and one of its sessions *)

Section system.
Context {C R : Type} `{!Broadcast DisplayUpdate C R}.

(** A session: its reader, whether it has lagged and is about to look at the latest frame, and what
    it has painted. *)
Record Session := { reader : DisplayUpdates R; lagging : bool; screen : canvas }.

(** The hub; what the capture loop is about to broadcast; the desktop captured last; the frame a new
    session has seen while it joins, with the lock on the latest frame; and the session, once it has
    subscribed. *)
Record sys := {
  s_hub : DisplayHub C; outbox : option DisplayUpdate; desktop : option BitmapUpdate;
  joining : option (option BitmapUpdate); session : option Session }.

Definition sys_start (width height : Z) (scale : Z * Z) (monitors : list MonitorLayoutEntry) : sys :=
  {| s_hub := DisplayHub_start width height scale monitors; outbox := None; desktop := None; joining := None;
     session := None |}.

(** A turn of the capture loop that writes the latest frame needs its lock. *)
Definition has_lock (j : option (option BitmapUpdate)) (h : DisplayHub C) (t : Turn C) : Prop :=
  j = None ∨ latest_full (turn_hub t) = latest_full h.

(** The session gets to where [next_update] returns, waits, has lagged, or has looked at the latest
    frame after a lag. *)
Definition session_poll (h : DisplayHub C) (se : Session) : Session :=
  if lagging se then
    {| reader := reader se; lagging := false;
       screen := match after_lag h with Some u => apply_update (screen se) u | None => screen se end |}
  else
    let '(p, d) := poll (hub_tx h) (reader se) in
    {| reader := d; lagging := match p with HasLagged => true | _ => false end;
       screen := match p with Returns (Some u) => apply_update (screen se) u | _ => screen se end |}.

Definition waiting (h : DisplayHub C) (se : Session) : Prop :=
  lagging se = false ∧ (poll (hub_tx h) (reader se)).1 = Waits.

Inductive hub_step : sys → sys → Prop :=
  | step_capture h img img' result t j se :
      honest_result h result img img' → capture_turn h result = Ok t → has_lock j h t →
      hub_step {| s_hub := h; outbox := None; desktop := img; joining := j; session := se |}
               {| s_hub := turn_hub t; outbox := turn_send t; desktop := img'; joining := j; session := se |}
  | step_broadcast h m img j se :
      hub_step {| s_hub := h; outbox := Some m; desktop := img; joining := j; session := se |}
               {| s_hub := broadcast h (Some m); outbox := None; desktop := img; joining := j; session := se |}
  | step_look h o img :
      hub_step {| s_hub := h; outbox := o; desktop := img; joining := None; session := None |}
               {| s_hub := h; outbox := o; desktop := img; joining := Some (subscribe_look h); session := None |}
  | step_join h o img first :
      hub_step {| s_hub := h; outbox := o; desktop := img; joining := Some first; session := None |}
               {| s_hub := (subscribe_join h first).1; outbox := o; desktop := img; joining := None;
                  session := Some {| reader := (subscribe_join h first).2; lagging := false; screen := blank |} |}
  | step_other_subscribes h o img j se :
      hub_step {| s_hub := h; outbox := o; desktop := img; joining := j; session := se |}
               {| s_hub := (subscribe h).1; outbox := o; desktop := img; joining := j; session := se |}
  | step_poll h o img j se :
      hub_step {| s_hub := h; outbox := o; desktop := img; joining := j; session := Some se |}
               {| s_hub := h; outbox := o; desktop := img; joining := j; session := Some (session_poll h se) |}.

(** What the session has yet to read. *)
Context `{!BroadcastLaws DisplayUpdate C R}.

Definition ahead (h : DisplayHub C) (o : option DisplayUpdate) (se : Session) : list DisplayUpdate :=
  option_list (DBitmap <$> initial (reader se)) ++ unread (hub_tx h) (rx (reader se)) ++ option_list o.

Definition session_inv (h : DisplayHub C) (o : option DisplayUpdate) (se : Session) : Prop :=
  live (hub_tx h) (rx (reader se)) ∧ (lagging se = true → initial (reader se) = None)
  ∧ ∀ f, latest_full h = Some f → ∀ px py c, in_update f px py → 0 ≤ c < 4 →
      tracks (ahead h o se) (lagging se) (screen se) px py c (pixel_byte f px py c).

(** What is about to be broadcast is of the latest frame. *)
Definition outbox_inv (h : DisplayHub C) (o : option DisplayUpdate) : Prop :=
  ∀ f m, latest_full h = Some f → o = Some m → ∀ px py c, in_update f px py → 0 ≤ c < 4 →
    touches m px py → ∀ cv, apply_update cv m px py c = pixel_byte f px py c.

Record sys_inv (s : sys) : Prop := {
  inv_hub : hub_inv (s_hub s) (desktop s);
  inv_outbox : outbox_inv (s_hub s) (outbox s);
  inv_joining first : joining s = Some first → first = latest_full (s_hub s);
  inv_session se : session s = Some se → session_inv (s_hub s) (outbox s) se }.

Lemma turn_session (h : DisplayHub C) t se :
  turn_effect h t → hub_tx (turn_hub t) = hub_tx h → session_inv h None se → session_inv (turn_hub t) (turn_send t) se.
Proof.
  intros He Etx (Hl & Hi & Ht). split; [by rewrite Etx|]. split; [done|]. intros f' Ef' px py c Hp Hc.
  unfold ahead. rewrite Etx. assert (ahead h None se = option_list (DBitmap <$> initial (reader se)) ++ unread (hub_tx h) (rx (reader se))) as Ea
    by (unfold ahead; cbn; by rewrite app_nil_r).
  rewrite app_assoc, <- Ea. destruct (He f' Ef' px py c Hp Hc) as [(m & -> & Htouch & Hv)|[Hmiss (f & Ef & Hpf & Epx)]].
  - by apply tracks_snoc_touch.
  - rewrite <- Epx. destruct (turn_send t) as [m|]; cbn; [|rewrite app_nil_r; by apply Ht].
    apply tracks_snoc_miss; [by apply Hmiss|by apply Ht].
Qed.

Lemma turn_outbox (h : DisplayHub C) t : turn_effect h t → outbox_inv (turn_hub t) (turn_send t).
Proof.
  intros He f m Ef Em px py c Hp Hc Htouch cv.
  destruct (He f Ef px py c Hp Hc) as [(m' & Em' & _ & Hv)|[Hmiss _]]; [|by destruct (Hmiss m)].
  rewrite Em in Em'. injection Em' as <-. apply Hv.
Qed.

Lemma subscribe_session (h : DisplayHub C) o :
  outbox_inv h o → session_inv (subscribe h).1 o {| reader := (subscribe h).2; lagging := false; screen := blank |}.
Proof.
  intros Ho. unfold subscribe, subscribe_join, subscribe_look. pose proof (subscribe_law (hub_tx h)) as Hlaw.
  destruct (b_subscribe (hub_tx h)) as [tx r]. destruct Hlaw as [Hl Hu]. split; [done|]. split; [done|].
  intros f Ef px py c Hp Hc. cbn in Ef. unfold ahead. cbn. rewrite Hu, Ef. cbn.
  assert (tracks [DBitmap f] false blank px py c (pixel_byte f px py c)) as H1.
  { apply (tracks_snoc_touch px py c _ [] false blank (DBitmap f)); [done|]. intros cv. cbn. unfold paint. by rewrite decide_True. }
  destruct o as [m|]; cbn; [|done]. destruct (decide (touches m px py)) as [Hm|Hm].
  - apply (tracks_snoc_touch px py c _ [DBitmap f]); [done|]. intros cv. by apply (Ho f m).
  - by apply (tracks_snoc_miss px py c _ [DBitmap f]).
Qed.

Lemma poll_session (h : DisplayHub C) o se : session_inv h o se → session_inv h o (session_poll h se).
Proof.
  intros (Hl & Hi & Ht). unfold session_poll. destruct se as [[ini r] lag cv]. cbn in *. destruct lag.
  { split; [done|]. split; [done|]. intros f Ef px py c Hp Hc. cbn [lagging reader screen]. unfold after_lag. rewrite Ef.
    specialize (Ht f Ef px py c Hp Hc). eapply tracks_resync; [exact Ht|]. cbn. unfold paint. by rewrite decide_True. }
  unfold poll. cbn [initial rx]. destruct ini as [f0|]; cbn.
  { split; [done|]. split; [done|]. intros f Ef px py c Hp Hc. apply (tracks_read px py c _ _ _ (DBitmap f0)). by apply Ht. }
  pose proof (recv_law (hub_tx h) r Hl) as Hlaw. unfold ahead in Ht. cbn in Ht.
  destruct (b_recv (hub_tx h) r) as [got r']. destruct got as [u|n| |]; cbn in Hlaw |- *; [| | |done].
  - destruct Hlaw as [Hl' Hu]. split; [done|]. split; [done|]. intros f Ef px py c Hp Hc. unfold ahead. cbn.
    apply tracks_read. specialize (Ht f Ef px py c Hp Hc). by rewrite Hu in Ht.
  - destruct Hlaw as (Hl' & Hn & Hu). split; [done|]. split; [done|]. intros f Ef px py c Hp Hc. unfold ahead. cbn.
    specialize (Ht f Ef px py c Hp Hc). rewrite Hu, <- drop_app_le by lia. by eapply tracks_drop.
  - destruct Hlaw as [-> Hu]. by split.
Qed.

Lemma subscribe_latest (h : DisplayHub C) first : latest_full (subscribe_join h first).1 = latest_full h.
Proof. unfold subscribe_join. by destruct (b_subscribe (hub_tx h)). Qed.

Lemma sys_step_inv s s' : hub_step s s' → sys_inv s → sys_inv s'.
Proof.
  intros Hstep [Hh Ho Hj Hse].
  destruct Hstep as [h img img' result t j se Hres Et Hlock|h m img j se|h o img|h o img first|h o img j se|h o img j se];
    cbn in *.
  - destruct (capture_turn_spec h result img img' Hh Hres) as (t' & Et' & Etx & Hi & He & _).
    rewrite Et in Et'. injection Et' as <-. split; [done|by eapply turn_outbox|cbn|].
    + intros first E. destruct Hlock as [->|El]; [done|]. rewrite El. by apply Hj.
    + intros se' E. cbn in E |- *. eapply turn_session; [done..|]. by apply Hse.
  - split; [done|by intros f m'|done|]. intros se' E. cbn in E |- *. destruct (Hse se' E) as (Hl & Hi & Ht).
    destruct (send_law (hub_tx h) (rx (reader se')) m Hl) as [Hl' Hu]. split; [done|]. split; [done|].
    intros f Ef px py c Hp Hc. unfold ahead. cbn. rewrite Hu, app_nil_r. by apply Ht.
  - split; [done|done| |done]. cbn. by intros first [= <-].
  - rewrite (Hj first eq_refl). split; cbn; [..|done|intros se [= <-]; by apply subscribe_session];
      unfold subscribe_join; destruct (b_subscribe _); [exact Hh|exact Ho].
  - split; cbn; [| |intros first E; etrans; [by apply Hj|symmetry; apply subscribe_latest]|];
      try (unfold subscribe, subscribe_join; destruct (b_subscribe _); assumption).
    intros se' E. destruct (Hse se' E) as (Hl & Hi & Ht). pose proof (subscribe_other (hub_tx h) (rx (reader se')) Hl) as Hlaw.
    unfold subscribe, subscribe_join. destruct (b_subscribe (hub_tx h)) as [tx r]. destruct Hlaw as [Hl' Hu]. cbn in *.
    split; [done|]. split; [done|].
    intros f Ef px py c Hp Hc. unfold ahead. cbn. rewrite Hu. by apply Ht.
  - split; [done..|]. intros se' [= <-]. by apply poll_session, Hse.
Qed.

Definition reads_left (h : DisplayHub C) (se : Session) : nat :=
  (2 * length (ahead h None se) + if lagging se then 1 else 0)%nat.

(** A session that does not wait gets somewhere. *)
Lemma session_poll_progress (h : DisplayHub C) se :
  live (hub_tx h) (rx (reader se)) → waiting h se ∧ ahead h None se = []
  ∨ (reads_left h (session_poll h se) < reads_left h se)%nat.
Proof.
  intros Hl. destruct se as [[ini r] lag cv]. unfold waiting, reads_left, ahead, session_poll. cbn in *.
  destruct lag; [right; cbn; lia|]. unfold poll. cbn. destruct ini as [f0|]; [right; cbn; lia|].
  pose proof (recv_law (hub_tx h) r Hl) as Hlaw. destruct (b_recv (hub_tx h) r) as [got r'].
  destruct got as [u|n| |]; cbn in Hlaw |- *; rewrite !app_nil_r; [right|right|left|done].
  - destruct Hlaw as [_ ->]. cbn. lia.
  - destruct Hlaw as (_ & Hn & ->). rewrite length_drop. lia.
  - by destruct Hlaw as [-> ->].
Qed.

Lemma session_drains (h : DisplayHub C) se :
  session_inv h None se →
  ∃ n, let se' := Nat.iter n (session_poll h) se in session_inv h None se' ∧ waiting h se' ∧ ahead h None se' = [].
Proof.
  remember (reads_left h se) as k eqn:Ek. revert se Ek.
  induction k as [k IH] using lt_wf_ind. intros se Ek Hinv.
  destruct (session_poll_progress h se (proj1 Hinv)) as [[Hw Ha]|Hlt]; [by exists 0%nat|].
  destruct (IH (reads_left h (session_poll h se)) ltac:(lia) _ eq_refl (poll_session _ _ _ Hinv)) as (n & Hn).
  exists (S n). by rewrite Nat.iter_succ_r.
Qed.

Lemma drained_shows (h : DisplayHub C) se f :
  session_inv h None se → waiting h se → ahead h None se = [] → latest_full h = Some f → shows (screen se) f.
Proof.
  intros (_ & _ & Ht) [Hlag _] Ha Ef px py c Hp Hc. specialize (Ht f Ef px py c Hp Hc).
  rewrite Ha, Hlag in Ht. by apply (tracks_done px py c).
Qed.

Lemma hub_reachable_inv width height scale monitors s : rtc hub_step (sys_start width height scale monitors) s → sys_inv s.
Proof.
  intros Hr. assert (sys_inv (sys_start width height scale monitors)) as H0 by (split; [by split|done..]).
  revert H0. induction Hr as [|s1 s2 s3 Hs _ IH]; [done|]. intros H1. by eapply IH, sys_step_inv.
Qed.

(** C13. Every session ends up with the desktop.  Start the hub and let captures (of frames that are
    what they say, errors, and panics with any number of failed reopenings), broadcasts, other
    subscriptions, the two steps of a session's own (it looks at the latest frame, then joins the
    channel, with broadcasts and captures in between that need not write the latest frame, whose lock
    it holds) and its reads interleave in any way, with the channel losing the oldest updates of a
    session that falls behind.  No turn of the capture loop fails, and one
    that captures a frame of the announced size leaves a latest frame.  A session, once nothing is
    left to broadcast, comes to wait after finitely many reads; it then shows the latest frame, and
    that is the desktop captured last. *)
Theorem sessions_follow_desktop width height scale monitors s :
  rtc hub_step (sys_start width height scale monitors) s →
  (∀ result img, honest_result (s_hub s) result (desktop s) img →
     ∃ t, capture_turn (s_hub s) result = Ok t
     ∧ ∀ raw, result = Captured raw → frame_size raw = negotiated_size (s_hub s) → is_Some (latest_full (turn_hub t)))
  ∧ ∀ se, session s = Some se → outbox s = None →
     ∃ n, let se' := Nat.iter n (session_poll (s_hub s)) se in
       waiting (s_hub s) se'
       ∧ ∀ f, latest_full (s_hub s) = Some f → shows (screen se') f ∧ ∃ u, desktop s = Some u ∧ shows (screen se') u.
Proof.
  intros Hr. destruct (hub_reachable_inv _ _ _ _ _ Hr) as [Hh _ _ Hse]. split.
  - intros result img Hres. destruct (capture_turn_spec _ _ _ _ Hh Hres) as (t & ? & _ & _ & _ & ?). by exists t.
  - intros se Ese Eo. specialize (Hse se Ese). rewrite Eo in Hse. destruct (session_drains _ _ Hse) as (n & Hi & Hw & Ha).
    exists n. split; [done|]. intros f Ef. pose proof (drained_shows _ _ f Hi Hw Ha Ef) as Hs. split; [done|].
    destruct Hh as [_ Hlat]. destruct (Hlat f Ef) as (Hf & u & Eu & Hu & Hsame). exists u. split; [done|].
    intros px py c Hp Hc. rewrite <- Hsame by done. apply Hs; [|done].
    eapply full_in_update; [exact Hf|]. by eapply full_in_update in Hp.
Qed.
End system.
Arguments Session R : clear implicits.
Arguments sys C R : clear implicits.

(** ** A channel that keeps its promise *)

Record Chan := { c_sent : list DisplayUpdate; c_capacity : nat; c_receivers : nat }.

Global Instance chan_broadcast : Broadcast DisplayUpdate Chan nat := {
  b_channel capacity := {| c_sent := []; c_capacity := Z.to_nat capacity; c_receivers := 0 |};
  b_send ch v := match c_receivers ch with
                 | O => ch
                 | _ => {| c_sent := c_sent ch ++ [v]; c_capacity := c_capacity ch; c_receivers := c_receivers ch |}
                 end;
  b_subscribe ch := ({| c_sent := c_sent ch; c_capacity := c_capacity ch; c_receivers := S (c_receivers ch) |},
                     length (c_sent ch));
  b_recv ch r :=
    match drop r (c_sent ch) with
    | [] => (Empty, r)
    | v :: rest =>
      let lost := (length (v :: rest) - c_capacity ch)%nat in
      match lost with O => (Received v, S r) | _ => (Lagged lost, (r + lost)%nat) end
    end }.

Global Instance chan_laws : BroadcastLaws DisplayUpdate Chan nat.
Proof.
  refine {| unread ch r := drop r (c_sent ch); live ch r := c_receivers ch ≠ 0%nat ∧ (r ≤ length (c_sent ch))%nat |}; cbn.
  - intros ch. split; [lia|]. by apply drop_ge.
  - intros ch r [? ?]. by split_and!.
  - intros ch r v [Hn Hr]. destruct (c_receivers ch) as [|n]; [done|]. cbn. rewrite length_app.
    split; [split; [done|lia]|]. by apply drop_app_le.
  - intros ch r [Hn Hr]. destruct (drop r (c_sent ch)) as [|v rest] eqn:E; [done|].
    assert (length (c_sent ch) - r = S (length rest))%nat as El by (rewrite <- length_drop, E; done).
    destruct (S (length rest) - c_capacity ch)%nat as [|n] eqn:En.
    + split; [split; [done|lia]|]. replace (S r) with (r + 1)%nat by lia. by rewrite <- drop_drop, E.
    + split; [split; [done|lia]|]. split; [cbn; lia|]. by rewrite <- drop_drop, E.
Defined.

(** ** Runs *)

(** A frame without rectangles of a desktop one row high. *)
Definition row_frame (w : Z) (data : bytes) : RawFrame :=
  {| raw_width := w; raw_height := 1; raw_stride := 4 * w; raw_data := data; force_full := false;
     raw_monitors := []; raw_unchanged := false; raw_dirty_rects := None |}.

Definition three_raw (a b c : Z) : RawFrame := row_frame 3 (bm_data (three_pixels a b c)).

Lemma three_raw_honest prev a b c : honest prev (three_pixels a b c) (three_raw a b c).
Proof. by split. Qed.

Abbreviation small_hub := (DisplayHub_start (C := Chan) 3 1 (3, 1) []).

(** A session that subscribes after a first capture, and sees a second one. *)
Definition followed : option (sys Chan nat) :=
  match capture_turn small_hub (Captured (three_raw 1 2 3)) with
  | Ok t1 =>
    let h1 := broadcast (turn_hub t1) (turn_send t1) in
    let h2 := (subscribe h1).1 in
    match capture_turn h2 (Captured (three_raw 1 5 3)) with
    | Ok t2 => Some {| s_hub := broadcast (turn_hub t2) (turn_send t2); outbox := None; desktop := Some (three_pixels 1 5 3); joining := None;
                       session := Some {| reader := (subscribe h1).2; lagging := false; screen := blank |} |}
    | _ => None
    end
  | _ => None
  end.

Lemma followed_reachable s : followed = Some s → rtc hub_step (sys_start 3 1 (3, 1) []) s.
Proof.
  unfold followed. destruct (capture_turn small_hub (Captured (three_raw 1 2 3))) as [t1| |] eqn:E1; [|done..].
  pose proof E1 as E1'. vm_compute in E1'. injection E1' as Et1.
  destruct (capture_turn _ (Captured (three_raw 1 5 3))) as [t2| |] eqn:E2; [|done..].
  pose proof E2 as E2'. rewrite <- Et1 in E2'. vm_compute in E2'. injection E2' as Et2. intros [= <-].
  eapply rtc_l. { eapply (step_capture small_hub None (Some (three_pixels 1 2 3))); [|exact E1|by left].
    eexists. split; [done|]. apply three_raw_honest. }
  assert (∃ m, turn_send t1 = Some m) as [m1 Em1] by (rewrite <- Et1; by eexists). rewrite Em1.
  eapply rtc_l; [apply step_broadcast|].
  eapply rtc_l; [apply step_look|]. eapply rtc_l; [apply step_join|].
  eapply rtc_l. { rewrite <- Em1. eapply step_capture; [|exact E2|by left].
    exists (three_pixels 1 5 3). split; [done|]. apply three_raw_honest. }
  assert (∃ m, turn_send t2 = Some m) as [m2 Em2] by (rewrite <- Et2; by eexists). rewrite Em2, Em1.
  eapply rtc_l; [apply step_broadcast|apply rtc_refl].
Qed.

Lemma sessions_follow_desktop_witness :
  ∃ s se, followed = Some s ∧ session s = Some se ∧
  ∃ n, shows (screen (Nat.iter n (session_poll (s_hub s)) se)) (three_pixels 1 5 3).
Proof.
  destruct followed as [s|] eqn:Es; [|vm_compute in Es; discriminate Es].
  destruct (sessions_follow_desktop 3 1 (3, 1) [] s (followed_reachable s Es)) as [_ Hs].
  vm_compute in Es. injection Es as <-. eexists _, _. split; [reflexivity|]. split; [reflexivity|].
  destruct (Hs _ eq_refl eq_refl) as (n & _ & Hf). exists n. exact (proj1 (Hf _ eq_refl)).
Defined.

(** The lock matters: if a frame could be published between the two steps, it would reach the new
    session neither way, and the session would wait for the next change. *)
Lemma unlocked_look_would_miss_a_frame :
  ∃ h, run_capture_loop small_hub [Captured (three_raw 1 2 3)] = Ok h
  ∧ latest_full h = Some (three_pixels 1 2 3)
  ∧ (let '(h', d) := subscribe_join h (subscribe_look small_hub) in (poll (hub_tx h') d).1) = Waits.
Proof. eexists. split; [vm_compute; reflexivity|]. by split. Qed.

(** The size is read before the handshake, and the session subscribes after it: it is not told of a
    desktop that was resized in between. *)
Lemma resize_before_subscribe_is_silent :
  ∃ h, run_capture_loop small_hub (replicate 2 (Captured (row_frame 4 (replicate 16 7)))) = Ok h
  ∧ Display_size small_hub = {| desk_width := 3; desk_height := 1 |}
  ∧ Display_size h = {| desk_width := 4; desk_height := 1 |}
  ∧ ∃ full d, next_update 2 (subscribe h).1 (subscribe h).2 = (Returns (Some (DBitmap full)), d)
    ∧ bm_width full = 4 ∧ (next_update 2 (subscribe h).1 d).1 = Waits.
Proof. eexists. split; [vm_compute; reflexivity|]. do 2 (split; [reflexivity|]). eexists _, _. by split. Qed.

(** The size of a frame is compared before it is found to be empty: sessions are told that the
    desktop has no pixels. *)
Lemma zero_frame_resizes :
  ∃ t, capture_turn small_hub (Captured (row_frame 0 [])) = Ok t
  ∧ turn_send t = Some (DResized {| desk_width := 0; desk_height := 1 |}) ∧ turn_warns t = false.
Proof. eexists. split; [vm_compute; reflexivity|]. by split. Qed.
