(* ===== verification/ClipboardHost.v ===== *)
(** [kmsrdp/src/clipboard.rs]: the clipboard of the host behind the clipboard channels of the
    sessions: the backend of each channel, the worker that owns the connection to the host's
    clipboard, and the watcher that tells the sessions of changes.

    The crate arboard is the class [Arboard].  The backend's calls are pure and leave [effects]: a
    message sent, or a task spawned; [clip_step] interleaves the tasks, the worker, the watcher and
    the sessions.  The X11 calls of [xfixes_selection_loop] are the events it handles. *)
From S2P Require Import Prelude Cursor Utf Svc Cliprdr.
From stdpp Require Import relations.
Open Scope Z_scope.

Inductive ClipboardMode := Bidirectional | HostToClient | ClientToHost | Disabled.
Global Instance ClipboardMode_eq_dec : EqDecision ClipboardMode.
Proof. solve_decision. Defined.

Definition allows_host_to_client (m : ClipboardMode) : bool :=
  match m with Bidirectional | HostToClient => true | _ => false end.
Definition allows_client_to_host (m : ClipboardMode) : bool :=
  match m with Bidirectional | ClientToHost => true | _ => false end.
Definition is_disabled (m : ClipboardMode) : bool := match m with Disabled => true | _ => false end.

Definition CF_TEXT : Z := 1.
Definition CF_OEMTEXT : Z := 7.
Definition is_text_format (id : Z) : bool := (id =? CF_TEXT) || (id =? CF_OEMTEXT) || (id =? CF_UNICODETEXT).

Definition select_text_format (formats : list ClipboardFormat) : option Z :=
  if existsb (λ f, cf_id f =? CF_UNICODETEXT) formats then Some CF_UNICODETEXT
  else if existsb (λ f, cf_id f =? CF_TEXT) formats then Some CF_TEXT
  else if existsb (λ f, cf_id f =? CF_OEMTEXT) formats then Some CF_OEMTEXT
  else None.

Definition unicode_text : ClipboardFormat := {| cf_id := CF_UNICODETEXT |}.

(** ** The backend of a session *)

(** What a call of the backend leaves to do: a message for the session loop, and the tasks that
    request a paste after a delay, read the host's clipboard, or write it. *)
Inductive Effect :=
  | Send (m : ClipboardMessage)
  | PasteLater (millis : Z) (format_id : Z)
  | ReadHost
  | WriteHost (text : rstring).

Record LocalClipboardBackend := {
  mode : ClipboardMode; remote_text_format : option Z; delay_first_paste : bool; effects : list Effect }.

Definition LocalClipboardBackend_new (m : ClipboardMode) : LocalClipboardBackend :=
  {| mode := m; remote_text_format := None; delay_first_paste := true; effects := [] |}.

Definition emit (b : LocalClipboardBackend) (e : Effect) : LocalClipboardBackend :=
  {| mode := mode b; remote_text_format := remote_text_format b; delay_first_paste := delay_first_paste b;
     effects := effects b ++ [e] |}.
Definition set_format (b : LocalClipboardBackend) (f : option Z) : LocalClipboardBackend :=
  {| mode := mode b; remote_text_format := f; delay_first_paste := delay_first_paste b; effects := effects b |}.
Definition clear_effects (b : LocalClipboardBackend) : LocalClipboardBackend :=
  {| mode := mode b; remote_text_format := remote_text_format b; delay_first_paste := delay_first_paste b; effects := [] |}.

(** In milliseconds. *)
Definition paste_delay (b : LocalClipboardBackend) : LocalClipboardBackend * option Z :=
  match remote_text_format b with
  | None => (b, None)
  | Some _ =>
    if delay_first_paste b then
      ({| mode := mode b; remote_text_format := remote_text_format b; delay_first_paste := false; effects := effects b |},
       Some 500)
    else (b, Some 0)
  end.

Definition local_on_ready (b : LocalClipboardBackend) : LocalClipboardBackend :=
  if allows_host_to_client (mode b) then emit b (Send (SendInitiateCopy [unicode_text])) else b.

Definition local_on_remote_copy (b : LocalClipboardBackend) (formats : list ClipboardFormat) : LocalClipboardBackend :=
  if negb (allows_client_to_host (mode b)) then b
  else
    let b := set_format b (select_text_format formats) in
    match remote_text_format b with
    | None => b
    | Some format_id =>
      let '(b, delay) := paste_delay b in
      match delay with
      | None => b
      | Some delay => emit b (if delay =? 0 then Send (SendInitiatePaste format_id) else PasteLater delay format_id)
      end
    end.

Definition local_on_format_data_request (b : LocalClipboardBackend) (format : Z) : LocalClipboardBackend :=
  if negb (allows_host_to_client (mode b)) || negb (is_text_format format)
  then emit b (Send (SendFormatData new_error))
  else emit b ReadHost.

Definition local_on_format_data_response (b : LocalClipboardBackend) (response : FormatDataStatus) : LocalClipboardBackend :=
  if negb (allows_client_to_host (mode b)) || match response with Failed => true | _ => false end then b
  else match to_unicode_string response with Some text => emit b (WriteHost text) | None => b end.

Global Instance local_backend : CliprdrBackend LocalClipboardBackend := {
  on_ready := local_on_ready;
  on_remote_copy := local_on_remote_copy;
  on_format_data_request := local_on_format_data_request;
  on_format_data_response := local_on_format_data_response }.

(** ** The host *)

(** The crate arboard, over the state [W] of the host's clipboard: connect, set the text, read it. *)
Class Arboard (W : Type) := {
  cb_new : W → bool * W;
  cb_set_text : W → rstring → bool * W;
  cb_get_text : W → option rstring * W }.

Inductive ClipboardReq := SetText (text : rstring) | ResetSession.

Definition MAX_HOST_CLIPBOARD_BYTES : Z := 1024 * 1024.

Section host.
Context {W : Type} `{!Arboard W}.

(** The queues of the worker and of the sessions that are there, what the worker has handed to the
    host's clipboard, and the variables of the watcher and of the XFixes thread. *)
Record Host := {
  world : W; connected : bool; requests : list ClipboardReq; writes : list rstring;
  subscribers : list nat; last_written : option rstring; inboxes : gmap nat (list ClipboardMessage);
  last : option rstring; last_advertised : option rstring }.

Definition set_worker (h : Host) (w : W) (c : bool) (ws : list rstring) : Host :=
  {| world := w; connected := c; requests := requests h; writes := ws; subscribers := subscribers h;
     last_written := last_written h; inboxes := inboxes h; last := last h; last_advertised := last_advertised h |}.
Definition set_requests (h : Host) (r : list ClipboardReq) : Host :=
  {| world := world h; connected := connected h; requests := r; writes := writes h; subscribers := subscribers h;
     last_written := last_written h; inboxes := inboxes h; last := last h; last_advertised := last_advertised h |}.
Definition set_subscribers (h : Host) (s : list nat) : Host :=
  {| world := world h; connected := connected h; requests := requests h; writes := writes h; subscribers := s;
     last_written := last_written h; inboxes := inboxes h; last := last h; last_advertised := last_advertised h |}.
Definition set_inboxes (h : Host) (i : gmap nat (list ClipboardMessage)) : Host :=
  {| world := world h; connected := connected h; requests := requests h; writes := writes h; subscribers := subscribers h;
     last_written := last_written h; inboxes := i; last := last h; last_advertised := last_advertised h |}.
Definition set_last_written (h : Host) (t : option rstring) : Host :=
  {| world := world h; connected := connected h; requests := requests h; writes := writes h; subscribers := subscribers h;
     last_written := t; inboxes := inboxes h; last := last h; last_advertised := last_advertised h |}.
Definition set_last (h : Host) (t : option rstring) : Host :=
  {| world := world h; connected := connected h; requests := requests h; writes := writes h; subscribers := subscribers h;
     last_written := last_written h; inboxes := inboxes h; last := t; last_advertised := last_advertised h |}.
Definition set_last_advertised (h : Host) (t : option rstring) : Host :=
  {| world := world h; connected := connected h; requests := requests h; writes := writes h; subscribers := subscribers h;
     last_written := last_written h; inboxes := inboxes h; last := last h; last_advertised := t |}.

(** A connection, when there is none. *)
Definition connect (w : W) (c : bool) : W * bool :=
  if c then (w, c) else let '(ok, w) := cb_new w in (w, ok).

(** The worker on a request. *)
Definition serve_request (h : Host) (req : ClipboardReq) : Host :=
  match req with
  | SetText text =>
    if MAX_HOST_CLIPBOARD_BYTES <? len (as_bytes text) then h
    else
      let '(w, c) := connect (world h) (connected h) in
      let '(set_ok, w, ws) := (if c then let '(ok, w) := cb_set_text w text in (ok, w, [text]) else (false, w, [])) in
      if set_ok then set_worker h w c (writes h ++ ws)
      else
        let '(c, w) := cb_new w in
        if c then let '(_, w) := cb_set_text w text in set_worker h w c (writes h ++ ws ++ [text])
        else set_worker h w c (writes h ++ ws)
  | ResetSession => set_worker h (world h) false (writes h)
  end.

Definition worker_step (h : Host) : Host :=
  match requests h with
  | [] => h
  | req :: rest => serve_request (set_requests h rest) req
  end.

(** [local_text] waits for the worker, which first serves what was queued before. *)
Definition drain_requests (h : Host) : Host := foldl serve_request (set_requests h []) (requests h).

Definition local_text (h : Host) : Host * option rstring :=
  let h := drain_requests h in
  let '(w, c) := connect (world h) (connected h) in
  let '(text, w) := (if c then cb_get_text w else (None, w)) in
  (set_worker h w c (writes h), text).

Definition set_local_text (h : Host) (text : rstring) : Host := set_requests h (requests h ++ [SetText text]).

(** [UnboundedSender::send]: an error when the session is gone. *)
Definition send_to (h : Host) (id : nat) (m : ClipboardMessage) : bool * Host :=
  match inboxes h !! id with
  | Some q => (true, set_inboxes h (<[id := q ++ [m]]> (inboxes h)))
  | None => (false, h)
  end.

Definition advertise_unicode_formats (h : Host) (id : nat) : bool * Host :=
  send_to h id (SendInitiateCopy [unicode_text]).

(** [subs.retain(advertise_unicode_formats)] *)
Definition advertise_all (h : Host) : Host :=
  let '(h, kept) := foldl (λ '(h, kept) id, let '(ok, h) := advertise_unicode_formats h id in
                             (h, if ok then kept ++ [id] else kept)) (h, []) (subscribers h) in
  set_subscribers h kept.

Definition retain_open (h : Host) : Host :=
  set_subscribers h (filter (λ id, is_Some (inboxes h !! id)) (subscribers h)).

Definition is_nonempty (t : option rstring) : bool := match t with Some (_ :: _) => true | _ => false end.

(** The two-second turn of the watcher. *)
Definition poll_tick (h : Host) (xfixes_active : bool) : Host :=
  let h := retain_open h in
  if bool_decide (subscribers h = []) || xfixes_active then h
  else
    let '(h, current) := local_text h in
    let h := if bool_decide (current ≠ last h) && is_nonempty current
             then if bool_decide (current = last_written h) then h else advertise_all h
             else h in
    set_last h current.

(** The XFixes thread told that the selection has a new owner. *)
Definition on_selection_notify (h : Host) : Host :=
  let h := retain_open h in
  if bool_decide (subscribers h = []) then h
  else
    let '(h, current) := local_text h in
    if is_nonempty current then
      if bool_decide (current = last_written h) then set_last_advertised h current
      else if bool_decide (current ≠ last_advertised h) then advertise_all (set_last_advertised h current)
      else h
    else h.

(** Another login session: the connection is dropped and the XFixes thread replaced. *)
Definition on_session_changed (h : Host) : Host :=
  set_last_advertised (set_last (set_requests h (requests h ++ [ResetSession])) None) None.

(** A spawned task of the session [id]. *)
Definition run_task (h : Host) (id : nat) (e : Effect) : Host :=
  match e with
  | Send m => (send_to h id m).2
  | PasteLater _ format_id => (send_to h id (SendInitiatePaste format_id)).2
  | ReadHost =>
    let '(h, text) := local_text h in
    (send_to h id (SendFormatData match text with Some text => new_unicode_string text | None => new_error end)).2
  | WriteHost text => set_local_text (set_last_written h (Some text)) text
  end.
End host.
Arguments Host W : clear implicits.

(** ** The sessions and the host together *)

Section system.
Context {W : Type} `{!Arboard W}.

(** The channels of the sessions, the tasks that have been spawned, and what went to each client:
    the messages of the session loop, and the frames. *)
Record clip_sys := {
  host : Host W; channels : gmap nat (CliprdrChannel LocalClipboardBackend); tasks : list (nat * Effect);
  told : list (nat * ClipboardMessage); wire : list (nat * bytes) }.

Definition clip_start (w : W) : clip_sys :=
  {| host := {| world := w; connected := false; requests := []; writes := []; subscribers := []; last_written := None;
                inboxes := ∅; last := None; last_advertised := None |};
     channels := ∅; tasks := []; told := []; wire := [] |}.

Definition set_host (s : clip_sys) (h : Host W) : clip_sys :=
  {| host := h; channels := channels s; tasks := tasks s; told := told s; wire := wire s |}.

Definition is_spawned (e : Effect) : bool := match e with Send _ => false | _ => true end.

(** The backend of [id] has been called: its messages are sent, its tasks spawned. *)
Definition settle (s : clip_sys) (id : nat) (ch : CliprdrChannel LocalClipboardBackend) (frames : list bytes) : clip_sys :=
  let es := effects (backend ch) in
  {| host := foldl (λ h e, run_task h id e) (host s) (filter (λ e, is_spawned e = false) es);
     channels := <[id := set_backend ch (clear_effects (backend ch))]> (channels s);
     tasks := tasks s ++ ((id,.) <$> filter (λ e, is_spawned e = true) es);
     told := told s; wire := wire s ++ ((id,.) <$> frames) |}.

(** [build_cliprdr_backend], and the channel over it. *)
Definition open_session (m : ClipboardMode) (s : clip_sys) (id : nat) (channel_id user_id : Z) : clip_sys :=
  let h := host s in
  let h := set_inboxes h (<[id := []]> (inboxes h)) in
  let h := if allows_host_to_client m then set_subscribers h (subscribers h ++ [id]) else h in
  let '(ch, frames) := CliprdrChannel_new channel_id user_id (LocalClipboardBackend_new m) in
  settle (set_host s h) id ch frames.

(** A payload of the client. *)
Definition client_data (s : clip_sys) (id : nat) (ch : CliprdrChannel LocalClipboardBackend) (payload : bytes) : clip_sys :=
  let '(ch, r) := on_channel_data ch payload in
  settle s id ch (match r with Ok frames => frames | _ => [] end).

(** The session loop takes a message out of its queue. *)
Definition forward (s : clip_sys) (id : nat) (ch : CliprdrChannel LocalClipboardBackend) (m : ClipboardMessage)
    (rest : list ClipboardMessage) : clip_sys :=
  {| host := set_inboxes (host s) (<[id := rest]> (inboxes (host s))); channels := channels s; tasks := tasks s;
     told := told s ++ [(id, m)]; wire := wire s ++ ((id,.) <$> encode_message ch m) |}.

Definition close_session (s : clip_sys) (id : nat) : clip_sys :=
  {| host := set_inboxes (host s) (delete id (inboxes (host s))); channels := delete id (channels s); tasks := tasks s;
     told := told s; wire := wire s |}.

Inductive clip_step (m : ClipboardMode) : clip_sys → clip_sys → Prop :=
  | clip_open s id channel_id user_id :
      channels s !! id = None → inboxes (host s) !! id = None → clip_step m s (open_session m s id channel_id user_id)
  | clip_data s id ch payload : channels s !! id = Some ch → clip_step m s (client_data s id ch payload)
  | clip_forward s id ch msg rest :
      channels s !! id = Some ch → inboxes (host s) !! id = Some (msg :: rest) → clip_step m s (forward s id ch msg rest)
  | clip_close s id : clip_step m s (close_session s id)
  | clip_task s id e before after :
      tasks s = before ++ (id, e) :: after →
      clip_step m s {| host := run_task (host s) id e; channels := channels s; tasks := before ++ after;
                       told := told s; wire := wire s |}
  | clip_worker s : clip_step m s (set_host s (worker_step (host s)))
  | clip_poll s active : allows_host_to_client m = true → clip_step m s (set_host s (poll_tick (host s) active))
  | clip_notify s : allows_host_to_client m = true → clip_step m s (set_host s (on_selection_notify (host s)))
  | clip_session s : allows_host_to_client m = true → clip_step m s (set_host s (on_session_changed (host s)))
  | clip_user s w : clip_step m s (set_host s (set_worker (host s) w (connected (host s)) (writes (host s)))).

(** ** What the mode lets through *)

Context (m : ClipboardMode).

(** A message that a session may be sent. *)
Definition message_ok (msg : ClipboardMessage) : Prop :=
  match msg with
  | SendInitiateCopy _ => allows_host_to_client m = true
  | SendInitiatePaste id => allows_client_to_host m = true ∧ is_text_format id = true
  | SendFormatData (StatusOk _) => allows_host_to_client m = true
  | SendFormatData Failed => True
  end.

Definition effect_ok (e : Effect) : Prop :=
  match e with
  | Send msg => message_ok msg
  | PasteLater _ id => message_ok (SendInitiatePaste id)
  | ReadHost => allows_host_to_client m = true
  | WriteHost _ => allows_client_to_host m = true
  end.

Definition request_ok (r : ClipboardReq) : Prop :=
  match r with SetText _ => allows_client_to_host m = true | ResetSession => True end.

Definition write_ok (t : rstring) : Prop := allows_client_to_host m = true ∧ len (as_bytes t) ≤ MAX_HOST_CLIPBOARD_BYTES.

Record host_ok (h : Host W) : Prop := {
  ok_requests : Forall request_ok (requests h);
  ok_writes : Forall write_ok (writes h);
  ok_subscribers : subscribers h ≠ [] → allows_host_to_client m = true;
  ok_last_written : is_Some (last_written h) → allows_client_to_host m = true;
  ok_inboxes : map_Forall (λ _ q, Forall message_ok q) (inboxes h) }.

Definition channel_ok (ch : CliprdrChannel LocalClipboardBackend) : Prop :=
  mode (backend ch) = m ∧ Forall effect_ok (effects (backend ch)).

(** The bodies of the messages to a client; those that carry or announce the host's text only when
    the mode lets it out. *)
Definition body_ok (body : bytes) : Prop :=
  body = encode_capabilities ∨ body = encode_monitor_ready ∨ body = encode_format_list_response_ok
  ∨ body = encode_format_data_response_error
  ∨ (∃ id, body = encode_format_data_request id ∧ allows_client_to_host m = true ∧ is_text_format id = true)
  ∨ allows_host_to_client m = true.

Definition frame_ok (frame : bytes) : Prop :=
  ∃ user_id channel_id body, frame ∈ wrap_indication user_id channel_id body ∧ body_ok body.

Record clip_ok (s : clip_sys) : Prop := {
  ok_host : host_ok (host s);
  ok_channels : map_Forall (λ _ ch, channel_ok ch ∧ effects (backend ch) = []) (channels s);
  ok_tasks : Forall (λ t, effect_ok t.2) (tasks s);
  ok_told : Forall (λ t, message_ok t.2) (told s);
  ok_wire : Forall (λ f, frame_ok f.2) (wire s) }.

Lemma serve_request_ok h req : host_ok h → request_ok req → host_ok (serve_request h req).
Proof.
  intros [H1 H2 H3 H4 H5] Hr. destruct req as [t|]; cbn; [|by split]. cbn in Hr.
  destruct (_ <? _) eqn:E; [by split|]. apply Z.ltb_ge in E. assert (write_ok t) as Ht by done.
  destruct (connect (world h) (connected h)) as [w c].
  destruct (if c then _ else _) as [[ok w1] ws] eqn:Ews.
  assert (Forall write_ok ws) as Hws.
  { destruct c; [destruct (cb_set_text w t) as [ok' w']; injection Ews as _ _ <-; by constructor|by injection Ews as _ _ <-]. }
  assert (Forall write_ok (writes h ++ ws)) by (by apply Forall_app).
  destruct ok; [by split|]. destruct (cb_new w1) as [c' w2].
  destruct c'; [destruct (cb_set_text w2 t)|]; split; try done. cbn. rewrite app_assoc. apply Forall_app. split; [done|by constructor].
Qed.

Lemma drain_requests_ok h : host_ok h → host_ok (drain_requests h).
Proof.
  intros Hh. unfold drain_requests. pose proof (ok_requests _ Hh) as Hr.
  assert (host_ok (set_requests h [])) as H0 by (by destruct Hh; split). revert H0.
  generalize (set_requests h []). induction Hr as [|r rs Hr _ IH]; intros h0 H0; [done|]. apply IH. by apply serve_request_ok.
Qed.

Lemma local_text_ok h : host_ok h → host_ok (local_text h).1.
Proof.
  intros Hh. unfold local_text. pose proof (drain_requests_ok h Hh) as []. destruct (connect _ _) as [w c].
  destruct (if c then _ else _) as [t w']. by split.
Qed.

Lemma send_to_ok h id msg : host_ok h → message_ok msg → host_ok (send_to h id msg).2.
Proof.
  intros [H1 H2 H3 H4 H5] Hm. unfold send_to. destruct (inboxes h !! id) as [q|] eqn:E; [|by split]. split; try done.
  apply map_Forall_insert_2; [|done]. apply Forall_app. split; [by apply (H5 id)|by constructor].
Qed.

Lemma run_task_ok h id e : host_ok h → effect_ok e → host_ok (run_task h id e).
Proof.
  intros Hh He. destruct e as [msg|d f| |t]; cbn in *.
  - by apply send_to_ok.
  - by apply send_to_ok.
  - pose proof (local_text_ok h Hh) as Hl. destruct (local_text h) as [h' t]. apply send_to_ok; [done|]. by destruct t.
  - destruct Hh as [H1 H2 H3 H4 H5]. split; try done. apply Forall_app. split; [done|]. by constructor.
Qed.

Lemma advertise_all_ok h : host_ok h → host_ok (advertise_all h).
Proof.
  intros Hh. unfold advertise_all.
  destruct (decide (subscribers h = [])) as [En|Hne]; [rewrite En; cbn; destruct Hh; by split|].
  pose proof (ok_subscribers _ Hh Hne) as Hm.
  assert (∀ subs h0 kept, host_ok h0 → host_ok (foldl (λ '(h, kept) id, let '(ok, h) := advertise_unicode_formats h id in
    (h, if ok then kept ++ [id] else kept)) (h0, kept) subs).1) as Hgen.
  { induction subs as [|id subs IH]; intros h0 kept H0; [done|]. cbn [foldl].
    pose proof (send_to_ok h0 id (SendInitiateCopy [unicode_text]) H0 Hm) as H1. unfold advertise_unicode_formats.
    destruct (send_to h0 id _) as [ok h1]. by apply IH. }
  specialize (Hgen (subscribers h) h [] Hh). destruct (foldl _ _ _) as [h' kept]. by destruct Hgen; split.
Qed.

Lemma retain_open_ok h : host_ok h → host_ok (retain_open h).
Proof.
  intros [H1 H2 H3 H4 H5]. split; try done. cbn. intros Hne. apply H3. intros E. by rewrite E in Hne.
Qed.

Lemma poll_tick_ok h active : host_ok h → host_ok (poll_tick h active).
Proof.
  intros Hh%retain_open_ok. unfold poll_tick. destruct (_ || _); [done|]. pose proof (local_text_ok _ Hh) as Hl.
  destruct (local_text (retain_open h)) as [h1 current]. cbn in Hl.
  assert (∀ h2, host_ok h2 → host_ok (set_last h2 current)) as Hset by (by intros h2 []; split).
  destruct (_ && _); [|by apply Hset]. case_bool_decide; apply Hset; [done|by apply advertise_all_ok].
Qed.

Lemma on_selection_notify_ok h : host_ok h → host_ok (on_selection_notify h).
Proof.
  intros Hh%retain_open_ok. unfold on_selection_notify. destruct (bool_decide _); [done|]. pose proof (local_text_ok _ Hh) as Hl.
  destruct (local_text (retain_open h)) as [h1 current]. cbn in Hl.
  assert (host_ok (set_last_advertised h1 current)) as Hset by (by destruct Hl; split).
  destruct (is_nonempty current); [|done]. destruct (bool_decide _); [done|]. destruct (bool_decide _); [by apply advertise_all_ok|done].
Qed.

Lemma backend_calls_ok b :
  mode b = m → Forall effect_ok (effects b) →
  (mode (local_on_ready b) = m ∧ Forall effect_ok (effects (local_on_ready b)))
  ∧ (∀ fs, mode (local_on_remote_copy b fs) = m ∧ Forall effect_ok (effects (local_on_remote_copy b fs)))
  ∧ (∀ f, mode (local_on_format_data_request b f) = m ∧ Forall effect_ok (effects (local_on_format_data_request b f)))
  ∧ (∀ r, mode (local_on_format_data_response b r) = m ∧ Forall effect_ok (effects (local_on_format_data_response b r))).
Proof.
  intros Hm He. assert (∀ e, effect_ok e → Forall effect_ok (effects b ++ [e])) as Hemit.
  { intros e Ho. apply Forall_app. split; [done|by constructor]. }
  split; [|split; [|split]].
  - unfold local_on_ready. rewrite Hm. destruct (allows_host_to_client m) eqn:E; [|done]. split; [exact Hm|by apply Hemit].
  - intros fs. unfold local_on_remote_copy. rewrite Hm. destruct (allows_client_to_host m) eqn:E; [|done]. cbn [negb].
    assert (∀ id, select_text_format fs = Some id → is_text_format id = true) as Hsel.
    { intros id. unfold select_text_format. by repeat case_match; intros [= <-]. }
    unfold paste_delay. cbn [remote_text_format set_format]. destruct (select_text_format fs) as [id|]; [|done].
    specialize (Hsel id eq_refl). cbn. destruct (delay_first_paste b); cbn; (split; [exact Hm|by apply Hemit]).
  - intros f. unfold local_on_format_data_request. rewrite Hm. destruct (allows_host_to_client m) eqn:E; cbn; [|split; [exact Hm|by apply Hemit]].
    destruct (is_text_format f); (split; [exact Hm|by apply Hemit]).
  - intros r. unfold local_on_format_data_response. rewrite Hm. destruct (allows_client_to_host m) eqn:E; cbn; [|done].
    destruct r as [t|]; cbn; [|done]. split; [exact Hm|by apply Hemit].
Qed.

Lemma local_channel_data_ok ch payload :
  channel_ok ch → channel_ok (on_channel_data ch payload).1
    ∧ ∀ frames, (on_channel_data ch payload).2 = Ok frames → Forall frame_ok frames.
Proof.
  intros [Hm He]. destruct (backend_calls_ok (backend ch) Hm He) as (_ & Hc & Hq & Hr). unfold on_channel_data.
  destruct (reassemble _ _ _ _) as [buf [[message|]|e|]]; [|by split; [|by intros fs [= <-]]|done..].
  destruct (decode_client_message message) as [msg|e|]; [|done..].
  destruct msg as [ids| |f|st|]; cbn; split; try (by intros fs [= <-]); try done.
  - apply Hc.
  - intros fs [= <-]. apply Forall_forall. intros fr Hfr. exists (user_channel_id ch), (channel_id ch), encode_format_list_response_ok.
    split; [exact Hfr|]. do 2 right. by left.
  - apply Hq.
  - destruct st; apply Hr.
Qed.

Lemma effects_filter (P : Effect → Prop) `{!∀ e, Decision (P e)} es : Forall effect_ok es → Forall effect_ok (filter P es).
Proof. rewrite !Forall_forall. intros Hes e [_ He]%list_elem_of_filter. by apply Hes. Qed.

Lemma settle_ok s id ch frames : clip_ok s → channel_ok ch → Forall frame_ok frames → clip_ok (settle s id ch frames).
Proof.
  intros [Hh Hc Ht Hto Hw] [Hm He] Hf. split; cbn; try done.
  - assert (Forall effect_ok (filter (λ e, is_spawned e = false) (effects (backend ch)))) as Hes by (by apply effects_filter).
    revert Hh. generalize (host s). induction Hes as [|e es Hok _ IH]; intros h Hh; [done|]. cbn. apply IH. by apply run_task_ok.
  - apply map_Forall_insert_2; [|done]. by split; [split|].
  - apply Forall_app. split; [done|]. apply Forall_fmap. by apply effects_filter.
  - apply Forall_app. split; [done|]. by apply Forall_fmap.
Qed.

Lemma forwarded_ok (ch : CliprdrChannel LocalClipboardBackend) msg : message_ok msg → Forall frame_ok (encode_message ch msg).
Proof.
  intros Hm. unfold encode_message. destruct (message_body msg) as [body|] eqn:E; [|constructor].
  apply Forall_forall. intros fr Hfr. exists (user_channel_id ch), (channel_id ch), body. split; [done|].
  unfold body_ok. destruct msg as [fs|f|[t|]]; cbn in Hm, E.
  - do 5 right. done.
  - injection E as <-. do 4 right. left. by exists f.
  - do 5 right. done.
  - injection E as <-. do 3 right. by left.
Qed.

Lemma clip_step_ok s s' : clip_step m s s' → clip_ok s → clip_ok s'.
Proof.
  intros Hstep [Hh Hc Ht Hto Hw]. pose proof (ok_inboxes _ Hh) as Hin.
  destruct Hstep as [s id cid uid _ _|s id ch p Ech|s id ch msg rest Ech Eq|s id|s id e before after Et|s|s a _|s _|s _|s w].
  - unfold open_session, CliprdrChannel_new. apply settle_ok.
    + split; [|done..]. destruct Hh as [H1 H2 H3 H4 _].
      assert (map_Forall (λ _ q, Forall message_ok q) (<[id:=[]]> (inboxes (host s)))) as Hi by (by apply map_Forall_insert_2).
      destruct (allows_host_to_client m) eqn:Em; cbn; split; cbn; try done. intros Hne. by rewrite (H3 Hne) in Em.
    + apply backend_calls_ok; [done|constructor].
    + apply Forall_app. split; apply Forall_forall; intros fr Hfr; exists uid, cid; eexists; (split; [exact Hfr|]); unfold body_ok; tauto.
  - destruct (Hc id ch Ech) as [Hok _]. pose proof (local_channel_data_ok ch p Hok) as [Hok' Hf]. unfold client_data.
    destruct (on_channel_data ch p) as [ch' r]. apply settle_ok; [done|done|]. destruct r as [fs| |]; [by apply Hf|constructor..].
  - pose proof (Hin id _ Eq) as Hq. inversion Hq as [|? ? Hm Hrest]; subst. split; cbn; try done.
    + destruct Hh. split; try done. by apply map_Forall_insert_2.
    + apply Forall_app. split; [done|by constructor].
    + apply Forall_app. split; [done|]. apply Forall_fmap. by apply forwarded_ok.
  - split; cbn; try done; [|by apply map_Forall_delete]. destruct Hh. split; try done. by apply map_Forall_delete.
  - rewrite Et in Ht. apply Forall_app in Ht as [H1 H2]. inversion H2 as [|? ? He H3]; subst. split; cbn; try done.
    + by apply run_task_ok.
    + by apply Forall_app.
  - split; cbn; try done. unfold worker_step. pose proof (ok_requests _ Hh) as Hr. destruct (requests (host s)) as [|r rs]; [done|].
    inversion Hr; subst. apply serve_request_ok; [|done]. by destruct Hh; split.
  - split; cbn; try done. by apply poll_tick_ok.
  - split; cbn; try done. by apply on_selection_notify_ok.
  - split; cbn; try done. destruct Hh. split; try done. apply Forall_app. split; [done|by constructor].
  - split; cbn; try done. by destruct Hh; split.
Qed.

Lemma clip_reachable_ok w s : rtc (clip_step m) (clip_start w) s → clip_ok s.
Proof.
  intros Hr. assert (clip_ok (clip_start w)) as H0.
  { split; [split|..]; try done; try constructor; [by intros [? ?]|intros ? ? []..]; done. }
  revert H0. induction Hr as [|s1 s2 s3 Hs _ IH]; [done|]. intros H1. by eapply IH, clip_step_ok.
Qed.

(** C15. The clipboard mode is kept.  Let sessions open and close, clients send any payloads, and the
    spawned tasks, the worker, the watcher, the XFixes thread, changes of the login session and the
    user's own copying interleave in any way.  When the mode does not let the client write, nothing
    is ever handed to the host's clipboard.  When it does not let the host's text out, every frame
    sent to a client is a piece of a message without text: the start-up messages, an
    acknowledgement, an error, or a request for the client's text.  In every mode a request to paste
    names a text format, and a text handed to the host's clipboard is at most 1 MiB. *)
Theorem clipboard_respects_mode w s :
  rtc (clip_step m) (clip_start w) s →
  (allows_client_to_host m = false → writes (host s) = [])
  ∧ (allows_host_to_client m = false → ∀ id frame, (id, frame) ∈ wire s →
       ∃ user_id channel_id body, frame ∈ wrap_indication user_id channel_id body
       ∧ (body ∈ [encode_capabilities; encode_monitor_ready; encode_format_list_response_ok; encode_format_data_response_error]
          ∨ ∃ f, body = encode_format_data_request f ∧ is_text_format f = true))
  ∧ (∀ id f, (id, SendInitiatePaste f) ∈ told s → is_text_format f = true)
  ∧ Forall (λ t, len (as_bytes t) ≤ MAX_HOST_CLIPBOARD_BYTES) (writes (host s)).
Proof.
  intros Hr. destruct (clip_reachable_ok w s Hr) as [[_ Hwr _ _ _] _ _ Hto Hwi]. split; [|split; [|split]].
  - intros Hm. destruct (writes (host s)) as [|t ts]; [done|]. inversion Hwr as [|? ? [Hc _] _]; subst. by rewrite Hm in Hc.
  - intros Hm id frame Hin. rewrite Forall_forall in Hwi. destruct (Hwi _ Hin) as (uid & cid & body & Hfr & Hb).
    exists uid, cid, body. split; [done|]. unfold body_ok in Hb. rewrite Hm in Hb.
    destruct Hb as [->|[->|[->|[->|[(f & -> & _ & Hf)|?]]]]]; [left; set_solver..|right; by exists f|done].
  - intros id f Hin. rewrite Forall_forall in Hto. apply (Hto _ Hin).
  - eapply Forall_impl; [exact Hwr|]. by intros t [_ Ht].
Qed.
End system.
Arguments clip_sys W : clear implicits.

(** ** Text copied by a client *)

(** arboard reads back what it has been made to hold. *)
Class ArboardLaws (W : Type) `{!Arboard W} := {
  set_then_get (w : W) t : (cb_set_text w t).1 = true → (cb_get_text (cb_set_text w t).2).1 = Some t }.

Section copying.
Context {W : Type} `{!Arboard W, !ArboardLaws W}.

(** It works at the moment. *)
Definition arboard_works : Prop := ∀ w : W, (cb_new w).1 = true ∧ ∀ t, (cb_set_text w t).1 = true.

(** The payloads of a session, one after another. *)
Fixpoint client_sends (s : clip_sys W) (id : nat) (payloads : list bytes) : clip_sys W :=
  match payloads with
  | [] => s
  | p :: payloads =>
    client_sends (match channels s !! id with Some ch => client_data s id ch p | None => s end) id payloads
  end.

Definition add_effects (es : list Effect) (b : LocalClipboardBackend) : LocalClipboardBackend :=
  {| mode := mode b; remote_text_format := remote_text_format b; delay_first_paste := delay_first_paste b;
     effects := es ++ effects b |}.

Lemma add_emit es b e : emit (add_effects es b) e = add_effects es (emit b e).
Proof. unfold emit, add_effects. cbn. by rewrite app_assoc. Qed.

Lemma on_message_add es (ch : CliprdrChannel LocalClipboardBackend) msg :
  on_message (set_backend ch (add_effects es (backend ch))) msg
  = (set_backend (on_message ch msg).1 (add_effects es (backend (on_message ch msg).1)), (on_message ch msg).2).
Proof.
  destruct msg as [ids| |f|st|]; cbn; try done.
  - unfold local_on_remote_copy, paste_delay. cbn. destruct (negb _); [done|].
    destruct (select_text_format _) as [id|]; cbn; [|done]. destruct (delay_first_paste (backend ch)); cbn;
      unfold emit, add_effects, set_backend; cbn; by rewrite app_assoc.
  - unfold local_on_format_data_request. cbn. destruct (negb _ || negb _); by rewrite add_emit.
  - unfold local_on_format_data_response. cbn. destruct (negb _ || _); [done|]. destruct (to_unicode_string _); [|done]. by rewrite add_emit.
Qed.

Lemma on_channel_data_add es (ch : CliprdrChannel LocalClipboardBackend) p :
  on_channel_data (set_backend ch (add_effects es (backend ch))) p
  = (set_backend (on_channel_data ch p).1 (add_effects es (backend (on_channel_data ch p).1)), (on_channel_data ch p).2).
Proof.
  unfold on_channel_data. cbn [incoming_buffer set_backend]. destruct (reassemble _ _ _ _) as [buf [[message|]|e|]]; [|done..].
  destruct (decode_client_message message) as [msg|e|]; [|done..].
  change (set_buffer (set_backend ch (add_effects es (backend ch))) buf)
    with (set_backend (set_buffer ch buf) (add_effects es (backend (set_buffer ch buf)))).
  rewrite on_message_add. by destruct (on_message (set_buffer ch buf) msg) as [ch' out].
Qed.

Lemma receive_add es ps : ∀ ch : CliprdrChannel LocalClipboardBackend,
  receive (set_backend ch (add_effects es (backend ch))) ps
  = (set_backend (receive ch ps).1 (add_effects es (backend (receive ch ps).1)), (receive ch ps).2).
Proof.
  induction ps as [|p ps IH]; intros ch; [done|]. cbn [receive]. rewrite on_channel_data_add.
  destruct (on_channel_data ch p) as [ch1 r]. cbn [fst snd]. rewrite IH. by destruct (receive ch1 ps) as [ch2 rs].
Qed.

Lemma client_sends_tasks id ps : ∀ (s : clip_sys W) ch,
  channels s !! id = Some ch → effects (backend ch) = [] →
  tasks (client_sends s id ps)
  = tasks s ++ ((id,.) <$> filter (λ e, is_spawned e = true) (effects (backend (receive ch ps).1))).
Proof.
  induction ps as [|p ps IH]; intros s ch Ech Ee; cbn [client_sends receive fst]; [by rewrite Ee, app_nil_r|].
  rewrite Ech. unfold client_data. destruct (on_channel_data ch p) as [ch1 r].
  set (clear := set_backend ch1 (clear_effects (backend ch1))).
  rewrite (IH _ clear); [|by cbn; rewrite lookup_insert_eq|done].
  assert (ch1 = set_backend clear (add_effects (effects (backend ch1)) (backend clear))) as E1.
  { destruct ch1 as [cid uid [mo rf dl es] buf]. unfold clear, set_backend, add_effects. cbn. by rewrite app_nil_r. }
  assert ((let '(ch2, rs) := receive ch1 ps in (ch2, r :: rs)).1 = (receive ch1 ps).1) as -> by (by destruct (receive ch1 ps)).
  assert ((receive ch1 ps).1 = set_backend (receive clear ps).1 (add_effects (effects (backend ch1)) (backend (receive clear ps).1))) as ->.
  { rewrite E1 at 1. by rewrite receive_add. }
  cbn. by rewrite filter_app, fmap_app, app_assoc.
Qed.

Lemma written_reads_back (Hw : arboard_works) (h : Host W) text :
  len (as_bytes text) ≤ MAX_HOST_CLIPBOARD_BYTES → (local_text (set_local_text h text)).2 = Some text.
Proof.
  intros Hl. unfold local_text, drain_requests, set_local_text. cbn [requests set_requests].
  rewrite foldl_app. cbn [foldl]. generalize (foldl serve_request (set_requests (set_requests h (requests h ++ [SetText text])) []) (requests h)).
  intros h1. unfold serve_request. rewrite (proj2 (Z.ltb_ge _ _)) by done.
  assert (∃ w, connect (world h1) (connected h1) = (w, true)) as [w ->].
  { unfold connect. destruct (connected h1); [by eexists|]. destruct (Hw (world h1)) as [Hc _]. destruct (cb_new (world h1)) as [ok w].
    cbn in Hc. subst ok. by eexists. }
  destruct (Hw w) as [_ Hs]. specialize (Hs text). pose proof (set_then_get w text Hs) as Hg.
  destruct (cb_set_text w text) as [ok w']. cbn in Hs, Hg. subst ok. cbn. by destruct (cb_get_text w') as [t w2].
Qed.

(** C16. A text copied by a client becomes the host's clipboard.  In any state that sessions, host and
    user can have reached, let the mode allow it and a client send its text in pieces of the
    channel's size, whatever an unfinished message left in the buffer before: exactly one task is
    spawned, with that text; and whenever the task runs, if arboard works then, the next reader of
    the host's clipboard finds the text, however many requests the worker had still to serve. *)
Theorem copied_text_reaches_host m w s id ch text :
  arboard_works → rtc (clip_step m) (clip_start w) s → allows_client_to_host m = true → channels s !! id = Some ch →
  str_ok text → Forall (λ c, c ≠ 0) text → len (as_bytes text) ≤ MAX_HOST_CLIPBOARD_BYTES →
  len (encode_format_data_response_text text) ≤ MAX_CLIPRDR_MESSAGE_SIZE →
  tasks (client_sends s id (chunkify (encode_format_data_response_text text))) = tasks s ++ [(id, WriteHost text)]
  ∧ ∀ h : Host W, (local_text (run_task h id (WriteHost text))).2 = Some text.
Proof.
  intros Hw Hr Hm Ech Hs Hnz Hl Hlp. pose proof (ok_channels _ _ (clip_reachable_ok m w s Hr) id ch Ech) as [[Hmode _] He].
  split; [|by intros h; apply written_reads_back].
  rewrite (client_sends_tasks id _ s ch Ech He).
  destruct (cliprdr_delivers ch text [] Hs Hnz Hlp) as [(k & ->) _]; [constructor|done|].
  assert (on_format_data_response (backend ch) (StatusOk text) = emit (backend ch) (WriteHost text)) as E.
  { cbn. unfold local_on_format_data_response. by rewrite Hmode, Hm. }
  cbn [fst]. change (backend (set_backend _ ?b)) with b. rewrite E. unfold emit. cbn [effects]. by rewrite He.
Qed.
End copying.

(** ** Examples *)

(** A clipboard that always works. *)
Global Instance simple_arboard : Arboard (option rstring) := {
  cb_new w := (true, w); cb_set_text w t := (true, Some t); cb_get_text w := (w, w) }.
Global Instance simple_laws : ArboardLaws (option rstring).
Proof. by split. Qed.

Definition opened (m : ClipboardMode) : clip_sys (option rstring) := open_session m (clip_start None) 0 1004 1001.
Lemma opened_reachable m : rtc (clip_step m) (clip_start None) (opened m).
Proof. eapply rtc_l; [by apply clip_open|apply rtc_refl]. Qed.

Lemma copied_text_reaches_host_witness :
  ∃ ch, channels (opened Bidirectional) !! 0%nat = Some ch
  ∧ tasks (client_sends (opened Bidirectional) 0 (chunkify (encode_format_data_response_text [104; 105]))) = [(0%nat, WriteHost [104; 105])]
  ∧ (local_text (run_task (host (opened Bidirectional)) 0 (WriteHost [104; 105]))).2 = Some [104; 105].
Proof.
  destruct (channels (opened Bidirectional) !! 0%nat) as [ch|] eqn:E; [|vm_compute in E; discriminate E]. exists ch. split; [done|].
  destruct (copied_text_reaches_host Bidirectional None (opened Bidirectional) 0 ch [104; 105]) as [H1 H2].
  - by intros w.
  - apply opened_reachable.
  - done.
  - exact E.
  - unfold str_ok, scalar_ok. repeat constructor; lia.
  - repeat constructor; lia.
  - vm_compute. discriminate.
  - vm_compute. discriminate.
  - split; [exact H1|apply H2].
Defined.

Lemma clipboard_respects_mode_witness :
  writes (host (opened HostToClient)) = []
  ∧ ∀ id f, (id, SendInitiatePaste f) ∈ told (opened ClientToHost) → is_text_format f = true.
Proof.
  split.
  - exact (proj1 (clipboard_respects_mode HostToClient None _ (opened_reachable HostToClient)) eq_refl).
  - exact (proj1 (proj2 (proj2 (clipboard_respects_mode ClientToHost None _ (opened_reachable ClientToHost))))).
Defined.

(** [last_written] is never forgotten: a client copies X, the user of the host copies Y, which is
    announced, and then X again, which is taken for the client's own and not announced: the client
    keeps Y. *)
Definition user_copies (t : rstring) (h : Host (option rstring)) : Host (option rstring) :=
  poll_tick (set_worker h (Some t) (connected h) (writes h)) false.
Definition announced (h : Host (option rstring)) : option nat := length <$> inboxes h !! 0%nat.

Lemma copy_again_is_not_announced :
  let h0 := host (opened Bidirectional) in
  let h1 := poll_tick (run_task h0 0 (WriteHost [88])) false in
  announced h0 = Some 1%nat ∧ announced h1 = Some 1%nat
  ∧ announced (user_copies [89] h1) = Some 2%nat
  ∧ announced (user_copies [88] (user_copies [89] h1)) = Some 2%nat
  ∧ (local_text (user_copies [88] (user_copies [89] h1))).2 = Some [88].
Proof. by vm_compute. Qed.
