(* ===== verification/Pointer.v ===== *)
(** [rdpcore-pdu/src/pointer.rs]: fast-path pointer updates. *)
From S2P Require Import Prelude Cursor Fastpath.

Definition UPDATE_CODE_PTR_NULL : Z := 0x5.
Definition UPDATE_CODE_PTR_DEFAULT : Z := 0x6.
Definition UPDATE_CODE_PTR_POSITION : Z := 0x8.
Definition UPDATE_CODE_COLOR : Z := 0x9.
Definition UPDATE_CODE_CACHED : Z := 0xA.

Definition single_update (code : Z) (data : bytes) : res DecodeError bytes :=
  FastPathOutput_encode [{| update_code := code; fragmentation := Single; fp_data := data |}].

Definition encode_ptr_default : res DecodeError bytes := single_update UPDATE_CODE_PTR_DEFAULT [].
Definition encode_ptr_null : res DecodeError bytes := single_update UPDATE_CODE_PTR_NULL [].
Definition encode_ptr_position (x y : Z) : res DecodeError bytes :=
  single_update UPDATE_CODE_PTR_POSITION (write_u16_le x ++ write_u16_le y).
Definition encode_cached_pointer (cache_index : Z) : res DecodeError bytes :=
  single_update UPDATE_CODE_CACHED (write_u16_le cache_index).

(** The payload of a colour pointer. *)
Definition color_pointer_data (cache_index hot_x hot_y width height : Z) (xor_bgr_bottom_up and_mask : bytes) : bytes :=
  write_u16_le cache_index ++ write_u16_le hot_x ++ write_u16_le hot_y ++ write_u16_le width ++ write_u16_le height
  ++ write_u16_le (as_u16 (len and_mask)) ++ write_u16_le (as_u16 (len xor_bgr_bottom_up))
  ++ write_slice xor_bgr_bottom_up ++ write_slice and_mask.

Definition encode_color_pointer (cache_index hot_x hot_y width height : Z) (xor_bgr_bottom_up and_mask : bytes)
  : res DecodeError bytes :=
  single_update UPDATE_CODE_COLOR (color_pointer_data cache_index hot_x hot_y width height xor_bgr_bottom_up and_mask).

(** The rows from the last to the first: row [y] is copied to row [h - 1 - y]. *)
Definition flip_row (w h : Z) (src : bytes) (y : Z) (dst : bytes) : bytes :=
  copy_into dst ((h - 1 - y) * w * 4) (ztake (w * 4) (zdrop (y * w * 4) src)).
Definition flip_rows (w h : Z) (src : bytes) : bytes :=
  foldl (λ dst y, flip_row w h src y dst) (replicate (Z.to_nat (w * h * 4)) 0) (seqZ 0 h).

Definition encode_rgba_pointer (cache_index hot_x hot_y width height : Z) (bgra_top_down : bytes) : res DecodeError bytes :=
  if (width =? 0) || (height =? 0) || (len bgra_top_down <? width * height * 4) then single_update UPDATE_CODE_PTR_DEFAULT []
  else
    let stride := div_ceil width 16 * 2 in
    encode_color_pointer cache_index hot_x hot_y width height (flip_rows width height bgra_top_down)
      (replicate (Z.to_nat (stride * height)) 0).

(** The rows of the arrow, the leftmost pixel in the highest bit. *)
Definition arrow_shape : list Z :=
  [0x8000; 0xC000; 0xE000; 0xF000; 0xF800; 0xFC00; 0xFE00; 0xFF00; 0xFF80; 0xFC00; 0xD800; 0x8C00; 0x0600; 0x0600; 0x0300; 0].

Definition arrow_set (bits x : Z) : bool := negb (Z.land bits (Z.shiftl 1 (15 - x)) =? 0).

(** The loops over rows [y] with their [bits], and columns. *)
Definition arrow_fold (f : Z → Z → Z → bytes → bytes) (init : bytes) : bytes :=
  foldl (λ acc '(y, bits), foldl (λ acc x, f y bits x acc) acc (seqZ 0 16)) init (zip (seqZ 0 16) arrow_shape).

Definition arrow_xor : bytes :=
  arrow_fold (λ y bits x acc,
    let i := ((16 - 1 - y) * 16 + x) * 3 in
    let v := if arrow_set bits x then 0 else 0xFF in
    <[Z.to_nat (i + 2) := v]> (<[Z.to_nat (i + 1) := v]> (<[Z.to_nat i := v]> acc))) (replicate 768 0).

Definition arrow_and_mask : bytes :=
  let stride := div_ceil 16 16 * 2 in
  arrow_fold (λ y bits x acc,
    if arrow_set bits x then
      let byte := Z.to_nat ((16 - 1 - y) * stride + x / 8) in
      let bit := 7 - x mod 8 in
      alter (λ b, Z.land b (0xFF - Z.shiftl 1 bit)) byte acc
    else acc) (replicate (Z.to_nat (stride * 16)) 0xFF).

Definition encode_default_arrow_pointer (cache_index : Z) : res DecodeError bytes :=
  encode_color_pointer cache_index 0 0 16 16 arrow_xor arrow_and_mask.

(** ** What a client reads *)

Lemma flip_rows_spec w h src :
  0 < w → 0 < h → w * h * 4 ≤ len src →
  len (flip_rows w h src) = w * h * 4
  ∧ ∀ x y c, 0 ≤ x < w → 0 ≤ y < h → 0 ≤ c < 4 →
      byte_at (w * 4) (flip_rows w h src) x (h - 1 - y) c = byte_at (w * 4) src x y c.
Proof.
  intros Hw Hh Hl. unfold flip_rows. set (init := replicate _ _).
  assert (∀ n : nat, Z.of_nat n ≤ h →
    let d := foldl (λ dst y, flip_row w h src y dst) init (seqZ 0 (Z.of_nat n)) in
    len d = w * h * 4 ∧ ∀ x y c, 0 ≤ x < w → 0 ≤ y < Z.of_nat n → 0 ≤ c < 4 →
      byte_at (w * 4) d x (h - 1 - y) c = byte_at (w * 4) src x y c) as Hgen.
  { induction n as [|n IH]; intros Hn; cbn zeta.
    { rewrite seqZ_nil by lia. cbn [foldl]. split; [unfold init; rewrite len_replicate; nia|lia]. }
    destruct IH as [IHl IHp]; [lia|]. rewrite seqZ_S, foldl_app. cbn [foldl]. rewrite Z.add_0_l.
    set (d := foldl _ init _) in *. set (k := Z.of_nat n) in *. unfold flip_row.
    assert (0 ≤ k * w * 4 ∧ k * w * 4 + w * 4 ≤ w * h * 4 ∧ 0 ≤ (h - 1 - k) * w * 4 ∧ (h - 1 - k) * w * 4 + w * 4 ≤ w * h * 4) as Hk by nia.
    assert (len (ztake (w * 4) (zdrop (k * w * 4) src)) = w * 4) as Hc by (rewrite len_ztake; rewrite ?len_zdrop; lia).
    split; [by rewrite len_copy_into|]. intros x y c Hx Hy Hcc. unfold byte_at.
    assert (0 ≤ (h - 1 - y) * (w * 4) ∧ 0 ≤ y * (w * 4)) as Hpos by nia.
    rewrite copy_into_lookup by lia. rewrite Hc. destruct (decide (y = k)) as [->|Hne].
    - rewrite decide_True by lia. unfold ztake, zdrop. rewrite lookup_take_lt, lookup_drop by lia. f_equal. lia.
    - rewrite decide_False; [by apply IHp; lia|]. intros Hr.
      assert ((h - 1 - k + 1) * (w * 4) ≤ (h - 1 - y) * (w * 4)) by (apply Z.mul_le_mono_nonneg_r; lia). lia. }
  destruct (Hgen (Z.to_nat h)) as [H1 H2]; [lia|]. rewrite Z2Nat.id in H1, H2 by lia. by split.
Qed.

Lemma single_update_decodes code data :
  0 ≤ code < 2 ^ 4 → len data < 2 ^ 15 - 7 →
  ∃ out, single_update code data = Ok out
  ∧ FastPathOutput_decode out = Ok [{| update_code := code; fragmentation := Single; fp_data := data |}].
Proof.
  intros Hc Hd. destruct (FastPathOutput_decode_encode [{| update_code := code; fragmentation := Single; fp_data := data |}])
    as (out & E & Ed & _).
  - constructor; [|constructor]. unfold update_ok. cbn. lia.
  - cbn. lia.
  - by exists out.
Qed.

(** A client reads the pointer that was meant.  The default pointer, a position and a cached
    pointer decode to one unfragmented update with their code and payload; and a pointer of 32-bit
    pixels that fits a fast-path frame decodes to a colour pointer whose header gives its place,
    hot spot, size and the lengths of its masks, and whose pixels are those of the picture with the
    last row first. *)
Theorem pointer_updates_decode cache_index hot_x hot_y w h bgra :
  0 < w < 2 ^ 16 → 0 < h < 2 ^ 16 → w * h * 4 ≤ len bgra →
  14 + w * h * 4 + div_ceil w 16 * 2 * h < 2 ^ 15 - 7 →
  (∀ x y, ∃ out, encode_ptr_position x y = Ok out
     ∧ FastPathOutput_decode out = Ok [{| update_code := UPDATE_CODE_PTR_POSITION; fragmentation := Single;
                                          fp_data := write_u16_le x ++ write_u16_le y |}])
  ∧ (∃ out, encode_ptr_default = Ok out
     ∧ FastPathOutput_decode out = Ok [{| update_code := UPDATE_CODE_PTR_DEFAULT; fragmentation := Single; fp_data := [] |}])
  ∧ ∃ out xor mask, encode_rgba_pointer cache_index hot_x hot_y w h bgra = Ok out
     ∧ FastPathOutput_decode out = Ok [{| update_code := UPDATE_CODE_COLOR; fragmentation := Single;
         fp_data := write_u16_le cache_index ++ write_u16_le hot_x ++ write_u16_le hot_y ++ write_u16_le w ++ write_u16_le h
                    ++ write_u16_le (len mask) ++ write_u16_le (len xor) ++ xor ++ mask |}]
     ∧ len xor = w * h * 4 ∧ len mask = div_ceil w 16 * 2 * h
     ∧ ∀ x y c, 0 ≤ x < w → 0 ≤ y < h → 0 ≤ c < 4 → byte_at (w * 4) xor x (h - 1 - y) c = byte_at (w * 4) bgra x y c.
Proof.
  intros Hw Hh Hl Hfit. split; [|split].
  - intros x y. by apply single_update_decodes.
  - by apply single_update_decodes.
  - destruct (flip_rows_spec w h bgra) as [Hxl Hxp]; [lia..|].
    assert (1 ≤ div_ceil w 16) as Hdc by (unfold div_ceil; Z.to_euclidean_division_equations; lia).
    set (mask := replicate (Z.to_nat (div_ceil w 16 * 2 * h)) (0 : Z)).
    assert (len mask = div_ceil w 16 * 2 * h) as Hml by (unfold mask; rewrite len_replicate; nia).
    assert (0 ≤ w * h * 4) as Hpos by nia. assert (0 ≤ div_ceil w 16 * 2 * h) as Hpos' by nia.
    set (xor := flip_rows w h bgra) in *.
    destruct (single_update_decodes UPDATE_CODE_COLOR (color_pointer_data cache_index hot_x hot_y w h xor mask)) as (out & Eo & Ed); [done| |].
    { unfold color_pointer_data, write_slice. rewrite !len_app, Hxl, Hml. change (len (write_u16_le _)) with 2. lia. }
    exists out, xor, mask. split; [|split; [|done]].
    + unfold encode_rgba_pointer. rewrite !(proj2 (Z.eqb_neq _ 0)), (proj2 (Z.ltb_ge _ _)) by lia. exact Eo.
    + rewrite Ed. unfold color_pointer_data, write_slice. rewrite !as_u16_id by lia. done.
Qed.

(** A picture of two by two pixels. *)
Definition four_pixels : bytes := [1; 2; 3; 4; 5; 6; 7; 8; 9; 10; 11; 12; 13; 14; 15; 16].

Lemma pointer_updates_decode_witness :
  ∃ out xor mask, encode_rgba_pointer 1 0 0 2 2 four_pixels = Ok out
  ∧ FastPathOutput_decode out = Ok [{| update_code := UPDATE_CODE_COLOR; fragmentation := Single;
      fp_data := [1; 0; 0; 0; 0; 0; 2; 0; 2; 0; 4; 0; 16; 0] ++ xor ++ mask |}]
  ∧ byte_at 8 xor 1 0 2 = Some 15.
Proof.
  destruct (pointer_updates_decode 1 0 0 2 2 four_pixels) as (_ & _ & out & xor & mask & E & Ed & Hx & Hm & Hp);
    [done|done|vm_compute; discriminate|done|].
  exists out, xor, mask. split; [exact E|]. rewrite Hx, Hm in Ed. split; [exact Ed|].
  exact (Hp 1 1 2 ltac:(lia) ltac:(lia) ltac:(lia)).
Defined.
