(* ===== verification/AudioCapture.v ===== *)
(** [kmsrdp/src/audio.rs]: the capture of sound for a session: what is kept of PulseAudio's
    fragments, and how the chunks that are published keep pace with the clock.

    What PulseAudio reports in a turn of the loop, the clock and the environment are the fields of
    a [Pulse]; connecting to the server is left out. *)
From S2P Require Import Prelude.
Open Scope Z_scope.

Definition SAMPLE_RATE : Z := 48000.
Definition CHANNELS : Z := 2.
Definition BITS_PER_SAMPLE : Z := 16.
Definition BLOCK_ALIGN : Z := CHANNELS * (BITS_PER_SAMPLE / 8).
Definition CHUNK_MS : Z := 20.
Definition CHUNK_BYTES : Z := SAMPLE_RATE * BLOCK_ALIGN / 1000 * CHUNK_MS.
Definition MAX_AHEAD_MS : Z := 40.
Definition SNAP_BEHIND_MS : Z := 80.
Definition MAX_PULSE_BUFFER_BYTES : Z := CHUNK_BYTES * 2.

Definition U64_MAX : Z := 2 ^ 64 - 1.
Definition saturating_add_u64 (a b : Z) : Z := Z.min (a + b) U64_MAX.

Definition pcm_send_budget (sent_ms elapsed_ms : Z) : option Z :=
  let sent_ms := if saturating_add_u64 sent_ms SNAP_BEHIND_MS <? elapsed_ms then elapsed_ms else sent_ms in
  if saturating_add_u64 sent_ms CHUNK_MS <=? saturating_add_u64 elapsed_ms MAX_AHEAD_MS
  then Some (saturating_add_u64 sent_ms CHUNK_MS) else None.

Definition keep_newest_chunk (leftover : bytes) : bytes :=
  let usable := len leftover - len leftover mod BLOCK_ALIGN in
  let leftover := ztake usable leftover in
  if CHUNK_BYTES <? len leftover then zdrop (len leftover - CHUNK_BYTES) leftover else leftover.

(** What [Stream::peek] answers. *)
Inductive Peek := NoData | Hole | Data (data : bytes) | PeekError.

(** The peeks of one call, in order; after the last there is nothing to read. *)
Fixpoint take_live_chunk (peeks : list Peek) (leftover : bytes) : bytes * option bytes :=
  let finish := if len leftover <? CHUNK_BYTES then (leftover, None) else ([], Some (ztake CHUNK_BYTES leftover)) in
  match peeks with
  | [] | NoData :: _ => finish
  | Hole :: peeks => take_live_chunk peeks (keep_newest_chunk leftover)
  | Data data :: peeks => take_live_chunk peeks (keep_newest_chunk (leftover ++ data))
  | PeekError :: _ => (leftover, None)
  end.

Inductive CaptureEnd := Stopped | SessionChanged | Transient.

(** What one turn of the loop of [capture_one_server] sees. *)
Record Pulse := {
  stop_before : bool; server_changed : bool; pulse_failed : bool; stop_after : bool;
  queued_bytes : option Z; peeks : list Peek; elapsed_ms : Z; publisher_gone : bool }.

Record AudioCapture := { sent_ms : Z; leftover : bytes }.
Definition AudioCapture_new : AudioCapture := {| sent_ms := 0; leftover := [] |}.

(** A turn of the loop: it ends, or goes on, with the wave it has published (samples and time
    stamp). *)
Definition capture_step (c : AudioCapture) (p : Pulse) : CaptureEnd + AudioCapture * option (bytes * Z) :=
  if stop_before p then inl Stopped
  else if server_changed p then inl SessionChanged
  else if pulse_failed p then inl Transient
  else if stop_after p then inl Stopped
  else if match queued_bytes p with Some n => MAX_PULSE_BUFFER_BYTES <? n | None => false end
  then inr ({| sent_ms := sent_ms c; leftover := [] |}, None)
  else
    let '(rest, chunk) := take_live_chunk (peeks p) (leftover c) in
    match chunk with
    | None => inr ({| sent_ms := sent_ms c; leftover := rest |}, None)
    | Some chunk =>
      match pcm_send_budget (sent_ms c) (elapsed_ms p) with
      | None => inr ({| sent_ms := sent_ms c; leftover := rest |}, None)
      | Some next_sent =>
        if publisher_gone p then inl Stopped
        else inr ({| sent_ms := next_sent; leftover := rest |}, Some (chunk, as_u32 (elapsed_ms p)))
      end
    end.

(** The loop, with the waves it publishes, each with the turn that published it. *)
Fixpoint capture_run (c : AudioCapture) (ps : list Pulse) : list (Pulse * (bytes * Z)) * option CaptureEnd :=
  match ps with
  | [] => ([], None)
  | p :: ps =>
    match capture_step c p with
    | inl e => ([], Some e)
    | inr (c, wave) =>
      let '(waves, e) := capture_run c ps in
      (match wave with Some w => (p, w) :: waves | None => waves end, e)
    end
  end.

(** ** Lemmas *)

Definition whole_frames (l : bytes) : Prop := (len l) mod BLOCK_ALIGN = 0.

Lemma keep_newest_spec l : whole_frames l →
  ∃ front, l = front ++ keep_newest_chunk l ∧ len (keep_newest_chunk l) = Z.min (len l) CHUNK_BYTES.
Proof.
  intros Hl. unfold keep_newest_chunk. rewrite Hl, Z.sub_0_r. rewrite (ztake_all _ l) by lia.
  pose proof (len_nonneg l). destruct (_ <? _) eqn:E; [apply Z.ltb_lt in E|apply Z.ltb_ge in E].
  - exists (ztake (len l - CHUNK_BYTES) l). assert (0 ≤ CHUNK_BYTES) by done.
    split; [by rewrite ztake_zdrop|]. rewrite len_zdrop; lia.
  - exists []. split; [done|lia].
Qed.

Definition peek_data (p : Peek) : bytes := match p with Data d => d | _ => [] end.

(** With fragments of whole frames, a chunk is the newest 20 ms of what has been read. *)
Lemma take_live_chunk_spec ps : ∀ l, whole_frames l → len l ≤ CHUNK_BYTES →
  Forall (λ p, whole_frames (peek_data p)) ps →
  whole_frames (take_live_chunk ps l).1 ∧ len (take_live_chunk ps l).1 ≤ CHUNK_BYTES
  ∧ ∀ chunk, (take_live_chunk ps l).2 = Some chunk →
      len chunk = CHUNK_BYTES ∧ ∃ front back, l ++ concat (peek_data <$> ps) = front ++ chunk ++ back.
Proof.
  assert (∀ l, whole_frames l → len l ≤ CHUNK_BYTES →
    let r := (if len l <? CHUNK_BYTES then (l, None) else ([], Some (ztake CHUNK_BYTES l))) in
    whole_frames r.1 ∧ len r.1 ≤ CHUNK_BYTES
    ∧ ∀ chunk more, r.2 = Some chunk → len chunk = CHUNK_BYTES ∧ ∃ front back, l ++ more = front ++ chunk ++ back) as Hend.
  { intros l Hw Hl. destruct (_ <? _) eqn:E; cbn; [by split_and!|]. apply Z.ltb_ge in E. split; [done|]. split; [done|].
    intros chunk more [= <-]. rewrite ztake_all by lia. split; [lia|]. by exists [], more. }
  assert (∀ l, whole_frames l → whole_frames (keep_newest_chunk l)) as Hkw.
  { intros l Hw. destruct (keep_newest_spec l Hw) as (front & _ & E). unfold whole_frames in *. rewrite E.
    destruct (Z.min_spec (len l) CHUNK_BYTES) as [[_ ->]|[_ ->]]; done. }
  induction ps as [|p ps IH]; intros l Hw Hl Hps; cbn [take_live_chunk].
  { destruct (Hend l Hw Hl) as (? & ? & H3). split_and!; [done..|]. intros chunk. apply H3. }
  inversion Hps as [|? ? Hp Hps']; subst. assert (∀ m, whole_frames m →
    let r := take_live_chunk ps (keep_newest_chunk m) in whole_frames r.1 ∧ len r.1 ≤ CHUNK_BYTES
    ∧ ∀ chunk, r.2 = Some chunk → len chunk = CHUNK_BYTES ∧ ∃ front back, m ++ concat (peek_data <$> ps) = front ++ chunk ++ back) as Hrec.
  { intros m Hm. destruct (keep_newest_spec m Hm) as (front & Ef & El). destruct (IH (keep_newest_chunk m)) as (H1 & H2 & H3); [by apply Hkw|lia|done|].
    split; [done|]. split; [done|]. intros chunk Ec. destruct (H3 chunk Ec) as (Hlc & f & b & E). split; [done|].
    exists (front ++ f), b. rewrite Ef at 1. by rewrite <- !app_assoc, E. }
  destruct p as [| |data|].
  - destruct (Hend l Hw Hl) as (? & ? & H3). split_and!; [done..|]. intros chunk. apply H3.
  - exact (Hrec l Hw).
  - destruct (Hrec (l ++ data)) as (H1 & H2 & H3).
    { cbn [peek_data] in Hp. unfold whole_frames in *. rewrite len_app, Z.add_mod, Hw, Hp by done. done. }
    split_and!; [done..|]. intros chunk Ec. destruct (H3 chunk Ec) as (Hlc & f & b & E). split; [done|].
    exists f, b. rewrite <- E. cbn. by rewrite app_assoc.
  - cbn. by split_and!.
Qed.

(** ** Pace *)

(** The clock does not run backwards, and is read as a [u64] of milliseconds. *)
Fixpoint clock_from (t : Z) (ps : list Pulse) : Prop :=
  match ps with [] => True | p :: ps => t ≤ elapsed_ms p < 2 ^ 62 ∧ clock_from (elapsed_ms p) ps end.

Lemma budget_spec sent e next : 0 ≤ sent < 2 ^ 63 → 0 ≤ e < 2 ^ 63 → pcm_send_budget sent e = Some next →
  sent + CHUNK_MS ≤ next ∧ e - SNAP_BEHIND_MS + CHUNK_MS ≤ next ≤ e + MAX_AHEAD_MS.
Proof.
  unfold pcm_send_budget, saturating_add_u64, U64_MAX, CHUNK_MS, SNAP_BEHIND_MS, MAX_AHEAD_MS. intros Hs He.
  rewrite (Z.min_l (sent + 80)), (Z.min_l (e + 40)) by lia. destruct (_ <? _) eqn:E1; [apply Z.ltb_lt in E1|apply Z.ltb_ge in E1];
    rewrite Z.min_l by lia; (destruct (_ <=? _) eqn:E2; [|done]); apply Z.leb_le in E2; intros [= <-]; lia.
Qed.

(** What keeps the client within reach of the clock is sent. *)
Lemma budget_grants sent e : 0 ≤ sent < 2 ^ 63 → 0 ≤ e < 2 ^ 63 →
  pcm_send_budget sent e = None ↔ e + MAX_AHEAD_MS - CHUNK_MS < sent.
Proof.
  unfold pcm_send_budget, saturating_add_u64, U64_MAX, CHUNK_MS, SNAP_BEHIND_MS, MAX_AHEAD_MS. intros Hs He.
  rewrite (Z.min_l (sent + 80)), (Z.min_l (e + 40)) by lia. destruct (_ <? _) eqn:E1; [apply Z.ltb_lt in E1|apply Z.ltb_ge in E1];
    rewrite Z.min_l by lia; (destruct (_ <=? _) eqn:E2; [apply Z.leb_le in E2|apply Z.leb_gt in E2]); split; done || lia.
Qed.

Lemma capture_step_sent c p c' wave : 0 ≤ sent_ms c < 2 ^ 63 → 0 ≤ elapsed_ms p < 2 ^ 63 →
  capture_step c p = inr (c', wave) →
  match wave with
  | Some _ => sent_ms c + CHUNK_MS ≤ sent_ms c' ∧ elapsed_ms p - SNAP_BEHIND_MS + CHUNK_MS ≤ sent_ms c' ≤ elapsed_ms p + MAX_AHEAD_MS
  | None => sent_ms c' = sent_ms c
  end.
Proof.
  intros Hs He. unfold capture_step.
  destruct (stop_before p); [done|]. destruct (server_changed p); [done|].
  destruct (pulse_failed p); [done|]. destruct (stop_after p); [done|].
  destruct (match queued_bytes p with Some _ => _ | None => _ end); [by intros [= <- <-]|].
  destruct (take_live_chunk _ _) as [rest [chunk|]]; [|by intros [= <- <-]].
  destruct (pcm_send_budget _ _) as [next|] eqn:E; [|by intros [= <- <-]]. destruct (publisher_gone p); [done|].
  intros [= <- <-]. by apply budget_spec.
Qed.

(** Waves of a run, by the time they were published. *)
Definition published_between (e1 e2 : Z) (waves : list (Pulse * (bytes * Z))) : Z :=
  len (filter (λ w, e1 ≤ elapsed_ms w.1 ≤ e2) waves).

Lemma run_paced e1 e2 ps : e1 ≤ e2 → ∀ c t, 0 ≤ t < 2 ^ 62 → 0 ≤ sent_ms c ≤ t + MAX_AHEAD_MS → clock_from t ps →
  published_between e1 e2 (capture_run c ps).1 * CHUNK_MS
    ≤ Z.max 0 (e2 + MAX_AHEAD_MS - Z.max (sent_ms c) (e1 - SNAP_BEHIND_MS)).
Proof.
  intros He12. unfold published_between, CHUNK_MS, MAX_AHEAD_MS, SNAP_BEHIND_MS.
  induction ps as [|p ps IH]; intros c t Ht Hs Hc; cbn [capture_run]; [cbn [fst]; change (len (filter _ [])) with 0; lia|].
  destruct Hc as [He Hc]. pose proof (capture_step_sent c p) as Hstep.
  destruct (capture_step c p) as [e|[c' wave]]; [cbn [fst]; change (len (filter _ [])) with 0; lia|]. specialize (Hstep c' wave ltac:(lia) ltac:(lia) eq_refl).
  unfold CHUNK_MS, MAX_AHEAD_MS, SNAP_BEHIND_MS in Hstep.
  specialize (IH c' (elapsed_ms p)). destruct (capture_run c' ps) as [waves e]. cbn [fst] in IH.
  destruct wave as [w|]; cbn [fst].
  - specialize (IH ltac:(lia) ltac:(lia) Hc). rewrite filter_cons. case_decide as Hd; cbn [fst] in Hd.
    + rewrite len_cons. lia.
    + lia.
  - specialize (IH ltac:(lia) ltac:(lia) Hc). lia.
Qed.

Lemma run_chunks ps : ∀ c, whole_frames (leftover c) → len (leftover c) ≤ CHUNK_BYTES →
  Forall (λ p, Forall (λ k, whole_frames (peek_data k)) (peeks p)) ps →
  Forall (λ w, len w.2.1 = CHUNK_BYTES) (capture_run c ps).1.
Proof.
  induction ps as [|p ps IH]; intros c Hw Hl Hps; cbn [capture_run]; [constructor|]. inversion Hps as [|? ? Hp Hps']; subst.
  unfold capture_step.
  destruct (stop_before p); [constructor|]. destruct (server_changed p); [constructor|].
  destruct (pulse_failed p); [constructor|]. destruct (stop_after p); [constructor|].
  assert (∀ c', whole_frames (leftover c') → len (leftover c') ≤ CHUNK_BYTES →
    Forall (λ w : Pulse * (bytes * Z), len w.2.1 = CHUNK_BYTES) (let '(waves, e) := capture_run c' ps in (waves, e)).1) as Hnext.
  { intros c' Hw' Hl'. specialize (IH c' Hw' Hl' Hps'). by destruct (capture_run c' ps). }
  destruct (match queued_bytes p with Some _ => _ | None => _ end); [by apply Hnext|].
  destruct (take_live_chunk_spec (peeks p) (leftover c) Hw Hl Hp) as (Hw' & Hl' & Hch).
  destruct (take_live_chunk (peeks p) (leftover c)) as [rest [chunk|]]; cbn in Hw', Hl'; [|by apply Hnext].
  destruct (Hch chunk eq_refl) as [Hlen _]. destruct (pcm_send_budget _ _); [|by apply Hnext].
  destruct (publisher_gone p); [constructor|]. specialize (IH {| sent_ms := z; leftover := rest |} Hw' Hl' Hps').
  destruct (capture_run _ ps) as [waves e]. by constructor.
Qed.

(** C32. Sound keeps pace with the clock.  Whatever PulseAudio delivers, loses, or reports, and however
    long it stalls, as long as its fragments hold whole frames and the clock does not run backwards:
    every published wave holds exactly 20 ms; between any two readings of the clock the waves
    published last no longer than that time and 120 ms more, and from the start no longer than 40 ms
    more, so that a client that plays every sample falls no further behind however long the session
    lasts; and a chunk is dropped only when what was sent is more than 20 ms ahead. *)
Theorem capture_keeps_pace ps :
  Forall (λ p, Forall (λ k, whole_frames (peek_data k)) (peeks p)) ps → clock_from 0 ps →
  let waves := (capture_run AudioCapture_new ps).1 in
  Forall (λ w, len w.2.1 = CHUNK_BYTES) waves
  ∧ (∀ e1 e2, 0 ≤ e1 ≤ e2 → published_between e1 e2 waves * CHUNK_MS ≤ e2 - e1 + MAX_AHEAD_MS + SNAP_BEHIND_MS)
  ∧ (∀ e, 0 ≤ e → published_between 0 e waves * CHUNK_MS ≤ e + MAX_AHEAD_MS)
  ∧ ∀ sent e, 0 ≤ sent < 2 ^ 63 → 0 ≤ e < 2 ^ 63 → pcm_send_budget sent e = None → CHUNK_MS < sent - e.
Proof.
  intros Hps Hc. cbn zeta. split; [by apply run_chunks|]. split; [|split].
  - intros e1 e2 He. pose proof (run_paced e1 e2 ps ltac:(lia) AudioCapture_new 0 ltac:(lia) ltac:(by split) Hc) as H.
    unfold MAX_AHEAD_MS, SNAP_BEHIND_MS in *. change (sent_ms AudioCapture_new) with 0 in H. lia.
  - intros e He. pose proof (run_paced 0 e ps He AudioCapture_new 0 ltac:(lia) ltac:(by split) Hc) as H.
    unfold MAX_AHEAD_MS, SNAP_BEHIND_MS in *. change (sent_ms AudioCapture_new) with 0 in H. lia.
  - intros sent e Hs He Hn. apply budget_grants in Hn; [|done..]. unfold MAX_AHEAD_MS, CHUNK_MS in *. lia.
Qed.

(** A burst of two chunks after 10 ms, and a chunk after a stall of a second. *)
Definition sample_pulse (e : Z) (n : nat) : Pulse :=
  {| stop_before := false; server_changed := false; pulse_failed := false; stop_after := false; queued_bytes := None;
     peeks := [Data (replicate n 1)]; elapsed_ms := e; publisher_gone := false |}.
Definition sample_pulses : list Pulse := [sample_pulse 10 3840; sample_pulse 10 7680; sample_pulse 11 3840; sample_pulse 1011 3840].

Lemma sample_pulses_whole : Forall (λ p, Forall (λ k, whole_frames (peek_data k)) (peeks p)) sample_pulses.
Proof. unfold sample_pulses. repeat (apply Forall_cons; split); try apply Forall_nil_2; vm_compute; reflexivity. Qed.

Lemma capture_keeps_pace_witness :
  length (capture_run AudioCapture_new sample_pulses).1 = 3%nat
  ∧ published_between 10 1011 (capture_run AudioCapture_new sample_pulses).1 * CHUNK_MS ≤ 1011 - 10 + MAX_AHEAD_MS + SNAP_BEHIND_MS.
Proof.
  split; [vm_compute; reflexivity|].
  assert (clock_from 0 sample_pulses) as Hc by (unfold sample_pulses, sample_pulse; cbn [clock_from elapsed_ms]; lia).
  destruct (capture_keeps_pace sample_pulses sample_pulses_whole Hc) as (_ & H & _).
  exact (H 10 1011 ltac:(lia)).
Defined.
