(* ===== verification/AcceptLoop.v ===== *)
(** [RdpServer::run] and [Session::handle_connection] of [rdpcore-server/src/server/mod.rs] with
    [MAX_CONCURRENT_HANDSHAKES]: the loop that accepts connections, and the tasks that serve them,
    which share the limiter of failed log-ins, the permits of handshakes and the slots of sessions.

    A connection's own course is [Handshake.handle_connection]; here it is cut where it touches
    what the connections share, and an [action] is what happens between two such points, in the
    accept loop or in the task of one connection.  A run is any sequence of actions. *)
From stdpp Require Import gmap.
From S2P Require Import Prelude Cursor Utf Transport AuthLimit Headers Connector ConnectorFlow Credentials Wire Credssp Handshake.

Definition MAX_CONCURRENT_HANDSHAKES : nat := 16.

(** ** [tokio::sync::Semaphore] *)

Class Semaphore (S : Type) := {
  sem_new : nat → S;
  sem_try_acquire : S → option S;
  sem_release : S → S }.

(** As documented: a semaphore holds a number of permits; a permit is acquired when there is one,
    and given back when it is dropped.  [acquire_owned] waits until it can be acquired. *)
Class SemaphoreLaws (S : Type) `{!Semaphore S} := {
  available : S → nat;
  sem_new_law n : available (sem_new n) = n;
  sem_release_law s : available (sem_release s) = Datatypes.S (available s);
  sem_try_acquire_law s :
    match sem_try_acquire s with
    | Some s' => available s = Datatypes.S (available s')
    | None => available s = 0%nat
    end }.

Section accept_loop.
Context `{!ConstantTimeEq, Hsspi : !Sspi}.
Context {IpAddr : Type} `{Hcount : Countable IpAddr} {Sem : Type} `{!Semaphore Sem}.
Context (iter : gmap IpAddr FailureState → list (IpAddr * FailureState)) (params : HandshakeParams).
Abbreviation attempt := (Handshake.attempt (IpAddr := IpAddr)).
Abbreviation event := (AuthLimit.event (IpAddr := IpAddr)).

(** ** The state *)

(** The task of a connection: not yet run; in its handshake, with what its limiter is still to be
    told and how it will end; after it; and in the session loop. *)
Inductive conn :=
  | Spawned (t : attempt)
  | Negotiating (t : attempt) (todo : list (Z * event)) (v : verdict)
  | Negotiated (t : attempt) (a : Acceptor) (accepted : AcceptedConnection)
  | InSession (t : attempt) (a : Acceptor) (accepted : AcceptedConnection).

(** [pending] is the connection for which the accept loop waits for a permit. *)
Record server := {
  handshake_permits : Sem; session_slots : Sem; auth_limiter : gmap IpAddr FailureState;
  pending : option attempt; conns : gmap nat conn }.

Definition with_limiter m s :=
  Build_server (handshake_permits s) (session_slots s) m (pending s) (conns s).
Definition with_conns c s :=
  Build_server (handshake_permits s) (session_slots s) (auth_limiter s) (pending s) c.
Definition with_permits p s := Build_server p (session_slots s) (auth_limiter s) (pending s) (conns s).
Definition with_slots p s := Build_server (handshake_permits s) p (auth_limiter s) (pending s) (conns s).
Definition with_pending o s :=
  Build_server (handshake_permits s) (session_slots s) (auth_limiter s) o (conns s).

(** [with_max_sessions] and [build]. *)
Definition build (max_sessions : nat) : server :=
  {| handshake_permits := sem_new MAX_CONCURRENT_HANDSHAKES; session_slots := sem_new (max_sessions `max` 1);
     auth_limiter := ∅; pending := None; conns := ∅ |}.

(** ** The actions *)

(** What an action leaves, and what it tells or asks the limiter. *)
Definition effect : Type := option (server * list (Z * event)).

(** [accept] returns a connection: it is dropped if its address is blocked. *)
Definition accept (t : attempt) (now : Z) s : effect :=
  match pending s with
  | Some _ => None
  | None =>
    let '(m, blocked) := is_blocked (auth_limiter s) (at_ip t) now in
    Some (with_pending (if blocked then None else Some t) (with_limiter m s), [(now, Query (at_ip t))])
  end.

(** [acquire_owned] ends, and the task is spawned. *)
Definition spawn (id : nat) s : effect :=
  match pending s, conns s !! id, sem_try_acquire (handshake_permits s) with
  | Some t, None, Some p =>
    Some (with_permits p (with_pending None (with_conns (<[id := Spawned t]> (conns s)) s)), [])
  | _, _, _ => None
  end.

(** The permit of a handshake is dropped, with the task or before it goes on. *)
Definition drop_permit s := with_permits (sem_release (handshake_permits s)) s.
Definition drop_task (id : nat) s := with_conns (delete id (conns s)) s.

(** [peer_addr] fails. *)
Definition no_peer (id : nat) s : effect :=
  match conns s !! id with
  | Some (Spawned _) => Some (drop_permit (drop_task id s), [])
  | _ => None
  end.

Definition negotiation m (t : attempt) :=
  handle_connection iter (at_net t) (at_ip t) params true (start m (at_cleartext t)).

(** The connection's own look at the limiter, and the beginning of the handshake. *)
Definition check (id : nat) s : effect :=
  match conns s !! id with
  | Some (Spawned t) =>
    let now := clock (at_net t) 0 in
    let '(m, blocked) := is_blocked (auth_limiter s) (at_ip t) now in
    let '(w, v) := negotiation (auth_limiter s) t in
    let c := Negotiating t (tail (told (at_net t) (at_ip t) (log w))) v in
    let s1 := with_limiter m s in
    Some (if blocked then drop_permit (drop_task id s1) else with_conns (<[id := c]> (conns s1)) s1,
          [(now, Query (at_ip t))])
  | _ => None
  end.

(** The handshake tells the limiter how it went. *)
Definition tell (id : nat) s : effect :=
  match conns s !! id with
  | Some (Negotiating t ((now, e) :: todo) v) =>
    Some (with_limiter (AuthLimit.step iter (auth_limiter s) now e)
            (with_conns (<[id := Negotiating t todo v]> (conns s)) s), [(now, e)])
  | _ => None
  end.

(** The handshake is over, and its permit dropped. *)
Definition leave (id : nat) s : effect :=
  match conns s !! id with
  | Some (Negotiating t [] v) =>
    Some (drop_permit (match v with
                       | Steady a accepted => with_conns (<[id := Negotiated t a accepted]> (conns s)) s
                       | _ => drop_task id s
                       end), [])
  | _ => None
  end.

(** [try_acquire_owned] of a session slot. *)
Definition take_slot (id : nat) s : effect :=
  match conns s !! id with
  | Some (Negotiated t a accepted) =>
    Some (match sem_try_acquire (session_slots s) with
          | Some p => with_slots p (with_conns (<[id := InSession t a accepted]> (conns s)) s)
          | None => drop_task id s
          end, [])
  | _ => None
  end.

(** [run_steady_state] returns. *)
Definition end_session (id : nat) s : effect :=
  match conns s !! id with
  | Some (InSession _ _ _) => Some (with_slots (sem_release (session_slots s)) (drop_task id s), [])
  | _ => None
  end.

Inductive action :=
  | Accept (t : attempt) (now : Z) | Spawn (id : nat) | NoPeer (id : nat) | CheckAgain (id : nat)
  | Tell (id : nat) | Leave (id : nat) | TakeSlot (id : nat) | EndSession (id : nat).

Definition exec (x : action) : server → effect :=
  match x with
  | Accept t now => accept t now
  | Spawn id => spawn id
  | NoPeer id => no_peer id
  | CheckAgain id => check id
  | Tell id => tell id
  | Leave id => leave id
  | TakeSlot id => take_slot id
  | EndSession id => end_session id
  end.

Fixpoint run (xs : list action) s : effect :=
  match xs with
  | [] => Some (s, [])
  | x :: xs =>
    '(s, l) ← exec x s;
    '(s, l') ← run xs s;
    Some (s, l ++ l')
  end.

(** ** Counting tasks *)

Definition count (P : conn → bool) (m : gmap nat conn) : nat := size (filter (λ e, P e.2 = true) m).
Definition holds_permit c : bool := match c with Spawned _ | Negotiating _ _ _ => true | _ => false end.
Definition holds_slot c : bool := match c with InSession _ _ _ => true | _ => false end.

Implicit Types (s : server) (c : conn) (t : attempt) (l tr : list (Z * event)).

Lemma count_insert P m id c : m !! id = None → count P (<[id := c]> m) = (Nat.b2n (P c) + count P m)%nat.
Proof.
  intros Hid. unfold count. destruct (P c) eqn:E; cbn [Nat.b2n].
  - rewrite map_filter_insert_True by done. apply map_size_insert_None, map_lookup_filter_None. by left.
  - rewrite map_filter_insert_False, delete_id by (done || cbn; congruence). done.
Qed.
Lemma count_empty P : count P ∅ = 0%nat.
Proof. unfold count. by rewrite map_filter_empty. Qed.
Lemma count_delete P m id c : m !! id = Some c → count P m = (Nat.b2n (P c) + count P (delete id m))%nat.
Proof. intros Hid. rewrite <-(insert_delete_id m id c) at 1 by done. apply count_insert, lookup_delete_eq. Qed.
Lemma count_update P m id c c' : m !! id = Some c →
  (Nat.b2n (P c) + count P (<[id := c']> m) = Nat.b2n (P c') + count P m)%nat.
Proof.
  intros Hid. rewrite (count_delete P m id c Hid), <-insert_delete_eq, count_insert by apply lookup_delete_eq. lia.
Qed.
Lemma count_le P Q m : (∀ c, P c = true → Q c = true) → (count P m ≤ count Q m)%nat.
Proof. intros HPQ. apply map_subseteq_size, map_filter_subseteq_ext. intros i c _. apply HPQ. Qed.

(** ** The invariant *)

Context `{!SemaphoreLaws Sem}.

(** What has to be true of a connection to be let in. *)
Definition entered t (a : Acceptor) (accepted : AcceptedConnection) : Prop :=
  ∃ m nla info, (negotiation m t).2 = Steady a accepted
    ∧ log (negotiation m t).1 = proved nla ++ [ReceivedClientInfo info; RecordedSuccess]
    ∧ authorized params nla info = true ∧ (hp_require_nla params = true → is_Some nla).

Definition succeeded t l : Prop := ∃ now, (now, Success (at_ip t)) ∈ l.

Definition todo_ok t (todo : list (Z * event)) : Prop :=
  todo = [] ∨ ∃ now e, todo = [(now, e)] ∧ (e = Failure (at_ip t) ∨ e = Success (at_ip t)).

(** After the limiter was told [tr]. *)
Definition conn_ok tr c : Prop :=
  match c with
  | Spawned t => attempt_ok t
  | Negotiating t todo v =>
    todo_ok t todo ∧ ∀ a accepted, v = Steady a accepted → entered t a accepted ∧ succeeded t (tr ++ todo)
  | Negotiated t a accepted | InSession t a accepted => entered t a accepted ∧ succeeded t tr
  end.

Record server_ok (max_sessions : nat) tr s : Prop := {
  ok_permits : (available (handshake_permits s) + count holds_permit (conns s) = MAX_CONCURRENT_HANDSHAKES)%nat;
  ok_slots : (available (session_slots s) + count holds_slot (conns s) = max_sessions `max` 1)%nat;
  ok_pending : ∀ t, pending s = Some t → attempt_ok t;
  ok_conns : map_Forall (λ _, conn_ok tr) (conns s) }.

Definition action_ok (x : action) : Prop := match x with Accept t _ => attempt_ok t | _ => True end.

Lemma build_ok max_sessions : server_ok max_sessions [] (build max_sessions).
Proof.
  split; cbn [build handshake_permits session_slots pending conns]; rewrite ?sem_new_law, ?count_empty;
    [done|lia|done|apply map_Forall_empty].
Qed.

Lemma conn_ok_later tr l c : conn_ok tr c → conn_ok (tr ++ l) c.
Proof.
  unfold conn_ok, succeeded. destruct c as [t|t todo v|t a x|t a x]; [done|..].
  - intros [Ht Hv]. split; [done|]. intros a x E. destruct (Hv a x E) as (? & now & ?).
    split; [done|]. exists now. set_solver.
  - intros (? & now & ?). split; [done|]. exists now. set_solver.
  - intros (? & now & ?). split; [done|]. exists now. set_solver.
Qed.

Lemma course_todo t m k lg b m' k' :
  course iter (at_net t) (at_ip t) params m k lg b m' k' →
  let todo := tail (told (at_net t) (at_ip t) lg) in
  todo_ok t todo ∧ (b = true → succeeded t todo ∧ ∃ nla info,
    lg = proved nla ++ [ReceivedClientInfo info; RecordedSuccess]
    ∧ authorized params nla info = true ∧ (hp_require_nla params = true → is_Some nla)).
Proof.
  unfold todo_ok, succeeded. intros [nla| |nla|nla info|nla info Ha Hn]; (split; [try destruct nla; cbn; eauto 10|done || intros _]).
  split; [|by eauto]. exists (clock (at_net t) 1). destruct nla; cbn; set_solver.
Qed.

Lemma todo_of_negotiation m t : attempt_ok t →
  let '(w, v) := negotiation m t in
  let todo := tail (told (at_net t) (at_ip t) (log w)) in
  todo_ok t todo ∧ ∀ a accepted, v = Steady a accepted → entered t a accepted ∧ succeeded t todo.
Proof.
  intros (Hn & Hb & Hl).
  pose proof (handle_connection_ok iter (at_net t) (at_ip t) params true m (at_cleartext t) Hn Hb Hl) as Hok.
  fold (negotiation m t) in Hok. destruct (is_blocked _ _ _) as [m' blocked].
  destruct (negotiation m t) as [w v] eqn:E. destruct Hok as [Hc Hv].
  destruct (course_todo t _ _ _ _ _ _ Hc) as [Ht Hs]. split; [exact Ht|]. intros a accepted ->.
  destruct Hs as (Hs & nla & info & Hi); [apply Hv|]. split; [|exact Hs]. exists m, nla, info. by rewrite E.
Qed.

(** ** Actions keep it *)

(** An action on one connection, which becomes another, is new, or is gone. *)
Lemma ok_update max tr l s id c c' p q m o :
  server_ok max tr s → conns s !! id = Some c → conn_ok (tr ++ l) c' →
  (Nat.b2n (holds_permit c') + available p = Nat.b2n (holds_permit c) + available (handshake_permits s))%nat →
  (Nat.b2n (holds_slot c') + available q = Nat.b2n (holds_slot c) + available (session_slots s))%nat →
  (o = None ∨ o = pending s) →
  server_ok max (tr ++ l) (Build_server p q m o (<[id := c']> (conns s))).
Proof.
  intros [Hp Hq Ho Hc] Hid Hc' Hp' Hq' Ho'. split; cbn.
  - pose proof (count_update holds_permit _ _ _ c' Hid). lia.
  - pose proof (count_update holds_slot _ _ _ c' Hid). lia.
  - destruct Ho' as [-> | ->]; [done|exact Ho].
  - apply map_Forall_insert_2; [done|]. eapply map_Forall_impl; [exact Hc|]. intros ? ?. apply conn_ok_later.
Qed.
Lemma ok_delete max tr l s id c p q m o :
  server_ok max tr s → conns s !! id = Some c →
  (available p = Nat.b2n (holds_permit c) + available (handshake_permits s))%nat →
  (available q = Nat.b2n (holds_slot c) + available (session_slots s))%nat →
  (o = None ∨ o = pending s) →
  server_ok max (tr ++ l) (Build_server p q m o (delete id (conns s))).
Proof.
  intros [Hp Hq Ho Hc] Hid Hp' Hq' Ho'. split; cbn.
  - pose proof (count_delete holds_permit _ _ _ Hid). lia.
  - pose proof (count_delete holds_slot _ _ _ Hid). lia.
  - destruct Ho' as [-> | ->]; [done|exact Ho].
  - apply map_Forall_delete. eapply map_Forall_impl; [exact Hc|]. intros ? ?. apply conn_ok_later.
Qed.

#[local] Hint Extern 5 (_ = _ :> nat) => cbn; rewrite ?sem_release_law; cbn; lia : core.
Ltac leaving Hs Hid := eapply (ok_delete _ _ _ _ _ _ _ _ _ _ Hs Hid); auto.
Ltac becoming Hs Hid := eapply (ok_update _ _ _ _ _ _ _ _ _ _ _ Hs Hid); [|auto..].

Section exec_ok.
Context (max : nat) (tr : list (Z * event)) (s : server) (Hs : server_ok max tr s).

Lemma accept_ok t now s' l : attempt_ok t → accept t now s = Some (s', l) → server_ok max (tr ++ l) s'.
Proof.
  destruct Hs as [Hp Hq Ho Hc]. unfold accept. intros Ht E. destruct (pending s) eqn:Ep; [done|].
  destruct (is_blocked _ _ _) as [m blocked]. injection E as <- <-. split; cbn; [exact Hp|exact Hq|..].
  - intros t'. destruct blocked; [done|]. by intros [= <-].
  - eapply map_Forall_impl; [exact Hc|]. intros ? ?. apply conn_ok_later.
Qed.

Lemma spawn_ok id s' l : spawn id s = Some (s', l) → server_ok max (tr ++ l) s'.
Proof.
  destruct Hs as [Hp Hq Ho Hc]. unfold spawn. intros E.
  pose proof (sem_try_acquire_law (handshake_permits s)) as Hsem.
  destruct (pending s) as [t|] eqn:Ep, (conns s !! id) eqn:Hid, (sem_try_acquire _) as [p|]; try done.
  injection E as <- <-. split; cbn; rewrite ?count_insert by done; cbn; [lia|exact Hq|done|].
  apply map_Forall_insert_2; [by apply Ho|]. eapply map_Forall_impl; [exact Hc|]. intros ? ?. apply conn_ok_later.
Qed.

Lemma no_peer_ok id s' l : no_peer id s = Some (s', l) → server_ok max (tr ++ l) s'.
Proof.
  unfold no_peer. intros E. destruct (conns s !! id) as [[t| | |]|] eqn:Hid; try done.
  injection E as <- <-. leaving Hs Hid.
Qed.

Lemma check_ok id s' l : check id s = Some (s', l) → server_ok max (tr ++ l) s'.
Proof.
  unfold check. intros E. destruct (conns s !! id) as [[t| | |]|] eqn:Hid; try done.
  pose proof (todo_of_negotiation (auth_limiter s) t (ok_conns _ _ _ Hs _ _ Hid)) as Ht.
  destruct (is_blocked _ _ _) as [m blocked], (negotiation _ _) as [w v]. injection E as <- <-.
  destruct blocked; [leaving Hs Hid|]. becoming Hs Hid. destruct Ht as [Ht Hv]. split; [exact Ht|].
  intros a accepted Ev. destruct (Hv a accepted Ev) as (? & now & ?). split; [done|]. exists now. set_solver.
Qed.

Lemma tell_ok id s' l : tell id s = Some (s', l) → server_ok max (tr ++ l) s'.
Proof.
  unfold tell. intros E. destruct (conns s !! id) as [[|t [|[now e] todo] v| |]|] eqn:Hid; try done.
  injection E as <- <-. becoming Hs Hid. destruct (ok_conns _ _ _ Hs _ _ Hid) as [Ht Hv]. split.
  - left. by destruct Ht as [|(? & ? & [= _ _ ->] & _)].
  - by rewrite <-(assoc_L (++)).
Qed.

Lemma leave_conn_ok id s' l : leave id s = Some (s', l) → server_ok max (tr ++ l) s'.
Proof.
  unfold leave. intros E. destruct (conns s !! id) as [[|t [|] v| |]|] eqn:Hid; try done. injection E as <- <-.
  destruct (ok_conns _ _ _ Hs _ _ Hid) as [_ Hv]. destruct v as [| | | | | |a accepted]; [leaving Hs Hid..|].
  becoming Hs Hid. rewrite app_nil_r. specialize (Hv a accepted eq_refl). by rewrite app_nil_r in Hv.
Qed.

Lemma take_slot_ok id s' l : take_slot id s = Some (s', l) → server_ok max (tr ++ l) s'.
Proof.
  unfold take_slot. intros E. pose proof (sem_try_acquire_law (session_slots s)) as Hsem.
  destruct (conns s !! id) as [[| |t a accepted|]|] eqn:Hid; try done. injection E as <- <-.
  destruct (sem_try_acquire _) as [q|]; [becoming Hs Hid|leaving Hs Hid]. rewrite app_nil_r. apply (ok_conns _ _ _ Hs _ _ Hid).
Qed.

Lemma end_session_ok id s' l : end_session id s = Some (s', l) → server_ok max (tr ++ l) s'.
Proof.
  unfold end_session. intros E. destruct (conns s !! id) as [[| | |t a accepted]|] eqn:Hid; try done.
  injection E as <- <-. leaving Hs Hid.
Qed.
End exec_ok.
#[local] Hint Resolve accept_ok spawn_ok no_peer_ok check_ok tell_ok leave_conn_ok take_slot_ok end_session_ok : core.

Lemma exec_ok max tr x s s' l :
  server_ok max tr s → action_ok x → exec x s = Some (s', l) → server_ok max (tr ++ l) s'.
Proof. destruct x; cbn; eauto. Qed.

Lemma run_cons x xs s s' l : run (x :: xs) s = Some (s', l) →
  ∃ s1 l1 l2, exec x s = Some (s1, l1) ∧ run xs s1 = Some (s', l2) ∧ l = l1 ++ l2.
Proof.
  cbn. destruct (exec x s) as [[s1 l1]|]; [|done]. cbn. destruct (run xs s1) as [[s2 l2]|] eqn:E; [|done].
  intros [= <- <-]. by exists s1, l1, l2.
Qed.

Lemma run_app xs ys s s' l : run xs s = Some (s', l) →
  run (xs ++ ys) s = '(s2, l2) ← run ys s'; Some (s2, l ++ l2).
Proof.
  revert s l. induction xs as [|x xs IH]; intros s l E.
  - injection E as -> <-. cbn. by destruct (run ys s') as [[? ?]|].
  - apply run_cons in E as (s1 & l1 & l2 & E1 & E2 & ->). cbn. rewrite E1. cbn. rewrite (IH _ _ E2).
    destruct (run ys s') as [[? ?]|]; [|done]. cbn. by rewrite (assoc_L (++)).
Qed.

Lemma run_ok max xs : ∀ tr s s' l,
  server_ok max tr s → Forall action_ok xs → run xs s = Some (s', l) → server_ok max (tr ++ l) s'.
Proof.
  induction xs as [|x xs IH]; intros tr s s' l Hs Hxs E.
  - injection E as <- <-. by rewrite app_nil_r.
  - apply run_cons in E as (s1 & l1 & l2 & E1 & E2 & ->). apply Forall_cons in Hxs as [Hx Hxs].
    rewrite (assoc_L (++)). eapply IH; [by eapply exec_ok|done|done].
Qed.
(** ** Guesses *)

Lemma run_limiter x s s' l : exec x s = Some (s', l) → auth_limiter s' = run_events iter (auth_limiter s) l.
Proof.
  destruct x as [t now|id|id|id|id|id|id|id]; cbn [exec].
  - unfold accept. destruct (pending s); [done|]. destruct (is_blocked _ _ _) as [m b] eqn:Eb.
    intros [= <- <-]. cbn. by injection Eb.
  - unfold spawn. destruct (pending s), (conns s !! id), (sem_try_acquire (handshake_permits s)); try done. by intros [= <- <-].
  - unfold no_peer. destruct (conns s !! id) as [[]|]; try done. by intros [= <- <-].
  - unfold check. destruct (conns s !! id) as [[t| | |]|]; try done.
    destruct (is_blocked _ _ _) as [m b] eqn:Eb, (negotiation _ _) as [w v].
    injection Eb as <- _. destruct b; by intros [= <- <-].
  - unfold tell. destruct (conns s !! id) as [[|t [|[now e] todo] v| |]|]; try done. by intros [= <- <-].
  - unfold leave. destruct (conns s !! id) as [[|t [|] v| |]|]; try done. intros [= <- <-]. by destruct v.
  - unfold take_slot. destruct (conns s !! id) as [[]|]; try done. intros [= <- <-]. by destruct (sem_try_acquire (session_slots s)).
  - unfold end_session. destruct (conns s !! id) as [[]|]; try done. by intros [= <- <-].
Qed.

(** A connection that may still report a failed guess from [ip]. *)
Definition guessing (ip : IpAddr) c : bool :=
  match c with Negotiating t (_ :: _) _ => bool_decide (at_ip t = ip) | _ => false end.

Definition MAX_GUESSES : Z := MAX_FAILURES - 1 + Z.of_nat MAX_CONCURRENT_HANDSHAKES.

(** After [k] failures of [ip] since the time [since]. *)
Definition guess_inv (ip : IpAddr) since now k s : Prop :=
  0 ≤ k ∧ tracked since now k (auth_limiter s !! ip)
  ∧ (MAX_FAILURES ≤ k → k + Z.of_nat (count (guessing ip) (conns s)) ≤ MAX_GUESSES).

Lemma tracked_blocked since now k (ip : IpAddr) m later :
  MAX_FAILURES ≤ k → tracked since now k (m !! ip) → later < since + LOCKOUT → (is_blocked m ip later).2 = true.
Proof.
  unfold tracked, is_blocked, MAX_FAILURES. intros Hk Ht Hlt. rewrite !decide_False in Ht by lia.
  destruct Ht as (s & Hs & Ht). rewrite ?decide_False in Ht by lia. destruct Ht as (u & Hu & Hle). cbn [snd].
  assert (gc m later !! ip = Some s) as ->.
  { apply map_lookup_filter_Some. split; [exact Hs|]. cbn. unfold entry_live. rewrite Hu. lia. }
  rewrite Hu. lia.
Qed.
Lemma exec_length x s s' l : exec x s = Some (s', l) → (length l ≤ 1)%nat.
Proof.
  destruct x as [t now|id|id|id|id|id|id|id]; cbn [exec];
    unfold accept, spawn, no_peer, check, tell, leave, take_slot, end_session; repeat case_match; naive_solver.
Qed.

Lemma guesses_update ip id c c' s : conns s !! id = Some c →
  (Nat.b2n (guessing ip c') ≤ Nat.b2n (guessing ip c))%nat →
  (count (guessing ip) (<[id := c']> (conns s)) ≤ count (guessing ip) (conns s))%nat.
Proof. intros Hid Hc. pose proof (count_update (guessing ip) _ _ _ c' Hid). lia. Qed.
Lemma guesses_delete ip id c s : conns s !! id = Some c →
  (count (guessing ip) (delete id (conns s)) ≤ count (guessing ip) (conns s))%nat.
Proof. intros Hid. pose proof (count_delete (guessing ip) _ _ _ Hid). lia. Qed.

(** A guess that fails is one that was under way; a new one starts only where [ip] is not blocked. *)
Lemma check_guesses ip id s s' l :
  check id s = Some (s', l) →
  (∀ now, (now, Query ip) ∈ l → (is_blocked (auth_limiter s) ip now).2 = true) →
  (count (guessing ip) (conns s') ≤ count (guessing ip) (conns s))%nat ∧ ∃ now t, l = [(now, Query (at_ip t))].
Proof.
  unfold check. intros E Hq. destruct (conns s !! id) as [[t| | |]|] eqn:Hid; try done.
  destruct (is_blocked _ _ _) as [m b] eqn:Eb, (negotiation _ _) as [w v]. injection E as <- <-. split; [|by eauto].
  destruct b; cbn; [by eapply guesses_delete|]. apply (guesses_update ip id _ _ s Hid).
  set (todo := _ ≫= _). replace (guessing ip (Negotiating t todo v)) with false; [done|].
  unfold guessing. destruct todo; [done|]. symmetry. apply bool_decide_eq_false. intros <-.
  specialize (Hq (clock (at_net t) 0)). rewrite Eb in Hq. cbn in Hq. discriminate Hq. by left.
Qed.

Lemma tell_guesses max tr ip k id s s' l :
  server_ok max tr s → tell id s = Some (s', l) → Forall (λ e, e.2 ≠ Success ip) l →
  failures ip k l + Z.of_nat (count (guessing ip) (conns s')) = k + Z.of_nat (count (guessing ip) (conns s)).
Proof.
  unfold tell. intros Hs E Hsucc. destruct (conns s !! id) as [[|t [|[now e] todo] v| |]|] eqn:Hid; try done.
  injection E as <- <-. cbn [conns with_limiter with_conns].
  destruct (ok_conns _ _ _ Hs _ _ Hid) as [[|(now' & e' & [= <- <- ->] & He)] _]; [done|].
  pose proof (count_update (guessing ip) _ _ _ (Negotiating t [] v) Hid) as Hu. cbn in Hu.
  apply Forall_cons in Hsucc as [Hsucc _]. cbn in Hsucc. destruct (decide (at_ip t = ip)) as [<-|Hne].
  - rewrite bool_decide_true in Hu by done. destruct He as [-> | ->]; [|done]. cbn in *. rewrite decide_True by done. lia.
  - rewrite bool_decide_false in Hu by done. cbn in Hu. destruct He as [-> | ->]; cbn; rewrite decide_False by done; lia.
Qed.

Lemma guesses_step max tr ip k x s s' l :
  server_ok max tr s → exec x s = Some (s', l) → Forall (λ e, e.2 ≠ Success ip) l →
  (∀ now, (now, Query ip) ∈ l → (is_blocked (auth_limiter s) ip now).2 = true) →
  failures ip k l + Z.of_nat (count (guessing ip) (conns s')) ≤ k + Z.of_nat (count (guessing ip) (conns s)).
Proof.
  intros Hs E Hsucc Hq. destruct x as [t now|id|id|id|id|id|id|id]; cbn [exec] in E.
  - unfold accept in E. destruct (pending s); [done|]. destruct (is_blocked _ _ _).
    injection E as <- <-. cbn. lia.
  - unfold spawn in E. destruct (pending s), (conns s !! id) eqn:Hid, (sem_try_acquire (handshake_permits s)); try done.
    injection E as <- <-. cbn. rewrite count_insert by done. cbn. lia.
  - unfold no_peer in E. destruct (conns s !! id) as [[]|] eqn:Hid; try done. injection E as <- <-. cbn.
    pose proof (guesses_delete ip id _ s Hid). lia.
  - destruct (check_guesses ip id s s' l E Hq) as (Hc & now & t & ->). cbn. lia.
  - by erewrite tell_guesses.
  - unfold leave in E. destruct (conns s !! id) as [[|t [|] v| |]|] eqn:Hid; try done. injection E as <- <-.
    pose proof (guesses_delete ip id _ s Hid). destruct v; cbn; try lia.
    pose proof (guesses_update ip id _ (Negotiated t a accepted) s Hid). cbn in *. lia.
  - unfold take_slot in E. destruct (conns s !! id) as [[| |t a y|]|] eqn:Hid; try done. injection E as <- <-.
    pose proof (guesses_delete ip id _ s Hid). destruct (sem_try_acquire _); cbn; [|lia].
    pose proof (guesses_update ip id _ (InSession t a y) s Hid). cbn in *. lia.
  - unfold end_session in E. destruct (conns s !! id) as [[]|] eqn:Hid; try done. injection E as <- <-. cbn.
    pose proof (guesses_delete ip id _ s Hid). lia.
Qed.

(** *** What the limiter is told, as a sequence *)

Lemma times_app now l l' later : times_ok now (l ++ l') later → ∃ mid, times_ok now l mid ∧ times_ok mid l' later.
Proof.
  revert now. induction l as [|[u e] l IH]; intros now Ht; [exists now; by split; cbn; [lia|]|].
  destruct Ht as [Hu Ht]. apply IH in Ht as (mid & ? & ?). by exists mid.
Qed.
Lemma times_le now l later : times_ok now l later → now ≤ later.
Proof. revert now. induction l as [|[u e] l IH]; cbn; intros now; [done|]. intros [? ?%IH]. lia. Qed.
Lemma times_within now l later u e : times_ok now l later → (u, e) ∈ l → now ≤ u ≤ later.
Proof.
  intros Ht (l1 & l2 & ->)%list_elem_of_split. apply times_app in Ht as (mid & H1%times_le & [Hu H2%times_le]). lia.
Qed.
Lemma failures_app (ip : IpAddr) k l l' : failures ip k (l ++ l') = failures ip (failures ip k l) l'.
Proof. revert k. induction l as [|[u []] l IH]; cbn; intros k; auto. Qed.
Lemma failures_ge (ip : IpAddr) k l : Forall (λ e, e.2 ≠ Success ip) l → k ≤ failures ip k l.
Proof.
  intros Hl. revert k. induction Hl as [|[u e] l He _ IH]; intros k; [done|]. destruct e as [ip'|ip'|ip']; cbn in *.
  - etrans; [|apply IH]. case_decide; lia.
  - rewrite decide_False by congruence. apply IH.
  - apply IH.
Qed.
Lemma limiter_size_run m l : (size (run_events iter m l) ≤ size m + length l)%nat.
Proof.
  revert m. induction l as [|[u e] l IH]; intros m; cbn [run_events length]; [lia|].
  etrans; [apply IH|]. enough (size (AuthLimit.step iter m u e) ≤ S (size m))%nat by lia.
  destruct e as [ip|ip|ip]; cbn.
  - unfold record_failure. etrans; [apply limiter_insert_le|]. apply le_n_S. etrans; [|apply size_gc].
    apply map_subseteq_size, evict_subseteq.
  - unfold record_success. rewrite map_size_delete. destruct (m !! ip); cbn; lia.
  - pose proof (size_gc m u). lia.
Qed.

Lemma guess_exec max tr ip since now k x s s' l later :
  server_ok max tr s → guess_inv ip since now k s → exec x s = Some (s', l) →
  times_ok now l later → since ≤ now → later ≤ since + WINDOW →
  (size (auth_limiter s) + length l < MAX_TRACKED)%nat → Forall (λ e, e.2 ≠ Success ip) l →
  guess_inv ip since later (failures ip k l) s'.
Proof.
  intros Hs (Hk & Ht & Hb) E Htimes Hnow Hw Hsize Hsucc. pose proof (failures_ge ip k l Hsucc) as Hge.
  split; [lia|]. split.
  { rewrite (run_limiter _ _ _ _ E). by eapply run_events_tracked. }
  intros H5. pose proof (guesses_step max tr ip k x s s' l Hs E Hsucc) as Hstep.
  destruct (decide (MAX_FAILURES ≤ k)) as [Hk5|Hk5].
  - etrans; [apply Hstep|by apply Hb]. intros u Hu. eapply tracked_blocked; [done..|].
    pose proof (times_within _ _ _ _ _ Htimes Hu). unfold WINDOW, LOCKOUT in *. lia.
  - etrans; [apply Hstep|].
    + intros u Hu. pose proof (exec_length _ _ _ _ E). destruct l as [|y [|]]; cbn in *; [set_solver| |lia].
      apply list_elem_of_singleton in Hu as <-. cbn in H5. lia.
    + pose proof (count_le (guessing ip) holds_permit (conns s)) as Hc. pose proof (ok_permits _ _ _ Hs).
      assert (count (guessing ip) (conns s) ≤ count holds_permit (conns s))%nat by (apply Hc; by intros []).
      unfold MAX_GUESSES, MAX_FAILURES in *. lia.
Qed.

Lemma guess_run max ip since xs : ∀ tr now k s s' l later,
  server_ok max tr s → guess_inv ip since now k s → Forall action_ok xs → run xs s = Some (s', l) →
  times_ok now l later → since ≤ now → later ≤ since + WINDOW →
  (size (auth_limiter s) + length l < MAX_TRACKED)%nat → Forall (λ e, e.2 ≠ Success ip) l →
  guess_inv ip since later (failures ip k l) s'.
Proof.
  induction xs as [|x xs IH]; intros tr now k s s' l later Hs Hg Hxs E Ht Hnow Hw Hsize Hl.
  - injection E as <- <-. destruct Hg as (Hk & Hg & Hb). split; [done|]. split; [|done].
    by eapply tracked_mono.
  - apply run_cons in E as (s1 & l1 & l2 & E1 & E2 & ->). apply Forall_cons in Hxs as [Hx Hxs].
    apply times_app in Ht as (mid & Ht1 & Ht2). apply Forall_app in Hl as [Hl1 Hl2]. rewrite length_app in Hsize.
    pose proof (times_le _ _ _ Ht1). pose proof (times_le _ _ _ Ht2). rewrite failures_app.
    eapply (IH (tr ++ l1) mid); try done; [by eapply exec_ok|eapply guess_exec; try done; lia|lia|].
    rewrite (run_limiter _ _ _ _ E1). pose proof (limiter_size_run (auth_limiter s) l1). lia.
Qed.
(** C12. Guessing in parallel.  Let no handshake of an address be under way, and the limiter hold
    nothing against it.  In whatever order the connections then progress, however many of them it
    opens and whatever they send, and whatever the other addresses do, no more than twenty
    handshakes of that address fail within the next minute as long as none succeeds and the
    limiter's table does not fill up: four that leave it free, and sixteen that were let into
    their handshake before the fifth failure was recorded.  After five failures it is blocked
    until at least five minutes from the start of that minute. *)
Theorem parallel_guesses_bounded max tr ip s xs s' l since now :
  server_ok max tr s → auth_limiter s !! ip = None → count (guessing ip) (conns s) = 0%nat →
  Forall action_ok xs → run xs s = Some (s', l) →
  times_ok since l now → now ≤ since + WINDOW →
  (size (auth_limiter s) + length l < MAX_TRACKED)%nat → Forall (λ e, e.2 ≠ Success ip) l →
  failures ip 0 l ≤ MAX_FAILURES - 1 + Z.of_nat MAX_CONCURRENT_HANDSHAKES
  ∧ (MAX_FAILURES ≤ failures ip 0 l →
     ∀ later, later < since + LOCKOUT → (is_blocked (auth_limiter s') ip later).2 = true).
Proof.
  intros Hs Hip Hg Hxs E Ht Hw Hsize Hl.
  assert (guess_inv ip since since 0 s) as Hinv by (split; [done|]; rewrite Hip; by split).
  eapply guess_run in Hinv as (_ & Htr & Hb); [|done..|lia|done|done|done]. split.
  - destruct (decide (MAX_FAILURES ≤ failures ip 0 l)) as [H5|]; [specialize (Hb H5)|]; unfold MAX_GUESSES in *; lia.
  - intros H5 later Hlater. by eapply tracked_blocked.
Qed.

(** C11. Admission.  In any run of a new server, at most sixteen connections are in their handshake and
    at most [max_sessions] in their session, and the permits and slots that are not held are there
    to be acquired: none leaks, however a connection ends.  A connection is in a session only if
    the handshake of its bytes completed, with credentials that were authorized (by CredSSP, where
    the server requires it), and after the limiter was told of the success. *)
Theorem admission_bounded max xs s l :
  Forall action_ok xs → run xs (build max) = Some (s, l) →
  (available (handshake_permits s) + count holds_permit (conns s) = MAX_CONCURRENT_HANDSHAKES)%nat
  ∧ (available (session_slots s) + count holds_slot (conns s) = max `max` 1)%nat
  ∧ ∀ id t a accepted, conns s !! id = Some (InSession t a accepted) → entered t a accepted ∧ succeeded t l.
Proof.
  intros Hxs E. destruct (run_ok max xs [] _ _ _ (build_ok max) Hxs E) as [Hp Hq _ Hc].
  split; [exact Hp|]. split; [exact Hq|]. intros id t a accepted Hid. apply (Hc _ _ Hid).
Qed.

(** *** The connection that waits for a permit *)

Lemma count_pos P m : (0 < count P m)%nat → ∃ id c, m !! id = Some c ∧ P c = true.
Proof.
  unfold count. intros Hc. destruct (map_choose (filter (λ e, P e.2 = true) m)) as (id & c & Hid).
  { intros E. rewrite E, map_size_empty in Hc. lia. }
  apply map_lookup_filter_Some in Hid as [Hid Hc']. by exists id, c.
Qed.

Definition on_task (id : nat) (x : action) : Prop := x = CheckAgain id ∨ x = Tell id ∨ x = Leave id.

(** Some actions of the task [id] alone give its permit back. *)
Definition gives_back (id : nat) s : Prop :=
  ∃ xs s' l, Forall (on_task id) xs ∧ (length xs ≤ 3)%nat ∧ run xs s = Some (s', l)
    ∧ (0 < available (handshake_permits s'))%nat ∧ pending s' = pending s.

Lemma gives_back_exec id x s s1 l1 : on_task id x → exec x s = Some (s1, l1) → pending s1 = pending s →
  (∃ xs s' l, Forall (on_task id) xs ∧ (length xs ≤ 2)%nat ∧ run xs s1 = Some (s', l)
    ∧ (0 < available (handshake_permits s'))%nat ∧ pending s' = pending s1) → gives_back id s.
Proof.
  intros Hx E Hp (xs & s' & l & Hxs & Hlen & Er & Ha & Hp'). exists (x :: xs), s', (l1 ++ l).
  split; [by constructor|]. split; [cbn; lia|]. cbn [run]. rewrite E. cbn. rewrite Er. by rewrite Hp'.
Qed.

Lemma negotiating_leaves id t todo v s : todo_ok t todo → conns s !! id = Some (Negotiating t todo v) →
  ∃ xs s' l, Forall (on_task id) xs ∧ (length xs ≤ 2)%nat ∧ run xs s = Some (s', l)
    ∧ (0 < available (handshake_permits s'))%nat ∧ pending s' = pending s.
Proof.
  intros [->|(now & e & -> & _)] Hid.
  - exists [Leave id]. cbn. unfold leave. rewrite Hid. eexists _, _. split_and!; [|lia|done|..].
    + rewrite Forall_singleton. unfold on_task. auto.
    + cbn. rewrite sem_release_law. lia.
    + by destruct v.
  - exists [Tell id; Leave id]. cbn. unfold tell. rewrite Hid. cbn. unfold leave. cbn. rewrite lookup_insert_eq. cbn.
    eexists _, _. split_and!; [|lia|done|..].
    + rewrite !Forall_cons. unfold on_task. auto 10.
    + cbn. rewrite sem_release_law. lia.
    + by destruct v.
Qed.

Lemma holder_gives_back max tr id c s : server_ok max tr s → conns s !! id = Some c → holds_permit c = true →
  gives_back id s.
Proof.
  intros Hs Hid Hc. pose proof (ok_conns _ _ _ Hs _ _ Hid) as Hok.
  destruct c as [t|t todo v|t a y|t a y]; try done.
  - pose proof (todo_of_negotiation (auth_limiter s) t Hok) as Ht.
    destruct (is_blocked (auth_limiter s) (at_ip t) (clock (at_net t) 0)) as [m b] eqn:Eb.
    destruct (negotiation (auth_limiter s) t) as [w v] eqn:En. destruct b.
    + exists [CheckAgain id]. cbn. unfold check. rewrite Hid, Eb, En. eexists _, _.
      split_and!; [rewrite Forall_singleton; unfold on_task; auto|lia|done| |done].
      cbn. rewrite sem_release_law. lia.
    + eapply (gives_back_exec id (CheckAgain id)); [by left|cbn; unfold check; by rewrite Hid, Eb, En|done|].
      eapply negotiating_leaves; [apply Ht|apply lookup_insert_eq].
  - destruct Hok as [Hok _]. destruct (negotiating_leaves id t todo v s Hok Hid) as (xs & s' & l & ?&?&?&?&?).
    exists xs, s', l. split_and!; done || lia.
Qed.

(** A connection that waits for a permit is not stuck: wherever the others are, at most three more
    actions, of one of them, let it in. *)
Theorem waiting_admitted max tr s t : server_ok max tr s → pending s = Some t →
  ∃ other id xs s' l, Forall (on_task other) xs ∧ (length xs ≤ 3)%nat
    ∧ run (xs ++ [Spawn id]) s = Some (s', l) ∧ pending s' = None ∧ conns s' !! id = Some (Spawned t).
Proof.
  intros Hs Hp. assert (∃ other, gives_back other s) as [other (xs & s1 & l & Hxs & Hlen & E & Ha & Hp1)].
  { destruct (available (handshake_permits s)) as [|k] eqn:Ea.
    - pose proof (ok_permits _ _ _ Hs) as Hc. destruct (count_pos holds_permit (conns s)) as (id & c & Hid & Hc').
      { rewrite Ea in Hc. unfold MAX_CONCURRENT_HANDSHAKES in Hc. lia. }
      exists id. by eapply holder_gives_back.
    - exists 0%nat, [], s, []. split_and!; [done|cbn; lia|done|lia|done]. }
  exists other, (fresh (dom (conns s1))), xs. pose proof (is_fresh (dom (conns s1))) as Hf.
  apply not_elem_of_dom in Hf. rewrite Hp in Hp1. pose proof (sem_try_acquire_law (handshake_permits s1)) as Hsem.
  destruct (sem_try_acquire (handshake_permits s1)) as [q|] eqn:Eq; [|lia].
  erewrite run_app by exact E. cbn. unfold spawn. rewrite Hp1, Hf, Eq. cbn. eexists _, _.
  split_and!; [done..|]. apply lookup_insert_eq.
Qed.
End accept_loop.

(** ** Concrete runs *)

#[local] Existing Instances plain_eq one_byte_sspi.

#[local] Instance nat_semaphore : Semaphore nat := {
  sem_new n := n; sem_try_acquire n := match n with O => None | S n => Some n end; sem_release := S }.
#[local] Program Instance nat_semaphore_laws : SemaphoreLaws nat := {| available n := n |}.
Next Obligation. done. Qed.
Next Obligation. done. Qed.
Next Obligation. by intros []. Qed.

(** A client that is let in, or that proves a wrong account, a tenth of a microsecond after it came. *)
Definition client (proof now : Z) : attempt (IpAddr := Z) :=
  {| at_net := {| hangs_up := false; tls_accept := tls_accept (sample_net proof now);
                  write_ends _ := Some true; clock k := now + 100 * Z.of_nat k |};
     at_ip := 7; at_cleartext := default [] (head sample_inputs); at_slot := true |}.
(** One that sends nothing. *)
Definition silent (now : Z) : attempt (IpAddr := Z) :=
  {| at_net := {| hangs_up := false; tls_accept := None; write_ends _ := Some true; clock k := now + 30 * 10 ^ 9 * Z.of_nat k |};
     at_ip := 7; at_cleartext := []; at_slot := true |}.

Definition arrives (id : nat) (t : attempt (IpAddr := Z)) : list action :=
  [Accept t (clock (at_net t) 0); Spawn id; CheckAgain id].
Definition one_by_one : list action :=
  seq 0 4 ≫= λ i, arrives i (client 2 (1000 * Z.of_nat i)) ++ [Tell i; Leave i].
Definition all_at_once : list action :=
  (seq 0 16 ≫= λ i, arrives i (client 2 (4000 + Z.of_nat i))) ++ (Tell <$> seq 0 16).
Definition sample_run := run (Sem := nat) (IpAddr := Z) map_to_list sample_params.
Definition new_server : server (IpAddr := Z) (Sem := nat) := build 1.

Lemma client_ok proof now : byte_ok proof → attempt_ok (client proof now).
Proof. apply (sample_attempt_ok proof now). Qed.

Lemma arrives_ok i proof now : byte_ok proof → Forall action_ok (arrives i (client proof now)).
Proof. intros Hp. unfold arrives. rewrite !Forall_cons. split; [by apply client_ok|done]. Qed.

Lemma guesses_ok : Forall action_ok (one_by_one ++ all_at_once).
Proof.
  apply Forall_app. split; [|apply Forall_app; split].
  - apply Forall_bind, Forall_forall. intros i _. apply Forall_app. split; [by apply arrives_ok; vm_compute|by repeat constructor].
  - apply Forall_bind, Forall_forall. intros i _. by apply arrives_ok; vm_compute.
  - apply Forall_fmap, Forall_forall. by intros i _.
Qed.

(** The bound is reached: four guesses one after the other and sixteen at once. *)
Lemma parallel_guesses_bounded_witness :
  ∃ s l, sample_run (one_by_one ++ all_at_once) new_server = Some (s, l)
    ∧ failures 7 0 l = 20 ∧ 20 ≤ MAX_FAILURES - 1 + Z.of_nat MAX_CONCURRENT_HANDSHAKES
    ∧ (is_blocked (auth_limiter s) 7 (200 * 10 ^ 9)).2 = true.
Proof.
  assert (snd <$> sample_run (one_by_one ++ all_at_once) new_server =
    Some (default [] (snd <$> sample_run (one_by_one ++ all_at_once) new_server))) as El by (vm_compute; reflexivity).
  set (l0 := default [] _) in El. vm_compute in l0.
  destruct (sample_run (one_by_one ++ all_at_once) new_server) as [[s l]|] eqn:E; [|discriminate El].
  injection El as ->. exists s, l0. split; [reflexivity|].
  assert (failures 7 0 l0 = 20) as Hf by (vm_compute; reflexivity).
  destruct (parallel_guesses_bounded map_to_list sample_params 1 [] 7 new_server (one_by_one ++ all_at_once) s l0 0 4115)
    as [Hb Hl]; [apply build_ok|reflexivity|reflexivity|apply guesses_ok|exact E|..].
  - vm_compute. repeat split; discriminate.
  - by vm_compute.
  - apply Nat.ltb_lt. vm_compute. reflexivity.
  - vm_compute. repeat constructor; discriminate.
  - rewrite Hf in Hb, Hl. split; [exact Hf|]. split; [exact Hb|]. apply Hl; by vm_compute.
Defined.

(** A client of the right account comes into a session. *)
Definition one_session : list action := arrives 0 (client 1 0) ++ [Tell 0; Leave 0; TakeSlot 0].
Lemma one_session_ok : Forall action_ok one_session.
Proof. apply Forall_app. split; [by apply arrives_ok; vm_compute|by repeat constructor]. Qed.
Definition session_of (s : server (IpAddr := Z) (Sem := nat)) : option attempt :=
  match conns s !! 0%nat with Some (InSession t _ _) => Some t | _ => None end.

Lemma admission_bounded_witness :
  ∃ s l a accepted, sample_run one_session new_server = Some (s, l)
    ∧ conns s !! 0%nat = Some (InSession (client 1 0) a accepted) ∧ succeeded (client 1 0) l
    ∧ (available (session_slots s) + count holds_slot (conns s) = 1)%nat.
Proof.
  assert ((λ r, session_of r.1) <$> sample_run one_session new_server = Some (Some (client 1 0))) as Hs
    by (vm_compute; reflexivity).
  destruct (sample_run one_session new_server) as [[s l]|] eqn:E; [|discriminate Hs].
  apply (inj Some) in Hs. cbn [fst] in Hs. unfold session_of in Hs.
  destruct (conns s !! 0%nat) as [[| | |t a accepted]|] eqn:Hid; try discriminate Hs. apply (inj Some) in Hs. subst t.
  exists s, l, a, accepted. split; [reflexivity|]. split; [exact Hid|].
  destruct (admission_bounded map_to_list sample_params 1 one_session s l) as (_ & Hslots & Hin).
  - exact one_session_ok.
  - exact E.
  - split; [apply (Hin _ _ _ _ Hid)|exact Hslots].
Defined.

(** Sixteen clients that send nothing, and the next one: the loop accepts nobody. *)
Definition idle_clients : list action :=
  (seq 0 16 ≫= λ i, arrives i (silent (Z.of_nat i))) ++ [Accept (client 1 100) 100].

Lemma idle_clients_stop_accept :
  match sample_run idle_clients new_server with
  | Some (s, _) => pending s = Some (client 1 100) ∧ handshake_permits s = 0%nat ∧ ∀ t now, exec map_to_list sample_params (Accept t now) s = None
  | None => False
  end.
Proof. vm_compute. repeat split. Qed.
