(* ===== verification/SelectRead.v ===== *)
(** The read of the client in the [tokio::select!] of [session_loop.rs], with the readers of
    [rdpcore-server/src/transport.rs] as futures.

    [read_exact] takes the bytes that are there and keeps them in its future until it has them all;
    the loop makes the future anew in every turn, and drops it when another arm completes.  A
    [future] is what is still to be read; [poll] is one poll of it.  The readers of [Transport] are
    what the futures compute when nothing interrupts them. *)
From S2P Require Import Prelude Cursor Framing Finalization Fastpath Transport.

(** ** Futures *)

Inductive future (A : Type) :=
  | Ready (x : A)
  | Fails (e : IoError)
  | Panics
  | ReadExact (n : Z) (k : bytes → future A).
Arguments Ready {A} x.
Arguments Fails {A} e.
Arguments Panics {A}.
Arguments ReadExact {A} n k.

Fixpoint future_then {A B} (k : A → future B) (m : future A) : future B :=
  match m with
  | Ready x => k x
  | Fails e => Fails e
  | Panics => Panics
  | ReadExact n c => ReadExact n (λ b, future_then k (c b))
  end.
Global Instance future_ret : MRet future := @Ready.
Global Instance future_bind : MBind future := @future_then.

(** The readers of [transport.rs]. *)
Definition f_byte_of (l : bytes) (i : nat) : future Z := match l !! i with Some b => Ready b | None => Panics end.
Definition f_usize_sub (n m : Z) : future Z := if decide (m ≤ n) then Ready (n - m) else Panics.
Definition f_invalid_framing {A} (msg : string) : future A := Fails (InvalidData msg).
Definition f_read_exact (n : Z) : future bytes := ReadExact n Ready.

Definition f_read_fastpath_frame_after (header_byte : Z) : future bytes :=
  b ← f_read_exact 1;
  b1 ← f_byte_of b 0;
  let buf := [header_byte; b1] in
  '(buf, total_length) ←
    (if Z.land b1 0x80 =? 0 then mret (buf, b1)
     else
       third ← f_read_exact 1;
       b2 ← f_byte_of third 0;
       mret (buf ++ [b2], Z.lor (Z.shiftl (Z.land b1 0x7F) 8) b2));
  if total_length <? len buf then f_invalid_framing "fast-path length shorter than header" else
  n ← f_usize_sub total_length (len buf);
  rest ← f_read_exact n;
  mret (buf ++ rest).

Definition f_read_tpkt_frame_after : future bytes :=
  rest_of_header ← f_read_exact 3;
  h1 ← f_byte_of rest_of_header 1;
  h2 ← f_byte_of rest_of_header 2;
  let packet_length := from_be [h1; h2] in
  if packet_length <? 4 then f_invalid_framing "TPKT length shorter than header" else
  n ← f_usize_sub packet_length 4;
  rest ← f_read_exact n;
  mret (0x03 :: rest_of_header ++ rest).

Definition f_read_steady_state_frame : future SteadyStateFrame :=
  header_byte ← f_read_exact 1;
  h ← f_byte_of header_byte 0;
  if h =? 0x03 then frame ← f_read_tpkt_frame_after; mret (SlowPath frame)
  else frame ← f_read_fastpath_frame_after h; mret (FastPathInput frame).

(** A future that is let to its end on the bytes of a stream. *)
Fixpoint completes {A} (f : future A) (s : bytes) : res IoError (A * bytes) :=
  match f with
  | Ready x => Ok (x, s)
  | Fails e => Err e
  | Panics => Panic
  | ReadExact n k => if decide (n ≤ len s) then completes (k (ztake n s)) (zdrop n s) else Err UnexpectedEof
  end.

Lemma completes_bind {A B} (m : future A) (k : A → future B) s :
  completes (m ≫= k) s = match completes m s with Ok (x, s) => completes (k x) s | Err e => Err e | Panic => Panic end.
Proof.
  revert s. induction m as [x|e| |n c IH]; intros s; cbn; [done..|]. case_decide; [|done]. apply IH.
Qed.

(** [f] computes what [m] does. *)
Definition computes {A} (f : future A) (m : stream A) : Prop := ∀ s, completes f s = m s.

Lemma computes_bind {A B} f (m : stream A) (k : A → future B) (k' : A → stream B) :
  computes f m → (∀ x, computes (k x) (k' x)) → computes (f ≫= k) (m ≫= k').
Proof.
  intros Hf Hk s. rewrite completes_bind, Hf. unfold mbind, stream_bind.
  destruct (m s) as [[x s']| |]; [apply Hk|done..].
Qed.
Lemma computes_ret {A} (x : A) : computes (mret x) (mret x).
Proof. done. Qed.
Lemma computes_fail {A} (msg : string) : computes (A := A) (f_invalid_framing msg) (invalid_framing msg).
Proof. done. Qed.
Lemma computes_read n : computes (f_read_exact n) (read_exact n).
Proof. done. Qed.
Lemma computes_byte l i : computes (f_byte_of l i) (byte_of l i).
Proof. intros s. unfold f_byte_of, byte_of. by destruct (l !! i). Qed.
Lemma computes_sub n m : computes (f_usize_sub n m) (usize_sub n m).
Proof. intros s. unfold f_usize_sub, usize_sub. by case_decide. Qed.
Lemma computes_if {A} (b : bool) (f g : future A) (m m' : stream A) :
  computes f m → computes g m' → computes (if b then f else g) (if b then m else m').
Proof. by destruct b. Qed.

Create HintDb computes.
#[local] Hint Resolve computes_ret computes_fail computes_read computes_byte computes_sub : computes.
Ltac computing := repeat (first [apply computes_if | apply computes_bind; [|intros ?] | case_match]; eauto with computes).

(** The futures are the readers of [Transport]. *)
Lemma steady_frame_computes : computes f_read_steady_state_frame read_steady_state_frame.
Proof. unfold f_read_steady_state_frame, read_steady_state_frame, f_read_tpkt_frame_after, read_tpkt_frame_after, f_read_fastpath_frame_after, read_fastpath_frame_after. computing. Qed.

(** ** Polling *)

Inductive polled (A : Type) := PReady (x : A) (inbox : bytes) | PFailed (e : IoError) | PPanicked | Pending (f : future A) (got : bytes).
Arguments PReady {A} x inbox.
Arguments PFailed {A} e.
Arguments PPanicked {A}.
Arguments Pending {A} f got.

(** [got] is what the [read_exact] that [f] is in has taken so far, [inbox] what has arrived. *)
Fixpoint poll {A} (f : future A) (got inbox : bytes) : polled A :=
  match f with
  | Ready x => PReady x inbox
  | Fails e => PFailed e
  | Panics => PPanicked
  | ReadExact n k =>
    let b := got ++ inbox in
    if decide (n ≤ len b) then poll (k (ztake n b)) [] (zdrop n b) else Pending (ReadExact n k) b
  end.

Definition waits {A} (f : future A) (got : bytes) : Prop := match f with ReadExact _ _ => True | _ => got = [] end.

(** A poll goes on where the future was, and takes what it needs. *)
Lemma poll_spec {A} (f : future A) : ∀ got inbox, waits f got →
  match poll f got inbox with
  | PReady x rest => ∀ more, completes f (got ++ inbox ++ more) = Ok (x, rest ++ more)
  | PFailed e => ∀ more, completes f (got ++ inbox ++ more) = Err e
  | PPanicked => ∀ more, completes f (got ++ inbox ++ more) = Panic
  | Pending f' got' => waits f' got' ∧ ∀ more, completes f (got ++ inbox ++ more) = completes f' (got' ++ more)
  end.
Proof.
  induction f as [x|e| |n k IH]; intros got inbox Hw; cbn [poll waits] in *; [by subst got..|].
  case_decide as Hn; [|split; [done|]; intros more; by rewrite (assoc_L (++))].
  assert (∀ more, completes (ReadExact n k) (got ++ inbox ++ more)
    = completes (k (ztake n (got ++ inbox))) ([] ++ zdrop n (got ++ inbox) ++ more)) as E.
  { intros more. cbn [completes]. pose proof (len_nonneg more).
    rewrite decide_True by (rewrite (assoc_L (++)), len_app; lia). unfold ztake, zdrop, len in *.
    rewrite (assoc_L (++)), take_app_le, drop_app_le by lia. done. }
  specialize (IH (ztake n (got ++ inbox)) [] (zdrop n (got ++ inbox))).
  assert (waits (k (ztake n (got ++ inbox))) []) as Hk by (by destruct (k _)). specialize (IH Hk).
  destruct (poll _ [] _); [intros more; rewrite E; apply IH..|]. destruct IH as [IHw IH]. split; [exact IHw|].
  intros more. rewrite E. apply IH.
Qed.

Lemma poll_short {A} (f : future A) : ∀ got inbox f' got',
  poll f got inbox = Pending f' got' → completes f' got' = Err UnexpectedEof.
Proof.
  induction f as [x|e| |n k IH]; intros got inbox f' got' E; cbn in E; [done..|]. case_decide as Hn; [by eapply IH|].
  injection E as <- <-. cbn. by rewrite decide_False.
Qed.

(** ** The loop *)

(** The future of the turn, with what its [read_exact] has got, and what has arrived.  [taken] is a
    ghost: the bytes that the future has taken since it was made. *)
Record reading := { next_frame : future SteadyStateFrame; got : bytes; inbox : bytes; taken : bytes }.

(** A turn begins. *)
Definition turn (inbox : bytes) : reading :=
  {| next_frame := f_read_steady_state_frame; got := []; inbox := inbox; taken := [] |}.

(** Bytes arrive; or the [select] is polled, its arms in order, with another arm ready or not. *)
Inductive event := Arrives (b : bytes) | Polled (other : bool).

(** What comes of a turn: a frame for the session, or a future dropped with what it has taken. *)
Inductive outcome := Delivered (frame : SteadyStateFrame) | Dropped (b : bytes).

Definition select_step (ev : event) (r : reading) : list outcome * res IoError reading :=
  match ev with
  | Arrives b =>
    ([], Ok {| next_frame := next_frame r; got := got r; inbox := inbox r ++ b; taken := taken r |})
  | Polled other =>
    match poll (next_frame r) (got r) (inbox r) with
    | PReady frame rest => ([Delivered frame], Ok (turn rest))
    | PFailed e => ([], Err e)
    | PPanicked => ([], Panic)
    | Pending f g =>
      if other then ([Dropped (taken r ++ inbox r)], Ok (turn []))
      else ([], Ok {| next_frame := f; got := g; inbox := []; taken := taken r ++ inbox r |})
    end
  end.

Fixpoint select_run (evs : list event) (r : reading) : list outcome * res IoError reading :=
  match evs with
  | [] => ([], Ok r)
  | ev :: evs =>
    match select_step ev r with
    | (outs, Ok r) => let '(outs', x) := select_run evs r in (outs ++ outs', x)
    | ended => ended
    end
  end.

Definition arrived (evs : list event) : bytes := evs ≫= λ ev, match ev with Arrives b => b | Polled _ => [] end.
Definition delivered (outs : list outcome) : list SteadyStateFrame :=
  omap (λ o, match o with Delivered f => Some f | Dropped _ => None end) outs.
(** Futures are dropped only between two frames. *)
Definition no_loss (outs : list outcome) : Prop := Forall (λ o, match o with Dropped b => b = [] | Delivered _ => True end) outs.

(** The future has read [taken]. *)
Definition reading_ok (r : reading) : Prop :=
  waits (next_frame r) (got r)
  ∧ ∀ more, read_steady_state_frame (taken r ++ more) = completes (next_frame r) (got r ++ more).

Lemma turn_ok i : reading_ok (turn i).
Proof. split; [done|]. intros more. symmetry. apply steady_frame_computes. Qed.

(** What a poll says of the bytes of the stream from the beginning of the turn. *)
Lemma poll_reads r : reading_ok r →
  match poll (next_frame r) (got r) (inbox r) with
  | PReady x rest => ∀ more, read_steady_state_frame (taken r ++ inbox r ++ more) = Ok (x, rest ++ more)
  | PFailed e => ∀ more, read_steady_state_frame (taken r ++ inbox r ++ more) = Err e
  | PPanicked => ∀ more, read_steady_state_frame (taken r ++ inbox r ++ more) = Panic
  | Pending f g => reading_ok {| next_frame := f; got := g; inbox := []; taken := taken r ++ inbox r |}
  end.
Proof.
  intros [Hw Hr]. pose proof (poll_spec (next_frame r) (got r) (inbox r) Hw) as H.
  destruct (poll _ _ _); [intros more; rewrite Hr; apply H..|].
  destruct H as [Hw' H]. split; [exact Hw'|]. intros more. cbn. rewrite <-H, <-Hr. by rewrite (assoc_L (++)).
Qed.

(** What is left of a client's packets, of which [later] has still to arrive. *)
Definition reads_on (ps : list client_packet) (later : bytes) (r : reading) : Prop :=
  reading_ok r ∧ Forall client_packet_ok ps ∧ taken r ++ inbox r ++ later = concat (encode_packet <$> ps).

Lemma empty_packet_ok : client_packet_ok (SlowPacket []).
Proof. by vm_compute. Qed.

Lemma poll_packet ps later r : reads_on ps later r →
  match poll (next_frame r) (got r) (inbox r) with
  | PReady f rest => ∃ p ps', ps = p :: ps' ∧ carries_packet p f ∧ rest ++ later = concat (encode_packet <$> ps')
  | PFailed _ | PPanicked => False
  | Pending _ _ => True
  end.
Proof.
  intros (Hr & Hps & E). pose proof (poll_reads r Hr) as H.
  destruct Hps as [|p ps Hp Hps]; cbn [fmap list_fmap concat] in E.
  - apply app_nil in E as [Et E]. apply app_nil in E as [Ei _].
    destruct (read_packet (SlowPacket []) [] empty_packet_ok) as (f & Ef & _). rewrite app_nil_r in Ef.
    destruct (poll _ _ _) as [x rest|e| |]; [..|done]; rewrite Et, Ei in H; cbn [app] in H; [|by rewrite H in Ef..].
    specialize (H []). vm_compute in H. discriminate H.
  - destruct (read_packet p (concat (encode_packet <$> ps)) Hp) as (f & Ef & Hf & _). rewrite <-E in Ef.
    destruct (poll _ _ _) as [x rest|e| |]; [..|done]; rewrite H in Ef; [|done..]. injection Ef as -> Erest.
    by exists p, ps.
Qed.

Lemma select_run_packets evs : ∀ ps rest r, reads_on ps (arrived evs ++ rest) r →
  let '(outs, x) := select_run evs r in no_loss outs →
  ∃ here after r', ps = here ++ after ∧ Forall2 carries_packet here (delivered outs)
    ∧ x = Ok r' ∧ reads_on after rest r'.
Proof.
  induction evs as [|ev evs IH]; intros ps rest r Hr; cbn [select_run].
  { intros _. by exists [], ps, r. }
  assert (∀ outs1 r1 ps1 here1, ps = here1 ++ ps1 → Forall2 carries_packet here1 (delivered outs1) →
    select_step ev r = (outs1, Ok r1) → (no_loss outs1 → reads_on ps1 (arrived evs ++ rest) r1) →
    let '(outs, x) := select_run (ev :: evs) r in no_loss outs →
    ∃ here after r', ps = here ++ after ∧ Forall2 carries_packet here (delivered outs)
      ∧ x = Ok r' ∧ reads_on after rest r') as Hstep.
  { intros outs1 r1 ps1 here1 -> Hh E Hr1. cbn [select_run]. rewrite E. specialize (IH ps1 rest r1).
    destruct (select_run evs r1) as [outs x]. intros Hn. apply Forall_app in Hn as [Hn1 Hn].
    destruct (IH (Hr1 Hn1) Hn) as (here & after & r' & -> & Hh' & -> & Hr'). exists (here1 ++ here), after, r'.
    split; [by rewrite (assoc_L (++))|]. split; [|done]. unfold delivered. rewrite omap_app. by apply Forall2_app. }
  cbn [select_run] in Hstep. pose proof Hr as (Hok & Hps & E). destruct ev as [b|other].
  - eapply (Hstep [] _ ps []); [done..|reflexivity|]. intros _. split; [exact Hok|]. split; [exact Hps|].
    rewrite <-E. cbn. by rewrite <-!(assoc_L (++)).
  - pose proof (poll_packet _ _ _ Hr) as Hp. pose proof (poll_reads r Hok) as Hq. cbn [select_step] in *.
    destruct (poll _ _ _) as [f s|e| |f g]; [|done..|].
    + destruct Hp as (p & ps' & -> & Hf & Es). apply Forall_cons in Hps as [_ Hps].
      eapply (Hstep [Delivered f] _ ps' [p]); [done|by constructor|reflexivity|]. intros _. split; [apply turn_ok|]. done.
    + destruct other.
      * eapply (Hstep [Dropped _] _ ps []); [done..|reflexivity|]. intros [Hn _]%Forall_cons. split; [apply turn_ok|].
        split; [done|]. rewrite <-E. cbn in *. by rewrite (assoc_L (++)), Hn.
      * eapply (Hstep [] _ ps []); [done..|reflexivity|]. intros _. split; [exact Hq|]. split; [done|].
        rewrite <-E. cbn. by rewrite <-!(assoc_L (++)).
Qed.

(** ** Properties *)

(** C8. The session reads what its client sends.  Whatever X.224 data and input a client sends, in
    whatever pieces it arrives, and whatever other arms of the loop complete in between: as long as
    no future is dropped in the middle of a frame, reading does not fail and does not panic, the
    frames delivered are the first of the client's packets, in order, each recognised as what it
    is and decoded to what was sent, and the bytes of the others are all still there to be read. *)
Theorem select_reads_packets (ps : list client_packet) (evs : list event) (later : bytes) :
  Forall client_packet_ok ps → arrived evs ++ later = concat (encode_packet <$> ps) →
  let '(outs, x) := select_run evs (turn []) in
  no_loss outs →
  ∃ here after r, ps = here ++ after ∧ Forall2 carries_packet here (delivered outs) ∧ x = Ok r
    ∧ taken r ++ inbox r ++ later = concat (encode_packet <$> after).
Proof.
  intros Hps E. assert (reads_on ps (arrived evs ++ later) (turn [])) as Hr by (split; [apply turn_ok|done]).
  apply (select_run_packets evs ps later) in Hr. destruct (select_run evs (turn [])) as [outs x]. intros Hn.
  destruct (Hr Hn) as (here & after & r & ? & ? & ? & _ & _ & ?). by exists here, after, r.
Qed.

(** C9. A frame that arrives in two pieces is lost.  Wherever a client's frame is cut, if another arm
    of the loop completes after the first piece has arrived and before the second, the first piece
    is gone with the future that had taken it, and the second is read as if a frame began there:
    as whatever it looks like. *)
Theorem split_frame_lost (p : client_packet) (a b later : bytes) (other : bool) :
  client_packet_ok p → encode_packet p = a ++ b → b ≠ [] →
  let evs := [Arrives a; Polled true; Arrives (b ++ later)] in
  select_run evs (turn []) = ([Dropped a], Ok (turn (b ++ later)))
  ∧ match read_steady_state_frame (b ++ later) with
    | Ok (f, s) => select_run (evs ++ [Polled other]) (turn []) = ([Dropped a; Delivered f], Ok (turn s))
    | Err UnexpectedEof => True
    | Err e => select_run (evs ++ [Polled other]) (turn []) = ([Dropped a], Err e)
    | Panic => False
    end.
Proof.
  intros Hp E Hb evs. assert (select_step (Polled true) (turn a) = ([Dropped a], Ok (turn []))) as E1.
  { pose proof (poll_reads (turn a) (turn_ok a)) as H. cbn [select_step turn next_frame got inbox taken app] in *.
    destruct (read_packet p [] Hp) as (f & Ef & _). rewrite app_nil_r, E in Ef.
    destruct (poll _ _ _) as [x rest|e| |f' g]; [| | |done]; rewrite H in Ef; [|done..].
    injection Ef as -> [_ ?]%app_nil. done. }
  assert (∀ evs', select_run (evs ++ evs') (turn []) =
    let '(outs, x) := select_run evs' (turn (b ++ later)) in (Dropped a :: outs, x)) as Erun.
  { intros evs'. subst evs. cbn [app]. cbn [select_run].
    change (select_step (Arrives a) (turn [])) with (@nil outcome, Ok (E := IoError) (turn a)). cbn iota beta.
    rewrite E1. cbn iota beta. cbn [select_step turn inbox app].
    change {| next_frame := _; got := _; inbox := _; taken := _ |} with (turn (b ++ later)).
    by destruct (select_run evs' (turn (b ++ later))). }
  split; [by rewrite <-(app_nil_r evs), Erun|]. rewrite Erun. clear Erun E1 E evs.
  pose proof (poll_reads (turn (b ++ later)) (turn_ok _)) as H.
  pose proof (poll_short (A := SteadyStateFrame) f_read_steady_state_frame [] (b ++ later)) as Hshort.
  cbn [select_run select_step turn next_frame got inbox taken app] in *.
  destruct (poll _ _ _) as [x rest|e| |f g]; [specialize (H []); rewrite !app_nil_r in H; rewrite H..|].
  - done.
  - by destruct e.
  - pose proof (steady_frame_splits (b ++ later)) as Hs. by rewrite H in Hs.
  - destruct H as [_ H]. specialize (H []). cbn in H. rewrite !app_nil_r in H.
    by rewrite H, (Hshort f g eq_refl).
Qed.

(** Input and data, in pieces that do not respect their frames; the arms of others complete between two
    frames only. *)
Definition sample_packets : list client_packet :=
  [InputPacket [EvScancode 0 30]; SlowPacket [1; 2; 3]; InputPacket [EvMouse 0x8000 5 6]].
Definition sample_events (s : bytes) : list event :=
  [Polled true; Arrives (take 2 s); Polled false; Arrives (take 5 (drop 2 s)); Polled false; Polled false;
   Arrives (take 7 (drop 7 s)); Polled true; Polled true].

Lemma select_reads_packets_witness :
  let s := concat (encode_packet <$> sample_packets) in
  let '(outs, x) := select_run (sample_events s) (turn []) in
  length (delivered outs) = 2%nat
  ∧ ∃ here after r, sample_packets = here ++ after ∧ Forall2 carries_packet here (delivered outs) ∧ x = Ok r
    ∧ taken r ++ inbox r ++ drop 14 s = concat (encode_packet <$> after).
Proof.
  intros s. assert (Forall client_packet_ok sample_packets) as Hps by (repeat constructor; vm_compute; congruence).
  pose proof (select_reads_packets sample_packets (sample_events s) (drop 14 s) Hps eq_refl) as H.
  assert (no_loss (select_run (sample_events s) (turn [])).1) as Hn by (vm_compute; repeat constructor).
  assert (length (delivered (select_run (sample_events s) (turn [])).1) = 2%nat) as Hl by (vm_compute; reflexivity).
  destruct (select_run (sample_events s) (turn [])) as [outs x]. split; [exact Hl|exact (H Hn)].
Defined.

(** The second piece of a client's data looks like input: a key is pressed that nobody touched. *)
Definition pressed : bytes := FastPathInput_encode [EvScancode 0 30].
Definition pasted : client_packet := SlowPacket ([1; 2; 3] ++ pressed).

Lemma split_frame_lost_witness :
  let a := take 10 (encode_packet pasted) in
  select_run [Arrives a; Polled true; Arrives (pressed ++ []); Polled false] (turn [])
    = ([Dropped a; Delivered (FastPathInput pressed)], Ok (turn []))
  ∧ FastPathInput_decode pressed = Ok [EvScancode 0 30].
Proof.
  intros a. split; [|vm_compute; reflexivity].
  assert (client_packet_ok pasted) as Hp by (vm_compute; congruence).
  assert (read_steady_state_frame (pressed ++ []) = Ok (FastPathInput pressed, [])) as E by (vm_compute; reflexivity).
  pose proof (split_frame_lost pasted a pressed [] false Hp eq_refl ltac:(discriminate)) as [_ H].
  rewrite E in H. exact H.
Defined.
